(* ===== verification/_CoqProject ===== *)
-Q . S2P
Prelude.v
Amount.v
Serialize.v
ScTypes.v
Primitives.v
Digits.v
Forks.v
Compress.v
Sidechain.v
Coins.v
CoinsSer.v
Undo.v
Merkle.v
View.v
ViewLaws.v
SampleLedger.v
TopLaws.v
ViewOps.v
ScOps.v
ScApply.v
ScRound.v
BlockCoins.v
ScCert.v
BwtOps.v
ScEvents.v
ScInv.v
UndoNorm.v
Script.v
Crypto.v
Interpreter.v
Standard.v
Chain.v
Base58.v
BlockData.v
Arith256.v
BlockIndex.v
TxSer.v
SigHash.v
Pow.v
Checks.v
Inputs.v
Connect.v
LedgerSteps.v
ConnectLaws.v
DisconnectLaws.v
UndoFile.v
Reorg.v
BlockTree.v
BestChain.v
