(* ===== verification/Prelude.v ===== *)
(** * Verification of the ledger of the Horizen node

    The program under [src/] is a full node of the Horizen blockchain: a Bitcoin
    and Zcash derived ledger of transactions with transparent outputs and
    shielded JoinSplits, extended with sidechains.  A transaction can create a
    sidechain, send coins to it (forward transfers), ask for coins back
    (mainchain backward transfer requests) and withdraw from a sidechain that has
    ceased (ceased sidechain withdrawals); a certificate, posted once per
    withdrawal epoch, pays coins of the sidechain to mainchain addresses
    (backward transfers).  This library models the part of the node that decides
    which blocks are valid, what they do to the ledger, how they are taken back,
    and which chain of blocks is the active one, with the data formats, scripts,
    hashes and arithmetic this rests on.

    ** How the parts interact

    A block arrives as bytes and is read ([TxSer]), checked without the ledger
    ([Checks], [Pow], [BlockData]) and entered in the tree of blocks
    ([BlockTree]).  The tree activates its best branch: [DisconnectBlock] takes
    back the blocks that leave the active chain and [ConnectBlock] adds those that
    enter it ([Connect]).  [ConnectBlock] checks inputs and their scripts
    ([Inputs], [Interpreter], [SigHash]) and whether sidechain operations apply
    ([ScApply]), then changes a cache over the coins view ([View]): unspent outputs
    ([BlockCoins]), sidechains and their scheduled events ([ScOps]), nullifiers and
    the tree of note commitments ([Merkle]).  What it needs to be taken back is
    written to the undo file ([Undo], [UndoFile]).  Caches are flushed towards the
    database.

    ** Files, from the bottom up

    Common ground:
    - [Prelude]: machine integers, the error type [res], the state monad [M] with
      its loops, and the weakest-precondition rules every other file uses.
    - [Amount] (amount.h, consensus/validation.h): amounts, fee rates, the
      validation state.  [Digits]: numbers as digits in a base.
    - [Serialize] (serialize.h): formats as a [Serializer] with the law [Lawful]:
      reading what was written gives the value and leaves the rest.

    Data and consensus rules:
    - [ScTypes] (sc/sidechaintypes.h): field elements, proofs, keys, custom
      fields, fixed parameters of a sidechain.  The cryptographic library is the
      class [ZendooLib].
    - [Primitives] (primitives/transaction.h, certificate.h): transactions and
      certificates, their values and context-free checks.
    - [Forks] (zen/forkmanager.cpp, zen/forks/): the rules that depend on the
      height, community funds and the block subsidy.
    - [Compress] (compressor.h): compact form of outputs.
    - [Sidechain] (sc/sidechain.h): the record [CSidechain], epochs and windows,
      the fee buffer, semantic checks of transactions and certificates.
    - [Coins], [CoinsSer] (coins.h): unspent outputs of a transaction and their
      disk format.  [Undo] (undo.h): undo records of a block.
    - [Merkle] (zcash/IncrementalMerkleTree.hpp): note commitment tree and its
      witnesses.

    The coins view:
    - [View] (coins.cpp, txdb.cpp): [CCoinsView] as a class, its two
      implementations [CCoinsViewDB] and [CCoinsViewCache V].
    - [ViewLaws]: what a view stands for ([denote : V -> AbsView]) and the laws
      [ViewLaws] a view promises to a cache above it; both implementations are
      instances.  [TopLaws], [ViewOps]: total ([awp]) and partial ([awlp])
      correctness rules for code that runs on a cache, stated on what the cache
      stands for.
    - [SampleLedger]: a small database on which the witnesses evaluate.

    Sidechains and coins in the ledger:
    - [ScOps] (coins.cpp): updates of the ledger by transactions, certificates and
      scheduled events, and their reversal.  [ScApply] (coins.cpp): the checks that
      precede them.  [ScRound], [ScCert], [BwtOps], [ScEvents]: transactions,
      certificates, backward transfers and events each undone exactly.
      [ScInv]: the invariant of sidechains and schedule that makes this so.
    - [BlockCoins] (main.cpp, coins.cpp): inputs spent and restored, outputs added
      and removed.  [UndoNorm]: undo data as it is read back from disk undoes the
      same.

    Scripts, hashes and blocks:
    - [Script], [Interpreter], [Standard] (script/): instructions and numbers,
      [EvalScript] and [VerifyScript], templates and destinations.  [SigHash]
      (script/interpreter.cpp): what a signature covers.
    - [Crypto] (crypto/, hash.cpp): SHA-256, SHA-512, SHA-1, RIPEMD-160, HMAC,
      MurmurHash3.  [Base58] (base58.cpp): addresses and keys as strings.
    - [Chain], [BlockIndex] (chain.h, chain.cpp): entries of the block index, the
      active chain, ancestors, locators, the format on disk.
    - [BlockData], [TxSer] (primitives/): headers, Merkle trees, and the wire format
      of transactions, certificates and blocks.
    - [Arith256] (arith_uint256.cpp), [Pow] (pow.cpp): 256-bit integers, difficulty
      and work.

    Validation and reorganisation:
    - [Checks] (main.cpp): [CheckTransaction], [CheckCertificate], [CheckBlock] and
      the contextual checks.  [Inputs] (main.cpp): [CheckTxInputs] and the checks of
      input scripts, on the view paired with the validation state.
    - [Connect] (main.cpp, sc/proofverifier.cpp): [ConnectBlock], [DisconnectBlock]
      and the undo files, on the record [Conn].
    - [LedgerSteps]: relations that say what a block does to the ledger;
      [ConnectLaws]: [ConnectBlock] implements them; [DisconnectLaws]:
      [DisconnectBlock] inverts them; [UndoFile]: what is written is read back;
      [Reorg]: the two put together.
    - [BlockTree] (main.cpp, zen/delay.cpp): the tree of blocks and the activation of
      the best chain; [BestChain]: its laws.  There the connection and disconnection
      of one block are parameters.

    ** What the theorems show

    - Reorganisation: a block that was connected is disconnected without an
      inconsistency and leaves the view as it was, for ledgers that satisfy an
      invariant ([Reorg.block_undone]), and connecting a block keeps the invariant
      ([Reorg.ledger_kept]); the sidechain part alone, with the hypotheses it needs
      ([ScRound]); the activation of the best chain ends, at the greatest block whose
      chain is valid, when every block has a fixed verdict
      ([BestChain.best_chain_activated]).
    - Views: flushing through two caches leaves on disk what the top one stood for
      ([ViewLaws.flush_to_disk]); [UpdateCoins] does to the outputs what it should.
    - Validity: what [CheckBlock] and [CheckTxInputs] accept ([Checks], [Inputs]) and
      that a header fixes the contents of its block, the rules of the coinbase, the
      order of certificates, the amounts of a transaction and every running total.
    - Scripts: evaluation always returns and respects the limits of size; for a
      script made for a key or for another script the verdict on every input script
      is stated; what a signature commits to under each hash type.
    - Formats: every format is read back as it was written (coins, undo data, undo
      files, blocks, index entries, addresses, scripts, numbers).
    - Arithmetic: 256-bit words, difficulty, work, subsidy and money bounds, epochs
      and windows, as numbers.
    - The Merkle trees agree with their definitions, and witnesses prove membership.

    Findings in the code are named in theorems that exhibit them, such as
    [ScRound.zero_fee_requests_stuck].

    ** Conventions

    A C++ function that changes an object is a function from the object to
    [res] of its result and the new object; a failed [assert] is
    [Err AssertFailed] and a thrown exception [Err (Exception what)], so that
    "returns" in a theorem always excludes both.  Loops over containers are
    recursion over lists, [std::set] and [std::map] are iterated in key order.
    Hash functions are computed.  Where an injective hash is needed, the hypothesis
    speaks only of the values at hand.

    Recursion that is not structural carries fuel.  The fuel given at a call bounds
    the iterations of the loop in the source, and the theorems are about the calls
    with that fuel:
    - the bytes that are left: [process_chunks], [ops_loop], [match_template],
      [match_pubkeys];
    - the number of elements: [nullify_loop], [spend_bwts], [merkle_level],
      [merkle_levels], [merkle_branch], [link_queue], [prune_loop],
      [find_most_work];
    - the depth of the tree: [propagate];
    - the bits or digits of a number: [div_loop], [strip_zeros], [shift_count],
      [varint_tmp], [varint_size], [abs_bytes];
    - the height of an entry or the length of the chain: [walk], [set_tip_loop],
      [fork_loop], [locator_loop], [test_chain], [remove_chain], [disconnect_to],
      [disconnect_from], [to_connect], [clear_ancestors], [connect_rounds].
    [ActivateBestChain] repeats until its goal is reached: its theorem gives a
    number of rounds that is enough from any state, since a round that does not
    finish marks a block as failed.

    ** Parameters

    secp256k1 ([Secp256k1], with the laws of point compression), signature
    verification, the zendoo library ([ZendooLib], the batch of proofs, the
    commitment to sidechain transactions), shielded proofs, Equihash, the hash of
    the note commitment tree, the generation of sidechain identifiers, and whether
    the disk has space or opens a file.

    ** Not modelled

    Signing and key stores, the memory pool and its policy, mining, the wallet, the
    network, RPC, start-up, notifications and logging: they are I/O, or depend on
    policy and do not decide what the ledger holds.  zk-SNARK proving, note
    encryption, the Equihash solver and the zendoo commitment tree are foreign
    code.  Of [ConnectBlock] and [DisconnectBlock] the optional indexes for block
    explorers and the list of certificate states for the wallet are left out; of the
    block tree the memory pool, the flushing to disk, the signals to the wallet and
    the warnings about forks; of the block files the blocks themselves, and
    pruning.  Threads and locks are not modelled: each function is one step. *)

From stdpp Require Import base numbers list gmap sets strings sorting option fin_maps.
From Stdlib Require Import ZArith Lia.

Declare Scope zen_scope.
Delimit Scope zen_scope with zen.
Open Scope Z_scope.

(** ** Machine integers

    The node is built for 64-bit targets.  A C++ integer is a [Z]; arithmetic on
    signed types is exact (overflow is undefined behaviour, the theorems about
    bounds say when it cannot occur), conversions between widths are these
    functions.  [/] and [%] on C++ integers truncate toward zero, hence
    [Z.quot] and [Z.rem]. *)
Definition to_u8 (x : Z) : Z := x mod 2^8.

Definition to_u16 (x : Z) : Z := x mod 2^16.

Definition to_u32 (x : Z) : Z := x mod 2^32.

Definition to_u64 (x : Z) : Z := x mod 2^64.

Definition to_i32 (x : Z) : Z := (x + 2^31) mod 2^32 - 2^31.

Definition to_i64 (x : Z) : Z := (x + 2^63) mod 2^64 - 2^63.

Definition is_i32 (x : Z) : Prop := - 2^31 <= x < 2^31.

Definition is_i64 (x : Z) : Prop := - 2^63 <= x < 2^63.

(** [uint256] is the number its 32-byte array denotes read from the first byte
    on, so that [memcmp], the order of [operator<], is the order of [Z]. *)
Abbreviation uint256 := Z (only parsing).
Abbreviation byte := Z (only parsing).
Abbreviation CAmount := Z (only parsing).

Definition bytes := list Z.

(** ** Results

    A failed [assert] aborts the process; a C++ exception that no modelled
    function catches leaves it with its message. *)
Inductive err : Type :=
| AssertFailed
| Exception (what : string).

Inductive res (A : Type) : Type :=
| Ok (a : A)
| Err (e : err).
Arguments Ok {A} a.
Arguments Err {A} e.

(** ** Stateful code: explicit state passing *)
Definition M (S A : Type) : Type := S -> res (A * S).

Definition ret {S A} (a : A) : M S A := fun s => Ok (a, s).

Definition fail {S A} (e : err) : M S A := fun _ => Err e.

Definition bind {S A B} (m : M S A) (k : A -> M S B) : M S B :=
  fun s => match m s with Ok (a, s') => k a s' | Err e => Err e end.

Definition get {S} : M S S := fun s => Ok (s, s).

Definition modify {S} (f : S -> S) : M S unit := fun s => Ok (tt, f s).

Definition massert {S} (b : bool) : M S unit :=
  fun s => if b then Ok (tt, s) else Err AssertFailed.

Definition lift {S A} (r : res A) : M S A :=
  fun s => match r with Ok a => Ok (a, s) | Err e => Err e end.

Notation "'let*' x := m 'in' k" := (bind m (fun x => k))
  (at level 10, x name, m at level 100, k at level 200) : zen_scope.
Notation "'let*' ' x := m 'in' k" := (bind m (fun x => k))
  (at level 10, x strict pattern, m at level 100, k at level 200) : zen_scope.
Notation "m ;;; k" := (bind m (fun _ => k))
  (at level 199, right associativity) : zen_scope.

(** [for (x : l) body]: the body returns [true] to go on with the next element
    ([continue] or falling through) and [false] for an early [return false]. *)
Fixpoint for_each {S A} (l : list A) (body : A -> M S bool) : M S bool :=
  match l with
  | [] => ret true
  | x :: l' => bind (body x) (fun ok => if ok then for_each l' body else ret false)
  end.

(** The same with a local variable the loop updates; [None] is the early return. *)
Fixpoint for_acc {S A B} (l : list A) (acc : B) (body : B -> A -> M S (option B))
  : M S (option B) :=
  match l with
  | [] => ret (Some acc)
  | x :: l' =>
      bind (body acc x) (fun r =>
        match r with Some acc' => for_acc l' acc' body | None => ret None end)
  end.

(** Iteration order of a [std::set] and of the keys of a [std::map]. *)
Definition set_iter (s : gset Z) : list Z := merge_sort Z.le (elements s).

(** ** Weakest preconditions

    [wp m Q s]: run from [s], [m] neither aborts nor throws and its value and
    final state satisfy [Q].  [wlp] only speaks of the runs that return. *)
Definition wp {S A} (m : M S A) (Q : A -> S -> Prop) (s : S) : Prop :=
  match m s with Ok (a, s') => Q a s' | Err _ => False end.

Definition wlp {S A} (m : M S A) (Q : A -> S -> Prop) (s : S) : Prop :=
  match m s with Ok (a, s') => Q a s' | Err _ => True end.

Section WpRules.
  Context {S : Type}.

Lemma wp_ret {A} (a : A) Q (s : S) : Q a s -> wp (ret a) Q s.
  Proof. done. Qed.

Lemma wp_get Q (s : S) : Q s s -> wp get Q s.
  Proof. done. Qed.

Lemma wp_modify (f : S -> S) Q s : Q tt (f s) -> wp (modify f) Q s.
  Proof. done. Qed.

Lemma wp_massert b Q (s : S) : b = true -> Q tt s -> wp (massert b) Q s.
  Proof. intros ->; done. Qed.

Lemma wp_bind {A B} (m : M S A) (k : A -> M S B) Q s :
    wp m (fun a s' => wp (k a) Q s') s -> wp (bind m k) Q s.
  Proof. unfold wp, bind. destruct (m s) as [[a s']|]; done. Qed.

Lemma wp_mono {A} (m : M S A) (Q1 Q2 : A -> S -> Prop) s :
    wp m Q1 s -> (forall a s', Q1 a s' -> Q2 a s') -> wp m Q2 s.
  Proof. unfold wp. destruct (m s) as [[a s']|]; auto. Qed.

  (** Invariant rule for a loop whose body always goes on. *)
Lemma wp_for_each {A} (l : list A) (body : A -> M S bool) (I : list A -> S -> Prop) s :
    I l s ->
    (forall x l' s, I (x :: l') s -> wp (body x) (fun b s' => b = true /\ I l' s') s) ->
    wp (for_each l body) (fun b s' => b = true /\ I [] s') s.
  Proof.
    revert s. induction l as [|x l IH]; intros s HI Hbody; [by split|].
    simpl. apply wp_bind. eapply wp_mono; [by apply Hbody|].
    intros b s' [-> HI']. by apply IH.
  Qed.

Lemma wlp_ret {A} (a : A) Q (s : S) : Q a s -> wlp (ret a) Q s.
  Proof. done. Qed.

Lemma wlp_get Q (s : S) : Q s s -> wlp get Q s.
  Proof. done. Qed.

Lemma wlp_modify (f : S -> S) Q s : Q tt (f s) -> wlp (modify f) Q s.
  Proof. done. Qed.

Lemma wlp_massert b Q (s : S) : (b = true -> Q tt s) -> wlp (massert b) Q s.
  Proof. unfold wlp, massert. destruct b; auto. Qed.

Lemma wlp_bind {A B} (m : M S A) (k : A -> M S B) Q s :
    wlp m (fun a s' => wlp (k a) Q s') s -> wlp (bind m k) Q s.
  Proof. unfold wlp, bind. destruct (m s) as [[a s']|]; done. Qed.

Lemma wlp_mono {A} (m : M S A) (Q1 Q2 : A -> S -> Prop) s :
    wlp m Q1 s -> (forall a s', Q1 a s' -> Q2 a s') -> wlp m Q2 s.
  Proof. unfold wlp. destruct (m s) as [[a s']|]; auto. Qed.

Lemma wp_wlp {A} (m : M S A) Q s : wp m Q s -> wlp m Q s.
  Proof. unfold wp, wlp. destruct (m s) as [[a s']|]; done. Qed.

  (** A loop that may return early: the invariant holds whatever it returns. *)
Lemma wlp_for_each_inv {A} (l : list A) (body : A -> M S bool) (I : S -> Prop) s :
    I s ->
    (forall x s, x ∈ l -> I s -> wlp (body x) (fun _ s' => I s') s) ->
    wlp (for_each l body) (fun _ s' => I s') s.
  Proof.
    revert s. induction l as [|x l IH]; intros s HI Hbody; [done|].
    simpl. apply wlp_bind. eapply wlp_mono; [apply Hbody; [set_solver|done]|].
    intros [] s' HI'; [|done]. apply IH; [done|]. intros; apply Hbody; [set_solver|done].
  Qed.
End WpRules.

(** ** Sorted iteration *)
Lemma set_iter_perm (s : gset Z) : set_iter s ≡ₚ elements s.
Proof. apply merge_sort_Permutation. Qed.

Lemma elem_of_set_iter x (s : gset Z) : x ∈ set_iter s <-> x ∈ s.
Proof. by rewrite set_iter_perm, elem_of_elements. Qed.

Lemma NoDup_set_iter (s : gset Z) : NoDup (set_iter s).
Proof. rewrite set_iter_perm. apply NoDup_elements. Qed.

Lemma list_to_set_iter (s : gset Z) : list_to_set (set_iter s) = s.
Proof. apply set_eq. intros x. by rewrite elem_of_list_to_set, elem_of_set_iter. Qed.

Lemma set_iter_empty : set_iter ∅ = [].
Proof. apply Permutation_nil. by rewrite set_iter_perm, elements_empty. Qed.

Lemma length_set_iter (s : gset Z) : length (set_iter s) = size s.
Proof. by rewrite set_iter_perm. Qed.

(** ** Bits: [Z.lor] of disjoint parts is their sum *)
Lemma lor_low k a b : 0 <= k -> 0 <= b < 2 ^ k -> Z.lor (a * 2 ^ k) b = a * 2 ^ k + b.
Proof.
  intros Hk Hb. assert (Hland : Z.land (a * 2 ^ k) b = 0).
  { destruct (decide (b = 0)) as [->|]; [apply Z.land_0_r|]. apply Z.bits_inj'. intros i Hi. rewrite Z.land_spec, Z.bits_0.
    destruct (Z.ltb_spec i k); [by rewrite Z.mul_pow2_bits_low|].
    rewrite andb_comm, Z.bits_above_log2; [done|lia|].
    apply Z.log2_lt_pow2; [lia|]. apply Z.lt_le_trans with (2 ^ k); [lia|].
    apply Z.pow_le_mono_r; lia. }
  rewrite <- Z.lxor_lor by done. by rewrite <- Z.add_nocarry_lxor.
Qed.

(** ** Automation shared by the components *)
Create HintDb zen.
#[export] Hint Resolve wp_ret wp_get wp_modify : zen.

(** Runs a monadic computation on a state it is stuck on: unfolds the binds and
    rewrites with the equations of the context. *)
Ltac mstep := unfold bind, ret, get, modify, massert, lift, fail; simpl.

(** Case analysis on the boolean comparisons of a goal, as linear facts. *)
Ltac zcases :=
  repeat match goal with
  | |- context [Z.ltb ?a ?b] => destruct (Z.ltb_spec a b)
  | |- context [Z.leb ?a ?b] => destruct (Z.leb_spec a b)
  | |- context [Z.eqb ?a ?b] => destruct (Z.eqb_spec a b)
  end.

(** Turns boolean comparisons in hypotheses into linear facts. *)
Ltac zbool :=
  repeat match goal with
  | H : _ && _ = true |- _ => apply andb_true_iff in H; destruct H
  | H : _ || _ = false |- _ => apply orb_false_iff in H; destruct H
  | H : negb _ = true |- _ => apply negb_true_iff in H
  | H : negb _ = false |- _ => apply negb_false_iff in H
  | H : Z.ltb _ _ = true |- _ => apply Z.ltb_lt in H
  | H : Z.ltb _ _ = false |- _ => apply Z.ltb_ge in H
  | H : Z.leb _ _ = true |- _ => apply Z.leb_le in H
  | H : Z.leb _ _ = false |- _ => apply Z.leb_gt in H
  | H : Z.eqb _ _ = true |- _ => apply Z.eqb_eq in H
  | H : Z.eqb _ _ = false |- _ => apply Z.eqb_neq in H
  end.
