(* ===== verification/Amount.v ===== *)
(** * Amounts and validation results

    [amount.h], [amount.cpp]: the money range and fee rates;
    [consensus/validation.h]: the state a validation leaves behind. *)

From stdpp Require Import base numbers list strings.
From Stdlib Require Import ZArith Lia.
From S2P Require Import Prelude.
Open Scope Z_scope.

Definition COIN : CAmount := 100000000.

Definition MAX_MONEY : CAmount := 21000000 * COIN.

Definition MoneyRange (nValue : CAmount) : bool := (0 <=? nValue) && (nValue <=? MAX_MONEY).

(** ** [CFeeRate]: satoshis per 1000 bytes.  [size_t] operands make both
    products and quotients unsigned 64-bit operations. *)
Record CFeeRate := mkCFeeRate { nSatoshisPerK : CAmount }.

Definition CFeeRate_of (nFeePaid nSize : Z) : CFeeRate :=
  mkCFeeRate (if 0 <? nSize then to_i64 (to_u64 (nFeePaid * 1000) / nSize) else 0).

Definition GetFee (r : CFeeRate) (nSize : Z) : CAmount :=
  let nFee := to_i64 (to_u64 (to_u64 (nSatoshisPerK r) * nSize) / 1000) in
  if (nFee =? 0) && (0 <? nSatoshisPerK r) then nSatoshisPerK r else nFee.

Definition GetFeePerK (r : CFeeRate) : CAmount := GetFee r 1000.

(** ** [CValidationState] *)
Inductive VMode := VALID | INVALID_MODE | RUNTIME_ERROR.

Inductive VCode :=
| OK | MALFORMED | INVALID | OBSOLETE | DUPLICATED | NONSTANDARD | DUST | INSUFFICIENT_FEE
| CHECKPOINT | CHECKBLOCKATHEIGHT_NOT_FOUND | SCID_NOT_FOUND | INSUFFICIENT_SCID_FUNDS
| ABSURDLY_HIGH_FEE | HAS_CONFLICTS | NO_COINS_FOR_INPUT | INVALID_PROOF | SC_CUM_COMM_TREE
| ACTIVE_CERT_DATA_HASH | TOO_MANY_CSW_INPUTS_FOR_SC.

#[export] Instance VMode_eq_dec : EqDecision VMode.
Proof. solve_decision. Defined.

#[export] Instance VCode_eq_dec : EqDecision VCode.
Proof. solve_decision. Defined.

Record CValidationState := mkCValidationState {
  mode : VMode;
  nDoS : Z;
  strRejectReason : string;
  chRejectCode : VCode;
  corruptionPossible : bool }.

Definition CValidationState_init : CValidationState :=
  mkCValidationState VALID 0 EmptyString OK false.

Definition DoS (level : Z) (ret : bool) (code : VCode) (reason : string) (corruption : bool)
  : M CValidationState bool :=
  fun st =>
    match mode st with
    | RUNTIME_ERROR =>
        Ok (ret, mkCValidationState RUNTIME_ERROR (nDoS st) reason code corruption)
    | _ => Ok (ret, mkCValidationState INVALID_MODE (nDoS st + level) reason code corruption)
    end.

Definition Invalid (ret : bool) (code : VCode) (reason : string) : M CValidationState bool :=
  DoS 0 ret code reason false.

Definition Error (reason : string) : M CValidationState bool :=
  fun st =>
    Ok (false, mkCValidationState RUNTIME_ERROR (nDoS st)
                 (match mode st with VALID => reason | _ => strRejectReason st end)
                 (chRejectCode st) (corruptionPossible st)).

(** [state.DoS(level, error(...), Code::INVALID, reason)]; [error] logs and
    returns [false]. *)
Definition reject (level : Z) (code : VCode) (reason : string) : M CValidationState bool :=
  DoS level false code reason false.

(** ** Lemmas *)
Lemma MoneyRange_spec x : MoneyRange x = true <-> 0 <= x <= MAX_MONEY.
Proof. unfold MoneyRange. rewrite andb_true_iff, !Z.leb_le. lia. Qed.

Lemma MoneyRange_false x : MoneyRange x = false <-> x < 0 \/ MAX_MONEY < x.
Proof. unfold MoneyRange. rewrite andb_false_iff, !Z.leb_gt. lia. Qed.

Lemma reject_false level code reason st :
  exists st', reject level code reason st = Ok (false, st') /\ mode st' <> VALID.
Proof. unfold reject, DoS. destruct (mode st) eqn:E; eexists; split; reflexivity || done. Qed.
