(* ===== verification/Serialize.v ===== *)
(** * The serialization format

    [serialize.h]: fixed-width integers, compact sizes, variable-length
    integers, vectors, optionals, pairs, maps, sets and lists, each as a writer,
    a reader and the size [GetSerializeSize] announces.  A reader is a
    computation over the rest of the stream; reading past its end throws.  The
    class [Lawful] states what a serializer owes its users, its instances
    discharge it per combinator. *)

From stdpp Require Import base numbers list strings gmap sets sorting option.
From Stdlib Require Import ZArith Lia.
From S2P Require Import Prelude.
Open Scope Z_scope.
Open Scope zen_scope.

Definition Reader (A : Type) : Type := M bytes A.

Definition end_of_data : err := Exception "CBaseDataStream::read(): end of data".

(** ** Fixed-width integers *)
Fixpoint le_split (n : nat) (x : Z) : bytes :=
  match n with
  | O => []
  | S n' => x mod 256 :: le_split n' (x / 256)
  end.

Fixpoint le_combine (l : bytes) : Z :=
  match l with [] => 0 | b :: l' => b + 256 * le_combine l' end.

Definition read_bytes (n : nat) : Reader bytes :=
  fun s => if (n <=? length s)%nat then Ok (take n s, drop n s) else Err end_of_data.

Definition read_le (n : nat) : Reader Z :=
  let* b := read_bytes n in ret (le_combine b).

Definition ser_writedata8 (x : Z) : bytes := le_split 1 x.

Definition ser_writedata16 (x : Z) : bytes := le_split 2 x.

Definition ser_writedata32 (x : Z) : bytes := le_split 4 x.

Definition ser_writedata64 (x : Z) : bytes := le_split 8 x.

Definition ser_readdata8 : Reader Z := read_le 1.

Definition ser_readdata16 : Reader Z := read_le 2.

Definition ser_readdata32 : Reader Z := read_le 4.

Definition ser_readdata64 : Reader Z := read_le 8.

(** ** Compact sizes *)
Definition MAX_SERIALIZED_COMPACT_SIZE : Z := 0x02000000.

Definition GetSizeOfCompactSize (nSize : Z) : Z :=
  if nSize <? 253 then 1
  else if nSize <=? 0xFFFF then 3
  else if nSize <=? 0xFFFFFFFF then 5
  else 9.

Definition WriteCompactSize (nSize : Z) : bytes :=
  if nSize <? 253 then ser_writedata8 nSize
  else if nSize <=? 0xFFFF then ser_writedata8 253 ++ ser_writedata16 nSize
  else if nSize <=? 0xFFFFFFFF then ser_writedata8 254 ++ ser_writedata32 nSize
  else ser_writedata8 255 ++ ser_writedata64 nSize.

Definition non_canonical : err := Exception "non-canonical ReadCompactSize()".

Definition ReadCompactSize : Reader Z :=
  let* chSize := ser_readdata8 in
  let* nSizeRet :=
    (if chSize <? 253 then ret chSize
     else if chSize =? 253 then
       let* n := ser_readdata16 in if n <? 253 then fail non_canonical else ret n
     else if chSize =? 254 then
       let* n := ser_readdata32 in if n <? 0x10000 then fail non_canonical else ret n
     else
       let* n := ser_readdata64 in if n <? 0x100000000 then fail non_canonical else ret n) in
  if MAX_SERIALIZED_COMPACT_SIZE <? nSizeRet
  then fail (Exception "ReadCompactSize(): size too large")
  else ret nSizeRet.

(** ** Variable-length integers

    The digits are computed from the least significant one into [tmp] and
    written in reverse.  Ten digits are enough for a 64-bit value. *)
Fixpoint varint_tmp (fuel : nat) (n : Z) (first : bool) (tmp : bytes) : bytes :=
  let d := Z.lor (Z.land n 0x7F) (if first then 0 else 0x80) in
  match fuel with
  | O => d :: tmp
  | S fuel' => if n <=? 0x7F then d :: tmp else varint_tmp fuel' (Z.shiftr n 7 - 1) false (d :: tmp)
  end.

Definition WriteVarInt (n : Z) : bytes := varint_tmp 10 n true [].

Fixpoint varint_size (fuel : nat) (n : Z) : Z :=
  match fuel with
  | O => 1
  | S fuel' => if n <=? 0x7F then 1 else 1 + varint_size fuel' (Z.shiftr n 7 - 1)
  end.

Definition GetSizeOfVarInt (n : Z) : Z := varint_size 10 n.

(** [w] is the conversion to the integer type read into. *)
Fixpoint read_varint (w : Z -> Z) (n : Z) (s : bytes) : res (Z * bytes) :=
  match s with
  | [] => Err end_of_data
  | chData :: s' =>
      let n1 := Z.lor (w (Z.shiftl n 7)) (Z.land chData 0x7F) in
      if negb (Z.land chData 0x80 =? 0) then read_varint w (w (n1 + 1)) s' else Ok (n1, s')
  end.

Definition ReadVarInt (w : Z -> Z) : Reader Z := read_varint w 0.

(** [READWRITE_VARINT_WITH_SIGN] *)
Definition WriteVarIntWithSign (obj : Z) : bytes :=
  WriteVarInt (if obj <? 0 then Z.lor (Z.shiftl (- obj) 1) 1 else Z.shiftl obj 1).

Definition ReadVarIntWithSign : Reader Z :=
  let* obj := ReadVarInt to_i32 in
  ret (if Z.land obj 1 =? 1 then - Z.shiftr obj 1 else Z.shiftr obj 1).

(** ** Serializers *)
Record Serializer (A : Type) := mkSerializer {
  ser : A -> bytes;
  unser : Reader A;
  ser_size : A -> Z }.
Arguments mkSerializer {A}.
Arguments ser {A}.
Arguments unser {A}.
Arguments ser_size {A}.

Definition s_u8 : Serializer Z := mkSerializer ser_writedata8 ser_readdata8 (fun _ => 1).

Definition s_u16 : Serializer Z := mkSerializer ser_writedata16 ser_readdata16 (fun _ => 2).

Definition s_u32 : Serializer Z := mkSerializer ser_writedata32 ser_readdata32 (fun _ => 4).

Definition s_i32 : Serializer Z :=
  mkSerializer ser_writedata32 (let* x := ser_readdata32 in ret (to_i32 x)) (fun _ => 4).

Definition s_i64 : Serializer Z :=
  mkSerializer ser_writedata64 (let* x := ser_readdata64 in ret (to_i64 x)) (fun _ => 8).

Definition s_bool : Serializer bool :=
  mkSerializer (fun b : bool => ser_writedata8 (if b then 1 else 0))
    (let* x := ser_readdata8 in ret (negb (x =? 0))) (fun _ => 1).

(** [base_blob<256>]: the array as it is; the number is its big-endian value. *)
Definition s_uint256 : Serializer Z :=
  mkSerializer (fun x => rev (le_split 32 x))
    (let* b := read_bytes 32 in ret (le_combine (rev b))) (fun _ => 32).

Definition s_compact : Serializer Z :=
  mkSerializer WriteCompactSize ReadCompactSize GetSizeOfCompactSize.

Definition s_varint (w : Z -> Z) : Serializer Z :=
  mkSerializer WriteVarInt (ReadVarInt w) GetSizeOfVarInt.

(** [std::vector<unsigned char>] *)
Definition s_bytes : Serializer bytes :=
  mkSerializer (fun v : bytes => WriteCompactSize (Z.of_nat (length v)) ++ v)
    (let* n := ReadCompactSize in read_bytes (Z.to_nat n))
    (fun v => GetSizeOfCompactSize (Z.of_nat (length v)) + Z.of_nat (length v)).

Fixpoint read_n {A} (n : nat) (r : Reader A) : Reader (list A) :=
  match n with
  | O => ret []
  | S n' => let* x := r in let* l := read_n n' r in ret (x :: l)
  end.

(** [std::vector<T>] and [std::list<T>] *)
Definition s_vec {A} (s : Serializer A) : Serializer (list A) :=
  mkSerializer
    (fun v : list A => WriteCompactSize (Z.of_nat (length v)) ++ concat (map (ser s) v))
    (let* n := ReadCompactSize in read_n (Z.to_nat n) (unser s))
    (fun v => GetSizeOfCompactSize (Z.of_nat (length v)) + foldr Z.add 0 (map (ser_size s) v)).

(** [boost::optional<T>] *)
Definition s_opt {A} (s : Serializer A) : Serializer (option A) :=
  mkSerializer
    (fun o : option A => match o with Some x => ser_writedata8 1 ++ ser s x | None => ser_writedata8 0 end)
    (let* d := ser_readdata8 in
     if d =? 0 then ret None
     else if d =? 1 then let* x := unser s in ret (Some x)
     else fail (Exception "non-canonical optional discriminant"))
    (fun o => match o with Some x => 1 + ser_size s x | None => 1 end).

Definition s_pair {A B} (s : Serializer A) (t : Serializer B) : Serializer (A * B) :=
  mkSerializer (fun p : A * B => ser s p.1 ++ ser t p.2)
    (let* x := unser s in let* y := unser t in ret (x, y))
    (fun p => ser_size s p.1 + ser_size t p.2).

(** A record is serialized through the tuple of its fields. *)
Definition s_iso {A B} (to : A -> B) (from : B -> A) (s : Serializer B) : Serializer A :=
  mkSerializer (fun x => ser s (to x)) (let* y := unser s in ret (from y)) (fun x => ser_size s (to x)).

(** [std::set<uint256>]: in increasing order; reading inserts one by one. *)
Definition s_set (s : Serializer Z) : Serializer (gset Z) :=
  mkSerializer (fun m : gset Z => ser (s_vec s) (set_iter m))
    (let* l := unser (s_vec s) in ret (list_to_set l))
    (fun m => ser_size (s_vec s) (set_iter m)).

(** [std::map<int, T>]: in increasing key order; on reading, [insert] keeps the
    first value of a key. *)
Definition map_iter {V} (m : gmap Z V) : list (Z * V) :=
  omap (fun k => (fun v => (k, v)) <$> m !! k) (set_iter (dom m)).

Definition s_map {V} (s : Serializer Z) (t : Serializer V) : Serializer (gmap Z V) :=
  mkSerializer (fun m : gmap Z V => ser (s_vec (s_pair s t)) (map_iter m))
    (let* l := unser (s_vec (s_pair s t)) in ret (list_to_map l))
    (fun m => ser_size (s_vec (s_pair s t)) (map_iter m)).

(** ** The contract of a serializer on the values [ok] accepts *)
Class Lawful {A} (s : Serializer A) (ok : A -> Prop) := {
  unser_ser : forall a rest, ok a -> unser s (ser s a ++ rest) = Ok (a, rest);
  ser_size_ser : forall a, ok a -> ser_size s a = Z.of_nat (length (ser s a)) }.

(** ** Fixed-width integers: lemmas *)
Lemma length_le_split n x : length (le_split n x) = n.
Proof. revert x. induction n as [|n IH]; intros x; simpl; [done|]. by rewrite IH. Qed.

Lemma le_combine_split n x : le_combine (le_split n x) = x mod 2 ^ (8 * Z.of_nat n).
Proof.
  revert x. induction n as [|n IH]; intros x; simpl le_combine.
  { rewrite Z.mod_1_r. done. }
  simpl. rewrite IH.
  replace (8 * Z.of_nat (S n)) with (8 + 8 * Z.of_nat n) by lia.
  rewrite Z.pow_add_r by lia. change (2 ^ 8) with 256.
  rewrite Z.rem_mul_r by lia. reflexivity.
Qed.

Lemma read_bytes_app b rest n :
  length b = n -> read_bytes n (b ++ rest) = Ok (b, rest).
Proof.
  intros <-. unfold read_bytes. rewrite length_app.
  destruct (Nat.leb_spec (length b) (length b + length rest)); [|lia].
  by rewrite take_app_length, drop_app_length.
Qed.

Lemma read_le_app n x rest :
  read_le n (le_split n x ++ rest) = Ok (x mod 2 ^ (8 * Z.of_nat n), rest).
Proof.
  unfold read_le, bind. rewrite read_bytes_app by apply length_le_split.
  unfold ret. by rewrite le_combine_split.
Qed.

Lemma bind_ok {S A B} (m : M S A) (k : A -> M S B) s a s' :
  m s = Ok (a, s') -> bind m k s = k a s'.
Proof. unfold bind. by intros ->. Qed.

Lemma to_i32_mod x : is_i32 x -> to_i32 (x mod 2 ^ 32) = x.
Proof.
  unfold is_i32, to_i32. intros Hx.
  rewrite Zplus_mod_idemp_l, (Z.mod_small (x + 2 ^ 31)) by lia. lia.
Qed.

Lemma to_i64_mod x : is_i64 x -> to_i64 (x mod 2 ^ 64) = x.
Proof.
  unfold is_i64, to_i64. intros Hx.
  rewrite Zplus_mod_idemp_l, (Z.mod_small (x + 2 ^ 63)) by lia. lia.
Qed.

#[export] Instance u8_lawful : Lawful s_u8 (fun x => 0 <= x < 2 ^ 8).
Proof.
  split; [|done]. intros x rest Hx. cbn [unser ser s_u8 s_u32 s_i32 s_i64 s_uint256].
  unfold ser_readdata8, ser_writedata8. rewrite read_le_app. rewrite Z.mod_small; done.
Qed.

#[export] Instance u32_lawful : Lawful s_u32 (fun x => 0 <= x < 2 ^ 32).
Proof.
  split; [|done]. intros x rest Hx. cbn [unser ser s_u8 s_u32 s_i32 s_i64 s_uint256].
  unfold ser_readdata32, ser_writedata32. rewrite read_le_app. rewrite Z.mod_small; done.
Qed.

#[export] Instance i32_lawful : Lawful s_i32 is_i32.
Proof.
  split; [|done]. intros x rest Hx. cbn [unser ser s_u8 s_u32 s_i32 s_i64 s_uint256].
  unfold ser_readdata32, ser_writedata32. rewrite (bind_ok _ _ _ _ _ (read_le_app 4 x rest)).
  unfold ret. by rewrite to_i32_mod.
Qed.

#[export] Instance i64_lawful : Lawful s_i64 is_i64.
Proof.
  split; [|done]. intros x rest Hx. cbn [unser ser s_u8 s_u32 s_i32 s_i64 s_uint256].
  unfold ser_readdata64, ser_writedata64. rewrite (bind_ok _ _ _ _ _ (read_le_app 8 x rest)).
  unfold ret. by rewrite to_i64_mod.
Qed.

#[export] Instance uint256_lawful : Lawful s_uint256 (fun x => 0 <= x < 2 ^ 256).
Proof.
  split.
  - intros x rest Hx. cbn [unser ser s_u8 s_u32 s_i32 s_i64 s_uint256]. unfold bind.
    rewrite read_bytes_app by (by rewrite length_rev, length_le_split).
    unfold ret. rewrite rev_involutive, le_combine_split, Z.mod_small; done.
  - intros x _. cbn [ser ser_size s_uint256]. by rewrite length_rev, length_le_split.
Qed.

#[export] Instance bool_lawful : Lawful s_bool (fun _ => True).
Proof. split; [|by intros []]. by intros [] rest _. Qed.

(** ** Compact sizes *)
Lemma read_le_then {B} n x rest (k : Z -> Reader B) :
  0 <= x < 2 ^ (8 * Z.of_nat n) -> bind (read_le n) k (le_split n x ++ rest) = k x rest.
Proof. intros Hx. rewrite (bind_ok _ _ _ _ _ (read_le_app n x rest)), Z.mod_small; done. Qed.

Lemma read_compact_app x rest :
  0 <= x <= MAX_SERIALIZED_COMPACT_SIZE -> ReadCompactSize (WriteCompactSize x ++ rest) = Ok (x, rest).
Proof.
  unfold MAX_SERIALIZED_COMPACT_SIZE. intros Hx. unfold WriteCompactSize, ReadCompactSize.
  assert (Hbig : (MAX_SERIALIZED_COMPACT_SIZE <? x) = false)
    by (apply Z.ltb_ge; unfold MAX_SERIALIZED_COMPACT_SIZE; lia).
  destruct (Z.ltb_spec x 253) as [H1|H1].
  { unfold ser_readdata8, ser_writedata8. rewrite read_le_then by (simpl; lia).
    rewrite (proj2 (Z.ltb_lt x 253) H1).
    rewrite (bind_ok _ _ _ x rest eq_refl), Hbig. done. }
  assert (Hlt : (x <? 253) = false) by (apply Z.ltb_ge; lia).
  destruct (Z.leb_spec x 0xFFFF) as [H2|H2]; [|destruct (Z.leb_spec x 0xFFFFFFFF); [|lia]];
    rewrite <- app_assoc; unfold ser_readdata8, ser_writedata8; rewrite read_le_then by (simpl; lia);
    rewrite (bind_ok _ _ _ x rest); rewrite ?Hbig; try done; cbn -[read_le le_split].
  - unfold ser_readdata16, ser_writedata16. rewrite read_le_then by (simpl; lia).
    by rewrite Hlt.
  - unfold ser_readdata32, ser_writedata32. rewrite read_le_then by (simpl; lia).
    rewrite (proj2 (Z.ltb_ge x 0x10000)) by lia. done.
Qed.

#[export] Instance compact_lawful :
  Lawful s_compact (fun x => 0 <= x <= MAX_SERIALIZED_COMPACT_SIZE).
Proof.
  split; [intros; by apply read_compact_app|].
  intros x _. simpl. unfold GetSizeOfCompactSize, WriteCompactSize.
  repeat case_match; done.
Qed.

(** ** Variable-length integers *)
Lemma land_127 n : Z.land n 0x7F = n mod 128.
Proof. change 0x7F with (Z.ones 7). by rewrite Z.land_ones. Qed.

Lemma digit_cont n : Z.land (Z.lor (Z.land n 0x7F) 0x80) 0x80 = 0x80.
Proof.
  rewrite Z.land_lor_distr_l, <- Z.land_assoc. simpl (Z.land 0x7F 0x80).
  by rewrite Z.land_0_r.
Qed.

Lemma digit_last n : Z.land (Z.lor (Z.land n 0x7F) 0) 0x80 = 0.
Proof. rewrite Z.lor_0_r, <- Z.land_assoc. simpl (Z.land 0x7F 0x80). by rewrite Z.land_0_r. Qed.

Lemma digit_value n b : b = 0 \/ b = 0x80 -> Z.land (Z.lor (Z.land n 0x7F) b) 0x7F = n mod 128.
Proof.
  intros Hb. rewrite Z.land_lor_distr_l, <- Z.land_assoc. simpl (Z.land 0x7F 0x7F).
  rewrite land_127. destruct Hb as [-> | ->]; simpl; by rewrite Z.lor_0_r.
Qed.

Lemma lor_shiftl_7 a b : 0 <= b < 128 -> Z.lor (Z.shiftl a 7) b = a * 128 + b.
Proof. intros Hb. rewrite Z.shiftl_mul_pow2 by lia. by apply (lor_low 7). Qed.

Section VarInt.
  Context (w : Z -> Z) (B : Z).
  Hypothesis w_id : forall x, 0 <= x < B -> w x = x.

Lemma read_varint_step m n b tmp :
    0 <= m -> m * 128 + n mod 128 = n -> 0 <= n < B -> b = 0 \/ b = 0x80 ->
    read_varint w m (Z.lor (Z.land n 0x7F) b :: tmp)
    = if b =? 0 then Ok (n, tmp) else read_varint w (w (n + 1)) tmp.
  Proof.
    intros Hm Hn HB Hb. cbn [read_varint]. pose proof (Z.mod_pos_bound n 128 ltac:(lia)).
    rewrite digit_value by done.
    rewrite (w_id (Z.shiftl m 7)) by (rewrite Z.shiftl_mul_pow2 by lia; change (2 ^ 7) with 128; lia).
    rewrite lor_shiftl_7, Hn by lia.
    destruct Hb as [-> | ->]; [by rewrite digit_last|by rewrite digit_cont].
  Qed.

Lemma read_varint_tmp fuel n (first : bool) tmp :
    0 <= n -> n + (if first then 0 else 1) < B -> n < 128 ^ (Z.of_nat fuel + 1) ->
    read_varint w 0 (varint_tmp fuel n first tmp)
    = if first then Ok (n, tmp) else read_varint w (n + 1) tmp.
  Proof.
    revert n first tmp. induction fuel as [|fuel IH]; intros n first tmp H0 HB Hf.
    { simpl varint_tmp. rewrite read_varint_step; [|lia| | |by destruct first; auto].
      - destruct first; simpl; [done|]. by rewrite w_id by lia.
      - rewrite Z.mod_small by (simpl in Hf; lia). lia.
      - destruct first; lia. }
    cbn [varint_tmp]. destruct (Z.leb_spec n 0x7F) as [Hs|Hs].
    { rewrite read_varint_step; [|lia| | |by destruct first; auto].
      - destruct first; simpl; [done|]. by rewrite w_id by lia.
      - rewrite Z.mod_small by lia. lia.
      - destruct first; lia. }
    rewrite Z.shiftr_div_pow2 by lia. change (2 ^ 7) with 128.
    assert (n / 128 <= n) by (apply Z.div_le_upper_bound; lia).
    assert (1 <= n / 128) by (apply Z.div_le_lower_bound; lia).
    replace (Z.of_nat (S fuel) + 1) with (1 + (Z.of_nat fuel + 1)) in Hf by lia.
    rewrite Z.pow_add_r in Hf by lia.
    assert (n / 128 < 128 ^ (Z.of_nat fuel + 1)) by (apply Z.div_lt_upper_bound; lia).
    rewrite IH; [|lia|destruct first; lia|lia].
    replace (n / 128 - 1 + 1) with (n / 128) by lia.
    pose proof (Z.div_mod n 128 ltac:(lia)).
    rewrite read_varint_step; [|lia|lia|destruct first; lia|by destruct first; auto].
    destruct first; simpl; [done|]. by rewrite w_id by lia.
  Qed.

Lemma varint_size_tmp fuel n first tmp :
    Z.of_nat (length (varint_tmp fuel n first tmp)) = varint_size fuel n + Z.of_nat (length tmp).
  Proof using Type.
    revert n first tmp. induction fuel as [|fuel IH]; intros n first tmp;
      cbn [varint_tmp varint_size]; [simpl; lia|].
    case_match; [simpl; lia|]. rewrite IH. simpl. lia.
  Qed.

Lemma varint_size_bound fuel k n :
    (1 <= k)%nat -> 0 <= n < 128 ^ Z.of_nat k -> 1 <= varint_size fuel n <= Z.of_nat k.
  Proof using Type.
    revert k n. induction fuel as [|fuel IH]; intros k n Hk Hn; cbn [varint_size]; [lia|].
    destruct (Z.leb_spec n 0x7F) as [|Hs]; [lia|].
    rewrite Z.shiftr_div_pow2 by lia. change (2 ^ 7) with 128.
    destruct k as [|[|k]]; [lia|simpl in Hn; lia|].
    assert (1 <= n / 128) by (apply Z.div_le_lower_bound; lia).
    assert (n / 128 < 128 ^ Z.of_nat (S k)).
    { apply Z.div_lt_upper_bound; [lia|]. rewrite <- Z.pow_succ_r by lia.
      replace (Z.succ (Z.of_nat (S k))) with (Z.of_nat (S (S k))) by lia. lia. }
    pose proof (IH (S k) (n / 128 - 1) ltac:(lia) ltac:(lia)). lia.
  Qed.
End VarInt.

Lemma varint_app_tmp fuel n first tmp rest :
  varint_tmp fuel n first tmp ++ rest = varint_tmp fuel n first (tmp ++ rest).
Proof.
  revert n first tmp. induction fuel as [|fuel IH]; intros n first tmp; cbn [varint_tmp]; [done|].
  case_match; [done|]. by rewrite IH.
Qed.

Lemma varint_lawful_at w B :
  (forall x, 0 <= x < B -> w x = x) -> B <= 2 ^ 64 -> Lawful (s_varint w) (fun n => 0 <= n < B).
Proof.
  intros Hw HB. split.
  - intros n rest Hn. cbn [unser ser s_varint]. unfold ReadVarInt, WriteVarInt.
    rewrite varint_app_tmp. rewrite (read_varint_tmp w B) by (done || lia). done.
  - intros n Hn. cbn [ser ser_size s_varint]. unfold GetSizeOfVarInt, WriteVarInt.
    by rewrite varint_size_tmp, Z.add_0_r.
Qed.

#[export] Instance varint_i32_lawful : Lawful (s_varint to_i32) (fun n => 0 <= n < 2 ^ 31).
Proof.
  apply varint_lawful_at; [|lia]. intros x Hx. unfold to_i32. rewrite Z.mod_small by lia. lia.
Qed.

#[export] Instance varint_u32_lawful : Lawful (s_varint to_u32) (fun n => 0 <= n < 2 ^ 32).
Proof. apply varint_lawful_at; [|lia]. intros x Hx. unfold to_u32. by rewrite Z.mod_small. Qed.

#[export] Instance varint_u64_lawful : Lawful (s_varint to_u64) (fun n => 0 <= n < 2 ^ 64).
Proof. apply varint_lawful_at; [|lia]. intros x Hx. unfold to_u64. by rewrite Z.mod_small. Qed.

(** ** Combinators *)
Lemma unser_then {A B} (s : Serializer A) ok `{!Lawful s ok} (k : A -> Reader B) a rest :
  ok a -> bind (unser s) k (ser s a ++ rest) = k a rest.
Proof. intros Ha. by rewrite (bind_ok _ _ _ _ _ (unser_ser a rest Ha)). Qed.

Lemma compact_size_length x :
  Z.of_nat (length (WriteCompactSize x)) = GetSizeOfCompactSize x.
Proof. unfold GetSizeOfCompactSize, WriteCompactSize. repeat case_match; done. Qed.

#[export] Instance bytes_lawful :
  Lawful s_bytes (fun v => Z.of_nat (length v) <= MAX_SERIALIZED_COMPACT_SIZE).
Proof.
  split.
  - intros v rest Hv. cbn [unser ser s_bytes]. rewrite <- app_assoc.
    rewrite (bind_ok _ _ _ _ _ (read_compact_app _ _ (conj (Nat2Z.is_nonneg _) Hv))).
    by rewrite Nat2Z.id, read_bytes_app.
  - intros v Hv. cbn [ser ser_size s_bytes]. rewrite length_app, Nat2Z.inj_add.
    by rewrite compact_size_length.
Qed.

Lemma read_n_app {A} (s : Serializer A) ok `{!Lawful s ok} l rest :
  Forall ok l -> read_n (length l) (unser s) (concat (map (ser s) l) ++ rest) = Ok (l, rest).
Proof.
  intros Hl. revert rest. induction Hl as [|x l Hx Hl IH]; intros rest; [done|].
  cbn [length read_n map concat]. rewrite <- app_assoc, (unser_then s ok) by done.
  by rewrite (bind_ok _ _ _ _ _ (IH rest)).
Qed.

#[export] Instance vec_lawful {A} (s : Serializer A) ok `{!Lawful s ok} :
  Lawful (s_vec s) (fun v => Z.of_nat (length v) <= MAX_SERIALIZED_COMPACT_SIZE /\ Forall ok v).
Proof.
  split.
  - intros v rest [Hv Hok]. cbn [unser ser s_vec]. rewrite <- app_assoc.
    rewrite (bind_ok _ _ _ _ _ (read_compact_app _ _ (conj (Nat2Z.is_nonneg _) Hv))).
    rewrite Nat2Z.id. by apply read_n_app with ok.
  - intros v [Hv Hok]. cbn [ser ser_size s_vec]. rewrite length_app, Nat2Z.inj_add.
    rewrite compact_size_length. f_equal.
    clear Hv. induction Hok as [|x l Hx Hl IH]; [done|].
    cbn [map foldr concat]. rewrite length_app, Nat2Z.inj_add, IH.
    by rewrite (ser_size_ser (s := s)).
Qed.

#[export] Instance opt_lawful {A} (s : Serializer A) ok `{!Lawful s ok} :
  Lawful (s_opt s) (fun o => match o with Some x => ok x | None => True end).
Proof.
  split.
  - intros [x|] rest Hx; [|done]. cbn [unser ser s_opt]. rewrite <- app_assoc.
    unfold ser_readdata8, ser_writedata8. rewrite read_le_then by (simpl; lia).
    cbn -[unser ser]. by rewrite (unser_then s ok).
  - intros [x|] Hx; [|done]. cbn [ser ser_size s_opt]. rewrite length_app, Nat2Z.inj_add.
    by rewrite (ser_size_ser (s := s)).
Qed.

#[export] Instance pair_lawful {A B} (s : Serializer A) (t : Serializer B) ok ok'
  `{!Lawful s ok, !Lawful t ok'} : Lawful (s_pair s t) (fun p => ok p.1 /\ ok' p.2).
Proof.
  split.
  - intros [x y] rest [Hx Hy]. cbn [unser ser s_pair fst snd]. rewrite <- app_assoc.
    rewrite (unser_then s ok), (unser_then t ok') by done. done.
  - intros [x y] [Hx Hy]. cbn [ser ser_size s_pair fst snd]. rewrite length_app, Nat2Z.inj_add.
    by rewrite (ser_size_ser (s := s)), (ser_size_ser (s := t)).
Qed.

Lemma iso_lawful {A B} (to : A -> B) (from : B -> A) (s : Serializer B) ok (okA : A -> Prop)
  `{!Lawful s ok} :
  (forall a, okA a -> from (to a) = a) -> (forall a, okA a -> ok (to a)) ->
  Lawful (s_iso to from s) okA.
Proof.
  intros Hft Hok. split.
  - intros a rest Ha. cbn [unser ser s_iso]. rewrite (unser_then s ok) by auto.
    unfold ret. by rewrite Hft.
  - intros a Ha. cbn [ser ser_size s_iso]. apply ser_size_ser. auto.
Qed.

#[export] Instance set_lawful (s : Serializer Z) ok `{!Lawful s ok} :
  Lawful (s_set s)
    (fun m => Z.of_nat (size m) <= MAX_SERIALIZED_COMPACT_SIZE /\ forall x, x ∈ m -> ok x).
Proof.
  assert (Hok : forall m : gset Z, Z.of_nat (size m) <= MAX_SERIALIZED_COMPACT_SIZE ->
    (forall x, x ∈ m -> ok x) ->
    Z.of_nat (length (set_iter m)) <= MAX_SERIALIZED_COMPACT_SIZE /\ Forall ok (set_iter m)).
  { intros m Hm Hx. rewrite length_set_iter. split; [done|].
    apply Forall_forall. intros x Hx'%list_elem_of_In%elem_of_set_iter. auto. }
  split; intros m; [intros rest|]; intros [Hm Hx]; destruct (Hok m Hm Hx) as [H1 H2].
  - cbn [unser ser s_set]. rewrite (unser_then (s_vec s) _) by done.
    unfold ret. by rewrite list_to_set_iter.
  - cbn [ser ser_size s_set]. by apply (ser_size_ser (s := s_vec s)).
Qed.

Lemma map_iter_fst {V} (m : gmap Z V) : (map_iter m).*1 = set_iter (dom m).
Proof.
  unfold map_iter.
  assert (Hl : forall x, x ∈ set_iter (dom m) -> is_Some (m !! x))
    by (intros x Hx%elem_of_set_iter; by apply elem_of_dom).
  induction (set_iter (dom m)) as [|k l IH]; [done|]. simpl.
  destruct (Hl k ltac:(set_solver)) as [v Hv]. rewrite Hv. simpl. f_equal.
  apply IH. set_solver.
Qed.

Lemma elem_of_map_iter {V} (m : gmap Z V) k v : (k, v) ∈ map_iter m <-> m !! k = Some v.
Proof.
  unfold map_iter. rewrite list_elem_of_omap. split.
  - intros (k' & _ & Hk). destruct (m !! k') eqn:E; simplify_eq/=. done.
  - intros Hk. exists k. split; [by apply elem_of_set_iter, elem_of_dom|by rewrite Hk].
Qed.

Lemma list_to_map_iter {V} (m : gmap Z V) : list_to_map (map_iter m) = m.
Proof.
  apply map_eq. intros k. apply option_eq. intros v.
  rewrite <- elem_of_list_to_map by (rewrite map_iter_fst; apply NoDup_set_iter).
  apply elem_of_map_iter.
Qed.

#[export] Instance map_lawful {V} (s : Serializer Z) (t : Serializer V) ok ok'
  `{!Lawful s ok, !Lawful t ok'} :
  Lawful (s_map s t)
    (fun m => Z.of_nat (size m) <= MAX_SERIALIZED_COMPACT_SIZE
              /\ forall k v, m !! k = Some v -> ok k /\ ok' v).
Proof.
  assert (Hok : forall m : gmap Z V, Z.of_nat (size m) <= MAX_SERIALIZED_COMPACT_SIZE ->
    (forall k v, m !! k = Some v -> ok k /\ ok' v) ->
    Z.of_nat (length (map_iter m)) <= MAX_SERIALIZED_COMPACT_SIZE
    /\ Forall (fun p => ok p.1 /\ ok' p.2) (map_iter m)).
  { intros m Hm Hx. split.
    - rewrite <- (length_fmap fst), map_iter_fst, length_set_iter, size_dom. done.
    - apply Forall_forall. intros [k v] Hkv%list_elem_of_In%elem_of_map_iter. by apply Hx. }
  split; intros m; [intros rest|]; intros [Hm Hx]; destruct (Hok m Hm Hx) as [H1 H2].
  - cbn [unser ser s_map]. rewrite (unser_then (s_vec (s_pair s t)) _) by done.
    unfold ret. by rewrite list_to_map_iter.
  - cbn [ser ser_size s_map]. by apply (ser_size_ser (s := s_vec (s_pair s t))).
Qed.
