(* ===== verification/ScTypes.v ===== *)
(** * Sidechain data types

    [sc/sidechaintypes.h], [sc/sidechaintypes.cpp] and the bit helpers of
    [util.cpp]: field elements, proofs and keys as byte vectors, the custom
    fields of certificates with their lazy validation, the fixed parameters of a
    sidechain and their packed version byte, sidechain fees. *)

From stdpp Require Import base numbers list strings.
From Stdlib Require Import ZArith Lia.
From S2P Require Import Prelude.
From S2P Require Import Amount.
From S2P Require Import Serialize.
Open Scope Z_scope.

(** ** The cryptographic library, a parameter of the development

    What the node asks of the [zendoo] library: whether a byte buffer
    deserializes ([CctpErrorCode::OK]), the proving system of a key or proof,
    the Merkle root of a compressed bit vector and the hash of a certificate's
    data (both as the 32 bytes of the resulting field element; [None] is the
    null pointer). *)
Class ZendooLib := {
  zendoo_deserialize_field : bytes -> bool;
  zendoo_deserialize_sc_proof : bytes -> bool;
  zendoo_deserialize_sc_vk : bytes -> bool;
  zendoo_get_sc_vk_proving_system_type : bytes -> option Z;
  zendoo_get_sc_proof_proving_system_type : bytes -> option Z;
  zendoo_merkle_root_from_compressed_bytes : bytes -> Z -> option bytes;
  zendoo_get_cert_data_hash :
    uint256 -> Z -> Z -> list (bytes * Z) -> list bytes -> bytes -> Z -> Z -> option bytes }.

(** ** Constants *)
Definition MAX_SC_CUSTOM_DATA_LEN : Z := 1024.

Definition MAX_SC_MBTR_DATA_LEN : Z := 16.

Definition SC_FE_SIZE_IN_BYTES : Z := 32.

Definition MAX_PROOF_PLUS_VK_SIZE : Z := 9 * 1024.

Definition MAX_SC_PROOF_SIZE_IN_BYTES : Z := MAX_PROOF_PLUS_VK_SIZE.

Definition MAX_SC_VK_SIZE_IN_BYTES : Z := MAX_PROOF_PLUS_VK_SIZE.

Definition MAX_BIT_VECTOR_SIZE_BITS : Z := 1040384.

Definition SPARSE_VECTOR_COMPRESSION_OVERHEAD : Z := 2 * 1024.

Definition MAX_COMPRESSED_SIZE_BYTES : Z :=
  Z.quot MAX_BIT_VECTOR_SIZE_BITS 8 + SPARSE_VECTOR_COMPRESSION_OVERHEAD.

Definition vsize {A} (l : list A) : Z := Z.of_nat (length l).

(** ** Proving systems *)
Inductive ProvingSystemType := Undefined | Darlin | CoboundaryMarlin.

#[export] Instance ProvingSystemType_eq_dec : EqDecision ProvingSystemType.
Proof. solve_decision. Defined.

(** [static_cast] of the library's code; a value outside the enumeration is
    none of the enumerators and behaves like [Undefined] in every switch. *)
Definition ProvingSystemType_of_code (v : Z) : ProvingSystemType :=
  if v =? 1 then Darlin else if v =? 2 then CoboundaryMarlin else Undefined.

Definition IsValidProvingSystemType (v : ProvingSystemType) : bool :=
  match v with CoboundaryMarlin | Darlin => true | Undefined => false end.

Definition ProvingSystemTypeToString (v : ProvingSystemType) : string :=
  match v with
  | CoboundaryMarlin => "CoboundaryMarlin"
  | Darlin => "Darlin"
  | Undefined => "Undefined"
  end.

Definition StringToProvingSystemType (s : string) : ProvingSystemType :=
  if String.eqb s "CoboundaryMarlin" then CoboundaryMarlin
  else if String.eqb s "Darlin" then Darlin
  else Undefined.

Definition IsUndefinedProvingSystemType (s : string) : bool :=
  String.eqb s EmptyString || String.eqb s "Undefined".

(** ** Field elements, proofs, keys: the byte vectors behind [CZendooCctpObject]

    The cached library object ([fieldData], [proofData], [vkData]) is the
    deserialization of the byte vector and is not part of the value. *)
Abbreviation CFieldElement := bytes (only parsing).
Abbreviation CScProof := bytes (only parsing).
Abbreviation CScVKey := bytes (only parsing).

Definition IsNull_obj (o : bytes) : bool := match o with [] => true | _ => false end.

Section WithZendoo.
  Context `{ZendooLib}.

Definition FE_IsValid (fe : CFieldElement) : bool :=
  if IsNull_obj fe then false
  else if negb (vsize fe =? SC_FE_SIZE_IN_BYTES) then false
  else zendoo_deserialize_field fe.

Definition Proof_IsValid (p : CScProof) : bool :=
  if IsNull_obj p then false
  else if MAX_SC_PROOF_SIZE_IN_BYTES <? vsize p then false
  else zendoo_deserialize_sc_proof p.

Definition VKey_IsValid (vk : CScVKey) : bool :=
  if IsNull_obj vk then false
  else if MAX_SC_VK_SIZE_IN_BYTES <? vsize vk then false
  else zendoo_deserialize_sc_vk vk.

Definition VKey_getProvingSystemType (vk : CScVKey) : ProvingSystemType :=
  if negb (VKey_IsValid vk) then Undefined
  else match zendoo_get_sc_vk_proving_system_type vk with
       | Some t => ProvingSystemType_of_code t
       | None => Undefined
       end.

Definition Proof_getProvingSystemType (p : CScProof) : ProvingSystemType :=
  if negb (Proof_IsValid p) then Undefined
  else match zendoo_get_sc_proof_proving_system_type p with
       | Some t => ProvingSystemType_of_code t
       | None => Undefined
       end.
End WithZendoo.

(** [CFieldElement::SetByteArray] *)
Definition SetByteArray_fe (b : bytes) : res CFieldElement :=
  if vsize b =? SC_FE_SIZE_IN_BYTES then Ok b else Err AssertFailed.

(** [CFieldElement(wrappedFieldPtr)]: a null pointer gives 32 zero bytes *)
Definition FE_of_ptr (p : option bytes) : CFieldElement :=
  match p with Some b => b | None => repeat 0 32 end.

Definition GetPhantomHash : CFieldElement := repeat 0 32.

(** ** Custom field configurations *)
Record FieldElementCertificateFieldConfig := mkFECfg { nBits : Z }.

Record BitVectorCertificateFieldConfig := mkBVCfg {
  bitVectorSizeBits : Z;
  maxCompressedSizeBytes : Z }.

#[export] Instance FECfg_eq_dec : EqDecision FieldElementCertificateFieldConfig.
Proof. solve_decision. Defined.

#[export] Instance BVCfg_eq_dec : EqDecision BitVectorCertificateFieldConfig.
Proof. solve_decision. Defined.

Definition FECfg_IsValid (c : FieldElementCertificateFieldConfig) : bool := negb (nBits c =? 0).

Definition BVCfg_IsValid (c : BitVectorCertificateFieldConfig) : bool :=
  let isBitVectorSizeValid :=
    (0 <? bitVectorSizeBits c) && (bitVectorSizeBits c <=? MAX_BIT_VECTOR_SIZE_BITS) in
  if negb isBitVectorSizeValid then false
  else if negb (Z.rem (bitVectorSizeBits c) 254 =? 0) || negb (Z.rem (bitVectorSizeBits c) 8 =? 0)
  then false
  else
    let merkleTreeLeaves := Z.quot (bitVectorSizeBits c) 254 in
    if negb (Z.land merkleTreeLeaves (merkleTreeLeaves - 1) =? 0) then false
    else (0 <? maxCompressedSizeBytes c) && (maxCompressedSizeBytes c <=? MAX_COMPRESSED_SIZE_BYTES).

(** ** Bit helpers of [util.cpp]; the loops run at most 8 times on a byte *)
Definition CHAR_BIT : Z := 8.

Fixpoint shift_count (fuel : nat) (b : Z) : Z :=
  match fuel with
  | O => 0
  | S n => if 0 <? b then 1 + shift_count n (Z.shiftr b 1) else 0
  end.

Definition getLeadingZeroBitsInByte (inputByte : Z) : Z := CHAR_BIT - shift_count 8 inputByte.

Definition getTrailingZeroBitsInByte (inputByte : Z) : Z :=
  if inputByte =? 0 then CHAR_BIT
  else shift_count 8 (to_u8 (Z.shiftr (Z.lxor inputByte (inputByte - 1)) 1)).

(** returns the number of bytes and the reminder *)
Definition getBytesFromBits (nbits : Z) : Z * Z :=
  if nbits <? 0 then (0, 0)
  else
    let reminder := Z.rem nbits CHAR_BIT in
    let n := Z.quot nbits CHAR_BIT in
    (if negb (reminder =? 0) then n + 1 else n, reminder).

(** ** Custom certificate fields with their lazily computed field element *)
Inductive VALIDATION_STATE := NOT_INITIALIZED | INVALID_STATE | VALID_STATE.

Record CustomCertificateField (Cfg : Type) := mkField {
  vRawData : bytes;
  state : VALIDATION_STATE;
  fieldElement : CFieldElement;
  pReferenceCfg : option Cfg }.
Arguments mkField {Cfg}.
Arguments vRawData {Cfg}.
Arguments state {Cfg}.
Arguments fieldElement {Cfg}.
Arguments pReferenceCfg {Cfg}.

Abbreviation FieldElementCertificateField :=
  (CustomCertificateField FieldElementCertificateFieldConfig) (only parsing).
Abbreviation BitVectorCertificateField :=
  (CustomCertificateField BitVectorCertificateFieldConfig) (only parsing).

(** A field as it comes from the wire. *)
Definition field_of_raw {Cfg} (raw : bytes) : CustomCertificateField Cfg :=
  mkField raw NOT_INITIALIZED [] None.

Definition cached {Cfg} `{EqDecision Cfg} (f : CustomCertificateField Cfg) (cfg : Cfg)
  : res (option CFieldElement) :=
  match state f with
  | NOT_INITIALIZED => Ok None
  | _ => match pReferenceCfg f with
         | None => Err AssertFailed
         | Some c => if decide (c = cfg) then Ok (Some (fieldElement f)) else Ok None
         end
  end.

Section CustomFields.
  Context `{ZendooLib}.

(** The revalidation of [FieldElementCertificateField::GetFieldElement]: the
    verdict and the new field element. *)
Definition FE_revalidate (raw : bytes) (cfg : FieldElementCertificateFieldConfig)
    (sidechainVersion : Z) : VALIDATION_STATE * CFieldElement :=
  let '(nbytes, rem) := getBytesFromBits (nBits cfg) in
  if negb (vsize raw =? nbytes) then (INVALID_STATE, [])
  else
    let lastByte := List.last raw 0 in
    let numbOfZeroBits :=
      if sidechainVersion =? 0 then getTrailingZeroBitsInByte lastByte
      else getLeadingZeroBitsInByte lastByte in
    if negb (rem =? 0) && (numbOfZeroBits <? CHAR_BIT - rem) then (INVALID_STATE, [])
    else
      let padding := repeat 0 (Z.to_nat (SC_FE_SIZE_IN_BYTES - vsize raw)) in
      let extendedRawData := if sidechainVersion =? 0 then padding ++ raw else raw ++ padding in
      if FE_IsValid extendedRawData then (VALID_STATE, extendedRawData) else (INVALID_STATE, []).

Definition FE_GetFieldElement (cfg : FieldElementCertificateFieldConfig) (sidechainVersion : Z)
  : M FieldElementCertificateField CFieldElement :=
  fun f =>
    match cached f cfg with
    | Err e => Err e
    | Ok (Some fe) => Ok (fe, f)
    | Ok None =>
        let '(st, fe) := FE_revalidate (vRawData f) cfg sidechainVersion in
        Ok (fe, mkField (vRawData f) st fe (Some cfg))
    end.

Definition FE_Field_IsValid (cfg : FieldElementCertificateFieldConfig) (sidechainVersion : Z)
  : M FieldElementCertificateField bool :=
  bind (FE_GetFieldElement cfg sidechainVersion) (fun fe => ret (negb (IsNull_obj fe))).

Definition BV_revalidate (raw : bytes) (cfg : BitVectorCertificateFieldConfig)
  : VALIDATION_STATE * CFieldElement :=
  if to_u64 (maxCompressedSizeBytes cfg) <? vsize raw then (INVALID_STATE, [])
  else
    let '(nBitVectorSizeBytes, rem) := getBytesFromBits (bitVectorSizeBits cfg) in
    match zendoo_merkle_root_from_compressed_bytes raw nBitVectorSizeBytes with
    | None => (INVALID_STATE, [])
    | Some fe => (VALID_STATE, FE_of_ptr (Some fe))
    end.

Definition BV_GetFieldElement (cfg : BitVectorCertificateFieldConfig) (sidechainVersion : Z)
  : M BitVectorCertificateField CFieldElement :=
  fun f =>
    match cached f cfg with
    | Err e => Err e
    | Ok (Some fe) => Ok (fe, f)
    | Ok None =>
        let '(st, fe) := BV_revalidate (vRawData f) cfg in
        Ok (fe, mkField (vRawData f) st fe (Some cfg))
    end.

Definition BV_Field_IsValid (cfg : BitVectorCertificateFieldConfig) (sidechainVersion : Z)
  : M BitVectorCertificateField bool :=
  bind (BV_GetFieldElement cfg sidechainVersion) (fun fe => ret (negb (IsNull_obj fe))).
End CustomFields.

(** ** Fixed parameters of a sidechain *)
Record ScFixedParameters := mkScFixedParameters {
  version : Z;
  withdrawalEpochLength : Z;
  customData : bytes;
  constant : option CFieldElement;
  wCertVk : CScVKey;
  wCeasedVk : option CScVKey;
  vFieldElementCertificateFieldConfig : list FieldElementCertificateFieldConfig;
  vBitVectorCertificateFieldConfig : list BitVectorCertificateFieldConfig;
  mainchainBackwardTransferRequestDataLength : Z }.

Definition ScFixedParameters_null : ScFixedParameters :=
  mkScFixedParameters 255 (-1) [] None [] None [] [] 0.

Definition ScFixedParameters_IsNull (p : ScFixedParameters) : bool :=
  (version p =? 255) && (withdrawalEpochLength p =? -1) && IsNull_obj (customData p)
  && bool_decide (constant p = None) && IsNull_obj (wCertVk p)
  && bool_decide (wCeasedVk p = None)
  && bool_decide (vFieldElementCertificateFieldConfig p = [])
  && bool_decide (vBitVectorCertificateFieldConfig p = [])
  && (mainchainBackwardTransferRequestDataLength p =? 0).

(** The packed [int] of the serialization: writing (with its assert) and
    reading.  [version << 24] is an [int]. *)
Definition packEpochLengthAndVersion (version len : Z) : res Z :=
  if len <=? 0x00FFFFFF then Ok (Z.lor (to_i32 (Z.shiftl version 24)) len) else Err AssertFailed.

Definition unpackEpochLengthAndVersion (v : Z) : Z * Z :=
  (to_u8 (Z.shiftr v 24), Z.land v 0x00FFFFFF).

(** ** Sidechain fees *)
Record ScFeeData := mkScFeeData { forwardTxScFee : CAmount; mbtrTxScFee : CAmount }.

#[export] Instance ScFeeData_eq_dec : EqDecision ScFeeData.
Proof. solve_decision. Defined.

#[export] Instance ScFixedParameters_eq_dec : EqDecision ScFixedParameters.
Proof. solve_decision. Defined.

Inductive ScFeeCheckFlag := LATEST_VALUE | MINIMUM_IN_A_RANGE.


(** ** Lemmas: the packed version byte *)
Lemma to_i32_version version :
  0 <= version < 256 ->
  to_i32 (version * 2 ^ 24) = (if version <? 128 then version else version - 256) * 2 ^ 24.
Proof.
  intros Hv. unfold to_i32. destruct (Z.ltb_spec version 128).
  - rewrite Z.mod_small by lia. lia.
  - replace (version * 2 ^ 24 + 2 ^ 31) with (version * 2 ^ 24 + 2 ^ 31 - 2 ^ 32 + 1 * 2 ^ 32) by lia.
    rewrite Z.mod_add, Z.mod_small by lia. lia.
Qed.

Lemma version_mod version :
  0 <= version < 256 -> (if version <? 128 then version else version - 256) mod 256 = version.
Proof.
  intros Hv. destruct (Z.ltb_spec version 128); [by rewrite Z.mod_small|].
  replace (version - 256) with (version + (-1) * 256) by lia. by rewrite Z.mod_add, Z.mod_small.
Qed.

Lemma pack_value version len :
  0 <= version < 256 -> 0 <= len <= 0x00FFFFFF ->
  packEpochLengthAndVersion version len
  = Ok ((if version <? 128 then version else version - 256) * 2 ^ 24 + len).
Proof.
  intros Hv Hl. unfold packEpochLengthAndVersion. rewrite (proj2 (Z.leb_le _ _)) by lia.
  rewrite Z.shiftl_mul_pow2, to_i32_version by lia. f_equal. apply lor_low; lia.
Qed.

Lemma pack_unpack_spec (version len : Z) :
  0 <= version < 256 -> 0 <= len <= 0x00FFFFFF ->
  exists v, packEpochLengthAndVersion version len = Ok v /\ is_i32 v
  /\ unpackEpochLengthAndVersion v = (version, len).
Proof.
  intros Hv Hl. rewrite pack_value by done. eexists. split; [done|].
  unfold unpackEpochLengthAndVersion, is_i32, to_u8. pose proof (version_mod version Hv) as Hm.
  assert (Hq : -128 <= (if version <? 128 then version else version - 256) < 128)
    by (destruct (Z.ltb_spec version 128); lia).
  set (q := if version <? 128 then version else version - 256) in *. split; [lia|].
  rewrite Z.shiftr_div_pow2 by lia. change 0x00FFFFFF with (Z.ones 24). rewrite Z.land_ones by lia.
  rewrite Z.div_add_l, Z.div_small, Z.add_0_r by lia.
  rewrite (Z.add_comm (q * 2 ^ 24)), Z.mod_add, (Z.mod_small len) by lia.
  change (2 ^ 8) with 256. by rewrite Hm.
Qed.

Lemma unpack_of_pack version len :
  0 <= version < 256 -> 0 <= len <= 0x00FFFFFF ->
  exists v, packEpochLengthAndVersion version len = Ok v /\ unpackEpochLengthAndVersion v = (version, len).
Proof. intros Hv Hl. destruct (pack_unpack_spec version len Hv Hl) as (v & H1 & _ & H2). by exists v. Qed.

(** The version byte and the epoch length survive the packed [int] of the
    serialization, for every version and every epoch length of 3 bytes. *)
Theorem pack_unpack_roundtrip (version len : Z) :
  0 <= version < 256 -> 0 <= len <= 0x00FFFFFF ->
  exists v, packEpochLengthAndVersion version len = Ok v /\ is_i32 v
  /\ unpackEpochLengthAndVersion v = (version, len).
Proof. apply pack_unpack_spec. Qed.

Lemma pack_unpack_roundtrip_witness :
  exists v, packEpochLengthAndVersion 129 4032 = Ok v /\ is_i32 v
  /\ unpackEpochLengthAndVersion v = (129, 4032).
Proof. apply (pack_unpack_roundtrip 129 4032); lia. Defined.

(** The assert that guards the version byte does not exclude negative epoch
    lengths: the null parameters ([version] 0xff, length -1) are written without
    complaint and read back with the length 0xFFFFFF, and a negative length
    erases any version. *)
Theorem pack_negative_length (version : Z) :
  0 <= version < 128 ->
  packEpochLengthAndVersion version (-1) = Ok (-1)
  /\ unpackEpochLengthAndVersion (-1) = (255, 0x00FFFFFF).
Proof.
  intros Hv. split; [|reflexivity]. unfold packEpochLengthAndVersion. simpl Z.leb. cbn iota.
  by rewrite Z.lor_m1_r.
Qed.

Lemma pack_negative_length_witness :
  packEpochLengthAndVersion 1 (-1) = Ok (-1) /\ unpackEpochLengthAndVersion (-1) = (255, 0x00FFFFFF).
Proof. apply (pack_negative_length 1). lia. Defined.
