(* ===== verification/Primitives.v ===== *)
(** * Transactions and certificates

    [primitives/transaction.h], [primitives/transaction.cpp],
    [primitives/certificate.h], [primitives/certificate.cpp] and the part of
    [script/script.h] their outputs use: the data, the context-free checks and
    the value computations. *)

From stdpp Require Import base numbers list strings gmap sets option.
From Stdlib Require Import ZArith Lia.
From S2P Require Import Prelude.
From S2P Require Import Amount.
From S2P Require Import Serialize.
From S2P Require Import ScTypes.
Open Scope Z_scope.
Open Scope zen_scope.

(** ** Scripts *)
Abbreviation CScript := bytes (only parsing).
Abbreviation uint160 := bytes (only parsing).

Definition OP_PUSHDATA1 : Z := 0x4c.

Definition OP_PUSHDATA2 : Z := 0x4d.

Definition OP_PUSHDATA4 : Z := 0x4e.

Definition OP_RETURN : Z := 0x6a.

Definition OP_DUP : Z := 0x76.

Definition OP_EQUAL : Z := 0x87.

Definition OP_EQUALVERIFY : Z := 0x88.

Definition OP_HASH160 : Z := 0xa9.

Definition OP_CHECKSIG : Z := 0xac.

Definition MAX_SCRIPT_SIZE : Z := 10000.

(** [script << vector] *)
Definition push_data (script b : bytes) : bytes :=
  if vsize b <? OP_PUSHDATA1 then script ++ [vsize b] ++ b
  else if vsize b <=? 0xff then script ++ [OP_PUSHDATA1; vsize b] ++ b
  else if vsize b <=? 0xffff then script ++ [OP_PUSHDATA2] ++ le_split 2 (vsize b) ++ b
  else script ++ [OP_PUSHDATA4] ++ le_split 4 (vsize b) ++ b.

Definition IsUnspendable (script : CScript) : bool :=
  match script with b :: _ => b =? OP_RETURN | [] => false end
  || (MAX_SCRIPT_SIZE <? vsize script).

(** ** Versions *)
Definition SC_CERT_VERSION : Z := -5.

Definition SC_TX_VERSION : Z := -4.

Definition GROTH_TX_VERSION : Z := -3.

Definition PHGR_TX_VERSION : Z := 2.

Definition TRANSPARENT_TX_VERSION : Z := 1.

Definition MIN_OLD_TX_VERSION : Z := 1.

(** ** Inputs and outputs *)
Record COutPoint := mkOutPoint { op_hash : uint256; op_n : Z }.

#[export] Instance COutPoint_eq_dec : EqDecision COutPoint.
Proof. solve_decision. Defined.

#[export] Instance COutPoint_countable : Countable COutPoint.
Proof.
  refine (inj_countable' (fun o => (op_hash o, op_n o)) (fun p => mkOutPoint p.1 p.2) _).
  by intros [].
Defined.

Definition OutPoint_IsNull (o : COutPoint) : bool := (op_hash o =? 0) && (op_n o =? 2 ^ 32 - 1).

Record CTxIn := mkTxIn { prevout : COutPoint; scriptSig : CScript; nSequence : Z }.

Record CTxOut := mkTxOut { out_nValue : CAmount; scriptPubKey : CScript }.

#[export] Instance CTxOut_eq_dec : EqDecision CTxOut.
Proof. solve_decision. Defined.

Definition TxOut_SetNull : CTxOut := mkTxOut (-1) [].

Definition TxOut_IsNull (o : CTxOut) : bool := out_nValue o =? -1.

(** Compressed points and proofs, [zcash/Proof.hpp] and [zcash/JoinSplit.hpp]. *)
Record CompressedG1 := mkG1 { y_lsb : bool; g1_x : bytes }.

Record CompressedG2 := mkG2 { y_gt : bool; g2_x : bytes }.

Record PHGRProof := mkPHGR {
  g_A : CompressedG1;
  g_A_prime : CompressedG1;
  g_B : CompressedG2;
  g_B_prime : CompressedG1;
  g_C : CompressedG1;
  g_C_prime : CompressedG1;
  g_K : CompressedG1;
  g_H : CompressedG1 }.

Inductive SproutProof :=
| PHGR (p : PHGRProof)
| Groth (p : bytes).

(** The arrays of a JoinSplit are lists. *)
Record JSDescription := mkJS {
  vpub_old : CAmount;
  vpub_new : CAmount;
  anchor : uint256;
  nullifiers : list uint256;
  commitments : list uint256;
  ephemeralKey : uint256;
  ciphertexts : list bytes;
  randomSeed : uint256;
  macs : list uint256;
  proof : SproutProof }.

Record CTxCeasedSidechainWithdrawalInput := mkCsw {
  csw_nValue : CAmount;
  csw_scId : uint256;
  csw_nullifier : CFieldElement;
  csw_pubKeyHash : uint160;
  csw_scProof : CScProof;
  csw_actCertDataHash : CFieldElement;
  csw_ceasingCumScTxCommTree : CFieldElement;
  csw_redeemScript : CScript }.

Record CTxForwardTransferOut := mkFt {
  ft_nValue : CAmount;
  ft_address : uint256;
  ft_scId : uint256;
  ft_mcReturnAddress : uint160 }.

Record CTxScCreationOut := mkScCreation {
  generatedScId : uint256;
  sc_nValue : CAmount;
  sc_address : uint256;
  sc_version : Z;
  sc_withdrawalEpochLength : Z;
  sc_customData : bytes;
  sc_constant : option CFieldElement;
  sc_wCertVk : CScVKey;
  sc_wCeasedVk : option CScVKey;
  sc_vFieldElementCertificateFieldConfig : list FieldElementCertificateFieldConfig;
  sc_vBitVectorCertificateFieldConfig : list BitVectorCertificateFieldConfig;
  sc_forwardTransferScFee : CAmount;
  sc_mainchainBackwardTransferRequestScFee : CAmount;
  sc_mainchainBackwardTransferRequestDataLength : Z }.

Record CBwtRequestOut := mkMbtr {
  mbtr_scId : uint256;
  vScRequestData : list CFieldElement;
  mcDestinationAddress : uint160;
  scFee : CAmount }.

(** [CTxCrosschainOutBase], the interface of the outputs that go to a sidechain *)
Class CrosschainOut (T : Type) := {
  GetScValue : T -> CAmount;
  AllowedZeroScValue : T -> bool;
  GetScId : T -> uint256 }.

#[export] Instance CTxScCreationOut_out : CrosschainOut CTxScCreationOut :=
  { GetScValue := sc_nValue; AllowedZeroScValue := fun _ => false; GetScId := generatedScId }.

#[export] Instance CTxForwardTransferOut_out : CrosschainOut CTxForwardTransferOut :=
  { GetScValue := ft_nValue; AllowedZeroScValue := fun _ => false; GetScId := ft_scId }.

#[export] Instance CBwtRequestOut_out : CrosschainOut CBwtRequestOut :=
  { GetScValue := scFee; AllowedZeroScValue := fun _ => true; GetScId := mbtr_scId }.

(** The result and the updated [cumulatedAmount]. *)
Definition CheckAmountRange {T} `{CrosschainOut T} (o : T) (cumulatedAmount : CAmount)
  : bool * CAmount :=
  if ((GetScValue o =? 0) && negb (AllowedZeroScValue o)) || negb (MoneyRange (GetScValue o))
  then (false, cumulatedAmount)
  else (MoneyRange (cumulatedAmount + GetScValue o), cumulatedAmount + GetScValue o).

(** ** Transactions.  [hash] and the generated sidechain ids are the memory-only
    fields [UpdateHash] fills in from the hash function. *)
Record CTransaction := mkTx {
  tx_nVersion : Z;
  tx_vin : list CTxIn;
  tx_vout : list CTxOut;
  tx_hash : uint256;
  vjoinsplit : list JSDescription;
  nLockTime : Z;
  vcsw_ccin : list CTxCeasedSidechainWithdrawalInput;
  vsc_ccout : list CTxScCreationOut;
  vft_ccout : list CTxForwardTransferOut;
  vmbtr_out : list CBwtRequestOut;
  joinSplitPubKey : uint256;
  joinSplitSig : bytes }.

(** the initial value of [joinSplitSig] *)
Definition null_sig : bytes := repeat 0 64.

Definition IsCoinBase (tx : CTransaction) : bool :=
  match tx_vin tx with [i] => OutPoint_IsNull (prevout i) | _ => false end.

Definition is_empty {A} (l : list A) : bool := match l with [] => true | _ => false end.

Definition ccOutIsNull (tx : CTransaction) : bool :=
  is_empty (vsc_ccout tx) && is_empty (vft_ccout tx) && is_empty (vmbtr_out tx).

Definition ccIsNull (tx : CTransaction) : bool := is_empty (vcsw_ccin tx) && ccOutIsNull tx.

Definition IsScVersion (tx : CTransaction) : bool := tx_nVersion tx =? SC_TX_VERSION.

Definition GetScIdFromScCcOut (tx : CTransaction) (pos : Z) : uint256 :=
  if (pos <? 0) || (vsize (vsc_ccout tx) <=? pos) then 0
  else match vsc_ccout tx !! Z.to_nat pos with Some o => generatedScId o | None => 0 end.

(** *** Values *)
Definition out_of_range (what : string) : err := Exception what.

(** A sum that throws as soon as a term or the running total leaves the range. *)
Fixpoint sum_checked (what : string) (acc : Z) (l : list Z) : res Z :=
  match l with
  | [] => Ok acc
  | v :: l' =>
      if negb (MoneyRange v) || negb (MoneyRange (acc + v)) then Err (out_of_range what)
      else sum_checked what (acc + v) l'
  end.

Definition GetValueOut_base (vout : list CTxOut) : res CAmount :=
  sum_checked "CTransactionBase::GetValueOut(): value out of range" 0 (map out_nValue vout).

Definition GetValueCcOut {T} `{CrosschainOut T} (ccout : list T) : res CAmount :=
  sum_checked "CTransaction::GetValueCcOut(): value out of range" 0 (map GetScValue ccout).

Definition res_bind {A B} (r : res A) (k : A -> res B) : res B :=
  match r with Ok a => k a | Err e => Err e end.

Definition GetValueOut (tx : CTransaction) : res CAmount :=
  res_bind (GetValueOut_base (tx_vout tx)) (fun v0 =>
  res_bind (sum_checked "CTransaction::GetValueOut(): value out of range" v0
              (map vpub_old (vjoinsplit tx))) (fun v1 =>
  res_bind (GetValueCcOut (vsc_ccout tx)) (fun a =>
  res_bind (GetValueCcOut (vft_ccout tx)) (fun b =>
  res_bind (GetValueCcOut (vmbtr_out tx)) (fun c =>
  let nValueOut := v1 + (a + b + c) in
  if negb (MoneyRange nValueOut)
  then Err (out_of_range "CTransaction::GetValueOut(): value out of range")
  else Ok nValueOut))))).

Definition GetJoinSplitValueIn (tx : CTransaction) : res CAmount :=
  sum_checked "CTransaction::GetJoinSplitValueIn(): value out of range" 0
    (map vpub_new (vjoinsplit tx)).

Definition GetCSWValueIn (tx : CTransaction) : res CAmount :=
  sum_checked "CTransaction::GetCSWValueIn(): value out of range" 0 (map csw_nValue (vcsw_ccin tx)).

(** [CTransaction::GetComplexity]: inputs and withdrawal inputs, squared *)
Definition GetComplexity (tx : CTransaction) : Z :=
  let totalInputs := vsize (tx_vin tx) + vsize (vcsw_ccin tx) in
  totalInputs * totalInputs.

(** [CalculateModifiedSize] for a given size *)
Definition CalculateModifiedSize (vin : list CTxIn) (nTxSize : Z) : Z :=
  foldl (fun sz i =>
    let offset := 41 + Z.min 110 (vsize (scriptSig i)) in
    if offset <? sz then sz - offset else sz) nTxSize vin.

(** *** Context-free checks *)
Abbreviation VS := CValidationState (only parsing).

(** [return state.DoS(...)] from inside a loop with a local variable *)
Definition reject_acc {B} (level : Z) (code : VCode) (reason : string) : M VS (option B) :=
  let* _ := reject level code reason in ret None.

Definition IsValidVersion (tx : CTransaction) : M VS bool :=
  if (tx_nVersion tx <? MIN_OLD_TX_VERSION) && negb (tx_nVersion tx =? GROTH_TX_VERSION)
     && negb (IsScVersion tx)
  then reject 100 INVALID "bad-txns-version-too-low"
  else ret true.

Definition CheckInputsOutputsNonEmpty (tx : CTransaction) : M VS bool :=
  if is_empty (tx_vin tx) && is_empty (vjoinsplit tx) && is_empty (vcsw_ccin tx)
  then reject 10 INVALID "bad-txns-vin-empty"
  else if is_empty (tx_vout tx) && is_empty (vjoinsplit tx) && ccOutIsNull tx
  then reject 10 INVALID "bad-txns-vout-empty"
  else ret true.

(** One iteration per loop of [CTransaction::CheckAmounts]. *)
Definition CheckAmounts_vout (nCumulatedValueOut : Z) (txout : CTxOut) : M VS (option Z) :=
  if out_nValue txout <? 0 then reject_acc 100 INVALID "bad-txns-vout-negative"
  else if MAX_MONEY <? out_nValue txout then reject_acc 100 INVALID "bad-txns-vout-toolarge"
  else
    let cum := nCumulatedValueOut + out_nValue txout in
    if negb (MoneyRange cum) then reject_acc 100 INVALID "bad-txns-txouttotal-toolarge"
    else ret (Some cum).

Definition CheckAmounts_joinsplit (nCumulatedValueOut : Z) (js : JSDescription) : M VS (option Z) :=
  if vpub_old js <? 0 then reject_acc 100 INVALID "bad-txns-vpub_old-negative"
  else if vpub_new js <? 0 then reject_acc 100 INVALID "bad-txns-vpub_new-negative"
  else if MAX_MONEY <? vpub_old js then reject_acc 100 INVALID "bad-txns-vpub_old-toolarge"
  else if MAX_MONEY <? vpub_new js then reject_acc 100 INVALID "bad-txns-vpub_new-toolarge"
  else if negb (vpub_new js =? 0) && negb (vpub_old js =? 0)
  then reject_acc 100 INVALID "bad-txns-vpubs-both-nonzero"
  else
    let cum := nCumulatedValueOut + vpub_old js in
    if negb (MoneyRange cum) then reject_acc 100 INVALID "bad-txns-txouttotal-toolarge"
    else ret (Some cum).

Definition CheckAmounts_ccout {T} `{CrosschainOut T} (nCumulatedValueOut : Z) (o : T)
  : M VS (option Z) :=
  let '(ok, cum) := CheckAmountRange o nCumulatedValueOut in
  if negb ok then reject_acc 100 INVALID "bad-txns-ccout-range" else ret (Some cum).

Definition CheckAmounts_jsin (nCumulatedValueIn : Z) (js : JSDescription) : M VS (option Z) :=
  let cum := nCumulatedValueIn + vpub_new js in
  if negb (MoneyRange (vpub_new js)) || negb (MoneyRange cum)
  then reject_acc 100 INVALID "bad-txns-txintotal-toolarge"
  else ret (Some cum).

Definition CheckAmounts_csw (nCumulatedValueIn : Z) (csw : CTxCeasedSidechainWithdrawalInput)
  : M VS (option Z) :=
  let cum := nCumulatedValueIn + csw_nValue csw in
  if negb (MoneyRange (csw_nValue csw)) then reject_acc 100 INVALID "bad-txns-txcswin-invalid"
  else if negb (MoneyRange cum) then reject_acc 100 INVALID "bad-txns-txintotal-toolarge"
  else ret (Some cum).

(** Sequencing of loops that may return early. *)
Definition and_then {S B C} (m : M S (option B)) (k : B -> M S (option C)) : M S (option C) :=
  let* r := m in match r with Some b => k b | None => ret None end.

Definition CheckAmounts_loops (tx : CTransaction) : M VS (option Z) :=
  and_then (for_acc (tx_vout tx) 0 CheckAmounts_vout) (fun c1 =>
  and_then (for_acc (vjoinsplit tx) c1 CheckAmounts_joinsplit) (fun c2 =>
  and_then (for_acc (vsc_ccout tx) c2 CheckAmounts_ccout) (fun c3 =>
  and_then (for_acc (vft_ccout tx) c3 CheckAmounts_ccout) (fun c4 =>
  and_then (for_acc (vmbtr_out tx) c4 CheckAmounts_ccout) (fun _ =>
  and_then (for_acc (vjoinsplit tx) 0 CheckAmounts_jsin) (fun d1 =>
  for_acc (vcsw_ccin tx) d1 CheckAmounts_csw)))))).

Definition CheckAmounts (tx : CTransaction) : M VS bool :=
  let* r := CheckAmounts_loops tx in
  ret (match r with Some _ => true | None => false end).

(** Duplicates: insertion one by one into a [std::set]. *)
Fixpoint check_dup {K} `{Countable K} (reason : string) (seen : gset K) (l : list K) : M VS bool :=
  match l with
  | [] => ret true
  | k :: l' =>
      if decide (k ∈ seen) then reject 100 INVALID reason
      else check_dup reason ({[k]} ∪ seen) l'
  end.

Definition CheckInputsDuplication_base (vin : list CTxIn) (vjs : list JSDescription) : M VS bool :=
  let* ok := check_dup "bad-txns-inputs-duplicate" ∅ (map prevout vin) in
  if negb ok then ret false
  else check_dup "bad-joinsplits-nullifiers-duplicate" ∅ (concat (map nullifiers vjs)).

Definition CheckInputsDuplication (tx : CTransaction) : M VS bool :=
  let* res := CheckInputsDuplication_base (tx_vin tx) (vjoinsplit tx) in
  if negb res then ret res
  else check_dup "bad-txns-csw-inputs-duplicate" ∅ (map csw_nullifier (vcsw_ccin tx)).

Definition CheckInputsInteraction (tx : CTransaction) : M VS bool :=
  if IsCoinBase tx then
    if negb (is_empty (vjoinsplit tx)) then reject 100 INVALID "bad-cb-has-joinsplits"
    else
      let sz := match tx_vin tx with i :: _ => vsize (scriptSig i) | [] => 0 end in
      if (sz <? 2) || (100 <? sz) then reject 100 INVALID "bad-cb-length"
      else if negb (ccOutIsNull tx) then reject 100 INVALID "bad-cb-destination"
      else if negb (is_empty (vcsw_ccin tx)) then reject 100 INVALID "bad-cb-has-cswinputs"
      else ret true
  else
    for_each (tx_vin tx) (fun i =>
      if OutPoint_IsNull (prevout i) then reject 10 INVALID "bad-txns-prevout-null" else ret true).

Definition CheckFeeAmount (tx : CTransaction) (totalVinAmount : CAmount) : M VS bool :=
  if negb (MoneyRange totalVinAmount) then reject 100 INVALID "bad-txns-inputvalues-outofrange"
  else
    let* ok := CheckAmounts tx in
    if negb ok then ret false
    else
      let* out := lift (GetValueOut tx) in
      if totalVinAmount <? out then reject 100 INVALID "bad-txns-in-belowout"
      else
        let nTxFee := totalVinAmount - out in
        if nTxFee <? 0 then reject 100 INVALID "bad-txns-fee-negative"
        else if negb (MoneyRange nTxFee) then reject 100 INVALID "bad-txns-fee-outofrange"
        else ret true.

(** ** Certificates *)
Definition EPOCH_NULL : Z := -1.

Definition QUALITY_NULL : Z := -1.

Definition INT_NULL : Z := -1.

Record CBackwardTransferOut := mkBwtOut { bt_nValue : CAmount; bt_pubKeyHash : uint160 }.

Record CScCertificate := mkCert {
  cert_nVersion : Z;
  cert_vin : list CTxIn;
  cert_vout : list CTxOut;
  cert_hash : uint256;
  cert_scId : uint256;
  epochNumber : Z;
  quality : Z;
  endEpochCumScTxCommTreeRoot : CFieldElement;
  cert_scProof : CScProof;
  vFieldElementCertificateField : list FieldElementCertificateField;
  vBitVectorCertificateField : list BitVectorCertificateField;
  forwardTransferScFee : CAmount;
  mainchainBackwardTransferRequestScFee : CAmount;
  nFirstBwtPos : Z }.

(** The two segments of [vout]. *)
Definition change_outs (c : CScCertificate) : list CTxOut :=
  take (Z.to_nat (nFirstBwtPos c)) (cert_vout c).

Definition bwt_outs (c : CScCertificate) : list CTxOut :=
  drop (Z.to_nat (nFirstBwtPos c)) (cert_vout c).

Definition IsBackwardTransfer (c : CScCertificate) (pos : Z) : res bool :=
  if (0 <=? pos) && (pos <? vsize (cert_vout c)) then Ok (nFirstBwtPos c <=? pos)
  else Err AssertFailed.

Definition GetValueOfBackwardTransfers (c : CScCertificate) : CAmount :=
  foldl (fun acc o => acc + out_nValue o) 0 (bwt_outs c).

Definition GetValueOfChange (c : CScCertificate) : CAmount :=
  foldl (fun acc o => acc + out_nValue o) 0 (change_outs c).

Definition cert_GetFeeAmount (c : CScCertificate) (valueIn : CAmount) : CAmount :=
  valueIn - GetValueOfChange c.

Definition cert_IsValidVersion (c : CScCertificate) : M VS bool :=
  if negb (cert_nVersion c =? SC_CERT_VERSION) then reject 100 INVALID "bad-cert-version"
  else ret true.

Definition cert_CheckInputsOutputsNonEmpty (c : CScCertificate) : M VS bool :=
  if is_empty (cert_vin c) then reject 10 INVALID "bad-cert-vin-empty" else ret true.

Definition cert_CheckAmounts_vout (first : Z) (nCumulatedValueOut : Z) (p : nat * CTxOut)
  : M VS (option Z) :=
  let '(pos, txout) := p in
  if out_nValue txout <? 0 then reject_acc 100 INVALID "bad-txns-vout-negative"
  else if MAX_MONEY <? out_nValue txout then reject_acc 100 INVALID "bad-txns-vout-toolarge"
  else if (to_u32 first <=? Z.of_nat pos) && (out_nValue txout =? 0)
  then reject_acc 100 INVALID "bad-txns-bwd-vout-zero"
  else
    let cum := nCumulatedValueOut + out_nValue txout in
    if negb (MoneyRange cum) then reject_acc 100 INVALID "bad-txns-txouttotal-toolarge"
    else ret (Some cum).

Definition cert_CheckAmounts (c : CScCertificate) : M VS bool :=
  let* r := for_acc (imap pair (cert_vout c)) 0 (cert_CheckAmounts_vout (nFirstBwtPos c)) in
  match r with
  | None => ret false
  | Some _ =>
      if negb (MoneyRange (GetValueOfBackwardTransfers c))
      then reject 100 INVALID "bwd-transfer-amount-outside-range"
      else ret true
  end.

Definition cert_CheckFeeAmount (c : CScCertificate) (totalVinAmount : CAmount) : M VS bool :=
  if negb (MoneyRange totalVinAmount) then reject 100 INVALID "bad-cert-inputvalues-outofrange"
  else
    let* ok := cert_CheckAmounts c in
    if negb ok then ret false
    else if totalVinAmount <? GetValueOfChange c then reject 100 INVALID "bad-cert-in-belowout"
    else
      let nCertFee := totalVinAmount - GetValueOfChange c in
      if nCertFee <? 0 then reject 100 INVALID "bad-cert-fee-negative"
      else if negb (MoneyRange nCertFee) then reject 100 INVALID "bad-cert-fee-outofrange"
      else ret true.

Definition cert_CheckInputsInteraction (c : CScCertificate) : M VS bool :=
  for_each (cert_vin c) (fun i =>
    if OutPoint_IsNull (prevout i) then reject 10 INVALID "bad-txns-prevout-null" else ret true).

(** *** Backward transfers as outputs *)
Definition TxOut_of_bwt (b : CBackwardTransferOut) : CTxOut :=
  mkTxOut (bt_nValue b)
    (if bt_nValue b =? -1 then []
     else push_data [OP_DUP; OP_HASH160] (bt_pubKeyHash b) ++ [OP_EQUALVERIFY; OP_CHECKSIG]).

(** what follows the first [OP_HASH160] *)
Fixpoint find_hash160 (s : bytes) : option bytes :=
  match s with
  | [] => None
  | b :: s' => if b =? OP_HASH160 then Some s' else find_hash160 s'
  end.

(** Reading past the end of the script is undefined behaviour in the source; here
    it is an error. *)
Definition BwtOut_of_txout (o : CTxOut) : res CBackwardTransferOut :=
  if TxOut_IsNull o then Ok (mkBwtOut (out_nValue o) (repeat 0 20))
  else
    match find_hash160 (scriptPubKey o) with
    | None => Err AssertFailed
    | Some [] => Err (Exception "dereference of end()")
    | Some (len :: rest) =>
        if negb (len =? 20) then Err AssertFailed
        else if (length rest <? 20)%nat then Err (Exception "read past end()")
        else Ok (mkBwtOut (out_nValue o) (take 20 rest))
    end.

Fixpoint res_map {A B} (f : A -> res B) (l : list A) : res (list B) :=
  match l with
  | [] => Ok []
  | x :: l' => res_bind (f x) (fun y => res_bind (res_map f l') (fun ys => Ok (y :: ys)))
  end.

(** The split of [SerializationOpInternal]: what is written for the outputs, and
    what reading rebuilds. *)
Definition cert_vout_ser (vout : list CTxOut) (first : Z)
  : res (list CTxOut * list CBackwardTransferOut) :=
  res_bind (res_map BwtOut_of_txout (drop (Z.to_nat first) vout)) (fun vbt =>
  Ok (take (Z.to_nat first) vout, vbt)).

Definition cert_vout_unser (vout_ser : list CTxOut) (vbt_ccout_ser : list CBackwardTransferOut)
  : list CTxOut * Z :=
  (vout_ser ++ map TxOut_of_bwt vbt_ccout_ser, vsize vout_ser).

(** *** The mutable certificate: [vout] and [nFirstBwtPos] under editing.  An
    iterator outside [vout] is undefined behaviour; the operations are applied
    inside. *)
Record MutCert := mkMutCert { m_vout : list CTxOut; m_first : Z }.

Definition insertAtPos (pos : Z) (out : CTxOut) (m : MutCert) : MutCert :=
  mkMutCert (take (Z.to_nat pos) (m_vout m) ++ out :: drop (Z.to_nat pos) (m_vout m))
    (if pos <? to_u32 (m_first m) then m_first m + 1 else m_first m).

Definition eraseAtPos (pos : Z) (m : MutCert) : MutCert :=
  mkMutCert (take (Z.to_nat pos) (m_vout m) ++ drop (S (Z.to_nat pos)) (m_vout m))
    (if pos <? to_u32 (m_first m) then m_first m - 1 else m_first m).

Definition resizeOut (newSize : Z) (m : MutCert) : MutCert :=
  let first := Z.to_nat (m_first m) in
  let v1 :=
    if to_u32 (m_first m) <? newSize
    then take first (m_vout m) ++ repeat TxOut_SetNull (Z.to_nat newSize - first)
         ++ drop first (m_vout m)
    else m_vout m in
  let v2 :=
    if newSize <? to_u32 (m_first m)
    then take (Z.to_nat newSize) v1 ++ drop first v1
    else v1 in
  mkMutCert v2 newSize.

Definition resizeBwt (newSize : Z) (m : MutCert) : MutCert :=
  let n := Z.to_nat (m_first m + newSize) in
  mkMutCert (take n (m_vout m) ++ repeat TxOut_SetNull (n - length (m_vout m))) (m_first m).

Definition addOut (out : CTxOut) (m : MutCert) : MutCert :=
  let first := Z.to_nat (m_first m) in
  mkMutCert (take first (m_vout m) ++ out :: drop first (m_vout m)) (m_first m + 1).

Definition addBwt (out : CTxOut) (m : MutCert) : MutCert :=
  mkMutCert (m_vout m ++ [out]) (m_first m).

(** *** The data of a certificate the sidechain state keeps *)
Record CScCertificateView := mkCertView {
  certDataHash : CFieldElement;
  cv_forwardTransferScFee : CAmount;
  cv_mainchainBackwardTransferRequestScFee : CAmount }.

#[export] Instance CScCertificateView_eq_dec : EqDecision CScCertificateView.
Proof. solve_decision. Defined.

Definition CertView_null : CScCertificateView := mkCertView [] INT_NULL INT_NULL.

Definition CertView_IsNull (v : CScCertificateView) : bool :=
  IsNull_obj (certDataHash v) && (cv_forwardTransferScFee v =? INT_NULL)
  && (cv_mainchainBackwardTransferRequestScFee v =? INT_NULL).

Section DataHash.
  Context `{ZendooLib}.

Definition out_of_bounds : err := Exception "vector::_M_range_check".

(** The custom fields of [CertificateToVerifierItem]: copies of the certificate's
    fields evaluated with the sidechain's configuration. *)
Fixpoint custom_fields {Cfg} (getfe : Cfg -> M (CustomCertificateField Cfg) CFieldElement)
    (fields : list (CustomCertificateField Cfg)) (cfgs : list Cfg) : res (list CFieldElement) :=
  match fields with
  | [] => Ok []
  | f :: fields' =>
      match cfgs with
      | [] => Err out_of_bounds
      | c :: cfgs' =>
          res_bind (getfe c f) (fun p =>
          if negb (FE_IsValid p.1) then Err AssertFailed
          else res_bind (custom_fields getfe fields' cfgs') (fun l => Ok (p.1 :: l)))
      end
  end.

Definition CertificateToVerifierItem_fields (c : CScCertificate) (p : ScFixedParameters)
  : res (list CFieldElement) :=
  res_bind (custom_fields (fun cfg => FE_GetFieldElement cfg (version p))
              (vFieldElementCertificateField c) (vFieldElementCertificateFieldConfig p)) (fun l1 =>
  res_bind (custom_fields (fun cfg => BV_GetFieldElement cfg (version p))
              (vBitVectorCertificateField c) (vBitVectorCertificateFieldConfig p)) (fun l2 =>
  Ok (l1 ++ l2))).

Definition CertificateToVerifierItem_bts (c : CScCertificate) : res (list (bytes * Z)) :=
  res_bind (res_map BwtOut_of_txout (bwt_outs c)) (fun l =>
  Ok (map (fun b => (bt_pubKeyHash b, to_u64 (bt_nValue b))) l)).

Definition GetDataHash (c : CScCertificate) (p : ScFixedParameters) : res CFieldElement :=
  res_bind (CertificateToVerifierItem_bts c) (fun bt_list =>
  res_bind (CertificateToVerifierItem_fields c p) (fun fields =>
  Ok (FE_of_ptr (zendoo_get_cert_data_hash (cert_scId c) (epochNumber c) (quality c) bt_list
        fields (endEpochCumScTxCommTreeRoot c) (mainchainBackwardTransferRequestScFee c)
        (forwardTransferScFee c))))).

Definition CertView_of (c : CScCertificate) (p : ScFixedParameters) : res CScCertificateView :=
  res_bind (GetDataHash c p) (fun h =>
  Ok (mkCertView h (forwardTransferScFee c) (mainchainBackwardTransferRequestScFee c))).
End DataHash.

(** ** Lemmas: amounts *)
Definition zsum {A} (f : A -> Z) (l : list A) : Z := foldr (fun x acc => f x + acc) 0 l.

(** the values a running total takes *)
Definition partial_sums {A} (f : A -> Z) (l : list A) : list Z := map (fun k => zsum f (take k l)) (seq 0 (S (length l))).

Lemma zsum_app {A} (f : A -> Z) l1 l2 : zsum f (l1 ++ l2) = zsum f l1 + zsum f l2.
Proof. induction l1 as [|x l1 IH]; simpl; lia. Qed.

Lemma foldl_zsum {A} (f : A -> Z) l acc : foldl (fun a x => a + f x) acc l = acc + zsum f l.
Proof. revert acc. induction l as [|x l IH]; intros acc; simpl; [lia|]. rewrite IH. lia. Qed.

Lemma zsum_nonneg {A} (f : A -> Z) l : (forall x, x ∈ l -> 0 <= f x) -> 0 <= zsum f l.
Proof.
  induction l as [|x l IH]; intros H; simpl; [lia|].
  pose proof (H x ltac:(set_solver)). pose proof (IH ltac:(set_solver)). lia.
Qed.

(** What [CheckAmounts] accepts, and the totals. *)
Definition js_amounts_ok (js : JSDescription) : bool :=
  MoneyRange (vpub_old js) && MoneyRange (vpub_new js) && ((vpub_new js =? 0) || (vpub_old js =? 0)).

Definition cc_amount_ok {T} `{CrosschainOut T} (o : T) : bool :=
  MoneyRange (GetScValue o) && ((0 <? GetScValue o) || AllowedZeroScValue o).

Definition total_out (tx : CTransaction) : Z :=
  zsum out_nValue (tx_vout tx) + zsum vpub_old (vjoinsplit tx)
  + (zsum GetScValue (vsc_ccout tx) + zsum GetScValue (vft_ccout tx) + zsum GetScValue (vmbtr_out tx)).

Definition total_claimed_in (tx : CTransaction) : Z :=
  zsum vpub_new (vjoinsplit tx) + zsum csw_nValue (vcsw_ccin tx).

Definition amounts_ok (tx : CTransaction) : bool :=
  forallb (fun o => MoneyRange (out_nValue o)) (tx_vout tx)
  && forallb js_amounts_ok (vjoinsplit tx)
  && forallb cc_amount_ok (vsc_ccout tx)
  && forallb cc_amount_ok (vft_ccout tx)
  && forallb cc_amount_ok (vmbtr_out tx)
  && forallb (fun c => MoneyRange (csw_nValue c)) (vcsw_ccin tx)
  && (total_out tx <=? MAX_MONEY) && (total_claimed_in tx <=? MAX_MONEY).

Definition rejected {B} (r : res (option B * VS)) : Prop :=
  exists st', r = Ok (None, st') /\ mode st' <> VALID.

Lemma reject_acc_rejected {B} level code reason st : rejected (@reject_acc B level code reason st).
Proof.
  unfold reject_acc, bind. destruct (reject_false level code reason st) as (st' & -> & Hm).
  by exists st'.
Qed.
#[export] Hint Resolve reject_acc_rejected : zen.

(** A loop body that accepts [x] when [good x] and the new total is in range. *)
Definition sums {A} (good : A -> bool) (f : A -> Z) (body : Z -> A -> M VS (option Z)) : Prop :=
  forall acc x st, 0 <= acc <= MAX_MONEY ->
    (good x = true -> 0 <= f x) /\
    (if good x && (acc + f x <=? MAX_MONEY) then body acc x st = Ok (Some (acc + f x), st)
     else rejected (body acc x st)).

Lemma for_acc_sums {A} good (f : A -> Z) body l acc st :
  sums good f body -> 0 <= acc <= MAX_MONEY ->
  if forallb good l && (acc + zsum f l <=? MAX_MONEY)
  then for_acc l acc body st = Ok (Some (acc + zsum f l), st)
  else rejected (for_acc l acc body st).
Proof.
  intros Hb. revert acc st. induction l as [|x l IH]; intros acc st Hacc; simpl.
  { rewrite Z.add_0_r, (proj2 (Z.leb_le _ _)) by lia. done. }
  destruct (Hb acc x st Hacc) as [Hpos Hx].
  destruct (good x) eqn:Hg; simpl in *; [specialize (Hpos eq_refl)|].
  2:{ destruct Hx as (st' & Hx & Hm). exists st'. unfold bind. by rewrite Hx. }
  destruct (Z.leb_spec (acc + f x) MAX_MONEY).
  { rewrite (bind_ok _ _ _ _ _ Hx). rewrite Z.add_assoc. apply IH. lia. }
  assert (Hr : rejected (bind (body acc x) (fun r => match r with
      Some acc' => for_acc l acc' body | None => ret None end) st)).
  { destruct Hx as (st' & Hx & Hm). exists st'. unfold bind. by rewrite Hx. }
  destruct (forallb good l) eqn:Hl; [|done].
  assert (0 <= zsum f l).
  { apply zsum_nonneg. intros y Hy. apply (Hb 0 y st); [unfold MAX_MONEY, COIN; lia|].
    rewrite forallb_forall in Hl. apply Hl. by apply list_elem_of_In. }
  simpl. rewrite (proj2 (Z.leb_gt _ _)) by lia. done.
Qed.

Ltac solve_sums :=
  intros acc x st Hacc; split;
  [ unfold js_amounts_ok, cc_amount_ok; rewrite ?andb_true_iff, ?MoneyRange_spec; lia
  | unfold js_amounts_ok, cc_amount_ok, MoneyRange, MAX_MONEY, COIN in *; simpl;
    zcases; simpl; auto with zen; try lia; try reflexivity ].

Lemma CheckAmounts_vout_sums : sums (fun o => MoneyRange (out_nValue o)) out_nValue CheckAmounts_vout.
Proof. unfold CheckAmounts_vout. solve_sums. Qed.

Lemma CheckAmounts_joinsplit_sums : sums js_amounts_ok vpub_old CheckAmounts_joinsplit.
Proof. unfold CheckAmounts_joinsplit. solve_sums. Qed.

Lemma CheckAmounts_ccout_sums {T} `{CrosschainOut T} :
  sums (A := T) cc_amount_ok GetScValue CheckAmounts_ccout.
Proof.
  unfold CheckAmounts_ccout, CheckAmountRange. solve_sums;
  destruct (AllowedZeroScValue x); simpl; auto with zen; lia.
Qed.

Lemma CheckAmounts_jsin_sums : sums (fun js => MoneyRange (vpub_new js)) vpub_new CheckAmounts_jsin.
Proof. unfold CheckAmounts_jsin. solve_sums. Qed.

Lemma CheckAmounts_csw_sums : sums (fun c => MoneyRange (csw_nValue c)) csw_nValue CheckAmounts_csw.
Proof. unfold CheckAmounts_csw. solve_sums. Qed.

Lemma forallb_zsum_nonneg {A} good (f : A -> Z) body l :
  sums good f body -> forallb good l = true -> 0 <= zsum f l.
Proof.
  intros Hb Hl. apply zsum_nonneg. intros y Hy.
  apply (Hb 0 y CValidationState_init); [unfold MAX_MONEY, COIN; lia|].
  rewrite forallb_forall in Hl. apply Hl. by apply list_elem_of_In.
Qed.

Lemma js_amounts_ok_new l :
  forallb js_amounts_ok l = true -> forallb (fun js => MoneyRange (vpub_new js)) l = true.
Proof.
  rewrite !forallb_forall. intros H x Hx. specialize (H x Hx).
  unfold js_amounts_ok in H. by zbool.
Qed.

Lemma amounts_ok_nonneg tx :
  amounts_ok tx = true ->
  0 <= zsum out_nValue (tx_vout tx) /\ 0 <= zsum vpub_old (vjoinsplit tx)
  /\ 0 <= zsum GetScValue (vsc_ccout tx) /\ 0 <= zsum GetScValue (vft_ccout tx)
  /\ 0 <= zsum GetScValue (vmbtr_out tx) /\ 0 <= zsum vpub_new (vjoinsplit tx)
  /\ 0 <= zsum csw_nValue (vcsw_ccin tx).
Proof.
  unfold amounts_ok. intros H. zbool.
  split_and!; eapply forallb_zsum_nonneg;
    eauto using CheckAmounts_vout_sums, CheckAmounts_joinsplit_sums, CheckAmounts_ccout_sums,
      CheckAmounts_jsin_sums, CheckAmounts_csw_sums, js_amounts_ok_new.
Qed.

Lemma and_then_some {S B C} (m : M S (option B)) (k : B -> M S (option C)) st b st' :
  m st = Ok (Some b, st') -> and_then m k st = k b st'.
Proof. intros H. unfold and_then. by rewrite (bind_ok _ _ _ _ _ H). Qed.

Lemma and_then_rejected {B C} (m : M VS (option B)) (k : B -> M VS (option C)) st :
  rejected (m st) -> rejected (and_then m k st).
Proof. intros (st' & H & Hm). exists st'. unfold and_then. by rewrite (bind_ok _ _ _ _ _ H). Qed.

Lemma for_acc_cases {A} good (f : A -> Z) body l acc st :
  sums good f body -> 0 <= acc <= MAX_MONEY ->
  (forallb good l = true /\ 0 <= acc + zsum f l <= MAX_MONEY
   /\ for_acc l acc body st = Ok (Some (acc + zsum f l), st))
  \/ rejected (for_acc l acc body st)
     /\ (forallb good l = true -> MAX_MONEY < acc + zsum f l).
Proof.
  intros Hb Hacc. pose proof (for_acc_sums _ _ _ l acc st Hb Hacc) as H.
  destruct (forallb good l) eqn:Hg; simpl in H; [|right; split; done].
  pose proof (forallb_zsum_nonneg _ _ _ _ Hb Hg).
  destruct (Z.leb_spec (acc + zsum f l) MAX_MONEY);
    [left; split_and!; (done || lia) | right; split; [done|intros _; lia]].
Qed.

(** One loop of [CheckAmounts]: when it rejects, the amounts are not acceptable;
    otherwise the goal goes on with the next loop. *)
Ltac amounts_loop bsums R :=
  let G := fresh "G" in let R' := fresh "R" in let E := fresh "E" in
  let Hr := fresh "Hr" in let Hg := fresh "Hg" in
  lazymatch goal with Hcon : (_ -> False) -> rejected (?m ?st) -> _ |- _ =>
    match m with
    | and_then (for_acc ?l ?acc _) _ =>
        destruct (for_acc_cases _ _ _ l acc st bsums R) as [(G & R' & E)|[Hr Hg]];
        [ rewrite (and_then_some _ _ _ _ _ E) in *
        | apply Hcon; [|by apply and_then_rejected]; revert Hg ]
    | for_acc ?l ?acc _ =>
        destruct (for_acc_cases _ _ _ l acc st bsums R) as [(G & R' & E)|[Hr Hg]];
        [ | apply Hcon; [|exact Hr]; revert Hg ]
    end
  end.

Lemma CheckAmounts_loops_spec tx st :
  if amounts_ok tx then exists v, CheckAmounts_loops tx st = Ok (Some v, st)
  else rejected (CheckAmounts_loops tx st).
Proof.
  assert (HM : 0 <= 0 <= MAX_MONEY) by (unfold MAX_MONEY, COIN; lia).
  pose proof (amounts_ok_nonneg tx) as Hneg.
  assert (Hcon : (amounts_ok tx = true -> False) -> rejected (CheckAmounts_loops tx st) ->
    if amounts_ok tx then exists v, CheckAmounts_loops tx st = Ok (Some v, st)
    else rejected (CheckAmounts_loops tx st))
    by (intros H1 H2; destruct (amounts_ok tx); [by destruct H1|done]).
  assert (Hno : forall b (P : Prop), (amounts_ok tx = true -> b = true /\ ~ P) -> (b = true -> P) ->
    amounts_ok tx = true -> False) by (intros b P H1 H2 H3; destruct (H1 H3); auto).
  unfold CheckAmounts_loops in *.
  amounts_loop CheckAmounts_vout_sums HM.
  2: { apply Hno. intros Ha. specialize (Hneg Ha).
       unfold amounts_ok, total_out in Ha. zbool. split; [done|lia]. }
  amounts_loop CheckAmounts_joinsplit_sums R.
  2: { apply Hno. intros Ha. specialize (Hneg Ha).
       unfold amounts_ok, total_out in Ha. zbool. split; [done|lia]. }
  amounts_loop (CheckAmounts_ccout_sums (T := CTxScCreationOut)) R0.
  2: { apply Hno. intros Ha. specialize (Hneg Ha).
       unfold amounts_ok, total_out in Ha. zbool. split; [done|lia]. }
  amounts_loop (CheckAmounts_ccout_sums (T := CTxForwardTransferOut)) R1.
  2: { apply Hno. intros Ha. specialize (Hneg Ha).
       unfold amounts_ok, total_out in Ha. zbool. split; [done|lia]. }
  amounts_loop (CheckAmounts_ccout_sums (T := CBwtRequestOut)) R2.
  2: { apply Hno. intros Ha. specialize (Hneg Ha).
       unfold amounts_ok, total_out in Ha. zbool. split; [done|lia]. }
  amounts_loop CheckAmounts_jsin_sums HM.
  2: { apply Hno. intros Ha. specialize (Hneg Ha).
       unfold amounts_ok, total_claimed_in in Ha. zbool.
       split; [by apply js_amounts_ok_new|lia]. }
  amounts_loop CheckAmounts_csw_sums R4.
  2: { apply Hno. intros Ha. specialize (Hneg Ha).
       unfold amounts_ok, total_claimed_in in Ha. zbool. split; [done|lia]. }
  assert (Ha : amounts_ok tx = true); [|rewrite Ha; eauto].
  unfold amounts_ok, total_out, total_claimed_in.
  repeat match goal with H : forallb _ _ = true |- _ => rewrite H; clear H end.
  rewrite !(proj2 (Z.leb_le _ _)); [done| |]; lia.
Qed.

Lemma CheckAmounts_spec tx st :
  if amounts_ok tx then CheckAmounts tx st = Ok (true, st)
  else exists st', CheckAmounts tx st = Ok (false, st') /\ mode st' <> VALID.
Proof.
  pose proof (CheckAmounts_loops_spec tx st) as H. unfold CheckAmounts, bind.
  destruct (amounts_ok tx); [destruct H as [v ->]; done|].
  destruct H as (st' & -> & Hm). by exists st'.
Qed.

Lemma sum_checked_ok {A} what acc (f : A -> Z) l :
  forallb (fun x => MoneyRange (f x)) l = true -> 0 <= acc -> acc + zsum f l <= MAX_MONEY ->
  sum_checked what acc (map f l) = Ok (acc + zsum f l).
Proof.
  revert acc. induction l as [|x l IH]; intros acc Hg H0 Hs; simpl in *; [f_equal; lia|]. zbool.
  match goal with H : MoneyRange (f x) = true |- _ =>
    rewrite H; apply MoneyRange_spec in H end.
  assert (0 <= zsum f l).
  { apply zsum_nonneg. intros y Hy. rewrite forallb_forall in *.
    apply MoneyRange_spec. match goal with H : forall _, In _ _ -> _ |- _ => apply H end.
    by apply list_elem_of_In. }
  rewrite (proj2 (MoneyRange_spec (acc + f x))) by lia. simpl.
  rewrite IH; [f_equal; lia|done|lia|lia].
Qed.

Lemma cc_amount_ok_range {T} `{CrosschainOut T} (l : list T) :
  forallb cc_amount_ok l = true -> forallb (fun x => MoneyRange (GetScValue x)) l = true.
Proof. rewrite !forallb_forall. intros Hl x Hx. specialize (Hl x Hx). unfold cc_amount_ok in Hl. by zbool. Qed.

Lemma js_amounts_ok_old l :
  forallb js_amounts_ok l = true -> forallb (fun js => MoneyRange (vpub_old js)) l = true.
Proof.
  rewrite !forallb_forall. intros H x Hx. specialize (H x Hx).
  unfold js_amounts_ok in H. by zbool.
Qed.

Lemma GetValueOut_total tx : amounts_ok tx = true -> GetValueOut tx = Ok (total_out tx).
Proof.
  intros Ha. pose proof (amounts_ok_nonneg _ Ha).
  unfold amounts_ok, total_out, total_claimed_in in Ha. zbool.
  unfold GetValueOut, GetValueOut_base, GetValueCcOut.
  rewrite sum_checked_ok by (done || lia). cbn [res_bind].
  rewrite sum_checked_ok by first [by apply js_amounts_ok_old | lia]. cbn [res_bind].
  rewrite !sum_checked_ok by first [by apply cc_amount_ok_range | lia]. cbn [res_bind].
  unfold total_out. rewrite (proj2 (MoneyRange_spec _)) by lia. cbn [negb]. f_equal; lia.
Qed.

Lemma partial_sums_range {A} (f : A -> Z) l acc top :
  (forall x, x ∈ l -> 0 <= f x) -> 0 <= acc -> acc + zsum f l <= top ->
  Forall (fun v => 0 <= acc + v <= top) (partial_sums f l).
Proof.
  intros Hf Ha Ht. apply list.Forall_forall. intros v (k & <- & _)%list_elem_of_In%in_map_iff.
  rewrite <- (take_drop k l), zsum_app in Ht.
  assert (0 <= zsum f (take k l)) by (apply zsum_nonneg; intros x Hx; apply Hf; rewrite <- (take_drop k l); set_solver).
  assert (0 <= zsum f (drop k l)) by (apply zsum_nonneg; intros x Hx; apply Hf; rewrite <- (take_drop k l); set_solver).
  lia.
Qed.

(** every value [GetValueOut], [GetJoinSplitValueIn] and [GetCSWValueIn] hold in a variable while they sum *)
Definition running_totals (tx : CTransaction) : list Z :=
  partial_sums out_nValue (tx_vout tx)
  ++ map (Z.add (zsum out_nValue (tx_vout tx))) (partial_sums vpub_old (vjoinsplit tx))
  ++ partial_sums GetScValue (vsc_ccout tx) ++ partial_sums GetScValue (vft_ccout tx) ++ partial_sums GetScValue (vmbtr_out tx)
  ++ [zsum GetScValue (vsc_ccout tx) + zsum GetScValue (vft_ccout tx);
      zsum GetScValue (vsc_ccout tx) + zsum GetScValue (vft_ccout tx) + zsum GetScValue (vmbtr_out tx); total_out tx]
  ++ partial_sums vpub_new (vjoinsplit tx) ++ partial_sums csw_nValue (vcsw_ccin tx).

Lemma forallb_range {A} (f : A -> Z) l x : forallb (fun x => MoneyRange (f x)) l = true -> x ∈ l -> 0 <= f x.
Proof. rewrite forallb_forall. intros H Hx%list_elem_of_In%H%MoneyRange_spec. lia. Qed.

Lemma running_totals_range tx : amounts_ok tx = true -> Forall (fun v => 0 <= v <= MAX_MONEY) (running_totals tx).
Proof.
  intros Ha. pose proof (amounts_ok_nonneg _ Ha). unfold amounts_ok, total_claimed_in, total_out in Ha. zbool.
  unfold running_totals, total_out. rewrite !Forall_app, Forall_map.
  assert (Hsum : forall A (f : A -> Z) l, forallb (fun x => MoneyRange (f x)) l = true -> zsum f l <= MAX_MONEY ->
    Forall (fun v => 0 <= v <= MAX_MONEY) (partial_sums f l)).
  { intros A f l Hl Ht. apply (partial_sums_range f l 0); [intros x; by apply forallb_range|lia|lia]. }
  split_and!; [apply Hsum| |apply Hsum..| |apply Hsum|apply Hsum];
    try (lia || done || by apply js_amounts_ok_new || by apply cc_amount_ok_range).
  - apply partial_sums_range; [intros x; apply forallb_range; by apply js_amounts_ok_old|lia|lia].
  - repeat (apply list.Forall_cons_2; [lia|]). by apply list.Forall_nil_2.
Qed.

(** C29: [CTransaction::CheckAmounts] is exact: it returns [true], leaving the
    validation state alone, precisely when every amount of the transaction is in
    range (strictly positive for forward transfers and sidechain creations,
    possibly zero for backward transfer requests, no JoinSplit with both public
    values), and the totals of the outputs and of the claimed inputs do not
    exceed [MAX_MONEY]; otherwise it returns [false] and records a rejection.  It
    never throws. *)
Theorem CheckAmounts_exact (tx : CTransaction) (st : CValidationState) :
  CheckAmounts tx st = Ok (true, st) /\ amounts_ok tx = true
  \/ (exists st', CheckAmounts tx st = Ok (false, st') /\ mode st' <> VALID) /\ amounts_ok tx = false.
Proof. pose proof (CheckAmounts_spec tx st). destruct (amounts_ok tx); auto. Qed.

(** C30: after [CheckAmounts] has accepted a transaction, none of the value
    computations throws: the total of the outputs is the sum of all of them, the
    totals of the JoinSplits and of the withdrawals are their sums, and every value
    the running totals of the three computations take, first and last and in
    between, lies in the money range and so far inside the 64 bits of an amount. *)
Theorem CheckAmounts_values (tx : CTransaction) (st st' : CValidationState) :
  CheckAmounts tx st = Ok (true, st') ->
  GetValueOut tx = Ok (total_out tx) /\ 0 <= total_out tx <= MAX_MONEY
  /\ GetJoinSplitValueIn tx = Ok (zsum vpub_new (vjoinsplit tx))
  /\ GetCSWValueIn tx = Ok (zsum csw_nValue (vcsw_ccin tx))
  /\ is_i64 (total_out tx + total_claimed_in tx)
  /\ Forall (fun v => 0 <= v <= MAX_MONEY) (running_totals tx) /\ is_i64 MAX_MONEY.
Proof.
  intros Hc. assert (Ha : amounts_ok tx = true).
  { pose proof (CheckAmounts_spec tx st) as H. destruct (amounts_ok tx); [done|].
    destruct H as (? & H & _). congruence. }
  pose proof (amounts_ok_nonneg _ Ha). rewrite (GetValueOut_total _ Ha). pose proof (running_totals_range _ Ha).
  unfold amounts_ok, total_claimed_in in Ha. zbool.
  unfold GetJoinSplitValueIn, GetCSWValueIn.
  rewrite !sum_checked_ok by first [done | by apply js_amounts_ok_new | lia].
  unfold total_out, total_claimed_in, is_i64, MAX_MONEY, COIN in *. split_and!; try done; lia.
Qed.

Definition empty_tx : CTransaction := mkTx 1 [] [] 0 [] 0 [] [] [] [] 0 null_sig.

Definition sample_tx : CTransaction :=
  mkTx SC_TX_VERSION [mkTxIn (mkOutPoint 7 0) [] 0] [mkTxOut 1000 [0x51]] 11 [] 0
    [] [] [mkFt 500 3 42 (repeat 1 20)] [mkMbtr 42 [] (repeat 2 20) 0] 0 null_sig.

Lemma CheckAmounts_values_witness :
  CheckAmounts sample_tx CValidationState_init = Ok (true, CValidationState_init)
  /\ GetValueOut sample_tx = Ok (total_out sample_tx) /\ total_out sample_tx = 1500
  /\ Forall (fun v => 0 <= v <= MAX_MONEY) (running_totals sample_tx).
Proof.
  split; [reflexivity|].
  destruct (CheckAmounts_values sample_tx CValidationState_init CValidationState_init eq_refl) as (H1 & _ & _ & _ & _ & H2 & _).
  split; [exact H1|]. split; [reflexivity|exact H2].
Defined.

(** [CTransaction::CheckFeeAmount] never throws and accepts exactly the
    transactions whose amounts are acceptable and whose outputs do not exceed the
    given input total; the fee it computes is then in the money range. *)
Theorem CheckFeeAmount_exact (tx : CTransaction) (totalVinAmount : CAmount) (st : CValidationState) :
  exists b st', CheckFeeAmount tx totalVinAmount st = Ok (b, st')
  /\ (b = true <-> MoneyRange totalVinAmount = true /\ amounts_ok tx = true
                   /\ total_out tx <= totalVinAmount)
  /\ (b = false -> mode st' <> VALID) /\ (b = true -> st' = st).
Proof.
  assert (Hrej : forall l c r (P : Prop), ~ P -> exists b st', reject l c r st = Ok (b, st')
    /\ (b = true <-> P) /\ (b = false -> mode st' <> VALID) /\ (b = true -> st' = st)).
  { intros l c r P HP. destruct (reject_false l c r st) as (st' & -> & Hm).
    exists false, st'. by split_and!. }
  unfold CheckFeeAmount. destruct (MoneyRange totalVinAmount) eqn:Hm; cbn [negb];
    [|apply Hrej; naive_solver].
  pose proof (CheckAmounts_spec tx st) as H. destruct (amounts_ok tx) eqn:Ha.
  - rewrite (bind_ok _ _ _ _ _ H). cbn [negb]. rewrite (GetValueOut_total _ Ha).
    unfold lift. rewrite (bind_ok _ _ _ (total_out tx) st eq_refl).
    pose proof (amounts_ok_nonneg _ Ha). apply MoneyRange_spec in Hm.
    destruct (Z.ltb_spec totalVinAmount (total_out tx)); [apply Hrej; lia|].
    rewrite (proj2 (Z.ltb_ge _ _)) by lia.
    rewrite (proj2 (MoneyRange_spec _)) by (unfold total_out in *; lia).
    exists true, st. split_and!; done || naive_solver.
  - destruct H as (st' & H & Hst). rewrite (bind_ok _ _ _ _ _ H).
    exists false, st'. split_and!; done || naive_solver.
Qed.

(** ** Lemmas: duplicate inputs *)
Lemma check_dup_cases {K} `{Countable K} reason (l : list K) (seen : gset K) st :
  NoDup l /\ (forall k, k ∈ l -> k ∉ seen) /\ check_dup reason seen l st = Ok (true, st)
  \/ ~ (NoDup l /\ forall k, k ∈ l -> k ∉ seen)
     /\ exists st', check_dup reason seen l st = Ok (false, st') /\ mode st' <> VALID.
Proof.
  revert seen. induction l as [|k l IH]; intros seen; simpl.
  { left. split_and!; [constructor|set_solver|done]. }
  rewrite list.NoDup_cons. case_decide as Hk; [right; split; [set_solver|apply reject_false]|].
  destruct (IH ({[k]} ∪ seen)) as [(? & ? & ?)|[Hn ?]]; [left|right].
  - split_and!; [set_solver|done|set_solver|done].
  - split; [|done]. intros [[? ?] ?]. apply Hn. split; [done|set_solver].
Qed.

Lemma check_dup_empty {K} `{Countable K} reason (l : list K) st :
  NoDup l /\ check_dup reason ∅ l st = Ok (true, st)
  \/ ~ NoDup l /\ exists st', check_dup reason ∅ l st = Ok (false, st') /\ mode st' <> VALID.
Proof.
  destruct (check_dup_cases reason l ∅ st) as [(? & ? & ?)|[Hn ?]]; [by left|right].
  split; [|done]. intros ?. apply Hn. split; [done|set_solver].
Qed.

Lemma CheckInputsDuplication_spec (tx : CTransaction) (st : CValidationState) :
  exists b st', CheckInputsDuplication tx st = Ok (b, st')
  /\ (b = true <-> NoDup (map prevout (tx_vin tx)) /\ NoDup (concat (map nullifiers (vjoinsplit tx)))
                   /\ NoDup (map csw_nullifier (vcsw_ccin tx)))
  /\ (b = false -> mode st' <> VALID) /\ (b = true -> st' = st).
Proof.
  unfold CheckInputsDuplication, CheckInputsDuplication_base, bind.
  destruct (check_dup_empty "bad-txns-inputs-duplicate" (map prevout (tx_vin tx)) st)
    as [[N1 ->]|[N1 (st' & -> & Hm)]]; cbn [negb]; [|exists false, st'; naive_solver].
  destruct (check_dup_empty "bad-joinsplits-nullifiers-duplicate"
    (concat (map nullifiers (vjoinsplit tx))) st)
    as [[N2 ->]|[N2 (st' & -> & Hm)]]; cbn [negb]; [|exists false, st'; naive_solver].
  destruct (check_dup_empty "bad-txns-csw-inputs-duplicate" (map csw_nullifier (vcsw_ccin tx)) st)
    as [[N3 ->]|[N3 (st' & -> & Hm)]]; [exists true, st|exists false, st']; naive_solver.
Qed.

(** [CTransaction::CheckInputsDuplication] accepts exactly the transactions
    in which no outpoint is spent twice, no JoinSplit nullifier is revealed twice
    and no two withdrawal inputs carry the same nullifier. *)
Theorem CheckInputsDuplication_exact (tx : CTransaction) (st : CValidationState) :
  exists b st', CheckInputsDuplication tx st = Ok (b, st')
  /\ (b = true <-> NoDup (map prevout (tx_vin tx)) /\ NoDup (concat (map nullifiers (vjoinsplit tx)))
                   /\ NoDup (map csw_nullifier (vcsw_ccin tx)))
  /\ (b = false -> mode st' <> VALID) /\ (b = true -> st' = st).
Proof. apply CheckInputsDuplication_spec. Qed.

(** ** Lemmas: certificates *)
Definition cert_wf (c : CScCertificate) : Prop :=
  0 <= nFirstBwtPos c <= vsize (cert_vout c) /\ vsize (cert_vout c) < 2 ^ 31.

Lemma GetValueOfBackwardTransfers_zsum c :
  GetValueOfBackwardTransfers c = zsum out_nValue (bwt_outs c).
Proof. unfold GetValueOfBackwardTransfers. by rewrite foldl_zsum. Qed.

Lemma GetValueOfChange_zsum c : GetValueOfChange c = zsum out_nValue (change_outs c).
Proof. unfold GetValueOfChange. by rewrite foldl_zsum. Qed.

Lemma cert_value_split c :
  GetValueOfChange c + GetValueOfBackwardTransfers c = zsum out_nValue (cert_vout c).
Proof.
  rewrite GetValueOfChange_zsum, GetValueOfBackwardTransfers_zsum, <- zsum_app.
  unfold change_outs, bwt_outs. by rewrite take_drop.
Qed.

Definition cert_out_ok (first : Z) (p : nat * CTxOut) : bool :=
  MoneyRange (out_nValue p.2) && ((0 <? out_nValue p.2) || (Z.of_nat p.1 <? to_u32 first)).

Lemma cert_CheckAmounts_vout_sums first :
  sums (cert_out_ok first) (fun p => out_nValue p.2) (cert_CheckAmounts_vout first).
Proof.
  unfold cert_CheckAmounts_vout, cert_out_ok. intros acc [pos x] st Hacc. simpl fst; simpl snd.
  split; [rewrite andb_true_iff, MoneyRange_spec; lia|].
  unfold MoneyRange, MAX_MONEY, COIN in *. zcases; simpl; auto with zen; try lia; reflexivity.
Qed.

Lemma zsum_imap_snd (l : list CTxOut) :
  zsum (fun p => out_nValue p.2) (imap pair l) = zsum out_nValue l.
Proof.
  assert (H : forall l (f : nat -> CTxOut -> nat * CTxOut), (forall n o, (f n o).2 = o) ->
    zsum (fun p => out_nValue p.2) (imap f l) = zsum out_nValue l).
  { clear l. induction l as [|o l IH]; intros f Hf; simpl; [done|].
    rewrite Hf. f_equal. apply IH. intros; apply Hf. }
  apply H. done.
Qed.

(** Once [CScCertificate::CheckAmounts] has accepted a certificate, every
    output is a valid amount, every backward transfer is strictly positive, and
    the amounts withdrawn from the sidechain and given back as change are
    non-negative and add up to the total of the outputs, within the money range. *)
Theorem cert_CheckAmounts_sound (c : CScCertificate) (st st' : CValidationState) :
  cert_wf c -> cert_CheckAmounts c st = Ok (true, st') ->
  st' = st
  /\ (forall o, o ∈ bwt_outs c -> 0 < out_nValue o)
  /\ (forall o, o ∈ cert_vout c -> 0 <= out_nValue o <= MAX_MONEY)
  /\ 0 <= GetValueOfBackwardTransfers c /\ 0 <= GetValueOfChange c
  /\ GetValueOfChange c + GetValueOfBackwardTransfers c = zsum out_nValue (cert_vout c)
  /\ zsum out_nValue (cert_vout c) <= MAX_MONEY.
Proof.
  intros [Hwf Hsz]. unfold cert_CheckAmounts, bind.
  destruct (for_acc_cases _ _ _ (imap pair (cert_vout c)) 0 st
    (cert_CheckAmounts_vout_sums (nFirstBwtPos c)) ltac:(unfold MAX_MONEY, COIN; lia))
    as [(Hg & Hr & ->)|[(st1 & -> & _) _]]; [|by intros].
  rewrite zsum_imap_snd in Hr. rewrite forallb_forall in Hg.
  assert (Hout : forall i o, cert_vout c !! i = Some o ->
    0 <= out_nValue o <= MAX_MONEY /\ (nFirstBwtPos c <= Z.of_nat i -> 0 < out_nValue o)).
  { intros i o Hi. assert (Hin : In (i, o) (imap pair (cert_vout c))).
    { apply list_elem_of_In, list_elem_of_lookup. exists i. by rewrite list_lookup_imap, Hi. }
    specialize (Hg _ Hin). unfold cert_out_ok in Hg. cbn [fst snd] in Hg. zbool.
    match goal with H : MoneyRange _ = true |- _ => apply MoneyRange_spec in H end.
    split; [done|]. intros Hpos. unfold to_u32 in *. rewrite Z.mod_small in * by lia.
    match goal with H : _ || _ = true |- _ => apply orb_true_iff in H; destruct H; zbool end; lia. }
  assert (Hb : forall o, o ∈ bwt_outs c -> 0 < out_nValue o).
  { intros o (i & Hi)%list_elem_of_lookup. unfold bwt_outs in Hi. rewrite lookup_drop in Hi.
    apply (Hout _ _ Hi). lia. }
  assert (Hall : forall o, o ∈ cert_vout c -> 0 <= out_nValue o <= MAX_MONEY).
  { intros o (i & Hi)%list_elem_of_lookup. by apply (Hout i). }
  pose proof (cert_value_split c) as Hsplit.
  assert (0 <= GetValueOfBackwardTransfers c)
    by (rewrite GetValueOfBackwardTransfers_zsum; apply zsum_nonneg; intros o Ho; specialize (Hb o Ho); lia).
  assert (0 <= GetValueOfChange c).
  { rewrite GetValueOfChange_zsum. apply zsum_nonneg. intros o Ho. apply Hall.
    unfold change_outs in Ho. eapply elem_of_take in Ho as (i & Hi & _). by eapply list_elem_of_lookup_2. }
  rewrite (proj2 (MoneyRange_spec _)) by lia. cbn [negb]. intros [= <-].
  split_and!; try done; lia.
Qed.

Definition sample_cert : CScCertificate :=
  mkCert SC_CERT_VERSION [mkTxIn (mkOutPoint 9 1) [] 0]
    [mkTxOut 100 [0x51]; mkTxOut 250 ([0x76; 0xa9; 20] ++ repeat 3 20 ++ [0x88; 0xac])]
    77 42 0 5 (repeat 1 32) (repeat 9 100) [] [] 10 20 1.

Lemma cert_CheckAmounts_sound_witness :
  cert_wf sample_cert /\ 0 <= GetValueOfBackwardTransfers sample_cert.
Proof.
  split; [unfold cert_wf, vsize; simpl; lia|].
  apply (cert_CheckAmounts_sound sample_cert CValidationState_init CValidationState_init);
    [unfold cert_wf, vsize; simpl; lia|reflexivity].
Defined.

(** ** Lemmas: backward transfers on the wire *)
Definition bwt_ok (b : CBackwardTransferOut) : Prop :=
  length (bt_pubKeyHash b) = 20%nat /\ (bt_nValue b = -1 -> bt_pubKeyHash b = repeat 0 20).

Lemma BwtOut_of_TxOut b : bwt_ok b -> BwtOut_of_txout (TxOut_of_bwt b) = Ok b.
Proof.
  destruct b as [v pkh]. intros [Hlen Hnull]. simpl in *.
  unfold BwtOut_of_txout, TxOut_IsNull, TxOut_of_bwt. cbn [out_nValue bt_nValue scriptPubKey bt_pubKeyHash].
  destruct (Z.eqb_spec v (-1)) as [Hv|Hv]; [by rewrite Hnull|].
  unfold push_data, vsize. rewrite Hlen. simpl.
  rewrite length_app, Hlen. simpl. rewrite take_app_le by lia. by rewrite take_ge by lia.
Qed.

Lemma res_map_map {A B C} (f : B -> res C) (g : A -> B) (h : A -> C) l :
  (forall x, x ∈ l -> f (g x) = Ok (h x)) -> res_map f (map g l) = Ok (map h l).
Proof.
  induction l as [|x l IH]; intros Hf; simpl; [done|].
  rewrite Hf by set_solver. simpl. rewrite IH by set_solver. done.
Qed.

Lemma cert_vout_spec (vout : list CTxOut) (vbt : list CBackwardTransferOut) :
  Forall bwt_ok vbt -> cert_vout_ser (vout ++ map TxOut_of_bwt vbt) (vsize vout) = Ok (vout, vbt).
Proof.
  intros Hb. unfold cert_vout_ser, vsize. rewrite Nat2Z.id.
  rewrite drop_app_length, take_app_length.
  rewrite (res_map_map _ _ (fun x => x)).
  - simpl. by rewrite map_id.
  - intros b Hin. apply BwtOut_of_TxOut. rewrite list.Forall_forall in Hb. auto.
Qed.

(** A certificate read from the wire is written back as it was: the ordinary
    outputs and the backward transfers that [SerializationOpInternal] merges into
    [vout] are separated again at [nFirstBwtPos], every value and destination
    key hash recovered from the output script. *)
Theorem cert_vout_roundtrip (vout : list CTxOut) (vbt : list CBackwardTransferOut) :
  Forall bwt_ok vbt ->
  let '(merged, first) := cert_vout_unser vout vbt in
  cert_vout_ser merged first = Ok (vout, vbt).
Proof. apply cert_vout_spec. Qed.

Lemma cert_vout_roundtrip_witness :
  Forall bwt_ok [mkBwtOut 5 (repeat 7 20)]
  /\ cert_vout_ser (cert_vout_unser [mkTxOut 3 [1]] [mkBwtOut 5 (repeat 7 20)]).1
       (cert_vout_unser [mkTxOut 3 [1]] [mkBwtOut 5 (repeat 7 20)]).2
     = Ok ([mkTxOut 3 [1]], [mkBwtOut 5 (repeat 7 20)]).
Proof.
  assert (H : Forall bwt_ok [mkBwtOut 5 (repeat 7 20)]) by (repeat constructor; done).
  split; [exact H|]. exact (cert_vout_roundtrip [mkTxOut 3 [1]] _ H).
Defined.

(** ** Lemmas: the mutable certificate *)
Definition mut_wf (m : MutCert) : Prop :=
  0 <= m_first m <= vsize (m_vout m) /\ vsize (m_vout m) < 2 ^ 31.

Definition m_change (m : MutCert) : list CTxOut := take (Z.to_nat (m_first m)) (m_vout m).

Definition m_bwts (m : MutCert) : list CTxOut := drop (Z.to_nat (m_first m)) (m_vout m).

Lemma m_split m : m_vout m = m_change m ++ m_bwts m.
Proof. unfold m_change, m_bwts. by rewrite take_drop. Qed.

Lemma mut_wf_change m : mut_wf m -> length (m_change m) = Z.to_nat (m_first m).
Proof. unfold mut_wf, m_change, vsize. intros H. rewrite length_take. lia. Qed.

Lemma mk_segments a b :
  m_change (mkMutCert (a ++ b) (vsize a)) = a /\ m_bwts (mkMutCert (a ++ b) (vsize a)) = b.
Proof.
  unfold m_change, m_bwts, vsize. cbn [m_vout m_first]. rewrite Nat2Z.id.
  by rewrite take_app_length, drop_app_length.
Qed.

Lemma mk_segments_of a b m :
  m_vout m = a ++ b -> m_first m = vsize a -> m_change m = a /\ m_bwts m = b.
Proof. destruct m. simpl. intros -> ->. apply mk_segments. Qed.

Lemma mut_shape m : mut_wf m -> exists a b, m = mkMutCert (a ++ b) (vsize a)
  /\ m_change m = a /\ m_bwts m = b /\ to_u32 (vsize a) = vsize a.
Proof.
  intros Hwf. exists (m_change m), (m_bwts m). pose proof (mut_wf_change m Hwf) as Hl.
  destruct Hwf as [Hf Hs]. unfold vsize in *. split_and!; try done.
  - destruct m as [v f]. simpl in *. rewrite <- (m_split (mkMutCert v f)). simpl.
    f_equal. lia.
  - unfold to_u32. rewrite Z.mod_small; lia.
Qed.

Lemma take_len {A} (a b : list A) : take (Z.to_nat (vsize a)) (a ++ b) = a.
Proof. unfold vsize. by rewrite Nat2Z.id, take_app_length. Qed.

Lemma drop_len {A} (a b : list A) : drop (Z.to_nat (vsize a)) (a ++ b) = b.
Proof. unfold vsize. by rewrite Nat2Z.id, drop_app_length. Qed.

(** [std::vector::resize] *)
Definition vresize (n : nat) (l : list CTxOut) : list CTxOut :=
  take n l ++ repeat TxOut_SetNull (n - length l).

Lemma vsize_vresize n l : vsize (vresize n l) = Z.of_nat n.
Proof. unfold vresize, vsize. rewrite length_app, repeat_length, length_take. lia. Qed.

Lemma resizeOut_shape a b n :
  0 <= n -> to_u32 (vsize a) = vsize a ->
  resizeOut n (mkMutCert (a ++ b) (vsize a)) = mkMutCert (vresize (Z.to_nat n) a ++ b) n.
Proof.
  intros Hn Hu. unfold resizeOut, vresize. cbn [m_vout m_first]. rewrite Hu. f_equal.
  destruct (Z.ltb_spec (vsize a) n) as [H1|H1]; destruct (Z.ltb_spec n (vsize a)) as [H2|H2]; [lia| | |].
  - rewrite take_len, drop_len, (take_ge a), <- app_assoc by (unfold vsize in *; lia).
    unfold vsize. by rewrite Nat2Z.id.
  - rewrite drop_len, take_app_le by (unfold vsize in *; lia).
    replace (Z.to_nat n - length a)%nat with 0%nat by (unfold vsize in *; lia). simpl. by rewrite app_nil_r.
  - rewrite take_ge by (unfold vsize in *; lia).
    replace (Z.to_nat n - length a)%nat with 0%nat by (unfold vsize in *; lia). simpl. by rewrite app_nil_r.
Qed.

Lemma resizeBwt_shape a b n :
  0 <= n -> resizeBwt n (mkMutCert (a ++ b) (vsize a)) = mkMutCert (a ++ vresize (Z.to_nat n) b) (vsize a).
Proof.
  intros Hn. unfold resizeBwt, vresize. cbn [m_vout m_first]. f_equal.
  rewrite take_app_ge, <- app_assoc by (unfold vsize; lia). rewrite length_app. unfold vsize.
  replace (Z.to_nat (Z.of_nat (length a) + n) - length a)%nat with (Z.to_nat n) by lia.
  by replace (Z.to_nat (Z.of_nat (length a) + n) - (length a + length b))%nat
    with (Z.to_nat n - length b)%nat by lia.
Qed.

(** Editing a mutable certificate keeps the two segments of [vout] apart:
    adding or resizing ordinary outputs never touches the backward transfers,
    and adding or resizing backward transfers never touches the change. *)
Theorem mutcert_segments (m : MutCert) (o : CTxOut) (n : Z) :
  mut_wf m -> 0 <= n ->
  (m_change (addOut o m) = m_change m ++ [o] /\ m_bwts (addOut o m) = m_bwts m)
  /\ (m_change (addBwt o m) = m_change m /\ m_bwts (addBwt o m) = m_bwts m ++ [o])
  /\ (m_change (resizeOut n m) = vresize (Z.to_nat n) (m_change m)
      /\ m_bwts (resizeOut n m) = m_bwts m)
  /\ (m_change (resizeBwt n m) = m_change m
      /\ m_bwts (resizeBwt n m) = vresize (Z.to_nat n) (m_bwts m)).
Proof.
  intros Hwf Hn. destruct (mut_shape m Hwf) as (a & b & -> & Ha & Hb & Hu).
  rewrite Ha, Hb. clear Ha Hb. rewrite resizeOut_shape, resizeBwt_shape by done.
  split; [|split; [|split]].
  - apply mk_segments_of; unfold addOut; cbn [m_vout m_first].
    + by rewrite take_len, drop_len, <- app_assoc.
    + unfold vsize. rewrite length_app. simpl. lia.
  - apply mk_segments_of; unfold addBwt; cbn [m_vout m_first]; [by rewrite <- app_assoc|done].
  - apply mk_segments_of; cbn [m_vout m_first]; [done|rewrite vsize_vresize; lia].
  - by apply mk_segments_of.
Qed.

Lemma mutcert_segments_witness :
  m_bwts (resizeOut 3 (mkMutCert [mkTxOut 1 []; mkTxOut 2 []] 1)) = [mkTxOut 2 []].
Proof.
  apply (mutcert_segments (mkMutCert [mkTxOut 1 []; mkTxOut 2 []] 1) TxOut_SetNull 3);
    [unfold mut_wf, vsize; simpl; lia|lia].
Defined.
