(* ===== verification/Digits.v ===== *)
(** * Positional numbers

    Digits in a base, least digit first, with the loop that multiplies by a small
    number and adds: shared by the Base58 codec and the 256-bit arithmetic. *)

From stdpp Require Import base numbers list.
From Stdlib Require Import ZArith Lia.
From S2P Require Import Prelude.
From S2P Require Import ScTypes.
Open Scope Z_scope.

Fixpoint digits_value (b : Z) (l : list Z) : Z :=
  match l with
  | [] => 0
  | d :: l' => d + b * digits_value b l'
  end.

Definition digit (b d : Z) : Prop := 0 <= d < b.

(** both inner loops: multiply by [m] and add *)
Fixpoint digits_loop (m b carry : Z) (l : list Z) : list Z * Z :=
  match l with
  | [] => ([], carry)
  | d :: l' =>
      let carry := carry + m * d in
      let '(ds, c) := digits_loop m b (Z.quot carry b) l' in (Z.rem carry b :: ds, c)
  end.

Lemma digits_value_bound b l : 0 < b -> Forall (digit b) l -> 0 <= digits_value b l < b ^ vsize l.
Proof.
  intros Hb. induction 1 as [|d l Hd _ IH]; [done|]. unfold vsize in *. cbn [digits_value length].
  rewrite Nat2Z.inj_succ, Z.pow_succ_r by lia. unfold digit in Hd. nia.
Qed.

(** the loop computes [m * x + carry], keeping what does not fit as its carry *)
Lemma digits_loop_spec m b carry l ds c :
  0 <= m -> 0 < b -> Forall (digit b) l -> 0 <= carry -> digits_loop m b carry l = (ds, c) ->
  Forall (digit b) ds /\ length ds = length l /\ 0 <= c
  /\ digits_value b ds + b ^ vsize l * c = carry + m * digits_value b l.
Proof.
  intros Hm Hb Hl. revert carry ds c. induction Hl as [|d l Hd Hl IH]; intros carry ds c Hc E.
  { injection E as <- <-. unfold vsize. cbn. repeat split; [done|lia..]. }
  cbn in E. destruct (digits_loop m b _ l) as [ds' c'] eqn:E'. injection E as <- <-.
  unfold digit in Hd. assert (Hn : 0 <= carry + m * d) by nia.
  rewrite Z.quot_div_nonneg in E' by lia.
  destruct (IH _ _ _ (Z.div_pos _ _ Hn Hb) E') as (Hds & Hlen & Hc' & Hv).
  rewrite Z.rem_mod_nonneg by lia. split_and!; [|cbn; congruence|done|].
  - constructor; [by apply Z.mod_pos_bound|done].
  - unfold vsize in *. cbn [digits_value length]. rewrite Nat2Z.inj_succ, Z.pow_succ_r by lia.
    pose proof (Z.div_mod (carry + m * d) b ltac:(lia)). nia.
Qed.

(** Enough room: nothing is carried out. *)
Lemma digits_loop_fits m b carry l ds c :
  0 <= m -> 1 < b -> Forall (digit b) l -> 0 <= carry -> digits_loop m b carry l = (ds, c) ->
  carry + m * digits_value b l < b ^ vsize l ->
  c = 0 /\ Forall (digit b) ds /\ length ds = length l /\ digits_value b ds = carry + m * digits_value b l.
Proof.
  intros Hm Hb Hl Hc E Hroom.
  destruct (digits_loop_spec m b carry l ds c) as (Hds & Hlen & Hc' & Hv); try done; [lia|].
  pose proof (digits_value_bound b ds ltac:(lia) Hds). unfold vsize in *. rewrite Hlen in *.
  assert (0 < b ^ Z.of_nat (length l)) by lia. assert (c = 0) by nia. subst c. split_and!; try done. lia.
Qed.

Lemma digits_value_zeros b n : digits_value b (replicate n 0) = 0.
Proof. induction n as [|n IH]; [done|]. cbn. rewrite IH. lia. Qed.

Lemma digits_zeros b n : 0 < b -> Forall (digit b) (replicate n 0).
Proof. intros. apply Forall_replicate. unfold digit. lia. Qed.

Lemma digits_value_snoc_zeros b l n : digits_value b (l ++ replicate n 0) = digits_value b l.
Proof. induction l as [|d l IH]; cbn; [apply digits_value_zeros|]. by rewrite IH. Qed.

Lemma digits_value_snoc b l d : digits_value b (l ++ [d]) = digits_value b l + b ^ vsize l * d.
Proof.
  induction l as [|x l IH]; unfold vsize in *; cbn [app digits_value length]; [cbn; lia|].
  rewrite IH, Nat2Z.inj_succ, Z.pow_succ_r by lia. lia.
Qed.

(** a number has one representation of a given length *)
Lemma digits_inj b l1 l2 :
  1 < b -> Forall (digit b) l1 -> Forall (digit b) l2 -> length l1 = length l2 ->
  digits_value b l1 = digits_value b l2 -> l1 = l2.
Proof.
  intros Hb Hl1. revert l2. induction Hl1 as [|d l1 Hd Hl1 IH]; intros l2 Hl2 Hlen E; [by destruct l2|].
  destruct Hl2 as [|e l2 He Hl2]; [done|]. cbn in E, Hlen. unfold digit in Hd, He.
  assert (digits_value b l1 = digits_value b l2) as E'
    by (apply (Z.div_mod_unique b _ _ d e); lia).
  assert (d = e) as -> by lia.
  f_equal. apply IH; [done|congruence|done].
Qed.

