(* ===== verification/Forks.v ===== *)
(** * Forks, community fund and block subsidy

    The consensus rules that depend on the height: [zen/forkmanager.cpp] with the
    classes of [zen/forks/], and the subsidy of [main.cpp].  A fork class is a
    constructor of [Fork]; a virtual function is a function of the fork, in which
    a class that does not override it shares the branch of its parent. *)

From stdpp Require Import base numbers list strings option sets.
From Stdlib Require Import ZArith Lia Sorting.Sorted.
From S2P Require Import Prelude.
From S2P Require Import Amount.
From S2P Require Import Serialize.
From S2P Require Import ScTypes.
From S2P Require Import Primitives.
Open Scope Z_scope.
Open Scope zen_scope.

Inductive Network := MAIN | TESTNET | REGTEST.

#[export] Instance Network_eq_dec : EqDecision Network.
Proof. solve_decision. Defined.

Inductive Fork :=
| OriginalFork | ChainsplitFork | ReplayProtectionFork | CommunityFundAndRPFixFork | NullTransactionFork
| ShieldFork | TimeBlockFork | ReplayProtectionFixFork | SidechainFork | SidechainVersionFork.

#[export] Instance Fork_eq_dec : EqDecision Fork.
Proof. solve_decision. Defined.

Inductive CommunityFundType := FOUNDATION | SECURENODE | SUPERNODE.

#[export] Instance CommunityFundType_eq_dec : EqDecision CommunityFundType.
Proof. solve_decision. Defined.

Inductive ReplayProtectionLevel := RPLEVEL_NONE | RPLEVEL_BASIC | RPLEVEL_FIXED_1 | RPLEVEL_FIXED_2.

#[export] Instance ReplayProtectionLevel_eq_dec : EqDecision ReplayProtectionLevel.
Proof. solve_decision. Defined.

Inductive txnouttype :=
| TX_NONSTANDARD | TX_PUBKEY | TX_PUBKEYHASH | TX_SCRIPTHASH | TX_SCRIPTHASH_REPLAY | TX_MULTISIG
| TX_NULL_DATA | TX_PUBKEY_REPLAY | TX_PUBKEYHASH_REPLAY | TX_MULTISIG_REPLAY | TX_NULL_DATA_REPLAY.

(** ** Parameters of the networks that the rules read *)
Record ConsensusParams := mkConsensus {
  fCoinbaseMustBeProtected : bool;
  nSubsidySlowStartInterval : Z;
  nSubsidyHalvingInterval : Z }.

Definition GetConsensus (net : Network) : ConsensusParams :=
  match net with
  | MAIN | TESTNET => mkConsensus true 2 840000
  | REGTEST => mkConsensus false 0 2000
  end.

Definition SubsidySlowStartShift (p : ConsensusParams) : Z := Z.quot (nSubsidySlowStartInterval p) 2.

Definition deprecatedGetLastCommunityRewardBlockHeight (p : ConsensusParams) : Z :=
  nSubsidyHalvingInterval p + SubsidySlowStartShift p - 1.

(** ** The forks *)
Definition OriginalFork_heights (net : Network) : Z :=
  match net with MAIN => 0 | REGTEST => 0 | TESTNET => 0 end.

Definition ChainsplitFork_heights (net : Network) : Z :=
  match net with MAIN => 110001 | REGTEST => 1 | TESTNET => 70001 end.

Definition ReplayProtectionFork_heights (net : Network) : Z :=
  match net with MAIN => 117576 | REGTEST => 100 | TESTNET => 72650 end.

Definition CommunityFundAndRPFixFork_heights (net : Network) : Z :=
  match net with MAIN => 139200 | REGTEST => 101 | TESTNET => 85500 end.

Definition NullTransactionFork_heights (net : Network) : Z :=
  match net with MAIN => 344700 | REGTEST => 105 | TESTNET => 260500 end.

Definition ShieldFork_heights (net : Network) : Z :=
  match net with MAIN => 455555 | REGTEST => 200 | TESTNET => 369900 end.

Definition TimeBlockFork_heights (net : Network) : Z :=
  match net with MAIN => 740600 | REGTEST => 210 | TESTNET => 651100 end.

Definition ReplayProtectionFixFork_heights (net : Network) : Z :=
  match net with MAIN => 835968 | REGTEST => 400 | TESTNET => 735700 end.

Definition SidechainFork_heights (net : Network) : Z :=
  match net with MAIN => 1047624 | REGTEST => 420 | TESTNET => 926225 end.

Definition SidechainVersionFork_heights (net : Network) : Z :=
  match net with MAIN => 1127000 | REGTEST => 450 | TESTNET => 1028900 end.

Definition heightMap (f : Fork) : Network -> Z :=
  match f with
  | OriginalFork => OriginalFork_heights
  | ChainsplitFork => ChainsplitFork_heights
  | ReplayProtectionFork => ReplayProtectionFork_heights
  | CommunityFundAndRPFixFork => CommunityFundAndRPFixFork_heights
  | NullTransactionFork => NullTransactionFork_heights
  | ShieldFork => ShieldFork_heights
  | TimeBlockFork => TimeBlockFork_heights
  | ReplayProtectionFixFork => ReplayProtectionFixFork_heights
  | SidechainFork => SidechainFork_heights
  | SidechainVersionFork => SidechainVersionFork_heights
  end.

Definition getHeight (f : Fork) (net : Network) : Z := heightMap f net.

Definition OriginalFork_minimumTimes (net : Network) : Z := match net with MAIN => 0 | REGTEST => 0 | TESTNET => 0 end.

Definition ChainsplitFork_minimumTimes (net : Network) : Z :=
  match net with MAIN => 1496187000 | REGTEST => 0 | TESTNET => 1494616813 end.

Definition minimumTimeMap (f : Fork) : Network -> Z :=
  match f with OriginalFork => OriginalFork_minimumTimes | _ => ChainsplitFork_minimumTimes end.

(** the addresses of the community fund; a map that no constructor has set is
    [None] *)
Definition chainsplit_addresses (net : Network) : list string :=
  match net with
  | MAIN => [
      "zssEdGnZCQ9G86LZFtbynMn1hYTVhn6eYCL"; "zsrCsXXmUf8k59NLasEKfxA7us3iNvaPATz"; "zsnLPsWMXW2s4w9EmFSwtSLRxL2LhPcfdby";
      "zshdovbcPfUAfkPeEE2qLbKnoue9RsbVokU"; "zsqmq97JAKCCBFRGvxgv6FiJgQLCZBDp62S"; "zskyFVFA7VRYX8EGdXmYN75WaBB25FmiL3g";
      "zsmncLmwEUdVmAGPUrUnNKmPGXyej7mbmdM"; "zsfa9VVJCEdjfPbku4XrFcRR8kTDm2T64rz"; "zsjdMnfWuFi46VeN2HSXVQWEGsnGHgVxayY";
      "zseb8wRQ8rZ722oLX5B8rx7qwZiBRb9mdig"; "zsjxkovhqiMVggoW7jvSRi3NTSD3a6b6qfd"; "zsokCCSU3wvZrS2G6mEDpJ5cH49E7sDyNr1";
      "zt12EsFgkABHLMRXA7JNnpMqLrxsgCLnVEV"; "zt39mvuG9gDTHX8A8Qk45rbk3dSdQoJ8ZAv"; "zssTQZs5YxDGijKC86dvcDxzWogWcK7n5AK";
      "zsywuMoQK7Bved2nrXs56AEtWBhpb88rMzS"; "zsxVS2w7h1fHFX2nQtGm4372pd4DSHzq9ee"; "zsupGi7ro3uC8CEVwm9r7vrdVUZaXQnHF6T";
      "zshVZvW47dA5AB3Sqk1h7ytwWJeUJUJxxaE"; "zsubBCjvDx252MKFsL4Dcf5rJU9Z9Upqr1N"; "zsweaST3NcU4hfgkVULfCsfEq41pjgMDgcW";
      "zswz6Rxb1S33fUpftETZwtGiVSeYxNKq2xc"; "zswnpHtiBbrvYDzbhPQshkgvLSfYhDMRJ4S"; "zsjSYAWaEYj35Ht7aXrRJUGY6Dc8qCmgYqu";
      "zsvMv8fGroWR8epbSiGDCJHmfe6ec2uFQrt"; "zsujxCT56BExQDAwKwktBjtnopYnw8BiKbg"; "zsxeXc2FTAzmUmeZmqVsKVdwTMSvzyns4rT";
      "zsuLqgABNudD8bVPbVGeUjGqapuoXp68i7F"; "zsoc39J1dCFK1U8kckZznvQkv8As7sajYLz"; "zt21NFdu1KRPJ7VRKtrWugM2Jqe5ePNmU4T";
      "zsp15qbVcbx9ifcjKe6XZEJTvzsFUZ2BHLT"; "zso2KvqH6yxLQEYggHdmfL3Tcd5V6E9tqhp"; "zsnFG2W5ZHRYh3QucNze4mp31tBkemtfxdj";
      "zsex2CGJtxHyHbpLXm7kESBmp3vWRqUkJMy"; "zsvtFv96nrgrXKUbtNe2BpCt8aQEp5oJ7F8"; "zsk5KitThmhK9KBa1KDybPgEmGSFTHzhMVA";
      "zsuy4n48c4NsJyaCZEzwdAKULM1FqbB6Y4z"; "zsgtQVMpX2zNMLvHHG2NDwfqKoaebvVectJ"; "zszQqXRSPGdqsWw4iaMTNN6aJz4JjEzSdCF";
      "zst6dBLrTtaMQBX7BLMNjKLTGcP11PBmgTV"; "zshD9r6Eb6dZGdzYW2HCb9CzkMokCT1NGJR"; "zswUaj1TboEGmvSfF7fdoxWyH3RMx7MBHHo";
      "zsv8s4Poi5GxCsbBrRJ97Vsvazp84nrz5AN"; "zsmmxrKU6dqWFwUKow1iyovg3gxrgXpEivr"; "zskh1221aRC9WEfb5a59WxffeW34McmZZsw";
      "zssAhuj57NnVm4yNFT6o8muRctABkUaBu3L"; "zsi5Yr4Z8HwBvdBqQE8gk7ahExDu95J4oqZ"; "zsy6ryEaxfk8emJ8bGVB7tmwRwBL8cfSqBW"]
  | REGTEST => ["zrQWJd1fhtkQtrjbYPXfHFF1c61DUtiXcCD"]
  | TESTNET => [
      "zrH8KT8KUcpKKNBu3fjH4hA84jZBCawErqn"; "zrGsMC4ou1r5Vxy7Dnxg4PfKpansx83BM8g"; "zr6sB2Az36D8CqzeZNavB11WbovsGtJSAZG";
      "zrBAG3pXCTDq14nivNK9mW8SfwMNcdmMQpb"; "zrRLwpYRYky4wsvwLVrDp8fs89EBTRhNMB1"; "zrLozMfptTmE3zLP5SrTLyB8TXqH84Agjrr";
      "zrMckkaLtVTEUvxj4ouU7BPDGa8xmdTZSVE"; "zrFc897wJXmF7BcEdbvi2mS1bLrcuWYK6hm"; "zrHEnni486u9SNcLWacroSgcdyMA33tfM92";
      "zrJ3ymPV3R8Xk4N3BdNb898xvZvARm5K7mq"; "zrDj3P6trx73291krxU51U9QnfkbGxkyJ6E"; "zrJs3vMGFJi9pQCireeSLckJonamBnwTSrY";
      "zrKFdXQoAkkycy52EFoWARyzZWx6Kat2Som"; "zrEXbSe79FXA9KRMnJTZUWZdZhNnjcnAdrq"; "zr7iAwfNgJsMpSCmijK3TuVDuNvSmLr1rUz";
      "zrDEK7K6cftqSjeyVUH1WqJtBUkXN7GidxH"; "zrRennuq75hyBVU4JymtZk8UcQ1vRPKpmpj"; "zr9HRTL79pKmn5R8fvkC9kucZ4u1bQruLTD";
      "zrML8KXpJsa1NVnbJuawX86ZvAn543tWdTT"; "zrLBAkQoxpEtnztSUEcdxnEvuwtgxyAMGX7"; "zr6kPnVzFBYmcBDsWoTrPHRuBxLq21o4zvT";
      "zrMY3vdvqs9KSvx9TawvcyuVurt1Jj6GPVo"; "zr9WB1qBpM4nwi1mudUFfjtMNmqzaBQDsXn"; "zrAHbtHDPAqmzWJMQqSYzGyFnDWN3oELZRs";
      "zrH1f5K3z7EQ6RWWZ7StCDWHTZwFChBVA2W"; "zrNTacAid9LS4kAqzM4sw1YcF7gLFrzVM7U"; "zrFyZpMVKMeDqbn6A2uUiL9mZmgxuR1pUBg";
      "zrD1cqGFGzBcPogFHJvnN4XegvvmbTjA43t"; "zr5A1D7czWkB4pAWfGC5Pux5Ek7anYybdPK"; "zr8yTAxCy6jAdsc6qPvmVEQHbYo25AJKhy9";
      "zrFW2YjQw4cABim5kEDwapbSqTz3wW7cWkk"; "zr9nJvNbsrvUTZD41fhqAQeUcgMfqZmAweN"; "zrCx4dXZd5b2tD483Ds4diHpo1QxBMJ76Jr";
      "zr6eVeRwU6Puob3K1RfWtva1R458oj8pzkL"; "zr7B92iHtQcobZjGCXo3DAqMQjsn7ka31wE"; "zr8bcemLWAjYuphXSVqtqZWEnJipCB9F5oC";
      "zrFzsuPXb7HsFd3srBqtVqnC9GQ94DQubV2"; "zr4yiBobiHjHnCYi75NmYtyoqCV4A3kpHDL"; "zrGVdR4K4F8MfmWxhUiTypK7PTsvHi8uTAh";
      "zr7WiCDqCMvUdH1xmMu8YrBMFb2x2E6BX3z"; "zrEFrGWLX4hPHuHRUD3TPbMAJyeSpMSctUc"; "zr5c3f8PTnW8qBFX1GvK2LhyLBBCb1WDdGG";
      "zrGkAZkZLqC9QKJR3XomgxNizCpNuAupTeg"; "zrM7muDowiun9tCHhu5K9vcDGfUptuYorfZ"; "zrCsWfwKotWnQmFviqAHAPAJ2jXqZYW966P";
      "zrLLB3JB3jozUoMGFEGhjqyVXTpngVQ8c4T"; "zrAEa8YjJ2f3m2VsM1Xa9EwibZxEnRoSLUx"; "zrAdJgp7Cx35xTvB7ABWP8YLTNDArMjP1s3"]
  end.

Definition rpfix_addresses (net : Network) : list string :=
  match net with
  | MAIN => ["zsyF68hcYYNLPj5i4PfQJ1kUY6nsFnZkc82"; "zsfULrmbX7xbhqhAFRffVqCw9RyGv2hqNNG";
             "zsoemTfqjicem2QVU8cgBHquKb1o9JR5p4Z"; "zt339oiGL6tTgc9Q71f5g1sFTZf6QiXrRUr"]
  | REGTEST => ["zrQWJd1fhtkQtrjbYPXfHFF1c61DUtiXcCD"]
  | TESTNET => ["zrRBQ5heytPMN5nY3ssPf3cG4jocXeD8fm1"]
  end.

Definition nulltx_addresses (cfType : CommunityFundType) (net : Network) : list string :=
  match cfType, net with
  | FOUNDATION, MAIN => ["zszpcLB6C5B8QvfDbF2dYWXsrpac5DL9WRk"]
  | FOUNDATION, REGTEST => ["zrQWJd1fhtkQtrjbYPXfHFF1c61DUtiXcCD"]
  | FOUNDATION, TESTNET => ["zrFzxutppvxEdjyu4QNjogBMjtC1py9Hp1S"]
  | SECURENODE, MAIN => ["zsxWnyDbU8pk2Vp98Uvkx5Nh33RFzqnCpWN"]
  | SECURENODE, REGTEST => ["zrQG6x9j33DLbCfzAqu3qKMe7z1VDL1z2L7"]
  | SECURENODE, TESTNET => ["zrS7QUB2eDbbKvyP43VJys3t7RpojW8GdxH"]
  | SUPERNODE, MAIN => ["zsnL6pKdzvZ1BPVzALUoqw2KsY966XFs5CE"]
  | SUPERNODE, REGTEST => ["zrMasbhB1yyfQ5RBUm7NPcEjGWZdRneWCEx"]
  | SUPERNODE, TESTNET => ["zrFr5HVm7woVq3oFzkMEdJdbfBchfPAPDsP"]
  end.

Definition scversion_addresses (cfType : CommunityFundType) (net : Network) : list string :=
  match cfType, net with
  | FOUNDATION, MAIN => ["zshX5BAgUvNgM1VoBVKZyFVVozTDjjJvRxJ"]
  | FOUNDATION, REGTEST => ["zrLaR63UYCHVvo5BJHoMUTuZFPmcUu866wB"]
  | FOUNDATION, TESTNET => ["zrFwQjR613EuvLSufoNvUzZrfKvjSQx5a23"]
  | SECURENODE, MAIN => ["zsx68qSKMNoc1ZPQpGwNFZXVzgf27KN6a9u"]
  | SECURENODE, REGTEST => ["zrPaU1KWpNrg5fcLsSk17z7cc71FvnVnXxi"]
  | SECURENODE, TESTNET => ["zrQM7AZ1qpm9TPzLc2YinGhWePt7vaHz4Rg"]
  | SUPERNODE, MAIN => ["zszMgcogAqz49sLHGV22YCDFSvwzwkfog4k"]
  | SUPERNODE, REGTEST => ["zrMna8FbuTyrvFikAsmQMyAfufF3WoGksFu"]
  | SUPERNODE, TESTNET => ["zrSRNSqeBNEtXqn8NkAgJ9gwhLTJmXjKqoX"]
  end.

Definition getCommunityFundAddresses (f : Fork) (net : Network) (cfType : CommunityFundType)
  : res (list string) :=
  match f, cfType with
  | OriginalFork, _ => Err (Exception "map::at")
  | ChainsplitFork, FOUNDATION | ReplayProtectionFork, FOUNDATION => Ok (chainsplit_addresses net)
  | CommunityFundAndRPFixFork, FOUNDATION => Ok (rpfix_addresses net)
  | ChainsplitFork, _ | ReplayProtectionFork, _ | CommunityFundAndRPFixFork, _ => Err (Exception "map::at")
  | SidechainVersionFork, _ => Ok (scversion_addresses cfType net)
  | _, _ => Ok (nulltx_addresses cfType net)
  end.

Definition addressChangeIntervals (net : Network) : Z :=
  match net with MAIN => 50000 | REGTEST => 100 | TESTNET => 10000 end.

(** [addresses[i]], with an index of type [size_t] *)
Definition address_at (l : list string) (i : Z) : res string :=
  match l !! Z.to_nat i with Some a => Ok a | None => Err (Exception "index out of range") end.

Definition OriginalFork_getCommunityFundAddress : res string := Ok EmptyString.

Definition ChainsplitFork_getCommunityFundAddress (f : Fork) (net : Network) (height maxHeight : Z)
    (cfType : CommunityFundType) : res string :=
  if negb (bool_decide (cfType = FOUNDATION)) then Ok EmptyString
  else if negb ((0 <? height) && (height <=? maxHeight)) then Err AssertFailed
  else
    res_bind (getCommunityFundAddresses f net cfType) (fun l =>
    let addressChangeInterval := Z.quot (to_u64 maxHeight + vsize l) (vsize l) in
    address_at l (Z.quot height addressChangeInterval)).

Definition NullTransactionFork_getCommunityFundAddress (f : Fork) (net : Network) (height : Z)
    (cfType : CommunityFundType) : res string :=
  res_bind (getCommunityFundAddresses f net cfType) (fun l =>
  address_at l (Z.rem (to_u64 (Z.quot (height - getHeight f net) (addressChangeIntervals net))) (vsize l))).

Definition CommunityFundAndRPFixFork_getCommunityFundAddress (f : Fork) (net : Network) (height : Z)
    (cfType : CommunityFundType) : res string :=
  if negb (bool_decide (cfType = FOUNDATION)) then Ok EmptyString
  else
    res_bind (getCommunityFundAddresses f net cfType) (fun l =>
    address_at l (Z.rem (to_u64 (Z.quot (height - getHeight f net) (addressChangeIntervals net))) (vsize l))).

Definition getCommunityFundAddress_of (f : Fork) (net : Network) (height maxHeight : Z)
    (cfType : CommunityFundType) : res string :=
  match f with
  | OriginalFork => OriginalFork_getCommunityFundAddress
  | ChainsplitFork | ReplayProtectionFork => ChainsplitFork_getCommunityFundAddress f net height maxHeight cfType
  | CommunityFundAndRPFixFork => CommunityFundAndRPFixFork_getCommunityFundAddress f net height cfType
  | _ => NullTransactionFork_getCommunityFundAddress f net height cfType
  end.

Definition OriginalFork_getCommunityFundReward : CAmount := 0.

Definition ChainsplitFork_getCommunityFundReward (amount : CAmount) (cfType : CommunityFundType) : CAmount :=
  if negb (bool_decide (cfType = FOUNDATION)) then 0 else Z.quot (amount * 85) 1000.

Definition CommunityFundAndRPFixFork_getCommunityFundReward (amount : CAmount) (cfType : CommunityFundType) : CAmount :=
  if negb (bool_decide (cfType = FOUNDATION)) then 0 else Z.quot (amount * 120) 1000.

Definition NullTransactionFork_getCommunityFundReward (amount : CAmount) (cfType : CommunityFundType) : CAmount :=
  match cfType with
  | FOUNDATION => Z.quot (amount * 100) 1000
  | SECURENODE => Z.quot (amount * 100) 1000
  | SUPERNODE => Z.quot (amount * 100) 1000
  end.

Definition ShieldFork_getCommunityFundReward (amount : CAmount) (cfType : CommunityFundType) : CAmount :=
  match cfType with
  | FOUNDATION => Z.quot (amount * 200) 1000
  | SECURENODE => Z.quot (amount * 100) 1000
  | SUPERNODE => Z.quot (amount * 100) 1000
  end.

Definition getCommunityFundReward_of (f : Fork) (amount : CAmount) (cfType : CommunityFundType) : CAmount :=
  match f with
  | OriginalFork => OriginalFork_getCommunityFundReward
  | ChainsplitFork | ReplayProtectionFork => ChainsplitFork_getCommunityFundReward amount cfType
  | CommunityFundAndRPFixFork => CommunityFundAndRPFixFork_getCommunityFundReward amount cfType
  | NullTransactionFork => NullTransactionFork_getCommunityFundReward amount cfType
  | _ => ShieldFork_getCommunityFundReward amount cfType
  end.

Definition canSendCommunityFundsToTransparentAddress_of (f : Fork) : bool :=
  match f with
  | OriginalFork | ChainsplitFork | ReplayProtectionFork => false
  | _ => true
  end.

Definition getReplayProtectionLevel_of (f : Fork) : ReplayProtectionLevel :=
  match f with
  | OriginalFork | ChainsplitFork => RPLEVEL_NONE
  | ReplayProtectionFork => RPLEVEL_BASIC
  | CommunityFundAndRPFixFork | NullTransactionFork | ShieldFork | TimeBlockFork => RPLEVEL_FIXED_1
  | ReplayProtectionFixFork | SidechainFork | SidechainVersionFork => RPLEVEL_FIXED_2
  end.

Definition isAfterChainsplit_of (f : Fork) : bool := negb (bool_decide (f = OriginalFork)).

Definition OriginalFork_isTransactionTypeAllowed (t : txnouttype) : bool :=
  match t with
  | TX_NONSTANDARD | TX_PUBKEY | TX_PUBKEYHASH | TX_SCRIPTHASH | TX_MULTISIG | TX_NULL_DATA
  | TX_PUBKEYHASH_REPLAY => true
  | _ => false
  end.

Definition ChainsplitFork_isTransactionTypeAllowed (t : txnouttype) : bool :=
  match t with
  | TX_NONSTANDARD | TX_PUBKEY_REPLAY | TX_PUBKEYHASH_REPLAY | TX_MULTISIG_REPLAY | TX_PUBKEYHASH => true
  | _ => false
  end.

Definition ReplayProtectionFork_isTransactionTypeAllowed (t : txnouttype) : bool :=
  match t with
  | TX_NONSTANDARD | TX_PUBKEY_REPLAY | TX_PUBKEYHASH_REPLAY | TX_MULTISIG_REPLAY => true
  | _ => false
  end.

Definition CommunityFundAndRPFixFork_isTransactionTypeAllowed (t : txnouttype) : bool :=
  match t with TX_SCRIPTHASH_REPLAY => true | _ => ReplayProtectionFork_isTransactionTypeAllowed t end.

Definition NullTransactionFork_isTransactionTypeAllowed (t : txnouttype) : bool :=
  match t with TX_NULL_DATA_REPLAY => true | _ => CommunityFundAndRPFixFork_isTransactionTypeAllowed t end.

Definition isTransactionTypeAllowed_of (f : Fork) (t : txnouttype) : bool :=
  match f with
  | OriginalFork => OriginalFork_isTransactionTypeAllowed t
  | ChainsplitFork => ChainsplitFork_isTransactionTypeAllowed t
  | ReplayProtectionFork => ReplayProtectionFork_isTransactionTypeAllowed t
  | CommunityFundAndRPFixFork => CommunityFundAndRPFixFork_isTransactionTypeAllowed t
  | _ => NullTransactionFork_isTransactionTypeAllowed t
  end.

Definition getShieldedTxVersion_of (f : Fork) : Z :=
  match f with
  | OriginalFork | ChainsplitFork | ReplayProtectionFork | CommunityFundAndRPFixFork | NullTransactionFork => 2
  | _ => GROTH_TX_VERSION
  end.

Definition areSidechainsSupported_of (f : Fork) : bool :=
  match f with SidechainFork | SidechainVersionFork => true | _ => false end.

Definition getSidechainTxVersion_of (f : Fork) : Z :=
  match f with SidechainFork | SidechainVersionFork => SC_TX_VERSION | _ => 0 end.

Definition getCertificateVersion_of (f : Fork) : Z :=
  match f with SidechainFork | SidechainVersionFork => SC_CERT_VERSION | _ => 0 end.

Definition BLOCK_VERSION_BEFORE_SC : Z := 0x20000000.

Definition BLOCK_VERSION_ORIGINAL : Z := 0x4.

Definition BLOCK_VERSION_SC_SUPPORT : Z := 0x3.

Definition getNewBlockVersion_of (f : Fork) : Z :=
  match f with
  | OriginalFork | ChainsplitFork | ReplayProtectionFork | CommunityFundAndRPFixFork | NullTransactionFork =>
      BLOCK_VERSION_ORIGINAL
  | ShieldFork | TimeBlockFork | ReplayProtectionFixFork => BLOCK_VERSION_BEFORE_SC
  | SidechainFork | SidechainVersionFork => BLOCK_VERSION_SC_SUPPORT
  end.

Definition isValidBlockVersion_of (f : Fork) (nVersion : Z) : bool :=
  match f with
  | SidechainFork | SidechainVersionFork => nVersion =? BLOCK_VERSION_SC_SUPPORT
  | _ => BLOCK_VERSION_ORIGINAL <=? nVersion
  end.

Definition isFutureMiningTimeStampActive_of (f : Fork) : bool :=
  match f with
  | TimeBlockFork | ReplayProtectionFixFork | SidechainFork | SidechainVersionFork => true
  | _ => false
  end.

Definition TIMEBLOCK_ACTIVATION : Z := 576.

Definition isFutureTimeStampActive_of (f : Fork) (height : Z) (net : Network) : bool :=
  match f with
  | TimeBlockFork | ReplayProtectionFixFork | SidechainFork | SidechainVersionFork =>
      let activationHeight := getHeight f net in
      let activationHeight :=
        if negb (bool_decide (net = REGTEST)) then activationHeight + TIMEBLOCK_ACTIVATION
        else activationHeight in
      activationHeight <=? height
  | _ => false
  end.

Definition getMaxSidechainVersion_of (f : Fork) : Z :=
  match f with SidechainVersionFork => 1 | _ => 0 end.

(** ** The fork manager *)

(** [std::list::sort], which is stable: an element goes after those that are not
    greater *)
Fixpoint sort_insert (x : Fork) (l : list Fork) : list Fork :=
  match l with
  | [] => [x]
  | y :: l' => if getHeight x MAIN <? getHeight y MAIN then x :: l else y :: sort_insert x l'
  end.

Definition registerFork (l : list Fork) (f : Fork) : list Fork :=
  foldl (fun acc x => sort_insert x acc) [] (l ++ [f]).

Definition forks : list Fork :=
  foldl registerFork []
    [OriginalFork; ChainsplitFork; ReplayProtectionFork; CommunityFundAndRPFixFork; NullTransactionFork;
     ShieldFork; TimeBlockFork; ReplayProtectionFixFork; SidechainFork; SidechainVersionFork].

(** the loop of [getForkAtHeight], with [lastIterator] *)
Fixpoint last_fork (net : Network) (height : Z) (last : Fork) (l : list Fork) : Fork :=
  match l with
  | [] => last
  | f :: l' => if height <? getHeight f net then last else last_fork net height f l'
  end.

Definition getForkAtHeight (net : Network) (height : Z) : Fork :=
  match forks with
  | [] => OriginalFork
  | f :: _ => last_fork net height f forks
  end.

Section Manager.
  Context (net : Network).

Definition getCommunityFundAddress (height maxHeight : Z) (cfType : CommunityFundType) : res string :=
  getCommunityFundAddress_of (getForkAtHeight net height) net height maxHeight cfType.

Definition getMinimumTime (height : Z) : Z := minimumTimeMap (getForkAtHeight net height) net.

Definition getCommunityFundReward (height : Z) (reward : CAmount) (cfType : CommunityFundType) : CAmount :=
  getCommunityFundReward_of (getForkAtHeight net height) reward cfType.

Definition getReplayProtectionLevel (height : Z) : ReplayProtectionLevel :=
  getReplayProtectionLevel_of (getForkAtHeight net height).

Definition canSendCommunityFundsToTransparentAddress (height : Z) : bool :=
  canSendCommunityFundsToTransparentAddress_of (getForkAtHeight net height).

Definition isAfterChainsplit (height : Z) : bool := isAfterChainsplit_of (getForkAtHeight net height).

Definition isTransactionTypeAllowedAtHeight (height : Z) (t : txnouttype) : bool :=
  isTransactionTypeAllowed_of (getForkAtHeight net height) t.

Definition getShieldedTxVersion (height : Z) : Z := getShieldedTxVersion_of (getForkAtHeight net height).

Definition getSidechainTxVersion (height : Z) : Z := getSidechainTxVersion_of (getForkAtHeight net height).

Definition getCertificateVersion (height : Z) : Z := getCertificateVersion_of (getForkAtHeight net height).

Definition areSidechainsSupported (height : Z) : bool := areSidechainsSupported_of (getForkAtHeight net height).

Definition getNewBlockVersion (height : Z) : Z := getNewBlockVersion_of (getForkAtHeight net height).

Definition isValidBlockVersion (height nVersion : Z) : bool :=
  isValidBlockVersion_of (getForkAtHeight net height) nVersion.

Definition isFutureMiningTimeStampActive (height : Z) : bool :=
  isFutureMiningTimeStampActive_of (getForkAtHeight net height).

Definition isFutureTimeStampActive (height : Z) : bool :=
  isFutureTimeStampActive_of (getForkAtHeight net height) height net.

Definition getMaxSidechainVersion (height : Z) : Z := getMaxSidechainVersion_of (getForkAtHeight net height).

Definition GetCommunityFundAddressAtHeight (nHeight : Z) (cfType : CommunityFundType) : res string :=
  getCommunityFundAddress nHeight (deprecatedGetLastCommunityRewardBlockHeight (GetConsensus net)) cfType.
End Manager.

(** ** The subsidy *)
Definition GetBlockSubsidy (nHeight : Z) (p : ConsensusParams) : res CAmount :=
  let nSubsidy := 1250000000 in
  if nHeight =? 0 then Ok 0
  else if nHeight <? Z.quot (nSubsidySlowStartInterval p) 2 then
    Ok (Z.quot nSubsidy (nSubsidySlowStartInterval p) * nHeight)
  else if nHeight <? nSubsidySlowStartInterval p then
    Ok (Z.quot nSubsidy (nSubsidySlowStartInterval p) * (nHeight + 1))
  else if negb (SubsidySlowStartShift p <? nHeight) then Err AssertFailed
  else
    let halvings := Z.quot (nHeight - SubsidySlowStartShift p) (nSubsidyHalvingInterval p) in
    if 64 <=? halvings then Ok 0 else Ok (Z.shiftr nSubsidy halvings).

(** what the blocks up to the [n]-th issue *)
Fixpoint issued (n : nat) (p : ConsensusParams) : res Z :=
  match n with
  | O => Ok 0
  | S n' => res_bind (issued n' p) (fun s => res_bind (GetBlockSubsidy (Z.of_nat n) p) (fun b => Ok (s + b)))
  end.

(** ** Which fork is active *)
Lemma forks_eq : forks =
  [OriginalFork; ChainsplitFork; ReplayProtectionFork; CommunityFundAndRPFixFork; NullTransactionFork;
   ShieldFork; TimeBlockFork; ReplayProtectionFixFork; SidechainFork; SidechainVersionFork].
Proof. reflexivity. Qed.

(** In a list with increasing heights the loop stops at the right element. *)
Lemma last_fork_spec net h f l :
  getHeight f net <= h -> StronglySorted (fun a b => getHeight a net < getHeight b net) (f :: l) ->
  let r := last_fork net h f l in
  r ∈ f :: l /\ getHeight r net <= h
  /\ forall g, g ∈ f :: l -> getHeight g net <= h -> getHeight g net <= getHeight r net.
Proof.
  revert f. induction l as [|x l IH]; intros f Hf Hs; cbn [last_fork].
  { split; [by left|]. split; [done|]. intros g Hg%list_elem_of_singleton. by subst. }
  apply StronglySorted_inv in Hs as [Hs Hall]. pose proof (StronglySorted_inv Hs) as [_ Hx].
  apply list.Forall_cons in Hall as [Hfx Hall]. destruct (Z.ltb_spec h (getHeight x net)) as [Hlt|Hge].
  - split; [by left|]. split; [done|]. intros g Hg Hh. apply elem_of_cons in Hg as [->|Hg]; [done|].
    apply elem_of_cons in Hg as [->|Hg]; [lia|]. rewrite list.Forall_forall in Hx. specialize (Hx g Hg). lia.
  - destruct (IH x Hge Hs) as (Hin & Hle & Hmax). split; [by right|]. split; [done|].
    intros g Hg Hh. apply elem_of_cons in Hg as [->|Hg]; [|by apply Hmax].
    etransitivity; [|apply (Hmax x); [by left|done]]. lia.
Qed.

Lemma forks_sorted net : StronglySorted (fun a b => getHeight a net < getHeight b net) forks.
Proof. rewrite forks_eq. destruct net; repeat constructor. Qed.

(** Heights are different, so that a fork is known by its height. *)
Lemma height_inj net f g : getHeight f net = getHeight g net -> f = g.
Proof. destruct net, f, g; cbn; (done || lia). Qed.

Lemma active_fork net h : 0 <= h ->
  let f := getForkAtHeight net h in
  f ∈ forks /\ getHeight f net <= h /\ forall g, g ∈ forks -> getHeight g net <= h -> getHeight g net <= getHeight f net.
Proof.
  intros Hh. pose proof (forks_sorted net) as Hs. unfold getForkAtHeight. rewrite forks_eq in *.
  assert (Hstep : forall l, last_fork net h OriginalFork (OriginalFork :: l) = last_fork net h OriginalFork l).
  { intros l. cbn [last_fork]. destruct (Z.ltb_spec h (getHeight OriginalFork net)) as [Hlt|]; [|done].
    destruct net; cbn in Hlt; lia. }
  rewrite Hstep. apply last_fork_spec; [by destruct net|done].
Qed.

(** The active fork.  Although the forks are sorted by their heights on the
    main network only, on each network [getForkAtHeight] gives the registered
    fork with the highest activation height that has been reached. *)
Theorem fork_at_height_exact (net : Network) (height : Z) :
  0 <= height ->
  let f := getForkAtHeight net height in
  f ∈ forks /\ getHeight f net <= height
  /\ forall g, g ∈ forks -> getHeight g net <= height -> g = f \/ getHeight g net < getHeight f net.
Proof.
  intros Hh. destruct (active_fork net height Hh) as (Hin & Hle & Hmax).
  split; [done|]. split; [done|]. intros g Hg Hgh. specialize (Hmax g Hg Hgh).
  apply Z.lt_eq_cases in Hmax as [|Heq]; [by right|]. left. by eapply height_inj.
Qed.

Lemma fork_at_height_exact_witness :
  getHeight (getForkAtHeight TESTNET 80000) TESTNET <= 80000.
Proof. by destruct (fork_at_height_exact TESTNET 80000 ltac:(lia)) as (_ & ? & _). Defined.

(** The forks that are not active yet. *)
Lemma fork_bounds net h g : 0 <= h ->
  getHeight (getForkAtHeight net h) net < getHeight g net -> h < getHeight g net.
Proof.
  intros Hh Hg. destruct (active_fork net h Hh) as (_ & _ & Hmax).
  destruct (Z.ltb_spec h (getHeight g net)) as [|Hge]; [done|].
  assert (Hin : g ∈ forks) by (apply (bool_decide_unpack _); by destruct g).
  specialize (Hmax g Hin Hge). lia.
Qed.

Definition level (r : ReplayProtectionLevel) : Z :=
  match r with RPLEVEL_NONE => 0 | RPLEVEL_BASIC => 1 | RPLEVEL_FIXED_1 => 2 | RPLEVEL_FIXED_2 => 3 end.

Definition rank (f : Fork) : Z :=
  match f with
  | OriginalFork => 0 | ChainsplitFork => 1 | ReplayProtectionFork => 2 | CommunityFundAndRPFixFork => 3
  | NullTransactionFork => 4 | ShieldFork => 5 | TimeBlockFork => 6 | ReplayProtectionFixFork => 7
  | SidechainFork => 8 | SidechainVersionFork => 9
  end.

Lemma rank_height net f g : rank f < rank g <-> getHeight f net < getHeight g net.
Proof. destruct net, f, g; cbn; lia. Qed.

Lemma fork_mono net h h' : 0 <= h <= h' -> rank (getForkAtHeight net h) <= rank (getForkAtHeight net h').
Proof.
  intros Hh. destruct (active_fork net h ltac:(lia)) as (_ & H1 & _).
  apply Z.nlt_ge. intros Hr%(rank_height net). apply fork_bounds in Hr; lia.
Qed.

(** Rules only get stricter.  As the height grows, the replay protection level
    never decreases, sidechains once supported stay supported, and where they are
    supported the only valid block version is the one new blocks are given, which
    was not valid before. *)
Theorem forks_monotone (net : Network) (h h' v : Z) :
  0 <= h <= h' ->
  level (getReplayProtectionLevel net h) <= level (getReplayProtectionLevel net h')
  /\ (areSidechainsSupported net h = true -> areSidechainsSupported net h' = true)
  /\ getMaxSidechainVersion net h <= getMaxSidechainVersion net h'
  /\ isValidBlockVersion net h (getNewBlockVersion net h) = true
  /\ (areSidechainsSupported net h = true ->
       isValidBlockVersion net h v = true <-> v = getNewBlockVersion net h)
  /\ (areSidechainsSupported net h = false -> isValidBlockVersion net h BLOCK_VERSION_SC_SUPPORT = false).
Proof.
  intros Hh. pose proof (fork_mono net h h' Hh) as Hr.
  unfold getReplayProtectionLevel, areSidechainsSupported, getMaxSidechainVersion, isValidBlockVersion, getNewBlockVersion.
  destruct (getForkAtHeight net h) eqn:E, (getForkAtHeight net h'); cbn in Hr |- *; try lia;
    (split_and!; try done; try lia; intros; by rewrite Z.eqb_eq).
Qed.

Lemma forks_monotone_witness :
  0 <= 430 <= 500 /\ areSidechainsSupported REGTEST 430 = true /\ areSidechainsSupported REGTEST 500 = true.
Proof.
  split; [lia|]. split; [reflexivity|].
  destruct (forks_monotone REGTEST 430 500 3 ltac:(lia)) as (_ & Hs & _). by apply Hs.
Defined.

(** The rule on future time stamps, which [TimeBlockFork] brings some blocks after its own height,
    is computed from the height of the active fork: each later fork switches it off for
    as many blocks. *)
Example future_timestamp_gap :
  isFutureTimeStampActive MAIN (getHeight ReplayProtectionFixFork MAIN - 1) = true
  /\ isFutureTimeStampActive MAIN (getHeight ReplayProtectionFixFork MAIN) = false
  /\ isFutureTimeStampActive MAIN (getHeight ReplayProtectionFixFork MAIN + TIMEBLOCK_ACTIVATION) = true.
Proof. repeat split. Qed.

(** ** The community fund *)
Lemma address_at_ok l i : 0 <= i < vsize l -> exists a, address_at l i = Ok a /\ a ∈ l.
Proof.
  intros Hi. unfold address_at, vsize in *. destruct (l !! Z.to_nat i) as [a|] eqn:E.
  - exists a. split; [done|]. by eapply list_elem_of_lookup_2.
  - apply lookup_ge_None in E. lia.
Qed.

(** the round robin over the addresses *)
Lemma round_robin_ok l x : l <> [] -> exists a, address_at l (Z.rem (to_u64 x) (vsize l)) = Ok a /\ a ∈ l.
Proof.
  intros Hl. apply address_at_ok. assert (0 < vsize l) by (unfold vsize; destruct l; [done|cbn; lia]).
  unfold to_u64. pose proof (Z.mod_pos_bound x (2 ^ 64) ltac:(lia)). pose proof (Z.rem_bound_pos (x mod 2 ^ 64) (vsize l)). lia.
Qed.

Lemma chainsplit_index net h :
  0 < h <= deprecatedGetLastCommunityRewardBlockHeight (GetConsensus net) ->
  let l := chainsplit_addresses net in
  0 <= Z.quot h (Z.quot (to_u64 (deprecatedGetLastCommunityRewardBlockHeight (GetConsensus net)) + vsize l) (vsize l)) < vsize l.
Proof.
  intros Hh l. set (i := Z.quot (to_u64 _ + _) _).
  assert (Hi : 0 < i /\ deprecatedGetLastCommunityRewardBlockHeight (GetConsensus net) < i * vsize l)
    by (destruct net; vm_compute; split; reflexivity).
  rewrite Z.quot_div_nonneg by lia. split; [apply Z.div_pos; lia|]. apply Z.div_lt_upper_bound; lia.
Qed.

(** Whenever a part of the reward is due to the community fund at a height, an
    address to pay it to is found: neither the assertion on the height nor the
    access to the table of addresses fails, at any height of any network. *)
Lemma community_address_found (net : Network) (height : Z) (reward : CAmount) (cfType : CommunityFundType) :
  0 < height -> getCommunityFundReward net height reward cfType <> 0 ->
  exists l a, getCommunityFundAddresses (getForkAtHeight net height) net cfType = Ok l
    /\ GetCommunityFundAddressAtHeight net height cfType = Ok a /\ a ∈ l.
Proof.
  intros Hh Hr. unfold GetCommunityFundAddressAtHeight, getCommunityFundAddress, getCommunityFundReward in *.
  assert (Hlast : getHeight (getForkAtHeight net height) net < getHeight CommunityFundAndRPFixFork net ->
    height <= deprecatedGetLastCommunityRewardBlockHeight (GetConsensus net)).
  { intros Hf%fork_bounds; [|lia].
    assert (getHeight CommunityFundAndRPFixFork net <= deprecatedGetLastCommunityRewardBlockHeight (GetConsensus net))
      by (destruct net; vm_compute; discriminate). lia. }
  set (f := getForkAtHeight net height) in *. clearbody f.
  assert (Hsplit : getHeight f net < getHeight CommunityFundAndRPFixFork net -> cfType = FOUNDATION ->
    exists a, address_at (chainsplit_addresses net) (Z.quot height
      (Z.quot (to_u64 (deprecatedGetLastCommunityRewardBlockHeight (GetConsensus net)) + vsize (chainsplit_addresses net))
        (vsize (chainsplit_addresses net)))) = Ok a /\ a ∈ chainsplit_addresses net
    /\ (0 <? height) && (height <=? deprecatedGetLastCommunityRewardBlockHeight (GetConsensus net)) = true).
  { intros Hf%Hlast _. destruct (address_at_ok _ _ (chainsplit_index net height ltac:(lia))) as (a & Ha & Hin).
    exists a. split_and!; try done. rewrite andb_true_iff, Z.ltb_lt, Z.leb_le. lia. }
  assert (Hrobin : forall l, l <> [] -> exists a, address_at l (Z.rem (to_u64 (Z.quot (height - getHeight f net)
    (addressChangeIntervals net))) (vsize l)) = Ok a /\ a ∈ l) by (intros; by apply round_robin_ok).
  destruct f; try done; cbn [getCommunityFundAddress_of getCommunityFundReward_of] in *;
    unfold ChainsplitFork_getCommunityFundAddress, CommunityFundAndRPFixFork_getCommunityFundAddress,
      NullTransactionFork_getCommunityFundAddress; cbn [getCommunityFundAddresses res_bind];
    try (eexists; by destruct (Hrobin (nulltx_addresses cfType net) ltac:(by destruct cfType, net)) as (a & Ha & Hin); exists a).
  - destruct cfType; try done. destruct Hsplit as (a & Ha & Hin & Hc); [by destruct net|done|]. rewrite Hc. eauto.
  - destruct cfType; try done. destruct Hsplit as (a & Ha & Hin & Hc); [by destruct net|done|]. rewrite Hc. eauto.
  - destruct cfType; try done. destruct (Hrobin (rpfix_addresses net) ltac:(by destruct net)) as (a & Ha & Hin). eauto.
  - destruct (Hrobin (scversion_addresses cfType net) ltac:(by destruct cfType, net)) as (a & Ha & Hin). eauto.
Qed.

(** The parts of a reward.  For an amount in the money range each part of the
    community fund is computed without overflow and is not negative, and together
    they never exceed two fifths of the amount: the miner keeps the rest. *)
Theorem community_parts_bounded (net : Network) (height : Z) (amount : CAmount) :
  0 <= amount <= MAX_MONEY ->
  let part := getCommunityFundReward net height amount in
  (forall cfType, 0 <= part cfType <= amount /\ is_i64 (amount * 200))
  /\ 10 * (part FOUNDATION + part SECURENODE + part SUPERNODE) <= 4 * amount.
Proof.
  intros Ha. unfold getCommunityFundReward.
  assert (Hq : forall k, 0 <= k <= 200 -> 0 <= Z.quot (amount * k) 1000 /\ 1000 * Z.quot (amount * k) 1000 <= amount * k).
  { intros k Hk. rewrite Z.quot_div_nonneg by nia. split; [apply Z.div_pos; nia|]. apply Z.mul_div_le. lia. }
  pose proof (Hq 85 ltac:(lia)). pose proof (Hq 120 ltac:(lia)). pose proof (Hq 100 ltac:(lia)). pose proof (Hq 200 ltac:(lia)).
  unfold is_i64, MAX_MONEY, COIN in *. cbn zeta.
  destruct (getForkAtHeight net height); cbn; (split; [intros []|]);
    cbv [OriginalFork_getCommunityFundReward ChainsplitFork_getCommunityFundReward CommunityFundAndRPFixFork_getCommunityFundReward];
    repeat case_bool_decide; cbn; done || lia.
Qed.

Lemma community_parts_bounded_witness :
  10 * (getCommunityFundReward MAIN 500000 1250000000 FOUNDATION + getCommunityFundReward MAIN 500000 1250000000 SECURENODE
    + getCommunityFundReward MAIN 500000 1250000000 SUPERNODE) <= 4 * 1250000000.
Proof. by destruct (community_parts_bounded MAIN 500000 1250000000 ltac:(unfold MAX_MONEY, COIN; lia)). Defined.

(** ** The money supply *)
Section Supply.
  Context (net : Network).
Local Notation p := (GetConsensus net).
Local Notation I := (nSubsidyHalvingInterval p).

(** the period a height is in and its place there *)
Definition period (h : Z) : Z := (h - SubsidySlowStartShift p) / I.
Definition place (h : Z) : Z := (h - SubsidySlowStartShift p) mod I.

Lemma subsidy_value h : 0 < h -> GetBlockSubsidy h p = Ok (Z.shiftr 1250000000 (period h)).
Proof.
  intros Hh. unfold GetBlockSubsidy, period, SubsidySlowStartShift. rewrite (proj2 (Z.eqb_neq h 0)) by lia.
  assert (Hz : forall k, 64 <= k -> Z.shiftr 1250000000 k = 0).
  { intros k Hk. rewrite Z.shiftr_div_pow2 by lia. apply Z.div_small. split; [lia|].
    apply Z.lt_le_trans with (2 ^ 64); [lia|]. apply Z.pow_le_mono_r; lia. }
  destruct net; cbn -[Z.quot Z.shiftr].
  all: change (Z.quot 2 2) with 1; change (Z.quot 0 2) with 0.
  all: repeat case_match; zbool; try lia.
  all: try rewrite Z.quot_div_nonneg in * by lia; try (by rewrite Hz); try done.
  all: assert (h = 1) as -> by lia; reflexivity.
Qed.

(** what is still to be issued from height [h] on, at most *)
Definition left_to_issue (h : Z) : Z := (2 * I - place h) * Z.shiftr 1250000000 (period h).

Lemma interval_pos : 0 < I.
Proof. by destruct net. Qed.

Lemma issue_step h : SubsidySlowStartShift p <= h ->
  Z.shiftr 1250000000 (period h) + left_to_issue (h + 1) <= left_to_issue h.
Proof.
  intros Hh. pose proof interval_pos as Hi. unfold left_to_issue, period, place.
  set (x := h - SubsidySlowStartShift p). replace (h + 1 - SubsidySlowStartShift p) with (x + 1) by lia.
  pose proof (Z.div_mod x I ltac:(lia)) as Hd. pose proof (Z.mod_pos_bound x I Hi) as Hm.
  assert (Hx : 0 <= x) by lia. pose proof (Z.div_pos x I Hx Hi) as Hp.
  destruct (decide (x mod I = I - 1)) as [El|Nl].
  - assert (Ed : (x + 1) / I = x / I + 1) by (symmetry; apply (Z.div_unique _ _ _ 0); lia).
    assert (Em : (x + 1) mod I = 0) by (symmetry; apply (Z.mod_unique _ _ (x / I + 1)); lia).
    rewrite Ed, Em, El, <- Z.shiftr_shiftr by lia. set (a := Z.shiftr 1250000000 (x / I)).
    assert (Ha : 0 <= a) by (apply Z.shiftr_nonneg; lia). rewrite Z.shiftr_div_pow2 by lia.
    pose proof (Z.mul_div_le a 2 ltac:(lia)). change (2 ^ 1) with 2. nia.
  - assert (Ed : (x + 1) / I = x / I) by (symmetry; apply (Z.div_unique _ _ _ (x mod I + 1)); lia).
    assert (Em : (x + 1) mod I = x mod I + 1) by (symmetry; apply (Z.mod_unique _ _ (x / I)); lia).
    rewrite Ed, Em. lia.
Qed.

Lemma issued_bound n : exists s, issued n p = Ok s /\ 0 <= s
  /\ s + left_to_issue (Z.of_nat n + 1) <= left_to_issue 1.
Proof.
  induction n as [|n (s & Hs & Hs0 & Hb)]; [exists 0; split_and!; try done; change (Z.of_nat 0 + 1) with 1; lia|].
  cbn [issued]. rewrite Hs. cbn [res_bind]. rewrite subsidy_value by lia. cbn [res_bind]. eexists. split; [done|].
  pose proof (proj2 (Z.shiftr_nonneg 1250000000 (period (Z.of_nat (S n))))).
  pose proof (issue_step (Z.of_nat n + 1)) as Hst. replace (Z.of_nat (S n)) with (Z.of_nat n + 1) in * by lia.
  assert (SubsidySlowStartShift p <= Z.of_nat n + 1) by (unfold SubsidySlowStartShift; destruct net; cbn -[Z.quot]; change (Z.quot 2 2) with 1; change (Z.quot 0 2) with 0; lia).
  specialize (Hst ltac:(done)). lia.
Qed.
End Supply.

(** C16: the money supply.  On every network the subsidies of the blocks, however
    many they are, are all computed without failing their assertion, and what they
    issue together never exceeds [MAX_MONEY]. *)
Theorem supply_capped (net : Network) (n : nat) :
  exists s, issued n (GetConsensus net) = Ok s /\ 0 <= s <= MAX_MONEY.
Proof.
  destruct (issued_bound net n) as (s & Hs & Hs0 & Hb). exists s. split; [done|]. split; [done|].
  assert (left_to_issue net 1 <= MAX_MONEY) by (destruct net; vm_compute; discriminate).
  assert (0 <= left_to_issue net (Z.of_nat n + 1)); [|lia]. unfold left_to_issue.
  pose proof (interval_pos net). pose proof (Z.mod_pos_bound (Z.of_nat n + 1 - SubsidySlowStartShift (GetConsensus net)) _ ltac:(done)) as Hm.
  fold (place net (Z.of_nat n + 1)) in Hm. pose proof (proj2 (Z.shiftr_nonneg 1250000000 (period net (Z.of_nat n + 1)))). nia.
Qed.
