(* ===== verification/Compress.v ===== *)
(** * Compact encodings of amounts and scripts

    [compressor.h], [compressor.cpp] and the public-key checks of [pubkey.h],
    [pubkey.cpp] they use. *)

From stdpp Require Import base numbers list strings option.
From Stdlib Require Import ZArith Lia.
From S2P Require Import Prelude.
From S2P Require Import Amount.
From S2P Require Import Serialize.
From S2P Require Import ScTypes.
From S2P Require Import Primitives.
Open Scope Z_scope.
Open Scope zen_scope.

(** ** Amounts, in unsigned 64-bit arithmetic *)
Fixpoint strip_zeros (fuel : nat) (n e : Z) : Z * Z :=
  match fuel with
  | O => (n, e)
  | S f => if (n mod 10 =? 0) && (e <? 9) then strip_zeros f (n / 10) (e + 1) else (n, e)
  end.

Definition CompressAmount (n : Z) : Z :=
  if n =? 0 then 0
  else
    let '(n, e) := strip_zeros 10 n 0 in
    if e <? 9 then to_u64 (1 + (n / 10 * 9 + n mod 10 - 1) * 10 + e)
    else to_u64 (1 + (n - 1) * 10 + 9).

Fixpoint times_ten (e : nat) (n : Z) : Z :=
  match e with O => n | S e' => times_ten e' (to_u64 (n * 10)) end.

Definition DecompressAmount (x : Z) : Z :=
  if x =? 0 then 0
  else
    let x1 := x - 1 in
    let e := x1 mod 10 in
    let x2 := x1 / 10 in
    let n := if e <? 9 then to_u64 (x2 / 9 * 10 + (x2 mod 9 + 1)) else to_u64 (x2 + 1) in
    times_ten (Z.to_nat e) n.

(** ** Public keys

    [secp_uncompressed] is [secp256k1_ec_pubkey_parse] followed by
    [secp256k1_ec_pubkey_serialize] in the uncompressed format. *)
Class Secp256k1 := { secp_uncompressed : bytes -> option bytes }.

Definition GetLen (chHeader : Z) : Z :=
  if (chHeader =? 2) || (chHeader =? 3) then 33
  else if (chHeader =? 4) || (chHeader =? 6) || (chHeader =? 7) then 65
  else 0.

(** [CPubKey::Set]: the key, or the empty (invalid) one *)
Definition PubKey_Set (b : bytes) : bytes :=
  match b with
  | [] => []
  | h :: _ => if negb (GetLen h =? 0) && (GetLen h =? vsize b) then b else []
  end.

Section Scripts.
  Context `{Secp256k1}.

Definition PubKey_IsFullyValid (k : bytes) : bool :=
  match k with
  | [] => false
  | _ => match secp_uncompressed k with Some _ => true | None => false end
  end.

Definition PubKey_Decompress (k : bytes) : option bytes :=
  match k with
  | [] => None
  | _ => PubKey_Set <$> secp_uncompressed k
  end.

(** ** Scripts *)
Definition at_ (s : bytes) (i : nat) : Z := nth i s 0.

Definition slice (s : bytes) (i n : nat) : bytes := take n (drop i s).

Definition IsToKeyID (script : bytes) : option bytes :=
  if (vsize script =? 25) && (at_ script 0 =? OP_DUP) && (at_ script 1 =? OP_HASH160)
     && (at_ script 2 =? 20) && (at_ script 23 =? OP_EQUALVERIFY) && (at_ script 24 =? OP_CHECKSIG)
  then Some (slice script 3 20) else None.

Definition IsToScriptID (script : bytes) : option bytes :=
  if (vsize script =? 23) && (at_ script 0 =? OP_HASH160) && (at_ script 1 =? 20)
     && (at_ script 22 =? OP_EQUAL)
  then Some (slice script 2 20) else None.

Definition IsToPubKey (script : bytes) : option bytes :=
  if (vsize script =? 35) && (at_ script 0 =? 33) && (at_ script 34 =? OP_CHECKSIG)
     && ((at_ script 1 =? 2) || (at_ script 1 =? 3))
  then Some (PubKey_Set (slice script 1 33))
  else if (vsize script =? 67) && (at_ script 0 =? 65) && (at_ script 66 =? OP_CHECKSIG)
          && (at_ script 1 =? 4)
  then
    let k := PubKey_Set (slice script 1 65) in
    if PubKey_IsFullyValid k then Some k else None
  else None.

Definition Compress (script : bytes) : option bytes :=
  match IsToKeyID script with
  | Some keyID => Some (0 :: keyID)
  | None =>
      match IsToScriptID script with
      | Some scriptID => Some (1 :: scriptID)
      | None =>
          match IsToPubKey script with
          | Some k =>
              if (at_ k 0 =? 2) || (at_ k 0 =? 3) then Some (at_ k 0 :: slice k 1 32)
              else if at_ k 0 =? 4 then Some (Z.lor 4 (Z.land (at_ k 64) 1) :: slice k 1 32)
              else None
          | None => None
          end
      end
  end.

Definition GetSpecialSize (nSize : Z) : Z :=
  if (nSize =? 0) || (nSize =? 1) then 20
  else if (nSize =? 2) || (nSize =? 3) || (nSize =? 4) || (nSize =? 5) then 32
  else 0.

(** [Decompress] into [script]; a failure leaves it as it was *)
Definition Decompress (nSize : Z) (b script : bytes) : res bytes :=
  if nSize =? 0 then Ok ([OP_DUP; OP_HASH160; 20] ++ take 20 b ++ [OP_EQUALVERIFY; OP_CHECKSIG])
  else if nSize =? 1 then Ok ([OP_HASH160; 20] ++ take 20 b ++ [OP_EQUAL])
  else if (nSize =? 2) || (nSize =? 3) then Ok ([33; nSize] ++ take 32 b ++ [OP_CHECKSIG])
  else if (nSize =? 4) || (nSize =? 5) then
    match PubKey_Decompress (PubKey_Set (nSize - 2 :: take 32 b)) with
    | None => Ok script
    | Some pk => if vsize pk =? 65 then Ok ([65] ++ pk ++ [OP_CHECKSIG]) else Err AssertFailed
    end
  else Ok script.

Definition nSpecialScripts : Z := 6.

Definition ScriptCompressor_ser (script : bytes) : bytes :=
  match Compress script with
  | Some compr => compr
  | None => WriteVarInt (to_u32 (vsize script + nSpecialScripts)) ++ script
  end.

Definition ScriptCompressor_size (script : bytes) : Z :=
  match Compress script with
  | Some compr => vsize compr
  | None => vsize script + GetSizeOfVarInt (to_u32 (vsize script + nSpecialScripts))
  end.

Definition ignore (n : Z) : Reader unit :=
  fun s => if (Z.to_nat n <=? length s)%nat then Ok (tt, drop (Z.to_nat n) s)
           else Err (Exception "CBaseDataStream::ignore(): end of data").

(** into a default-constructed output, whose script is empty *)
Definition ScriptCompressor_unser : Reader bytes :=
  let* nSize := ReadVarInt to_u32 in
  if nSize <? nSpecialScripts then
    let* vch := read_bytes (Z.to_nat (GetSpecialSize nSize)) in
    lift (Decompress nSize vch [])
  else
    let n := nSize - nSpecialScripts in
    if MAX_SCRIPT_SIZE <? n then (let* _ := ignore n in ret [OP_RETURN])
    else read_bytes (Z.to_nat n).

Definition s_script : Serializer bytes :=
  mkSerializer ScriptCompressor_ser ScriptCompressor_unser ScriptCompressor_size.

(** [CTxOutCompressor] *)
Definition s_amount : Serializer Z :=
  mkSerializer (fun v => WriteVarInt (CompressAmount (to_u64 v)))
    (let* x := ReadVarInt to_u64 in ret (to_i64 (DecompressAmount x)))
    (fun v => GetSizeOfVarInt (CompressAmount (to_u64 v))).

Definition s_txout : Serializer CTxOut :=
  s_iso (fun o => (out_nValue o, scriptPubKey o)) (fun p => mkTxOut p.1 p.2) (s_pair s_amount s_script).
End Scripts.

(** ** Amounts: lemmas *)
Lemma strip_zeros_spec fuel n e m e' :
  0 < n -> 0 <= e -> strip_zeros fuel n e = (m, e') ->
  0 < m /\ e <= e' /\ n = m * 10 ^ (e' - e) /\ (e <= 9 -> e' <= 9)
  /\ (e' < Z.min 9 (e + Z.of_nat fuel) -> m mod 10 <> 0).
Proof.
  revert n e. induction fuel as [|f IH]; intros n e Hn He Hs; cbn [strip_zeros] in Hs.
  { injection Hs as <- <-. rewrite Z.sub_diag. split_and!; lia. }
  destruct (Z.eqb_spec (n mod 10) 0) as [H0|H0], (Z.ltb_spec e 9) as [H9|H9]; cbn [andb] in Hs.
  2-4: injection Hs as <- <-; rewrite Z.sub_diag; split_and!; lia.
  assert (Hdiv : n = 10 * (n / 10)) by (pose proof (Z.div_mod n 10); lia).
  destruct (IH (n / 10) (e + 1) ltac:(lia) ltac:(lia) Hs) as (A & B & C & D & E).
  split_and!; [lia|lia| |lia|lia].
  rewrite Hdiv, C at 1. replace (e' - e) with (1 + (e' - (e + 1))) by lia.
  rewrite Z.pow_add_r by lia. lia.
Qed.

Lemma times_ten_pow e n :
  0 <= n -> n * 10 ^ Z.of_nat e < 2 ^ 64 -> times_ten e n = n * 10 ^ Z.of_nat e.
Proof.
  revert n. induction e as [|e IH]; intros n Hn Hb; cbn [times_ten]; [simpl; lia|].
  rewrite Nat2Z.inj_succ, Z.pow_succ_r in * by lia.
  assert (1 <= 10 ^ Z.of_nat e) by (apply (Z.pow_le_mono_r 10 0); lia).
  unfold to_u64. rewrite Z.mod_small by nia. rewrite IH by nia. lia.
Qed.

Lemma compress_bound n : 0 <= n <= MAX_MONEY -> 0 <= CompressAmount n < 2 ^ 64.
Proof.
  intros Hn. unfold CompressAmount, to_u64.
  destruct (Z.eqb_spec n 0); [lia|]. destruct (strip_zeros 10 n 0).
  case_match; apply Z.mod_pos_bound; lia.
Qed.

Lemma decompress_compress n : 0 <= n <= MAX_MONEY -> DecompressAmount (CompressAmount n) = n.
Proof.
  unfold MAX_MONEY, COIN. intros Hn. unfold CompressAmount.
  destruct (Z.eqb_spec n 0) as [->|H0]; [done|].
  destruct (strip_zeros 10 n 0) as [m e] eqn:Hs.
  destruct (strip_zeros_spec 10 n 0 m e ltac:(lia) ltac:(lia) Hs) as (Hm & He & Hn' & He9 & Hmod).
  rewrite Z.sub_0_r in Hn'. specialize (He9 ltac:(lia)).
  assert (1 <= 10 ^ e) by (apply (Z.pow_le_mono_r 10 0); lia). assert (m <= n) by nia.
  pose proof (Z.mod_pos_bound m 10 ltac:(lia)). pose proof (Z.div_mod m 10 ltac:(lia)).
  assert (0 <= m / 10) by (apply Z.div_pos; lia).
  unfold DecompressAmount, to_u64.
  destruct (Z.ltb_spec e 9) as [H9|H9].
  - specialize (Hmod ltac:(lia)). rewrite Z.mod_small by lia.
    set (q := m / 10 * 9 + m mod 10 - 1) in *.
    rewrite (proj2 (Z.eqb_neq _ 0)) by lia.
    replace (1 + q * 10 + e - 1) with (q * 10 + e) by lia.
    assert (Hq1 : (q * 10 + e) mod 10 = e) by (rewrite Z.add_comm, Z.mod_add, Z.mod_small; lia).
    assert (Hq2 : (q * 10 + e) / 10 = q) by (rewrite Z.div_add_l, (Z.div_small e); lia).
    rewrite Hq1, Hq2, (proj2 (Z.ltb_lt e 9)) by lia.
    assert (Hd1 : q mod 9 = m mod 10 - 1).
    { replace q with (m mod 10 - 1 + m / 10 * 9) by (unfold q; lia).
      rewrite Z.mod_add, Z.mod_small; lia. }
    assert (Hd2 : q / 9 = m / 10).
    { replace q with (m / 10 * 9 + (m mod 10 - 1)) by (unfold q; lia).
      rewrite Z.div_add_l, (Z.div_small (m mod 10 - 1)); lia. }
    rewrite Hd1, Hd2. replace (m / 10 * 10 + (m mod 10 - 1 + 1)) with m by lia.
    rewrite Z.mod_small by lia. rewrite times_ten_pow; rewrite ?Z2Nat.id by lia; lia.
  - assert (e = 9) as -> by lia. rewrite Z.mod_small by lia.
    rewrite (proj2 (Z.eqb_neq _ 0)) by lia.
    replace (1 + (m - 1) * 10 + 9 - 1) with ((m - 1) * 10 + 9) by lia.
    assert (Hq1 : ((m - 1) * 10 + 9) mod 10 = 9) by (rewrite Z.add_comm, Z.mod_add; [done|lia]).
    assert (Hq2 : ((m - 1) * 10 + 9) / 10 = m - 1) by (rewrite Z.div_add_l, (Z.div_small 9); lia).
    rewrite Hq1, Hq2, (proj2 (Z.ltb_ge 9 9)) by lia. replace (m - 1 + 1) with m by lia.
    rewrite Z.mod_small by lia. rewrite times_ten_pow; rewrite ?Z2Nat.id by lia; lia.
Qed.

(** ** Scripts: lemmas *)
(** What the encoder relies on: the [x] coordinate and the parity of [y] determine
    a valid uncompressed key. *)
Class Secp256k1Laws `{Secp256k1} := {
  secp_recover : forall x y,
    length x = 32%nat -> length y = 32%nat -> secp_uncompressed (4 :: x ++ y) <> None ->
    secp_uncompressed (2 + Z.land (List.last y 0) 1 :: x) = Some (4 :: x ++ y) }.

Lemma split_slice s i n : s = take i s ++ slice s i n ++ drop (i + n) s.
Proof. unfold slice. rewrite <- drop_drop, take_drop. by rewrite take_drop. Qed.

Lemma at_drop s i j : at_ (drop i s) j = at_ s (i + j).
Proof. unfold at_. apply nth_skipn. Qed.

Lemma drop_eq_at s i a b :
  vsize s = Z.of_nat (i + 2) -> at_ s i = a -> at_ s (i + 1) = b -> drop i s = [a; b].
Proof.
  intros Hl Ha Hb. assert (Hd : length (drop i s) = 2%nat) by (unfold vsize in Hl; rewrite length_drop; lia).
  assert (Ha' : at_ (drop i s) 0 = a) by (by rewrite at_drop, Nat.add_0_r). rewrite <- at_drop in Hb.
  destruct (drop i s) as [|x [|y []]]; try done. unfold at_ in *. simpl in *. by subst.
Qed.

Lemma drop_eq_at1 s i a : vsize s = Z.of_nat (i + 1) -> at_ s i = a -> drop i s = [a].
Proof.
  intros Hl Ha. assert (Hd : length (drop i s) = 1%nat) by (unfold vsize in Hl; rewrite length_drop; lia).
  assert (Ha' : at_ (drop i s) 0 = a) by (by rewrite at_drop, Nat.add_0_r).
  destruct (drop i s) as [|x []]; try done. unfold at_ in *. simpl in *. by subst.
Qed.

Lemma length_slice s i n : (i + n <= length s)%nat -> length (slice s i n) = n.
Proof. intros Hl. unfold slice. rewrite length_take, length_drop. lia. Qed.

Lemma IsToKeyID_spec s h :
  IsToKeyID s = Some h ->
  s = [OP_DUP; OP_HASH160; 20] ++ h ++ [OP_EQUALVERIFY; OP_CHECKSIG] /\ length h = 20%nat.
Proof.
  unfold IsToKeyID. case_match eqn:E; [|done]. intros [= <-]. zbool.
  split; [|apply length_slice; unfold vsize in *; lia].
  rewrite (split_slice s 3 20) at 1. f_equal.
  - destruct s as [|a [|b [|c s]]]; try done. unfold at_ in *. simpl in *. by subst.
  - f_equal. by apply drop_eq_at.
Qed.

Lemma IsToScriptID_spec s h :
  IsToScriptID s = Some h ->
  s = [OP_HASH160; 20] ++ h ++ [OP_EQUAL] /\ length h = 20%nat.
Proof.
  unfold IsToScriptID. case_match eqn:E; [|done]. intros [= <-]. zbool.
  split; [|apply length_slice; unfold vsize in *; lia].
  rewrite (split_slice s 2 20) at 1. f_equal.
  - destruct s as [|a [|b s]]; try done. unfold at_ in *. simpl in *. by subst.
  - f_equal. by apply drop_eq_at1.
Qed.

Section ScriptRoundTrip.
  Context `{Secp256k1Laws}.

  (** The two shapes of a pay-to-public-key script. *)
Lemma key33_spec s :
    vsize s = 35 -> at_ s 0 = 33 -> at_ s 34 = OP_CHECKSIG -> at_ s 1 = 2 \/ at_ s 1 = 3 ->
    exists h x, (h = 2 \/ h = 3) /\ length x = 32%nat /\ PubKey_Set (slice s 1 33) = h :: x
    /\ s = [33; h] ++ x ++ [OP_CHECKSIG].
  Proof using Type.
    intros Hl A0 A34 A1. destruct s as [|a [|b s]]; try done.
    unfold at_, slice, vsize in *. simpl in *. exists b, (take 32 s).
    assert (Hl' : length (take 32 s) = 32%nat) by (rewrite length_take; lia).
    unfold PubKey_Set, vsize. simpl length. rewrite Hl'.
    assert (GetLen b = 33) as -> by (destruct A1 as [-> | ->]; done). simpl.
    split_and!; try done. subst a. f_equal. f_equal. rewrite <- (take_drop 32 s) at 1. f_equal.
    apply drop_eq_at1; [unfold vsize; lia|by unfold at_].
  Qed.

Lemma key65_spec s :
    vsize s = 67 -> at_ s 0 = 65 -> at_ s 66 = OP_CHECKSIG -> at_ s 1 = 4 ->
    exists x y, length x = 32%nat /\ length y = 32%nat /\ PubKey_Set (slice s 1 65) = 4 :: x ++ y
    /\ s = [65] ++ (4 :: x ++ y) ++ [OP_CHECKSIG].
  Proof using Type.
    intros Hl A0 A66 A1. destruct s as [|a [|b s]]; try done.
    unfold at_, slice, vsize in *. simpl in *. exists (take 32 s), (take 32 (drop 32 s)).
    assert (Hl' : length (take 64 s) = 64%nat) by (rewrite length_take; lia).
    assert (Hxy : take 32 s ++ take 32 (drop 32 s) = take 64 s)
      by (rewrite <- (take_take_drop s 32 32) || (rewrite take_take_drop; done); done).
    rewrite Hxy. unfold PubKey_Set, vsize. simpl length. rewrite Hl'. subst b. simpl.
    split_and!; try (rewrite ?length_take, ?length_drop; lia); try done. subst a. f_equal. f_equal.
    rewrite <- (take_drop 64 s) at 1. f_equal.
    apply drop_eq_at1; [unfold vsize; lia|by unfold at_].
  Qed.

Lemma PubKey_Set_33 h x : h = 2 \/ h = 3 -> length x = 32%nat -> PubKey_Set (h :: x) = h :: x.
  Proof using Type.
    intros Hh Hx. unfold PubKey_Set, vsize. simpl length. rewrite Hx. destruct Hh as [-> | ->]; done.
  Qed.

Lemma PubKey_Set_65 l : length l = 64%nat -> PubKey_Set (4 :: l) = 4 :: l.
  Proof using Type. intros Hl. unfold PubKey_Set, vsize. simpl length. by rewrite Hl. Qed.

Lemma Decompress_key65 b x y :
    b = 0 \/ b = 1 -> length x = 32%nat -> length y = 32%nat ->
    secp_uncompressed (2 + b :: x) = Some (4 :: x ++ y) ->
    Decompress (4 + b) x [] = Ok ([65] ++ (4 :: x ++ y) ++ [OP_CHECKSIG]).
  Proof using Type.
    intros Hb Hx Hy Hs. unfold Decompress. rewrite !(take_ge x 32) by lia.
    replace (4 + b - 2) with (2 + b) by lia.
    rewrite PubKey_Set_33 by lia. unfold PubKey_Decompress. rewrite Hs. cbn [fmap option_fmap option_map].
    rewrite PubKey_Set_65 by (rewrite length_app; lia). unfold vsize. simpl length.
    rewrite length_app, Hx, Hy. destruct Hb as [-> | ->]; done.
  Qed.

Lemma Compress_cases s out :
    Compress s = Some out ->
    exists code payload, out = code :: payload /\ 0 <= code < 6
    /\ length payload = Z.to_nat (GetSpecialSize code) /\ Decompress code payload [] = Ok s.
  Proof using Type*.
    unfold Compress. destruct (IsToKeyID s) as [h|] eqn:E1.
    { intros [= <-]. destruct (IsToKeyID_spec s h E1) as [Hs Hh]. exists 0, h.
      split_and!; try done. unfold Decompress. rewrite !take_ge by lia. by rewrite Hs. }
    destruct (IsToScriptID s) as [h|] eqn:E2.
    { intros [= <-]. destruct (IsToScriptID_spec s h E2) as [Hs Hh]. exists 1, h.
      split_and!; try done. unfold Decompress. rewrite !take_ge by lia. by rewrite Hs. }
    unfold IsToPubKey. clear E1 E2.
    destruct ((vsize s =? 35) && _ && _ && _) eqn:E3; [|destruct ((vsize s =? 67) && _ && _ && _) eqn:E4].
    - zbool. destruct (key33_spec s) as (h & x & Hh & Hx & -> & Hs); try done.
      { match goal with H : _ || _ = true |- _ => apply orb_true_iff in H; zbool; lia end. }
      change (at_ (h :: x) 0) with h. change (slice (h :: x) 1 32) with (take 32 x).
      assert ((h =? 2) || (h =? 3) = true) as -> by (destruct Hh as [-> | ->]; done).
      rewrite (take_ge x 32) by lia. intros [= <-]. exists h, x.
      destruct Hh as [-> | ->]; (split_and!; [done|lia|lia|done|]);
        unfold Decompress; rewrite !(take_ge x 32) by lia; by rewrite Hs.
    - zbool. destruct (key65_spec s) as (x & y & Hx & Hy & -> & Hs); try done.
      unfold PubKey_IsFullyValid. destruct (secp_uncompressed (4 :: x ++ y)) eqn:Ev; [|done].
      change (at_ (4 :: x ++ y) 0) with 4. change (at_ (4 :: x ++ y) 64) with (nth 63 (x ++ y) 0).
      change (slice (4 :: x ++ y) 1 32) with (take 32 (x ++ y)).
      cbn [Z.eqb Pos.eqb orb]. rewrite take_app_le, take_ge by lia.
      assert (Hlast : nth 63 (x ++ y) 0 = List.last y 0).
      { rewrite app_nth2 by lia. rewrite Hx.
        destruct (exists_last (l := y)) as (y' & z & ->); [by destruct y|].
        rewrite List.last_last. rewrite length_app in Hy. simpl in Hy.
        rewrite app_nth2 by lia. replace (63 - 32 - length y')%nat with 0%nat by lia. done. }
      rewrite Hlast. intros [= <-].
      assert (Hv : secp_uncompressed (4 :: x ++ y) <> None) by (rewrite Ev; done).
      pose proof (secp_recover x y Hx Hy Hv) as Hrec.
      assert (Hb : Z.land (List.last y 0) 1 = 0 \/ Z.land (List.last y 0) 1 = 1).
      { assert (Hm : Z.land (List.last y 0) 1 = List.last y 0 mod 2) by (apply (Z.land_ones _ 1); lia).
        pose proof (Z.mod_pos_bound (List.last y 0) 2 ltac:(lia)). lia. }
      exists (Z.lor 4 (Z.land (List.last y 0) 1)), x.
      assert (Hlor : Z.lor 4 (Z.land (List.last y 0) 1) = 4 + Z.land (List.last y 0) 1)
        by (destruct Hb as [-> | ->]; done).
      rewrite Hlor, (Decompress_key65 _ x y), Hs by done.
      split_and!; try done; destruct Hb as [-> | ->]; try lia; done.
    - done.
  Qed.
End ScriptRoundTrip.

Lemma WriteVarInt_small n : 0 <= n < 128 -> WriteVarInt n = [n].
Proof.
  intros Hn. unfold WriteVarInt. cbn [varint_tmp]. rewrite (proj2 (Z.leb_le n 127)) by lia.
  rewrite Z.lor_0_r, land_127, Z.mod_small by lia. done.
Qed.

#[export] Instance script_lawful `{Secp256k1Laws} :
  Lawful s_script (fun s => vsize s <= MAX_SCRIPT_SIZE).
Proof.
  assert (Hsz : forall s : bytes, vsize s <= MAX_SCRIPT_SIZE ->
    to_u32 (vsize s + nSpecialScripts) = vsize s + nSpecialScripts).
  { intros s Hs. unfold MAX_SCRIPT_SIZE, nSpecialScripts, to_u32, vsize in *.
    rewrite Z.mod_small; lia. }
  split.
  - intros s rest Hs. cbn [unser ser s_script].
    unfold ScriptCompressor_ser, ScriptCompressor_unser.
    destruct (Compress s) as [out|] eqn:E.
    + destruct (Compress_cases s out E) as (code & payload & -> & Hc & Hl & Hd).
      replace (code :: payload) with (WriteVarInt code ++ payload)
        by (by rewrite WriteVarInt_small by lia).
      rewrite <- app_assoc. rewrite (unser_then (s_varint to_u32) _) by lia.
      rewrite (proj2 (Z.ltb_lt code nSpecialScripts)) by (unfold nSpecialScripts; lia).
      rewrite (bind_ok _ _ _ payload rest) by (by apply read_bytes_app). unfold lift. by rewrite Hd.
    + rewrite Hsz, <- app_assoc by done.
      rewrite (unser_then (s_varint to_u32) _) by (unfold MAX_SCRIPT_SIZE, nSpecialScripts, vsize in *; lia).
      rewrite (proj2 (Z.ltb_ge _ nSpecialScripts)) by (unfold nSpecialScripts, vsize; lia).
      replace (vsize s + nSpecialScripts - nSpecialScripts) with (vsize s) by lia.
      rewrite (proj2 (Z.ltb_ge _ _)) by done. apply read_bytes_app. unfold vsize. lia.
  - intros s Hs. cbn [ser ser_size s_script]. unfold ScriptCompressor_size, ScriptCompressor_ser.
    destruct (Compress s); [done|]. rewrite length_app. unfold GetSizeOfVarInt, WriteVarInt.
    rewrite Nat2Z.inj_add, varint_size_tmp. unfold vsize. simpl length. lia.
Qed.

#[export] Instance amount_lawful : Lawful s_amount (fun v => 0 <= v <= MAX_MONEY).
Proof.
  assert (Hu : forall v, 0 <= v <= MAX_MONEY -> to_u64 v = v).
  { intros v Hv. unfold to_u64, MAX_MONEY, COIN in *. apply Z.mod_small. lia. }
  split.
  - intros v rest Hv. cbn [unser ser s_amount].
    rewrite Hu by done. rewrite (unser_then (s_varint to_u64) _) by (by apply compress_bound).
    rewrite decompress_compress by done. unfold ret, to_i64, MAX_MONEY, COIN in *.
    rewrite Z.mod_small by lia. f_equal. f_equal. lia.
  - intros v Hv. cbn [ser ser_size s_amount]. rewrite Hu by done.
    apply (ser_size_ser (s := s_varint to_u64)). by apply compress_bound.
Qed.

Definition txout_ok (o : CTxOut) : Prop :=
  0 <= out_nValue o <= MAX_MONEY /\ vsize (scriptPubKey o) <= MAX_SCRIPT_SIZE.

#[export] Instance txout_lawful `{Secp256k1Laws} : Lawful s_txout txout_ok.
Proof.
  apply (iso_lawful _ _ _
    (fun p => 0 <= p.1 <= MAX_MONEY /\ vsize p.2 <= MAX_SCRIPT_SIZE));
    [|by intros []|by intros []].
  exact (pair_lawful s_amount s_script (fun v => 0 <= v <= MAX_MONEY)
    (fun s => vsize s <= MAX_SCRIPT_SIZE)).
Qed.

(** The compact encoding of an unspent output is lossless: for every amount in
    the money range and every script of at most [MAX_SCRIPT_SIZE] bytes, be it one
    of the special forms (pay to key hash, script hash, compressed or uncompressed
    key) or not, reading what [CTxOutCompressor] wrote gives the output back and
    leaves the rest of the stream; the announced size is the size written. *)
Theorem txout_compression_roundtrip `{Secp256k1Laws} (o : CTxOut) (rest : bytes) :
  0 <= out_nValue o <= MAX_MONEY -> vsize (scriptPubKey o) <= MAX_SCRIPT_SIZE ->
  unser s_txout (ser s_txout o ++ rest) = Ok (o, rest)
  /\ ser_size s_txout o = vsize (ser s_txout o).
Proof. intros Hv Hs. split; [by apply unser_ser|by apply ser_size_ser]. Qed.

(** A curve with a single point, whose coordinates are 7...7 and 2...2. *)
Definition toy_key : bytes := 4 :: repeat 7 32 ++ repeat 2 32.

Definition toy_curve : Secp256k1 := {|
  secp_uncompressed := fun k =>
    if decide (k = toy_key) then Some toy_key
    else if decide (k = 2 :: repeat 7 32) then Some toy_key else None |}.

Lemma toy_curve_laws : @Secp256k1Laws toy_curve.
Proof.
  split. intros x y Hx Hy. cbn [secp_uncompressed toy_curve]. case_decide as Hk.
  - intros _. apply (f_equal (drop 1)) in Hk. change (x ++ y = repeat 7 32 ++ repeat 2 32) in Hk.
    apply app_inj_1 in Hk as [-> ->]; [reflexivity|done].
  - case_decide as Hk2; [|done]. discriminate.
Qed.

Lemma txout_compression_roundtrip_witness :
  @unser _ (@s_txout toy_curve)
    (@ser _ (@s_txout toy_curve) (mkTxOut 6000000 ([65] ++ toy_key ++ [0xac])) ++ [9])
  = Ok (mkTxOut 6000000 ([65] ++ toy_key ++ [0xac]), [9])
  /\ @ser _ (@s_txout toy_curve) (mkTxOut 6000000 ([65] ++ toy_key ++ [0xac])) = [57; 4] ++ repeat 7 32.
Proof.
  split; [|vm_compute; reflexivity].
  apply (@txout_compression_roundtrip toy_curve toy_curve_laws); vm_compute; split || idtac; congruence.
Defined.
