(* ===== verification/Sidechain.v ===== *)
(** * The state of one sidechain

    [sc/sidechain.h], [sc/sidechain.cpp] and the sidechain parameters of
    [chainparams.cpp]: the record kept per sidechain, its withdrawal-epoch
    schedule, the circular buffer of fees, and the context-free validity of
    sidechain transactions and certificates. *)

From stdpp Require Import base numbers list strings gmap sets option.
From Stdlib Require Import ZArith Lia.
From S2P Require Import Prelude.
From S2P Require Import Amount.
From S2P Require Import Serialize.
From S2P Require Import ScTypes.
From S2P Require Import Primitives.
Open Scope Z_scope.
Open Scope zen_scope.

(** ** Chain parameters and command-line arguments *)
Record CChainParams := mkChainParams {
  strNetworkID : string;
  nScCoinsMaturity : Z;
  nScNumBlocksForScFeeCheck : Z;
  nScMinWithdrawalEpochLength : Z;
  nScMaxWithdrawalEpochLength : Z }.

Definition CMainParams : CChainParams := mkChainParams "main" 10 200 100 4032.

Definition CTestNetParams : CChainParams := mkChainParams "test" 10 200 100 4032.

Definition CRegTestParams : CChainParams := mkChainParams "regtest" 3 10 2 4032.

(** The selected network and what [GetArg] finds for the two regtest options. *)
Class NodeConfig := {
  Params : CChainParams;
  arg_blocksforscfeecheck : option Z;
  arg_sccoinsmaturity : option Z }.

Definition GetArg (arg : option Z) (default : Z) : Z := match arg with Some v => v | None => default end.

(** ** Events and state *)
Record CSidechainEvents := mkEvents {
  sidechainEventsVersion : Z;
  ceasingScs : gset Z;
  maturingScs : gset Z }.

#[export] Instance CSidechainEvents_eq_dec : EqDecision CSidechainEvents.
Proof. solve_decision. Defined.

Definition Events_empty : CSidechainEvents := mkEvents 0 ∅ ∅.

Definition Events_IsNull (e : CSidechainEvents) : bool :=
  bool_decide (ceasingScs e = ∅) && bool_decide (maturingScs e = ∅).

Record CSidechain := mkSidechain {
  creationBlockHeight : Z;
  creationTxHash : uint256;
  pastEpochTopQualityCertView : CScCertificateView;
  lastTopQualityCertView : CScCertificateView;
  lastTopQualityCertHash : uint256;
  lastTopQualityCertReferencedEpoch : Z;
  lastTopQualityCertQuality : Z;
  lastTopQualityCertBwtAmount : CAmount;
  balance : CAmount;
  fixedParams : ScFixedParameters;
  mImmatureAmounts : gmap Z CAmount;
  maxSizeOfScFeesContainers : Z;
  scFees : list ScFeeData }.

#[export] Instance CSidechain_eq_dec : EqDecision CSidechain.
Proof. solve_decision. Defined.

Definition CSidechain_null : CSidechain :=
  mkSidechain (-1) 0 CertView_null CertView_null 0 EPOCH_NULL QUALITY_NULL 0 0
    ScFixedParameters_null ∅ (-1) [].

Definition CSidechain_IsNull (s : CSidechain) : bool :=
  (creationBlockHeight s =? -1) && (creationTxHash s =? 0)
  && CertView_IsNull (pastEpochTopQualityCertView s) && CertView_IsNull (lastTopQualityCertView s)
  && (lastTopQualityCertHash s =? 0) && (lastTopQualityCertReferencedEpoch s =? EPOCH_NULL)
  && (lastTopQualityCertQuality s =? QUALITY_NULL) && (lastTopQualityCertBwtAmount s =? 0)
  && (balance s =? 0) && ScFixedParameters_IsNull (fixedParams s)
  && bool_decide (mImmatureAmounts s = ∅) && is_empty (scFees s).

(** Field updates, one per field the code assigns. *)
Definition set_balance (v : Z) (s : CSidechain) : CSidechain :=
  mkSidechain (creationBlockHeight s) (creationTxHash s) (pastEpochTopQualityCertView s)
    (lastTopQualityCertView s) (lastTopQualityCertHash s) (lastTopQualityCertReferencedEpoch s)
    (lastTopQualityCertQuality s) (lastTopQualityCertBwtAmount s) v (fixedParams s)
    (mImmatureAmounts s) (maxSizeOfScFeesContainers s) (scFees s).

Definition set_immature (m : gmap Z CAmount) (s : CSidechain) : CSidechain :=
  mkSidechain (creationBlockHeight s) (creationTxHash s) (pastEpochTopQualityCertView s)
    (lastTopQualityCertView s) (lastTopQualityCertHash s) (lastTopQualityCertReferencedEpoch s)
    (lastTopQualityCertQuality s) (lastTopQualityCertBwtAmount s) (balance s) (fixedParams s)
    m (maxSizeOfScFeesContainers s) (scFees s).

Definition set_fees (mx : Z) (f : list ScFeeData) (s : CSidechain) : CSidechain :=
  mkSidechain (creationBlockHeight s) (creationTxHash s) (pastEpochTopQualityCertView s)
    (lastTopQualityCertView s) (lastTopQualityCertHash s) (lastTopQualityCertReferencedEpoch s)
    (lastTopQualityCertQuality s) (lastTopQualityCertBwtAmount s) (balance s) (fixedParams s)
    (mImmatureAmounts s) mx f.

Definition set_pastView (v : CScCertificateView) (s : CSidechain) : CSidechain :=
  mkSidechain (creationBlockHeight s) (creationTxHash s) v
    (lastTopQualityCertView s) (lastTopQualityCertHash s) (lastTopQualityCertReferencedEpoch s)
    (lastTopQualityCertQuality s) (lastTopQualityCertBwtAmount s) (balance s) (fixedParams s)
    (mImmatureAmounts s) (maxSizeOfScFeesContainers s) (scFees s).

Definition set_lastCert (v : CScCertificateView) (hash : uint256) (epoch q bwt : Z)
    (s : CSidechain) : CSidechain :=
  mkSidechain (creationBlockHeight s) (creationTxHash s) (pastEpochTopQualityCertView s)
    v hash epoch q bwt (balance s) (fixedParams s)
    (mImmatureAmounts s) (maxSizeOfScFeesContainers s) (scFees s).

(** [operator==]: everything but the memory-only buffer size *)
Definition CSidechain_eqb (a b : CSidechain) : bool :=
  bool_decide (set_fees 0 (scFees a) a = set_fees 0 (scFees b) b).

(** ** The withdrawal-epoch schedule *)
Definition isCreationConfirmed (s : CSidechain) : bool := negb (creationBlockHeight s =? -1).

Definition epochLength (s : CSidechain) : Z := withdrawalEpochLength (fixedParams s).

Definition EpochFor (s : CSidechain) (targetHeight : Z) : Z :=
  if negb (isCreationConfirmed s) then EPOCH_NULL
  else Z.quot (targetHeight - creationBlockHeight s) (epochLength s).

Definition GetStartHeightForEpoch (s : CSidechain) (targetEpoch : Z) : Z :=
  if negb (isCreationConfirmed s) then -1
  else creationBlockHeight s + targetEpoch * epochLength s.

Definition GetEndHeightForEpoch (s : CSidechain) (targetEpoch : Z) : Z :=
  if negb (isCreationConfirmed s) then -1
  else GetStartHeightForEpoch s targetEpoch + epochLength s - 1.

Definition GetCertSubmissionWindowStart (s : CSidechain) (certEpoch : Z) : Z :=
  if negb (isCreationConfirmed s) then -1
  else GetStartHeightForEpoch s (certEpoch + 1).

Definition GetCertSubmissionWindowLength (s : CSidechain) : Z :=
  Z.max 2 (Z.quot (epochLength s) 5).

Definition GetCertSubmissionWindowEnd (s : CSidechain) (certEpoch : Z) : Z :=
  if negb (isCreationConfirmed s) then -1
  else GetCertSubmissionWindowStart s certEpoch + GetCertSubmissionWindowLength s - 1.

Definition GetCertMaturityHeight (s : CSidechain) (certEpoch : Z) : Z :=
  if negb (isCreationConfirmed s) then -1
  else GetCertSubmissionWindowEnd s (certEpoch + 1).

Definition GetScheduledCeasingHeight (s : CSidechain) : Z :=
  GetCertSubmissionWindowEnd s (lastTopQualityCertReferencedEpoch s + 1).

Inductive ScState := NOT_APPLICABLE | UNCONFIRMED | ALIVE | CEASED.

#[export] Instance ScState_eq_dec : EqDecision ScState.
Proof. solve_decision. Defined.

Definition stateToString (s : ScState) : string :=
  match s with
  | UNCONFIRMED => "UNCONFIRMED"
  | ALIVE => "ALIVE"
  | CEASED => "CEASED"
  | NOT_APPLICABLE => "NOT_APPLICABLE"
  end.

(** ** Sidechain fees: a circular buffer *)
Section Fees.
  Context `{NodeConfig}.

Definition getNumBlocksForScFeeCheck : Z :=
  if String.eqb (strNetworkID Params) "regtest" then
    let val := to_i32 (GetArg arg_blocksforscfeecheck (nScNumBlocksForScFeeCheck Params)) in
    if 0 <=? val then val else nScNumBlocksForScFeeCheck Params
  else nScNumBlocksForScFeeCheck Params.

Definition getMaxSizeOfScFeesContainers (s : CSidechain) : res Z :=
  if negb (0 <? epochLength s) then Err AssertFailed
  else
    let numBlocks := getNumBlocksForScFeeCheck in
    let mx := Z.quot numBlocks (epochLength s) in
    Ok (if (mx =? 0) || negb (Z.rem numBlocks (epochLength s) =? 0) then mx + 1 else mx).

Definition InitScFees (s : CSidechain) : res CSidechain :=
  if maxSizeOfScFeesContainers s =? -1 then
    res_bind (getMaxSizeOfScFeesContainers s) (fun mx =>
    if negb (is_empty (scFees s)) then Err AssertFailed
    else Ok (set_fees mx
      [mkScFeeData (cv_forwardTransferScFee (lastTopQualityCertView s))
                   (cv_mainchainBackwardTransferRequestScFee (lastTopQualityCertView s))] s))
  else Ok s.
End Fees.

(** the popping loop *)
Fixpoint pop_front_n (delta : nat) (l : list ScFeeData) : list ScFeeData :=
  match delta, l with
  | S d, _ :: l' => pop_front_n d l'
  | _, _ => l
  end.

Definition UpdateScFees (certView : CScCertificateView) (s : CSidechain) : res CSidechain :=
  if negb (0 <? maxSizeOfScFeesContainers s) then Err AssertFailed
  else
    let fees := scFees s ++ [mkScFeeData (cv_forwardTransferScFee certView)
                                         (cv_mainchainBackwardTransferRequestScFee certView)] in
    let delta := vsize fees - maxSizeOfScFeesContainers s in
    Ok (set_fees (maxSizeOfScFeesContainers s)
          (if 0 <? delta then pop_front_n (Z.to_nat delta) fees else fees) s).

(** [std::min_element] under the comparison of one component *)
Fixpoint min_element (f : ScFeeData -> Z) (best : ScFeeData) (l : list ScFeeData) : ScFeeData :=
  match l with
  | [] => best
  | x :: l' => min_element f (if f x <? f best then x else best) l'
  end.

Definition GetMinFtScFee (s : CSidechain) : res CAmount :=
  match scFees s with
  | [] => Err AssertFailed
  | x :: l => Ok (forwardTxScFee (min_element forwardTxScFee x l))
  end.

Definition GetMinMbtrScFee (s : CSidechain) : res CAmount :=
  match scFees s with
  | [] => Err AssertFailed
  | x :: l => Ok (mbtrTxScFee (min_element mbtrTxScFee x l))
  end.

(** ** Context-free validity *)
Section Validity.
  Context `{ZendooLib} `{NodeConfig}.

Definition check_creation (cumulatedAmount : Z) (sc : CTxScCreationOut) : M VS (option Z) :=
  if sc_withdrawalEpochLength sc <? nScMinWithdrawalEpochLength Params
  then reject_acc 100 INVALID "sidechain-sc-creation-epoch-too-short"
  else if nScMaxWithdrawalEpochLength Params <? sc_withdrawalEpochLength sc
  then reject_acc 100 INVALID "sidechain-sc-creation-epoch-too-long"
  else
    let '(ok, cum) := CheckAmountRange sc cumulatedAmount in
    if negb ok then reject_acc 100 INVALID "sidechain-sc-creation-amount-outside-range"
    else if negb (forallb FECfg_IsValid (sc_vFieldElementCertificateFieldConfig sc))
    then reject_acc 100 INVALID "sidechain-sc-creation-invalid-custom-config"
    else if negb (forallb BVCfg_IsValid (sc_vBitVectorCertificateFieldConfig sc))
    then reject_acc 100 INVALID "sidechain-sc-creation-invalid-custom-config"
    else if negb (VKey_IsValid (sc_wCertVk sc))
    then reject_acc 100 INVALID "sidechain-sc-creation-invalid-wcert-vk"
    else if negb (IsValidProvingSystemType (VKey_getProvingSystemType (sc_wCertVk sc)))
    then reject_acc 100 INVALID "sidechain-sc-creation-invalid-wcert-provingsystype"
    else if match sc_constant sc with Some c => negb (FE_IsValid c) | None => false end
    then reject_acc 100 INVALID "sidechain-sc-creation-invalid-constant"
    else if match sc_wCeasedVk sc with Some vk => negb (VKey_IsValid vk) | None => false end
    then reject_acc 100 INVALID "sidechain-sc-creation-invalid-wcsw-vk"
    else if match sc_wCeasedVk sc with
            | Some vk => negb (IsValidProvingSystemType (VKey_getProvingSystemType vk))
            | None => false
            end
    then reject_acc 100 INVALID "sidechain-sc-creation-invalid-wcsw-provingsystype"
    else if negb (MoneyRange (sc_forwardTransferScFee sc))
    then reject_acc 100 INVALID "bad-cert-ft-fee-out-of-range"
    else if negb (MoneyRange (sc_mainchainBackwardTransferRequestScFee sc))
    then reject_acc 100 INVALID "bad-cert-mbtr-fee-out-of-range"
    else if (sc_mainchainBackwardTransferRequestDataLength sc <? 0)
            || (MAX_SC_MBTR_DATA_LEN <? sc_mainchainBackwardTransferRequestDataLength sc)
    then reject_acc 100 INVALID "bad-cert-mbtr-data-length-out-of-range"
    else ret (Some cum).

Definition check_ft (cumulatedAmount : Z) (ft : CTxForwardTransferOut) : M VS (option Z) :=
  let '(ok, cum) := CheckAmountRange ft cumulatedAmount in
  if negb ok then reject_acc 100 INVALID "sidechain-sc-fwd-amount-outside-range"
  else ret (Some cum).

Definition check_mbtr (cumulatedAmount : Z) (bt : CBwtRequestOut) : M VS (option Z) :=
  let '(ok, cum) := CheckAmountRange bt cumulatedAmount in
  if negb ok then reject_acc 100 INVALID "sidechain-sc-fee-amount-outside-range"
  else if vsize (vScRequestData bt) =? 0
  then reject_acc 100 INVALID "sidechain-sc-bwt-invalid-request-data"
  else if MAX_SC_MBTR_DATA_LEN <? vsize (vScRequestData bt)
  then reject_acc 100 INVALID "sidechain-sc-bwt-invalid-request-data"
  else if negb (forallb FE_IsValid (vScRequestData bt))
  then reject_acc 100 INVALID "sidechain-sc-bwt-invalid-request-data"
  else ret (Some cum).

Definition check_csw (csw : CTxCeasedSidechainWithdrawalInput) : M VS bool :=
  if (csw_nValue csw =? 0) || negb (MoneyRange (csw_nValue csw))
  then reject 100 INVALID "sidechain-cswinput-value-not-valid"
  else if negb (FE_IsValid (csw_nullifier csw))
  then reject 100 INVALID "sidechain-cswinput-invalid-nullifier"
  else if negb (FE_IsValid (csw_actCertDataHash csw)) && negb (IsNull_obj (csw_actCertDataHash csw))
  then reject 100 INVALID "sidechain-cswinput-invalid-actCertDataHash"
  else if negb (FE_IsValid (csw_ceasingCumScTxCommTree csw))
  then reject 100 INVALID "sidechain-cswinput-invalid-ceasingCumScTxCommTree"
  else if negb (Proof_IsValid (csw_scProof csw))
  then reject 100 INVALID "sidechain-cswinput-invalid-proof"
  else ret true.

Definition checkTxSemanticValidity (tx : CTransaction) : M VS bool :=
  if negb (IsScVersion tx) then
    if negb (ccIsNull tx) then reject 100 INVALID "sidechain-tx-version" else ret true
  else if negb (is_empty (vjoinsplit tx)) then reject 100 INVALID "sidechain-tx-version"
  else
    let* r :=
      and_then (for_acc (vsc_ccout tx) 0 check_creation) (fun c1 =>
      and_then (for_acc (vft_ccout tx) c1 check_ft) (fun c2 =>
      for_acc (vmbtr_out tx) c2 check_mbtr)) in
    match r with
    | None => ret false
    | Some _ => for_each (vcsw_ccin tx) check_csw
    end.

Definition checkCertSemanticValidity (cert : CScCertificate) : M VS bool :=
  if quality cert <? 0 then reject 100 INVALID "bad-cert-quality-negative"
  else if epochNumber cert <? 0 then reject 100 INVALID "bad-cert-invalid-epoch-data"
  else if negb (FE_IsValid (endEpochCumScTxCommTreeRoot cert))
  then reject 100 INVALID "bad-cert-invalid-cum-comm-tree"
  else if negb (MoneyRange (forwardTransferScFee cert))
  then reject 100 INVALID "bad-cert-ft-fee-out-of-range"
  else if negb (MoneyRange (mainchainBackwardTransferRequestScFee cert))
  then reject 100 INVALID "bad-cert-mbtr-fee-out-of-range"
  else if negb (Proof_IsValid (cert_scProof cert)) then reject 100 INVALID "bad-cert-invalid-sc-proof"
  else ret true.

(** The fields remember their validation; the lists of fields are the state. *)
Fixpoint check_fields {Cfg} (valid : Cfg -> M (CustomCertificateField Cfg) bool)
    (fs : list (CustomCertificateField Cfg)) (cfgs : list Cfg)
  : res (bool * list (CustomCertificateField Cfg)) :=
  match fs, cfgs with
  | [], _ => Ok (true, [])
  | _ :: _, [] => Err out_of_bounds
  | f :: fs', c :: cfgs' =>
      res_bind (valid c f) (fun p =>
      if negb p.1 then Ok (false, p.2 :: fs')
      else res_bind (check_fields valid fs' cfgs') (fun q => Ok (q.1, p.2 :: q.2)))
  end.

Definition checkCertCustomFields (sidechain : CSidechain) (cert : CScCertificate) : res bool :=
  let fp := fixedParams sidechain in
  if negb (vsize (vFieldElementCertificateFieldConfig fp) =? vsize (vFieldElementCertificateField cert))
     || negb (vsize (vBitVectorCertificateFieldConfig fp) =? vsize (vBitVectorCertificateField cert))
  then Ok false
  else
    res_bind (check_fields (fun c => FE_Field_IsValid c (version fp))
                (vFieldElementCertificateField cert) (vFieldElementCertificateFieldConfig fp)) (fun p =>
    if negb p.1 then Ok false
    else
      res_bind (check_fields (fun c => BV_Field_IsValid c (version fp))
                  (vBitVectorCertificateField cert) (vBitVectorCertificateFieldConfig fp)) (fun q =>
      Ok q.1)).
End Validity.

(** [GetCeasingCumTreeHash]: [chainActive] gives the cumulative hash of the block at
    a height, when there is one. *)
Definition Sidechain_GetCeasingCumTreeHash (chainActive : Z -> option CFieldElement) (s : CSidechain)
  : option CFieldElement :=
  chainActive (GetScheduledCeasingHeight s).

(** ** The schedule: lemmas *)
Section Schedule.
  Context (s : CSidechain).
  Hypothesis Hconf : isCreationConfirmed s = true.
  Hypothesis Hlen : 2 <= epochLength s.

Lemma start_height e : GetStartHeightForEpoch s e = creationBlockHeight s + e * epochLength s.
  Proof using Hconf. unfold GetStartHeightForEpoch. by rewrite Hconf. Qed.

Lemma end_height e :
    GetEndHeightForEpoch s e = creationBlockHeight s + e * epochLength s + epochLength s - 1.
  Proof using Hconf. unfold GetEndHeightForEpoch. by rewrite start_height, Hconf. Qed.

Lemma window_start e :
    GetCertSubmissionWindowStart s e = creationBlockHeight s + (e + 1) * epochLength s.
  Proof using Hconf. unfold GetCertSubmissionWindowStart. by rewrite start_height, Hconf. Qed.

Lemma window_length : 2 <= GetCertSubmissionWindowLength s <= epochLength s.
  Proof using Hlen.
    unfold GetCertSubmissionWindowLength.
    pose proof (Z.quot_le_upper_bound (epochLength s) 5 (epochLength s) ltac:(lia) ltac:(lia)). lia.
  Qed.

Lemma window_end e :
    GetCertSubmissionWindowEnd s e
    = creationBlockHeight s + (e + 1) * epochLength s + GetCertSubmissionWindowLength s - 1.
  Proof using Hconf. unfold GetCertSubmissionWindowEnd. by rewrite window_start, Hconf. Qed.

Lemma maturity_height e : GetCertMaturityHeight s e = GetCertSubmissionWindowEnd s (e + 1).
  Proof using Hconf. unfold GetCertMaturityHeight. by rewrite Hconf. Qed.

Lemma epoch_for h : EpochFor s h = Z.quot (h - creationBlockHeight s) (epochLength s).
  Proof using Hconf. unfold EpochFor. by rewrite Hconf. Qed.

Lemma epoch_for_bounds h :
    creationBlockHeight s <= h ->
    0 <= EpochFor s h
    /\ creationBlockHeight s + EpochFor s h * epochLength s <= h
       < creationBlockHeight s + (EpochFor s h + 1) * epochLength s.
  Proof using Hconf Hlen.
    intros Hh. rewrite epoch_for.
    pose proof (Z.quot_rem' (h - creationBlockHeight s) (epochLength s)) as Hq.
    pose proof (Z.rem_bound_pos (h - creationBlockHeight s) (epochLength s) ltac:(lia) ltac:(lia)).
    pose proof (Z.quot_pos (h - creationBlockHeight s) (epochLength s) ltac:(lia) ltac:(lia)). nia.
  Qed.

Lemma epoch_for_unique h e :
    0 <= e -> creationBlockHeight s + e * epochLength s <= h
              < creationBlockHeight s + (e + 1) * epochLength s ->
    EpochFor s h = e.
  Proof using Hconf Hlen.
    intros He Hh. pose proof (epoch_for_bounds h ltac:(nia)). nia.
  Qed.
End Schedule.

(** C36: the withdrawal epochs of a confirmed sidechain partition the heights from
    its creation on: [EpochFor] gives the one epoch whose start and end heights
    enclose the height. *)
Theorem EpochFor_partition (s : CSidechain) (h : Z) :
  isCreationConfirmed s = true -> 2 <= epochLength s -> creationBlockHeight s <= h ->
  0 <= EpochFor s h
  /\ GetStartHeightForEpoch s (EpochFor s h) <= h <= GetEndHeightForEpoch s (EpochFor s h)
  /\ forall e, 0 <= e -> GetStartHeightForEpoch s e <= h <= GetEndHeightForEpoch s e ->
       e = EpochFor s h.
Proof.
  intros Hc Hl Hh. destruct (epoch_for_bounds s Hc Hl h Hh) as (H0 & H1).
  rewrite start_height, end_height by done. split_and!; [lia|lia|lia|].
  intros e He. rewrite start_height, end_height by done. intros He2.
  symmetry. apply epoch_for_unique; [done|done|done|lia].
Qed.

Definition sample_sc : CSidechain :=
  mkSidechain 400 7 CertView_null (mkCertView [] 10 20) 0 EPOCH_NULL QUALITY_NULL 0 1000
    (mkScFixedParameters 1 10 [] None (repeat 1 40) None [] [] 0) ∅ (-1) [].

Lemma EpochFor_partition_witness : EpochFor sample_sc 417 = 1 /\ 0 <= EpochFor sample_sc 417.
Proof.
  split; [reflexivity|]. apply (EpochFor_partition sample_sc 417); vm_compute; congruence.
Defined.

(** C37: the submission window of epoch [e] opens on the first block of epoch
    [e+1], is between 2 blocks and one epoch long, and closes within that epoch;
    so a height belongs to the window of at most one epoch, the one preceding its
    own. *)
Theorem submission_window (s : CSidechain) (e h : Z) :
  isCreationConfirmed s = true -> 2 <= epochLength s -> 0 <= e + 1 ->
  GetCertSubmissionWindowStart s e = GetEndHeightForEpoch s e + 1
  /\ GetCertSubmissionWindowStart s e + 1 <= GetCertSubmissionWindowEnd s e
     <= GetEndHeightForEpoch s (e + 1)
  /\ (GetCertSubmissionWindowStart s e <= h <= GetCertSubmissionWindowEnd s e ->
      EpochFor s h = e + 1).
Proof.
  intros Hc Hl He. pose proof (window_length s Hl).
  rewrite window_start, window_end, !end_height by done. split_and!; [lia|lia|nia|].
  intros Hh. apply epoch_for_unique; [done|done|done|nia].
Qed.

Lemma submission_window_witness :
  GetCertSubmissionWindowStart sample_sc 0 = 410 /\ GetCertSubmissionWindowEnd sample_sc 0 = 411
  /\ EpochFor sample_sc 411 = 1.
Proof.
  split; [reflexivity|]. split; [reflexivity|].
  apply (submission_window sample_sc 0 411); vm_compute; congruence || (split; congruence).
Defined.

(** With the epoch lengths the network accepts, none of the schedule's [int]
    computations overflows for epochs up to the one after the current height. *)
Theorem schedule_no_overflow (s : CSidechain) (h e : Z) :
  isCreationConfirmed s = true -> 2 <= epochLength s <= 4032 ->
  0 <= creationBlockHeight s <= h -> h < 2 ^ 31 - 4 * 4032 -> -1 <= e <= EpochFor s h ->
  is_i32 (GetStartHeightForEpoch s e) /\ is_i32 (GetEndHeightForEpoch s e)
  /\ is_i32 (GetCertSubmissionWindowStart s e) /\ is_i32 (GetCertSubmissionWindowEnd s e)
  /\ is_i32 (GetCertMaturityHeight s e) /\ is_i32 (e * epochLength s).
Proof.
  intros Hc Hl Hh Hb He. pose proof (window_length s ltac:(lia)).
  pose proof (epoch_for_bounds s Hc ltac:(lia) h ltac:(lia)).
  rewrite maturity_height, !window_end, window_start, end_height, start_height by done.
  unfold is_i32. nia.
Qed.

Lemma schedule_no_overflow_witness : is_i32 (GetCertMaturityHeight sample_sc 1).
Proof.
  apply (schedule_no_overflow sample_sc 417 1); vm_compute; congruence || (split; congruence).
Defined.

(** ** Sidechain fees: lemmas *)
Lemma pop_front_n_drop n l : pop_front_n n l = drop n l.
Proof. revert l. induction n as [|n IH]; intros [|x l]; simpl; auto. Qed.

Definition fee_of (v : CScCertificateView) : ScFeeData :=
  mkScFeeData (cv_forwardTransferScFee v) (cv_mainchainBackwardTransferRequestScFee v).

(** the last [n] elements *)
Definition lastn {A} (n : nat) (l : list A) : list A := drop (length l - n) l.

Lemma UpdateScFees_lastn v s :
  0 < maxSizeOfScFeesContainers s ->
  UpdateScFees v s
  = Ok (set_fees (maxSizeOfScFeesContainers s)
          (lastn (Z.to_nat (maxSizeOfScFeesContainers s)) (scFees s ++ [fee_of v])) s).
Proof.
  intros Hm. unfold UpdateScFees, lastn. rewrite (proj2 (Z.ltb_lt _ _)) by done. cbn [negb].
  do 2 f_equal. unfold fee_of, vsize. case_match; zbool.
  - rewrite pop_front_n_drop. f_equal. lia.
  - symmetry. replace (length _ - _)%nat with 0%nat by lia. done.
Qed.

Lemma lastn_app_lastn {A} n (l1 l2 : list A) :
  lastn n (lastn n l1 ++ l2) = lastn n (l1 ++ l2).
Proof.
  unfold lastn. rewrite !length_app, length_drop. set (k := (length l1 - n)%nat).
  assert (Hr : drop (length l1 + length l2 - n) (l1 ++ l2)
    = drop (length l1 + length l2 - n - k) (drop k (l1 ++ l2))) by (rewrite drop_drop; f_equal; lia).
  rewrite Hr, (drop_app_le l1 l2) by lia. f_equal. lia.
Qed.

(** Certificates accepted one after the other. *)
Fixpoint apply_fee_updates (vs : list CScCertificateView) (s : CSidechain) : res CSidechain :=
  match vs with
  | [] => Ok s
  | v :: vs' => res_bind (UpdateScFees v s) (apply_fee_updates vs')
  end.

Lemma apply_fee_updates_lastn vs s hist :
  0 < maxSizeOfScFeesContainers s ->
  scFees s = lastn (Z.to_nat (maxSizeOfScFeesContainers s)) hist ->
  exists s', apply_fee_updates vs s = Ok s'
  /\ maxSizeOfScFeesContainers s' = maxSizeOfScFeesContainers s
  /\ scFees s' = lastn (Z.to_nat (maxSizeOfScFeesContainers s)) (hist ++ map fee_of vs).
Proof.
  revert s hist. induction vs as [|v vs IH]; intros s hist Hm Hf; simpl.
  { exists s. by rewrite app_nil_r. }
  rewrite UpdateScFees_lastn by done. cbn [res_bind].
  edestruct (IH (set_fees (maxSizeOfScFeesContainers s)
    (lastn (Z.to_nat (maxSizeOfScFeesContainers s)) (scFees s ++ [fee_of v])) s)
    (hist ++ [fee_of v])) as (s' & -> & Hm' & Hf'); [done| |].
  { simpl. by rewrite Hf, lastn_app_lastn. }
  exists s'. split_and!; [done|done|]. simpl in Hf'. by rewrite Hf', <- app_assoc.
Qed.

Lemma max_fees_positive `{NodeConfig} s :
  0 < epochLength s -> 0 <= nScNumBlocksForScFeeCheck Params ->
  exists mx, getMaxSizeOfScFeesContainers s = Ok mx /\ 0 < mx.
Proof.
  intros Hl Hn. assert (Hnb : 0 <= getNumBlocksForScFeeCheck).
  { unfold getNumBlocksForScFeeCheck. repeat case_match; zbool; lia. }
  unfold getMaxSizeOfScFeesContainers. rewrite (proj2 (Z.ltb_lt _ _)) by done. cbn [negb].
  eexists. split; [done|].
  assert (0 <= Z.quot getNumBlocksForScFeeCheck (epochLength s)) by (apply Z.quot_pos; assumption).
  destruct (Z.eqb_spec (Z.quot getNumBlocksForScFeeCheck (epochLength s)) 0); simpl; [lia|].
  case_match; lia.
Qed.

(** The fee buffer is a window on the history of fees.  After the sidechain's
    creation and any number of top-quality certificates, the buffer holds exactly
    the last [n] of the fees set so far, where [n] is the configured size; no
    assert fails on the way. *)
Theorem fee_buffer_window `{NodeConfig} (s : CSidechain) (vs : list CScCertificateView) :
  0 < epochLength s -> 0 <= nScNumBlocksForScFeeCheck Params ->
  maxSizeOfScFeesContainers s = -1 -> scFees s = [] ->
  exists mx s', getMaxSizeOfScFeesContainers s = Ok mx /\ 0 < mx
  /\ res_bind (InitScFees s) (apply_fee_updates vs) = Ok s'
  /\ scFees s' = lastn (Z.to_nat mx) (fee_of (lastTopQualityCertView s) :: map fee_of vs).
Proof.
  intros Hl Hn Hm Hf. destruct (max_fees_positive s Hl Hn) as (mx & Hmx & Hpos).
  exists mx. unfold InitScFees. rewrite Hm, Hmx, Hf. cbn.
  destruct (apply_fee_updates_lastn vs
    (set_fees mx [fee_of (lastTopQualityCertView s)] s) [fee_of (lastTopQualityCertView s)])
    as (s' & Hs' & _ & Hf'); [done| |].
  { simpl. unfold lastn. replace (length _ - _)%nat with 0%nat by (simpl; lia). done. }
  exists s'. split_and!; done.
Qed.

#[local] Instance regtest_config : NodeConfig := {|
  Params := CRegTestParams; arg_blocksforscfeecheck := None; arg_sccoinsmaturity := None |}.

Lemma fee_buffer_window_witness :
  exists mx s', getMaxSizeOfScFeesContainers sample_sc = Ok mx /\ 0 < mx
  /\ res_bind (InitScFees sample_sc) (apply_fee_updates [mkCertView [] 5 6; mkCertView [] 7 8]) = Ok s'
  /\ scFees s' = [mkScFeeData 7 8].
Proof.
  destruct (fee_buffer_window sample_sc [mkCertView [] 5 6; mkCertView [] 7 8])
    as (mx & s' & H1 & H2 & H3 & H4); [reflexivity|vm_compute; congruence|reflexivity|reflexivity|].
  exists mx, s'. split_and!; [done|done|done|].
  vm_compute in H1. injection H1 as <-. rewrite H4. reflexivity.
Defined.

Lemma min_element_spec f best l :
  min_element f best l ∈ best :: l
  /\ forall x, x ∈ best :: l -> f (min_element f best l) <= f x.
Proof.
  revert best. induction l as [|y l IH]; intros best; simpl.
  { split; [set_solver|]. intros x Hx. assert (x = best) as -> by set_solver. lia. }
  destruct (IH (if f y <? f best then y else best)) as [Hin Hmin]. split.
  - destruct (f y <? f best); set_solver.
  - intros x Hx. pose proof (Hmin (if f y <? f best then y else best) ltac:(set_solver)).
    apply elem_of_cons in Hx as [->|[->|Hx]%elem_of_cons].
    + destruct (Z.ltb_spec (f y) (f best)); lia.
    + destruct (Z.ltb_spec (f y) (f best)); lia.
    + apply Hmin. set_solver.
Qed.

(** [GetMinFtScFee] and [GetMinMbtrScFee] return the least fee of the buffer
    and fail their assert exactly when the buffer is empty. *)
Theorem min_fees_exact (s : CSidechain) :
  (scFees s = [] <-> GetMinFtScFee s = Err AssertFailed)
  /\ (scFees s = [] <-> GetMinMbtrScFee s = Err AssertFailed)
  /\ (forall m, GetMinFtScFee s = Ok m ->
        m ∈ map forwardTxScFee (scFees s) /\ forall f, f ∈ scFees s -> m <= forwardTxScFee f)
  /\ (forall m, GetMinMbtrScFee s = Ok m ->
        m ∈ map mbtrTxScFee (scFees s) /\ forall f, f ∈ scFees s -> m <= mbtrTxScFee f).
Proof.
  unfold GetMinFtScFee, GetMinMbtrScFee. destruct (scFees s) as [|x l]; [by split_and!|].
  split_and!; [done|done| |]; intros m [= <-].
  - destruct (min_element_spec forwardTxScFee x l) as [Hin Hmin].
    split; [|done]. by apply (list_elem_of_fmap_2 forwardTxScFee).
  - destruct (min_element_spec mbtrTxScFee x l) as [Hin Hmin].
    split; [|done]. by apply (list_elem_of_fmap_2 mbtrTxScFee).
Qed.
