(* ===== verification/Coins.v ===== *)
(** * Unspent outputs of one transaction or certificate

    The class [CCoins] of [coins.h] and [coins.cpp]. *)

From stdpp Require Import base numbers list strings option.
From Stdlib Require Import ZArith Lia.
From S2P Require Import Prelude.
From S2P Require Import Amount.
From S2P Require Import Serialize.
From S2P Require Import ScTypes.
From S2P Require Import Primitives.
Open Scope Z_scope.
Open Scope zen_scope.

Definition BWT_POS_UNSET : Z := -1.

Definition COINBASE_MATURITY : Z := 100.

Record CCoins := mkCoins {
  fCoinBase : bool;
  vout : list CTxOut;
  nHeight : Z;
  nVersion : Z;
  coins_nFirstBwtPos : Z;
  nBwtMaturityHeight : Z }.

#[export] Instance CCoins_eq_dec : EqDecision CCoins.
Proof. solve_decision. Defined.

Definition set_vout (v : list CTxOut) (c : CCoins) : CCoins :=
  mkCoins (fCoinBase c) v (nHeight c) (nVersion c) (coins_nFirstBwtPos c) (nBwtMaturityHeight c).

(** [CCoins()] and [Clear] *)
Definition Coins_Clear : CCoins := mkCoins false [] 0 0 BWT_POS_UNSET 0.

(** pops the null outputs at the end *)
Fixpoint pop_null_back (l : list CTxOut) : list CTxOut :=
  match l with
  | [] => []
  | o :: l' =>
      match pop_null_back l' with
      | [] => if TxOut_IsNull o then [] else [o]
      | r => o :: r
      end
  end.

Definition Cleanup (c : CCoins) : CCoins := set_vout (pop_null_back (vout c)) c.

Definition ClearUnspendable (c : CCoins) : CCoins :=
  Cleanup (set_vout
    (map (fun o => if IsUnspendable (scriptPubKey o) then TxOut_SetNull else o) (vout c)) c).

Definition IsAvailable (c : CCoins) (nPos : Z) : bool :=
  match vout c !! Z.to_nat nPos with Some o => negb (TxOut_IsNull o) | None => false end.

Definition IsPruned (c : CCoins) : bool := forallb TxOut_IsNull (vout c).

Definition Spend (nPos : Z) (c : CCoins) : bool * CCoins :=
  match vout c !! Z.to_nat nPos with
  | None => (false, c)
  | Some o =>
      if TxOut_IsNull o then (false, c)
      else (true, Cleanup (set_vout (<[Z.to_nat nPos := TxOut_SetNull]> (vout c)) c))
  end.

Definition Coins_From_tx (tx : CTransaction) (nHeightIn : Z) : CCoins :=
  ClearUnspendable (mkCoins (IsCoinBase tx) (tx_vout tx) nHeightIn (tx_nVersion tx) BWT_POS_UNSET 0).

(** [for (bwtPos = nFirstBwtPos; bwtPos < vout.size(); ++bwtPos) Spend(bwtPos)]; the
    vector only shrinks, so its initial length is enough fuel. *)
Fixpoint spend_bwts (fuel : nat) (bwtPos : Z) (c : CCoins) : CCoins :=
  match fuel with
  | O => c
  | S f =>
      if bwtPos <? vsize (vout c) then spend_bwts f (bwtPos + 1) (Spend bwtPos c).2 else c
  end.

Definition Coins_From_cert (cert : CScCertificate) (nHeightIn bwtMaturityHeight : Z)
    (isBlockTopQualityCert : bool) : CCoins :=
  let c0 := mkCoins false (cert_vout cert) nHeightIn (cert_nVersion cert)
              (nFirstBwtPos cert) bwtMaturityHeight in
  let c1 := if negb isBlockTopQualityCert
            then spend_bwts (length (vout c0)) (to_u32 (coins_nFirstBwtPos c0)) c0
            else c0 in
  ClearUnspendable c1.

(** [operator==]: empty objects are always equal *)
Definition Coins_eqb (a b : CCoins) : bool :=
  (IsPruned a && IsPruned b) || bool_decide (a = b).

Definition IsFromCert (c : CCoins) : bool :=
  Z.land (nVersion c) 0x7f =? Z.land SC_CERT_VERSION 0x7f.

Definition isOutputMature (c : CCoins) (outPos nSpendingHeigh : Z) : bool :=
  if negb (fCoinBase c) && negb (IsFromCert c) then true
  else if fCoinBase c then nHeight c + COINBASE_MATURITY <=? nSpendingHeigh
  else if to_u32 (coins_nFirstBwtPos c) <=? outPos then nBwtMaturityHeight c <=? nSpendingHeigh
  else true.

(** ** What a set of coins offers: the unspent output at each position *)
Definition avail_at (l : list CTxOut) (i : nat) : option CTxOut :=
  match l !! i with
  | Some o => if TxOut_IsNull o then None else Some o
  | None => None
  end.

(** No null output at the end; and spent outputs are all the same null output. *)
Definition clean (l : list CTxOut) : Prop := pop_null_back l = l.

Definition canon (l : list CTxOut) : Prop :=
  forall i o, l !! i = Some o -> TxOut_IsNull o = true -> o = TxOut_SetNull.

Lemma avail_at_cons o l i :
  avail_at (o :: l) i = match i with
                        | O => if TxOut_IsNull o then None else Some o
                        | S i' => avail_at l i'
                        end.
Proof. destruct i; done. Qed.

Lemma avail_at_nil i : avail_at [] i = None.
Proof. done. Qed.

Lemma avail_pop_null_back l i : avail_at (pop_null_back l) i = avail_at l i.
Proof.
  revert i. induction l as [|o l IH]; intros i; [done|]. cbn [pop_null_back].
  assert (Hl : forall j, avail_at (match pop_null_back l with [] => [] | r => r end) j = avail_at l j).
  { intros j. destruct (pop_null_back l) eqn:E; [|by rewrite <- IH]. by rewrite <- IH. }
  destruct (pop_null_back l) as [|o' l'] eqn:E.
  - destruct (TxOut_IsNull o) eqn:Ho; rewrite !avail_at_cons, ?Ho; destruct i; rewrite <- ?Hl;
      rewrite ?avail_at_nil, ?avail_at_cons, ?Ho; try done; by rewrite <- Hl.
  - rewrite !avail_at_cons. destruct i; [done|apply Hl].
Qed.

Lemma pop_null_back_idem l : clean (pop_null_back l).
Proof.
  unfold clean. induction l as [|o l IH]; [done|]. cbn [pop_null_back].
  destruct (pop_null_back l) as [|o' l'] eqn:E.
  - destruct (TxOut_IsNull o) eqn:Ho; [done|]. simpl. by rewrite Ho.
  - cbn [pop_null_back] in IH |- *. by rewrite IH.
Qed.

Lemma clean_cons o l : clean (o :: l) -> clean l.
Proof.
  unfold clean. cbn [pop_null_back]. destruct (pop_null_back l) eqn:E; [|congruence].
  destruct (TxOut_IsNull o); congruence.
Qed.

Lemma clean_none l : clean l -> (forall i, avail_at l i = None) -> l = [].
Proof.
  induction l as [|o l IH]; intros Hc Hn; [done|]. exfalso.
  assert (l = []) as ->.
  { apply IH; [by eapply clean_cons|]. intros i. by specialize (Hn (S i)). }
  specialize (Hn O). rewrite avail_at_cons in Hn. unfold clean in Hc. simpl in Hc.
  destruct (TxOut_IsNull o); congruence.
Qed.

Lemma canon_cons o l : canon (o :: l) -> canon l.
Proof. intros H i o' Hi. by apply (H (S i)). Qed.

(** Clean and canonical vectors are determined by what they offer. *)
Lemma avail_ext l1 l2 :
  clean l1 -> clean l2 -> canon l1 -> canon l2 ->
  (forall i, avail_at l1 i = avail_at l2 i) -> l1 = l2.
Proof.
  revert l2. induction l1 as [|o1 l1 IH]; intros [|o2 l2] C1 C2 N1 N2 H; [done| | |].
  - symmetry. apply clean_none; [done|]. intros i. by rewrite <- H.
  - apply clean_none; [done|]. intros i. by rewrite H.
  - f_equal.
    + specialize (H O). rewrite !avail_at_cons in H.
      destruct (TxOut_IsNull o1) eqn:E1, (TxOut_IsNull o2) eqn:E2; try congruence.
      by rewrite (N1 O o1 eq_refl E1), (N2 O o2 eq_refl E2).
    + apply IH; eauto using clean_cons, canon_cons. intros i. by specialize (H (S i)).
Qed.

Lemma pop_null_back_prefix l : exists n, pop_null_back l = take n l.
Proof.
  induction l as [|o l [n IH]]; [by exists O|]. cbn [pop_null_back].
  destruct (pop_null_back l) eqn:E.
  - destruct (TxOut_IsNull o); [by exists O|by exists 1%nat; rewrite take_0 || simpl].
  - exists (S n). simpl. by rewrite <- IH.
Qed.

Lemma canon_pop l : canon l -> canon (pop_null_back l).
Proof.
  intros H i o Hi. destruct (pop_null_back_prefix l) as [n Hn]. rewrite Hn in Hi.
  apply lookup_take_Some in Hi as [Hi _]. by apply (H i).
Qed.

Lemma avail_insert l i o j :
  (i < length l)%nat ->
  avail_at (<[i := o]> l) j
  = if decide (i = j) then (if TxOut_IsNull o then None else Some o) else avail_at l j.
Proof.
  intros Hi. unfold avail_at. case_decide as E; [subst j|].
  - by rewrite list_lookup_insert_eq.
  - by rewrite list_lookup_insert_ne.
Qed.

Lemma canon_insert_null l i : canon l -> canon (<[i := TxOut_SetNull]> l).
Proof.
  intros H j o Hj Ho. apply list_lookup_insert_Some in Hj as [(-> & <- & _)|[_ Hj]]; [done|].
  by apply (H j).
Qed.

Definition coins_wf (c : CCoins) : Prop := clean (vout c) /\ canon (vout c).

Lemma IsPruned_avail c : IsPruned c = true <-> forall i, avail_at (vout c) i = None.
Proof.
  unfold IsPruned. rewrite forallb_forall. split.
  - intros H i. unfold avail_at. destruct (vout c !! i) as [o|] eqn:E; [|done].
    rewrite H; [done|]. apply list_elem_of_In. by eapply list_elem_of_lookup_2.
  - intros H o Ho%list_elem_of_In. apply list_elem_of_lookup in Ho as [i Hi].
    specialize (H i). unfold avail_at in H. rewrite Hi in H. by destruct (TxOut_IsNull o).
Qed.

Lemma IsPruned_clean c : clean (vout c) -> IsPruned c = true <-> vout c = [].
Proof.
  intros Hc. rewrite IsPruned_avail. split; [by apply clean_none|].
  intros -> i. apply avail_at_nil.
Qed.

Lemma Spend_cases nPos c :
  0 <= nPos ->
  match avail_at (vout c) (Z.to_nat nPos) with
  | None => Spend nPos c = (false, c)
  | Some _ =>
      Spend nPos c = (true, Cleanup (set_vout (<[Z.to_nat nPos := TxOut_SetNull]> (vout c)) c))
      /\ (Z.to_nat nPos < length (vout c))%nat
  end.
Proof.
  intros Hp. unfold avail_at, Spend. destruct (vout c !! Z.to_nat nPos) as [o|] eqn:E; [|done].
  destruct (TxOut_IsNull o); [done|]. split; [done|]. by eapply lookup_lt_Some.
Qed.

Lemma Spend_avail nPos c i :
  0 <= nPos ->
  avail_at (vout (Spend nPos c).2) i
  = if decide (i = Z.to_nat nPos) then None else avail_at (vout c) i.
Proof.
  intros Hp. pose proof (Spend_cases nPos c Hp) as H.
  destruct (avail_at (vout c) (Z.to_nat nPos)) as [o|] eqn:E.
  - destruct H as [-> Hlt]. simpl. rewrite avail_pop_null_back, avail_insert by done.
    repeat case_decide; try done; congruence.
  - rewrite H. simpl. case_decide; congruence.
Qed.

Lemma Spend_wf nPos c : 0 <= nPos -> coins_wf c -> coins_wf (Spend nPos c).2.
Proof.
  intros Hp [Hc Hn]. pose proof (Spend_cases nPos c Hp) as H.
  destruct (avail_at (vout c) (Z.to_nat nPos)); [destruct H as [-> _]|by rewrite H].
  split; [apply pop_null_back_idem|]. by apply canon_pop, canon_insert_null.
Qed.

(** C39: [CCoins::Spend] takes exactly one output.  It succeeds when, and only
    when, the output is available; afterwards that output is gone, every other
    one is offered as before, the metadata is untouched and no null output is
    left at the end of [vout]. *)
Theorem Spend_exact (c : CCoins) (nPos : Z) :
  0 <= nPos -> coins_wf c ->
  let '(ok, c') := Spend nPos c in
  ok = IsAvailable c nPos
  /\ (forall i, avail_at (vout c') i = if decide (i = Z.to_nat nPos) then None else avail_at (vout c) i)
  /\ coins_wf c' /\ set_vout (vout c) c' = c
  /\ (IsPruned c' = true <-> vout c' = []).
Proof.
  intros Hp Hwf. pose proof (Spend_avail nPos c) as Ha. pose proof (Spend_wf nPos c Hp Hwf) as Hw.
  assert (Hm : set_vout (vout c) (Spend nPos c).2 = c /\ (Spend nPos c).1 = IsAvailable c nPos).
  { unfold Spend, IsAvailable. destruct (vout c !! Z.to_nat nPos) as [o|]; [|by destruct c].
    destruct (TxOut_IsNull o); by destruct c. }
  destruct Hm as [Hm1 Hm2]. destruct (Spend nPos c) as [ok c'] eqn:E. simpl in *.
  split; [done|]. split; [by intros; apply Ha|]. split; [done|]. split; [done|].
  apply IsPruned_clean, Hw.
Qed.

Definition sample_coins : CCoins :=
  mkCoins false [mkTxOut 5 [1]; mkTxOut 7 [2]] 100 1 BWT_POS_UNSET 0.

Lemma Spend_exact_witness :
  (Spend 1 sample_coins).1 = true /\ vout (Spend 1 sample_coins).2 = [mkTxOut 5 [1]].
Proof.
  assert (Hwf : coins_wf sample_coins).
  { split; [reflexivity|]. intros [|[|[]]] o Ho; simpl in Ho; simplify_eq; done. }
  pose proof (Spend_exact sample_coins 1 ltac:(lia) Hwf) as H.
  destruct (Spend 1 sample_coins) as [ok c'] eqn:E. destruct H as (H & _). simpl.
  split; [by rewrite H|]. vm_compute in E. by injection E as _ <-.
Defined.

Lemma spend_bwts_avail fuel pos c i :
  0 <= pos -> (length (vout c) <= Z.to_nat pos + fuel)%nat ->
  avail_at (vout (spend_bwts fuel pos c)) i
  = if (i <? Z.to_nat pos)%nat then avail_at (vout c) i else None.
Proof.
  assert (Hout : forall l (p : nat), (length l <= p)%nat ->
    avail_at l i = if (i <? p)%nat then avail_at l i else None).
  { intros l p Hl. destruct (Nat.ltb_spec i p); [done|]. unfold avail_at.
    by rewrite lookup_ge_None_2 by lia. }
  revert pos c. induction fuel as [|f IH]; intros pos c Hp Hl; cbn [spend_bwts].
  { apply Hout. lia. }
  destruct (Z.ltb_spec pos (vsize (vout c))) as [Hlt|Hge]; [|apply Hout; unfold vsize in *; lia].
  rewrite IH; [|lia|].
  - rewrite Spend_avail by lia. replace (Z.to_nat (pos + 1)) with (S (Z.to_nat pos)) by lia.
    destruct (Nat.ltb_spec i (S (Z.to_nat pos))), (Nat.ltb_spec i (Z.to_nat pos));
      repeat case_decide; try done; lia.
  - assert (length (vout (Spend pos c).2) <= length (vout c))%nat; [|lia].
    unfold Spend. destruct (vout c !! _) as [o|]; [|done]. destruct (TxOut_IsNull o); [done|].
    simpl. destruct (pop_null_back_prefix (<[Z.to_nat pos:=TxOut_SetNull]> (vout c))) as [n ->].
    rewrite length_take, length_insert. lia.
Qed.

(** an output as the UTXO set keeps it *)
Definition spendable (o : option CTxOut) : option CTxOut :=
  match o with
  | Some o => if IsUnspendable (scriptPubKey o) then None else Some o
  | None => None
  end.

Lemma ClearUnspendable_avail c i :
  avail_at (vout (ClearUnspendable c)) i = spendable (avail_at (vout c) i).
Proof.
  unfold ClearUnspendable, Cleanup. cbn [vout set_vout]. rewrite avail_pop_null_back.
  unfold avail_at.
  change (map ?f ?l) with (f <$> l). rewrite list_lookup_fmap.
  destruct (vout c !! i) as [o|]; [|done]. simpl.
  destruct (IsUnspendable (scriptPubKey o)) eqn:E; simpl; destruct (TxOut_IsNull o); simpl; rewrite ?E; done.
Qed.

(** The coins of a certificate.  Only a top-quality certificate creates
    outputs for its backward transfers; the coins of a superseded one offer its
    change outputs and nothing else.  Unspendable outputs are dropped in both
    cases. *)
Theorem Coins_From_cert_exact (cert : CScCertificate) (h m : Z) (top : bool) (i : nat) :
  cert_wf cert ->
  avail_at (vout (Coins_From_cert cert h m top)) i
  = if top || (i <? Z.to_nat (nFirstBwtPos cert))%nat
    then spendable (avail_at (cert_vout cert) i) else None.
Proof.
  intros [Hf Hs]. unfold Coins_From_cert. rewrite ClearUnspendable_avail.
  destruct top; simpl; [done|]. unfold to_u32. rewrite Z.mod_small by lia.
  rewrite spend_bwts_avail by (simpl; lia). simpl. by destruct (i <? _)%nat.
Qed.

Lemma Coins_From_cert_exact_witness :
  cert_wf sample_cert
  /\ vout (Coins_From_cert sample_cert 500 520 false) = [mkTxOut 100 [0x51]]
  /\ avail_at (vout (Coins_From_cert sample_cert 500 520 false)) 1 = None.
Proof.
  assert (Hwf : cert_wf sample_cert) by (unfold cert_wf, vsize; simpl; lia).
  split; [exact Hwf|]. split; [reflexivity|].
  rewrite (Coins_From_cert_exact sample_cert 500 520 false 1 Hwf). reflexivity.
Defined.
