(* ===== verification/CoinsSer.v ===== *)
(** * The stored form of unspent outputs

    [CCoins::CalcMaskSize], [Serialize], [Unserialize] and [GetSerializeSize] of
    [coins.h] and [coins.cpp]. *)

From stdpp Require Import base numbers list strings option.
From Stdlib Require Import ZArith Lia.
From S2P Require Import Prelude.
From S2P Require Import Amount.
From S2P Require Import Serialize.
From S2P Require Import ScTypes.
From S2P Require Import Primitives.
From S2P Require Import Compress.
From S2P Require Import Coins.
Open Scope Z_scope.
Open Scope zen_scope.

(** [i < vout.size() && !vout[i].IsNull()] *)
Definition availb (l : list CTxOut) (i : nat) : bool :=
  match l !! i with Some o => negb (TxOut_IsNull o) | None => false end.

(** the 8 outputs of byte [b] of the mask *)
Definition block (l : list CTxOut) (b : nat) : list bool :=
  map (fun i => availb l (2 + b * 8 + i)) (seq 0 8).

(** [chAvail |= (1 << i)] *)
Definition byte_of_bits (bs : list bool) : Z :=
  foldl (fun acc '(i, f) => if f : bool then Z.lor acc (Z.shiftl 1 (Z.of_nat i)) else acc) 0
    (imap pair bs).

Definition chAvail (l : list CTxOut) (b : nat) : Z := byte_of_bits (block l b).

(** the loop runs for the [b] with [2+b*8 < vout.size()] *)
Definition mask_blocks (l : list CTxOut) : nat := ((length l + 5) / 8)%nat.

Definition mask_step (l : list CTxOut) (acc : nat * nat) (b : nat) : nat * nat :=
  let '(nLastUsedByte, nNonzeroBytes) := acc in
  let fZero := forallb negb (block l b) in
  if negb fZero then (S b, S nNonzeroBytes) else acc.

(** [nBytes] and [nNonzeroBytes] *)
Definition CalcMaskSize (l : list CTxOut) : nat * nat :=
  foldl (mask_step l) (0%nat, 0%nat) (seq 0 (mask_blocks l)).

Section Ser.
  Context `{Secp256k1}.

(** the header code *)
Definition coins_nCode (c : CCoins) : res Z :=
  let '(nMaskSize, nMaskCode) := CalcMaskSize (vout c) in
  let fFirst := availb (vout c) 0 in
  let fSecond := availb (vout c) 1 in
  if negb (fFirst || fSecond || negb (nMaskCode =? 0)%nat) then Err AssertFailed
  else Ok (to_u32 (8 * (Z.of_nat nMaskCode - (if fFirst || fSecond then 0 else 1))
           + (if fCoinBase c then 1 else 0) + (if fFirst then 2 else 0) + (if fSecond then 4 else 0))).

Definition unspent (l : list CTxOut) : list CTxOut := List.filter (fun o => negb (TxOut_IsNull o)) l.

Definition Coins_Serialize (c : CCoins) : res bytes :=
  res_bind (coins_nCode c) (fun nCode =>
  Ok (WriteVarInt (nVersion c) ++ WriteVarInt nCode
      ++ map (chAvail (vout c)) (seq 0 (CalcMaskSize (vout c)).1)
      ++ concat (map (ser s_txout) (unspent (vout c)))
      ++ WriteVarInt (nHeight c)
      ++ (if IsFromCert c
          then ser_writedata32 (coins_nFirstBwtPos c) ++ ser_writedata32 (nBwtMaturityHeight c)
          else []))).

Definition Coins_GetSerializeSize (c : CCoins) : res Z :=
  res_bind (coins_nCode c) (fun nCode =>
  Ok (GetSizeOfVarInt (nVersion c) + GetSizeOfVarInt nCode
      + Z.of_nat (CalcMaskSize (vout c)).1
      + foldr Z.add 0 (map (ser_size s_txout) (unspent (vout c)))
      + GetSizeOfVarInt (nHeight c)
      + (if IsFromCert c then 4 + 4 else 0))).

Definition bits_of_byte (ch : Z) : list bool :=
  map (fun p => negb (Z.land ch (Z.shiftl 1 (Z.of_nat p)) =? 0)) (seq 0 8).

(** [while (nMaskCode > 0)]: every iteration consumes a byte *)
Fixpoint read_mask (nMaskCode : Z) (s : bytes) : res (list bool * bytes) :=
  if 0 <? nMaskCode then
    match s with
    | [] => Err end_of_data
    | ch :: s' =>
        res_bind (read_mask (if negb (ch =? 0) then nMaskCode - 1 else nMaskCode) s') (fun p =>
        Ok (bits_of_byte ch ++ p.1, p.2))
    end
  else Ok ([], s).

Fixpoint read_txouts (vAvail : list bool) : Reader (list CTxOut) :=
  match vAvail with
  | [] => ret []
  | f :: l =>
      let* o := (if f : bool then unser s_txout else ret TxOut_SetNull) in
      let* os := read_txouts l in ret (o :: os)
  end.

(** into a default-constructed object; outside certificates [nBwtMaturityHeight]
    keeps the value the object had *)
Definition Coins_Unserialize (before : CCoins) : Reader CCoins :=
  let* nVersion := ReadVarInt to_i32 in
  let* nCode := ReadVarInt to_u32 in
  let nMaskCode := nCode / 8 + (if negb (Z.land nCode 6 =? 0) then 0 else 1) in
  let* mask := read_mask nMaskCode in
  let* vout := read_txouts (negb (Z.land nCode 2 =? 0) :: negb (Z.land nCode 4 =? 0) :: mask) in
  let* nHeight := ReadVarInt to_i32 in
  let c := mkCoins (negb (Z.land nCode 1 =? 0)) vout nHeight nVersion BWT_POS_UNSET
             (nBwtMaturityHeight before) in
  if IsFromCert c then
    let* first := unser s_i32 in
    let* mat := unser s_i32 in
    ret (Cleanup (mkCoins (fCoinBase c) vout nHeight nVersion first mat))
  else ret (Cleanup c).
End Ser.

(** ** The availability mask: lemmas *)
#[local] Arguments block : simpl never.

Lemma bits_byte_roundtrip bs : length bs = 8%nat -> bits_of_byte (byte_of_bits bs) = bs.
Proof.
  intros Hl. do 8 (destruct bs as [|[] bs]; [done| |]); destruct bs; try done.
Qed.

Lemma byte_zero bs : length bs = 8%nat -> (byte_of_bits bs =? 0) = forallb negb bs.
Proof.
  intros Hl. do 8 (destruct bs as [|[] bs]; [done| |]); destruct bs; try done.
Qed.

Lemma length_block l b : length (block l b) = 8%nat.
Proof. done. Qed.

(** What [CalcMaskSize] computes over the first [k] bytes. *)
Lemma mask_fold l k :
  let '(last, cnt) := foldl (mask_step l) (0%nat, 0%nat) (seq 0 k) in
  (last <= k)%nat
  /\ (forall b, (last <= b < k)%nat -> forallb negb (block l b) = true)
  /\ (match last with O => True | S b => forallb negb (block l b) = false end)
  /\ cnt = length (List.filter (fun b => negb (forallb negb (block l b))) (seq 0 last)).
Proof.
  induction k as [|k IH]; [simpl; split_and!; [lia|lia|done|done]|].
  rewrite seq_S, foldl_snoc. simpl Nat.add.
  destruct (foldl (mask_step l) _ (seq 0 k)) as [last cnt]. destruct IH as (H1 & H2 & H3 & H4).
  unfold mask_step. destruct (forallb negb (block l k)) eqn:E; cbn [negb].
  - split_and!; [lia| |done|done]. intros b Hb. destruct (decide (b = k)) as [->|]; [done|].
    apply H2. lia.
  - split_and!; [lia|lia|done|].
    assert (Hz : forall m, (last + m <= k)%nat ->
      length (List.filter (fun b => negb (forallb negb (block l b))) (seq 0 (last + m))) = cnt).
    { induction m as [|m IHm]; intros Hm; [by rewrite Nat.add_0_r|].
      replace (last + S m)%nat with (S (last + m)) by lia.
      rewrite seq_S, List.filter_app, length_app. cbn [List.filter Nat.add].
      rewrite H2 by lia. cbn. rewrite IHm; lia. }
    rewrite seq_S, List.filter_app, length_app. cbn [List.filter Nat.add]. rewrite E. cbn [negb length].
    specialize (Hz (k - last)%nat ltac:(lia)). replace (last + (k - last))%nat with k in Hz by lia. lia.
Qed.

Lemma block_beyond l b : (mask_blocks l <= b)%nat -> forallb negb (block l b) = true.
Proof.
  unfold mask_blocks. intros Hb.
  assert (length l <= 2 + b * 8)%nat.
  { pose proof (Nat.div_mod (length l + 5) 8 ltac:(lia)).
    pose proof (Nat.mod_upper_bound (length l + 5) 8 ltac:(lia)). lia. }
  apply forallb_forall. intros f (i & <- & Hi)%in_map_iff. unfold availb.
  by rewrite lookup_ge_None_2 by lia.
Qed.

Lemma CalcMaskSize_spec l :
  let '(last, cnt) := CalcMaskSize l in
  (last <= mask_blocks l)%nat
  /\ (forall b, (last <= b)%nat -> forallb negb (block l b) = true)
  /\ (match last with O => True | S b => forallb negb (block l b) = false end)
  /\ cnt = length (List.filter (fun b => negb (forallb negb (block l b))) (seq 0 last)).
Proof.
  unfold CalcMaskSize. pose proof (mask_fold l (mask_blocks l)) as H.
  destruct (foldl _ _ _) as [last cnt]. destruct H as (H1 & H2 & H3 & H4). split_and!; [done| |done|done].
  intros b Hb. destruct (decide (b < mask_blocks l)%nat); [by apply H2|apply block_beyond; lia].
Qed.

Lemma read_mask_step n ch s :
  0 < n ->
  read_mask n (ch :: s) =
  res_bind (read_mask (if negb (ch =? 0) then n - 1 else n) s) (fun p => Ok (bits_of_byte ch ++ p.1, p.2)).
Proof. intros Hn. cbn [read_mask]. by rewrite (proj2 (Z.ltb_lt 0 n) Hn). Qed.

(** Reading back a mask whose last byte is used. *)
Lemma read_mask_app l last cnt rest :
  (match last with O => True | S b => forallb negb (block l b) = false end) ->
  cnt = length (List.filter (fun b => negb (forallb negb (block l b))) (seq 0 last)) ->
  read_mask (Z.of_nat cnt) (map (chAvail l) (seq 0 last) ++ rest)
  = Ok (concat (map (block l) (seq 0 last)), rest).
Proof.
  intros Hlast Hcnt.
  assert (Hgen : forall n start,
    (forall b, (start + n)%nat = S b -> forallb negb (block l b) = false) ->
    read_mask (Z.of_nat (length (List.filter (fun b => negb (forallb negb (block l b))) (seq start n))))
      (map (chAvail l) (seq start n) ++ rest)
    = Ok (concat (map (block l) (seq start n)), rest)).
  { induction n as [|n IH]; intros start Hl; [by destruct rest|].
    assert (Hpos : (0 < length (List.filter (fun b => negb (forallb negb (block l b))) (seq start (S n))))%nat).
    { destruct (List.filter (fun b => negb (forallb negb (block l b))) (seq start (S n))) eqn:E;
        [|cbn [length]; apply Nat.lt_0_succ]. exfalso.
      assert (Hin : In (start + n)%nat (List.filter (fun b => negb (forallb negb (block l b))) (seq start (S n)))).
      { apply filter_In. split; [apply in_seq; lia|]. by rewrite (Hl (start + n)%nat ltac:(lia)). }
      by rewrite E in Hin. }
    change (map (chAvail l) (seq start (S n)) ++ rest)
      with (chAvail l start :: (map (chAvail l) (seq (S start) n) ++ rest)).
    rewrite read_mask_step by lia.
    unfold chAvail at 1 3. rewrite bits_byte_roundtrip, byte_zero by apply length_block.
    specialize (IH (S start) ltac:(intros b Hb; apply Hl; lia)).
    cbn [seq List.filter] in Hpos |- *. destruct (forallb negb (block l start)) eqn:E; cbn [negb].
    - rewrite IH. done.
    - cbn [length]. by rewrite Nat2Z.inj_succ, Z.sub_1_r, Z.pred_succ, IH. }
  rewrite Hcnt. apply Hgen. intros b Hb. simpl in Hb. subst last. done.
Qed.

(** The flags the reader reconstructs. *)
Definition flags (l : list CTxOut) (last : nat) : list bool :=
  availb l 0 :: availb l 1 :: concat (map (block l) (seq 0 last)).

Lemma block_seq l b : block l b = map (availb l) (seq (2 + b * 8) 8).
Proof.
  unfold block. transitivity (map (availb l) (map (Nat.add (2 + b * 8)) (seq 0 8))); [by rewrite map_map|].
  f_equal. rewrite <- (Nat.add_0_r (2 + b * 8)) at 2. exact (fmap_add_seq (2 + b * 8) 0 8).
Qed.

Lemma flags_seq l last : flags l last = map (availb l) (seq 0 (2 + last * 8)).
Proof.
  unfold flags. rewrite seq_app, map_app. cbn [seq map app Nat.add]. do 2 f_equal.
  induction last as [|n IH]; [done|]. rewrite seq_S, map_app, concat_app, IH. cbn [map concat Nat.add].
  rewrite app_nil_r, block_seq, <- map_app. replace (S n * 8)%nat with (n * 8 + 8)%nat by lia.
  by rewrite (seq_app (n * 8) 8 2).
Qed.

(** Every output beyond the flags is spent. *)
Lemma availb_beyond l last i :
  (forall b, (last <= b)%nat -> forallb negb (block l b) = true) ->
  (2 + last * 8 <= i)%nat -> availb l i = false.
Proof.
  intros Hb Hi. pose proof (Nat.div_mod (i - 2) 8 ltac:(lia)) as Hd.
  pose proof (Nat.mod_upper_bound (i - 2) 8 ltac:(lia)) as Hm.
  specialize (Hb ((i - 2) / 8)%nat ltac:(apply Nat.div_le_lower_bound; lia)).
  rewrite block_seq, forallb_forall in Hb.
  specialize (Hb (availb l i)). rewrite negb_true_iff in Hb. apply Hb, in_map, in_seq. lia.
Qed.

(** The vector the reader rebuilds from the first [n] flags. *)
Definition rebuild (l : list CTxOut) (n : nat) : list CTxOut :=
  map (fun i => default TxOut_SetNull (avail_at l i)) (seq 0 n).

Lemma availb_avail l i : availb l i = true <-> is_Some (avail_at l i).
Proof.
  unfold availb, avail_at. destruct (l !! i); [|split; [done|by intros []]].
  destruct (TxOut_IsNull _); simpl; split; try done; by intros [].
Qed.

Lemma rebuild_avail l n i :
  (forall j, (n <= j)%nat -> availb l j = false) -> avail_at (rebuild l n) i = avail_at l i.
Proof.
  intros Hn. unfold avail_at at 1, rebuild. rewrite list_lookup_fmap.
  destruct (decide (i < n)%nat) as [Hi|Hi].
  - rewrite lookup_seq_lt by done. cbn. destruct (avail_at l i) as [o|] eqn:E; [|done]. cbn.
    unfold avail_at in E. repeat case_match; congruence.
  - rewrite lookup_ge_None_2 by (rewrite length_seq; lia). cbn.
    specialize (Hn i ltac:(lia)). destruct (avail_at l i) eqn:E; [|done].
    assert (availb l i = true) by (apply availb_avail; eauto). congruence.
Qed.

Lemma rebuild_canon l n : canon (rebuild l n).
Proof.
  unfold canon, rebuild. intros i o Ho Hnull. apply list_lookup_fmap_Some in Ho as (j & -> & _).
  destruct (avail_at l j) eqn:E; [|done]. unfold avail_at in E. cbn in *. repeat case_match; congruence.
Qed.

(** ** Reading the outputs back *)
Lemma unspent_tail l :
  unspent l = (if availb l 0 then [default TxOut_SetNull (avail_at l 0)] else []) ++ unspent (tail l).
Proof. destruct l as [|o l]; [done|]. unfold availb, avail_at. cbn. by destruct (TxOut_IsNull o). Qed.

Lemma availb_tail l i : availb l (S i) = availb (tail l) i.
Proof. by destruct l. Qed.

Lemma avail_tail l i : avail_at l (S i) = avail_at (tail l) i.
Proof. by destruct l. Qed.

Lemma unspent_none l : (forall i, availb l i = false) -> unspent l = [].
Proof.
  induction l as [|o l IH]; intros Hl; [done|].
  rewrite unspent_tail, (Hl O). apply IH. intros i. exact (Hl (S i)).
Qed.

Section RoundTrip.
  Context `{Secp256k1Laws}.

Lemma read_txouts_app n l rest :
  (forall j, (n <= j)%nat -> availb l j = false) -> Forall txout_ok (unspent l) ->
  read_txouts (map (availb l) (seq 0 n)) (concat (map (ser s_txout) (unspent l)) ++ rest)
  = Ok (rebuild l n, rest).
Proof.
  revert l. induction n as [|n IH]; intros l Hn Hok.
  { rewrite unspent_none by (intros i; apply Hn; lia). done. }
  assert (Hshift : forall A (f g : nat -> A), (forall i, f (S i) = g i) ->
    map f (seq 0 (S n)) = f O :: map g (seq 0 n)).
  { intros A f g Hfg. cbn [seq map]. f_equal. rewrite <- seq_shift, map_map. by apply map_ext. }
  unfold rebuild. rewrite (Hshift _ (availb l) (availb (tail l))) by (intros; apply availb_tail).
  rewrite (Hshift _ _ (fun i => default TxOut_SetNull (avail_at (tail l) i)))
    by (intros; by rewrite avail_tail).
  rewrite unspent_tail in Hok |- *.
  assert (Ht : forall j, (n <= j)%nat -> availb (tail l) j = false).
  { intros j Hj. rewrite <- availb_tail. apply Hn. lia. }
  cbn [read_txouts]. destruct (availb l 0) eqn:E.
  - cbn [app map concat] in Hok |- *. apply list.Forall_cons in Hok as [Ho Hok].
    rewrite <- app_assoc, (unser_then s_txout txout_ok) by done.
    by rewrite (bind_ok _ _ _ _ _ (IH (tail l) Ht Hok)).
  - cbn [app] in Hok |- *. assert (avail_at l 0 = None) as ->.
    { destruct (avail_at l 0) eqn:E'; [|done].
      assert (availb l 0 = true) by (apply availb_avail; eauto). congruence. }
    rewrite (bind_ok (ret TxOut_SetNull) _ _ _ _ eq_refl).
    by rewrite (bind_ok _ _ _ _ _ (IH (tail l) Ht Hok)).
Qed.

(** ** The header *)

(** The version as it is read back: a negative version keeps its low 7 bits. *)
Definition stored_version (v : Z) : Z := if v <? 0 then Z.land v 0x7f else v.

Lemma read_version v rest :
  is_i32 v -> ReadVarInt to_i32 (WriteVarInt v ++ rest) = Ok (stored_version v, rest)
  /\ GetSizeOfVarInt v = Z.of_nat (length (WriteVarInt v)).
Proof.
  unfold is_i32, stored_version. intros Hv. destruct (Z.ltb_spec v 0).
  - assert (Hw : WriteVarInt v = [Z.land v 127]).
    { unfold WriteVarInt. cbn [varint_tmp]. rewrite (proj2 (Z.leb_le v 127)) by lia. by rewrite Z.lor_0_r. }
    assert (Hr : 0 <= Z.land v 127 < 128) by (rewrite land_127; apply Z.mod_pos_bound; lia).
    rewrite Hw. split.
    + rewrite <- (WriteVarInt_small _ Hr).
      apply (unser_ser (s := s_varint to_i32)). lia.
    + unfold GetSizeOfVarInt. cbn [varint_size]. by rewrite (proj2 (Z.leb_le v 127)) by lia.
  - split; [apply (unser_ser (s := s_varint to_i32)); lia|apply (ser_size_ser (s := s_varint to_i32)); lia].
Qed.

Lemma IsFromCert_stored v : Z.land (stored_version v) 0x7f = Z.land v 0x7f.
Proof. unfold stored_version. case_match; [by rewrite <- Z.land_assoc|done]. Qed.

Lemma land_low x m : 0 <= m < 8 -> Z.land x m = Z.land (x mod 8) m.
Proof.
  intros Hm. change 8 with (2 ^ 3) at 1. rewrite <- Z.land_ones by lia.
  rewrite <- Z.land_assoc. f_equal. rewrite Z.land_comm, Z.land_ones by lia.
  by rewrite Z.mod_small.
Qed.

(** Decoding the header code. *)
Lemma header_code (cnt : nat) (cb f g : bool) :
  f || g || negb (cnt =? 0)%nat = true ->
  let n := 8 * (Z.of_nat cnt - (if f || g then 0 else 1)) + (if cb then 1 else 0)
           + (if f then 2 else 0) + (if g then 4 else 0) in
  n / 8 + (if negb (Z.land n 6 =? 0) then 0 else 1) = Z.of_nat cnt
  /\ negb (Z.land n 1 =? 0) = cb /\ negb (Z.land n 2 =? 0) = f /\ negb (Z.land n 4 =? 0) = g
  /\ 0 <= n <= 8 * Z.of_nat cnt + 7.
Proof.
  intros Hnz n.
  assert (Hm : n mod 8 = (if cb then 1 else 0) + (if f then 2 else 0) + (if g then 4 else 0)
    /\ n / 8 = Z.of_nat cnt - (if f || g then 0 else 1)).
  { split; symmetry; [apply Z.mod_unique_pos with (Z.of_nat cnt - (if f || g then 0 else 1))
                     |apply Z.div_unique_pos with ((if cb then 1 else 0) + (if f then 2 else 0) + (if g then 4 else 0))];
      destruct cb, f, g; lia. }
  destruct Hm as [Hm Hd].
  rewrite !(land_low n) by lia. rewrite Hm, Hd.
  assert (Hc : f = false -> g = false -> (0 < cnt)%nat).
  { intros -> ->. destruct cnt; [done|lia]. }
  set (r := (if cb then 1 else 0) + _ + _) in *.
  assert (H6 : negb (Z.land r 6 =? 0) = f || g) by (subst r; by destruct cb, f, g).
  rewrite H6. split_and!; try (subst r; by destruct cb, f, g).
  - destruct (f || g); lia.
  - subst n r. destruct f, g, cb; cbn [orb]; try specialize (Hc eq_refl eq_refl); lia.
  - subst n r. destruct f, g, cb; cbn [orb]; lia.
Qed.

Lemma pruned_flags c :
  IsPruned c = negb (availb (vout c) 0 || availb (vout c) 1
                     || negb ((CalcMaskSize (vout c)).2 =? 0)%nat).
Proof.
  pose proof (CalcMaskSize_spec (vout c)) as Hs. destruct (CalcMaskSize (vout c)) as [last cnt].
  destruct Hs as (_ & Hb & Hl & Hc). cbn [snd]. apply eq_true_iff_eq.
  rewrite IsPruned_avail, negb_true_iff, !orb_false_iff, negb_false_iff, Nat.eqb_eq.
  assert (Hnone : forall i, avail_at (vout c) i = None <-> availb (vout c) i = false).
  { intros i. pose proof (availb_avail (vout c) i) as Ha.
    destruct (availb (vout c) i), (avail_at (vout c) i); naive_solver. }
  split.
  - intros Hn. split; [split; apply Hnone, Hn|]. rewrite Hc.
    assert (Hz : forall b, forallb negb (block (vout c) b) = true).
    { intros b. rewrite block_seq. apply forallb_forall. intros f (i & <- & _)%in_map_iff.
      by rewrite (proj1 (Hnone i) (Hn i)). }
    destruct last as [|b]; [done|]. by rewrite Hz in Hl.
  - intros [[H1 H2] H3] i. apply Hnone. rewrite H3 in Hc. destruct last as [|b].
    + destruct i as [|[|i]]; [done|done|]. apply (availb_beyond _ 0); [done|lia].
    + exfalso. symmetry in Hc. apply length_zero_iff_nil in Hc.
      assert (Hin : In b (List.filter (fun b => negb (forallb negb (block (vout c) b))) (seq 0 (S b)))).
      { apply filter_In. split; [apply in_seq; lia|by rewrite Hl]. }
      by rewrite Hc in Hin.
Qed.

Lemma concat_size l :
  Forall txout_ok l ->
  foldr Z.add 0 (map (ser_size s_txout) l) = Z.of_nat (length (concat (map (ser s_txout) l))).
Proof.
  induction 1 as [|o l Ho Hl IH]; [done|]. cbn [map foldr concat]. rewrite length_app, Nat2Z.inj_add, IH.
  by rewrite (ser_size_ser (ok := txout_ok)).
Qed.

(** The header code that is written, and what is read from it. *)
Lemma coins_nCode_spec c :
  IsPruned c = false -> Z.of_nat (length (vout c)) < 2 ^ 31 ->
  exists n, coins_nCode c = Ok n /\ 0 <= n < 2 ^ 32
    /\ n / 8 + (if negb (Z.land n 6 =? 0) then 0 else 1) = Z.of_nat (CalcMaskSize (vout c)).2
    /\ negb (Z.land n 1 =? 0) = fCoinBase c
    /\ negb (Z.land n 2 =? 0) = availb (vout c) 0 /\ negb (Z.land n 4 =? 0) = availb (vout c) 1.
Proof.
  intros Hp Hlen. rewrite pruned_flags in Hp. unfold coins_nCode.
  pose proof (CalcMaskSize_spec (vout c)) as Hs. destruct (CalcMaskSize (vout c)) as [last cnt].
  destruct Hs as (Hle & _ & _ & Hc). cbn [snd] in Hp |- *. rewrite Hp.
  apply negb_false_iff in Hp.
  destruct (header_code cnt (fCoinBase c) _ _ Hp) as (E1 & E2 & E3 & E4 & E5).
  assert (Hcnt : 8 * Z.of_nat cnt <= Z.of_nat (length (vout c)) + 5).
  { rewrite Hc. pose proof (List.filter_length_le (fun b => negb (forallb negb (block (vout c) b))) (seq 0 last)) as Hf.
    rewrite length_seq in Hf. unfold mask_blocks in Hle.
    pose proof (Nat.Div0.mul_div_le (length (vout c) + 5) 8). lia. }
  eexists. split; [reflexivity|]. unfold to_u32. rewrite Z.mod_small by lia. split_and!; try done; lia.
Qed.

Lemma read_coins_tail c rest :
  (if IsFromCert c then is_i32 (coins_nFirstBwtPos c) /\ is_i32 (nBwtMaturityHeight c)
   else coins_nFirstBwtPos c = BWT_POS_UNSET /\ nBwtMaturityHeight c = 0) ->
  forall l v, Z.land v 0x7f = Z.land (nVersion c) 0x7f ->
  (let c' := mkCoins (fCoinBase c) l (nHeight c) v BWT_POS_UNSET 0 in
   if IsFromCert c' then
     let* first := unser s_i32 in
     let* mat := unser s_i32 in
     ret (Cleanup (mkCoins (fCoinBase c) l (nHeight c) v first mat))
   else ret (Cleanup c'))
   ((if IsFromCert c
     then ser_writedata32 (coins_nFirstBwtPos c) ++ ser_writedata32 (nBwtMaturityHeight c)
     else []) ++ rest)
  = Ok (mkCoins (fCoinBase c) (pop_null_back l) (nHeight c) v (coins_nFirstBwtPos c)
          (nBwtMaturityHeight c), rest).
Proof.
  intros Hf l v Hv. cbn zeta. unfold IsFromCert at 1. cbn [nVersion]. rewrite Hv. fold (IsFromCert c).
  destruct (IsFromCert c).
  - destruct Hf as [H1 H2]. rewrite <- app_assoc. rewrite (unser_then s_i32 is_i32) by done.
    by rewrite (unser_then s_i32 is_i32) by done.
  - destruct Hf as [-> ->]. done.
Qed.

(** C10: unspent outputs survive the database: serializing the outputs of a
    transaction that still has some (no spent output at the end, spent ones in
    canonical form) succeeds, announces its exact size, and reading the bytes gives
    back every field, with the rest of the stream untouched.  Only a negative
    version is not preserved: it is read back as its low 7 bits, which is what
    [IsFromCert] looks at, so that a certificate's coins keep their certificate
    fields.  Outputs with nothing left to spend are refused by an assertion. *)
Theorem coins_roundtrip (c : CCoins) (rest : bytes) :
  coins_wf c -> Forall txout_ok (unspent (vout c)) -> Z.of_nat (length (vout c)) < 2 ^ 31 ->
  is_i32 (nVersion c) -> 0 <= nHeight c < 2 ^ 31 ->
  (if IsFromCert c then is_i32 (coins_nFirstBwtPos c) /\ is_i32 (nBwtMaturityHeight c)
   else coins_nFirstBwtPos c = BWT_POS_UNSET /\ nBwtMaturityHeight c = 0) ->
  if IsPruned c then Coins_Serialize c = Err AssertFailed
  else exists b, Coins_Serialize c = Ok b
    /\ Coins_GetSerializeSize c = Ok (vsize b)
    /\ Coins_Unserialize Coins_Clear (b ++ rest)
       = Ok (mkCoins (fCoinBase c) (vout c) (nHeight c) (stored_version (nVersion c))
               (coins_nFirstBwtPos c) (nBwtMaturityHeight c), rest).
Proof.
  intros [Hclean Hcanon] Hok Hlen Hver Hh Hf. destruct (IsPruned c) eqn:Hp.
  { unfold Coins_Serialize, coins_nCode. rewrite pruned_flags in Hp.
    destruct (CalcMaskSize (vout c)). cbn [snd] in Hp. by rewrite Hp. }
  destruct (coins_nCode_spec c Hp Hlen) as (n & Hn & Hnr & E1 & E2 & E3 & E4).
  pose proof (CalcMaskSize_spec (vout c)) as Hs.
  destruct (CalcMaskSize (vout c)) as [last cnt] eqn:Hcm. destruct Hs as (_ & Hb & Hl & Hc).
  unfold Coins_Serialize, Coins_GetSerializeSize. rewrite Hn, Hcm. cbn [res_bind fst].
  eexists. split; [reflexivity|]. split.
  - f_equal. unfold vsize. rewrite !length_app, !Nat2Z.inj_add.
    rewrite (proj2 (read_version _ [] Hver)), (proj2 (read_version (nHeight c) [] ltac:(unfold is_i32; lia))).
    rewrite (ser_size_ser (s := s_varint to_u32) n Hnr : GetSizeOfVarInt n = _).
    rewrite length_map, length_seq. rewrite concat_size by done.
    destruct (IsFromCert c); cbn [ser s_varint]; rewrite ?length_app; cbn; lia.
  - unfold Coins_Unserialize. rewrite <- !app_assoc.
    rewrite (bind_ok _ _ _ _ _ (proj1 (read_version _ _ Hver))).
    rewrite (bind_ok _ _ _ _ _ (unser_ser (s := s_varint to_u32) n _ Hnr)).
    cbn [snd] in E1. rewrite E1, E2, E3, E4.
    rewrite (bind_ok _ _ _ _ _ (read_mask_app _ _ _ _ Hl Hc)).
    fold (flags (vout c) last). rewrite flags_seq.
    assert (Hbey : forall j, (2 + last * 8 <= j)%nat -> availb (vout c) j = false).
    { intros j Hj. by apply (availb_beyond _ last). }
    rewrite (bind_ok _ _ _ _ _ (read_txouts_app _ _ _ Hbey Hok)).
    rewrite (bind_ok _ _ _ _ _ (unser_ser (s := s_varint to_i32) (nHeight c) _ Hh)).
    pose proof (read_coins_tail c rest Hf (rebuild (vout c) (2 + last * 8)) _ (IsFromCert_stored _)) as Ht.
    etransitivity; [exact Ht|]. do 3 f_equal.
    apply avail_ext; eauto using pop_null_back_idem, canon_pop, rebuild_canon.
    intros i. rewrite avail_pop_null_back. by apply rebuild_avail.
Qed.
End RoundTrip.

(** A certificate's coins: the first two outputs spent, one change output and a
    backward transfer left. *)
Definition sample_cert_coins : CCoins :=
  mkCoins false [TxOut_SetNull; TxOut_SetNull; mkTxOut 50 [OP_CHECKSIG]; mkTxOut 70 [OP_CHECKSIG]]
    120 SC_CERT_VERSION 3 150.

Lemma coins_roundtrip_witness :
  exists b, Coins_Serialize (H := toy_curve) sample_cert_coins = Ok b
    /\ Coins_GetSerializeSize (H := toy_curve) sample_cert_coins = Ok (vsize b)
    /\ Coins_Unserialize (H := toy_curve) Coins_Clear (b ++ [1; 2])
       = Ok (mkCoins false (vout sample_cert_coins) 120 123 3 150, [1; 2]).
Proof.
  refine (coins_roundtrip (H0 := toy_curve_laws) sample_cert_coins [1; 2] _ _ _ _ _ _).
  - split; [done|]. intros [|[|[|[|i]]]] o Ho Hn; simplify_eq/=; done.
  - repeat constructor; cbn; try lia; vm_compute; discriminate.
  - vm_compute. done.
  - vm_compute. done.
  - vm_compute. done.
  - vm_compute. done.
Defined.
