(* ===== verification/Undo.v ===== *)
(** * Undo information

    [undo.h]: what a block must remember to be disconnected, per spent output, per
    transaction, per sidechain and per block, with its stored form. *)

From stdpp Require Import base numbers list strings gmap option.
From Stdlib Require Import ZArith Lia.
From S2P Require Import Prelude.
From S2P Require Import Amount.
From S2P Require Import Serialize.
From S2P Require Import ScTypes.
From S2P Require Import Primitives.
From S2P Require Import Compress.
From S2P Require Import Sidechain.
From S2P Require Import Coins.
From S2P Require Import CoinsSer.
Open Scope Z_scope.
Open Scope zen_scope.

(** ** Spent outputs *)
Record CTxInUndo := mkTxInUndo {
  u_txout : CTxOut;
  u_fCoinBase : bool;
  u_nHeight : Z;
  u_nVersion : Z;
  u_nFirstBwtPos : Z;
  u_nBwtMaturityHeight : Z }.

#[export] Instance CTxInUndo_eq_dec : EqDecision CTxInUndo.
Proof. solve_decision. Defined.

(** [CTxInUndo(txout)] *)
Definition TxInUndo_of (o : CTxOut) : CTxInUndo := mkTxInUndo o false 0 0 BWT_POS_UNSET 0.

Definition CTxUndo := list CTxInUndo.

(** ** One sidechain *)
Definition MATURED_AMOUNTS : Z := 1.

Definition CROSS_EPOCH_CERT_DATA : Z := 2.

Definition ANY_EPOCH_CERT_DATA : Z := 4.

Definition SUPERSEDED_CERT_DATA : Z := 8.

Definition CEASED_CERT_DATA : Z := 16.

Record CSidechainUndoData := mkScUndo {
  sidechainUndoDataVersion : Z;
  contentBitMask : Z;
  appliedMaturedAmount : CAmount;
  su_pastEpochTopQualityCertView : CScCertificateView;
  su_scFees : list ScFeeData;
  prevTopCommittedCertHash : uint256;
  prevTopCommittedCertReferencedEpoch : Z;
  prevTopCommittedCertQuality : Z;
  prevTopCommittedCertBwtAmount : CAmount;
  su_lastTopQualityCertView : CScCertificateView;
  lowQualityBwts : list CTxInUndo;
  ceasedBwts : list CTxInUndo }.

#[export] Instance CSidechainUndoData_eq_dec : EqDecision CSidechainUndoData.
Proof. solve_decision. Defined.

Definition ScUndo_empty : CSidechainUndoData :=
  mkScUndo 0 0 0 CertView_null [] 0 EPOCH_NULL QUALITY_NULL 0 CertView_null [] [].

(** [contentBitMask & section] *)
Definition has (mask section : Z) : bool := negb (Z.land mask section =? 0).

(** ** One block *)
Record CBlockUndo := mkBlockUndo {
  includesSidechainAttributes : bool;
  vtxundo : list CTxUndo;
  old_tree_root : uint256;
  scUndoDatabyScId : gmap Z CSidechainUndoData }.

#[export] Instance CBlockUndo_eq_dec : EqDecision CBlockUndo.
Proof. solve_decision. Defined.

Definition BlockUndo_init (includeSC : bool) : CBlockUndo := mkBlockUndo includeSC [] 0 ∅.

Definition block_undo_marker : Z := 0xffff.

(** ** Stored forms *)
Definition s_certview : Serializer CScCertificateView :=
  s_iso (fun v => (certDataHash v,
                   (cv_forwardTransferScFee v, cv_mainchainBackwardTransferRequestScFee v)))
        (fun p => mkCertView p.1 p.2.1 p.2.2)
        (s_pair s_bytes (s_pair s_i64 s_i64)).

Definition s_feedata : Serializer ScFeeData :=
  s_iso (fun v => (forwardTxScFee v, mbtrTxScFee v)) (fun p => mkScFeeData p.1 p.2)
        (s_pair s_i64 s_i64).

Section Stored.
  Context `{Secp256k1}.

(** [nHeight > 0 && the version is a certificate's] *)
Definition TxInUndo_cert (h v : Z) : bool :=
  (0 <? h) && (Z.land v 0x7f =? Z.land SC_CERT_VERSION 0x7f).

(** [nHeight*2+(fCoinBase ? 1 : 0)] on unsigned integers *)
Definition TxInUndo_code (u : CTxInUndo) : Z :=
  to_u32 (u_nHeight u * 2 + (if u_fCoinBase u then 1 else 0)).

Definition TxInUndo_size (u : CTxInUndo) : Z :=
  GetSizeOfVarInt (TxInUndo_code u)
  + (if 0 <? u_nHeight u then GetSizeOfVarInt (u_nVersion u) else 0)
  + ser_size s_txout (u_txout u)
  + (if TxInUndo_cert (u_nHeight u) (u_nVersion u) then 4 + 4 else 0).

Definition TxInUndo_ser (u : CTxInUndo) : bytes :=
  WriteVarInt (TxInUndo_code u)
  ++ (if 0 <? u_nHeight u then WriteVarInt (u_nVersion u) else [])
  ++ ser s_txout (u_txout u)
  ++ (if TxInUndo_cert (u_nHeight u) (u_nVersion u)
      then ser_writedata32 (u_nFirstBwtPos u) ++ ser_writedata32 (u_nBwtMaturityHeight u)
      else []).

Definition TxInUndo_unser : Reader CTxInUndo :=
  let* nCode := ReadVarInt to_u32 in
  let h := nCode / 2 in
  let cb := negb (Z.land nCode 1 =? 0) in
  let* v := (if 0 <? h then ReadVarInt to_i32 else ret 0) in
  let* o := unser s_txout in
  if TxInUndo_cert h v then
    let* first := unser s_i32 in
    let* mat := unser s_i32 in
    ret (mkTxInUndo o cb h v first mat)
  else ret (mkTxInUndo o cb h v BWT_POS_UNSET 0).

Definition s_txinundo : Serializer CTxInUndo := mkSerializer TxInUndo_ser TxInUndo_unser TxInUndo_size.

(** [CTxUndo]: its size is measured by writing it *)
Definition s_txundo : Serializer CTxUndo :=
  mkSerializer (ser (s_vec s_txinundo)) (unser (s_vec s_txinundo))
    (fun u => Z.of_nat (length (ser (s_vec s_txinundo) u))).

(** A section of the data: present when its bit is set. *)
Definition s_when {A} (b : bool) (s : Serializer A) (dflt : A) : Serializer A :=
  mkSerializer (fun x : A => if b then ser s x else []) (if b then unser s else ret dflt)
    (fun x => if b then ser_size s x else 0).

Definition s_cross (m : Z) : Serializer (CScCertificateView * list ScFeeData) :=
  s_when (has m CROSS_EPOCH_CERT_DATA) (s_pair s_certview (s_vec s_feedata)) (CertView_null, []).

Definition s_any (m : Z) : Serializer (Z * (Z * (Z * (Z * CScCertificateView)))) :=
  s_when (has m ANY_EPOCH_CERT_DATA)
    (s_pair s_uint256 (s_pair s_i32 (s_pair s_i64 (s_pair s_i64 s_certview))))
    (0, (EPOCH_NULL, (QUALITY_NULL, (0, CertView_null)))).

Definition ScUndo_ser (u : CSidechainUndoData) : bytes :=
  let m := contentBitMask u in
  ser s_u32 (sidechainUndoDataVersion u) ++ ser s_u8 m
  ++ ser (s_when (has m MATURED_AMOUNTS) s_i64 0) (appliedMaturedAmount u)
  ++ ser (s_cross m) (su_pastEpochTopQualityCertView u, su_scFees u)
  ++ ser (s_any m) (prevTopCommittedCertHash u, (prevTopCommittedCertReferencedEpoch u,
       (prevTopCommittedCertQuality u, (prevTopCommittedCertBwtAmount u, su_lastTopQualityCertView u))))
  ++ ser (s_when (has m SUPERSEDED_CERT_DATA) (s_vec s_txinundo) []) (lowQualityBwts u)
  ++ ser (s_when (has m CEASED_CERT_DATA) (s_vec s_txinundo) []) (ceasedBwts u).

Definition ScUndo_unser : Reader CSidechainUndoData :=
  let* v := unser s_u32 in
  let* m := unser s_u8 in
  let* matured := unser (s_when (has m MATURED_AMOUNTS) s_i64 0) in
  let* cross := unser (s_cross m) in
  let* any := unser (s_any m) in
  let* low := unser (s_when (has m SUPERSEDED_CERT_DATA) (s_vec s_txinundo) []) in
  let* ceased := unser (s_when (has m CEASED_CERT_DATA) (s_vec s_txinundo) []) in
  ret (mkScUndo v m matured cross.1 cross.2 any.1 any.2.1 any.2.2.1 any.2.2.2.1 any.2.2.2.2 low ceased).

(** [GetSerializeSize]: the section of the epoch's end counts the certificate
    view only *)
Definition ScUndo_GetSerializeSize (u : CSidechainUndoData) : Z :=
  let m := contentBitMask u in
  4 + 1
  + (if has m MATURED_AMOUNTS then 8 else 0)
  + (if has m CROSS_EPOCH_CERT_DATA then ser_size s_certview (su_pastEpochTopQualityCertView u) else 0)
  + (if has m ANY_EPOCH_CERT_DATA
     then 32 + 4 + 8 + 8 + ser_size s_certview (su_lastTopQualityCertView u) else 0)
  + (if has m SUPERSEDED_CERT_DATA then ser_size (s_vec s_txinundo) (lowQualityBwts u) else 0)
  + (if has m CEASED_CERT_DATA then ser_size (s_vec s_txinundo) (ceasedBwts u) else 0).

(** inside a block's undo the size is measured by writing *)
Definition s_scundo : Serializer CSidechainUndoData :=
  mkSerializer ScUndo_ser ScUndo_unser (fun u => Z.of_nat (length (ScUndo_ser u))).

Definition BlockUndo_ser (u : CBlockUndo) : bytes :=
  if includesSidechainAttributes u then
    WriteCompactSize block_undo_marker ++ ser (s_vec s_txundo) (vtxundo u)
    ++ ser s_uint256 (old_tree_root u) ++ ser (s_map s_uint256 s_scundo) (scUndoDatabyScId u)
  else ser (s_vec s_txundo) (vtxundo u) ++ ser s_uint256 (old_tree_root u).

(** into [before], whose sidechain data the old format leaves as it was *)
Definition BlockUndo_unser (before : CBlockUndo) : Reader CBlockUndo :=
  let* nSize := ReadCompactSize in
  if nSize =? block_undo_marker then
    let* vt := unser (s_vec s_txundo) in
    let* root := unser s_uint256 in
    let* sc := unser (s_map s_uint256 s_scundo) in
    ret (mkBlockUndo true vt root sc)
  else
    let* vt := read_n (Z.to_nat nSize) (unser s_txundo) in
    let* root := unser s_uint256 in
    ret (mkBlockUndo false vt root (scUndoDatabyScId before)).

Definition BlockUndo_GetSerializeSize (u : CBlockUndo) : Z := Z.of_nat (length (BlockUndo_ser u)).
End Stored.

(** ** What is read back

    A negative version keeps its low 7 bits; fields that are not stored are read
    with the values a new object has. *)
Definition TxInUndo_norm (u : CTxInUndo) : CTxInUndo :=
  let v := if 0 <? u_nHeight u then stored_version (u_nVersion u) else 0 in
  if TxInUndo_cert (u_nHeight u) (u_nVersion u)
  then mkTxInUndo (u_txout u) (u_fCoinBase u) (u_nHeight u) v (u_nFirstBwtPos u) (u_nBwtMaturityHeight u)
  else mkTxInUndo (u_txout u) (u_fCoinBase u) (u_nHeight u) v BWT_POS_UNSET 0.

Definition ScUndo_norm (u : CSidechainUndoData) : CSidechainUndoData :=
  let m := contentBitMask u in
  let cross := has m CROSS_EPOCH_CERT_DATA in
  let any := has m ANY_EPOCH_CERT_DATA in
  mkScUndo (sidechainUndoDataVersion u) m
    (if has m MATURED_AMOUNTS then appliedMaturedAmount u else 0)
    (if cross then su_pastEpochTopQualityCertView u else CertView_null)
    (if cross then su_scFees u else [])
    (if any then prevTopCommittedCertHash u else 0)
    (if any then prevTopCommittedCertReferencedEpoch u else EPOCH_NULL)
    (if any then prevTopCommittedCertQuality u else QUALITY_NULL)
    (if any then prevTopCommittedCertBwtAmount u else 0)
    (if any then su_lastTopQualityCertView u else CertView_null)
    (if has m SUPERSEDED_CERT_DATA then map TxInUndo_norm (lowQualityBwts u) else [])
    (if has m CEASED_CERT_DATA then map TxInUndo_norm (ceasedBwts u) else []).

Definition BlockUndo_norm (u : CBlockUndo) : CBlockUndo :=
  mkBlockUndo (includesSidechainAttributes u) (map (map TxInUndo_norm) (vtxundo u)) (old_tree_root u)
    (if includesSidechainAttributes u then ScUndo_norm <$> scUndoDatabyScId u else ∅).

(** ** The values the node stores *)
Definition short {A} (l : list A) : Prop := Z.of_nat (length l) <= MAX_SERIALIZED_COMPACT_SIZE.

Definition txinundo_ok (u : CTxInUndo) : Prop :=
  txout_ok (u_txout u) /\ 0 <= u_nHeight u < 2 ^ 31 /\ is_i32 (u_nVersion u)
  /\ is_i32 (u_nFirstBwtPos u) /\ is_i32 (u_nBwtMaturityHeight u).

Definition certview_ok (v : CScCertificateView) : Prop :=
  short (certDataHash v) /\ is_i64 (cv_forwardTransferScFee v)
  /\ is_i64 (cv_mainchainBackwardTransferRequestScFee v).

Definition feedata_ok (v : ScFeeData) : Prop := is_i64 (forwardTxScFee v) /\ is_i64 (mbtrTxScFee v).

Definition scundo_ok (u : CSidechainUndoData) : Prop :=
  0 <= sidechainUndoDataVersion u < 2 ^ 32 /\ 0 <= contentBitMask u < 2 ^ 8
  /\ is_i64 (appliedMaturedAmount u)
  /\ (certview_ok (su_pastEpochTopQualityCertView u) /\ short (su_scFees u) /\ Forall feedata_ok (su_scFees u))
  /\ (0 <= prevTopCommittedCertHash u < 2 ^ 256 /\ is_i32 (prevTopCommittedCertReferencedEpoch u)
      /\ is_i64 (prevTopCommittedCertQuality u) /\ is_i64 (prevTopCommittedCertBwtAmount u)
      /\ certview_ok (su_lastTopQualityCertView u))
  /\ (short (lowQualityBwts u) /\ Forall txinundo_ok (lowQualityBwts u))
  /\ (short (ceasedBwts u) /\ Forall txinundo_ok (ceasedBwts u)).

Definition txundo_ok (u : CTxUndo) : Prop := short u /\ Forall txinundo_ok u.

Definition blockundo_ok (u : CBlockUndo) : Prop :=
  short (vtxundo u) /\ Forall txundo_ok (vtxundo u) /\ 0 <= old_tree_root u < 2 ^ 256
  /\ Z.of_nat (size (scUndoDatabyScId u)) <= MAX_SERIALIZED_COMPACT_SIZE
  /\ (forall k v, scUndoDatabyScId u !! k = Some v -> 0 <= k < 2 ^ 256 /\ scundo_ok v).

(** ** Lemmas *)
Lemma when_lawful {A} b (s : Serializer A) dflt ok `{!Lawful s ok} :
  Lawful (s_when b s dflt) (fun x => if b then ok x else x = dflt).
Proof.
  split; intros a; [intros rest|]; intros Ha; cbn [unser ser ser_size s_when]; destruct b.
  - by apply unser_ser.
  - by subst.
  - by apply ser_size_ser.
  - done.
Qed.

#[export] Instance certview_lawful : Lawful s_certview certview_ok.
Proof.
  apply (iso_lawful _ _ _ (fun p => short p.1 /\ is_i64 p.2.1 /\ is_i64 p.2.2));
    [|by intros []|by intros []].
  exact (pair_lawful s_bytes (s_pair s_i64 s_i64) short (fun p => is_i64 p.1 /\ is_i64 p.2)).
Qed.

#[export] Instance feedata_lawful : Lawful s_feedata feedata_ok.
Proof. apply (iso_lawful _ _ _ (fun p => is_i64 p.1 /\ is_i64 p.2)); [apply _|by intros []|by intros []]. Qed.

(** A serializer that normalises: what is written is read back as [norm]. *)
Definition Stores {A} (s : Serializer A) (ok : A -> Prop) (norm : A -> A) : Prop :=
  forall a rest, ok a -> unser s (ser s a ++ rest) = Ok (norm a, rest).

Lemma read_n_stores {A} (s : Serializer A) ok norm l rest :
  Stores s ok norm -> Forall ok l ->
  read_n (length l) (unser s) (concat (map (ser s) l) ++ rest) = Ok (map norm l, rest).
Proof.
  intros Hs Hl. revert rest. induction Hl as [|x l Hx Hl IH]; intros rest; [done|].
  cbn [length read_n map concat]. rewrite <- app_assoc, (bind_ok _ _ _ _ _ (Hs x _ Hx)).
  by rewrite (bind_ok _ _ _ _ _ (IH rest)).
Qed.

Lemma vec_stores {A} (s : Serializer A) ok norm :
  Stores s ok norm -> Stores (s_vec s) (fun l => short l /\ Forall ok l) (map norm).
Proof.
  intros Hs l rest [Hl Hok]. cbn [unser ser s_vec]. rewrite <- app_assoc.
  rewrite (bind_ok _ _ _ _ _ (read_compact_app _ _ (conj (Nat2Z.is_nonneg _) Hl))), Nat2Z.id.
  by eapply read_n_stores.
Qed.

Lemma when_stores {A} b (s : Serializer A) dflt ok norm :
  Stores s ok norm -> Stores (s_when b s dflt) ok (fun x => if b then norm x else dflt).
Proof. intros Hs a rest Ha. cbn [unser ser s_when]. destruct b; [by apply Hs|done]. Qed.

Lemma lawful_stores {A} (s : Serializer A) ok `{!Lawful s ok} : Stores s ok (fun x => x).
Proof. intros a rest Ha. by apply unser_ser. Qed.

Lemma map_stores {V} (t : Serializer V) ok norm :
  Stores t ok norm ->
  Stores (s_map s_uint256 t)
    (fun m => Z.of_nat (size m) <= MAX_SERIALIZED_COMPACT_SIZE
              /\ forall k v, m !! k = Some v -> 0 <= k < 2 ^ 256 /\ ok v)
    (fmap norm).
Proof.
  intros Ht m rest [Hsz Hok]. cbn [unser ser s_map].
  assert (Hp : Stores (s_pair s_uint256 t) (fun p => 0 <= p.1 < 2 ^ 256 /\ ok p.2) (prod_map id norm)).
  { intros [k v] r [Hk Hv]. cbn [unser ser s_pair fst snd]. rewrite <- app_assoc.
    rewrite (unser_then s_uint256 _) by done. by rewrite (bind_ok _ _ _ _ _ (Ht v r Hv)). }
  assert (Hl : short (map_iter m) /\ Forall (fun p => 0 <= p.1 < 2 ^ 256 /\ ok p.2) (map_iter m)).
  { split; [unfold short; by rewrite <- (length_fmap fst), map_iter_fst, length_set_iter, size_dom|].
    apply list.Forall_forall. intros [k v] Hkv%elem_of_map_iter. by apply Hok. }
  rewrite (bind_ok _ _ _ _ _ (vec_stores _ _ _ Hp _ rest Hl)). unfold ret. do 2 f_equal.
  rewrite <- (list_to_map_iter m) at 2. exact (list_to_map_fmap norm (map_iter m)).
Qed.

Section Undo_lemmas.
  Context `{Secp256k1Laws}.

Lemma TxInUndo_code_spec u :
  0 <= u_nHeight u < 2 ^ 31 ->
  0 <= TxInUndo_code u < 2 ^ 32 /\ TxInUndo_code u / 2 = u_nHeight u
  /\ negb (Z.land (TxInUndo_code u) 1 =? 0) = u_fCoinBase u.
Proof.
  intros Hh. unfold TxInUndo_code, to_u32.
  rewrite Z.mod_small by (destruct (u_fCoinBase u); lia). split; [destruct (u_fCoinBase u); lia|]. split.
  - symmetry. apply Z.div_unique_pos with (if u_fCoinBase u then 1 else 0); destruct (u_fCoinBase u); lia.
  - change 1 with (Z.ones 1) at 2. rewrite Z.land_ones by lia. change (2 ^ 1) with 2.
    rewrite Z.add_comm, Z.mod_add by lia. by destruct (u_fCoinBase u).
Qed.

Lemma TxInUndo_cert_stored h v : TxInUndo_cert h (stored_version v) = TxInUndo_cert h v.
Proof. unfold TxInUndo_cert. by rewrite IsFromCert_stored. Qed.

Lemma TxInUndo_read u rest :
  txinundo_ok u ->
  TxInUndo_unser (TxInUndo_ser u ++ rest) = Ok (TxInUndo_norm u, rest).
Proof.
  intros (Ho & Hh & Hv & Hf & Hm). destruct (TxInUndo_code_spec u Hh) as (Hc & Hd & Hcb).
  unfold TxInUndo_unser, TxInUndo_ser, TxInUndo_norm. rewrite <- !app_assoc.
  rewrite (bind_ok _ _ _ _ _ (unser_ser (s := s_varint to_u32) _ _ Hc)), Hd, Hcb.
  set (tailb := ser s_txout _ ++ _).
  assert (Hver : (if 0 <? u_nHeight u then ReadVarInt to_i32 else ret 0)
      ((if 0 <? u_nHeight u then WriteVarInt (u_nVersion u) else []) ++ tailb)
    = Ok (if 0 <? u_nHeight u then stored_version (u_nVersion u) else 0, tailb)).
  { destruct (0 <? u_nHeight u); [by apply read_version|done]. }
  rewrite (bind_ok _ _ _ _ _ Hver). subst tailb. rewrite (unser_then s_txout txout_ok) by done.
  assert (Hcert : TxInUndo_cert (u_nHeight u)
      (if 0 <? u_nHeight u then stored_version (u_nVersion u) else 0)
    = TxInUndo_cert (u_nHeight u) (u_nVersion u)).
  { destruct (0 <? u_nHeight u) eqn:E; [apply TxInUndo_cert_stored|]. unfold TxInUndo_cert. by rewrite E. }
  rewrite Hcert. destruct (TxInUndo_cert _ _); [|done].
  rewrite <- app_assoc. by rewrite !(unser_then s_i32 is_i32) by done.
Qed.

Lemma WriteVarInt_stored v : is_i32 v -> WriteVarInt (stored_version v) = WriteVarInt v.
Proof.
  intros Hv. unfold stored_version. destruct (Z.ltb_spec v 0); [|done].
  rewrite WriteVarInt_small by (rewrite land_127; apply Z.mod_pos_bound; lia).
  unfold WriteVarInt. cbn [varint_tmp]. rewrite (proj2 (Z.leb_le v 127)) by lia. by rewrite Z.lor_0_r.
Qed.

Lemma TxInUndo_size_ok u : txinundo_ok u -> TxInUndo_size u = Z.of_nat (length (TxInUndo_ser u)).
Proof.
  intros (Ho & Hh & Hv & Hf & Hm). destruct (TxInUndo_code_spec u Hh) as (Hc & _).
  unfold TxInUndo_size, TxInUndo_ser. rewrite !length_app, !Nat2Z.inj_add.
  rewrite (ser_size_ser (s := s_varint to_u32) _ Hc : GetSizeOfVarInt _ = _).
  rewrite (ser_size_ser (s := s_txout) _ Ho), (proj2 (read_version _ [] Hv)).
  cbn [ser s_varint]. destruct (0 <? _), (TxInUndo_cert _ _); rewrite ?length_app; cbn; lia.
Qed.

Lemma txinundo_stores : Stores s_txinundo txinundo_ok TxInUndo_norm.
Proof. intros u rest. apply TxInUndo_read. Qed.

Lemma txundo_stores : Stores s_txundo txundo_ok (map TxInUndo_norm).
Proof. exact (vec_stores _ _ _ txinundo_stores). Qed.

Lemma scundo_stores : Stores s_scundo scundo_ok ScUndo_norm.
Proof.
  intros u rest (Hv & Hm & Ha & Hc & Hy & Hl & Hz). cbn [unser ser s_scundo].
  unfold ScUndo_unser, ScUndo_ser, s_cross, s_any. set (m := contentBitMask u) in *. rewrite <- !app_assoc.
  rewrite (unser_then s_u32 _) by done. rewrite (unser_then s_u8 _) by done.
  rewrite (bind_ok _ _ _ _ _ (when_stores _ s_i64 0 _ _ (lawful_stores s_i64 _) _ _ Ha)).
  rewrite (bind_ok _ _ _ _ _ (when_stores _ _ (CertView_null, []) _ _
    (lawful_stores (s_pair s_certview (s_vec s_feedata)) _)
    (su_pastEpochTopQualityCertView u, su_scFees u) _ Hc)).
  rewrite (bind_ok _ _ _ _ _ (when_stores _ _ (0, (EPOCH_NULL, (QUALITY_NULL, (0, CertView_null)))) _ _
    (lawful_stores (s_pair s_uint256 (s_pair s_i32 (s_pair s_i64 (s_pair s_i64 s_certview)))) _)
    (prevTopCommittedCertHash u, (prevTopCommittedCertReferencedEpoch u,
       (prevTopCommittedCertQuality u, (prevTopCommittedCertBwtAmount u, su_lastTopQualityCertView u))))
    _ Hy)).
  rewrite (bind_ok _ _ _ _ _ (when_stores _ _ [] _ _ (vec_stores _ _ _ txinundo_stores) _ _ Hl)).
  rewrite (bind_ok _ _ _ _ _ (when_stores _ _ [] _ _ (vec_stores _ _ _ txinundo_stores) _ _ Hz)).
  unfold ret, ScUndo_norm. fold m.
  by destruct (has m CROSS_EPOCH_CERT_DATA), (has m ANY_EPOCH_CERT_DATA).
Qed.

Lemma block_undo_read (u : CBlockUndo) (includeSC : bool) (rest : bytes) :
  blockundo_ok u ->
  (includesSidechainAttributes u = false -> Z.of_nat (length (vtxundo u)) < block_undo_marker) ->
  BlockUndo_unser (BlockUndo_init includeSC) (BlockUndo_ser u ++ rest) = Ok (BlockUndo_norm u, rest).
Proof.
  intros (Hs & Ht & Hr & Hz & Hk) Hm. unfold BlockUndo_ser, BlockUndo_unser, BlockUndo_norm.
  destruct (includesSidechainAttributes u).
  - rewrite <- !app_assoc. assert (Hmk : 0 <= block_undo_marker <= MAX_SERIALIZED_COMPACT_SIZE) by done.
    rewrite (bind_ok _ _ _ _ _ (read_compact_app _ _ Hmk)), Z.eqb_refl.
    rewrite (bind_ok _ _ _ _ _ (vec_stores _ _ _ txundo_stores _ _ (conj Hs Ht))).
    rewrite (unser_then s_uint256 _) by done.
    by rewrite (bind_ok _ _ _ _ _ (map_stores _ _ _ scundo_stores _ _ (conj Hz Hk))).
  - cbn [ser s_vec]. rewrite <- !app_assoc.
    rewrite (bind_ok _ _ _ _ _ (read_compact_app _ _ (conj (Nat2Z.is_nonneg _) Hs))).
    specialize (Hm eq_refl). rewrite (proj2 (Z.eqb_neq _ _)) by lia. rewrite Nat2Z.id.
    rewrite (bind_ok _ _ _ _ _ (read_n_stores _ _ _ _ _ txundo_stores Ht)).
    by rewrite (unser_then s_uint256 _) by done.
Qed.

(** C14: the undo information of a block survives the disk: reading what was
    written gives it back, up to what is not stored (a negative version keeps its
    low 7 bits, a section whose bit is not set reads as new), both in the format
    with sidechain data and in the format that precedes sidechains; the latter
    cannot be mistaken for the former as long as the block has fewer transactions
    than the marker. *)
Theorem block_undo_roundtrip (u : CBlockUndo) (includeSC : bool) (rest : bytes) :
  blockundo_ok u ->
  (includesSidechainAttributes u = false -> Z.of_nat (length (vtxundo u)) < block_undo_marker) ->
  BlockUndo_unser (BlockUndo_init includeSC) (BlockUndo_ser u ++ rest) = Ok (BlockUndo_norm u, rest).
Proof. apply block_undo_read. Qed.

(** [CSidechainUndoData::GetSerializeSize] announces exactly the bytes written
    unless the epoch-end section is present: it then leaves out the fee buffer that
    [Serialize] writes in that section. *)
Theorem scundo_size (u : CSidechainUndoData) :
  scundo_ok u ->
  Z.of_nat (length (ScUndo_ser u)) =
  ScUndo_GetSerializeSize u
  + (if has (contentBitMask u) CROSS_EPOCH_CERT_DATA then ser_size (s_vec s_feedata) (su_scFees u) else 0).
Proof.
  intros (Hv & Hm & Ha & [Hc1 Hc2] & (Hh & He & Hq & Hb & Hw) & Hl & Hz).
  unfold ScUndo_ser, ScUndo_GetSerializeSize. set (m := contentBitMask u) in *.
  assert (Hvec : forall l, short l /\ Forall txinundo_ok l ->
    Z.of_nat (length (ser (s_vec s_txinundo) l)) = ser_size (s_vec s_txinundo) l).
  { intros l [H1 H2]. cbn [ser ser_size s_vec]. rewrite length_app, Nat2Z.inj_add, compact_size_length.
    f_equal. clear H1. induction H2 as [|x l Hx Hl' IH]; [done|].
    cbn [map concat foldr]. rewrite length_app, Nat2Z.inj_add, IH. f_equal. symmetry.
    by apply TxInUndo_size_ok. }
  rewrite !length_app, !Nat2Z.inj_add. cbn [ser s_when s_cross s_any].
  pose proof (ser_size_ser (s := s_u32) _ Hv) as <-. pose proof (ser_size_ser (s := s_u8) _ Hm) as <-.
  rewrite (ser_size_ser (s := s_vec s_feedata) _ Hc2), (ser_size_ser (s := s_certview) _ Hc1),
    (ser_size_ser (s := s_certview) _ Hw).
  rewrite <- (Hvec _ Hl), <- (Hvec _ Hz).
  destruct (has m MATURED_AMOUNTS), (has m CROSS_EPOCH_CERT_DATA), (has m ANY_EPOCH_CERT_DATA),
    (has m SUPERSEDED_CERT_DATA), (has m CEASED_CERT_DATA);
    cbn [ser s_pair fst snd]; rewrite ?length_app, ?Nat2Z.inj_add;
    rewrite <- ?(ser_size_ser (s := s_i64) _ Ha), <- ?(ser_size_ser (s := s_uint256) _ Hh),
      <- ?(ser_size_ser (s := s_i32) _ He), <- ?(ser_size_ser (s := s_i64) _ Hq),
      <- ?(ser_size_ser (s := s_i64) _ Hb); cbn [ser_size s_u32 s_u8 s_i64 s_i32 s_uint256 length]; lia.
Qed.
End Undo_lemmas.

(** ** An instance: a certificate's last output spent, a sidechain whose epoch ended *)
Definition sample_txinundo : CTxInUndo :=
  mkTxInUndo (mkTxOut 70 [OP_CHECKSIG]) false 120 SC_CERT_VERSION 3 150.

Definition sample_scundo : CSidechainUndoData :=
  mkScUndo 0 (Z.lor CROSS_EPOCH_CERT_DATA CEASED_CERT_DATA) 0 (mkCertView [1; 2] 5 6)
    [mkScFeeData 5 6] 0 EPOCH_NULL QUALITY_NULL 0 CertView_null [] [sample_txinundo].

Definition sample_blockundo : CBlockUndo :=
  mkBlockUndo true [[sample_txinundo]] 9 {[ 7 := sample_scundo ]}.

Ltac stored_ok :=
  repeat match goal with
  | |- _ /\ _ => split
  | |- txout_ok _ => unfold txout_ok
  | |- certview_ok _ => unfold certview_ok
  | |- feedata_ok _ => unfold feedata_ok
  | |- is_i32 _ => unfold is_i32
  | |- is_i64 _ => unfold is_i64
  | |- short _ => unfold short
  | |- Forall _ _ => constructor
  end; try solve [vm_compute; congruence].

Lemma sample_txinundo_ok : txinundo_ok sample_txinundo.
Proof. unfold txinundo_ok. stored_ok. Qed.

Lemma sample_scundo_ok : scundo_ok sample_scundo.
Proof.
  unfold scundo_ok. cbn [lowQualityBwts ceasedBwts su_scFees sample_scundo]. stored_ok.
  apply sample_txinundo_ok.
Qed.

Lemma block_undo_roundtrip_witness :
  BlockUndo_unser (H := toy_curve) (BlockUndo_init false)
    (BlockUndo_ser (H := toy_curve) sample_blockundo ++ [1]) = Ok (BlockUndo_norm sample_blockundo, [1]).
Proof.
  refine (block_undo_roundtrip (H0 := toy_curve_laws) sample_blockundo false [1] _ _).
  2: { intros Hx. cbn in Hx. discriminate Hx. }
  unfold blockundo_ok. cbn [vtxundo sample_blockundo].
  split; [stored_ok|]. split.
  { constructor; [|constructor]. unfold txundo_ok. stored_ok. apply sample_txinundo_ok. }
  split; [cbn; lia|]. split; [stored_ok|].
  intros k v Hk. cbn [scUndoDatabyScId sample_blockundo] in Hk.
  apply lookup_singleton_Some in Hk as [<- <-]. split; [lia|apply sample_scundo_ok].
Defined.

Lemma scundo_size_witness :
  Z.of_nat (length (ScUndo_ser (H := toy_curve) sample_scundo))
  = ScUndo_GetSerializeSize (H := toy_curve) sample_scundo + 17.
Proof. rewrite (scundo_size (H0 := toy_curve_laws) sample_scundo sample_scundo_ok). reflexivity. Defined.
