(* ===== verification/Merkle.v ===== *)
(** * The incremental Merkle tree of note commitments

    [zcash/IncrementalMerkleTree.hpp] and [.cpp]: the template
    [IncrementalMerkleTree<Depth, Hash>] and the witness [IncrementalWitness] of a
    position, over any hash with [combine] and [uncommitted]. *)

From stdpp Require Import base numbers list strings option.
From Stdlib Require Import ZArith Lia.
From S2P Require Import Prelude.
Open Scope Z_scope.
Open Scope zen_scope.

(** What the template asks of its [Hash] argument. *)
Class MerkleHash (H : Type) := {
  combine : H -> H -> nat -> H;
  uncommitted : H }.

Section Tree.
  Context {H : Type} `{MerkleHash H} (Depth : nat).

(** ** Data *)
Record IncrementalMerkleTree := mkTree {
  left : option H;
  right : option H;
  parents : list (option H) }.

Definition empty_tree : IncrementalMerkleTree := mkTree None None [].

(** [EmptyMerkleRoots] *)
Fixpoint empty_root (d : nat) : H :=
  match d with
  | O => uncommitted
  | S d' => let r := empty_root d' in combine r r d'
  end.

(** [PathFiller::next] on its queue *)
Definition next (depth : nat) (queue : list H) : H * list H :=
  match queue with
  | h :: q => (h, q)
  | [] => (empty_root depth, [])
  end.

(** ** Operations *)
Definition wfcheck (t : IncrementalMerkleTree) : res unit :=
  if (Depth <=? length (parents t))%nat then Err (Exception "tree has too many parents")
  else if match list.last (parents t) with Some None => true | _ => false end
  then Err (Exception "tree has non-canonical representation of parent")
  else match left t, right t with
       | None, Some _ => Err (Exception "tree has non-canonical representation; right should not exist")
       | None, None =>
           if (0 <? length (parents t))%nat
           then Err (Exception "tree has non-canonical representation; parents should not be unempty")
           else Ok tt
       | Some _, _ => Ok tt
       end.

Definition tree_last (t : IncrementalMerkleTree) : res H :=
  match right t, left t with
  | Some r, _ => Ok r
  | None, Some l => Ok l
  | None, None => Err (Exception "tree has no cursor")
  end.

Fixpoint parents_size (i : nat) (ps : list (option H)) : Z :=
  match ps with
  | [] => 0
  | p :: ps' => (if p is Some _ then Z.shiftl 1 (Z.of_nat (i + 1)) else 0) + parents_size (S i) ps'
  end.

(** [size_t] from [int] shifts, which stay in range at the depths 29 and 4 that are instantiated *)
Definition tree_size (t : IncrementalMerkleTree) : Z :=
  (if left t is Some _ then 1 else 0) + (if right t is Some _ then 1 else 0) + parents_size 0 (parents t).

Definition is_complete (t : IncrementalMerkleTree) (depth : nat) : bool :=
  match left t, right t with
  | Some _, Some _ =>
      (Z.of_nat (length (parents t)) =? Z.of_nat depth - 1)
      && forallb (fun p => match p with Some _ => true | None => false end) (parents t)
  | _, _ => false
  end.

(** the loop of [append] over the parents, [i] counting up to [Depth] *)
Fixpoint propagate (fuel i : nat) (combined : H) (ps : list (option H)) : list (option H) :=
  match fuel with
  | O => ps
  | S fuel' =>
      match ps with
      | [] => [Some combined]
      | Some p :: ps' => None :: propagate fuel' (S i) (combine p combined (i + 1)) ps'
      | None :: ps' => Some combined :: ps'
      end
  end.

Definition append (obj : H) (t : IncrementalMerkleTree) : res IncrementalMerkleTree :=
  if is_complete t Depth then Err (Exception "tree is full")
  else match left t, right t with
       | None, _ => Ok (mkTree (Some obj) (right t) (parents t))
       | Some l, None => Ok (mkTree (Some l) (Some obj) (parents t))
       | Some l, Some r => Ok (mkTree (Some obj) None (propagate Depth 0 (combine l r 0) (parents t)))
       end.

(** the levels of [root] that have a parent *)
Fixpoint root_parents (d : nat) (root : H) (filler : list H) (ps : list (option H)) : nat * H * list H :=
  match ps with
  | [] => (d, root, filler)
  | Some p :: ps' => root_parents (S d) (combine p root d) filler ps'
  | None :: ps' =>
      let '(h, filler') := next d filler in root_parents (S d) (combine root h d) filler' ps'
  end.

(** [while (d < depth)], [n] iterations *)
Fixpoint root_fill (n d : nat) (root : H) (filler : list H) : H :=
  match n with
  | O => root
  | S n' => let '(h, filler') := next d filler in root_fill n' (S d) (combine root h d) filler'
  end.

Definition root_at (t : IncrementalMerkleTree) (depth : nat) (filler_hashes : list H) : H :=
  let '(combine_left, f1) := match left t with Some l => (l, filler_hashes) | None => next 0 filler_hashes end in
  let '(combine_right, f2) := match right t with Some r => (r, f1) | None => next 0 f1 end in
  let '(d, root, f3) := root_parents 1 (combine combine_left combine_right 0) f2 (parents t) in
  root_fill (depth - d) d root f3.

(** [root()] *)
Definition tree_root (t : IncrementalMerkleTree) : H := root_at t Depth [].

(** the levels of [next_depth] that have a parent; [inl] is the early return *)
Fixpoint next_depth_parents (d skip : nat) (ps : list (option H)) : nat :=
  match ps with
  | [] => d + skip
  | Some _ :: ps' => next_depth_parents (S d) skip ps'
  | None :: ps' => match skip with O => d | S skip' => next_depth_parents (S d) skip' ps' end
  end.

Definition next_depth (t : IncrementalMerkleTree) (skip : nat) : nat :=
  match left t, skip with
  | None, O => O
  | None, S skip1 =>
      match right t, skip1 with
      | None, O => O
      | None, S skip2 => next_depth_parents 1 skip2 (parents t)
      | Some _, _ => next_depth_parents 1 skip1 (parents t)
      end
  | Some _, _ =>
      match right t, skip with
      | None, O => O
      | None, S skip2 => next_depth_parents 1 skip2 (parents t)
      | Some _, _ => next_depth_parents 1 skip (parents t)
      end
  end.

Fixpoint path_parents (d : nat) (filler : list H) (ps : list (option H))
  : list (bool * H) * nat * list H :=
  match ps with
  | [] => ([], d, filler)
  | Some p :: ps' =>
      let '(l, d', f') := path_parents (S d) filler ps' in ((true, p) :: l, d', f')
  | None :: ps' =>
      let '(h, f) := next d filler in
      let '(l, d', f') := path_parents (S d) f ps' in ((false, h) :: l, d', f')
  end.

Fixpoint path_fill (n d : nat) (filler : list H) : list (bool * H) :=
  match n with
  | O => []
  | S n' => let '(h, f) := next d filler in (false, h) :: path_fill n' (S d) f
  end.

(** [path], from the leaf up (the code reverses [index] and [path] at the end and
    turns the hashes into bits) *)
Definition tree_path (t : IncrementalMerkleTree) (filler_hashes : list H) : res (list (bool * H)) :=
  match left t with
  | None => Err (Exception "can't create an authentication path for the beginning of the tree")
  | Some l =>
      let '(first, f1) := match right t with
                          | Some _ => ((true, l), filler_hashes)
                          | None => let '(h, f) := next 0 filler_hashes in ((false, h), f)
                          end in
      let '(mid, d, f2) := path_parents 1 f1 (parents t) in
      Ok (first :: mid ++ path_fill (Depth - d) d f2)
  end.

(** ** Witnesses *)
Record IncrementalWitness := mkWitness {
  w_tree : IncrementalMerkleTree;
  filled : list H;
  cursor : option IncrementalMerkleTree;
  cursor_depth : nat }.

Definition witness (t : IncrementalMerkleTree) : IncrementalWitness := mkWitness t [] None 0.

Definition partial_path (w : IncrementalWitness) : list H :=
  filled w ++ match cursor w with Some c => [root_at c (cursor_depth w) []] | None => [] end.

Definition witness_root (w : IncrementalWitness) : H := root_at (w_tree w) Depth (partial_path w).

Definition witness_path (w : IncrementalWitness) : res (list (bool * H)) :=
  tree_path (w_tree w) (partial_path w).

Definition element (w : IncrementalWitness) : res H := tree_last (w_tree w).

Definition witness_append (obj : H) (w : IncrementalWitness) : res IncrementalWitness :=
  match cursor w with
  | Some c =>
      match append obj c with
      | Err e => Err e
      | Ok c' =>
          if is_complete c' (cursor_depth w)
          then Ok (mkWitness (w_tree w) (filled w ++ [root_at c' (cursor_depth w) []]) None (cursor_depth w))
          else Ok (mkWitness (w_tree w) (filled w) (Some c') (cursor_depth w))
      end
  | None =>
      let d := next_depth (w_tree w) (length (filled w)) in
      if (Depth <=? d)%nat then Err (Exception "tree is full")
      else if (d =? 0)%nat then Ok (mkWitness (w_tree w) (filled w ++ [obj]) None d)
      else match append obj empty_tree with
           | Err e => Err e
           | Ok c => Ok (mkWitness (w_tree w) (filled w) (Some c) d)
           end
  end.
End Tree.

Arguments IncrementalMerkleTree : clear implicits.
Arguments IncrementalWitness : clear implicits.

(** ** Reference: the root of a list of leaves, the missing ones uncommitted *)
Section Spec.
  Context {H : Type} `{MerkleHash H}.

Fixpoint merkle (d : nat) (l : list H) : H :=
  match d with
  | O => default uncommitted (head l)
  | S d' => combine (merkle d' (take (2 ^ d') l)) (merkle d' (drop (2 ^ d') l)) d'
  end.

(** A list of optional subtree roots at levels [d], [d+1], ... stands for leaves. *)
Inductive repP : nat -> list (option H) -> list H -> Prop :=
| repP_nil d : repP d [] []
| repP_some d ps l x :
    repP (S d) ps l -> length x = (2 ^ d)%nat -> repP d (Some (merkle d x) :: ps) (l ++ x)
| repP_none d ps l : repP (S d) ps l -> repP d (None :: ps) l.

Definition leaf (o : option H) : list H := match o with Some x => [x] | None => [] end.

(** The tree [t] holds the leaves [l]. *)
Definition rep (t : IncrementalMerkleTree H) (l : list H) : Prop :=
  exists lp, repP 1 (parents t) lp /\ l = lp ++ leaf (left t) ++ leaf (right t)
    /\ (left t = None -> right t = None /\ parents t = [])
    /\ list.last (parents t) <> Some None.

(** The subtrees of levels [ds] filled with the leaves [m], in order. *)
Inductive fills : list nat -> list H -> list H -> Prop :=
| fills_nil ds : fills ds [] []
| fills_cons d ds q y m :
    (length y <= 2 ^ d)%nat -> (length y = 2 ^ d \/ (q = [] /\ m = []))%nat ->
    fills ds q m -> fills (d :: ds) (merkle d y :: q) (y ++ m).

(** The levels that have no subtree yet. *)
Fixpoint gaps (d : nat) (ps : list (option H)) : list nat :=
  match ps with
  | [] => []
  | Some _ :: ps' => gaps (S d) ps'
  | None :: ps' => d :: gaps (S d) ps'
  end.

Definition tree_gaps (t : IncrementalMerkleTree H) (depth : nat) : list nat :=
  (if right t is Some _ then [] else [O]) ++ gaps 1 (parents t)
  ++ seq (S (length (parents t))) (depth - S (length (parents t))).

(** ** Lemmas on the reference *)
Lemma merkle_nil d : merkle d [] = empty_root d.
Proof. induction d as [|d IH]; [done|]. cbn [merkle empty_root]. by rewrite take_nil, drop_nil, IH. Qed.

Lemma merkle_split d x y :
  (length x <= 2 ^ d)%nat -> (length x = 2 ^ d)%nat \/ y = [] ->
  combine (merkle d x) (merkle d y) d = merkle (S d) (x ++ y).
Proof.
  intros Hx [Hf| ->]; cbn [merkle].
  - by rewrite <- Hf, take_app_length, drop_app_length.
  - by rewrite app_nil_r, take_ge, drop_ge by lia.
Qed.

Lemma pow2_S d : (2 ^ S d = 2 ^ d + 2 ^ d)%nat.
Proof. cbn. lia. Qed.

Lemma repP_length d ps l :
  repP d ps l ->
  (length l + 2 ^ d <= 2 ^ (d + length ps))%nat
  /\ (forallb (fun p => match p with Some _ => true | None => false end) ps = true
      <-> length l + 2 ^ d = 2 ^ (d + length ps))%nat.
Proof.
  induction 1 as [d|d ps l x Hr [IH1 IH2] Hx|d ps l Hr [IH1 IH2]]; cbn [length forallb].
  - rewrite Nat.add_0_r. split; [lia|]. split; [lia|done].
  - rewrite length_app, Nat.add_succ_r. rewrite pow2_S in IH1, IH2.
    change (2 ^ S (d + length ps))%nat with (2 ^ (S d + length ps))%nat.
    split; [lia|]. cbn [andb]. rewrite IH2. lia.
  - rewrite Nat.add_succ_r. rewrite pow2_S in IH1.
    change (2 ^ S (d + length ps))%nat with (2 ^ (S d + length ps))%nat.
    pose proof (Nat.pow_nonzero 2 d ltac:(lia)). split; [lia|]. split; [done|lia].
Qed.

Lemma repP_last d ps l :
  repP d ps l -> ps <> [] -> list.last ps <> Some None -> (2 ^ (d + length ps) <= 2 * length l)%nat.
Proof.
  induction 1 as [d|d ps l x Hr IH Hx|d ps l Hr IH]; intros Hne Hlast; [done| |].
  - rewrite length_app. cbn [length]. rewrite Nat.add_succ_r. destruct ps as [|p ps].
    + inversion Hr; subst. cbn [length]. rewrite Nat.add_0_r, pow2_S. lia.
    + specialize (IH ltac:(done) ltac:(by destruct ps)). cbn [Nat.add] in IH |- *. lia.
  - cbn [length]. rewrite Nat.add_succ_r. destruct ps as [|p ps]; [done|].
    specialize (IH ltac:(done) ltac:(by destruct ps)). cbn [Nat.add] in IH |- *. lia.
Qed.

(** ** The root *)
Lemma root_parents_spec d ps lp r lr f m ds :
  repP d ps lp -> r = merkle d lr -> (length lr <= 2 ^ d)%nat ->
  (length lr = 2 ^ d \/ (f = [] /\ m = []))%nat -> fills (gaps d ps ++ ds) f m ->
  exists lr' m' f', root_parents d r f ps = (d + length ps, merkle (d + length ps) lr', f')%nat
    /\ (length lr' <= 2 ^ (d + length ps))%nat
    /\ (length lr' = 2 ^ (d + length ps) \/ (f' = [] /\ m' = []))%nat
    /\ fills ds f' m' /\ lp ++ lr ++ m = lr' ++ m'.
Proof.
  intros Hp. revert r lr f m. induction Hp as [d|d ps l x Hr IH Hx|d ps l Hr IH];
    intros r lr f m -> Hle Hfull Hf; cbn [root_parents gaps length] in *.
  - rewrite Nat.add_0_r. exists lr, m, f. split_and!; try done.
  - rewrite (merkle_split d x lr) by (left; lia) || lia.
    destruct (IH (merkle (S d) (x ++ lr)) (x ++ lr) f m) as (lr' & m' & f' & E1 & E2 & E3 & E4 & E5).
    + done.
    + rewrite length_app, pow2_S. lia.
    + rewrite length_app, pow2_S. destruct Hfull as [->|]; [left; lia|by right].
    + done.
    + exists lr', m', f'. rewrite Nat.add_succ_r. split_and!; try done. by rewrite <- E5, <- !app_assoc.
  - cbn [app] in Hf. rewrite Nat.add_succ_r.
    inversion Hf as [ds'|d' ds' q y m0 Hy Hyf Hq E1 E2 E3]; subst; cbn [next].
    + rewrite <- merkle_nil, merkle_split by (done || by right).
      replace (merkle (S d) (lr ++ [])) with (merkle (S d) lr) by (by rewrite app_nil_r).
      apply (IH _ lr); [done|rewrite pow2_S; lia|by right|constructor].
    + assert (Hlr : (length lr = 2 ^ d)%nat) by (destruct Hfull as [|[]]; done).
      rewrite merkle_split by (lia || by left).
      destruct (IH (merkle (S d) (lr ++ y)) (lr ++ y) q m0) as (lr' & m' & f' & E1 & E2 & E3 & E4 & E5).
      * done.
      * rewrite length_app, pow2_S. lia.
      * rewrite length_app, pow2_S. destruct Hyf as [->|]; [left; lia|by right].
      * done.
      * exists lr', m', f'. split_and!; try done. by rewrite <- E5, <- !app_assoc.
Qed.

Lemma root_fill_spec n d lr f m :
  (length lr <= 2 ^ d)%nat -> (length lr = 2 ^ d \/ (f = [] /\ m = []))%nat -> fills (seq d n) f m ->
  root_fill n d (merkle d lr) f = merkle (d + n) (lr ++ m).
Proof.
  revert d lr f m. induction n as [|n IH]; intros d lr f m Hle Hfull Hf; cbn [root_fill].
  - inversion Hf; subst. by rewrite Nat.add_0_r, app_nil_r.
  - rewrite Nat.add_succ_r. cbn [seq] in Hf.
    inversion Hf as [ds'|d' ds' q y m0 Hy Hyf Hq E1 E2 E3]; subst; cbn [next].
    + rewrite <- merkle_nil, merkle_split by (done || by right).
      replace (merkle (S d) (lr ++ [])) with (merkle (S d) lr) by (by rewrite app_nil_r). apply IH; [rewrite pow2_S; lia|by right|constructor].
    + assert (Hlr : (length lr = 2 ^ d)%nat) by (destruct Hfull as [|[]]; done).
      rewrite merkle_split by (lia || by left). rewrite app_assoc.
      apply IH; [rewrite length_app, pow2_S; lia| |done].
      rewrite length_app, pow2_S. destruct Hyf as [->|]; [left; lia|by right].
Qed.

Lemma root_at_spec t l depth q m :
  rep t l -> (left t = None -> q = [] /\ m = []) -> (length (parents t) < depth)%nat ->
  fills (tree_gaps t depth) q m -> root_at t depth q = merkle depth (l ++ m).
Proof.
  intros (lp & Hp & -> & Hnone & _) Hleft Hlen Hf. unfold root_at, tree_gaps in *.
  assert (Hbase : exists lr m' q', (length lr <= 2)%nat /\ (length lr = 2 \/ (q' = [] /\ m' = []))%nat
    /\ (let '(cl, f1) := match left t with Some l => (l, q) | None => next 0 q end in
        let '(cr, f2) := match right t with Some r => (r, f1) | None => next 0 f1 end in
        (combine cl cr 0, f2)) = (merkle 1 lr, q')
    /\ fills (gaps 1 (parents t) ++ seq (S (length (parents t))) (depth - S (length (parents t)))) q' m'
    /\ (leaf (left t) ++ leaf (right t)) ++ m = lr ++ m').
  { destruct (left t) as [a|].
    - destruct (right t) as [b|]; cbn [app leaf] in *.
      + exists [a; b], m, q. split_and!; try done; by left.
      + inversion Hf as [ds'|d' ds' q0 y m0 Hy Hyf Hq E1 E2 E3]; subst; cbn [next].
        * exists [a], [], []. split_and!; try done; [cbn; lia|by right|constructor].
        * destruct y as [|b [|]]; cbn in Hy; [|exists [a; b], m0, q0|lia].
          { destruct Hyf as [|[-> ->]]; [done|].
            exists [a], [], []. split_and!; try done; [cbn; lia|by right]. }
          split_and!; try done; by left.
    - destruct (Hnone eq_refl) as [-> Hps]. destruct (Hleft eq_refl) as [-> ->]. rewrite Hps. cbn.
      exists [], [], []. split_and!; try done; [cbn; lia|by right|constructor]. }
  destruct Hbase as (lr & m' & q' & H1 & H2 & H3 & H4 & H5).
  destruct (match left t with Some l => (l, q) | None => next 0 q end) as [cl f1].
  destruct (match right t with Some r => (r, f1) | None => next 0 f1 end) as [cr f2].
  simplify_eq. destruct (root_parents_spec 1 _ _ _ lr _ m' _ Hp H3 H1 H2 H4)
    as (lr' & m'' & f' & E1 & E2 & E3 & E4 & E5).
  rewrite E1. rewrite (root_fill_spec _ _ _ _ m'') by done.
  f_equal; [lia|]. by rewrite <- E5, <- H5, <- !app_assoc.
Qed.

(** ** Appending *)
Lemma propagate_spec fuel i ps lp x :
  repP (S i) ps lp -> length x = (2 ^ S i)%nat -> (length ps < fuel)%nat ->
  list.last ps <> Some None ->
  repP (S i) (propagate fuel i (merkle (S i) x) ps) (lp ++ x)
  /\ list.last (propagate fuel i (merkle (S i) x) ps) <> Some None
  /\ propagate fuel i (merkle (S i) x) ps <> [].
Proof.
  revert i ps lp x. induction fuel as [|fuel IH]; intros i ps lp x Hp Hx Hf Hl; [lia|].
  cbn [propagate]. destruct ps as [|[p|] ps]; inversion Hp as [|d ps' l y Hr Hy|d ps' l Hr]; subst.
  - split_and!; try done. apply (repP_some _ [] []); [constructor|done].
  - change (combine (merkle i (take (2 ^ i) y)) (merkle i (drop (2 ^ i) y)) i) with (merkle (S i) y) in *.
    rewrite Nat.add_1_r, (merkle_split (S i) y x) by (lia || by left).
    assert (Hps : list.last ps <> Some None) by (destruct ps; [done|exact Hl]).
    destruct (IH (S i) ps l (y ++ x) Hr) as (H1 & H2 & H3); [rewrite length_app, pow2_S; lia|cbn in Hf; lia|done|].
    rewrite <- app_assoc. split_and!; [by constructor| |done].
    by destruct (propagate fuel (S i) _ ps).
  - split_and!; [by constructor| |done]. destruct ps; [done|exact Hl].
Qed.

Lemma rep_length t l depth :
  rep t l -> (0 < depth)%nat -> (length l <= 2 ^ depth)%nat ->
  (length (parents t) < depth)%nat
  /\ (is_complete t depth = true <-> length l = 2 ^ depth)%nat.
Proof.
  intros (lp & Hp & -> & Hnone & Hlast) Hd Hl. rewrite !length_app in Hl |- *.
  destruct (repP_length _ _ _ Hp) as [Hle Heq]. unfold is_complete. cbn [Nat.add] in Hle, Heq.
  assert (Hps : (length (parents t) < depth)%nat).
  { destruct (decide (parents t = [])) as [->|Hne]; [cbn; lia|].
    assert (Hll : left t <> None) by (intros E; by destruct (Hnone E)).
    pose proof (repP_last _ _ _ Hp Hne Hlast) as Hlo. cbn [Nat.add] in Hlo. rewrite pow2_S in Hlo.
    destruct (left t); [cbn in Hl|done].
    apply (Nat.pow_lt_mono_r_iff 2); [lia|]. lia. }
  split; [done|]. rewrite (pow2_S (length (parents t))) in Hle, Heq.
  change (2 ^ 1)%nat with 2%nat in Hle, Heq.
  assert (Hmono : (2 ^ length (parents t) <= 2 ^ (depth - 1))%nat) by (apply Nat.pow_le_mono_r; lia).
  assert (HD : (2 ^ depth = 2 ^ (depth - 1) + 2 ^ (depth - 1))%nat).
  { replace depth with (S (depth - 1)) at 1 by lia. apply pow2_S. }
  destruct (left t), (right t); cbn [leaf length] in *; try (split; [done|lia]).
  rewrite andb_true_iff, Heq, Z.eqb_eq. split.
  - intros [H1 H2]. replace (length (parents t)) with (depth - 1)%nat in H2 by lia. lia.
  - intros H1. assert (H2 : (2 ^ length (parents t) = 2 ^ (depth - 1))%nat) by lia.
    apply Nat.pow_inj_r in H2; [|lia]. split; [lia|]. rewrite H2. lia.
Qed.

Lemma append_spec Depth t l x :
  rep t l -> (0 < Depth)%nat -> (length l <= 2 ^ Depth)%nat ->
  if decide (length l = 2 ^ Depth)%nat then append Depth x t = Err (Exception "tree is full")
  else exists t', append Depth x t = Ok t' /\ rep t' (l ++ [x]).
Proof.
  intros Hrep HD Hl. destruct (rep_length t l Depth Hrep HD Hl) as [Hps Hc]. unfold append.
  case_decide as Hfull; [by rewrite (proj2 Hc Hfull)|].
  destruct (is_complete t Depth) eqn:E; [by apply proj1 in Hc; specialize (Hc eq_refl)|].
  destruct Hrep as (lp & Hp & -> & Hnone & Hlast).
  destruct (left t) as [a|] eqn:El; [destruct (right t) as [b|] eqn:Er|].
  - eexists. split; [done|].
    destruct (propagate_spec Depth 0 (parents t) lp [a; b] Hp) as (H1 & H2 & H3); [done|lia|done|].
    exists (lp ++ [a; b]). cbn. split_and!; [exact H1|by rewrite <- !app_assoc|done|exact H2].
  - eexists. split; [done|]. exists lp. cbn. split_and!; [done|by rewrite <- !app_assoc|done|done].
  - eexists. split; [done|]. destruct (Hnone eq_refl) as [-> Hn].
    exists lp. cbn. split_and!; [done|by rewrite <- !app_assoc|done|done].
Qed.

Lemma parents_size_spec d ps l :
  repP (S d) ps l -> parents_size d ps = Z.of_nat (length l).
Proof.
  intros Hp. remember (S d) as d' eqn:Hd. revert d Hd.
  induction Hp as [d'|d' ps l x Hr IH Hx|d' ps l Hr IH]; intros d ->; cbn [parents_size]; [done| |].
  - rewrite (IH (S d) eq_refl), length_app, Hx, Z.shiftl_1_l, Nat.add_1_r.
    rewrite Nat2Z.inj_add, (Nat2Z.inj_pow 2 (S d)). lia.
  - by rewrite (IH (S d) eq_refl).
Qed.

Fixpoint append_all (Depth : nat) (l : list H) (t : IncrementalMerkleTree H) : res (IncrementalMerkleTree H) :=
  match l with
  | [] => Ok t
  | x :: l' => match append Depth x t with Ok t' => append_all Depth l' t' | Err e => Err e end
  end.

Lemma append_all_spec Depth l : forall t l0,
  rep t l0 -> (0 < Depth)%nat -> (length l0 <= 2 ^ Depth)%nat ->
  if decide (length l0 + length l <= 2 ^ Depth)%nat
  then exists t', append_all Depth l t = Ok t' /\ rep t' (l0 ++ l)
  else append_all Depth l t = Err (Exception "tree is full").
Proof.
  induction l as [|x l IH]; intros t l0 Hrep HD Hl; cbn [append_all length].
  - rewrite decide_True by lia. exists t. by rewrite app_nil_r.
  - pose proof (append_spec Depth t l0 x Hrep HD Hl) as Ha.
    destruct (decide (length l0 = 2 ^ Depth)%nat).
    + rewrite Ha, decide_False by lia. done.
    + destruct Ha as (t' & -> & Hrep'). specialize (IH t' (l0 ++ [x]) Hrep' HD).
      rewrite length_app in IH. cbn [length] in IH. specialize (IH ltac:(lia)).
      rewrite <- app_assoc in IH. replace (length l0 + S (length l))%nat with (length l0 + 1 + length l)%nat by lia.
      exact IH.
Qed.

Lemma rep_empty : rep (empty_tree (H := H)) [].
Proof. exists []. split_and!; [constructor|done|done|done]. Qed.

Lemma tree_root_spec Depth t l :
  rep t l -> (0 < Depth)%nat -> (length l <= 2 ^ Depth)%nat -> tree_root Depth t = merkle Depth l.
Proof.
  intros Hrep HD Hl. destruct (rep_length t l Depth Hrep HD Hl) as [Hps _].
  unfold tree_root. rewrite (root_at_spec t l Depth [] []); [by rewrite app_nil_r|done|done|done|constructor].
Qed.

(** C8: the incremental tree implements the Merkle tree of its leaves: appending a
    list of commitments to an empty tree succeeds exactly when they fit in
    [2^Depth] leaves (otherwise "tree is full" is thrown), and then [root] is the
    root of the full binary tree over them, padded with uncommitted leaves, [size]
    is their number, and the representation passes [wfcheck]. *)
Theorem merkle_tree_refinement (Depth : nat) (l : list H) :
  (0 < Depth)%nat ->
  if decide (length l <= 2 ^ Depth)%nat
  then exists t, append_all Depth l empty_tree = Ok t
         /\ tree_root Depth t = merkle Depth l /\ tree_size t = Z.of_nat (length l)
         /\ wfcheck Depth t = Ok tt
  else append_all Depth l empty_tree = Err (Exception "tree is full").
Proof.
  intros HD. pose proof (append_all_spec Depth l empty_tree [] rep_empty HD ltac:(cbn; lia)) as Ha.
  cbn [length Nat.add app] in Ha. case_decide as Hl; [|done]. destruct Ha as (t & -> & Hrep).
  exists t. split; [done|]. split; [by apply tree_root_spec|].
  pose proof (rep_length t l Depth Hrep HD Hl) as [Hps _].
  destruct Hrep as (lp & Hp & -> & Hnone & Hlast). split.
  - unfold tree_size. rewrite (parents_size_spec _ _ _ Hp), !length_app.
    destruct (left t), (right t); cbn; lia.
  - unfold wfcheck. rewrite (proj2 (Nat.leb_gt _ _)) by lia.
    destruct (list.last (parents t)) as [[]|]; try done;
    (destruct (left t); [done|]; destruct (Hnone eq_refl) as [-> ->]; done).
Qed.
(** ** Witnesses *)

(** Complete subtrees of levels [ds] over the leaves [m]. *)
Inductive fulls : list nat -> list H -> list H -> Prop :=
| fulls_nil ds : fulls ds [] []
| fulls_cons d ds q y m :
    length y = (2 ^ d)%nat -> fulls ds q m -> fulls (d :: ds) (merkle d y :: q) (y ++ m).

Fixpoint sum_pow (ds : list nat) : nat :=
  match ds with
  | [] => O
  | d :: ds' => (2 ^ d + sum_pow ds')%nat
  end.

Lemma fulls_fills ds q m : fulls ds q m -> fills ds q m.
Proof. induction 1; constructor; [lia|by left|done]. Qed.

Lemma fulls_snoc ds q m d y :
  fulls ds q m -> ds !! length q = Some d -> (length y <= 2 ^ d)%nat ->
  fills ds (q ++ [merkle d y]) (m ++ y)
  /\ (length y = 2 ^ d -> fulls ds (q ++ [merkle d y]) (m ++ y))%nat.
Proof.
  induction 1 as [ds|d' ds q y' m Hy Hf IH]; intros Hd Hle; cbn [app length] in *.
  - destruct ds as [|d0 ds]; simplify_eq/=. split.
    + pose proof (fills_cons d ds [] y [] Hle (or_intror (conj eq_refl eq_refl)) (fills_nil ds)) as Hf.
      by rewrite app_nil_r in Hf.
    + intros Hl. pose proof (fulls_cons d ds [] y [] Hl (fulls_nil ds)) as Hf. by rewrite app_nil_r in Hf.
  - destruct (IH Hd Hle) as [H1 H2]. rewrite <- app_assoc. split; [|by intros; constructor; auto].
    constructor; [lia|by left|done].
Qed.

Lemma fulls_length ds q m :
  fulls ds q m -> (length q <= length ds)%nat
  /\ (length m = sum_pow (take (length q) ds))%nat.
Proof.
  induction 1 as [ds|d ds q y m Hy Hf [IH1 IH2]]; [cbn; split; [lia|done]|].
  rewrite length_app. cbn [length take sum_pow]. lia.
Qed.

Lemma sum_pow_app a b : sum_pow (a ++ b) = (sum_pow a + sum_pow b)%nat.
Proof. induction a as [|x a IH]; [done|]. cbn [app sum_pow]. rewrite IH. lia. Qed.

Lemma sum_seq a n : (sum_pow (seq a n) + 2 ^ a = 2 ^ (a + n))%nat.
Proof.
  revert a. induction n as [|n IH]; intros a; [by rewrite Nat.add_0_r|].
  cbn [seq sum_pow]. specialize (IH (S a)). rewrite pow2_S in IH.
  rewrite Nat.add_succ_r. cbn [Nat.add] in IH. lia.
Qed.

Lemma gaps_sum d ps l : repP d ps l -> (sum_pow (gaps d ps) + length l + 2 ^ d = 2 ^ (d + length ps))%nat.
Proof.
  induction 1 as [d|d ps l x Hr IH Hx|d ps l Hr IH]; cbn [gaps length].
  - cbn. by rewrite Nat.add_0_r.
  - rewrite length_app, Nat.add_succ_r. rewrite pow2_S in IH. cbn [Nat.add] in IH. lia.
  - rewrite Nat.add_succ_r. rewrite pow2_S in IH. cbn [Nat.add sum_pow] in *. lia.
Qed.

(** The free levels of a tree that has a leaf add up to the leaves it lacks. *)
Lemma tree_gaps_sum t l depth :
  rep t l -> l <> [] -> (length (parents t) < depth)%nat ->
  (sum_pow (tree_gaps t depth) + length l = 2 ^ depth)%nat.
Proof.
  intros (lp & Hp & -> & Hnone & _) Hne Hd. unfold tree_gaps.
  assert (Hl : left t <> None).
  { intros E. destruct (Hnone E) as [E2 E3]. rewrite E3 in Hp. inversion Hp; subst.
    rewrite E, E2 in Hne. done. }
  rewrite !sum_pow_app, !length_app. pose proof (gaps_sum _ _ _ Hp) as H1.
  pose proof (sum_seq (S (length (parents t))) (depth - S (length (parents t)))) as H2.
  replace (S (length (parents t)) + (depth - S (length (parents t))))%nat with depth in H2 by lia.
  change (1 + length (parents t))%nat with (S (length (parents t))) in H1.
  change (2 ^ 1)%nat with 2%nat in H1.
  destruct (left t); [|done]. destruct (right t); cbn [leaf length sum_pow] in *; change (2 ^ 0)%nat with 1%nat; lia.
Qed.

Lemma next_depth_parents_spec d skip ps n :
  (gaps d ps ++ seq (d + length ps) n) !! skip =
  (if decide (next_depth_parents d skip ps < d + length ps + n)%nat
   then Some (next_depth_parents d skip ps) else None).
Proof.
  revert d skip. induction ps as [|[p|] ps IH]; intros d skip; cbn [gaps next_depth_parents app length].
  - rewrite Nat.add_0_r. case_decide.
    + rewrite lookup_seq_lt by lia. done.
    + apply lookup_seq_ge. lia.
  - rewrite Nat.add_succ_r. apply (IH (S d)).
  - rewrite Nat.add_succ_r. destruct skip as [|skip]; cbn [lookup].
    + cbn. rewrite decide_True by lia. done.
    + apply (IH (S d)).
Qed.

Lemma next_depth_spec t depth k :
  left t <> None -> (length (parents t) < depth)%nat ->
  tree_gaps t depth !! k =
  (if decide (next_depth t k < depth)%nat then Some (next_depth t k) else None).
Proof.
  intros Hl Hd. unfold tree_gaps, next_depth. destruct (left t); [|done].
  pose proof (next_depth_parents_spec 1) as Hn. cbn [Nat.add] in Hn.
  assert (E : forall k, (gaps 1 (parents t) ++ seq (S (length (parents t))) (depth - S (length (parents t)))) !! k
    = (if decide (next_depth_parents 1 k (parents t) < depth)%nat
       then Some (next_depth_parents 1 k (parents t)) else None)).
  { intros k'. rewrite Hn.
    by replace (S (length (parents t) + (depth - S (length (parents t)))))%nat with depth by lia. }
  destruct (right t); [apply E|]. destruct k as [|k]; cbn [app]; [|apply E].
  cbn. rewrite decide_True by lia. done.
Qed.
(** The witness taken at the leaves [l] has been fed the leaves [m]. *)
Definition wrep (Depth : nat) (w : IncrementalWitness H) (l m : list H) : Prop :=
  rep (w_tree w) l /\ l <> [] /\
  exists m1 m2, m = m1 ++ m2 /\ fulls (tree_gaps (w_tree w) Depth) (filled w) m1
    /\ match cursor w with
       | None => m2 = []
       | Some c => rep c m2 /\ (0 < cursor_depth w)%nat /\ (length m2 < 2 ^ cursor_depth w)%nat
           /\ tree_gaps (w_tree w) Depth !! length (filled w) = Some (cursor_depth w)
       end.

Lemma rep_left t l : rep t l -> l <> [] -> left t <> None.
Proof.
  intros (lp & Hp & -> & Hnone & _) Hne E. destruct (Hnone E) as [E2 E3]. rewrite E3 in Hp.
  inversion Hp; subst. by rewrite E, E2 in Hne.
Qed.

Lemma take_lookup_sum ds k d :
  ds !! k = Some d -> (sum_pow (take k ds) + 2 ^ d <= sum_pow ds)%nat.
Proof.
  intros Hd. rewrite <- (take_drop k ds) at 2. rewrite sum_pow_app, (drop_S _ _ _ Hd). cbn [sum_pow]. lia.
Qed.

Lemma witness_append_spec Depth w l m x :
  (0 < Depth)%nat -> wrep Depth w l m -> (length l + length m <= 2 ^ Depth)%nat ->
  if decide (length l + length m = 2 ^ Depth)%nat
  then witness_append Depth x w = Err (Exception "tree is full")
  else exists w', witness_append Depth x w = Ok w' /\ wrep Depth w' l (m ++ [x]) /\ w_tree w' = w_tree w.
Proof.
  intros HD (Hrep & Hne & m1 & m2 & -> & Hful & Hcur) Hle.
  destruct (rep_length _ _ _ Hrep HD ltac:(lia)) as [Hps _].
  pose proof (tree_gaps_sum _ _ _ Hrep Hne Hps) as Hsum.
  destruct (fulls_length _ _ _ Hful) as [Hk Hm1]. rewrite length_app in *.
  pose proof (rep_left _ _ Hrep Hne) as Hleft. unfold witness_append. destruct (cursor w) as [c|].
  - destruct Hcur as (Hc & Hcd & Hm2 & Hgap). pose proof (take_lookup_sum _ _ _ Hgap) as Ht.
    rewrite decide_False by lia.
    pose proof (append_spec Depth c m2 x Hc HD ltac:(lia)) as Ha. rewrite decide_False in Ha by lia.
    destruct Ha as (c' & -> & Hc').
    destruct (rep_length c' (m2 ++ [x]) (cursor_depth w) Hc' Hcd) as [Hpc Hcomp].
    { rewrite length_app. cbn. lia. }
    destruct (is_complete c' (cursor_depth w)) eqn:E; eexists; (split; [done|]); (split; [|done]).
    + split; [done|]. split; [done|]. exists (m1 ++ m2 ++ [x]), []. rewrite app_nil_r, <- app_assoc.
      split; [done|]. cbn [filled w_tree cursor]. split; [|done].
      rewrite (root_at_spec c' (m2 ++ [x]) _ [] []); [|done|done|done|constructor]. rewrite app_nil_r.
      apply (fulls_snoc _ _ _ _ _ Hful Hgap); [rewrite (proj1 Hcomp eq_refl); lia|by apply Hcomp].
    + split; [done|]. split; [done|]. exists m1, (m2 ++ [x]). rewrite <- app_assoc.
      cbn [filled w_tree cursor cursor_depth]. split_and!; try done.
      assert (length (m2 ++ [x]) <> 2 ^ cursor_depth w)%nat by (intros E'; apply Hcomp in E'; congruence).
      rewrite length_app in *. cbn [length] in *. lia.
  - subst m2. cbn [length] in *. pose proof (next_depth_spec (w_tree w) Depth (length (filled w)) Hleft Hps) as Hnd.
    destruct (decide (length l + (length m1 + 0) = 2 ^ Depth)%nat) as [Hfull|Hfull].
    + assert (Hnone : tree_gaps (w_tree w) Depth !! length (filled w) = None).
      { destruct (_ !! length (filled w)) eqn:E; [|done]. pose proof (take_lookup_sum _ _ _ E) as Ht.
        pose proof (Nat.pow_nonzero 2 n ltac:(lia)). lia. }
      rewrite Hnone in Hnd. case_decide; [done|]. by rewrite (proj2 (Nat.leb_le _ _)) by lia.
    + assert (Hlt : (length (filled w) < length (tree_gaps (w_tree w) Depth))%nat).
      { destruct (decide (length (filled w) = length (tree_gaps (w_tree w) Depth))) as [E|]; [|lia].
        rewrite E, take_ge in Hm1 by lia. lia. }
      apply lookup_lt_is_Some in Hlt as [d Hd]. rewrite Hd in Hnd. case_decide; [|done].
      injection Hnd as ->. rewrite (proj2 (Nat.leb_gt _ _)) by lia. rewrite app_nil_r in *.
      destruct (Nat.eqb_spec (next_depth (w_tree w) (length (filled w))) 0) as [E0|E0].
      * eexists. split; [done|]. split; [|done]. split; [done|]. split; [done|]. exists (m1 ++ [x]), [].
        rewrite app_nil_r. cbn [filled w_tree cursor]. split; [done|]. split; [|done].
        rewrite E0 in Hd. by apply (fulls_snoc _ _ _ 0 [x] Hful Hd).
      * pose proof (append_spec Depth empty_tree [] x rep_empty HD ltac:(cbn; lia)) as Ha. cbn [length] in Ha.
        pose proof (Nat.pow_nonzero 2 Depth ltac:(lia)). rewrite decide_False in Ha by lia.
        destruct Ha as (c & -> & Hc). eexists. split; [done|]. split; [|done].
        split; [done|]. split; [done|]. exists m1, [x]. cbn [filled w_tree cursor cursor_depth length].
        split_and!; try done; [lia|]. apply Nat.pow_gt_1; lia.
Qed.

Lemma partial_path_spec Depth w l m :
  (0 < Depth)%nat -> wrep Depth w l m -> fills (tree_gaps (w_tree w) Depth) (partial_path w) m.
Proof.
  intros HD (Hrep & Hne & m1 & m2 & -> & Hful & Hcur). unfold partial_path. destruct (cursor w) as [c|].
  - destruct Hcur as (Hc & Hcd & Hm2 & Hgap).
    destruct (rep_length c m2 (cursor_depth w) Hc Hcd ltac:(lia)) as [Hpc _].
    rewrite (root_at_spec c m2 _ [] []); [|done|done|done|constructor]. rewrite app_nil_r.
    apply (fulls_snoc _ _ _ _ _ Hful Hgap). lia.
  - subst. rewrite !app_nil_r. by apply fulls_fills.
Qed.

(** ** Authentication paths *)

(** What a verifier computes from a leaf and a path, from the leaf up. *)
Fixpoint path_root (d : nat) (x : H) (p : list (bool * H)) : H :=
  match p with
  | [] => x
  | (b, h) :: p' => path_root (S d) (if b : bool then combine h x d else combine x h d) p'
  end.

Lemma path_fill_root n d r f :
  path_root d r (path_fill n d f) = root_fill n d r f /\ length (path_fill n d f) = n.
Proof.
  revert d r f. induction n as [|n IH]; intros d r f; [done|]. cbn [path_fill root_fill].
  destruct (next d f) as [h f']. cbn [path_root length]. destruct (IH (S d) (combine r h d) f') as [-> ->]. done.
Qed.

Lemma path_parents_root d r f ps rest :
  let '(l, d', f') := path_parents d f ps in
  let '(d'', r', f'') := root_parents d r f ps in
  d' = d'' /\ f' = f'' /\ path_root d r (l ++ rest) = path_root d' r' rest
  /\ length l = length ps /\ d' = (d + length ps)%nat.
Proof.
  revert d r f. induction ps as [|[p|] ps IH]; intros d r f; cbn [path_parents root_parents].
  - split_and!; try done; cbn; lia.
  - specialize (IH (S d) (combine p r d) f). destruct (path_parents (S d) f ps) as [[l d'] f'].
    destruct (root_parents _ _ _ ps) as [[d'' r'] f'']. destruct IH as (-> & -> & IH & H1 & H2).
    cbn [app path_root length]. split_and!; try done; lia.
  - destruct (next d f) as [h f0]. specialize (IH (S d) (combine r h d) f0).
    destruct (path_parents (S d) f0 ps) as [[l d'] f'].
    destruct (root_parents _ _ _ ps) as [[d'' r'] f'']. destruct IH as (-> & -> & IH & H1 & H2).
    cbn [app path_root length]. split_and!; try done; lia.
Qed.

Lemma tree_path_root Depth t x q :
  tree_last t = Ok x -> left t <> None -> (length (parents t) < Depth)%nat ->
  exists p, tree_path Depth t q = Ok p /\ path_root 0 x p = root_at t Depth q /\ length p = Depth.
Proof.
  unfold tree_last, tree_path, root_at. intros Hx Hl Hd. destruct (left t) as [a|]; [|done].
  set (first := match right t with Some _ => _ | None => _ end).
  set (cr := match right t with Some r => _ | None => _ end).
  assert (Hfirst : first.2 = cr.2 /\ path_root 0 x [first.1] = combine a cr.1 0).
  { subst first cr. destruct (right t); [by simplify_eq|]. destruct (next 0 q). by simplify_eq. }
  destruct first as [[b h] f1], cr as [c f1']. cbn [fst snd] in Hfirst. destruct Hfirst as [-> Hr].
  pose proof (path_parents_root 1 (combine a c 0) f1' (parents t)) as Hp.
  destruct (path_parents 1 f1' (parents t)) as [[mid d] f2].
  destruct (root_parents _ _ _ _) as [[d'' r'] f'']. eexists. split; [done|].
  specialize (Hp (path_fill (Depth - d) d f2)). destruct Hp as (-> & -> & Hp & H1 & H2).
  cbn [path_root length] in Hr |- *. rewrite Hr, Hp. destruct (path_fill_root (Depth - d'') d'' r' f'') as [-> Hlen].
  split; [done|]. rewrite length_app, Hlen, H1. lia.
Qed.

Fixpoint witness_append_all (Depth : nat) (l : list H) (w : IncrementalWitness H) : res (IncrementalWitness H) :=
  match l with
  | [] => Ok w
  | x :: l' => match witness_append Depth x w with Ok w' => witness_append_all Depth l' w' | Err e => Err e end
  end.

Lemma witness_append_all_spec Depth m2 : forall w l m1,
  (0 < Depth)%nat -> wrep Depth w l m1 -> (length l + length m1 <= 2 ^ Depth)%nat ->
  if decide (length l + (length m1 + length m2) <= 2 ^ Depth)%nat
  then exists w', witness_append_all Depth m2 w = Ok w' /\ wrep Depth w' l (m1 ++ m2) /\ w_tree w' = w_tree w
  else witness_append_all Depth m2 w = Err (Exception "tree is full").
Proof.
  induction m2 as [|x m2 IH]; intros w l m1 HD Hw Hle; cbn [witness_append_all length].
  - rewrite decide_True by lia. exists w. by rewrite app_nil_r.
  - pose proof (witness_append_spec Depth w l m1 x HD Hw Hle) as Ha.
    destruct (decide (length l + length m1 = 2 ^ Depth)%nat).
    + rewrite Ha, decide_False by lia. done.
    + destruct Ha as (w' & -> & Hw' & Htree). specialize (IH w' l (m1 ++ [x]) HD Hw').
      rewrite length_app in IH. cbn [length] in IH. specialize (IH ltac:(lia)).
      rewrite <- app_assoc, Htree in IH.
      replace (length l + (length m1 + S (length m2)))%nat with (length l + (length m1 + 1 + length m2))%nat by lia.
      exact IH.
Qed.

(** C18: witnesses stay valid as the tree grows: a witness taken when the tree held
    the commitments [l ++ [x]] and then fed the commitments [m] added later (as
    long as they fit) has the root of the whole tree as its root, still proves the
    element [x], and its authentication path, of length [Depth], leads from [x] to
    that root. *)
Theorem witness_valid (Depth : nat) (l : list H) (x : H) (m : list H) :
  (0 < Depth)%nat -> (length l + 1 + length m <= 2 ^ Depth)%nat ->
  exists t w p, append_all Depth (l ++ [x]) empty_tree = Ok t
    /\ witness_append_all Depth m (witness t) = Ok w
    /\ witness_root Depth w = merkle Depth (l ++ [x] ++ m)
    /\ element w = Ok x /\ witness_path Depth w = Ok p
    /\ path_root 0 x p = merkle Depth (l ++ [x] ++ m) /\ length p = Depth.
Proof.
  intros HD Hle. pose proof (append_all_spec Depth (l ++ [x]) empty_tree [] rep_empty HD ltac:(cbn; lia)) as Ha.
  rewrite length_app in Ha. cbn [length Nat.add app] in Ha. rewrite decide_True in Ha by lia.
  destruct Ha as (t & Ht & Hrep). exists t.
  assert (Hne : l ++ [x] <> []) by (by destruct l).
  assert (Hw0 : wrep Depth (witness t) (l ++ [x]) []).
  { split; [done|]. split; [done|]. exists [], []. split_and!; [done|constructor|done]. }
  pose proof (witness_append_all_spec Depth m (witness t) (l ++ [x]) [] HD Hw0) as Hw.
  rewrite length_app in Hw. cbn [length Nat.add app] in Hw. specialize (Hw ltac:(lia)).
  rewrite decide_True in Hw by lia. destruct Hw as (w & Hw & Hwr & Htree). exists w.
  pose proof (partial_path_spec _ _ _ _ HD Hwr) as Hpp. rewrite Htree in Hpp. cbn [witness w_tree] in Htree, Hpp.
  destruct (rep_length t (l ++ [x]) Depth Hrep HD ltac:(rewrite length_app; cbn; lia)) as [Hps _].
  pose proof (rep_left _ _ Hrep Hne) as Hleft.
  assert (Hroot : root_at t Depth (partial_path w) = merkle Depth (l ++ [x] ++ m)).
  { rewrite (root_at_spec t (l ++ [x]) Depth _ m) by done. by rewrite <- app_assoc. }
  assert (Hlast : tree_last t = Ok x).
  { destruct Hrep as (lp & _ & E & _). unfold tree_last. destruct (left t), (right t); [| |done|done]; cbn in E.
    - by apply (f_equal list.last) in E; rewrite !last_snoc, (app_assoc lp [_] [_] : lp ++ [_; _] = _), last_snoc in E; simplify_eq.
    - by apply app_inj_tail in E as [_ ->]. }
  destruct (tree_path_root Depth t x (partial_path w) Hlast Hleft Hps) as (p & Hp & Hpr & Hpl).
  exists p. unfold witness_root, witness_path, element. rewrite Htree, Hpr, Hroot. split_and!; done.
Qed.
End Spec.

(** A hash for concrete runs. *)
#[local] Instance toy_hash : MerkleHash Z := {| combine a b d := (31 * a + 17 * b + Z.of_nat d) mod 1009; uncommitted := 1 |}.

Lemma merkle_tree_refinement_witness :
  exists t, append_all 3 [10; 20; 30; 40; 50] empty_tree = Ok t
    /\ tree_root 3 t = merkle 3 [10; 20; 30; 40; 50] /\ tree_size t = 5
    /\ wfcheck 3 t = Ok tt.
Proof. exact (merkle_tree_refinement 3 [10; 20; 30; 40; 50] ltac:(lia)). Defined.

Lemma witness_valid_witness :
  exists t w p, append_all 3 [10; 20; 30] empty_tree = Ok t
    /\ witness_append_all 3 [40; 50] (witness t) = Ok w
    /\ witness_root 3 w = merkle 3 [10; 20; 30; 40; 50]
    /\ element w = Ok 30 /\ witness_path 3 w = Ok p
    /\ path_root 0 30 p = merkle 3 [10; 20; 30; 40; 50] /\ length p = 3%nat.
Proof.
  exact (witness_valid 3 [10; 20] 30 [40; 50] ltac:(lia) ltac:(cbn; lia)).
Defined.
