(* ===== verification/View.v ===== *)
(** * Views of the unspent outputs and of the sidechains

    [coins.h], [coins.cpp] and the coins part of [txdb.cpp]: the interface
    [CCoinsView], the database view [CCoinsViewDB], and the cache
    [CCoinsViewCache] that adds a layer of modifications to any other view and
    can push them down with [Flush]. *)

From stdpp Require Import base numbers list strings gmap fin_maps sets option.
From Stdlib Require Import ZArith Lia.
From S2P Require Import Prelude.
From S2P Require Import Amount.
From S2P Require Import Serialize.
From S2P Require Import ScTypes.
From S2P Require Import Primitives.
From S2P Require Import Sidechain.
From S2P Require Import Coins.
From S2P Require Import CoinsSer.
From S2P Require Import Merkle.
Open Scope Z_scope.
Open Scope zen_scope.

(** ** Cache entries *)

(** [flags] is a bit set of [DIRTY] and [FRESH]. *)
Record CCoinsCacheEntry := mkCoinsEntry {
  e_coins : CCoins;
  e_dirty : bool;
  e_fresh : bool }.

Definition Tree := IncrementalMerkleTree Z.

Record CAnchorsCacheEntry := mkAnchorEntry {
  an_entered : bool;
  an_tree : Tree;
  an_dirty : bool }.

Record CNullifiersCacheEntry := mkNullifierEntry {
  nu_entered : bool;
  nu_dirty : bool }.

Inductive Flags := DEFAULT | DIRTY | FRESH | ERASED.

#[export] Instance Flags_eq_dec : EqDecision Flags.
Proof. solve_decision. Defined.

(** [CSidechainsCacheEntry] and [CSidechainEventsCacheEntry] *)
Record entry (A : Type) := mkEntry { content : A; flag : Flags }.
Arguments mkEntry {A}.
Arguments content {A}.
Arguments flag {A}.

(** [CCswNullifiersCacheEntry] *)
Inductive ImmFlags := IDEFAULT | IFRESH | IERASED.

#[export] Instance ImmFlags_eq_dec : EqDecision ImmFlags.
Proof. solve_decision. Defined.

Abbreviation csw_key := (Z * bytes)%type (only parsing).

(** The maps a cache holds and hands to [BatchWrite]. *)
Record CacheMaps := mkMaps {
  cacheCoins : gmap Z CCoinsCacheEntry;
  cacheSidechains : gmap Z (entry CSidechain);
  cacheSidechainEvents : gmap Z (entry CSidechainEvents);
  cacheAnchors : gmap Z CAnchorsCacheEntry;
  cacheNullifiers : gmap Z CNullifiersCacheEntry;
  cacheCswNullifiers : gmap (Z * bytes) ImmFlags }.

Definition Maps_empty : CacheMaps := mkMaps ∅ ∅ ∅ ∅ ∅ ∅.

Definition set_coins m (s : CacheMaps) : CacheMaps :=
  mkMaps m (cacheSidechains s) (cacheSidechainEvents s) (cacheAnchors s) (cacheNullifiers s)
    (cacheCswNullifiers s).

Definition set_sidechains m (s : CacheMaps) : CacheMaps :=
  mkMaps (cacheCoins s) m (cacheSidechainEvents s) (cacheAnchors s) (cacheNullifiers s)
    (cacheCswNullifiers s).

Definition set_events m (s : CacheMaps) : CacheMaps :=
  mkMaps (cacheCoins s) (cacheSidechains s) m (cacheAnchors s) (cacheNullifiers s)
    (cacheCswNullifiers s).

Definition set_anchors m (s : CacheMaps) : CacheMaps :=
  mkMaps (cacheCoins s) (cacheSidechains s) (cacheSidechainEvents s) m (cacheNullifiers s)
    (cacheCswNullifiers s).

Definition set_nullifiers m (s : CacheMaps) : CacheMaps :=
  mkMaps (cacheCoins s) (cacheSidechains s) (cacheSidechainEvents s) (cacheAnchors s) m
    (cacheCswNullifiers s).

Definition set_csw m (s : CacheMaps) : CacheMaps :=
  mkMaps (cacheCoins s) (cacheSidechains s) (cacheSidechainEvents s) (cacheAnchors s)
    (cacheNullifiers s) m.

(** ** The interface *)
Class CCoinsView (V : Type) := {
  v_GetAnchorAt : uint256 -> M V (option Tree);
  v_GetNullifier : uint256 -> M V bool;
  v_GetCoins : uint256 -> M V (option CCoins);
  v_GetSidechain : uint256 -> M V (option CSidechain);
  v_GetSidechainEvents : Z -> M V (option CSidechainEvents);
  v_GetScIds : gset Z -> M V (gset Z);
  v_GetBestBlock : M V uint256;
  v_GetBestAnchor : M V uint256;
  v_HaveCswNullifier : uint256 -> bytes -> M V bool;
  v_BatchWrite : uint256 -> uint256 -> CacheMaps -> M V bool }.

(** ** Writing one map into another

    Each entry of the child is combined with the entry of the same key, or its
    absence, in the destination.  Keys are written one after the other in the
    order of the hash table, each key once. *)
Definition write_entry {K} `{Countable K} {E E'} (g : E -> option E' -> res (option E'))
    (k : K) (e : E) (m : gmap K E') : res (gmap K E') :=
  res_bind (g e (m !! k)) (fun o => Ok (partial_alter (fun _ => o) k m)).

Definition write_all {K} `{Countable K} {E E'} (g : E -> option E' -> res (option E'))
    (child : gmap K E) (m : gmap K E') : res (gmap K E') :=
  foldl (fun acc p => res_bind acc (write_entry g p.1 p.2)) (Ok m) (map_to_list child).

(** [WriteCoins] *)
Definition WriteCoins (value : CCoinsCacheEntry) (itUs : option CCoinsCacheEntry)
  : res (option CCoinsCacheEntry) :=
  if e_dirty value then
    match itUs with
    | None =>
        if negb (IsPruned (e_coins value)) then
          if e_fresh value then Ok (Some (mkCoinsEntry (e_coins value) true true))
          else Err AssertFailed
        else Ok None
    | Some us =>
        if e_fresh us && IsPruned (e_coins value) then Ok None
        else Ok (Some (mkCoinsEntry (e_coins value) true (e_fresh us)))
    end
  else Ok itUs.

Definition write_anchor (child : CAnchorsCacheEntry) (parent : option CAnchorsCacheEntry)
  : res (option CAnchorsCacheEntry) :=
  if an_dirty child then
    match parent with
    | None => Ok (Some (mkAnchorEntry (an_entered child) (an_tree child) true))
    | Some p =>
        if negb (Bool.eqb (an_entered p) (an_entered child))
        then Ok (Some (mkAnchorEntry (an_entered child) (an_tree p) true))
        else Ok (Some p)
    end
  else Ok parent.

Definition write_nullifier (child : CNullifiersCacheEntry) (parent : option CNullifiersCacheEntry)
  : res (option CNullifiersCacheEntry) :=
  if nu_dirty child then
    match parent with
    | None => Ok (Some (mkNullifierEntry (nu_entered child) true))
    | Some p =>
        if negb (Bool.eqb (nu_entered p) (nu_entered child))
        then Ok (Some (mkNullifierEntry (nu_entered child) true))
        else Ok (Some p)
    end
  else Ok parent.

(** [WriteMutableEntry], with the [ContentCheck] of the entry type *)
Definition WriteMutableEntry {A} (ContentCheck : A -> A -> bool) (value : entry A)
    (local : option (entry A)) : res (option (entry A)) :=
  match flag value with
  | FRESH =>
      match local with
      | None => Ok (Some value)
      | Some l => if decide (flag l = ERASED) then Ok (Some value) else Err AssertFailed
      end
  | DIRTY => Ok (Some value)
  | ERASED =>
      match local with
      | Some l => Ok (Some (mkEntry (content l) ERASED))
      | None => Ok None
      end
  | DEFAULT =>
      match local with
      | None => Err AssertFailed
      | Some l =>
          if decide (flag l = ERASED) then Err AssertFailed
          else if negb (ContentCheck (content l) (content value)) then Err AssertFailed
          else Ok (Some l)
      end
  end.

Definition WriteImmutableEntry (value : ImmFlags) (local : option ImmFlags) : res (option ImmFlags) :=
  match value with
  | IFRESH =>
      match local with
      | None => Ok (Some value)
      | Some l => if decide (l = IERASED) then Ok (Some value) else Err AssertFailed
      end
  | IERASED => match local with Some _ => Ok (Some IERASED) | None => Ok None end
  | IDEFAULT =>
      match local with
      | None => Err AssertFailed
      | Some l => if decide (l = IERASED) then Err AssertFailed else Ok local
      end
  end.

Definition Events_eqb (a b : CSidechainEvents) : bool := bool_decide (a = b).

(** ** The database: one table per kind of record *)
Record CCoinsViewDB := mkDB {
  db_coins : gmap Z CCoins;
  db_sidechains : gmap Z CSidechain;
  db_ceasedscs : gmap Z CSidechainEvents;
  db_anchor : gmap Z Tree;
  db_nullifier : gmap Z unit;
  db_csw_nullifier : gmap (Z * bytes) unit;
  db_best_block : option uint256;
  db_best_anchor : option uint256 }.

(** Coins as [Coins_Unserialize] gives them back. *)
Definition coins_stored (c : CCoins) : CCoins :=
  mkCoins (fCoinBase c) (vout c) (nHeight c) (stored_version (nVersion c)) (coins_nFirstBwtPos c)
    (nBwtMaturityHeight c).

Section Database.
  Context `{NodeConfig} `{MerkleHash Z}.

(** Reading a sidechain recomputes its memory-only field. *)
Definition sidechain_read (s : CSidechain) : res CSidechain :=
  if negb (is_empty (scFees s))
  then res_bind (getMaxSizeOfScFeesContainers s) (fun mx => Ok (set_fees mx (scFees s) s))
  else Ok (set_fees (-1) (scFees s) s).

Definition INCREMENTAL_MERKLE_TREE_DEPTH : nat := 29.

Definition tree_empty_root : uint256 := empty_root INCREMENTAL_MERKLE_TREE_DEPTH.

Definition db_GetAnchorAt (rt : uint256) : M CCoinsViewDB (option Tree) :=
  fun db => Ok (if rt =? tree_empty_root then Some empty_tree else db_anchor db !! rt, db).

Definition db_GetNullifier (nf : uint256) : M CCoinsViewDB bool :=
  fun db => Ok (bool_decide (is_Some (db_nullifier db !! nf)), db).

Definition db_GetCoins (txid : uint256) : M CCoinsViewDB (option CCoins) :=
  fun db => Ok (coins_stored <$> db_coins db !! txid, db).

Definition db_GetSidechain (scId : uint256) : M CCoinsViewDB (option CSidechain) :=
  fun db =>
    match db_sidechains db !! scId with
    | Some s => res_bind (sidechain_read s) (fun s' => Ok (Some s', db))
    | None => Ok (None, db)
    end.

Definition db_GetSidechainEvents (height : Z) : M CCoinsViewDB (option CSidechainEvents) :=
  fun db => Ok (db_ceasedscs db !! height, db).

Definition db_GetScIds (scIdsList : gset Z) : M CCoinsViewDB (gset Z) :=
  fun db => Ok (scIdsList ∪ dom (db_sidechains db), db).

Definition db_GetBestBlock : M CCoinsViewDB uint256 :=
  fun db => Ok (default 0 (db_best_block db), db).

Definition db_GetBestAnchor : M CCoinsViewDB uint256 :=
  fun db => Ok (default tree_empty_root (db_best_anchor db), db).

Definition db_HaveCswNullifier (scId : uint256) (nullifier : bytes) : M CCoinsViewDB bool :=
  fun db => Ok (bool_decide (is_Some (db_csw_nullifier db !! (scId, nullifier))), db).

Definition BatchWriteCoins (e : CCoinsCacheEntry) (old : option CCoins) : res (option CCoins) :=
  Ok (if e_dirty e then if IsPruned (e_coins e) then None else Some (e_coins e) else old).

Definition BatchWriteAnchor (e : CAnchorsCacheEntry) (old : option Tree) : res (option Tree) :=
  Ok (if an_dirty e then if negb (an_entered e) then None else Some (an_tree e) else old).

Definition BatchWriteNullifier (e : CNullifiersCacheEntry) (old : option unit) : res (option unit) :=
  Ok (if nu_dirty e then if negb (nu_entered e) then None else Some tt else old).

(** [BatchSidechains] and [BatchCeasedScs] *)
Definition BatchSidechains {A} (e : entry A) (old : option A) : res (option A) :=
  Ok match flag e with
     | FRESH | DIRTY => Some (content e)
     | ERASED => None
     | DEFAULT => old
     end.

Definition BatchWriteCswNullifier (e : ImmFlags) (old : option unit) : res (option unit) :=
  Ok match e with
     | IFRESH => Some tt
     | IERASED => None
     | IDEFAULT => old
     end.

Definition db_BatchWrite (hashBlock hashAnchor : uint256) (m : CacheMaps) : M CCoinsViewDB bool :=
  fun db =>
    res_bind (write_all BatchWriteCoins (cacheCoins m) (db_coins db)) (fun coins =>
    res_bind (write_all BatchWriteAnchor (cacheAnchors m) (db_anchor db)) (fun anchors =>
    res_bind (write_all BatchWriteNullifier (cacheNullifiers m) (db_nullifier db)) (fun nullifiers =>
    res_bind (write_all BatchSidechains (cacheSidechains m) (db_sidechains db)) (fun scs =>
    res_bind (write_all BatchSidechains (cacheSidechainEvents m) (db_ceasedscs db)) (fun evs =>
    res_bind (write_all BatchWriteCswNullifier (cacheCswNullifiers m) (db_csw_nullifier db)) (fun csw =>
    Ok (true, mkDB coins scs evs anchors nullifiers csw
                (if hashBlock =? 0 then db_best_block db else Some hashBlock)
                (if hashAnchor =? 0 then db_best_anchor db else Some hashAnchor)))))))).

#[export] Instance CCoinsViewDB_view : CCoinsView CCoinsViewDB := {|
  v_GetAnchorAt := db_GetAnchorAt;
  v_GetNullifier := db_GetNullifier;
  v_GetCoins := db_GetCoins;
  v_GetSidechain := db_GetSidechain;
  v_GetSidechainEvents := db_GetSidechainEvents;
  v_GetScIds := db_GetScIds;
  v_GetBestBlock := db_GetBestBlock;
  v_GetBestAnchor := db_GetBestAnchor;
  v_HaveCswNullifier := db_HaveCswNullifier;
  v_BatchWrite := db_BatchWrite |}.
End Database.

(** ** The cache *)
Record CCoinsViewCache (V : Type) := mkCache {
  base : V;
  hasModifier : bool;
  hashBlock : uint256;
  hashAnchor : uint256;
  maps : CacheMaps }.
Arguments mkCache {V}.
Arguments base {V}.
Arguments hasModifier {V}.
Arguments hashBlock {V}.
Arguments hashAnchor {V}.
Arguments maps {V}.

Section Cache.
  Context {V : Type} `{CCoinsView V} `{MerkleHash Z}.
Local Notation C := (CCoinsViewCache V).

Definition Cache_new (baseIn : V) : C := mkCache baseIn false 0 0 Maps_empty.

(** A call on the base view. *)
Definition on_base {A} (m : M V A) : M C A :=
  fun c =>
    match m (base c) with
    | Ok (a, b) => Ok (a, mkCache b (hasModifier c) (hashBlock c) (hashAnchor c) (maps c))
    | Err e => Err e
    end.

Definition set_maps (f : CacheMaps -> CacheMaps) : M C unit :=
  modify (fun c => mkCache (base c) (hasModifier c) (hashBlock c) (hashAnchor c) (f (maps c))).

Definition get_maps : M C CacheMaps := fun c => Ok (maps c, c).

(** *** Unspent outputs *)
Definition put_coins (txid : Z) (e : CCoinsCacheEntry) : M C unit :=
  set_maps (fun m => set_coins (<[txid := e]> (cacheCoins m)) m).

Definition FetchCoins (txid : uint256) : M C (option CCoinsCacheEntry) :=
  let* m := get_maps in
  match cacheCoins m !! txid with
  | Some e => ret (Some e)
  | None =>
      let* tmp := on_base (v_GetCoins txid) in
      match tmp with
      | None => ret None
      | Some coins =>
          let e := mkCoinsEntry coins false (IsPruned coins) in
          put_coins txid e ;;; ret (Some e)
      end
  end.

Definition GetCoins (txid : uint256) : M C (option CCoins) :=
  let* e := FetchCoins txid in ret (e_coins <$> e).

(** [AccessCoins]: a null pointer is [None] *)
Definition AccessCoins (txid : uint256) : M C (option CCoins) :=
  let* e := FetchCoins txid in ret (e_coins <$> e).

Definition HaveCoins (txid : uint256) : M C bool :=
  let* e := FetchCoins txid in
  ret match e with Some e => negb (is_empty (vout (e_coins e))) | None => false end.

Definition set_modifier (b : bool) : M C unit :=
  modify (fun c => mkCache (base c) b (hashBlock c) (hashAnchor c) (maps c)).

(** [ModifyCoins], up to the construction of the modifier: the coins it refers to *)
Definition ModifyCoins (txid : uint256) : M C CCoins :=
  let* c := get in
  massert (negb (hasModifier c)) ;;;
  let* e :=
    match cacheCoins (maps c) !! txid with
    | Some e => ret e
    | None =>
        let* o := on_base (v_GetCoins txid) in
        match o with
        | None => ret (mkCoinsEntry Coins_Clear false true)
        | Some coins => ret (mkCoinsEntry coins false (IsPruned coins))
        end
    end in
  put_coins txid (mkCoinsEntry (e_coins e) true (e_fresh e)) ;;;
  set_modifier true ;;;
  ret (e_coins e).

(** The modifier's destructor, after [coins] were stored through it. *)
Definition CCoinsModifier_end (txid : uint256) (coins : CCoins) : M C unit :=
  let* c := get in
  massert (hasModifier c) ;;;
  set_modifier false ;;;
  match cacheCoins (maps c) !! txid with
  | None => fail (Exception "invalid iterator")
  | Some e =>
      let cleaned := Cleanup coins in
      if e_fresh e && IsPruned cleaned
      then set_maps (fun m => set_coins (delete txid (cacheCoins m)) m)
      else put_coins txid (mkCoinsEntry cleaned (e_dirty e) (e_fresh e))
  end.

(** [CCoinsModifier coins = ModifyCoins(txid); ...]: [f] is what the scope does to
    the coins. *)
Definition with_coins {A} (txid : uint256) (f : CCoins -> res (A * CCoins)) : M C A :=
  let* coins := ModifyCoins txid in
  let* '(a, coins') := lift (f coins) in
  CCoinsModifier_end txid coins' ;;;
  ret a.

(** *** Sidechains *)
Definition put_sidechain (scId : Z) (e : entry CSidechain) : M C unit :=
  set_maps (fun m => set_sidechains (<[scId := e]> (cacheSidechains m)) m).

Definition FetchSidechains (scId : uint256) : M C (option (entry CSidechain)) :=
  let* m := get_maps in
  match cacheSidechains m !! scId with
  | Some e => ret (Some e)
  | None =>
      let* tmp := on_base (v_GetSidechain scId) in
      match tmp with
      | None => ret None
      | Some sc => put_sidechain scId (mkEntry sc DEFAULT) ;;; ret (Some (mkEntry sc DEFAULT))
      end
  end.

Definition ModifySidechain (scId : uint256) : M C (entry CSidechain) :=
  let* m := get_maps in
  match cacheSidechains m !! scId with
  | Some e => ret e
  | None =>
      let* tmp := on_base (v_GetSidechain scId) in
      let e := match tmp with
               | Some sc => mkEntry sc DEFAULT
               | None => mkEntry CSidechain_null FRESH
               end in
      put_sidechain scId e ;;; ret e
  end.

(** [AccessSidechain] does not look at the flag. *)
Definition AccessSidechain (scId : uint256) : M C (option CSidechain) :=
  let* e := FetchSidechains scId in ret (content <$> e).

Definition live {A} (e : option (entry A)) : option A :=
  match e with
  | Some e => if decide (flag e = ERASED) then None else Some (content e)
  | None => None
  end.

Definition HaveSidechain (scId : uint256) : M C bool :=
  let* e := FetchSidechains scId in ret (bool_decide (is_Some (live e))).

Definition GetSidechain (scId : uint256) : M C (option CSidechain) :=
  let* e := FetchSidechains scId in ret (live e).

Definition GetScIds (scIdsList : gset Z) : M C (gset Z) :=
  let* ids := on_base (v_GetScIds scIdsList) in
  let* m := get_maps in
  ret (map_fold (fun scId e acc => if decide (flag e = ERASED) then acc ∖ {[scId]} else acc ∪ {[scId]})
         ids (cacheSidechains m)).

(** *** Sidechain events *)
Definition put_events (height : Z) (e : entry CSidechainEvents) : M C unit :=
  set_maps (fun m => set_events (<[height := e]> (cacheSidechainEvents m)) m).

Definition FetchSidechainEvents (height : Z) : M C (option (entry CSidechainEvents)) :=
  let* m := get_maps in
  match cacheSidechainEvents m !! height with
  | Some e => ret (Some e)
  | None =>
      let* tmp := on_base (v_GetSidechainEvents height) in
      match tmp with
      | None => ret None
      | Some ev => put_events height (mkEntry ev DEFAULT) ;;; ret (Some (mkEntry ev DEFAULT))
      end
  end.

Definition ModifySidechainEvents (height : Z) : M C (entry CSidechainEvents) :=
  let* m := get_maps in
  match cacheSidechainEvents m !! height with
  | Some e => ret e
  | None =>
      let* tmp := on_base (v_GetSidechainEvents height) in
      let e := match tmp with
               | None => mkEntry Events_empty FRESH
               | Some ev => mkEntry ev DEFAULT
               end in
      put_events height e ;;; ret e
  end.

Definition HaveSidechainEvents (height : Z) : M C bool :=
  let* e := FetchSidechainEvents height in ret (bool_decide (is_Some (live e))).

Definition GetSidechainEvents (height : Z) : M C (option CSidechainEvents) :=
  let* e := FetchSidechainEvents height in ret (live e).

(** *** Ceased-sidechain withdrawals *)
Definition put_csw (k : Z * bytes) (f : ImmFlags) : M C unit :=
  set_maps (fun m => set_csw (<[k := f]> (cacheCswNullifiers m)) m).

Definition HaveCswNullifier (scId : uint256) (nullifier : bytes) : M C bool :=
  let* m := get_maps in
  match cacheCswNullifiers m !! (scId, nullifier) with
  | Some f => ret (negb (bool_decide (f = IERASED)))
  | None =>
      let* have := on_base (v_HaveCswNullifier scId nullifier) in
      if negb have then ret false
      else put_csw (scId, nullifier) IDEFAULT ;;; ret true
  end.

(** [insert] leaves an entry that exists as it is. *)
Definition AddCswNullifier (scId : uint256) (nullifier : bytes) : M C bool :=
  let* have := HaveCswNullifier scId nullifier in
  if have then ret false
  else
    let* m := get_maps in
    match cacheCswNullifiers m !! (scId, nullifier) with
    | Some _ => ret true
    | None => put_csw (scId, nullifier) IFRESH ;;; ret true
    end.

Definition RemoveCswNullifier (scId : uint256) (nullifier : bytes) : M C bool :=
  let* have := HaveCswNullifier scId nullifier in
  if negb have then ret false
  else put_csw (scId, nullifier) IERASED ;;; ret true.

(** *** Anchors and nullifiers of shielded transactions *)
Definition put_anchor (rt : Z) (e : CAnchorsCacheEntry) : M C unit :=
  set_maps (fun m => set_anchors (<[rt := e]> (cacheAnchors m)) m).

Definition GetAnchorAt (rt : uint256) : M C (option Tree) :=
  let* m := get_maps in
  match cacheAnchors m !! rt with
  | Some e => ret (if an_entered e then Some (an_tree e) else None)
  | None =>
      let* t := on_base (v_GetAnchorAt rt) in
      match t with
      | None => ret None
      | Some tree => put_anchor rt (mkAnchorEntry true tree false) ;;; ret (Some tree)
      end
  end.

Definition put_nullifier (nf : Z) (e : CNullifiersCacheEntry) : M C unit :=
  set_maps (fun m => set_nullifiers (<[nf := e]> (cacheNullifiers m)) m).

Definition GetNullifier (nullifier : uint256) : M C bool :=
  let* m := get_maps in
  match cacheNullifiers m !! nullifier with
  | Some e => ret (nu_entered e)
  | None =>
      let* tmp := on_base (v_GetNullifier nullifier) in
      put_nullifier nullifier (mkNullifierEntry tmp false) ;;; ret tmp
  end.

Definition SetNullifier (nullifier : uint256) (spent : bool) : M C unit :=
  put_nullifier nullifier (mkNullifierEntry spent true).

Definition GetBestBlock : M C uint256 :=
  let* c := get in
  if hashBlock c =? 0 then
    let* h := on_base v_GetBestBlock in
    modify (fun c => mkCache (base c) (hasModifier c) h (hashAnchor c) (maps c)) ;;; ret h
  else ret (hashBlock c).

Definition set_hashAnchor (h : uint256) : M C unit :=
  modify (fun c => mkCache (base c) (hasModifier c) (hashBlock c) h (maps c)).

Definition GetBestAnchor : M C uint256 :=
  let* c := get in
  if hashAnchor c =? 0 then
    let* h := on_base v_GetBestAnchor in set_hashAnchor h ;;; ret h
  else ret (hashAnchor c).

Definition SetBestBlock (hashBlockIn : uint256) : M C unit :=
  modify (fun c => mkCache (base c) (hasModifier c) hashBlockIn (hashAnchor c) (maps c)).

Definition PushAnchor (tree : Tree) : M C unit :=
  let newrt := tree_root INCREMENTAL_MERKLE_TREE_DEPTH tree in
  let* currentRoot := GetBestAnchor in
  if negb (currentRoot =? newrt)
  then put_anchor newrt (mkAnchorEntry true tree true) ;;; set_hashAnchor newrt
  else ret tt.

Definition PopAnchor (newrt : uint256) : M C unit :=
  let* currentRoot := GetBestAnchor in
  if negb (currentRoot =? newrt) then
    let* t := GetAnchorAt currentRoot in
    match t with
    | None => fail AssertFailed
    | Some tree => put_anchor currentRoot (mkAnchorEntry false tree true) ;;; set_hashAnchor newrt
    end
  else ret tt.

(** *** Pushing modifications down *)
Definition lift_maps (r : CacheMaps -> res CacheMaps) : M C unit :=
  fun c => match r (maps c) with
           | Ok m => Ok (tt, mkCache (base c) (hasModifier c) (hashBlock c) (hashAnchor c) m)
           | Err e => Err e
           end.

Definition BatchWrite (hashBlockIn hashAnchorIn : uint256) (child : CacheMaps) : M C bool :=
  let* c := get in
  massert (negb (hasModifier c)) ;;;
  lift_maps (fun m => res_bind (write_all WriteCoins (cacheCoins child) (cacheCoins m))
    (fun r => Ok (set_coins r m))) ;;;
  lift_maps (fun m => res_bind (write_all write_anchor (cacheAnchors child) (cacheAnchors m))
    (fun r => Ok (set_anchors r m))) ;;;
  lift_maps (fun m => res_bind (write_all write_nullifier (cacheNullifiers child) (cacheNullifiers m))
    (fun r => Ok (set_nullifiers r m))) ;;;
  lift_maps (fun m => res_bind (write_all (WriteMutableEntry CSidechain_eqb)
    (cacheSidechains child) (cacheSidechains m)) (fun r => Ok (set_sidechains r m))) ;;;
  lift_maps (fun m => res_bind (write_all (WriteMutableEntry Events_eqb)
    (cacheSidechainEvents child) (cacheSidechainEvents m)) (fun r => Ok (set_events r m))) ;;;
  lift_maps (fun m => res_bind (write_all WriteImmutableEntry
    (cacheCswNullifiers child) (cacheCswNullifiers m)) (fun r => Ok (set_csw r m))) ;;;
  modify (fun c => mkCache (base c) (hasModifier c) hashBlockIn hashAnchorIn (maps c)) ;;;
  ret true.

Definition Flush : M C bool :=
  let* c := get in
  let* fOk := on_base (v_BatchWrite (hashBlock c) (hashAnchor c) (maps c)) in
  set_maps (fun _ => Maps_empty) ;;;
  ret fOk.
End Cache.

#[export] Instance CCoinsViewCache_view {V} `{CCoinsView V} : CCoinsView (CCoinsViewCache V) := {|
  v_GetAnchorAt := GetAnchorAt;
  v_GetNullifier := GetNullifier;
  v_GetCoins := GetCoins;
  v_GetSidechain := GetSidechain;
  v_GetSidechainEvents := GetSidechainEvents;
  v_GetScIds := GetScIds;
  v_GetBestBlock := GetBestBlock;
  v_GetBestAnchor := GetBestAnchor;
  v_HaveCswNullifier := HaveCswNullifier;
  v_BatchWrite := BatchWrite |}.
