(* ===== verification/ViewLaws.v ===== *)
(** * What a view promises, and that the database and the caches keep it

    The contract of [CCoinsView]: a view stands for an abstract state (the unspent
    outputs, the sidechains, their events, the nullifiers); reading it returns
    what the state holds and changes nothing but caches; [BatchWrite] of the
    entries a cache accumulated gives the state that cache stands for.  The
    database keeps the contract, and a cache keeps it over any view that does. *)

From stdpp Require Import base numbers list strings gmap fin_maps sets option.
From Stdlib Require Import ZArith Lia.
From S2P Require Import Prelude.
From S2P Require Import Amount.
From S2P Require Import Serialize.
From S2P Require Import ScTypes.
From S2P Require Import Primitives.
From S2P Require Import Sidechain.
From S2P Require Import Coins.
From S2P Require Import CoinsSer.
From S2P Require Import Merkle.
From S2P Require Import View.
Open Scope Z_scope.
Open Scope zen_scope.

(** ** The abstract state *)
Record AbsView := mkAbs {
  a_coins : gmap Z CCoins;
  a_sc : gmap Z CSidechain;
  a_ev : gmap Z CSidechainEvents;
  a_csw : gmap (Z * bytes) unit;
  a_null : gmap Z unit;
  a_roots : gmap Z unit;
  a_block : Z;
  a_anchor : Z }.

(** Coins without an unspent output count as absent, versions as they are stored. *)
Definition coins_abs (c : CCoins) : option CCoins :=
  if IsPruned c then None else Some (coins_stored c).

(** Coins with versions that transactions can have: a negative one is one of three. *)
Definition sane_version (v : Z) : bool :=
  (0 <=? v) || (v =? GROTH_TX_VERSION) || (v =? SC_TX_VERSION) || (v =? SC_CERT_VERSION).

Definition coins_ok (c : CCoins) : Prop := coins_wf c /\ sane_version (nVersion c) = true.

(** What a layer of entries [m] shows over a state [b]. *)
Definition overlay {K} `{Countable K} {E A} (f : E -> option A) (m : gmap K E) (b : gmap K A) : gmap K A :=
  merge (fun e o => match e with Some e => f e | None => o end) m b.

Definition coins_entry_abs (e : CCoinsCacheEntry) : option CCoins := coins_abs (e_coins e).

Definition entry_abs {A} (e : entry A) : option A := live (Some e).

Definition csw_abs (f : ImmFlags) : option unit := if decide (f = IERASED) then None else Some tt.

Definition null_abs (e : CNullifiersCacheEntry) : option unit := if nu_entered e then Some tt else None.

Definition root_abs (e : CAnchorsCacheEntry) : option unit := if an_entered e then Some tt else None.

Definition over (h b : Z) : Z := if h =? 0 then b else h.

Definition overlay_all (hb ha : Z) (m : CacheMaps) (a : AbsView) : AbsView :=
  mkAbs (overlay coins_entry_abs (cacheCoins m) (a_coins a))
    (overlay entry_abs (cacheSidechains m) (a_sc a))
    (overlay entry_abs (cacheSidechainEvents m) (a_ev a))
    (overlay csw_abs (cacheCswNullifiers m) (a_csw a))
    (overlay null_abs (cacheNullifiers m) (a_null a))
    (overlay root_abs (cacheAnchors m) (a_roots a))
    (over hb (a_block a)) (over ha (a_anchor a)).

(** ** The contract *)

(** [*_loaded v k]: a later write of an entry of [k] finds an entry of [k] in [v];
    [*_fresh_ok v k]: [v] accepts an entry of [k] that claims to be new;
    [root_pinned k]: the anchor [k] is known whatever is written. *)
Class ViewSpec (V : Type) := {
  denote : V -> AbsView;
  v_wf : V -> Prop;
  coins_loaded : V -> Z -> Prop;
  sc_loaded : V -> Z -> Prop;
  ev_loaded : V -> Z -> Prop;
  csw_loaded : V -> Z * bytes -> Prop;
  sc_fresh_ok : V -> Z -> Prop;
  ev_fresh_ok : V -> Z -> Prop;
  csw_fresh_ok : V -> Z * bytes -> Prop;
  root_pinned : Z -> Prop }.

Arguments root_pinned V {_} _.

(** Reading moves a view to one that stands for the same state. *)
Definition reads {V} `{ViewSpec V} (v v' : V) : Prop :=
  v_wf v' /\ denote v' = denote v
  /\ (forall k, coins_loaded v k -> coins_loaded v' k)
  /\ (forall k, sc_loaded v k -> sc_loaded v' k) /\ (forall k, ev_loaded v k -> ev_loaded v' k)
  /\ (forall k, csw_loaded v k -> csw_loaded v' k)
  /\ (forall k, sc_fresh_ok v k -> sc_fresh_ok v' k) /\ (forall k, ev_fresh_ok v k -> ev_fresh_ok v' k)
  /\ (forall k, csw_fresh_ok v k -> csw_fresh_ok v' k).

(** Coherence of one entry with the view below, given what is loaded there ([L]),
    whether a new entry is accepted ([F]) and what the state holds ([b]). *)
Definition coins_coh (L : Prop) (b : option CCoins) (e : CCoinsCacheEntry) : Prop :=
  coins_ok (e_coins e) /\ (if e_fresh e then b = None else L)
  /\ (e_dirty e = false -> b = coins_abs (e_coins e)).

Definition mut_coh {A} (ok : A -> Prop) (L F : Prop) (b : option A) (e : entry A) : Prop :=
  match flag e with
  | FRESH => F /\ ok (content e)
  | DIRTY => (L \/ b = None) /\ ok (content e)
  | ERASED => L \/ b = None
  | DEFAULT => L /\ b = Some (content e) /\ ok (content e)
  end.

Definition imm_coh (L F : Prop) (b : option unit) (f : ImmFlags) : Prop :=
  match f with
  | IFRESH => F
  | IERASED => L \/ b = None
  | IDEFAULT => L /\ b = Some tt
  end.

Definition null_coh (b : option unit) (e : CNullifiersCacheEntry) : Prop :=
  nu_dirty e = false -> b = null_abs e.

Definition root_coh (pinned : Prop) (b : option unit) (e : CAnchorsCacheEntry) : Prop :=
  (pinned -> an_entered e = true) /\ (an_dirty e = false -> b = root_abs e).

Section Contract.
  Context `{NodeConfig}.

(** A sidechain whose memory-only field is what reading it computes. *)
Definition sc_mem_ok (s : CSidechain) : Prop := sidechain_read s = Ok s.

Definition coherent {V} `{ViewSpec V} (v : V) (m : CacheMaps) : Prop :=
  (forall k e, cacheCoins m !! k = Some e -> coins_coh (coins_loaded v k) (a_coins (denote v) !! k) e)
  /\ (forall k e, cacheSidechains m !! k = Some e ->
        mut_coh sc_mem_ok (sc_loaded v k) (sc_fresh_ok v k) (a_sc (denote v) !! k) e)
  /\ (forall k e, cacheSidechainEvents m !! k = Some e ->
        mut_coh (fun _ => True) (ev_loaded v k) (ev_fresh_ok v k) (a_ev (denote v) !! k) e)
  /\ (forall k e, cacheCswNullifiers m !! k = Some e ->
        imm_coh (csw_loaded v k) (csw_fresh_ok v k) (a_csw (denote v) !! k) e)
  /\ (forall k e, cacheNullifiers m !! k = Some e -> null_coh (a_null (denote v) !! k) e)
  /\ (forall k e, cacheAnchors m !! k = Some e -> root_coh (root_pinned V k) (a_roots (denote v) !! k) e).

Class ViewLaws (V : Type) `{CCoinsView V, ViewSpec V} := {
  law_GetCoins : forall v k, v_wf v ->
    wp (v_GetCoins k) (fun r v' => reads v v' /\ (r ≫= coins_abs) = a_coins (denote v) !! k
      /\ (forall c, r = Some c -> coins_ok c /\ coins_loaded v' k)) v;
  law_GetSidechain : forall v k, v_wf v ->
    wp (v_GetSidechain k) (fun r v' => reads v v' /\ r = a_sc (denote v) !! k
      /\ (forall s, r = Some s -> sc_mem_ok s /\ sc_loaded v' k)) v;
  law_GetSidechainEvents : forall v k, v_wf v ->
    wp (v_GetSidechainEvents k) (fun r v' => reads v v' /\ r = a_ev (denote v) !! k
      /\ (is_Some r -> ev_loaded v' k)) v;
  law_HaveCswNullifier : forall v i n, v_wf v ->
    wp (v_HaveCswNullifier i n) (fun r v' => reads v v'
      /\ r = bool_decide (is_Some (a_csw (denote v) !! (i, n)))
      /\ (r = true -> csw_loaded v' (i, n))) v;
  law_GetNullifier : forall v k, v_wf v ->
    wp (v_GetNullifier k) (fun r v' => reads v v'
      /\ r = bool_decide (is_Some (a_null (denote v) !! k))) v;
  law_GetBestBlock : forall v, v_wf v ->
    wp v_GetBestBlock (fun r v' => reads v v' /\ r = a_block (denote v)) v;
  law_GetBestAnchor : forall v, v_wf v ->
    wp v_GetBestAnchor (fun r v' => reads v v' /\ r = a_anchor (denote v)) v;
  law_GetAnchorAt : forall v k, v_wf v -> 
    wp (v_GetAnchorAt k) (fun r v' => reads v v' /\ (is_Some r <-> is_Some (a_roots (denote v) !! k))) v;
  law_GetScIds : forall v, v_wf v ->
    wp (v_GetScIds ∅) (fun r v' => reads v v' /\ r = dom (a_sc (denote v))) v;
  law_sc_fresh : forall v k, v_wf v -> sc_fresh_ok v k -> sc_loaded v k \/ a_sc (denote v) !! k = None;
  law_ev_fresh : forall v k, v_wf v -> ev_fresh_ok v k -> ev_loaded v k \/ a_ev (denote v) !! k = None;
  law_csw_fresh : forall v k, v_wf v -> csw_fresh_ok v k -> csw_loaded v k \/ a_csw (denote v) !! k = None;
  law_BatchWrite : forall v hb ha m, v_wf v -> coherent v m -> hb <> 0 -> ha <> 0 ->
    wp (v_BatchWrite hb ha m) (fun r v' => r = true /\ v_wf v'
      /\ denote v' = overlay_all hb ha m (denote v)) v }.

(** Views that accept as new whatever they do not hold. *)
Class FreshOk (V : Type) `{ViewSpec V} := {
  none_sc_fresh : forall v k, v_wf v -> a_sc (denote v) !! k = None -> sc_fresh_ok v k;
  none_ev_fresh : forall v k, v_wf v -> a_ev (denote v) !! k = None -> ev_fresh_ok v k;
  none_csw_fresh : forall v k, v_wf v -> a_csw (denote v) !! k = None -> csw_fresh_ok v k }.

(** ** The database's contract *)
Context `{MerkleHash Z}.

#[export] Instance DB_spec : ViewSpec CCoinsViewDB := {|
  denote db := mkAbs (coins_stored <$> db_coins db) (db_sidechains db) (db_ceasedscs db)
                 (db_csw_nullifier db) (db_nullifier db)
                 (<[tree_empty_root := tt]> ((fun _ => tt) <$> db_anchor db)) (default 0 (db_best_block db))
                 (default tree_empty_root (db_best_anchor db));
  v_wf db := (forall k c, db_coins db !! k = Some c -> coins_wf c /\ IsPruned c = false)
             /\ (forall k s, db_sidechains db !! k = Some s -> sc_mem_ok s);
  coins_loaded _ _ := True;
  sc_loaded _ _ := True;
  ev_loaded _ _ := True;
  csw_loaded _ _ := True;
  sc_fresh_ok _ _ := True;
  ev_fresh_ok _ _ := True;
  csw_fresh_ok _ _ := True;
  root_pinned k := k = tree_empty_root |}.

(** ** The cache's contract over any view *)
#[export] Instance Cache_spec {V} `{ViewSpec V} : ViewSpec (CCoinsViewCache V) := {|
  denote c := overlay_all (hashBlock c) (hashAnchor c) (maps c) (denote (base c));
  v_wf c := v_wf (base c) /\ hasModifier c = false /\ coherent (base c) (maps c);
  coins_loaded c k := is_Some (cacheCoins (maps c) !! k);
  sc_loaded c k := is_Some (cacheSidechains (maps c) !! k);
  ev_loaded c k := is_Some (cacheSidechainEvents (maps c) !! k);
  csw_loaded c k := is_Some (cacheCswNullifiers (maps c) !! k);
  sc_fresh_ok c k := overlay entry_abs (cacheSidechains (maps c)) (a_sc (denote (base c))) !! k = None
                     /\ sc_fresh_ok (base c) k;
  ev_fresh_ok c k := overlay entry_abs (cacheSidechainEvents (maps c)) (a_ev (denote (base c))) !! k = None
                     /\ ev_fresh_ok (base c) k;
  csw_fresh_ok c k := overlay csw_abs (cacheCswNullifiers (maps c)) (a_csw (denote (base c))) !! k = None
                      /\ csw_fresh_ok (base c) k;
  root_pinned := root_pinned V |}.
End Contract.

(** ** Pointwise characterisations *)
Lemma lookup_overlay {K} `{Countable K} {E A} (f : E -> option A) (m : gmap K E) (b : gmap K A) k :
  overlay f m b !! k = match m !! k with Some e => f e | None => b !! k end.
Proof. unfold overlay. rewrite lookup_merge. by destruct (m !! k), (b !! k). Qed.

Lemma overlay_empty {K} `{Countable K} {E A} (f : E -> option A) (b : gmap K A) : overlay f ∅ b = b.
Proof. apply map_eq. intros k. by rewrite lookup_overlay, lookup_empty. Qed.

Lemma overlay_insert {K} `{Countable K} {E A} (f : E -> option A) (m : gmap K E) (b : gmap K A) k e :
  f e = overlay f m b !! k -> overlay f (<[k := e]> m) b = overlay f m b.
Proof.
  intros Hf. apply map_eq. intros k'. rewrite lookup_overlay, lookup_overlay in *.
  destruct (decide (k' = k)) as [->|]; simplify_map_eq; done.
Qed.

(** A write that succeeds on every key succeeds, key by key. *)
Lemma write_all_ok {K} `{Countable K} {E E'} (g : E -> option E' -> res (option E'))
    (child : gmap K E) (m : gmap K E') :
  (forall k e, child !! k = Some e -> exists o, g e (m !! k) = Ok o) ->
  exists m', write_all g child m = Ok m'
    /\ forall k, match child !! k with Some e => g e (m !! k) = Ok (m' !! k) | None => m' !! k = m !! k end.
Proof.
  intros Hg.
  assert (Hl : forall l (m1 : gmap K E'), NoDup l.*1 ->
    (forall k e, (k, e) ∈ l -> exists o, g e (m1 !! k) = Ok o) ->
    exists m', foldl (fun acc p => res_bind acc (write_entry g p.1 p.2)) (Ok m1) l = Ok m'
      /\ (forall k e, (k, e) ∈ l -> g e (m1 !! k) = Ok (m' !! k))
      /\ (forall k, k ∉ l.*1 -> m' !! k = m1 !! k)).
  { induction l as [|[k e] l IH]; intros m1 Hnd Hok; [exists m1; split_and!; [done|set_solver|done]|].
    cbn [fmap list_fmap fst] in Hnd. apply list.NoDup_cons in Hnd as [Hk Hnd].
    destruct (Hok k e ltac:(set_solver)) as [o Ho]. cbn [foldl fst snd].
    unfold write_entry at 2. cbn [res_bind]. rewrite Ho. cbn [res_bind].
    assert (Hne : forall k' e', (k', e') ∈ l -> k' <> k).
    { intros k' e' Hin ->. apply Hk. by apply (list_elem_of_fmap_2 fst l (k, e')). }
    destruct (IH (partial_alter (fun _ => o) k m1) Hnd) as (m' & Hm' & H1 & H2).
    { intros k' e' Hin. rewrite lookup_partial_alter_ne by (symmetry; eauto). apply Hok. set_solver. }
    exists m'. split; [done|]. split.
    - intros k' e' [Heq|Hin]%elem_of_cons.
      + simplify_eq. rewrite H2 by done. by rewrite lookup_partial_alter_eq.
      + rewrite <- (H1 k' e' Hin). by rewrite lookup_partial_alter_ne by (symmetry; eauto).
    - intros k' Hk'. cbn [fmap list_fmap fst] in Hk'. apply not_elem_of_cons in Hk' as [Hne' Hk'].
      rewrite H2 by done. by rewrite lookup_partial_alter_ne. }
  destruct (Hl (map_to_list child) m) as (m' & Hm' & H1 & H2).
  { apply NoDup_fst_map_to_list. }
  { intros k e Hin%elem_of_map_to_list. eauto. }
  exists m'. split; [done|]. intros k. destruct (child !! k) as [e|] eqn:Ek.
  - apply H1. by apply elem_of_map_to_list.
  - apply H2. intros ([k' e'] & -> & Hin%elem_of_map_to_list)%list_elem_of_fmap. by simplify_eq/=.
Qed.

(** ** The database *)
Lemma stored_version_idem v : stored_version (stored_version v) = stored_version v.
Proof.
  unfold stored_version. destruct (Z.ltb_spec v 0); [|by rewrite (proj2 (Z.ltb_ge _ _))].
  rewrite (proj2 (Z.ltb_ge _ _)); [done|]. apply Z.land_nonneg. by right.
Qed.

Lemma coins_stored_idem c : coins_stored (coins_stored c) = coins_stored c.
Proof. unfold coins_stored. cbn. by rewrite stored_version_idem. Qed.

Lemma stored_sane c : sane_version (nVersion (coins_stored c)) = true.
Proof.
  cbn. unfold sane_version, stored_version. destruct (Z.ltb_spec (nVersion c) 0) as [Hv|Hv].
  - rewrite land_127. pose proof (Z.mod_pos_bound (nVersion c) 128). by rewrite (proj2 (Z.leb_le _ _)) by lia.
  - by rewrite (proj2 (Z.leb_le _ _)).
Qed.

Section DBLaws.
  Context `{NodeConfig} `{MerkleHash Z}.

Lemma db_reads (db : CCoinsViewDB) : v_wf db -> reads db db.
Proof. intros Hwf. unfold reads. split_and!; done. Qed.

Lemma db_batch db hb ha m :
  v_wf db -> coherent db m -> hb <> 0 -> ha <> 0 ->
  wp (db_BatchWrite hb ha m) (fun r v' => r = true /\ v_wf v'
    /\ denote v' = overlay_all hb ha m (denote db)) db.
Proof.
  intros [Hw1 Hw2] (Hc & Hs & He & Hn & Hu & Hz) Hb Ha. unfold wp, db_BatchWrite.
  destruct (write_all_ok BatchWriteCoins (cacheCoins m) (db_coins db)) as (mc & -> & Pc); [eexists; done|].
  destruct (write_all_ok BatchWriteAnchor (cacheAnchors m) (db_anchor db)) as (ma & -> & Pa); [eexists; done|].
  destruct (write_all_ok BatchWriteNullifier (cacheNullifiers m) (db_nullifier db)) as (mn & -> & Pn); [eexists; done|].
  destruct (write_all_ok BatchSidechains (cacheSidechains m) (db_sidechains db)) as (ms & -> & Ps); [eexists; done|].
  destruct (write_all_ok BatchSidechains (cacheSidechainEvents m) (db_ceasedscs db)) as (me & -> & Pe); [eexists; done|].
  destruct (write_all_ok BatchWriteCswNullifier (cacheCswNullifiers m) (db_csw_nullifier db)) as (mw & -> & Pw); [eexists; done|].
  cbn [res_bind]. split; [done|]. split; [split|].
  - intros k c Hk. cbn in Hk. specialize (Pc k). destruct (cacheCoins m !! k) as [e|] eqn:E.
    + destruct (Hc k e E) as ([Hwf _] & _ & _). unfold BatchWriteCoins in Pc. rewrite Hk in Pc.
      destruct (e_dirty e); [|by injection Pc as Pc; apply (Hw1 k)].
      destruct (IsPruned (e_coins e)) eqn:Ep; simplify_eq. done.
    + rewrite Hk in Pc. by apply (Hw1 k).
  - intros k s Hk. cbn in Hk. specialize (Ps k). destruct (cacheSidechains m !! k) as [e|] eqn:E.
    + specialize (Hs k e E). unfold mut_coh in Hs. unfold BatchSidechains in Ps. rewrite Hk in Ps.
      destruct (flag e); simplify_eq; [|by destruct Hs|by destruct Hs].
      by apply (Hw2 k).
    + rewrite Hk in Ps. by apply (Hw2 k).
  - unfold overlay_all, over. cbn [denote DB_spec db_coins db_sidechains db_ceasedscs db_csw_nullifier
      db_nullifier db_anchor db_best_block db_best_anchor a_coins a_sc a_ev a_csw a_null a_roots a_block a_anchor].
    rewrite (proj2 (Z.eqb_neq hb 0) Hb), (proj2 (Z.eqb_neq ha 0) Ha). cbn [default].
    f_equal; apply map_eq; intros k; rewrite lookup_overlay.
    + rewrite !lookup_fmap. specialize (Pc k). destruct (cacheCoins m !! k) as [e|] eqn:E; [|by rewrite Pc].
      destruct (Hc k e E) as (_ & _ & Hd). unfold BatchWriteCoins in Pc. injection Pc as <-.
      unfold coins_entry_abs, coins_abs. destruct (e_dirty e); [by destruct (IsPruned _)|].
      cbn in Hd. rewrite lookup_fmap in Hd. exact (Hd eq_refl).
    + specialize (Ps k). destruct (cacheSidechains m !! k) as [e|] eqn:E; [|done].
      specialize (Hs k e E). unfold mut_coh in Hs. unfold BatchSidechains in Ps. injection Ps as <-.
      unfold entry_abs, live. destruct (flag e) eqn:Ef; case_decide; try done. cbn in Hs. by destruct Hs as (_ & -> & _).
    + specialize (Pe k). destruct (cacheSidechainEvents m !! k) as [e|] eqn:E; [|done].
      specialize (He k e E). unfold mut_coh in He. unfold BatchSidechains in Pe. injection Pe as <-.
      unfold entry_abs, live. destruct (flag e) eqn:Ef; case_decide; try done. cbn in He. by destruct He as (_ & -> & _).
    + specialize (Pw k). destruct (cacheCswNullifiers m !! k) as [e|] eqn:E; [|done].
      specialize (Hn k e E). unfold imm_coh in Hn. unfold BatchWriteCswNullifier in Pw. injection Pw as <-.
      unfold csw_abs. destruct e; case_decide; try done. cbn in Hn. by destruct Hn as (_ & ->).
    + specialize (Pn k). destruct (cacheNullifiers m !! k) as [e|] eqn:E; [|done].
      specialize (Hu k e E). unfold null_coh in Hu. unfold BatchWriteNullifier in Pn. injection Pn as <-.
      unfold null_abs in *. destruct (nu_dirty e); [by destruct (nu_entered e)|]. by rewrite <- Hu.
    + specialize (Pa k). destruct (cacheAnchors m !! k) as [e|] eqn:E.
      * destruct (Hz k e E) as [Hpin Hroot]. cbn [root_pinned DB_spec] in Hpin. unfold BatchWriteAnchor in Pa. injection Pa as Pa.
        destruct (decide (k = tree_empty_root)) as [->|Hne].
        { rewrite lookup_insert_eq. unfold root_abs. by rewrite (Hpin eq_refl). }
        cbn [denote DB_spec a_roots] in Hroot. rewrite lookup_insert_ne, lookup_fmap in Hroot by done.
        rewrite lookup_insert_ne, lookup_fmap, <- Pa by done. unfold root_abs in *.
        destruct (an_dirty e); [by destruct (an_entered e)|]. by rewrite <- Hroot.
      * destruct (decide (k = tree_empty_root)) as [->|Hne]; [by rewrite !lookup_insert_eq|].
        by rewrite !lookup_insert_ne, !lookup_fmap, Pa by done.
Qed.

#[export] Instance DB_laws : ViewLaws CCoinsViewDB.
Proof.
  split; try (intros; by left).
  - intros db k Hwf. unfold wp. cbn. unfold db_GetCoins. split; [by apply db_reads|].
    rewrite lookup_fmap. destruct Hwf as [Hc _]. destruct (db_coins db !! k) as [c|] eqn:E; [|done].
    destruct (Hc k c E) as [[H1 H2] H3]. cbn. unfold coins_abs.
    change (IsPruned (coins_stored c)) with (IsPruned c). rewrite H3, coins_stored_idem. split; [done|].
    intros c' [= <-]. split; [|done]. split; [done|]. apply stored_sane.
  - intros db k Hwf. unfold wp. cbn. unfold db_GetSidechain. pose proof (db_reads db Hwf) as Hr.
    destruct Hwf as [_ Hs]. destruct (db_sidechains db !! k) as [s|] eqn:E; [|done].
    pose proof (Hs k s E) as Hm. unfold sc_mem_ok in Hm. rewrite Hm. cbn. split_and!; [done|done|].
    by intros s' [= <-].
  - intros db k Hwf. split_and!; [by apply db_reads|done|done].
  - intros db i n Hwf. split_and!; [by apply db_reads|done|done].
  - intros db k Hwf. split_and!; [by apply db_reads|done].
  - intros db Hwf. split_and!; [by apply db_reads|done].
  - intros db Hwf. split_and!; [by apply db_reads|done].
  - intros db k Hwf. split; [by apply db_reads|].
    unfold db_GetAnchorAt. cbn [denote DB_spec a_roots]. destruct (Z.eqb_spec k tree_empty_root) as [->|Hne].
    + by rewrite lookup_insert_eq.
    + rewrite lookup_insert_ne, lookup_fmap by done. by rewrite fmap_is_Some.
  - intros db Hwf. split; [by apply db_reads|]. cbn. apply union_empty_l_L.
  - intros db hb ha m. apply db_batch.
Qed.

#[export] Instance DB_fresh : FreshOk CCoinsViewDB.
Proof. by split. Qed.
End DBLaws.

(** ** The cache: reading *)
Section CacheReads.
  Context `{NodeConfig} {V : Type} `{CCoinsView V} `{ViewSpec V} `{!ViewLaws V}.
  Implicit Types c : CCoinsViewCache V.

Lemma reads_refl (v : V) : v_wf v -> reads v v.
Proof. intros Hwf. unfold reads. split_and!; done. Qed.

Lemma coherent_reads (v v' : V) m : reads v v' -> coherent v m -> coherent v' m.
Proof.
  intros (_ & Hd & R1 & R2 & R3 & R4 & R5 & R6 & R7) (K1 & K2 & K3 & K4 & K5 & K6).
  unfold coherent. rewrite Hd. split_and!; intros k e Hk.
  - destruct (K1 k e Hk) as (Ha & Hb & Hc). split_and!; try done. destruct (e_fresh e); auto.
  - specialize (K2 k e Hk). unfold mut_coh in *. destruct (flag e); naive_solver.
  - specialize (K3 k e Hk). unfold mut_coh in *. destruct (flag e); naive_solver.
  - specialize (K4 k e Hk). unfold imm_coh in *. destruct e; naive_solver.
  - by apply (K5 k e).
  - by apply (K6 k e).
Qed.

Lemma reads_intro c (v' : V) hb ha m' :
  v_wf c -> reads (base c) v' -> coherent v' m' ->
  overlay_all hb ha m' (denote (base c)) = denote c ->
  (forall k, is_Some (cacheCoins (maps c) !! k) -> is_Some (cacheCoins m' !! k)) ->
  (forall k, is_Some (cacheSidechains (maps c) !! k) -> is_Some (cacheSidechains m' !! k)) ->
  (forall k, is_Some (cacheSidechainEvents (maps c) !! k) -> is_Some (cacheSidechainEvents m' !! k)) ->
  (forall k, is_Some (cacheCswNullifiers (maps c) !! k) -> is_Some (cacheCswNullifiers m' !! k)) ->
  reads c (mkCache v' false hb ha m').
Proof.
  intros Hwf Hr Hcoh Hden L1 L2 L3 L4. pose proof Hr as (Hw & Hd & R1 & R2 & R3 & R4 & R5 & R6 & R7).
  assert (Hden' : denote (mkCache v' false hb ha m') = denote c) by (cbn [denote Cache_spec base hashBlock hashAnchor maps]; by rewrite Hd).
  unfold reads. split_and!; try done.
  - intros k [F1 F2]. split; [|by apply R5]. apply (f_equal a_sc) in Hden'. cbn in Hden'. cbn. by rewrite Hden'.
  - intros k [F1 F2]. split; [|by apply R6]. apply (f_equal a_ev) in Hden'. cbn in Hden'. cbn. by rewrite Hden'.
  - intros k [F1 F2]. split; [|by apply R7]. apply (f_equal a_csw) in Hden'. cbn in Hden'. cbn. by rewrite Hden'.
Qed.

(** Only the base moved. *)
Lemma reads_base c (v' : V) :
  v_wf c -> reads (base c) v' -> reads c (mkCache v' (hasModifier c) (hashBlock c) (hashAnchor c) (maps c)).
Proof.
  intros (Hb & Hm & Hc) Hr. rewrite Hm. apply reads_intro; try done. by eapply coherent_reads.
Qed.

Lemma cache_reads_refl c : v_wf c -> reads c c.
Proof. intros Hwf. unfold reads. split_and!; done. Qed.

Lemma cache_reads_trans c1 c2 c3 : reads c1 c2 -> reads c2 c3 -> reads c1 c3.
Proof. unfold reads. intros. destruct_and!. split_and!; try done; [congruence|auto..]. Qed.

Lemma wp_on_base {A} (m : M V A) (Q : A -> V -> Prop) c :
  wp m Q (base c) ->
  wp (on_base m) (fun a c' => Q a (base c')
    /\ c' = mkCache (base c') (hasModifier c) (hashBlock c) (hashAnchor c) (maps c)) c.
Proof. unfold wp, on_base. by destruct (m (base c)) as [[a b]|]. Qed.

Lemma is_Some_insert {K} `{Countable K} {E} (m : gmap K E) k k' e :
  is_Some (m !! k') -> is_Some (<[k := e]> m !! k').
Proof. intros Hk. destruct (decide (k' = k)) as [->|]; simplify_map_eq; [done|done]. Qed.

(** An entry read from the base enters a map of the cache without changing what
    the cache stands for. *)
Ltac fill c :=
  apply (reads_intro c);
  [done|done| | | intros; cbn; first [done|by apply is_Some_insert]..].

Lemma FetchCoins_law c k : v_wf c ->
  wp (FetchCoins k) (fun r c' => reads c c' /\ cacheCoins (maps c') !! k = r
    /\ (r = None -> a_coins (denote c) !! k = None)) c.
Proof.
  intros Hwf. unfold FetchCoins. apply wp_bind. unfold wp at 1, get_maps at 1.
  destruct (cacheCoins (maps c) !! k) as [e|] eqn:E; [split; [by apply cache_reads_refl|done]|].
  apply wp_bind. eapply wp_mono; [apply wp_on_base, law_GetCoins, Hwf|].
  intros r c' [(Hr & Hv & Hl) ->]. cbn [base] in *.
  assert (Hden : a_coins (denote c) !! k = a_coins (denote (base c)) !! k)
    by (cbn [denote Cache_spec overlay_all a_coins]; by rewrite lookup_overlay, E).
  destruct r as [coins|].
  - destruct (Hl coins eq_refl) as [Hcw Hld]. unfold wp. cbn -[reads denote]. split; [|split; [by simplify_map_eq|done]].
    destruct (Hwf) as (Hb & Hm & Hc). rewrite Hm. pose proof (coherent_reads _ _ _ Hr Hc) as Hc'.
    fill c.
    + destruct Hc' as (K1 & K2 & K3 & K4 & K5 & K6). split_and!; try done. cbn [cacheCoins set_coins].
      intros k' e Hk'. destruct (decide (k' = k)) as [->|]; simplify_map_eq; [|by apply K1].
      destruct Hr as (_ & Hd & _). rewrite Hd, <- Hv. cbn.
      split; [done|]. cbn. split; [|done]. unfold coins_abs. by destruct (IsPruned coins).
    + cbn [denote Cache_spec]. unfold overlay_all. cbn [cacheCoins set_coins]. f_equal.
      apply overlay_insert. rewrite lookup_overlay, E, <- Hv. done.
  - unfold wp, ret. split; [by apply reads_base|]. split; [exact E|]. intros _. by rewrite Hden, <- Hv.
Qed.

Lemma FetchSidechains_law c k : v_wf c ->
  wp (FetchSidechains k) (fun r c' => reads c c' /\ cacheSidechains (maps c') !! k = r
    /\ live r = a_sc (denote c) !! k) c.
Proof.
  intros Hwf. unfold FetchSidechains. apply wp_bind. unfold wp at 1, get_maps at 1.
  assert (Hden : a_sc (denote c) !! k = match cacheSidechains (maps c) !! k with
    | Some e => entry_abs e | None => a_sc (denote (base c)) !! k end)
    by (cbn [denote Cache_spec overlay_all a_sc]; by rewrite lookup_overlay).
  destruct (cacheSidechains (maps c) !! k) as [e|] eqn:E.
  { split; [by apply cache_reads_refl|]. split; [done|]. by rewrite Hden. }
  apply wp_bind. eapply wp_mono; [apply wp_on_base, law_GetSidechain, Hwf|].
  intros r c' [(Hr & Hv & Hl) ->]. cbn [base] in *. destruct r as [sc|].
  - destruct (Hl sc eq_refl) as [Hcw Hld]. unfold wp. cbn -[reads denote]. split; [|split; [by simplify_map_eq|]].
    2: { by rewrite Hden, <- Hv. }
    destruct (Hwf) as (Hb & Hm & Hc). rewrite Hm. pose proof (coherent_reads _ _ _ Hr Hc) as Hc'.
    fill c.
    + destruct Hc' as (K1 & K2 & K3 & K4 & K5 & K6). split_and!; try done. cbn [cacheSidechains set_sidechains].
      intros k' e Hk'. destruct (decide (k' = k)) as [->|]; simplify_map_eq; [|by apply K2].
      destruct Hr as (_ & Hd & _). by rewrite Hd, <- Hv.
    + cbn [denote Cache_spec]. unfold overlay_all. cbn [cacheSidechains set_sidechains]. f_equal.
      apply overlay_insert. rewrite lookup_overlay, E, <- Hv. done.
  - unfold wp, ret. split; [by apply reads_base|]. split; [exact E|]. by rewrite Hden, <- Hv.
Qed.

Lemma FetchSidechainEvents_law c k : v_wf c ->
  wp (FetchSidechainEvents k) (fun r c' => reads c c' /\ cacheSidechainEvents (maps c') !! k = r
    /\ live r = a_ev (denote c) !! k) c.
Proof.
  intros Hwf. unfold FetchSidechainEvents. apply wp_bind. unfold wp at 1, get_maps at 1.
  assert (Hden : a_ev (denote c) !! k = match cacheSidechainEvents (maps c) !! k with
    | Some e => entry_abs e | None => a_ev (denote (base c)) !! k end)
    by (cbn [denote Cache_spec overlay_all a_ev]; by rewrite lookup_overlay).
  destruct (cacheSidechainEvents (maps c) !! k) as [e|] eqn:E.
  { split; [by apply cache_reads_refl|]. split; [done|]. by rewrite Hden. }
  apply wp_bind. eapply wp_mono; [apply wp_on_base, law_GetSidechainEvents, Hwf|].
  intros r c' [(Hr & Hv & Hl) ->]. cbn [base] in *. destruct r as [ev|].
  - specialize (Hl ltac:(done)). unfold wp. cbn -[reads denote]. split; [|split; [by simplify_map_eq|]].
    2: { by rewrite Hden, <- Hv. }
    destruct (Hwf) as (Hb & Hm & Hc). rewrite Hm. pose proof (coherent_reads _ _ _ Hr Hc) as Hc'.
    fill c.
    + destruct Hc' as (K1 & K2 & K3 & K4 & K5 & K6). split_and!; try done. cbn [cacheSidechainEvents set_events].
      intros k' e Hk'. destruct (decide (k' = k)) as [->|]; simplify_map_eq; [|by apply K3].
      destruct Hr as (_ & Hd & _). by rewrite Hd, <- Hv.
    + cbn [denote Cache_spec]. unfold overlay_all. cbn [cacheSidechainEvents set_events]. f_equal.
      apply overlay_insert. rewrite lookup_overlay, E, <- Hv. done.
  - unfold wp, ret. split; [by apply reads_base|]. split; [exact E|]. by rewrite Hden, <- Hv.
Qed.

Lemma HaveCsw_law c i n : v_wf c ->
  wp (HaveCswNullifier i n) (fun r c' => reads c c'
    /\ r = bool_decide (is_Some (a_csw (denote c) !! (i, n)))
    /\ (r = true -> csw_loaded c' (i, n))
    /\ (r = false -> cacheCswNullifiers (maps c') !! (i, n) = cacheCswNullifiers (maps c) !! (i, n))) c.
Proof.
  intros Hwf. unfold HaveCswNullifier. apply wp_bind. unfold wp at 1, get_maps at 1.
  assert (Hden : a_csw (denote c) !! (i, n) = match cacheCswNullifiers (maps c) !! (i, n) with
    | Some e => csw_abs e | None => a_csw (denote (base c)) !! (i, n) end)
    by (cbn [denote Cache_spec overlay_all a_csw]; by rewrite lookup_overlay).
  destruct (cacheCswNullifiers (maps c) !! (i, n)) as [f|] eqn:E.
  { unfold wp, ret. split; [by apply cache_reads_refl|]. rewrite Hden. split; [by destruct f|].
    split; [|done]. intros _. cbn. by rewrite E. }
  apply wp_bind. eapply wp_mono; [apply wp_on_base, law_HaveCswNullifier, Hwf|].
  intros r c' [(Hr & Hv & Hl) ->]. cbn [base] in *. rewrite Hden, <- Hv. destruct r; cbn [negb].
  - specialize (Hl eq_refl). unfold wp. cbn -[reads denote].
    split; [|split; [done|split; [intros _; cbn; by simplify_map_eq|done]]].
    destruct (Hwf) as (Hb & Hm & Hc). rewrite Hm. pose proof (coherent_reads _ _ _ Hr Hc) as Hc'.
    symmetry in Hv. apply bool_decide_eq_true in Hv as [[] Hv].
    fill c.
    + destruct Hc' as (K1 & K2 & K3 & K4 & K5 & K6). split_and!; try done. cbn [cacheCswNullifiers set_csw].
      intros k' e Hk'. destruct (decide (k' = (i, n))) as [->|]; simplify_map_eq; [|by apply K4].
      destruct Hr as (_ & Hd & _). rewrite Hd, Hv. done.
    + cbn [denote Cache_spec]. unfold overlay_all. cbn [cacheCswNullifiers set_csw]. f_equal.
      apply overlay_insert. rewrite lookup_overlay, E, Hv. done.
  - unfold wp, ret. split; [by apply reads_base|]. split_and!; [done|done|]. intros _. exact E.
Qed.

Lemma GetNullifier_law c k : v_wf c ->
  wp (GetNullifier k) (fun r c' => reads c c'
    /\ r = bool_decide (is_Some (a_null (denote c) !! k))) c.
Proof.
  intros Hwf. unfold GetNullifier. apply wp_bind. unfold wp at 1, get_maps at 1.
  assert (Hden : a_null (denote c) !! k = match cacheNullifiers (maps c) !! k with
    | Some e => null_abs e | None => a_null (denote (base c)) !! k end)
    by (cbn [denote Cache_spec overlay_all a_null]; by rewrite lookup_overlay).
  destruct (cacheNullifiers (maps c) !! k) as [f|] eqn:E.
  { unfold wp, ret. split; [by apply cache_reads_refl|]. rewrite Hden. unfold null_abs.
    by destruct (nu_entered f). }
  apply wp_bind. eapply wp_mono; [apply wp_on_base, law_GetNullifier, Hwf|].
  intros r c' [(Hr & Hv) ->]. cbn [base] in *. unfold wp. cbn -[reads denote]. rewrite Hden. split; [|done].
  assert (Hn : a_null (denote (base c)) !! k = null_abs (mkNullifierEntry r false)).
  { unfold null_abs. cbn. subst r. destruct (a_null (denote (base c)) !! k) as [[]|]; done. }
  destruct (Hwf) as (Hb & Hm & Hc). rewrite Hm. pose proof (coherent_reads _ _ _ Hr Hc) as Hc'.
  fill c.
  - destruct Hc' as (K1 & K2 & K3 & K4 & K5 & K6). split_and!; try done. cbn [cacheNullifiers set_nullifiers].
    intros k' e Hk'. destruct (decide (k' = k)) as [->|]; simplify_map_eq; [|by apply K5].
    destruct Hr as (_ & Hd & _). intros _. rewrite Hd. exact Hn.
  - cbn [denote Cache_spec]. unfold overlay_all. cbn [cacheNullifiers set_nullifiers]. f_equal.
    apply overlay_insert. rewrite lookup_overlay, E, Hn. done.
Qed.

Lemma GetBestBlock_law c : v_wf c ->
  wp GetBestBlock (fun r c' => reads c c' /\ r = a_block (denote c)) c.
Proof.
  intros Hwf. unfold GetBestBlock. apply wp_bind. unfold wp at 1, get at 1.
  destruct (Z.eqb_spec (hashBlock c) 0) as [E|E].
  - apply wp_bind. eapply wp_mono; [apply wp_on_base, law_GetBestBlock, Hwf|].
    intros r c' [(Hr & Hv) ->]. cbn [base] in *. unfold wp. cbn -[reads denote].
    assert (Hb' : over r (a_block (denote (base c))) = a_block (denote c)).
    { cbn. unfold over. rewrite E, Hv. cbn. by destruct (_ =? 0). }
    destruct (Hwf) as (Hb & Hm & Hc). rewrite Hm. pose proof (coherent_reads _ _ _ Hr Hc) as Hc'.
    split; [|rewrite <- Hb'; unfold over; rewrite Hv; by destruct (_ =? 0)].
    fill c; [done|].
    cbn [denote Cache_spec] in Hb' |- *. unfold overlay_all in *. cbn [a_block] in Hb'. by rewrite Hb'.
  - unfold wp, ret. split; [by apply cache_reads_refl|]. cbn. unfold over. by rewrite (proj2 (Z.eqb_neq _ _) E).
Qed.

Lemma GetBestAnchor_law c : v_wf c ->
  wp GetBestAnchor (fun r c' => reads c c' /\ r = a_anchor (denote c)) c.
Proof.
  intros Hwf. unfold GetBestAnchor. apply wp_bind. unfold wp at 1, get at 1.
  destruct (Z.eqb_spec (hashAnchor c) 0) as [E|E].
  - apply wp_bind. eapply wp_mono; [apply wp_on_base, law_GetBestAnchor, Hwf|].
    intros r c' [(Hr & Hv) ->]. cbn [base] in *. unfold wp. cbn -[reads denote].
    assert (Hb' : over r (a_anchor (denote (base c))) = a_anchor (denote c)).
    { cbn. unfold over. rewrite E, Hv. cbn. by destruct (_ =? 0). }
    destruct (Hwf) as (Hb & Hm & Hc). rewrite Hm. pose proof (coherent_reads _ _ _ Hr Hc) as Hc'.
    split; [|rewrite <- Hb'; unfold over; rewrite Hv; by destruct (_ =? 0)].
    fill c; [done|].
    cbn [denote Cache_spec] in Hb' |- *. unfold overlay_all in *. cbn [a_anchor] in Hb'. by rewrite Hb'.
  - unfold wp, ret. split; [by apply cache_reads_refl|]. cbn. unfold over. by rewrite (proj2 (Z.eqb_neq _ _) E).
Qed.

Lemma GetAnchorAt_law c k : v_wf c ->
  wp (GetAnchorAt k) (fun r c' => reads c c' /\ (is_Some r <-> is_Some (a_roots (denote c) !! k))) c.
Proof.
  intros Hwf. unfold GetAnchorAt. apply wp_bind. unfold wp at 1, get_maps at 1.
  assert (Hden : a_roots (denote c) !! k = match cacheAnchors (maps c) !! k with
    | Some e => root_abs e | None => a_roots (denote (base c)) !! k end)
    by (cbn [denote Cache_spec overlay_all a_roots]; by rewrite lookup_overlay).
  rewrite Hden. destruct (cacheAnchors (maps c) !! k) as [e|] eqn:E.
  { unfold wp, ret. split; [by apply cache_reads_refl|]. unfold root_abs. by destruct (an_entered e). }
  apply wp_bind. eapply wp_mono; [apply wp_on_base, law_GetAnchorAt, Hwf|].
  intros r c' [[Hr Hv] ->]. cbn [base] in *.
  destruct r as [t|]; unfold wp; cbn -[reads denote]; [|split; [by apply reads_base|done]]. split; [|done].
  destruct (Hwf) as (Hb & Hm & Hc). rewrite Hm. pose proof (coherent_reads _ _ _ Hr Hc) as Hc'.
  destruct (proj1 Hv ltac:(done)) as [[] Hs].
  fill c.
  - destruct Hc' as (K1 & K2 & K3 & K4 & K5 & K6). split_and!; try done. cbn [cacheAnchors set_anchors].
    intros k' e Hk'. destruct (decide (k' = k)) as [->|]; simplify_map_eq; [|by apply K6].
    destruct Hr as (_ & Hd & _). split; [done|]. intros _. by rewrite Hd, Hs.
  - cbn [denote Cache_spec]. unfold overlay_all. cbn [cacheAnchors set_anchors]. f_equal.
    apply overlay_insert. by rewrite lookup_overlay, E, Hs.
Qed.

Lemma ids_fold (m : gmap Z (entry CSidechain)) (B : gmap Z CSidechain) :
  map_fold (fun scId e acc => if decide (flag e = ERASED) then acc ∖ {[scId]} else acc ∪ {[scId]}) (dom B) m
  = dom (overlay entry_abs m B).
Proof.
  apply (map_fold_weak_ind (fun r m => r = dom (overlay entry_abs m B))).
  - by rewrite overlay_empty.
  - intros k e m' r Hk ->. apply set_eq. intros x.
    rewrite elem_of_dom, lookup_overlay. unfold entry_abs, live.
    destruct (decide (x = k)) as [->|Hne].
    + rewrite lookup_insert_eq. case_decide; [set_solver by fail|]. rewrite elem_of_union, elem_of_singleton. naive_solver.
    + rewrite lookup_insert_ne by done. case_decide.
      * rewrite elem_of_difference, elem_of_singleton, elem_of_dom, lookup_overlay. naive_solver.
      * rewrite elem_of_union, elem_of_singleton, elem_of_dom, lookup_overlay. naive_solver.
Qed.

Lemma GetScIds_law c : v_wf c ->
  wp (GetScIds ∅) (fun r c' => reads c c' /\ r = dom (a_sc (denote c))) c.
Proof.
  intros Hwf. unfold GetScIds. apply wp_bind. eapply wp_mono; [apply wp_on_base, law_GetScIds, Hwf|].
  intros r c' [[Hr ->] ->]. unfold wp. cbn -[reads denote]. split; [by apply reads_base|]. apply ids_fold.
Qed.
End CacheReads.

(** ** The cache: receiving the entries of a child *)
Section Writes.
  Context `{NodeConfig}.

Definition shown {E A} (f : E -> option A) (p : option E) (b : option A) : option A :=
  match p with Some e => f e | None => b end.

Lemma WriteCoins_coh (L : Prop) (b : option CCoins) (p : option CCoinsCacheEntry) (e : CCoinsCacheEntry) :
  (forall us, p = Some us -> coins_coh L b us) ->
  coins_coh (is_Some p) (shown coins_entry_abs p b) e ->
  exists o, WriteCoins e p = Ok o /\ (forall us, o = Some us -> coins_coh L b us)
    /\ shown coins_entry_abs o b = coins_entry_abs e.
Proof.
  intros Hp (Hwf & Hf & Hd). unfold WriteCoins. destruct (e_dirty e).
  2: { exists p. split_and!; try done. by rewrite (Hd eq_refl). }
  destruct p as [us|]; cbn [shown] in *.
  - destruct (Hp us eq_refl) as (Hw & Hfu & Hdu).
    destruct (e_fresh us) eqn:Ef; cbn [andb].
    + destruct (IsPruned (e_coins e)) eqn:Ep; eexists; (split; [done|]).
      * split; [done|]. cbn. unfold coins_entry_abs, coins_abs. by rewrite Ep.
      * split; [|done]. by intros us' [= <-].
    + eexists. split; [done|]. split; [|done]. by intros us' [= <-].
  - destruct (IsPruned (e_coins e)) eqn:Ep; cbn [negb].
    + exists None. split_and!; try done. cbn. unfold coins_entry_abs, coins_abs. rewrite Ep.
      destruct (e_fresh e); [done|]. by destruct Hf.
    + destruct (e_fresh e); [|by destruct Hf]. eexists. split; [done|]. split; [|done].
      by intros us' [= <-].
Qed.

Lemma WriteMutable_coh {A} (check : A -> A -> bool) (ok : A -> Prop) (L F : Prop) (b : option A)
    (p : option (entry A)) (e : entry A) :
  (forall x, check x x = true) -> (F -> L \/ b = None) ->
  (forall us, p = Some us -> mut_coh ok L F b us) ->
  mut_coh ok (is_Some p) (shown entry_abs p b = None /\ F) (shown entry_abs p b) e ->
  exists o, WriteMutableEntry check e p = Ok o /\ (forall us, o = Some us -> mut_coh ok L F b us)
    /\ shown entry_abs o b = entry_abs e.
Proof.
  intros Hck HF Hp He. unfold mut_coh in He. unfold WriteMutableEntry.
  assert (Hpb : forall us, p = Some us -> L \/ b = None).
  { intros us ->. specialize (Hp us eq_refl). unfold mut_coh in Hp. destruct (flag us); naive_solver. }
  assert (Hab : flag e <> ERASED -> entry_abs e = Some (content e)).
  { unfold entry_abs, live. by case_decide. }
  destruct (flag e) eqn:Ef.
  - destruct He as (HL & Hb & Hok). destruct p as [us|]; [|by destruct HL]. cbn [shown] in Hb.
    unfold entry_abs, live in Hb. case_decide; [done|]. injection Hb as Hb. rewrite Hb, Hck. cbn [negb].
    exists (Some us). split_and!; [done|naive_solver|]. cbn [shown]. rewrite (Hab ltac:(done)).
    unfold entry_abs, live. rewrite decide_False by done. by rewrite Hb.
  - destruct He as [HL Hok]. exists (Some e). split_and!; [done| |done].
    intros us [= <-]. unfold mut_coh. rewrite Ef. split; [|done].
    destruct p as [us|]; [by eapply Hpb|]. destruct HL as [[]|]; [done|by right].
  - destruct He as [[Hn HF'] Hok].
    assert (Hres : match p with None => Ok (Some e)
      | Some l => if decide (flag l = ERASED) then Ok (Some e) else Err AssertFailed end = Ok (Some e)).
    { destruct p as [us|]; [|done]. cbn [shown] in Hn. unfold entry_abs, live in Hn. by case_decide. }
    exists (Some e). split; [done|]. split; [|done]. intros us [= <-]. unfold mut_coh. by rewrite Ef.
  - assert (Hen : entry_abs e = None) by (unfold entry_abs, live; by rewrite decide_True).
    rewrite Hen. destruct p as [us|].
    + eexists. split; [done|]. split; [|cbn; unfold entry_abs, live; by rewrite decide_True].
      intros us' [= <-]. unfold mut_coh. cbn. by eapply Hpb.
    + exists None. split_and!; try done. cbn [shown] in *. destruct He as [[]|]; [done|]. done.
Qed.

Lemma WriteImmutable_coh (L F : Prop) (b : option unit) (p : option ImmFlags) (e : ImmFlags) :
  (F -> L \/ b = None) ->
  (forall us, p = Some us -> imm_coh L F b us) ->
  imm_coh (is_Some p) (shown csw_abs p b = None /\ F) (shown csw_abs p b) e ->
  exists o, WriteImmutableEntry e p = Ok o /\ (forall us, o = Some us -> imm_coh L F b us)
    /\ shown csw_abs o b = csw_abs e.
Proof.
  intros HF Hp He. unfold imm_coh in He. unfold WriteImmutableEntry. destruct e.
  - destruct He as [HL Hb]. destruct p as [us|]; [|by destruct HL]. cbn [shown] in Hb.
    unfold csw_abs in Hb. case_decide; [done|]. exists (Some us). split_and!; [done|naive_solver|].
    cbn. unfold csw_abs. by rewrite decide_False by done.
  - destruct He as [Hn HF']. exists (Some IFRESH). split; [|split; [by intros us [= <-]|done]].
    destruct p as [us|]; [|done]. cbn [shown] in Hn. unfold csw_abs in Hn. by case_decide.
  - destruct p as [us|].
    + exists (Some IERASED). split; [done|]. split; [|done]. intros us' [= <-]. cbn.
      specialize (Hp us eq_refl). unfold imm_coh in Hp. destruct us; naive_solver.
    + exists None. split_and!; try done. cbn [shown] in *. destruct He as [[]|]; [done|]. done.
Qed.

Lemma write_nullifier_coh (b : option unit) (p : option CNullifiersCacheEntry) (e : CNullifiersCacheEntry) :
  (forall us, p = Some us -> null_coh b us) -> null_coh (shown null_abs p b) e ->
  exists o, write_nullifier e p = Ok o /\ (forall us, o = Some us -> null_coh b us)
    /\ shown null_abs o b = null_abs e.
Proof.
  intros Hp He. unfold write_nullifier, null_coh in *. destruct (nu_dirty e) eqn:Ed.
  2: { exists p. split_and!; try done. by rewrite (He eq_refl). }
  destruct p as [us|].
  - destruct (Bool.eqb (nu_entered us) (nu_entered e)) eqn:E; cbn [negb]; eexists; (split; [done|]).
    + split; [naive_solver|]. cbn. apply eqb_prop in E. unfold null_abs. by rewrite E.
    + split; [|done]. by intros us' [= <-].
  - eexists. split; [done|]. split; [|done]. by intros us' [= <-].
Qed.

Lemma write_anchor_coh (pinned : Prop) (b : option unit) (p : option CAnchorsCacheEntry) (e : CAnchorsCacheEntry) :
  (forall us, p = Some us -> root_coh pinned b us) -> root_coh pinned (shown root_abs p b) e ->
  exists o, write_anchor e p = Ok o /\ (forall us, o = Some us -> root_coh pinned b us)
    /\ shown root_abs o b = root_abs e.
Proof.
  intros Hp [Hpin He]. unfold write_anchor. destruct (an_dirty e) eqn:Ed.
  2: { exists p. split_and!; try done. by rewrite (He eq_refl). }
  destruct p as [us|].
  - destruct (Bool.eqb (an_entered us) (an_entered e)) eqn:E; cbn [negb]; eexists; (split; [done|]).
    + split; [naive_solver|]. cbn. apply eqb_prop in E. unfold root_abs. by rewrite E.
    + split; [|done]. by intros us' [= <-].
  - eexists. split; [done|]. split; [|done]. by intros us' [= <-].
Qed.

(** Writing a map whose entries are coherent key by key gives a coherent map that
    shows what the child showed. *)
Lemma write_all_coh {K} `{Countable K} {E A} (g : E -> option E -> res (option E)) (f : E -> option A)
    (coh : K -> E -> Prop) (child m : gmap K E) (b : gmap K A) :
  (forall k us, m !! k = Some us -> coh k us) ->
  (forall k e, child !! k = Some e -> exists o, g e (m !! k) = Ok o
     /\ (forall us, o = Some us -> coh k us) /\ shown f o (b !! k) = f e) ->
  exists m', write_all g child m = Ok m' /\ (forall k us, m' !! k = Some us -> coh k us)
    /\ overlay f m' b = overlay f child (overlay f m b).
Proof.
  intros Hm Hc. destruct (write_all_ok g child m) as (m' & Hw & Hpt).
  { intros k e Hk. destruct (Hc k e Hk) as (o & Ho & _). eauto. }
  exists m'. split; [done|]. split.
  - intros k us Hk. specialize (Hpt k). destruct (child !! k) as [e|] eqn:Ek.
    + destruct (Hc k e Ek) as (o & Ho & Hcoh & _). apply Hcoh. rewrite Hpt in Ho. congruence.
    + rewrite Hpt in Hk. by apply Hm.
  - apply map_eq. intros k. rewrite !lookup_overlay. specialize (Hpt k).
    destruct (child !! k) as [e|] eqn:Ek; [|by rewrite Hpt].
    destruct (Hc k e Ek) as (o & Ho & _ & Hs). rewrite Hpt in Ho. injection Ho as ->. exact Hs.
Qed.
End Writes.

Section CacheLaws.
  Context `{NodeConfig} {V : Type} `{CCoinsView V} `{ViewSpec V} `{!ViewLaws V}.
  Implicit Types c : CCoinsViewCache V.

Ltac next_map :=
  cbn [res_bind maps base hashBlock hashAnchor hasModifier set_coins set_anchors set_nullifiers
    set_sidechains set_events set_csw cacheCoins cacheAnchors cacheNullifiers cacheSidechains
    cacheSidechainEvents cacheCswNullifiers].

Lemma cache_batch c hb ha m :
  v_wf c -> coherent c m -> hb <> 0 -> ha <> 0 ->
  wp (BatchWrite hb ha m) (fun r c' => r = true /\ v_wf c'
    /\ denote c' = overlay_all hb ha m (denote c)) c.
Proof.
  intros (Hb & Hm & (P1 & P2 & P3 & P4 & P5 & P6)) (C1 & C2 & C3 & C4 & C5 & C6) Hhb Hha.
  cbn [denote Cache_spec overlay_all a_coins a_sc a_ev a_csw a_null a_roots coins_loaded sc_loaded ev_loaded
    csw_loaded sc_fresh_ok ev_fresh_ok csw_fresh_ok root_pinned] in C1, C2, C3, C4, C5, C6.
  destruct (write_all_coh WriteCoins coins_entry_abs _ (cacheCoins m) (cacheCoins (maps c)) (a_coins (denote (base c))) P1) as (mc & Ec & Qc & Oc).
  { intros k e Hk. apply WriteCoins_coh; [by apply P1|]. specialize (C1 k e Hk). by rewrite lookup_overlay in C1. }
  destruct (write_all_coh (WriteMutableEntry CSidechain_eqb) entry_abs _ (cacheSidechains m)
    (cacheSidechains (maps c)) (a_sc (denote (base c))) P2) as (ms & Es & Qs & Os).
  { intros k e Hk. apply WriteMutable_coh; [intros; by apply bool_decide_eq_true|by apply law_sc_fresh|by apply P2|].
    specialize (C2 k e Hk). by rewrite lookup_overlay in C2. }
  destruct (write_all_coh (WriteMutableEntry Events_eqb) entry_abs _ (cacheSidechainEvents m)
    (cacheSidechainEvents (maps c)) (a_ev (denote (base c))) P3) as (me & Ee & Qe & Oe).
  { intros k e Hk. apply WriteMutable_coh; [intros; by apply bool_decide_eq_true|by apply law_ev_fresh|by apply P3|].
    specialize (C3 k e Hk). by rewrite lookup_overlay in C3. }
  destruct (write_all_coh WriteImmutableEntry csw_abs _ (cacheCswNullifiers m)
    (cacheCswNullifiers (maps c)) (a_csw (denote (base c))) P4) as (mw & Ew & Qw & Ow).
  { intros k e Hk. apply WriteImmutable_coh; [by apply law_csw_fresh|by apply P4|].
    specialize (C4 k e Hk). by rewrite lookup_overlay in C4. }
  destruct (write_all_coh write_nullifier null_abs _ (cacheNullifiers m)
    (cacheNullifiers (maps c)) (a_null (denote (base c))) P5) as (mn & En & Qn & On).
  { intros k e Hk. apply write_nullifier_coh; [by apply P5|].
    specialize (C5 k e Hk). by rewrite lookup_overlay in C5. }
  destruct (write_all_coh write_anchor root_abs _ (cacheAnchors m)
    (cacheAnchors (maps c)) (a_roots (denote (base c))) P6) as (ma & Ea & Qa & Oa).
  { intros k e Hk. apply write_anchor_coh; [by apply P6|].
    specialize (C6 k e Hk). by rewrite lookup_overlay in C6. }
  unfold wp, BatchWrite, bind, get, massert, lift_maps, modify, ret. rewrite Hm. cbn [negb].
  rewrite Ec. next_map. rewrite Ea. next_map. rewrite En. next_map.
  rewrite Es. next_map. rewrite Ee. next_map. rewrite Ew. next_map.
  split; [done|]. split.
  - split; [done|]. split; [done|]. split_and!; done.
  - cbn [denote Cache_spec]. unfold overlay_all.
    cbn [base hashBlock hashAnchor maps set_coins set_anchors set_nullifiers set_sidechains set_events set_csw
      cacheCoins cacheAnchors cacheNullifiers cacheSidechains cacheSidechainEvents cacheCswNullifiers
      a_coins a_sc a_ev a_csw a_null a_roots a_block a_anchor].
    rewrite Oc, Os, Oe, Ow, On, Oa. unfold over.
    by rewrite (proj2 (Z.eqb_neq hb 0) Hhb), (proj2 (Z.eqb_neq ha 0) Hha).
Qed.

#[export] Instance Cache_laws : ViewLaws (CCoinsViewCache V).
Proof.
  split.
  - intros c k Hwf. unfold v_GetCoins. cbn [CCoinsViewCache_view]. unfold GetCoins. apply wp_bind.
    eapply wp_mono; [by apply FetchCoins_law|]. intros r c' (Hr & Hk & Hn). unfold wp, ret.
    split; [done|]. destruct r as [e|]; cbn [fmap option_fmap option_map].
    + assert (Hc' : coins_coh (coins_loaded (base c') k) (a_coins (denote (base c')) !! k) e).
      { destruct Hr as ((_ & _ & (P1 & _)) & _). by apply P1. }
      destruct Hr as (_ & Hd & _). rewrite <- Hd. cbn [denote Cache_spec overlay_all a_coins].
      rewrite lookup_overlay, Hk. split; [done|]. intros co [= <-]. split; [by destruct Hc'|].
      cbn. by rewrite Hk.
    + split; [|done]. by rewrite Hn.
  - intros c k Hwf. unfold v_GetSidechain. cbn [CCoinsViewCache_view]. unfold GetSidechain. apply wp_bind.
    eapply wp_mono; [by apply FetchSidechains_law|]. intros r c' (Hr & Hk & Hn). unfold wp, ret.
    split_and!; [done|done|]. intros s Hs. destruct r as [e|]; [|done]. cbn. rewrite Hk. split; [|done].
    destruct Hr as ((_ & _ & (_ & P2 & _)) & _). specialize (P2 k e Hk). unfold mut_coh in P2.
    unfold live in Hs. case_decide; [done|]. injection Hs as <-. destruct (flag e); naive_solver.
  - intros c k Hwf. unfold v_GetSidechainEvents. cbn [CCoinsViewCache_view]. unfold GetSidechainEvents.
    apply wp_bind. eapply wp_mono; [by apply FetchSidechainEvents_law|]. intros r c' (Hr & Hk & Hn).
    unfold wp, ret. split_and!; [done|done|]. intros Hs. cbn. rewrite Hk. destruct r; [done|by destruct Hs].
  - intros c i n Hwf. eapply wp_mono; [by apply HaveCsw_law|]. naive_solver.
  - intros c k Hwf. by apply GetNullifier_law.
  - intros c Hwf. by apply GetBestBlock_law.
  - intros c Hwf. by apply GetBestAnchor_law.
  - intros c k Hwf. by apply GetAnchorAt_law.
  - intros c Hwf. by apply GetScIds_law.
  - intros c k _ [Hn _]. right. exact Hn.
  - intros c k _ [Hn _]. right. exact Hn.
  - intros c k _ [Hn _]. right. exact Hn.
  - intros c hb ha m. apply cache_batch.
Qed.
End CacheLaws.

(** A cache on the database accepts as new whatever it does not hold. *)
#[export] Instance CacheDB_fresh `{NodeConfig} `{MerkleHash Z} : FreshOk (CCoinsViewCache CCoinsViewDB).
Proof. by split. Qed.

(** ** Flushing *)
Section FlushLaws.
  Context `{NodeConfig} {V : Type} `{CCoinsView V} `{ViewSpec V} `{!ViewLaws V}.
  Implicit Types c : CCoinsViewCache V.

Lemma coherent_empty (v : V) : coherent v Maps_empty.
Proof.
  split_and!; intros k e Hk;
    cbn [Maps_empty cacheCoins cacheSidechains cacheSidechainEvents cacheCswNullifiers cacheNullifiers cacheAnchors] in Hk;
    by rewrite lookup_empty in Hk.
Qed.

Lemma overlay_all_id a : overlay_all (a_block a) (a_anchor a) Maps_empty a = a.
Proof.
  unfold overlay_all, over. cbn [Maps_empty cacheCoins cacheSidechains cacheSidechainEvents cacheCswNullifiers
    cacheNullifiers cacheAnchors]. rewrite !overlay_empty. destruct a; cbn. by repeat case_match.
Qed.

Lemma Flush_law c :
  v_wf c -> hashBlock c <> 0 -> hashAnchor c <> 0 ->
  wp Flush (fun r c' => r = true /\ v_wf c' /\ denote c' = denote c /\ denote (base c') = denote c
    /\ maps c' = Maps_empty) c.
Proof.
  intros Hwf Hb Ha. pose proof Hwf as (Hwb & Hm & Hcoh). unfold Flush. apply wp_bind. unfold wp at 1, get at 1.
  apply wp_bind. eapply wp_mono; [apply wp_on_base, law_BatchWrite; done|].
  intros r c' [(-> & Hwb' & Hd) ->]. unfold wp; cbn -[denote v_wf]. cbn [base] in *.
  assert (Hd' : denote (base c') = denote c) by done.
  split; [done|]. split; [split; [done|split; [done|apply coherent_empty]]|].
  split; [|done].
  pose proof (overlay_all_id (denote c)) as Hid.
  assert (a_block (denote c) = hashBlock c) as Eb.
  { cbn. unfold over. by rewrite (proj2 (Z.eqb_neq _ _) Hb). }
  assert (a_anchor (denote c) = hashAnchor c) as Ea.
  { cbn. unfold over. by rewrite (proj2 (Z.eqb_neq _ _) Ha). }
  rewrite Eb, Ea in Hid. etransitivity; [|exact Hid].
  cbn [denote Cache_spec base hashBlock hashAnchor maps] in Hd' |- *. by rewrite Hd'.
Qed.
End FlushLaws.

Lemma BatchWrite_hashes {V} `{CCoinsView V} hb ha m (c c' : CCoinsViewCache V) r :
  BatchWrite hb ha m c = Ok (r, c') -> hashBlock c' = hb /\ hashAnchor c' = ha.
Proof.
  unfold BatchWrite, bind, get, massert, lift_maps, modify, ret. intros E. repeat (case_match; simplify_eq/=). done.
Qed.

(** C3: what is in memory reaches the disk: when the modifications of a block were
    made in a cache over the node's tip cache over the database, and both are
    coherent (as reading and the modifying operations keep them), the two flushes
    succeed, in particular no assertion of the write-back fails, and the database
    then stands for exactly the unspent outputs, sidechains, events and nullifiers
    the upper cache stood for. *)
Theorem flush_to_disk `{NodeConfig} `{MerkleHash Z} (top : CCoinsViewCache (CCoinsViewCache CCoinsViewDB)) :
  v_wf top -> hashBlock top <> 0 -> hashAnchor top <> 0 ->
  exists top' tip', Flush top = Ok (true, top') /\ Flush (base top') = Ok (true, tip')
    /\ v_wf tip' /\ denote (base tip') = denote top.
Proof.
  intros Hwf Hb Ha. pose proof (Flush_law top Hwf Hb Ha) as Hf. unfold wp in Hf.
  destruct (Flush top) as [[r top']|] eqn:E; [|done]. destruct Hf as (-> & Hwf' & _ & Hd & _).
  assert (Hh : hashBlock (base top') = hashBlock top /\ hashAnchor (base top') = hashAnchor top).
  { unfold Flush, bind, get, on_base, set_maps, modify, ret in E. cbn [v_BatchWrite CCoinsViewCache_view] in E.
    destruct (BatchWrite _ _ _ (base top)) as [[b c1]|] eqn:E1; [|done]. simplify_eq/=.
    by eapply BatchWrite_hashes. }
  destruct Hh as [Hh1 Hh2]. destruct Hwf' as (Hwt & _ & _).
  pose proof (Flush_law (base top') Hwt ltac:(by rewrite Hh1) ltac:(by rewrite Hh2)) as Hf2. unfold wp in Hf2.
  destruct (Flush (base top')) as [[r2 tip']|] eqn:E2; [|done]. destruct Hf2 as (-> & Hwf2 & _ & Hd2 & _).
  exists top', tip'. split_and!; try done. by rewrite Hd2.
Qed.

(** An instance: a sidechain modified and a transaction's outputs added above a tip
    that has read the sidechain from the database. *)
Module Sample.
Definition config : NodeConfig := {|
    Params := CRegTestParams; arg_blocksforscfeecheck := None; arg_sccoinsmaturity := None |}.

Definition hash : MerkleHash Z := {| combine a b d := a + b; uncommitted := 1 |}.

Definition db : CCoinsViewDB :=
    mkDB ∅ {[ 7 := set_balance 5 CSidechain_null ]} ∅ ∅ ∅ ∅ (Some 1) None.

Definition tip : CCoinsViewCache CCoinsViewDB :=
    mkCache db false 1 1
      (set_sidechains {[ 7 := mkEntry (set_balance 5 CSidechain_null) DEFAULT ]} Maps_empty).

Definition view : CCoinsViewCache (CCoinsViewCache CCoinsViewDB) :=
    mkCache tip false 2 1
      (set_coins {[ 9 := mkCoinsEntry sample_coins true true ]}
        (set_sidechains {[ 7 := mkEntry (set_balance 3 CSidechain_null) DIRTY ]}
          (set_csw {[ (7, [1]) := IFRESH ]} Maps_empty))).
End Sample.

#[local] Existing Instance Sample.config.
#[local] Existing Instance Sample.hash.

Lemma sample_db_wf : v_wf Sample.db.
Proof.
  split.
  - intros k c Hk. cbn [db_coins Sample.db] in Hk. by rewrite lookup_empty in Hk.
  - intros k s Hk. cbn [db_sidechains Sample.db] in Hk. by apply lookup_singleton_Some in Hk as [<- <-].
Qed.

Lemma sample_tip_wf : v_wf Sample.tip.
Proof.
  split; [apply sample_db_wf|]. split; [done|].
  split_and!; intros k e Hk;
    cbn [Sample.tip maps set_sidechains Maps_empty cacheCoins cacheSidechains cacheSidechainEvents
      cacheCswNullifiers cacheNullifiers cacheAnchors] in Hk; try by rewrite lookup_empty in Hk.
  apply lookup_singleton_Some in Hk as [<- <-]. done.
Qed.

Lemma sample_view_wf : v_wf Sample.view.
Proof.
  split; [apply sample_tip_wf|]. split; [done|].
  split_and!; intros k e Hk;
    cbn [Sample.view maps set_coins set_sidechains set_csw Maps_empty cacheCoins cacheSidechains
      cacheSidechainEvents cacheCswNullifiers cacheNullifiers cacheAnchors] in Hk; try by rewrite lookup_empty in Hk.
  - apply lookup_singleton_Some in Hk as [<- <-]. split; [|done].
    split; [|done]. split; [reflexivity|]. intros [|[|[]]] o Ho; simpl in Ho; simplify_eq; done.
  - apply lookup_singleton_Some in Hk as [<- <-]. split; [|done]. left. by eexists.
  - by apply lookup_singleton_Some in Hk as [<- <-].
Qed.

Lemma flush_to_disk_witness :
  exists top' tip', Flush Sample.view = Ok (true, top') /\ Flush (base top') = Ok (true, tip')
    /\ v_wf tip' /\ denote (base tip') = denote Sample.view.
Proof. exact (flush_to_disk Sample.view sample_view_wf ltac:(done) ltac:(done)). Defined.
