(* ===== verification/SampleLedger.v ===== *)
(** * A small regtest ledger

    A database with two sidechains, one alive and one ceased, an unspent
    transaction and a scheduled event; the block that is connected to it in the
    examples; and checks that decide the well-formedness of such databases by
    computation. *)

From stdpp Require Import base numbers list strings gmap fin_maps sets option.
From Stdlib Require Import ZArith Lia.
From S2P Require Import Prelude.
From S2P Require Import Amount.
From S2P Require Import Serialize.
From S2P Require Import ScTypes.
From S2P Require Import Primitives.
From S2P Require Import Sidechain.
From S2P Require Import Coins.
From S2P Require Import CoinsSer.
From S2P Require Import Merkle.
From S2P Require Import View.
From S2P Require Import ViewLaws.
Open Scope Z_scope.
Open Scope zen_scope.

Definition regtest : NodeConfig := {|
  Params := CRegTestParams; arg_blocksforscfeecheck := None; arg_sccoinsmaturity := None |}.

(** a toy hash for the tree of note commitments *)
Definition toy_hash : MerkleHash Z := {| combine a b d := a + 3 * b + Z.of_nat d; uncommitted := 1 |}.

(** ** Deciding well-formedness *)
Definition coins_check (c : CCoins) : bool :=
  bool_decide (pop_null_back (vout c) = vout c)
  && forallb (fun o => negb (TxOut_IsNull o) || bool_decide (o = TxOut_SetNull)) (vout c)
  && negb (IsPruned c).

Definition sidechain_check `{NodeConfig} (s : CSidechain) : bool :=
  match sidechain_read s with Ok s' => bool_decide (s' = s) | Err _ => false end.

Definition db_check `{NodeConfig} (db : CCoinsViewDB) : bool :=
  bool_decide (map_Forall (fun _ c => coins_check c = true) (db_coins db))
  && bool_decide (map_Forall (fun _ s => sidechain_check s = true) (db_sidechains db)).

Lemma coins_check_sound c : coins_check c = true -> coins_wf c /\ IsPruned c = false.
Proof.
  unfold coins_check. rewrite !andb_true_iff, bool_decide_eq_true, negb_true_iff. intros [[Hc Hn] Hp].
  split; [split; [done|]|done]. intros i o Hi Ho. rewrite forallb_forall in Hn.
  specialize (Hn o ltac:(apply list_elem_of_In; by eapply list_elem_of_lookup_2)). rewrite Ho in Hn. cbn in Hn.
  by apply bool_decide_eq_true in Hn.
Qed.

Lemma db_check_sound `{NodeConfig} `{MerkleHash Z} (db : CCoinsViewDB) : db_check db = true -> v_wf db.
Proof.
  unfold db_check. rewrite andb_true_iff, !bool_decide_eq_true. intros [Hc Hs]. split.
  - intros k c Hk. by apply coins_check_sound, (Hc k c).
  - intros k s Hk. specialize (Hs k s Hk). unfold sidechain_check in Hs. unfold sc_mem_ok.
    destruct (sidechain_read s); [|done]. by apply bool_decide_eq_true in Hs as ->.
Qed.

(** ** The ledger *)
Definition sc_alive : CSidechain :=
  mkSidechain 100 71 CertView_null (mkCertView [] 10 2) 0 EPOCH_NULL QUALITY_NULL 0 50
    (mkScFixedParameters 0 100 [] None (repeat 1 40) None [] [] 1) ∅ 1 [mkScFeeData 10 2].

Definition sc_ceased : CSidechain :=
  mkSidechain 10 81 CertView_null (mkCertView [] 0 0) 0 EPOCH_NULL QUALITY_NULL 0 40
    (mkScFixedParameters 0 10 [] None (repeat 1 40) (Some (repeat 2 40)) [] [] 0) ∅ 1 [mkScFeeData 0 0].

Definition ledger : CCoinsViewDB :=
  mkDB {[ 500 := sample_coins ]} {[ 7 := sc_alive; 8 := sc_ceased ]}
    {[ 220 := mkEvents 0 {[7]} ∅ ]} ∅ ∅ ∅ (Some 1) None.

(** the block at height 200 *)
Definition height : Z := 200.

Definition tx_create : CTransaction :=
  mkTx SC_TX_VERSION [] [] 601 [] 0 []
    [mkScCreation 9 1000 5 0 20 [] None (repeat 1 40) None [] [] 0 0 0] [mkFt 30 3 7 (repeat 1 20)] [] 0 null_sig.

Definition tx_transfers : CTransaction :=
  mkTx SC_TX_VERSION [mkTxIn (mkOutPoint 500 1) [] 0] [mkTxOut 6 [0x51]] 602 [] 0
    [mkCsw 15 8 [1; 2] (repeat 3 20) [] [] [] []] []
    [mkFt 20 3 7 (repeat 1 20); mkFt 5 3 9 (repeat 1 20)] [mkMbtr 7 [[1]] (repeat 1 20) 2] 0 null_sig.

Lemma ledger_wf : @v_wf _ (@DB_spec regtest toy_hash) ledger.
Proof. apply (@db_check_sound regtest toy_hash). vm_compute. reflexivity. Qed.
