(* ===== verification/TopLaws.v ===== *)
(** * Reasoning about the operations of a cache

    The operations of [CCoinsViewCache] on sidechains, events and coins are
    verified against the state the cache stands for, extended with the contents of
    the entries it has marked erased (which [ModifySidechain] and
    [ModifySidechainEvents] hand out again). *)

From stdpp Require Import base numbers list strings gmap fin_maps sets option.
From Stdlib Require Import ZArith Lia.
From S2P Require Import Prelude.
From S2P Require Import Amount.
From S2P Require Import Serialize.
From S2P Require Import ScTypes.
From S2P Require Import Primitives.
From S2P Require Import Sidechain.
From S2P Require Import Coins.
From S2P Require Import CoinsSer.
From S2P Require Import Merkle.
From S2P Require Import View.
From S2P Require Import ViewLaws.
Open Scope Z_scope.
Open Scope zen_scope.

(** ** Modifying an entry through the iterator [ModifySidechain] returns *)
Section Ops.
  Context {V : Type} `{CCoinsView V}.
Local Notation C := (CCoinsViewCache V).

Definition modify_sc {A} (scId : uint256) (g : entry CSidechain -> res (A * entry CSidechain)) : M C A :=
  let* e := ModifySidechain scId in
  let* '(a, e') := lift (g e) in
  put_sidechain scId e' ;;; ret a.

Definition modify_ev {A} (height : Z) (g : entry CSidechainEvents -> res (A * entry CSidechainEvents)) : M C A :=
  let* e := ModifySidechainEvents height in
  let* '(a, e') := lift (g e) in
  put_events height e' ;;; ret a.
End Ops.

(** ** The state the operations act on *)
Definition stale_of {K} `{Countable K} {A} (m : gmap K (entry A)) : gmap K A :=
  omap (fun e => if decide (flag e = ERASED) then Some (content e) else None) m.

Definition csw_stale_of (m : gmap (Z * bytes) ImmFlags) : gmap (Z * bytes) unit :=
  omap (fun f => if decide (f = IERASED) then Some tt else None) m.

Record Top := mkTop {
  t_view : AbsView;
  t_sc_stale : gmap Z CSidechain;
  t_ev_stale : gmap Z CSidechainEvents;
  t_csw_stale : gmap (Z * bytes) unit }.

Definition top `{NodeConfig} {V} `{ViewSpec V} (c : CCoinsViewCache V) : Top :=
  mkTop (denote c) (stale_of (cacheSidechains (maps c))) (stale_of (cacheSidechainEvents (maps c)))
    (csw_stale_of (cacheCswNullifiers (maps c))).

Definition t_sc (t : Top) : gmap Z CSidechain := a_sc (t_view t).
Definition t_ev (t : Top) : gmap Z CSidechainEvents := a_ev (t_view t).
Definition t_csw (t : Top) : gmap (Z * bytes) unit := a_csw (t_view t).
Definition t_coins (t : Top) : gmap Z CCoins := a_coins (t_view t).

(** The contents an iterator shows. *)
Definition sc_content (t : Top) (k : Z) : CSidechain :=
  match t_sc t !! k with Some s => s | None => default CSidechain_null (t_sc_stale t !! k) end.

Definition ev_content (t : Top) (k : Z) : CSidechainEvents :=
  match t_ev t !! k with Some s => s | None => default Events_empty (t_ev_stale t !! k) end.

Definition with_sc (f : gmap Z CSidechain -> gmap Z CSidechain) (a : AbsView) : AbsView :=
  mkAbs (a_coins a) (f (a_sc a)) (a_ev a) (a_csw a) (a_null a) (a_roots a) (a_block a) (a_anchor a).

Definition with_ev (f : gmap Z CSidechainEvents -> gmap Z CSidechainEvents) (a : AbsView) : AbsView :=
  mkAbs (a_coins a) (a_sc a) (f (a_ev a)) (a_csw a) (a_null a) (a_roots a) (a_block a) (a_anchor a).

Definition with_acoins (f : gmap Z CCoins -> gmap Z CCoins) (a : AbsView) : AbsView :=
  mkAbs (f (a_coins a)) (a_sc a) (a_ev a) (a_csw a) (a_null a) (a_roots a) (a_block a) (a_anchor a).

(** Storing an entry. *)
Definition upd_sc (k : Z) (e : entry CSidechain) (t : Top) : Top :=
  mkTop (with_sc (partial_alter (fun _ => entry_abs e) k) (t_view t))
    (if decide (flag e = ERASED) then <[k := content e]> (t_sc_stale t) else delete k (t_sc_stale t))
    (t_ev_stale t) (t_csw_stale t).

Definition upd_ev (k : Z) (e : entry CSidechainEvents) (t : Top) : Top :=
  mkTop (with_ev (partial_alter (fun _ => entry_abs e) k) (t_view t))
    (t_sc_stale t)
    (if decide (flag e = ERASED) then <[k := content e]> (t_ev_stale t) else delete k (t_ev_stale t))
    (t_csw_stale t).

Definition upd_coins (k : Z) (o : option CCoins) (t : Top) : Top :=
  mkTop (with_acoins (partial_alter (fun _ => o) k) (t_view t)) (t_sc_stale t) (t_ev_stale t)
    (t_csw_stale t).

(** The flags an iterator may carry, and those the code may store over them. *)
Definition may_carry (present : Prop) (fl : Flags) : Prop :=
  (present -> fl <> ERASED) /\ (~ present -> fl = FRESH \/ fl = ERASED).

Definition may_store {A} (e e' : entry A) : Prop :=
  e' = e \/ flag e' = DIRTY \/ flag e' = ERASED \/ (flag e' = FRESH /\ flag e = FRESH).

Section Rules.
  Context `{NodeConfig} {V : Type} `{CCoinsView V} `{ViewSpec V} `{!ViewLaws V} `{!FreshOk V}.
Local Notation C := (CCoinsViewCache V).
  Implicit Types c : C.

Definition awp {A} (m : M C A) (P : A -> Top -> Prop) (t : Top) : Prop :=
  forall c, v_wf c -> top c = t -> wp m (fun r c' => v_wf c' /\ P r (top c')) c.

Lemma awp_ret {A} (a : A) P t : P a t -> awp (ret a) P t.
Proof. by intros HP c Hwf <-. Qed.

Lemma awp_bind {A B} (m : M C A) (k : A -> M C B) P t :
  awp m (fun a t' => awp (k a) P t') t -> awp (bind m k) P t.
Proof.
  intros Hm c Hwf Ht. apply wp_bind. eapply wp_mono; [by apply Hm|].
  intros a c' [Hwf' Hk]. by apply Hk.
Qed.

Lemma awp_mono {A} (m : M C A) (P Q : A -> Top -> Prop) t :
  awp m P t -> (forall a t', P a t' -> Q a t') -> awp m Q t.
Proof. intros Hm HPQ c Hwf Ht. eapply wp_mono; [by apply Hm|]. naive_solver. Qed.

Lemma awp_ext {A} (m m' : M C A) P t : (forall c, m c = m' c) -> awp m' P t -> awp m P t.
Proof. intros He Hm c Hwf Ht. unfold wp. rewrite He. by apply Hm. Qed.

Lemma awp_massert b P t : b = true -> P tt t -> awp (massert b) P t.
Proof. by intros -> HP c Hwf <-. Qed.

Lemma awp_lift {A} (r : res A) (a : A) P t : r = Ok a -> P a t -> awp (lift r) P t.
Proof. by intros -> HP c Hwf <-. Qed.

(** Fetching only adds unmodified entries, and so leaves the extended state alone. *)
Definition fills_map {A} (m m' : gmap Z (entry A)) : Prop :=
  forall k, m' !! k = m !! k \/ exists s, m' !! k = Some (mkEntry s DEFAULT) /\ m !! k = None.

Definition keeps {A} (m : M C A) : Prop :=
  forall c r c', m c = Ok (r, c') ->
    fills_map (cacheSidechains (maps c)) (cacheSidechains (maps c'))
    /\ fills_map (cacheSidechainEvents (maps c)) (cacheSidechainEvents (maps c'))
    /\ csw_stale_of (cacheCswNullifiers (maps c')) = csw_stale_of (cacheCswNullifiers (maps c)).

Lemma fills_map_refl {A} (m : gmap Z (entry A)) : fills_map m m.
Proof. intros k. by left. Qed.

Lemma fills_map_insert {A} (m : gmap Z (entry A)) k s :
  m !! k = None -> fills_map m (<[k := mkEntry s DEFAULT]> m).
Proof.
  intros Hk k'. destruct (decide (k' = k)) as [->|]; simplify_map_eq; [right; eauto|by left].
Qed.

Lemma stale_fills {A} (m m' : gmap Z (entry A)) : fills_map m m' -> stale_of m' = stale_of m.
Proof.
  intros Hf. apply map_eq. intros k. unfold stale_of. rewrite !lookup_omap.
  by destruct (Hf k) as [->|(s & -> & ->)].
Qed.

Lemma csw_stale_insert (m : gmap (Z * bytes) ImmFlags) k :
  m !! k = None -> csw_stale_of (<[k := IDEFAULT]> m) = csw_stale_of m.
Proof.
  intros Hk. apply map_eq. intros k'. unfold csw_stale_of. rewrite !lookup_omap.
  destruct (decide (k' = k)) as [->|]; simplify_map_eq; done.
Qed.

Lemma awp_reads {A} (m : M C A) (Q : A -> Prop) P t :
  keeps m -> (forall c, v_wf c -> top c = t -> wp m (fun r c' => reads c c' /\ Q r) c) ->
  (forall r, Q r -> P r t) -> awp m P t.
Proof.
  intros Hk Hm HP c Hwf Ht. specialize (Hm c Hwf Ht). unfold wp in *.
  destruct (m c) as [[r c']|] eqn:E; [|done]. destruct Hm as [Hr HQ].
  destruct (Hk _ _ _ E) as (K1 & K2 & K3). split; [by destruct Hr|].
  assert (top c' = t) as ->; [|by apply HP].
  rewrite <- Ht. unfold top. destruct Hr as (_ & -> & _).
  by rewrite (stale_fills _ _ K1), (stale_fills _ _ K2), K3.
Qed.

Ltac keeps_tac :=
  intros c r c' E; unfold bind, get_maps, get, on_base, set_maps, modify, ret,
    put_coins, put_sidechain, put_events, put_csw, put_nullifier, set_hashAnchor in E;
  repeat (case_match; simplify_eq/=); split_and!;
  first [by apply fills_map_refl | by apply fills_map_insert | done | by apply csw_stale_insert].

Lemma keeps_FetchCoins k : keeps (FetchCoins k).
Proof. unfold FetchCoins. keeps_tac. Qed.

Lemma keeps_FetchSidechains k : keeps (FetchSidechains k).
Proof. unfold FetchSidechains. keeps_tac. Qed.

Lemma keeps_FetchSidechainEvents k : keeps (FetchSidechainEvents k).
Proof. unfold FetchSidechainEvents. keeps_tac. Qed.

Lemma keeps_HaveCsw i n : keeps (HaveCswNullifier i n).
Proof. unfold HaveCswNullifier. keeps_tac. Qed.

Lemma keeps_GetBestBlock : keeps GetBestBlock.
Proof. unfold GetBestBlock. keeps_tac. Qed.

Lemma keeps_ret {A B} (m : M C A) (f : A -> B) : keeps m -> keeps (let* x := m in ret (f x)).
Proof.
  intros Hm c r c' E. unfold bind, ret in E. destruct (m c) as [[a c1]|] eqn:E1; [|done].
  simplify_eq. by eapply Hm.
Qed.

(** ** Rules: reading *)
Lemma awp_GetSidechain k P t : P (t_sc t !! k) t -> awp (GetSidechain k) P t.
Proof.
  intros HP. apply awp_reads with (Q := fun r => r = t_sc t !! k); [apply keeps_ret, keeps_FetchSidechains| |by intros r ->].
  intros c Hwf Ht. unfold GetSidechain. apply wp_bind. eapply wp_mono; [by apply FetchSidechains_law|].
  intros r c' (Hr & _ & Hl). unfold wp, ret. split; [done|]. rewrite Hl, <- Ht. done.
Qed.

Lemma awp_HaveSidechain k P t :
  P (bool_decide (is_Some (t_sc t !! k))) t -> awp (HaveSidechain k) P t.
Proof.
  intros HP. apply awp_reads with (Q := fun r => r = bool_decide (is_Some (t_sc t !! k)));
    [apply keeps_ret, keeps_FetchSidechains| |by intros r ->].
  intros c Hwf Ht. unfold HaveSidechain. apply wp_bind. eapply wp_mono; [by apply FetchSidechains_law|].
  intros r c' (Hr & _ & Hl). unfold wp, ret. split; [done|]. rewrite Hl, <- Ht. done.
Qed.

Lemma awp_GetSidechainEvents k P t : P (t_ev t !! k) t -> awp (GetSidechainEvents k) P t.
Proof.
  intros HP. apply awp_reads with (Q := fun r => r = t_ev t !! k); [apply keeps_ret, keeps_FetchSidechainEvents| |by intros r ->].
  intros c Hwf Ht. unfold GetSidechainEvents. apply wp_bind. eapply wp_mono; [by apply FetchSidechainEvents_law|].
  intros r c' (Hr & _ & Hl). unfold wp, ret. split; [done|]. rewrite Hl, <- Ht. done.
Qed.

Lemma awp_HaveSidechainEvents k P t :
  P (bool_decide (is_Some (t_ev t !! k))) t -> awp (HaveSidechainEvents k) P t.
Proof.
  intros HP. apply awp_reads with (Q := fun r => r = bool_decide (is_Some (t_ev t !! k)));
    [apply keeps_ret, keeps_FetchSidechainEvents| |by intros r ->].
  intros c Hwf Ht. unfold HaveSidechainEvents. apply wp_bind. eapply wp_mono; [by apply FetchSidechainEvents_law|].
  intros r c' (Hr & _ & Hl). unfold wp, ret. split; [done|]. rewrite Hl, <- Ht. done.
Qed.

Lemma awp_GetBestBlock P t : P (a_block (t_view t)) t -> awp GetBestBlock P t.
Proof.
  intros HP. apply awp_reads with (Q := fun r => r = a_block (t_view t)); [apply keeps_GetBestBlock| |by intros r ->].
  intros c Hwf Ht. eapply wp_mono; [by apply GetBestBlock_law|].
  intros r c' [Hr ->]. split; [done|]. by rewrite <- Ht.
Qed.

Lemma awp_HaveCsw i n P t :
  P (bool_decide (is_Some (t_csw t !! (i, n)))) t -> awp (HaveCswNullifier i n) P t.
Proof.
  intros HP. apply awp_reads with (Q := fun r => r = bool_decide (is_Some (t_csw t !! (i, n))));
    [apply keeps_HaveCsw| |by intros r ->].
  intros c Hwf Ht. eapply wp_mono; [by apply HaveCsw_law|].
  intros r c' (Hr & -> & _). split; [done|]. by rewrite <- Ht.
Qed.

(** [AccessSidechain] sees erased entries too. *)
Lemma awp_AccessSidechain k P t :
  P (match t_sc t !! k with Some s => Some s | None => t_sc_stale t !! k end) t ->
  awp (AccessSidechain k) P t.
Proof.
  intros HP. set (r0 := match t_sc t !! k with Some s => Some s | None => t_sc_stale t !! k end) in *.
  apply awp_reads with (Q := fun r => r = r0); [apply keeps_ret, keeps_FetchSidechains| |by intros r ->].
  intros c Hwf Ht. unfold AccessSidechain. apply wp_bind.
  assert (Hk : keeps (FetchSidechains k)) by apply keeps_FetchSidechains.
  pose proof (FetchSidechains_law c k Hwf) as Hl. unfold wp in Hl |- *.
  destruct (FetchSidechains k c) as [[r c']|] eqn:E; [|done]. destruct Hl as (Hr & Hm & Hl). split; [done|].
  destruct (Hk _ _ _ E) as (Hf & _). apply stale_fills in Hf.
  subst r0. rewrite <- Ht. unfold t_sc, top. cbn [t_view t_sc_stale]. rewrite <- Hl, <- Hf.
  unfold stale_of. rewrite lookup_omap, Hm. destruct r as [e|]; [|done]. cbn. by case_decide.
Qed.

(** ** Rules: modifying *)
Lemma overlay_store {K} `{Countable K} {E A} (f : E -> option A) (m : gmap K E) (b : gmap K A) k e :
  overlay f (<[k := e]> m) b = partial_alter (fun _ => f e) k (overlay f m b).
Proof.
  apply map_eq. intros k'. rewrite lookup_overlay. destruct (decide (k' = k)) as [->|].
  - by rewrite lookup_insert_eq, lookup_partial_alter_eq.
  - by rewrite lookup_insert_ne, lookup_partial_alter_ne, lookup_overlay.
Qed.

Lemma stale_store {A} (m : gmap Z (entry A)) k e :
  stale_of (<[k := e]> m)
  = (if decide (flag e = ERASED) then <[k := content e]> (stale_of m) else delete k (stale_of m)).
Proof.
  apply map_eq. intros k'. unfold stale_of. rewrite lookup_omap.
  destruct (decide (k' = k)) as [->|]; case_decide as He; simplify_map_eq; by rewrite ?lookup_omap.
Qed.

Lemma store_sc c k e :
  v_wf c -> mut_coh sc_mem_ok (sc_loaded (base c) k) (sc_fresh_ok (base c) k) (a_sc (denote (base c)) !! k) e ->
  wp (put_sidechain k e) (fun _ c' => (v_wf c' /\ top c' = upd_sc k e (top c)) /\ base c' = base c) c.
Proof.
  intros (Hb & Hm & (P1 & P2 & P3 & P4 & P5 & P6)) He. unfold wp, put_sidechain, set_maps, modify. split; [|done]. split.
  - split; [done|]. split; [done|]. split_and!; try done. cbn [maps base set_sidechains cacheSidechains].
    intros k' e' Hk'. destruct (decide (k' = k)) as [->|]; simplify_map_eq; [done|by apply P2].
  - unfold top, upd_sc, with_sc. cbn [t_view t_sc_stale t_ev_stale maps set_sidechains cacheSidechains cacheSidechainEvents].
    f_equal; [|apply stale_store]. cbn [denote Cache_spec]. unfold overlay_all.
    cbn [base hashBlock hashAnchor maps set_sidechains cacheCoins cacheSidechains cacheSidechainEvents
      cacheCswNullifiers cacheNullifiers cacheAnchors a_coins a_sc a_ev a_csw a_null a_roots a_block a_anchor].
    by rewrite overlay_store.
Qed.

Lemma store_ev c k e :
  v_wf c -> mut_coh (fun _ => True) (ev_loaded (base c) k) (ev_fresh_ok (base c) k) (a_ev (denote (base c)) !! k) e ->
  wp (put_events k e) (fun _ c' => (v_wf c' /\ top c' = upd_ev k e (top c)) /\ base c' = base c) c.
Proof.
  intros (Hb & Hm & (P1 & P2 & P3 & P4 & P5 & P6)) He. unfold wp, put_events, set_maps, modify. split; [|done]. split.
  - split; [done|]. split; [done|]. split_and!; try done. cbn [maps base set_events cacheSidechainEvents].
    intros k' e' Hk'. destruct (decide (k' = k)) as [->|]; simplify_map_eq; [done|by apply P3].
  - unfold top, upd_ev, with_ev. cbn [t_view t_sc_stale t_ev_stale maps set_events cacheSidechains cacheSidechainEvents].
    f_equal; [|apply stale_store]. cbn [denote Cache_spec]. unfold overlay_all.
    cbn [base hashBlock hashAnchor maps set_events cacheCoins cacheSidechains cacheSidechainEvents
      cacheCswNullifiers cacheNullifiers cacheAnchors a_coins a_sc a_ev a_csw a_null a_roots a_block a_anchor].
    by rewrite overlay_store.
Qed.

(** What the code stores over a coherent entry is coherent. *)
Lemma may_store_coh {A} (ok : A -> Prop) (L F : Prop) b (e e' : entry A) :
  (F -> L \/ b = None) -> mut_coh ok L F b e -> may_store e e' ->
  (flag e' <> ERASED -> ok (content e')) -> mut_coh ok L F b e'.
Proof.
  intros HF He [->|Hs] Hok; [done|]. assert (Hlb : L \/ b = None).
  { unfold mut_coh in He. destruct (flag e); naive_solver. }
  unfold mut_coh. destruct Hs as [Hs|[Hs|[Hs Hf]]]; rewrite Hs; [|done|].
  - split; [done|]. apply Hok. by rewrite Hs.
  - unfold mut_coh in He. rewrite Hf in He. split; [by destruct He|]. apply Hok. by rewrite Hs.
Qed.

Lemma upd_sc_twice k e e' t : upd_sc k e' (upd_sc k e t) = upd_sc k e' t.
Proof.
  unfold upd_sc, with_sc. cbn. f_equal.
  - f_equal. apply partial_alter_partial_alter_eq.
  - repeat case_decide; by rewrite ?insert_insert_eq, ?insert_delete_eq, ?delete_insert_eq, ?delete_delete_eq.
Qed.

Lemma upd_ev_twice k e e' t : upd_ev k e' (upd_ev k e t) = upd_ev k e' t.
Proof.
  unfold upd_ev, with_ev. cbn. f_equal.
  - f_equal. apply partial_alter_partial_alter_eq.
  - repeat case_decide; by rewrite ?insert_insert_eq, ?insert_delete_eq, ?delete_insert_eq, ?delete_delete_eq.
Qed.

Lemma ModifySidechain_law c k : v_wf c ->
  wp (ModifySidechain k) (fun e c' => v_wf c'
    /\ mut_coh sc_mem_ok (sc_loaded (base c') k) (sc_fresh_ok (base c') k) (a_sc (denote (base c')) !! k) e
    /\ content e = sc_content (top c) k /\ may_carry (is_Some (t_sc (top c) !! k)) (flag e)
    /\ (t_sc (top c) !! k = None -> t_sc_stale (top c) !! k = None -> flag e = FRESH)
    /\ forall e', upd_sc k e' (top c') = upd_sc k e' (top c)) c.
Proof.
  intros Hwf. unfold ModifySidechain. apply wp_bind. unfold wp at 1, get_maps at 1.
  assert (Hden : t_sc (top c) !! k = match cacheSidechains (maps c) !! k with
    | Some e => entry_abs e | None => a_sc (denote (base c)) !! k end)
    by (unfold t_sc, top; cbn [t_view denote Cache_spec overlay_all a_sc]; by rewrite lookup_overlay).
  assert (Hst : t_sc_stale (top c) !! k = match cacheSidechains (maps c) !! k with
    | Some e => if decide (flag e = ERASED) then Some (content e) else None | None => None end)
    by (unfold top, stale_of; cbn [t_sc_stale]; rewrite lookup_omap; by destruct (cacheSidechains (maps c) !! k)).
  unfold sc_content. rewrite Hden, Hst. destruct (cacheSidechains (maps c) !! k) as [e|] eqn:E.
  { unfold wp, ret. split; [done|]. split; [by apply Hwf|]. unfold entry_abs, live, may_carry.
    case_decide; cbn; split_and!; try done; intros Hn; try (by destruct Hn); auto; exfalso; by apply Hn. }
  apply wp_bind. eapply wp_mono; [apply wp_on_base, law_GetSidechain, Hwf|].
  intros r c' [(Hr & Hv & Hl) ->]. cbn [base] in *. rewrite <- Hv.
  assert (Hwf1 : v_wf (mkCache (base c') (hasModifier c) (hashBlock c) (hashAnchor c) (maps c))).
  { by destruct (reads_base c (base c') Hwf Hr). }
  assert (Htop : top (mkCache (base c') (hasModifier c) (hashBlock c) (hashAnchor c) (maps c)) = top c).
  { unfold top. destruct (reads_base c (base c') Hwf Hr) as (_ & -> & _). done. }
  pose proof Hr as (Hwb & Hd & _).
  set (e0 := match r with Some sc => mkEntry sc DEFAULT | None => mkEntry CSidechain_null FRESH end).
  assert (Hcoh : mut_coh sc_mem_ok (sc_loaded (base c') k) (sc_fresh_ok (base c') k)
    (a_sc (denote (base c')) !! k) e0).
  { subst e0. rewrite Hd, <- Hv. destruct r as [sc|]; cbn.
    - destruct (Hl sc eq_refl). done.
    - split; [|exact eq_refl]. apply none_sc_fresh; [done|]. by rewrite Hd. }
  apply wp_bind. eapply wp_mono; [by apply (store_sc _ k e0)|].
  intros [] c2 [[Hwf2 Ht2] Hb2]. unfold wp, ret. cbn [base] in Hb2. rewrite Hb2. rewrite Ht2, Htop.
  split; [done|]. split; [done|]. subst e0. unfold may_carry. split_and!.
  - by destruct r.
  - by destruct r.
  - intros Hn. destruct r; [exfalso; by apply Hn|by left].
  - by destruct r.
  - intros e'. apply upd_sc_twice.
Qed.

Lemma ModifySidechainEvents_law c k : v_wf c ->
  wp (ModifySidechainEvents k) (fun e c' => v_wf c'
    /\ mut_coh (fun _ => True) (ev_loaded (base c') k) (ev_fresh_ok (base c') k) (a_ev (denote (base c')) !! k) e
    /\ content e = ev_content (top c) k /\ may_carry (is_Some (t_ev (top c) !! k)) (flag e)
    /\ (t_ev (top c) !! k = None -> t_ev_stale (top c) !! k = None -> flag e = FRESH)
    /\ forall e', upd_ev k e' (top c') = upd_ev k e' (top c)) c.
Proof.
  intros Hwf. unfold ModifySidechainEvents. apply wp_bind. unfold wp at 1, get_maps at 1.
  assert (Hden : t_ev (top c) !! k = match cacheSidechainEvents (maps c) !! k with
    | Some e => entry_abs e | None => a_ev (denote (base c)) !! k end)
    by (unfold t_ev, top; cbn [t_view denote Cache_spec overlay_all a_ev]; by rewrite lookup_overlay).
  assert (Hst : t_ev_stale (top c) !! k = match cacheSidechainEvents (maps c) !! k with
    | Some e => if decide (flag e = ERASED) then Some (content e) else None | None => None end)
    by (unfold top, stale_of; cbn [t_ev_stale]; rewrite lookup_omap; by destruct (cacheSidechainEvents (maps c) !! k)).
  unfold ev_content. rewrite Hden, Hst. destruct (cacheSidechainEvents (maps c) !! k) as [e|] eqn:E.
  { unfold wp, ret. split; [done|]. split; [by apply Hwf|]. unfold entry_abs, live, may_carry.
    case_decide; cbn; split_and!; try done; intros Hn; try (by destruct Hn); auto; exfalso; by apply Hn. }
  apply wp_bind. eapply wp_mono; [apply wp_on_base, law_GetSidechainEvents, Hwf|].
  intros r c' [(Hr & Hv & Hl) ->]. cbn [base] in *. rewrite <- Hv.
  assert (Hwf1 : v_wf (mkCache (base c') (hasModifier c) (hashBlock c) (hashAnchor c) (maps c))).
  { by destruct (reads_base c (base c') Hwf Hr). }
  assert (Htop : top (mkCache (base c') (hasModifier c) (hashBlock c) (hashAnchor c) (maps c)) = top c).
  { unfold top. destruct (reads_base c (base c') Hwf Hr) as (_ & -> & _). done. }
  pose proof Hr as (Hwb & Hd & _).
  set (e0 := match r with None => mkEntry Events_empty FRESH | Some ev => mkEntry ev DEFAULT end).
  assert (Hcoh : mut_coh (fun _ => True) (ev_loaded (base c') k) (ev_fresh_ok (base c') k)
    (a_ev (denote (base c')) !! k) e0).
  { subst e0. rewrite Hd, <- Hv. destruct r as [ev|]; cbn.
    - split_and!; [by apply Hl|done|done].
    - split; [|done]. apply none_ev_fresh; [done|]. by rewrite Hd. }
  apply wp_bind. eapply wp_mono; [by apply (store_ev _ k e0)|].
  intros [] c2 [[Hwf2 Ht2] Hb2]. unfold wp, ret. cbn [base] in Hb2. rewrite Hb2. rewrite Ht2, Htop.
  split; [done|]. split; [done|]. subst e0. unfold may_carry. split_and!.
  - by destruct r.
  - by destruct r.
  - intros Hn. destruct r; [exfalso; by apply Hn|by left].
  - by destruct r.
  - intros e'. apply upd_ev_twice.
Qed.

(** Modifying a sidechain through its iterator: whatever flag the iterator
    carries, the code may store a suitable entry. *)
Lemma awp_modify_sc {A} k (g : entry CSidechain -> res (A * entry CSidechain)) P t :
  (forall e, content e = sc_content t k -> may_carry (is_Some (t_sc t !! k)) (flag e) ->
     (t_sc t !! k = None -> t_sc_stale t !! k = None -> flag e = FRESH) ->
     exists r e', g e = Ok (r, e') /\ may_store e e' /\ (flag e' <> ERASED -> sc_mem_ok (content e'))
       /\ P r (upd_sc k e' t)) ->
  awp (modify_sc k g) P t.
Proof.
  intros Hg c Hwf <-. unfold modify_sc. apply wp_bind. eapply wp_mono; [by apply ModifySidechain_law|].
  intros e c' (Hwf' & Hcoh & Hcont & Hcarry & Hfr & Hupd).
  destruct (Hg e Hcont Hcarry Hfr) as (r & e' & He & Hs & Hok & HP).
  apply wp_bind. unfold lift, wp at 1. rewrite He. apply wp_bind.
  eapply wp_mono; [apply (store_sc c' k e' Hwf')|].
  - eapply may_store_coh; [|done|done|done]. apply law_sc_fresh. by destruct Hwf'.
  - intros [] c2 [[Hwf2 Ht2] _]. unfold wp, ret. split; [done|]. by rewrite Ht2, Hupd.
Qed.

Lemma awp_modify_ev_fresh {A} k (g : entry CSidechainEvents -> res (A * entry CSidechainEvents)) P t :
  (forall e, content e = ev_content t k -> may_carry (is_Some (t_ev t !! k)) (flag e) ->
     (t_ev t !! k = None -> t_ev_stale t !! k = None -> flag e = FRESH) ->
     exists r e', g e = Ok (r, e') /\ may_store e e' /\ P r (upd_ev k e' t)) ->
  awp (modify_ev k g) P t.
Proof.
  intros Hg c Hwf <-. unfold modify_ev. apply wp_bind. eapply wp_mono; [by apply ModifySidechainEvents_law|].
  intros e c' (Hwf' & Hcoh & Hcont & Hcarry & Hfr & Hupd).
  destruct (Hg e Hcont Hcarry Hfr) as (r & e' & He & Hs & HP).
  apply wp_bind. unfold lift, wp at 1. rewrite He. apply wp_bind.
  eapply wp_mono; [apply (store_ev c' k e' Hwf')|].
  - eapply may_store_coh; [|done|done|done]. apply law_ev_fresh. by destruct Hwf'.
  - intros [] c2 [[Hwf2 Ht2] _]. unfold wp, ret. split; [done|]. by rewrite Ht2, Hupd.
Qed.

Lemma awp_modify_ev {A} k (g : entry CSidechainEvents -> res (A * entry CSidechainEvents)) P t :
  (forall e, content e = ev_content t k -> may_carry (is_Some (t_ev t !! k)) (flag e) ->
     exists r e', g e = Ok (r, e') /\ may_store e e' /\ P r (upd_ev k e' t)) ->
  awp (modify_ev k g) P t.
Proof. intros Hg. apply awp_modify_ev_fresh. eauto. Qed.

(** ** Rules: unspent outputs *)
Lemma awp_AccessCoins k P t :
  (forall o, (o ≫= coins_abs) = t_coins t !! k -> (forall co, o = Some co -> coins_ok co) -> P o t) ->
  awp (AccessCoins k) P t.
Proof.
  intros HP. apply awp_reads with (Q := fun o => (o ≫= coins_abs) = t_coins t !! k
    /\ forall co, o = Some co -> coins_ok co); [apply keeps_ret, keeps_FetchCoins| |intros r []; by apply HP].
  intros c Hwf <-. unfold AccessCoins. apply wp_bind. eapply wp_mono; [by apply FetchCoins_law|].
  intros r c' (Hr & Hk & Hn). unfold wp, ret. split; [done|]. destruct r as [e|]; cbn [fmap option_fmap option_map].
  - assert (Hc' : coins_coh (coins_loaded (base c') k) (a_coins (denote (base c')) !! k) e).
    { destruct Hr as ((_ & _ & (P1 & _)) & _). by apply P1. }
    destruct Hr as (_ & Hd & _). unfold t_coins, top. cbn [t_view]. rewrite <- Hd.
    cbn [denote Cache_spec overlay_all a_coins]. rewrite lookup_overlay, Hk. split; [done|].
    intros co [= <-]. by destruct Hc'.
  - split; [|done]. unfold t_coins, top. cbn [t_view]. by rewrite Hn.
Qed.

Lemma Cleanup_abs co : coins_abs (Cleanup co) = (if IsPruned co then None else Some (coins_stored (Cleanup co))).
Proof.
  unfold coins_abs. assert (IsPruned (Cleanup co) = IsPruned co) as ->; [|done].
  apply eq_true_iff_eq. rewrite !IsPruned_avail. cbn [Cleanup set_vout vout].
  split; intros Hi i; specialize (Hi i); by rewrite avail_pop_null_back in *.
Qed.

(** what a modifier may leave behind *)
Definition coins_fit (co : CCoins) : Prop := canon (vout co) /\ sane_version (nVersion co) = true.

Lemma Cleanup_wf co : coins_fit co -> coins_ok (Cleanup co).
Proof. intros [Hc Hv]. split; [|done]. split; [apply pop_null_back_idem|by apply canon_pop]. Qed.

(** The entry a modifier opens. *)
Lemma ModifyCoins_law c k : v_wf c ->
  wp (ModifyCoins k) (fun co c1 => exists v' e, reads (base c) v' /\ co = e_coins e
    /\ coins_ok co /\ coins_abs co = a_coins (denote c) !! k
    /\ (if e_fresh e then a_coins (denote v') !! k = None else coins_loaded v' k)
    /\ c1 = mkCache v' true (hashBlock c) (hashAnchor c)
              (set_coins (<[k := mkCoinsEntry co true (e_fresh e)]> (cacheCoins (maps c))) (maps c))) c.
Proof.
  intros Hwf. pose proof Hwf as (Hb & Hm & (P1 & _)). unfold ModifyCoins. apply wp_bind. unfold wp at 1, get at 1.
  rewrite Hm. cbn [negb]. apply wp_bind. unfold wp at 1, massert at 1. apply wp_bind.
  assert (Hden : a_coins (denote c) !! k = match cacheCoins (maps c) !! k with
    | Some e => coins_entry_abs e | None => a_coins (denote (base c)) !! k end)
    by (cbn [denote Cache_spec overlay_all a_coins]; by rewrite lookup_overlay).
  rewrite Hden. destruct (cacheCoins (maps c) !! k) as [e|] eqn:E.
  - destruct (P1 k e E) as (Hw & Hf & Hd). unfold wp; cbn -[reads denote].
    exists (base c), e. split_and!; done.
  - apply wp_bind. eapply wp_mono; [apply wp_on_base, law_GetCoins, Hb|].
    intros r c' [(Hr & Hv & Hl) ->]. cbn [base] in *. pose proof Hr as (_ & Hd & _).
    set (e := match r with Some co => mkCoinsEntry co false (IsPruned co) | None => mkCoinsEntry Coins_Clear false true end).
    assert (He : (match r with None => ret (mkCoinsEntry Coins_Clear false true)
      | Some coins => ret (mkCoinsEntry coins false (IsPruned coins)) end : M C CCoinsCacheEntry) = ret e) by by destruct r.
    rewrite He. unfold wp; cbn -[reads denote]. exists (base c'), e. rewrite Hd, <- Hv. subst e.
    split; [done|]. split; [done|]. destruct r as [co|]; cbn.
    + destruct (Hl co eq_refl) as [Hcw Hld]. split_and!; try done. unfold coins_abs. by destruct (IsPruned co).
    + split_and!; done.
Qed.

Lemma awp_with_coins {A} k (f : CCoins -> res (A * CCoins)) P t :
  (forall co, coins_ok co -> coins_abs co = t_coins t !! k ->
     exists a co', f co = Ok (a, co') /\ coins_fit co'
       /\ P a (upd_coins k (coins_abs (Cleanup co')) t)) ->
  awp (with_coins k f) P t.
Proof.
  intros Hf c Hwf <-. pose proof Hwf as (Hb & Hm & (P1 & P2 & P3 & P4 & P5 & P6)).
  unfold with_coins. apply wp_bind. eapply wp_mono; [by apply ModifyCoins_law|].
  intros co c1 (v' & e & Hr & Hco & Hw & Habs & Hfr & ->).
  destruct (Hf co Hw Habs) as (a & co' & Hfe & Hcan & HP). apply wp_bind. unfold lift, wp at 1. rewrite Hfe.
  apply wp_bind. unfold CCoinsModifier_end. apply wp_bind. unfold wp at 1, get at 1. cbn [hasModifier].
  apply wp_bind. unfold wp at 1, massert at 1. apply wp_bind. unfold wp at 1, set_modifier, modify at 1.
  cbn [base hashBlock hashAnchor maps set_coins cacheCoins]. rewrite lookup_insert_eq.
  pose proof Hr as (Hwb & Hd & _). pose proof (Cleanup_wf co' Hcan) as Hcw.
  assert (Hcoh : coherent v' (maps c)) by (eapply coherent_reads; [done|by destruct Hwf as (_ & _ & ?)]).
  destruct Hcoh as (Q1 & Q2 & Q3 & Q4 & Q5 & Q6). cbn [e_fresh e_dirty].
  assert (Hdel : e_fresh e && IsPruned (Cleanup co') = true ->
    (if e_fresh e then a_coins (denote v') !! k = None else coins_loaded v' k) ->
    coins_abs (Cleanup co') = a_coins (denote (base c)) !! k).
  { intros [E1 E2]%andb_true_iff Hf'. rewrite E1, Hd in Hf'. unfold coins_abs. by rewrite E2, Hf'. }
  destruct (e_fresh e && IsPruned (Cleanup co')) eqn:Edel; unfold wp, set_maps, put_coins, modify, ret;
    cbn [base hashBlock hashAnchor hasModifier maps set_coins cacheCoins];
    (split; [split; [done|split; [done|]]|]).
  - split_and!; try done. cbn [set_coins cacheCoins]. intros k' e' Hk'.
    cbn [maps set_coins cacheCoins] in Hk'. rewrite delete_insert_eq in Hk'.
    apply lookup_delete_Some in Hk' as [_ Hk']. by apply Q1.
  - revert HP. match goal with |- P a ?x -> P a ?y => assert (y = x) as ->; [|done] end.
    unfold top, upd_coins, with_acoins. f_equal. cbn [t_view denote Cache_spec]. unfold overlay_all.
    cbn [base hashBlock hashAnchor maps set_coins cacheCoins cacheSidechains cacheSidechainEvents
      cacheCswNullifiers cacheNullifiers cacheAnchors a_coins a_sc a_ev a_csw a_null a_roots a_block a_anchor]. rewrite Hd. f_equal.
    apply map_eq. intros k'. rewrite lookup_overlay, delete_insert_eq. destruct (decide (k' = k)) as [->|].
    + rewrite lookup_delete_eq, lookup_partial_alter_eq. symmetry. by apply Hdel.
    + by rewrite lookup_delete_ne, lookup_partial_alter_ne, lookup_overlay.
  - split_and!; try done. cbn [set_coins cacheCoins]. intros k' e' Hk'.
    cbn [maps set_coins cacheCoins] in Hk'. rewrite insert_insert_eq in Hk'.
    destruct (decide (k' = k)) as [->|]; simplify_map_eq; [|by apply Q1]. done.
  - revert HP. match goal with |- P a ?x -> P a ?y => assert (y = x) as ->; [|done] end.
    unfold top, upd_coins, with_acoins. f_equal. cbn [t_view denote Cache_spec]. unfold overlay_all.
    cbn [base hashBlock hashAnchor maps set_coins cacheCoins cacheSidechains cacheSidechainEvents
      cacheCswNullifiers cacheNullifiers cacheAnchors a_coins a_sc a_ev a_csw a_null a_roots a_block a_anchor]. rewrite Hd. f_equal.
    by rewrite insert_insert_eq, overlay_store.
Qed.

(** ** What every state the rules speak of satisfies *)
Definition all_mem_ok (t : Top) : Prop := forall k s, t_sc t !! k = Some s -> sc_mem_ok s.

Lemma denote_mem_ok c : v_wf c -> all_mem_ok (top c).
Proof.
  intros (Hb & _ & (_ & K & _)) k s. unfold t_sc, top. cbn [t_view denote Cache_spec overlay_all a_sc].
  rewrite lookup_overlay. destruct (cacheSidechains (maps c) !! k) as [e|] eqn:E; intros Hs.
  - specialize (K k e E). unfold mut_coh, entry_abs, live in *. destruct (flag e); naive_solver.
  - pose proof (law_GetSidechain _ k Hb) as Hl. unfold wp in Hl.
    destruct (v_GetSidechain k (base c)) as [[r v']|]; [|done]. destruct Hl as (_ & -> & Hl). by apply Hl.
Qed.

Lemma awp_mem {A} (m : M C A) P t : (all_mem_ok t -> awp m P t) -> awp m P t.
Proof. intros Hm c Hwf <-. apply Hm; [by apply denote_mem_ok|done|done]. Qed.

(** ** The runs that return: the partial version of the rules *)
Definition awlp {A} (m : M C A) (P : A -> Top -> Prop) (t : Top) : Prop :=
  forall c, v_wf c -> top c = t -> wlp m (fun r c' => v_wf c' /\ P r (top c')) c.

Lemma awp_awlp {A} (m : M C A) P t : awp m P t -> awlp m P t.
Proof. intros Hm c Hwf Ht. by apply wp_wlp, Hm. Qed.

Lemma awlp_ret {A} (a : A) P t : P a t -> awlp (ret a) P t.
Proof. intros HP. by apply awp_awlp, awp_ret. Qed.

Lemma awlp_bind {A B} (m : M C A) (k : A -> M C B) P t :
  awlp m (fun a t' => awlp (k a) P t') t -> awlp (bind m k) P t.
Proof.
  intros Hm c Hwf Ht. apply wlp_bind. eapply wlp_mono; [by apply Hm|].
  intros a c' [Hwf' Hk]. by apply Hk.
Qed.

Lemma awlp_mono {A} (m : M C A) (P Q : A -> Top -> Prop) t :
  awlp m P t -> (forall a t', P a t' -> Q a t') -> awlp m Q t.
Proof. intros Hm HPQ c Hwf Ht. eapply wlp_mono; [by apply Hm|]. naive_solver. Qed.

Lemma awlp_mem {A} (m : M C A) P t : (all_mem_ok t -> awlp m P t) -> awlp m P t.
Proof. intros Hm c Hwf <-. apply Hm; [by apply denote_mem_ok|done|done]. Qed.

Lemma awlp_modify_sc {A} k (g : entry CSidechain -> res (A * entry CSidechain)) P t :
  (forall e, content e = sc_content t k -> may_carry (is_Some (t_sc t !! k)) (flag e) ->
     (t_sc t !! k = None -> t_sc_stale t !! k = None -> flag e = FRESH) ->
     forall r e', g e = Ok (r, e') -> may_store e e' /\ (flag e' <> ERASED -> sc_mem_ok (content e'))
       /\ P r (upd_sc k e' t)) ->
  awlp (modify_sc k g) P t.
Proof.
  intros Hg c Hwf <-. unfold modify_sc. apply wlp_bind.
  eapply wlp_mono; [by apply wp_wlp, ModifySidechain_law|].
  intros e c' (Hwf' & Hcoh & Hcont & Hcarry & Hfr & Hupd). apply wlp_bind.
  unfold lift, wlp at 1. destruct (g e) as [[r e']|] eqn:He; [|done].
  destruct (Hg e Hcont Hcarry Hfr r e' He) as (Hs & Hok & HP). apply wlp_bind.
  eapply wlp_mono; [apply wp_wlp, (store_sc c' k e' Hwf')|].
  - eapply may_store_coh; [|done|done|done]. apply law_sc_fresh. by destruct Hwf'.
  - intros [] c2 [[Hwf2 Ht2] _]. apply wlp_ret. split; [done|]. by rewrite Ht2, Hupd.
Qed.

(** ** The runs that succeed: a run whose result is not [good] may leave anything *)
Definition alp {A} (good : A -> bool) (m : M C A) (P : A -> Top -> Prop) (t : Top) : Prop :=
  forall c, v_wf c -> top c = t -> forall r c', m c = Ok (r, c') -> good r = true -> v_wf c' /\ P r (top c').

Lemma alp_awlp {A} good (m : M C A) P t : awlp m (fun r t' => good r = true -> P r t') t -> alp good m P t.
Proof.
  intros Hm c Hwf Ht r c' Hr Hg. specialize (Hm c Hwf Ht). unfold wlp in Hm. rewrite Hr in Hm. naive_solver.
Qed.

Lemma alp_mono {A} good (m : M C A) (P Q : A -> Top -> Prop) t :
  alp good m P t -> (forall a t', good a = true -> P a t' -> Q a t') -> alp good m Q t.
Proof. intros Hm HPQ c Hwf Ht r c' Hr Hg. destruct (Hm c Hwf Ht r c' Hr Hg). eauto. Qed.

Lemma alp_ret {A} good (a : A) P t : (good a = true -> P a t) -> alp good (ret a) P t.
Proof. intros HP c Hwf <- r c' [= <- <-] Hg. eauto. Qed.

Lemma alp_bad {A} good (a : A) P t : good a = false -> alp good (ret a) P t.
Proof. intros Hb. apply alp_ret. congruence. Qed.

Lemma alp_fail {A} good e (P : A -> Top -> Prop) t : alp good (fail e) P t.
Proof. by intros c Hwf Ht r c'. Qed.

Lemma alp_massert {A} good b (k : M C A) P t : (b = true -> alp good k P t) -> alp good (massert b ;;; k) P t.
Proof. intros Hk c Hwf Ht r c'. unfold bind, massert. destruct b; [|done]. by apply Hk. Qed.

Lemma alp_bind {A B} good (m : M C A) (k : A -> M C B) P t :
  awlp m (fun a t' => alp good (k a) P t') t -> alp good (bind m k) P t.
Proof.
  intros Hm c Hwf Ht r c' Hr Hg. specialize (Hm c Hwf Ht). unfold wlp, bind in *.
  destruct (m c) as [[a c1]|]; [|done]. destruct Hm as [Hwf1 Hk]. by apply (Hk c1).
Qed.

(** a failure that is passed on *)
Lemma alp_then {A B} g1 g2 (m : M C A) (k : A -> M C B) P t :
  alp g1 m (fun a t' => alp g2 (k a) P t') t ->
  (forall a c r c', g1 a = false -> k a c = Ok (r, c') -> g2 r = false) ->
  alp g2 (bind m k) P t.
Proof.
  intros Hm Hbad c Hwf Ht r c' Hr Hg. unfold bind in Hr. destruct (m c) as [[a c1]|] eqn:E; [|done].
  destruct (g1 a) eqn:Ea.
  - destruct (Hm c Hwf Ht a c1 E Ea) as [Hwf1 Hk]. by apply (Hk c1).
  - rewrite (Hbad a c1 r c' Ea Hr) in Hg. done.
Qed.

Lemma alp_mem {A} good (m : M C A) P t : (all_mem_ok t -> alp good m P t) -> alp good m P t.
Proof. intros Hm c Hwf Ht. apply Hm; [|done|done]. rewrite <- Ht. by apply denote_mem_ok. Qed.

Lemma alp_modify_sc {A} good k (g : entry CSidechain -> res (A * entry CSidechain)) P t :
  (forall e, content e = sc_content t k -> may_carry (is_Some (t_sc t !! k)) (flag e) ->
     forall r e', g e = Ok (r, e') -> good r = true -> may_store e e' /\ (flag e' <> ERASED -> sc_mem_ok (content e'))
       /\ P r (upd_sc k e' t)) ->
  alp good (modify_sc k g) P t.
Proof.
  intros Hg c Hwf Ht r c' Hr Hgood. set (g' := fun e => match g e with Ok (r, e') => if good r then Ok (r, e') else Err AssertFailed | Err x => Err x end).
  assert (Hrun : modify_sc k g' c = Ok (r, c')).
  { unfold modify_sc, bind, lift, g' in *. destruct (ModifySidechain k c) as [[e c1]|]; [|done].
    destruct (g e) as [[a e']|]; [|done]. assert (a = r) as -> by (destruct (put_sidechain k e' c1) as [[]|]; [by injection Hr|done]).
    by rewrite Hgood. }
  assert (Ha : awlp (modify_sc k g') P t).
  { apply awlp_modify_sc. intros e Hc Hcar _ a e' Hge. unfold g' in Hge. destruct (g e) as [[a1 e1]|] eqn:E; [|done].
    destruct (good a1) eqn:Ea; [|done]. injection Hge as <- <-. by eapply Hg. }
  specialize (Ha c Hwf Ht). unfold wlp in Ha. by rewrite Hrun in Ha.
Qed.

(** ** Loops *)
Lemma awp_for_each {A} (l : list A) (body : A -> M C bool) (I : list A -> Top -> Prop) t :
  (forall x l' t', I (x :: l') t' -> awp (body x) (fun ok t'' => ok = true /\ I l' t'') t') ->
  I l t -> awp (for_each l body) (fun ok t' => ok = true /\ I [] t') t.
Proof.
  intros Hb. revert t. induction l as [|x l IH]; intros t Ht; cbn [for_each]; [by apply awp_ret|].
  apply awp_bind. eapply awp_mono; [by apply Hb|]. intros ok t' [-> HI]. by apply IH.
Qed.

(** A loop that ended normally: every iteration went on. *)
Lemma awlp_for_each {A} (l : list A) (body : A -> M C bool) (I : list A -> Top -> Prop) t :
  (forall x l' t', I (x :: l') t' -> awlp (body x) (fun ok t'' => ok = true -> I l' t'') t') ->
  I l t -> awlp (for_each l body) (fun ok t' => ok = true -> I [] t') t.
Proof.
  intros Hb. revert t. induction l as [|x l IH]; intros t Ht; cbn [for_each]; [by apply awlp_ret|].
  apply awlp_bind. eapply awlp_mono; [by apply Hb|]. intros [] t' HI; [by apply IH, HI|by apply awlp_ret].
Qed.

(** From the rules to runs. *)
Lemma awlp_run {A} (m : M C A) P c r c' : awlp m P (top c) -> v_wf c -> m c = Ok (r, c') -> v_wf c' /\ P r (top c').
Proof. intros Hm Hwf E. specialize (Hm c Hwf eq_refl). unfold wlp in Hm. by rewrite E in Hm. Qed.

Lemma awp_run {A} (m : M C A) P c : awp m P (top c) -> v_wf c ->
  exists r c', m c = Ok (r, c') /\ v_wf c' /\ P r (top c').
Proof.
  intros Hm Hwf. specialize (Hm c Hwf eq_refl). unfold wp in Hm. destruct (m c) as [[r c']|]; [eauto|done].
Qed.

(** a cache just made over a view *)
Lemma Cache_new_wf (v : V) : v_wf v -> v_wf (Cache_new v : C).
Proof. intros Hv. split; [done|]. split; [done|]. apply coherent_empty. Qed.

Lemma Cache_new_top (v : V) : top (Cache_new v : C) = mkTop (denote v) ∅ ∅ ∅.
Proof.
  unfold top. f_equal. cbn [denote Cache_spec Cache_new base hashBlock hashAnchor maps].
  rewrite <- (overlay_all_id (denote v)) at 2. unfold overlay_all, over. cbn. by repeat case_match.
Qed.
End Rules.

Section Memory.
  Context `{NodeConfig}.

Lemma mem_ok_balance s v : sc_mem_ok s -> sc_mem_ok (set_balance v s).
Proof.
  unfold sc_mem_ok, sidechain_read, getMaxSizeOfScFeesContainers, epochLength. destruct s; cbn.
  repeat case_match; cbn; try done; by intros [= ->].
Qed.

Lemma mem_ok_immature s v : sc_mem_ok s -> sc_mem_ok (set_immature v s).
Proof.
  unfold sc_mem_ok, sidechain_read, getMaxSizeOfScFeesContainers, epochLength. destruct s; cbn.
  repeat case_match; cbn; try done; by intros [= ->].
Qed.

Lemma InitScFees_mem_ok s s' :
  maxSizeOfScFeesContainers s = -1 -> InitScFees s = Ok s' -> sc_mem_ok s'.
Proof.
  unfold InitScFees. intros ->. rewrite Z.eqb_refl. unfold sc_mem_ok, sidechain_read, getMaxSizeOfScFeesContainers.
  unfold epochLength. destruct (0 <? _) eqn:El; [|done]. cbn. destruct (is_empty (scFees s)); [|done]. intros [= <-].
  cbn. by rewrite El.
Qed.
End Memory.

(** ** Storing live and erased entries *)
Lemma upd_sc_live k e t : flag e <> ERASED ->
  upd_sc k e t = mkTop (with_sc (insert k (content e)) (t_view t)) (delete k (t_sc_stale t)) (t_ev_stale t)
    (t_csw_stale t).
Proof. intros He. unfold upd_sc, entry_abs, live. by rewrite !decide_False. Qed.

Lemma upd_sc_erased k e t : flag e = ERASED ->
  upd_sc k e t = mkTop (with_sc (delete k) (t_view t)) (<[k := content e]> (t_sc_stale t)) (t_ev_stale t)
    (t_csw_stale t).
Proof. intros He. unfold upd_sc, entry_abs, live. by rewrite !decide_True. Qed.

Lemma upd_ev_live k e t : flag e <> ERASED ->
  upd_ev k e t = mkTop (with_ev (insert k (content e)) (t_view t)) (t_sc_stale t) (delete k (t_ev_stale t))
    (t_csw_stale t).
Proof. intros He. unfold upd_ev, entry_abs, live. by rewrite !decide_False. Qed.

Lemma upd_ev_erased k e t : flag e = ERASED ->
  upd_ev k e t = mkTop (with_ev (delete k) (t_view t)) (t_sc_stale t) (<[k := content e]> (t_ev_stale t))
    (t_csw_stale t).
Proof. intros He. unfold upd_ev, entry_abs, live. by rewrite !decide_True. Qed.
