(* ===== verification/ViewOps.v ===== *)
(** * Rules for the remaining operations of a cache

    Unspent outputs in runs that return, nullifiers of shielded transfers and of
    withdrawals from ceased sidechains, anchors and the best block, in the style
    of [TopLaws]. *)

From stdpp Require Import base numbers list strings gmap fin_maps sets option.
From Stdlib Require Import ZArith Lia.
From S2P Require Import Prelude.
From S2P Require Import Amount.
From S2P Require Import Serialize.
From S2P Require Import ScTypes.
From S2P Require Import Primitives.
From S2P Require Import Sidechain.
From S2P Require Import Coins.
From S2P Require Import CoinsSer.
From S2P Require Import Merkle.
From S2P Require Import View.
From S2P Require Import ViewLaws.
From S2P Require Import TopLaws.
Open Scope Z_scope.
Open Scope zen_scope.

(** ** Updates of the abstract state *)
Definition with_null (f : gmap Z unit -> gmap Z unit) (a : AbsView) : AbsView :=
  mkAbs (a_coins a) (a_sc a) (a_ev a) (a_csw a) (f (a_null a)) (a_roots a) (a_block a) (a_anchor a).

Definition with_csw (f : gmap (Z * bytes) unit -> gmap (Z * bytes) unit) (a : AbsView) : AbsView :=
  mkAbs (a_coins a) (a_sc a) (a_ev a) (f (a_csw a)) (a_null a) (a_roots a) (a_block a) (a_anchor a).

Definition with_best (h : Z) (a : AbsView) : AbsView :=
  mkAbs (a_coins a) (a_sc a) (a_ev a) (a_csw a) (a_null a) (a_roots a) h (a_anchor a).

Definition with_anchor (f : gmap Z unit -> gmap Z unit) (h : Z) (a : AbsView) : AbsView :=
  mkAbs (a_coins a) (a_sc a) (a_ev a) (a_csw a) (a_null a) (f (a_roots a)) (a_block a) h.

(** the view changes, the erased entries do not *)
Definition on_view (f : AbsView -> AbsView) (t : Top) : Top :=
  mkTop (f (t_view t)) (t_sc_stale t) (t_ev_stale t) (t_csw_stale t).

Definition upd_null (nf : Z) (spent : bool) : Top -> Top :=
  on_view (with_null (partial_alter (fun _ => if spent then Some tt else None) nf)).

Definition add_csw (k : Z * bytes) : Top -> Top := on_view (with_csw (insert k tt)).

Definition rem_csw (k : Z * bytes) (t : Top) : Top :=
  mkTop (with_csw (delete k) (t_view t)) (t_sc_stale t) (t_ev_stale t) (<[k := tt]> (t_csw_stale t)).

Section Rules.
  Context `{NodeConfig} {V : Type} `{CCoinsView V} `{ViewSpec V} `{!ViewLaws V} `{!FreshOk V}.
Local Notation C := (CCoinsViewCache V).
  Implicit Types c : C.

(** ** Unspent outputs *)
Lemma awp_HaveCoins k P t : P (bool_decide (is_Some (t_coins t !! k))) t -> awp (HaveCoins (V := V) k) P t.
Proof.
  intros HP. apply awp_reads with (Q := fun r => r = bool_decide (is_Some (t_coins t !! k)));
    [apply keeps_ret, keeps_FetchCoins| |by intros r ->].
  intros c Hwf <-. unfold HaveCoins. apply wp_bind. eapply wp_mono; [by apply FetchCoins_law|].
  intros r c' (Hr & Hk & Hn). unfold wp, ret. split; [done|].
  unfold t_coins, top. cbn [t_view]. destruct r as [e|].
  - pose proof Hr as ((_ & _ & (P1 & _)) & Hd & _). destruct (P1 k e Hk) as ([[Hc _] _] & _).
    rewrite <- Hd. cbn [denote Cache_spec overlay_all a_coins]. rewrite lookup_overlay, Hk.
    unfold coins_entry_abs, coins_abs. pose proof (IsPruned_clean (e_coins e) Hc) as Hp.
    destruct (IsPruned (e_coins e)); destruct (vout (e_coins e)) as [|o l]; cbn; try done.
    + destruct Hp as [Hp _]. by specialize (Hp eq_refl).
    + destruct Hp as [_ Hp]. by specialize (Hp eq_refl).
  - by rewrite (Hn eq_refl).
Qed.

Lemma awlp_with_coins {A} k (f : CCoins -> res (A * CCoins)) P t :
  (forall co, coins_ok co -> coins_abs co = t_coins t !! k ->
     forall a co', f co = Ok (a, co') -> coins_fit co'
       /\ P a (upd_coins k (coins_abs (Cleanup co')) t)) ->
  awlp (with_coins (V := V) k f) P t.
Proof.
  intros Hf c Hwf Ht. unfold wlp. destruct (with_coins k f c) as [[r c']|] eqn:E; [|done].
  pose proof (ModifyCoins_law c k Hwf) as Hm. unfold wp in Hm. pose proof E as E'.
  unfold with_coins, bind, lift in E'. destruct (ModifyCoins k c) as [[co c1]|] eqn:E1; [|done].
  destruct Hm as (_ & _ & _ & _ & Hw & Habs & _). destruct (f co) as [[a co']|] eqn:Ef; [|done].
  destruct (Hf co Hw ltac:(by rewrite Habs, <- Ht) a co' Ef) as [Hcan HP].
  pose proof (awp_with_coins k (fun _ => Ok (a, co')) (fun r t' => r = a /\ t' = upd_coins k (coins_abs (Cleanup co')) t) t) as Hc.
  assert (Hrun : with_coins k (fun _ => Ok (a, co')) c = Ok (r, c')).
  { unfold with_coins, bind, lift. by rewrite E1. }
  specialize (Hc ltac:(intros; exists a, co'; done) c Hwf Ht). unfold wp in Hc. rewrite Hrun in Hc.
  by destruct Hc as (Hwf' & -> & ->).
Qed.

(** ** Nullifiers *)
Lemma awp_SetNullifier nf spent P t : P tt (upd_null nf spent t) -> awp (SetNullifier (V := V) nf spent) P t.
Proof.
  intros HP c Hwf <-. pose proof Hwf as (Hb & Hm & (P1 & P2 & P3 & P4 & P5 & P6)).
  unfold wp, SetNullifier, put_nullifier, set_maps, modify. split.
  - split; [done|]. split; [done|]. split_and!; try done. cbn [maps base set_nullifiers cacheNullifiers].
    intros k e Hk. destruct (decide (k = nf)) as [->|]; simplify_map_eq; [done|by apply P5].
  - revert HP. match goal with |- P tt ?x -> P tt ?y => assert (y = x) as ->; [|done] end.
    unfold top, upd_null, on_view, with_null. f_equal. cbn [t_view denote Cache_spec]. unfold overlay_all.
    cbn [base hashBlock hashAnchor maps set_nullifiers cacheCoins cacheSidechains cacheSidechainEvents
      cacheCswNullifiers cacheNullifiers cacheAnchors a_coins a_sc a_ev a_csw a_null a_roots a_block a_anchor]. f_equal.
    by rewrite overlay_store.
Qed.

Lemma csw_stale_store (m : gmap (Z * bytes) ImmFlags) k f :
  csw_stale_of (<[k := f]> m) = (if decide (f = IERASED) then <[k := tt]> (csw_stale_of m) else delete k (csw_stale_of m)).
Proof.
  apply map_eq. intros k'. unfold csw_stale_of. rewrite lookup_omap.
  destruct (decide (k' = k)) as [->|]; case_decide; simplify_map_eq; by rewrite ?lookup_omap.
Qed.

Lemma store_csw c k f :
  v_wf c -> imm_coh (csw_loaded (base c) k) (csw_fresh_ok (base c) k) (a_csw (denote (base c)) !! k) f ->
  wp (put_csw k f) (fun _ c' => v_wf c' /\ top c' = mkTop (with_csw (partial_alter (fun _ => csw_abs f) k) (t_view (top c)))
    (t_sc_stale (top c)) (t_ev_stale (top c)) (csw_stale_of (<[k := f]> (cacheCswNullifiers (maps c))))) c.
Proof.
  intros (Hb & Hm & (P1 & P2 & P3 & P4 & P5 & P6)) Hf. unfold wp, put_csw, set_maps, modify. split.
  - split; [done|]. split; [done|]. split_and!; try done. cbn [maps base set_csw cacheCswNullifiers].
    intros k' e Hk'. destruct (decide (k' = k)) as [->|]; simplify_map_eq; [done|by apply P4].
  - unfold top, with_csw. f_equal. cbn [t_view denote Cache_spec]. unfold overlay_all.
    cbn [base hashBlock hashAnchor maps set_csw cacheCoins cacheSidechains cacheSidechainEvents
      cacheCswNullifiers cacheNullifiers cacheAnchors a_coins a_sc a_ev a_csw a_null a_roots a_block a_anchor]. f_equal.
    by rewrite overlay_store.
Qed.

(** After [HaveCswNullifier] the cache stands for the same state. *)
Lemma HaveCsw_top c i n : v_wf c ->
  wp (HaveCswNullifier i n) (fun r c' => v_wf c' /\ top c' = top c
    /\ r = bool_decide (is_Some (t_csw (top c) !! (i, n)))
    /\ (r = true -> csw_loaded c' (i, n))
    /\ (r = false -> cacheCswNullifiers (maps c') !! (i, n) = cacheCswNullifiers (maps c) !! (i, n))) c.
Proof.
  intros Hwf. pose proof (HaveCsw_law c i n Hwf) as Hl. unfold wp in *.
  destruct (HaveCswNullifier i n c) as [[r c']|] eqn:E; [|done]. destruct Hl as (Hr & Hv & Ht & Hf).
  destruct (keeps_HaveCsw i n _ _ _ E) as (K1 & K2 & K3). pose proof Hr as (Hwf' & Hd & _).
  split_and!; try done. unfold top. by rewrite Hd, (stale_fills _ _ K1), (stale_fills _ _ K2), K3.
Qed.

Lemma awp_AddCsw i n P t :
  t_csw_stale t !! (i, n) = None ->
  P (negb (bool_decide (is_Some (t_csw t !! (i, n)))))
    (if decide (is_Some (t_csw t !! (i, n))) then t else add_csw (i, n) t) ->
  awp (AddCswNullifier (V := V) i n) P t.
Proof.
  intros Hst HP c Hwf <-. unfold AddCswNullifier. apply wp_bind. eapply wp_mono; [by apply HaveCsw_top|].
  intros r c' (Hwf' & Ht & Hr & _ & Hf). rewrite <- Hr in HP. destruct r; cbn [negb] in HP.
  { symmetry in Hr. apply bool_decide_eq_true in Hr. rewrite decide_True in HP by done. unfold wp, ret. by rewrite Ht. }
  symmetry in Hr. apply bool_decide_eq_false in Hr. rewrite decide_False in HP by done.
  apply wp_bind. unfold wp at 1, get_maps at 1.
  pose proof Hwf' as (Hb' & _ & (_ & _ & _ & P4 & _)).
  assert (Hnone : cacheCswNullifiers (maps c') !! (i, n) = None).
  { destruct (cacheCswNullifiers (maps c') !! (i, n)) as [f|] eqn:E; [|done]. exfalso.
    rewrite <- Ht in Hst, Hr. unfold top, csw_stale_of in Hst. cbn [t_csw_stale] in Hst. rewrite lookup_omap, E in Hst.
    cbn in Hst. case_decide; [done|]. apply Hr. unfold t_csw, top. cbn [t_view denote Cache_spec overlay_all a_csw].
    rewrite lookup_overlay, E. unfold csw_abs. by rewrite decide_False. }
  rewrite Hnone. apply wp_bind. eapply wp_mono; [apply store_csw; [done|]|].
  - cbn. apply none_csw_fresh; [done|]. rewrite <- Ht in Hr. unfold t_csw, top in Hr.
    cbn [t_view denote Cache_spec overlay_all a_csw] in Hr. rewrite lookup_overlay, Hnone in Hr. by apply eq_None_not_Some.
  - intros [] c2 [Hwf2 Ht2]. unfold wp, ret. split; [done|]. rewrite Ht2, Ht.
    unfold add_csw, on_view in HP. rewrite csw_stale_store. rewrite decide_False by done.
    assert (Hs : csw_stale_of (cacheCswNullifiers (maps c')) = t_csw_stale (top c)) by (rewrite <- Ht; done).
    rewrite Hs, delete_id by done. exact HP.
Qed.

Lemma awp_RemoveCsw i n P t :
  is_Some (t_csw t !! (i, n)) -> P true (rem_csw (i, n) t) -> awp (RemoveCswNullifier (V := V) i n) P t.
Proof.
  intros Hin HP c Hwf <-. unfold RemoveCswNullifier. apply wp_bind. eapply wp_mono; [by apply HaveCsw_top|].
  intros r c' (Hwf' & Ht & Hr & Hl & _). rewrite bool_decide_true in Hr by done. subst r. cbn [negb].
  specialize (Hl eq_refl). pose proof Hwf' as (Hb' & _ & (_ & _ & _ & P4 & _)).
  apply wp_bind. eapply wp_mono; [apply store_csw; [done|]|].
  - destruct Hl as [f Hf]. specialize (P4 _ _ Hf). cbn. unfold imm_coh in P4. destruct f; [naive_solver| |done].
    by apply law_csw_fresh.
  - intros [] c2 [Hwf2 Ht2]. unfold wp, ret. split; [done|]. rewrite Ht2, Ht. unfold rem_csw in HP.
    rewrite csw_stale_store, decide_True by done.
    assert (Hs : csw_stale_of (cacheCswNullifiers (maps c')) = t_csw_stale (top c)) by (rewrite <- Ht; done).
    rewrite Hs. exact HP.
Qed.

(** ** Best block and anchors *)
Lemma awp_SetBestBlock h P t : h <> 0 -> P tt (on_view (with_best h) t) -> awp (SetBestBlock (V := V) h) P t.
Proof.
  intros Hh HP c Hwf <-. unfold wp, SetBestBlock, modify. split; [done|].
  revert HP. match goal with |- P tt ?x -> P tt ?y => assert (y = x) as ->; [|done] end.
  unfold top, on_view, with_best. f_equal. cbn [t_view denote Cache_spec]. unfold overlay_all, over.
  cbn [base hashBlock hashAnchor maps a_coins a_sc a_ev a_csw a_null a_roots a_block a_anchor].
  by rewrite (proj2 (Z.eqb_neq h 0) Hh).
Qed.

Lemma keeps_GetBestAnchor : keeps (V := V) GetBestAnchor.
Proof.
  intros c r c' E. unfold GetBestAnchor, bind, get, on_base, set_hashAnchor, modify, ret in E.
  repeat (case_match; simplify_eq/=); split_and!; first [by apply fills_map_refl | done].
Qed.

Lemma keeps_GetAnchorAt k : keeps (V := V) (GetAnchorAt k).
Proof.
  intros c r c' E. unfold GetAnchorAt, bind, get_maps, on_base, put_anchor, set_maps, modify, ret in E.
  repeat (case_match; simplify_eq/=); split_and!; first [by apply fills_map_refl | done].
Qed.

Lemma awp_GetBestAnchor P t : P (a_anchor (t_view t)) t -> awp (GetBestAnchor (V := V)) P t.
Proof.
  intros HP. apply awp_reads with (Q := fun r => r = a_anchor (t_view t)); [apply keeps_GetBestAnchor| |by intros r ->].
  intros c Hwf Ht. eapply wp_mono; [by apply GetBestAnchor_law|]. intros r c' [Hr ->]. split; [done|]. by rewrite <- Ht.
Qed.

Lemma awp_GetAnchorAt k P t :
  (forall o, is_Some o <-> is_Some (a_roots (t_view t) !! k) -> P o t) -> awp (GetAnchorAt (V := V) k) P t.
Proof.
  intros HP. apply awp_reads with (Q := fun o => is_Some o <-> is_Some (a_roots (t_view t) !! k));
    [apply keeps_GetAnchorAt| |done].
  intros c Hwf Ht. eapply wp_mono; [by apply GetAnchorAt_law|]. intros r c' [Hr Hv]. split; [done|]. by rewrite <- Ht.
Qed.

Lemma store_root c k e : v_wf c -> (root_pinned V k -> an_entered e = true) -> an_dirty e = true ->
  wp (put_anchor k e) (fun _ c' => v_wf c' /\ top c' = on_view (fun a =>
    with_anchor (partial_alter (fun _ => root_abs e) k) (a_anchor a) a) (top c)) c.
Proof.
  intros (Hb & Hm & (P1 & P2 & P3 & P4 & P5 & P6)) Hp Hd. unfold wp, put_anchor, set_maps, modify. split.
  - split; [done|]. split; [done|]. split_and!; try done. cbn [maps base set_anchors cacheAnchors].
    intros k' e' Hk'. destruct (decide (k' = k)) as [->|]; simplify_map_eq; [|by apply P6]. split; [done|]. by rewrite Hd.
  - unfold top, on_view, with_anchor. f_equal. cbn [t_view denote Cache_spec]. unfold overlay_all.
    cbn [base hashBlock hashAnchor maps set_anchors cacheCoins cacheSidechains cacheSidechainEvents
      cacheCswNullifiers cacheNullifiers cacheAnchors a_coins a_sc a_ev a_csw a_null a_roots a_block a_anchor]. f_equal.
    by rewrite overlay_store.
Qed.

Lemma awp_set_hashAnchor h P t : h <> 0 ->
  P tt (on_view (with_anchor (fun r => r) h) t) -> awp (set_hashAnchor (V := V) h) P t.
Proof.
  intros Hh HP c Hwf <-. unfold wp, set_hashAnchor, modify. split; [done|].
  revert HP. match goal with |- P tt ?x -> P tt ?y => assert (y = x) as ->; [|done] end.
  unfold top, on_view, with_anchor. f_equal. cbn [t_view denote Cache_spec]. unfold overlay_all, over.
  cbn [base hashBlock hashAnchor maps a_coins a_sc a_ev a_csw a_null a_roots a_block a_anchor].
  by rewrite (proj2 (Z.eqb_neq h 0) Hh).
Qed.

Lemma awp_put_anchor k e P t : (root_pinned V k -> an_entered e = true) -> an_dirty e = true ->
  P tt (on_view (fun a => with_anchor (partial_alter (fun _ => root_abs e) k) (a_anchor a) a) t) ->
  awp (put_anchor (V := V) k e) P t.
Proof.
  intros Hp Hd HP c Hwf <-. eapply wp_mono; [by apply store_root|]. intros [] c' [Hwf' ->]. done.
Qed.

Context `{MerkleHash Z}.

(** the state after [PushAnchor] of a tree with root [rt] *)
Definition pushed (rt : Z) (a : AbsView) : AbsView :=
  if decide (a_anchor a = rt) then a else with_anchor (insert rt tt) rt a.

Lemma awp_PushAnchor tree P t :
  let rt := tree_root INCREMENTAL_MERKLE_TREE_DEPTH tree in
  rt <> 0 -> P tt (on_view (pushed rt) t) -> awp (PushAnchor (V := V) tree) P t.
Proof.
  intros rt Hrt HP. unfold PushAnchor. fold rt. apply awp_bind, awp_GetBestAnchor.
  unfold pushed, on_view in HP. destruct (Z.eqb_spec (a_anchor (t_view t)) rt) as [E|E]; cbn [negb].
  - rewrite decide_True in HP by done. apply awp_ret. by destruct t.
  - rewrite decide_False in HP by done. apply awp_bind, awp_put_anchor; [done|done|]. by apply awp_set_hashAnchor.
Qed.

Lemma awp_PopAnchor rt P t :
  rt <> 0 ->
  (a_anchor (t_view t) <> rt -> is_Some (a_roots (t_view t) !! a_anchor (t_view t)) /\ ~ root_pinned V (a_anchor (t_view t))) ->
  P tt (on_view (fun a => if decide (a_anchor a = rt) then a else with_anchor (delete (a_anchor a)) rt a) t) ->
  awp (PopAnchor (V := V) rt) P t.
Proof.
  intros Hrt Hcur HP. unfold PopAnchor. apply awp_bind, awp_GetBestAnchor. unfold on_view in HP.
  destruct (Z.eqb_spec (a_anchor (t_view t)) rt) as [E|E]; cbn [negb].
  - rewrite decide_True in HP by done. apply awp_ret. by destruct t.
  - rewrite decide_False in HP by done. destruct (Hcur E) as [Hs Hp].
    apply awp_bind, awp_GetAnchorAt. intros o Ho. destruct (proj2 Ho Hs) as [tr ->].
    apply awp_bind, awp_put_anchor; [done|done|]. by apply awp_set_hashAnchor.
Qed.
End Rules.
