(* ===== verification/ScOps.v ===== *)
(** * Sidechains in the ledger: the operations of a block

    The part of [coins.cpp] that connects and disconnects what blocks do to
    sidechains: transactions ([UpdateSidechain], [RevertTxOutputs]), certificates
    ([UpdateSidechain], [RestoreSidechain], [NullifyBackwardTransfers],
    [RestoreBackwardTransfers]) and the events scheduled for a height
    ([HandleSidechainEvents], [RevertSidechainEvents]). *)

From stdpp Require Import base numbers list strings gmap fin_maps sets option.
From Stdlib Require Import ZArith Lia.
From S2P Require Import Prelude.
From S2P Require Import Amount.
From S2P Require Import Serialize.
From S2P Require Import ScTypes.
From S2P Require Import Primitives.
From S2P Require Import Sidechain.
From S2P Require Import Coins.
From S2P Require Import CoinsSer.
From S2P Require Import Undo.
From S2P Require Import Merkle.
From S2P Require Import View.
From S2P Require Import ViewLaws.
From S2P Require Import TopLaws.
Open Scope Z_scope.
Open Scope zen_scope.

(** ** Events scheduled for a height *)
Definition add_maturing (scId : uint256) (e : CSidechainEvents) : CSidechainEvents :=
  mkEvents (sidechainEventsVersion e) (ceasingScs e) ({[scId]} ∪ maturingScs e).

Definition add_ceasing (scId : uint256) (e : CSidechainEvents) : CSidechainEvents :=
  mkEvents (sidechainEventsVersion e) ({[scId]} ∪ ceasingScs e) (maturingScs e).

Definition erase_maturing (scId : uint256) (e : CSidechainEvents) : CSidechainEvents :=
  mkEvents (sidechainEventsVersion e) (ceasingScs e) (maturingScs e ∖ {[scId]}).

Definition erase_ceasing (scId : uint256) (e : CSidechainEvents) : CSidechainEvents :=
  mkEvents (sidechainEventsVersion e) (ceasingScs e ∖ {[scId]}) (maturingScs e).

(** An insertion keeps the flag [FRESH] and otherwise sets [DIRTY]. *)
Definition keep_fresh (f : Flags) : Flags := if decide (f = FRESH) then FRESH else DIRTY.

Definition event_add (f : CSidechainEvents -> CSidechainEvents) (e : entry CSidechainEvents)
  : res (unit * entry CSidechainEvents) :=
  Ok (tt, mkEntry (f (content e)) (keep_fresh (flag e))).

(** A removal sets [DIRTY], or [ERASED] when no event is left. *)
Definition event_remove (f : CSidechainEvents -> CSidechainEvents) (e : entry CSidechainEvents)
  : res (unit * entry CSidechainEvents) :=
  let ev := f (content e) in
  Ok (tt, mkEntry ev (if negb (Events_IsNull ev) then DIRTY else ERASED)).

(** ** One sidechain *)

(** [mImmatureAmounts[h] += v] *)
Definition add_immature (h v : Z) (s : CSidechain) : CSidechain :=
  set_immature (<[h := default 0 (mImmatureAmounts s !! h) + v]> (mImmatureAmounts s)) s.

(** [DecrementImmatureAmount] on the entry it is given *)
Definition DecrementImmatureAmount (nValue maturityHeight : Z) (e : entry CSidechain)
  : bool * entry CSidechain :=
  let sc := content e in
  match mImmatureAmounts sc !! maturityHeight with
  | None => (false, e)
  | Some v =>
      if v <? nValue then (false, e)
      else
        let m := <[maturityHeight := v - nValue]> (mImmatureAmounts sc) in
        if v - nValue =? 0 then (true, mkEntry (set_immature (delete maturityHeight m) sc) DIRTY)
        else (true, mkEntry (set_immature m sc) DIRTY)
  end.

Section Operations.
  Context {V : Type} `{CCoinsView V} `{ZendooLib} `{NodeConfig}.
Local Notation C := (CCoinsViewCache V).

Definition getInitScCoinsMaturity : Z :=
  if String.eqb (strNetworkID Params) "regtest"
  then to_i32 (GetArg arg_sccoinsmaturity (nScCoinsMaturity Params))
  else nScCoinsMaturity Params.

Definition getScCoinsMaturity : Z := getInitScCoinsMaturity.

(** ** Connecting a transaction *)
Definition update_csw (csw : CTxCeasedSidechainWithdrawalInput) : M C bool :=
  let* have := HaveSidechain (csw_scId csw) in
  if negb have then ret false
  else
    modify_sc (csw_scId csw) (fun e =>
      let sc := set_balance (balance (content e) - csw_nValue csw) (content e) in
      if 0 <=? balance sc then Ok (tt, mkEntry sc DIRTY) else Err AssertFailed) ;;;
    ret true.

(** the fields the creation sets in the entry it was given *)
Definition create_sidechain (cr : CTxScCreationOut) (txHash : uint256) (blockHeight maturityHeight : Z)
    (s : CSidechain) : res CSidechain :=
  InitScFees
    (mkSidechain blockHeight txHash (pastEpochTopQualityCertView s)
      (mkCertView (certDataHash (lastTopQualityCertView s)) (sc_forwardTransferScFee cr)
        (sc_mainchainBackwardTransferRequestScFee cr))
      0 EPOCH_NULL QUALITY_NULL 0 (balance s)
      (mkScFixedParameters (sc_version cr) (sc_withdrawalEpochLength cr) (sc_customData cr) (sc_constant cr)
        (sc_wCertVk cr) (sc_wCeasedVk cr) (sc_vFieldElementCertificateFieldConfig cr)
        (sc_vBitVectorCertificateFieldConfig cr) (sc_mainchainBackwardTransferRequestDataLength cr))
      (<[maturityHeight := sc_nValue cr]> (mImmatureAmounts s))
      (maxSizeOfScFeesContainers s) (scFees s)).

Definition update_creation (txHash : uint256) (blockHeight maturityHeight : Z) (cr : CTxScCreationOut)
  : M C bool :=
  let scId := generatedScId cr in
  let* have := HaveSidechain scId in
  if have then ret false
  else
    let* sc := modify_sc scId (fun e =>
      res_bind (create_sidechain cr txHash blockHeight maturityHeight (content e)) (fun sc =>
      Ok (sc, mkEntry sc FRESH))) in
    modify_ev maturityHeight (event_add (add_maturing scId)) ;;;
    let nextCeasingHeight := GetScheduledCeasingHeight sc in
    modify_ev nextCeasingHeight (event_add (add_ceasing scId)) ;;;
    ret true.

(** forward transfers and backward transfer requests *)
Definition update_ccout {T} `{CrosschainOut T} (maturityHeight : Z) (o : T) : M C bool :=
  let* have := HaveSidechain (GetScId o) in
  if negb have then ret false
  else
    modify_sc (GetScId o) (fun e =>
      Ok (tt, mkEntry (add_immature maturityHeight (GetScValue o) (content e)) (keep_fresh (flag e)))) ;;;
    modify_ev maturityHeight (event_add (add_maturing (GetScId o))) ;;;
    ret true.

(** a loop followed by the rest of the function *)
Definition then_ (m k : M C bool) : M C bool := let* ok := m in if ok then k else ret false.

Definition UpdateSidechain (tx : CTransaction) (blockHeight : Z) : M C bool :=
  let maturityHeight := blockHeight + getScCoinsMaturity in
  then_ (for_each (vcsw_ccin tx) update_csw)
  (then_ (for_each (vsc_ccout tx) (update_creation (tx_hash tx) blockHeight maturityHeight))
  (then_ (for_each (vft_ccout tx) (update_ccout maturityHeight))
  (for_each (vmbtr_out tx) (update_ccout maturityHeight)))).

(** ** Disconnecting a transaction *)
Definition revert_ccout {T} `{CrosschainOut T} (maturityHeight : Z) (o : T) : M C bool :=
  let* have := HaveSidechain (GetScId o) in
  if negb have then ret false
  else
    let* ok := modify_sc (GetScId o) (fun e =>
      Ok (DecrementImmatureAmount (GetScValue o) maturityHeight e)) in
    if negb ok then ret false
    else
      modify_ev maturityHeight (event_remove (erase_maturing (GetScId o))) ;;;
      ret true.

(** the sidechain's part of the removal: the decrement, the check of the balance,
    the flag; with the ceasing height read before *)
Definition revert_creation_entry (maturityHeight : Z) (cr : CTxScCreationOut) (e : entry CSidechain)
  : res ((bool * Z) * entry CSidechain) :=
  let ceasingHeightToErase := GetScheduledCeasingHeight (content e) in
  let '(ok, e1) := DecrementImmatureAmount (sc_nValue cr) maturityHeight e in
  if negb ok then Ok ((false, ceasingHeightToErase), e1)
  else if 0 <? balance (content e1) then Ok ((false, ceasingHeightToErase), e1)
  else Ok ((true, ceasingHeightToErase), mkEntry (content e1) ERASED).

Definition revert_creation (maturityHeight : Z) (cr : CTxScCreationOut) : M C bool :=
  let scId := generatedScId cr in
  let* have := HaveSidechain scId in
  if negb have then ret false
  else
    let* '(ok, ceasingHeightToErase) := modify_sc scId (revert_creation_entry maturityHeight cr) in
    if negb ok then ret false
    else
      let* have_mat := HaveSidechainEvents maturityHeight in
      (if have_mat then modify_ev maturityHeight (event_remove (erase_maturing scId)) else ret tt) ;;;
      let* have_cea := HaveSidechainEvents ceasingHeightToErase in
      if negb have_cea then ret false
      else
        modify_ev ceasingHeightToErase (event_remove (erase_ceasing scId)) ;;;
        ret true.

Definition revert_csw (csw : CTxCeasedSidechainWithdrawalInput) : M C bool :=
  let* have := HaveSidechain (csw_scId csw) in
  if negb have then ret false
  else
    modify_sc (csw_scId csw) (fun e =>
      Ok (tt, mkEntry (set_balance (balance (content e) + csw_nValue csw) (content e)) DIRTY)) ;;;
    ret true.

Definition RevertTxOutputs (tx : CTransaction) (nHeight : Z) : M C bool :=
  let maturityHeight := nHeight + getScCoinsMaturity in
  then_ (for_each (vmbtr_out tx) (revert_ccout maturityHeight))
  (then_ (for_each (vft_ccout tx) (revert_ccout maturityHeight))
  (then_ (for_each (vsc_ccout tx) (revert_creation maturityHeight))
  (for_each (vcsw_ccin tx) revert_csw))).

(** ** Connecting a certificate *)
Definition set_undo (scId : uint256) (u : CSidechainUndoData) (b : CBlockUndo) : CBlockUndo :=
  mkBlockUndo (includesSidechainAttributes b) (vtxundo b) (old_tree_root b)
    (<[scId := u]> (scUndoDatabyScId b)).

(** [blockUndo.scUndoDatabyScId[scId]] creates the entry it does not find *)
Definition undo_at (scId : uint256) (b : CBlockUndo) : CSidechainUndoData :=
  default ScUndo_empty (scUndoDatabyScId b !! scId).

(** the section of the undo data the epoch's first certificate fills *)
Definition undo_cross (sc : CSidechain) (u : CSidechainUndoData) : CSidechainUndoData :=
  mkScUndo (sidechainUndoDataVersion u) (Z.lor (contentBitMask u) CROSS_EPOCH_CERT_DATA)
    (appliedMaturedAmount u) (pastEpochTopQualityCertView sc) (scFees sc)
    (prevTopCommittedCertHash u) (prevTopCommittedCertReferencedEpoch u) (prevTopCommittedCertQuality u)
    (prevTopCommittedCertBwtAmount u) (su_lastTopQualityCertView u) (lowQualityBwts u) (ceasedBwts u).

Definition undo_any (sc : CSidechain) (u : CSidechainUndoData) : CSidechainUndoData :=
  mkScUndo (sidechainUndoDataVersion u) (Z.lor (contentBitMask u) ANY_EPOCH_CERT_DATA)
    (appliedMaturedAmount u) (su_pastEpochTopQualityCertView u) (su_scFees u)
    (lastTopQualityCertHash sc) (lastTopQualityCertReferencedEpoch sc) (lastTopQualityCertQuality sc)
    (lastTopQualityCertBwtAmount sc) (lastTopQualityCertView sc) (lowQualityBwts u) (ceasedBwts u).

(** the first part of the update: the epoch's turn or a better certificate;
    [false] for the early returns *)
Definition cert_epoch_step (cert : CScCertificate) (sc : CSidechain) (u : CSidechainUndoData)
  : res (bool * CSidechain * CSidechainUndoData) :=
  if epochNumber cert =? lastTopQualityCertReferencedEpoch sc + 1 then
    let u1 := undo_cross sc u in
    let sc1 := set_pastView (lastTopQualityCertView sc) sc in
    res_bind (UpdateScFees (pastEpochTopQualityCertView sc1) sc1) (fun sc2 => Ok (true, sc2, u1))
  else if epochNumber cert =? lastTopQualityCertReferencedEpoch sc then
    if quality cert <=? lastTopQualityCertQuality sc then Ok (false, sc, u)
    else Ok (true, set_balance (balance sc + lastTopQualityCertBwtAmount sc) sc, u)
  else Ok (false, sc, u).

(** what happens to the entry and to the undo data; with success, the ceasing
    height before and the one after *)
Definition cert_update_entry (cert : CScCertificate) (u : CSidechainUndoData) (e : entry CSidechain)
  : res ((bool * CSidechainUndoData * Z * Z) * entry CSidechain) :=
  let currentSc := content e in
  let bwtTotalAmount := GetValueOfBackwardTransfers cert in
  let prevCeasingHeight := GetScheduledCeasingHeight currentSc in
  res_bind (cert_epoch_step cert currentSc u) (fun '(ok, sc1, u1) =>
  if negb ok then Ok ((false, u1, prevCeasingHeight, 0), mkEntry sc1 (flag e))
  else if balance sc1 <? bwtTotalAmount then Ok ((false, u1, prevCeasingHeight, 0), mkEntry sc1 (flag e))
  else
    let sc2 := set_balance (balance sc1 - bwtTotalAmount) sc1 in
    let u2 := undo_any sc2 u1 in
    res_bind (CertView_of cert (fixedParams sc2)) (fun view =>
    let sc3 := set_lastCert view (cert_hash cert) (epochNumber cert) (quality cert) bwtTotalAmount sc2 in
    Ok ((true, u2, prevCeasingHeight, GetScheduledCeasingHeight sc3), mkEntry sc3 DIRTY))).

Definition UpdateSidechain_cert (cert : CScCertificate) (blockUndo : CBlockUndo) : M C (bool * CBlockUndo) :=
  let scId := cert_scId cert in
  let u0 := undo_at scId blockUndo in
  massert (prevTopCommittedCertHash u0 =? 0) ;;;
  let blockUndo := set_undo scId u0 blockUndo in
  let* have := HaveSidechain scId in
  if negb have then ret (false, blockUndo)
  else
    let* '(ok, u, prevCeasingHeight, nextCeasingHeight) := modify_sc scId (cert_update_entry cert u0) in
    let blockUndo := set_undo scId u blockUndo in
    if negb ok then ret (false, blockUndo)
    else if negb (epochNumber cert =? prevTopCommittedCertReferencedEpoch u) then
      let* have_ev := HaveSidechainEvents prevCeasingHeight in
      if negb have_ev then ret (false, blockUndo)
      else
        modify_ev prevCeasingHeight (event_remove (erase_ceasing scId)) ;;;
        modify_ev nextCeasingHeight (event_add (add_ceasing scId)) ;;;
        ret (true, blockUndo)
    else ret (true, blockUndo).

(** ** Disconnecting a certificate *)
Definition cert_restore_entry (cert : CScCertificate) (u : CSidechainUndoData) (e : entry CSidechain)
  : res ((bool * Z * CSidechain) * entry CSidechain) :=
  let currentSc := content e in
  let bwtTotalAmount := GetValueOfBackwardTransfers cert in
  if negb (cert_hash cert =? lastTopQualityCertHash currentSc) then Err AssertFailed
  else
    let ceasingHeightToErase := GetScheduledCeasingHeight currentSc in
    let sc1 := set_balance (balance currentSc + bwtTotalAmount) currentSc in
    let finish (sc2 : CSidechain) :=
      if negb (has (contentBitMask u) ANY_EPOCH_CERT_DATA) then Err AssertFailed
      else
        let sc3 := set_lastCert (su_lastTopQualityCertView u) (prevTopCommittedCertHash u)
                     (prevTopCommittedCertReferencedEpoch u) (prevTopCommittedCertQuality u)
                     (prevTopCommittedCertBwtAmount u) sc2 in
        Ok ((true, ceasingHeightToErase, sc3), mkEntry sc3 DIRTY) in
    if epochNumber cert =? prevTopCommittedCertReferencedEpoch u + 1 then
      if negb (has (contentBitMask u) CROSS_EPOCH_CERT_DATA) then Err AssertFailed
      else finish (set_pastView (su_pastEpochTopQualityCertView u)
                    (set_fees (maxSizeOfScFeesContainers sc1) (su_scFees u) sc1))
    else if epochNumber cert =? prevTopCommittedCertReferencedEpoch u then
      if negb (prevTopCommittedCertQuality u <? quality cert) then Err AssertFailed
      else finish (set_balance (balance sc1 - prevTopCommittedCertBwtAmount u) sc1)
    else Ok ((false, ceasingHeightToErase, sc1), mkEntry sc1 (flag e)).

Definition RestoreSidechain (certToRevert : CScCertificate) (sidechainUndo : CSidechainUndoData) : M C bool :=
  let scId := cert_scId certToRevert in
  let* have := HaveSidechain scId in
  if negb have then ret false
  else
    let* '(ok, ceasingHeightToErase, currentSc) :=
      modify_sc scId (cert_restore_entry certToRevert sidechainUndo) in
    if negb ok then ret false
    else if negb (epochNumber certToRevert =? lastTopQualityCertReferencedEpoch currentSc) then
      let ceasingHeightToRestore := GetScheduledCeasingHeight currentSc in
      let* have_ev := HaveSidechainEvents ceasingHeightToErase in
      if negb have_ev then ret false
      else
        modify_ev ceasingHeightToErase (event_remove (erase_ceasing scId)) ;;;
        modify_ev ceasingHeightToRestore (event_add (add_ceasing scId)) ;;;
        ret true
    else ret true.

(** ** Backward transfers of superseded and of ceased sidechains' certificates *)

(** the undo information of a spent output, with the fields of the coins when
    they have nothing left *)
Definition spent_undo (o : CTxOut) (coins : CCoins) : CTxInUndo :=
  if vsize (vout coins) =? 0
  then mkTxInUndo o (fCoinBase coins) (to_u32 (nHeight coins)) (nVersion coins)
         (coins_nFirstBwtPos coins) (nBwtMaturityHeight coins)
  else TxInUndo_of o.

(** the loop of [NullifyBackwardTransfers] from position [pos]: [vout] shrinks as
    its end is spent, [fuel] bounds the iterations by its size *)
Fixpoint nullify_loop (fuel : nat) (pos : Z) (coins : CCoins) (nullifiedOuts : list CTxInUndo)
  : res (list CTxInUndo * CCoins) :=
  match fuel with
  | O => Ok (nullifiedOuts, coins)
  | S fuel' =>
      if to_u64 pos <? vsize (vout coins) then
        match vout coins !! Z.to_nat (to_u64 pos) with
        | None => Err out_of_bounds
        | Some o =>
            let coins1 := (Spend (to_u32 pos) coins).2 in
            nullify_loop fuel' (pos + 1) coins1 (nullifiedOuts ++ [spent_undo o coins1])
        end
      else Ok (nullifiedOuts, coins)
  end.

Definition nullify_coins (nullifiedOuts : list CTxInUndo) (coins : CCoins) : res (list CTxInUndo * CCoins) :=
  if nBwtMaturityHeight coins =? 0 then Err AssertFailed
  else nullify_loop (length (vout coins)) (coins_nFirstBwtPos coins) coins nullifiedOuts.

Definition NullifyBackwardTransfers (certHash : uint256) (nullifiedOuts : list CTxInUndo)
  : M C (list CTxInUndo) :=
  if certHash =? 0 then ret nullifiedOuts
  else
    let* have := HaveCoins certHash in
    if negb have then ret nullifiedOuts
    else with_coins certHash (nullify_coins nullifiedOuts).

(** [if (vout.size() < n) vout.resize(n)]; no vector has [2^63] elements *)
Definition grow (n : Z) (l : list CTxOut) : res (list CTxOut) :=
  if vsize l <? n then
    if 2 ^ 63 <=? n then Err (Exception "length_error")
    else Ok (l ++ repeat TxOut_SetNull (Z.to_nat n - length l))
  else Ok l.

(** [vout.at(pos) = o] *)
Definition vout_at_put (pos : Z) (o : CTxOut) (l : list CTxOut) : res (list CTxOut) :=
  if pos <? vsize l then Ok (<[Z.to_nat pos := o]> l) else Err out_of_bounds.

(** the fields of the coins an output is restored to, and whether that is clean *)
Definition undo_header (undo : CTxInUndo) (fClean : bool) (coins : CCoins) : bool * CCoins :=
  if negb (u_nHeight undo =? 0)
  then (fClean, mkCoins (u_fCoinBase undo) (vout coins) (to_i32 (u_nHeight undo)) (u_nVersion undo)
                  (u_nFirstBwtPos undo) (u_nBwtMaturityHeight undo))
  else (fClean && negb (IsPruned coins), coins).

(** [if (vout.size() < size) vout.resize(size); vout[pos] = o], after the check that
    the position is free *)
Definition put_output (pos size : Z) (o : CTxOut) (fClean : bool) (coins : CCoins) : res (bool * CCoins) :=
  let fClean1 := fClean && negb (IsAvailable coins (to_u32 pos)) in
  res_bind (grow size (vout coins)) (fun v =>
  res_bind (vout_at_put pos o v) (fun v' =>
  Ok (fClean1, set_vout v' coins))).

(** one iteration of [RestoreBackwardTransfers]; the sum [nFirstBwtPos + idx] is
    a [size_t] *)
Definition restore_one (idx : Z) (undo : CTxInUndo) (fClean : bool) (coins : CCoins) : res (bool * CCoins) :=
  let '(fClean1, coins1) := undo_header undo fClean coins in
  let pos := to_u64 (coins_nFirstBwtPos coins1 + idx) in
  put_output pos (to_u64 (coins_nFirstBwtPos coins1 + idx + 1)) (u_txout undo) fClean1 coins1.

(** from the last one to the first: [n] are left *)
Fixpoint restore_loop (n : nat) (outsToRestore : list CTxInUndo) (fClean : bool) (coins : CCoins)
  : res (bool * CCoins) :=
  match n with
  | O => Ok (fClean, coins)
  | S idx =>
      match outsToRestore !! idx with
      | None => Err out_of_bounds
      | Some undo =>
          res_bind (restore_one (Z.of_nat idx) undo fClean coins) (fun '(fClean', coins') =>
          restore_loop idx outsToRestore fClean' coins')
      end
  end.

Definition RestoreBackwardTransfers (certHash : uint256) (outsToRestore : list CTxInUndo) : M C bool :=
  with_coins certHash (restore_loop (length outsToRestore) outsToRestore true).

(** ** Events of a height *)
Definition undo_matured (amount : Z) (u : CSidechainUndoData) : CSidechainUndoData :=
  mkScUndo (sidechainUndoDataVersion u) (Z.lor (contentBitMask u) MATURED_AMOUNTS) amount
    (su_pastEpochTopQualityCertView u) (su_scFees u) (prevTopCommittedCertHash u)
    (prevTopCommittedCertReferencedEpoch u) (prevTopCommittedCertQuality u)
    (prevTopCommittedCertBwtAmount u) (su_lastTopQualityCertView u) (lowQualityBwts u) (ceasedBwts u).

Definition undo_ceased (bwts : list CTxInUndo) (u : CSidechainUndoData) : CSidechainUndoData :=
  mkScUndo (sidechainUndoDataVersion u) (Z.lor (contentBitMask u) CEASED_CERT_DATA) (appliedMaturedAmount u)
    (su_pastEpochTopQualityCertView u) (su_scFees u) (prevTopCommittedCertHash u)
    (prevTopCommittedCertReferencedEpoch u) (prevTopCommittedCertQuality u)
    (prevTopCommittedCertBwtAmount u) (su_lastTopQualityCertView u) (lowQualityBwts u) bwts.

Definition mature_entry (height : Z) (e : entry CSidechain) : res (Z * entry CSidechain) :=
  let sc := content e in
  match mImmatureAmounts sc !! height with
  | None => Err AssertFailed
  | Some amount =>
      Ok (amount, mkEntry (set_immature (delete height (mImmatureAmounts sc))
                            (set_balance (balance sc + amount) sc)) DIRTY)
  end.

Definition handle_maturing (height : Z) (blockUndo : CBlockUndo) (scId : uint256) : M C (option CBlockUndo) :=
  let* have := HaveSidechain scId in
  massert have ;;;
  let* amount := modify_sc scId (mature_entry height) in
  ret (Some (set_undo scId (undo_matured amount (undo_at scId blockUndo)) blockUndo)).

Definition handle_ceasing (blockUndo : CBlockUndo) (scId : uint256) : M C (option CBlockUndo) :=
  let* o := GetSidechain scId in
  match o with
  | None => fail AssertFailed
  | Some sidechain =>
      let u := undo_ceased (ceasedBwts (undo_at scId blockUndo)) (undo_at scId blockUndo) in
      if lastTopQualityCertReferencedEpoch sidechain =? EPOCH_NULL then
        massert (lastTopQualityCertHash sidechain =? 0) ;;;
        ret (Some (set_undo scId u blockUndo))
      else
        let* bwts := NullifyBackwardTransfers (lastTopQualityCertHash sidechain) (ceasedBwts u) in
        ret (Some (set_undo scId (undo_ceased bwts u) blockUndo))
  end.

(** without the list of notifications [pCertsStateInfo], which may be null *)
Definition HandleSidechainEvents (height : Z) (blockUndo : CBlockUndo) : M C (bool * CBlockUndo) :=
  let* have := HaveSidechainEvents height in
  if negb have then ret (true, blockUndo)
  else
    let* o := GetSidechainEvents height in
    let scEvents := default Events_empty o in
    let* r1 := for_acc (set_iter (maturingScs scEvents)) blockUndo (handle_maturing height) in
    let bu1 := default blockUndo r1 in
    let* r2 := for_acc (set_iter (ceasingScs scEvents)) bu1 handle_ceasing in
    modify_ev height (fun e => Ok (tt, mkEntry (content e) ERASED)) ;;;
    ret (true, default bu1 r2).

Definition revert_matured_entry (height amountToRestore : Z) (e : entry CSidechain)
  : res (bool * entry CSidechain) :=
  if 0 <? amountToRestore then
    if balance (content e) <? amountToRestore then Ok (false, e)
    else
      let sc1 := add_immature height amountToRestore (content e) in
      Ok (true, mkEntry (set_balance (balance sc1 - amountToRestore) sc1) DIRTY)
  else Ok (true, e).

Definition revert_matured (height : Z) (ev : CSidechainEvents) (p : Z * CSidechainUndoData)
  : M C (option CSidechainEvents) :=
  if negb (has (contentBitMask p.2) MATURED_AMOUNTS) then ret (Some ev)
  else
    let* have := HaveSidechain p.1 in
    if negb have then ret None
    else
      let* ok := modify_sc p.1 (revert_matured_entry height (appliedMaturedAmount p.2)) in
      if negb ok then ret None else ret (Some (add_maturing p.1 ev)).

Definition revert_ceased (ev : CSidechainEvents) (p : Z * CSidechainUndoData) : M C (option CSidechainEvents) :=
  if negb (has (contentBitMask p.2) CEASED_CERT_DATA) then ret (Some ev)
  else
    let* o := AccessSidechain p.1 in
    match o with
    | None => fail (Exception "null pointer")
    | Some sc =>
        if negb (lastTopQualityCertReferencedEpoch sc =? EPOCH_NULL) then
          let* ok := RestoreBackwardTransfers (lastTopQualityCertHash sc) (ceasedBwts p.2) in
          if negb ok then ret None else ret (Some (add_ceasing p.1 ev))
        else ret (Some (add_ceasing p.1 ev))
    end.

Definition RevertSidechainEvents (blockUndo : CBlockUndo) (height : Z) : M C bool :=
  let* have := HaveSidechainEvents height in
  if have then ret false
  else
    let l := map_iter (scUndoDatabyScId blockUndo) in
    let* r1 := for_acc l Events_empty (revert_matured height) in
    match r1 with
    | None => ret false
    | Some ev1 =>
        let* r2 := for_acc l ev1 revert_ceased in
        match r2 with
        | None => ret false
        | Some recreatedScEvent =>
            (if negb (Events_IsNull recreatedScEvent)
             then modify_ev height (fun _ => Ok (tt, mkEntry recreatedScEvent FRESH))
             else ret tt) ;;;
            ret true
        end
    end.
End Operations.
