(* ===== verification/ScApply.v ===== *)
(** * Sidechains in the ledger: what a block or the mempool may add

    The checks of [coins.cpp] that say whether a transaction or a certificate
    applies to the current state: [GetSidechainState], [GetActiveCertView],
    [CheckCertTiming], [CheckQuality], the checks of the sidechain fees,
    [IsCertApplicableToState] and [IsScTxApplicableToState]. The block index
    they look heights up in is the class [ChainIndex]. *)

From stdpp Require Import base numbers list strings gmap fin_maps sets option.
From Stdlib Require Import ZArith Lia.
From S2P Require Import Prelude.
From S2P Require Import Amount.
From S2P Require Import Serialize.
From S2P Require Import ScTypes.
From S2P Require Import Primitives.
From S2P Require Import Sidechain.
From S2P Require Import Coins.
From S2P Require Import CoinsSer.
From S2P Require Import Undo.
From S2P Require Import Merkle.
From S2P Require Import View.
From S2P Require Import ViewLaws.
From S2P Require Import TopLaws.
From S2P Require Import ScOps.
Open Scope Z_scope.
Open Scope zen_scope.

(** ** The block index *)
Record CBlockIndex := mkBlockIndex {
  bi_nHeight : Z;
  bi_scCumTreeHash : CFieldElement }.

(** the globals [mapBlockIndex] and [chainActive] of [main.cpp] *)
Class ChainIndex := {
  mapBlockIndex : uint256 -> option CBlockIndex;
  vChain : list CBlockIndex }.

(** [CChain::Height] and [CChain::operator[]] *)
Definition chain_Height `{ChainIndex} : Z := vsize vChain - 1.

Definition chainActive_at `{ChainIndex} (nHeight : Z) : option CBlockIndex :=
  if (nHeight <? 0) || (chain_Height <? nHeight) then None else vChain !! Z.to_nat nHeight.

Definition cum_hash_at `{ChainIndex} (nHeight : Z) : option CFieldElement :=
  bi_scCumTreeHash <$> chainActive_at nHeight.

(** a loop whose body may leave the function with a result *)
Fixpoint for_ret {S A B R} (l : list A) (acc : B) (body : B -> A -> M S (R + B)) : M S (R + B) :=
  match l with
  | [] => ret (inr acc)
  | x :: l' =>
      let* r := body acc x in
      match r with inl v => ret (inl v) | inr acc' => for_ret l' acc' body end
  end.

(** the code an applicability check returns, and whether it sets [*banSenderNode] *)
Definition verdict : Type := VCode * bool.

Section Applicability.
  Context {V : Type} `{CCoinsView V} `{ZendooLib} `{NodeConfig} `{ChainIndex}.
Local Notation C := (CCoinsViewCache V).

(** a best block that is not in the index is a null pointer *)
Definition GetHeight : M C Z :=
  let* b := GetBestBlock in
  match mapBlockIndex b with
  | None => fail (Exception "null pointer")
  | Some pindexPrev => ret (bi_nHeight pindexPrev)
  end.

Definition GetSidechainState (scId : uint256) : M C ScState :=
  let* o := GetSidechain scId in
  match o with
  | None => ret NOT_APPLICABLE
  | Some sidechain =>
      if negb (isCreationConfirmed sidechain) then ret UNCONFIRMED
      else
        let* h := GetHeight in
        if GetScheduledCeasingHeight sidechain <=? h then ret CEASED else ret ALIVE
  end.

Definition GetActiveCertView (scId : uint256) : M C CScCertificateView :=
  let* o := AccessSidechain scId in
  match o with
  | None => ret CertView_null
  | Some pSidechain =>
      let* s1 := GetSidechainState scId in
      if decide (s1 = CEASED) then ret (pastEpochTopQualityCertView pSidechain)
      else
        let* s2 := GetSidechainState scId in
        if decide (s2 = UNCONFIRMED) then ret (lastTopQualityCertView pSidechain)
        else
          let* h := GetHeight in
          let certReferencedEpoch :=
            EpochFor pSidechain (h + 1 - GetCertSubmissionWindowLength pSidechain) - 1 in
          if lastTopQualityCertReferencedEpoch pSidechain =? certReferencedEpoch
          then ret (lastTopQualityCertView pSidechain)
          else if lastTopQualityCertReferencedEpoch pSidechain - 1 =? certReferencedEpoch
          then ret (pastEpochTopQualityCertView pSidechain)
          else fail AssertFailed
  end.

Definition GetCeasingCumTreeHash (scId : uint256) : M C CFieldElement :=
  let* o := AccessSidechain scId in
  match o with
  | None => ret []
  | Some pSidechain => ret (default [] (Sidechain_GetCeasingCumTreeHash cum_hash_at pSidechain))
  end.

Definition CheckScTxTiming (scId : uint256) : M C bool :=
  let* s := GetSidechainState scId in
  ret (bool_decide (s = ALIVE) || bool_decide (s = UNCONFIRMED)).

Definition CheckCertTiming (scId : uint256) (certEpoch : Z) : M C bool :=
  let* o := GetSidechain scId in
  match o with
  | None => ret false
  | Some sidechain =>
      let* s := GetSidechainState scId in
      if negb (bool_decide (s = ALIVE)) then ret false
      else if negb (certEpoch =? lastTopQualityCertReferencedEpoch sidechain)
              && negb (certEpoch =? lastTopQualityCertReferencedEpoch sidechain + 1) then ret false
      else
        let certWindowStartHeight := GetCertSubmissionWindowStart sidechain certEpoch in
        let certWindowEndHeight := GetCertSubmissionWindowEnd sidechain certEpoch in
        let* h := GetHeight in
        let inclusionHeight := h + 1 in
        if (inclusionHeight <? certWindowStartHeight) || (certWindowEndHeight <? inclusionHeight)
        then ret false else ret true
  end.

Definition CheckEndEpochCumScTxCommTreeRoot (sidechain : CSidechain) (epochNumber : Z)
    (endEpochCumScTxCommTreeRoot : CFieldElement) : VCode :=
  let endEpochHeight := GetEndHeightForEpoch sidechain epochNumber in
  match chainActive_at endEpochHeight with
  | None => INVALID
  | Some pblockindex =>
      if negb (bool_decide (bi_scCumTreeHash pblockindex = endEpochCumScTxCommTreeRoot))
      then SC_CUM_COMM_TREE else OK
  end.

Definition CheckQuality (cert : CScCertificate) : M C bool :=
  let* o := GetSidechain (cert_scId cert) in
  match o with
  | Some info =>
      ret (negb (negb (lastTopQualityCertHash info =? cert_hash cert)
                 && (lastTopQualityCertReferencedEpoch info =? epochNumber cert)
                 && (quality cert <=? lastTopQualityCertQuality info)))
  | None => ret true
  end.

Definition IsCertApplicableToState (cert : CScCertificate) : M C verdict :=
  let* o := GetSidechain (cert_scId cert) in
  match o with
  | None => ret (SCID_NOT_FOUND, false)
  | Some sidechain =>
      let* timing := CheckCertTiming (cert_scId cert) (epochNumber cert) in
      if negb timing then ret (INVALID, false)
      else
        let* custom := lift (checkCertCustomFields sidechain cert) in
        if negb custom then ret (INVALID, true)
        else
          let r := CheckEndEpochCumScTxCommTreeRoot sidechain (epochNumber cert)
                     (endEpochCumScTxCommTreeRoot cert) in
          if negb (bool_decide (r = OK)) then ret (r, false)
          else
            let* q := CheckQuality cert in
            if negb q then ret (INVALID, false)
            else
              let bwtTotalAmount := GetValueOfBackwardTransfers cert in
              let scBalance :=
                if epochNumber cert =? lastTopQualityCertReferencedEpoch sidechain
                then balance sidechain + lastTopQualityCertBwtAmount sidechain
                else balance sidechain in
              if scBalance <? bwtTotalAmount then ret (INSUFFICIENT_SCID_FUNDS, false)
              else if MAX_PROOF_PLUS_VK_SIZE <? vsize (wCertVk (fixedParams sidechain)) + vsize (cert_scProof cert)
              then ret (INVALID, true)
              else ret (OK, false)
  end.

(** ** The fees asked by the sidechain *)
Definition IsFtScFeeApplicable (ftOutput : CTxForwardTransferOut) : M C bool :=
  let* certView := GetActiveCertView (ft_scId ftOutput) in
  ret (cv_forwardTransferScFee certView <? ft_nValue ftOutput).

Definition CheckMinimumFtScFee (ftOutput : CTxForwardTransferOut) : M C bool :=
  let* o := AccessSidechain (ft_scId ftOutput) in
  match o with
  | None => ret false
  | Some pSidechain =>
      let* s := GetSidechainState (ft_scId ftOutput) in
      if negb (bool_decide (s = ALIVE)) then ret false
      else
        let* minVal := lift (GetMinFtScFee pSidechain) in
        ret (minVal <? ft_nValue ftOutput)
  end.

Definition IsMbtrScFeeApplicable (mbtrOutput : CBwtRequestOut) : M C bool :=
  let* certView := GetActiveCertView (mbtr_scId mbtrOutput) in
  ret (cv_mainchainBackwardTransferRequestScFee certView <=? scFee mbtrOutput).

Definition CheckMinimumMbtrScFee (mbtrOutput : CBwtRequestOut) : M C bool :=
  let* o := AccessSidechain (mbtr_scId mbtrOutput) in
  match o with
  | None => ret false
  | Some pSidechain =>
      let* s := GetSidechainState (mbtr_scId mbtrOutput) in
      if negb (bool_decide (s = ALIVE)) then ret false
      else
        let* minVal := lift (GetMinMbtrScFee pSidechain) in
        ret (minVal <=? scFee mbtrOutput)
  end.

(** ** Transactions *)
Definition applicable_creation (_ : unit) (sc : CTxScCreationOut) : M C (verdict + unit) :=
  let* have := HaveSidechain (GetScId sc) in
  if have then ret (inl (INVALID, false)) else ret (inr tt).

Definition applicable_ft (scFeeCheckType : ScFeeCheckFlag) (_ : unit) (ft : CTxForwardTransferOut)
  : M C (verdict + unit) :=
  let* timing := CheckScTxTiming (ft_scId ft) in
  if negb timing then ret (inl (INVALID, false))
  else
    let* fee := IsFtScFeeApplicable ft in
    if negb fee then
      match scFeeCheckType with
      | MINIMUM_IN_A_RANGE =>
          let* ok := CheckMinimumFtScFee ft in
          if negb ok then ret (inl (INVALID, false)) else ret (inr tt)
      | LATEST_VALUE => ret (inl (INVALID, false))
      end
    else ret (inr tt).

Definition applicable_mbtr (scFeeCheckType : ScFeeCheckFlag) (_ : unit) (mbtr : CBwtRequestOut)
  : M C (verdict + unit) :=
  let* timing := CheckScTxTiming (mbtr_scId mbtr) in
  if negb timing then ret (inl (INVALID, false))
  else
    let* o := GetSidechain (mbtr_scId mbtr) in
    match o with
    | None => ret (inl (INVALID, false))
    | Some sidechain =>
        let len := mainchainBackwardTransferRequestDataLength (fixedParams sidechain) in
        if negb (vsize (vScRequestData mbtr) =? len) then ret (inl (INVALID, true))
        else if len =? 0 then ret (inl (INVALID, true))
        else
          let* fee := IsMbtrScFeeApplicable mbtr in
          if negb fee then
            match scFeeCheckType with
            | MINIMUM_IN_A_RANGE =>
                let* ok := CheckMinimumMbtrScFee mbtr in
                if negb ok then ret (inl (INVALID, false)) else ret (inr tt)
            | LATEST_VALUE => ret (inl (INVALID, false))
            end
          else ret (inr tt)
    end.

(** [cswTotalBalances] is what the inputs seen so far withdraw from each sidechain *)
Definition applicable_csw (cswTotalBalances : gmap Z CAmount) (csw : CTxCeasedSidechainWithdrawalInput)
  : M C (verdict + gmap Z CAmount) :=
  let scId := csw_scId csw in
  let* o := GetSidechain scId in
  match o with
  | None => ret (inl (SCID_NOT_FOUND, false))
  | Some sidechain =>
      let* s := GetSidechainState scId in
      if negb (bool_decide (s = CEASED)) then ret (inl (INVALID, false))
      else
        match wCeasedVk (fixedParams sidechain) with
        | None => ret (inl (INVALID, true))
        | Some vk =>
            if MAX_PROOF_PLUS_VK_SIZE <? vsize vk + vsize (csw_scProof csw) then ret (inl (INVALID, true))
            else
              let total := default 0 (cswTotalBalances !! scId) + csw_nValue csw in
              let totals := <[scId := total]> cswTotalBalances in
              if balance sidechain <? total then ret (inl (INSUFFICIENT_SCID_FUNDS, false))
              else
                let* used := HaveCswNullifier scId (csw_nullifier csw) in
                if used then ret (inl (INVALID, false))
                else
                  let* certView := GetActiveCertView scId in
                  if negb (bool_decide (certDataHash certView = csw_actCertDataHash csw))
                  then ret (inl (ACTIVE_CERT_DATA_HASH, false))
                  else
                    let* ceasing := GetCeasingCumTreeHash scId in
                    if negb (bool_decide (ceasing = csw_ceasingCumScTxCommTree csw))
                    then ret (inl (SC_CUM_COMM_TREE, false))
                    else ret (inr totals)
        end
  end.

Definition IsScTxApplicableToState (tx : CTransaction) (scFeeCheckType : ScFeeCheckFlag) : M C verdict :=
  if IsCoinBase tx then ret (OK, false)
  else
    let* r1 := for_ret (vsc_ccout tx) tt applicable_creation in
    match r1 with
    | inl v => ret v
    | inr _ =>
        let* r2 := for_ret (vft_ccout tx) tt (applicable_ft scFeeCheckType) in
        match r2 with
        | inl v => ret v
        | inr _ =>
            let* r3 := for_ret (vmbtr_out tx) tt (applicable_mbtr scFeeCheckType) in
            match r3 with
            | inl v => ret v
            | inr _ =>
                let* r4 := for_ret (vcsw_ccin tx) ∅ applicable_csw in
                match r4 with inl v => ret v | inr _ => ret (OK, false) end
            end
        end
    end.
End Applicability.
