(* ===== verification/ScRound.v ===== *)
(** * Connecting and disconnecting the sidechain part of a block's transactions

    The transactions of a block are connected with [UpdateSidechain] in order and
    disconnected with [RevertTxOutputs] in the opposite order.  Within a
    transaction the order of disconnection is not the opposite one, and the
    events scheduled for the maturity height forget a sidechain with the first
    of its outputs that is removed; the proof goes through a pure description of
    what each output does ([conn]) and a relation that allows for the second. *)

From stdpp Require Import base numbers list strings gmap fin_maps sets option.
From Stdlib Require Import ZArith Lia.
From S2P Require Import Prelude.
From S2P Require Import Amount.
From S2P Require Import Serialize.
From S2P Require Import ScTypes.
From S2P Require Import Primitives.
From S2P Require Import Sidechain.
From S2P Require Import Coins.
From S2P Require Import CoinsSer.
From S2P Require Import Undo.
From S2P Require Import Merkle.
From S2P Require Import View.
From S2P Require Import ViewLaws.
From S2P Require Import SampleLedger.
From S2P Require Import TopLaws.
From S2P Require Import ScOps.
Open Scope Z_scope.
Open Scope zen_scope.

(** an output to a sidechain: its identifier and its value *)
#[local] Instance pair_out : CrosschainOut (Z * Z) :=
  { GetScValue := snd; AllowedZeroScValue := fun _ => false; GetScId := fst }.

Definition out_of {T} `{CrosschainOut T} (o : T) : Z * Z := (GetScId o, GetScValue o).

(** what one input or output of a transaction does to the sidechains *)
Inductive item :=
| ICsw (w : CTxCeasedSidechainWithdrawalInput)
| ICreate (txHash : uint256) (cr : CTxScCreationOut)
| IOut (p : Z * Z).

Definition cls (x : item) : nat := match x with ICsw _ => 0 | ICreate _ _ => 1 | IOut _ => 2 end.

(** amounts are positive; the amount of a withdrawal does not matter *)
Definition pos_item (x : item) : bool :=
  match x with ICsw _ => true | ICreate _ cr => 0 <? sc_nValue cr | IOut p => 0 <? p.2 end.

Definition groups (tx : CTransaction) : list (list item) :=
  [ map ICsw (vcsw_ccin tx); map (ICreate (tx_hash tx)) (vsc_ccout tx);
    map (fun o => IOut (out_of o)) (vft_ccout tx); map (fun o => IOut (out_of o)) (vmbtr_out tx) ].

Definition upd_event (k : Z) (f : CSidechainEvents -> CSidechainEvents) (m : gmap Z CSidechainEvents)
  : gmap Z CSidechainEvents := <[k := f (default Events_empty (m !! k))]> m.

Definition rem_event (k : Z) (f : CSidechainEvents -> CSidechainEvents) (m : gmap Z CSidechainEvents)
  : gmap Z CSidechainEvents :=
  let e := f (default Events_empty (m !! k)) in if Events_IsNull e then delete k m else <[k := e]> m.

Definition SE : Type := gmap Z CSidechain * gmap Z CSidechainEvents.

Section Pure.
  Context `{NodeConfig} (h : Z).
Local Notation MH := (h + getScCoinsMaturity).

Definition rec_of (txHash : uint256) (cr : CTxScCreationOut) : CSidechain :=
  match create_sidechain cr txHash h MH CSidechain_null with Ok s => s | Err _ => CSidechain_null end.

Definition cease_of (txHash : uint256) (cr : CTxScCreationOut) : Z := GetScheduledCeasingHeight (rec_of txHash cr).

Definition conn (x : item) (se : SE) : SE :=
  match x with
  | ICsw w => (alter (fun s => set_balance (balance s - csw_nValue w) s) (csw_scId w) se.1, se.2)
  | ICreate txHash cr =>
      (<[generatedScId cr := rec_of txHash cr]> se.1,
       upd_event (cease_of txHash cr) (add_ceasing (generatedScId cr))
         (upd_event MH (add_maturing (generatedScId cr)) se.2))
  | IOut p => (alter (add_immature MH p.2) p.1 se.1, upd_event MH (add_maturing p.1) se.2)
  end.

Definition enabled (x : item) (S : gmap Z CSidechain) : Prop :=
  match x with
  | ICsw w => is_Some (S !! csw_scId w)
  | ICreate txHash cr => S !! generatedScId cr = None
                         /\ create_sidechain cr txHash h MH CSidechain_null = Ok (rec_of txHash cr)
  | IOut p => is_Some (S !! p.1)
  end.

Definition conn_all (l : list item) (se : SE) : SE := foldl (fun se x => conn x se) se l.

Fixpoint enabled_all (l : list item) (se : SE) : Prop :=
  match l with [] => True | x :: l' => enabled x se.1 /\ enabled_all l' (conn x se) end.

(** What the ledger's state satisfies before a block: amounts waiting for the
    maturity height are positive, no height has an empty set of events, and only
    known sidechains are scheduled to cease. *)
Definition Inv (se : SE) : Prop :=
  map_Forall (fun _ s => forall a, mImmatureAmounts s !! MH = Some a -> 0 < a) se.1
  /\ map_Forall (fun _ e => Events_IsNull e = false) se.2
  /\ map_Forall (fun _ e => set_Forall (fun id => is_Some (se.1 !! id)) (ceasingScs e)) se.2.

(** The events of a state that is being disconnected, against those of the exact
    one: equal, but that the maturity height may have lost maturing sidechains. *)
Definition fewer (a x : gmap Z CSidechainEvents) : Prop :=
  (forall k, k <> MH -> a !! k = x !! k)
  /\ let ex := default Events_empty (x !! MH) in
     match a !! MH with
     | Some ea => Events_IsNull ea = false /\ sidechainEventsVersion ea = sidechainEventsVersion ex
                  /\ ceasingScs ea = ceasingScs ex /\ maturingScs ea ⊆ maturingScs ex
     | None => ceasingScs ex = ∅
     end.

(** ** Sets of events *)
Lemma events_eq a b :
  sidechainEventsVersion a = sidechainEventsVersion b -> ceasingScs a = ceasingScs b ->
  maturingScs a = maturingScs b -> a = b.
Proof. destruct a, b. cbn. by intros -> -> ->. Qed.

Lemma Events_IsNull_spec e : Events_IsNull e = true <-> ceasingScs e = ∅ /\ maturingScs e = ∅.
Proof. unfold Events_IsNull. rewrite andb_true_iff, !bool_decide_eq_true. done. Qed.

Lemma upd_event_comm k1 k2 f g m :
  (forall e, f (g e) = g (f e)) ->
  upd_event k1 f (upd_event k2 g m) = upd_event k2 g (upd_event k1 f m).
Proof.
  intros Hfg. unfold upd_event. destruct (decide (k1 = k2)) as [->|Hne].
  - rewrite !lookup_insert_eq, !insert_insert_eq. cbn. by rewrite Hfg.
  - rewrite !lookup_insert_ne by done. by rewrite insert_insert_ne.
Qed.

Lemma add_maturing_comm a b e : add_maturing a (add_maturing b e) = add_maturing b (add_maturing a e).
Proof. apply events_eq; try done. cbn. set_solver. Qed.

Lemma add_ceasing_comm a b e : add_ceasing a (add_ceasing b e) = add_ceasing b (add_ceasing a e).
Proof. apply events_eq; try done. cbn. set_solver. Qed.

Lemma add_mixed_comm a b e : add_ceasing a (add_maturing b e) = add_maturing b (add_ceasing a e).
Proof. done. Qed.


(** ** Two items of the same kind commute *)
Lemma alter_comm {A} (f g : A -> A) i j (m : gmap Z A) :
  (forall s, f (g s) = g (f s)) -> alter f i (alter g j m) = alter g j (alter f i m).
Proof.
  intros Hfg. destruct (decide (i = j)) as [->|]; [|by rewrite alter_alter, decide_False].
  apply map_eq. intros k. destruct (decide (k = j)) as [->|].
  - rewrite !lookup_alter_eq. destruct (m !! j); cbn; [by rewrite Hfg|done].
  - by rewrite !lookup_alter_ne.
Qed.

Lemma add_immature_comm k v w s : add_immature k v (add_immature k w s) = add_immature k w (add_immature k v s).
Proof.
  unfold add_immature, set_immature. cbn. rewrite !lookup_insert_eq, !insert_insert_eq. cbn. do 2 f_equal. lia.
Qed.

Lemma conn_swap x y se :
  cls x = cls y -> enabled x se.1 -> enabled y (conn x se).1 ->
  enabled y se.1 /\ enabled x (conn y se).1 /\ conn y (conn x se) = conn x (conn y se).
Proof.
  destruct x as [w|th cr|p], y as [w'|th' cr'|p']; try done; intros _; cbn; intros Hx Hy.
  - split; [by apply lookup_alter_is_Some in Hy|]. split; [by apply lookup_alter_is_Some|].
    f_equal. apply alter_comm. intros s. unfold set_balance. cbn. f_equal. lia.
  - destruct Hx as [Hx Cx], Hy as [Hy Cy]. assert (Hne : generatedScId cr <> generatedScId cr').
    { intros E. by rewrite E, lookup_insert_eq in Hy. }
    rewrite !lookup_insert_ne by done. rewrite lookup_insert_ne in Hy by done. split_and!; try done.
    f_equal; [by apply insert_insert_ne|].
    set (a := generatedScId cr) in *. set (b := generatedScId cr') in *.
    rewrite (upd_event_comm MH (cease_of th cr) (add_maturing b) (add_ceasing a)) by done.
    rewrite (upd_event_comm MH MH (add_maturing b) (add_maturing a)) by apply add_maturing_comm.
    rewrite (upd_event_comm (cease_of th' cr') (cease_of th cr) (add_ceasing b) (add_ceasing a))
      by apply add_ceasing_comm.
    by rewrite (upd_event_comm (cease_of th' cr') MH (add_ceasing b) (add_maturing a)) by done.
  - split; [by apply lookup_alter_is_Some in Hy|]. split; [by apply lookup_alter_is_Some|].
    f_equal; [apply alter_comm; intros; apply add_immature_comm|]. apply upd_event_comm, add_maturing_comm.
Qed.

(** The first item of a group can be connected last. *)
Lemma conn_bubble x k se :
  Forall (fun y => cls x = cls y) k -> enabled_all (x :: k) se ->
  enabled_all k se /\ enabled x (conn_all k se).1 /\ conn_all (x :: k) se = conn x (conn_all k se).
Proof.
  revert se. induction k as [|y k IH]; intros se Hk [Hx Ha]; [done|].
  apply list.Forall_cons in Hk as [Hxy Hk]. destruct Ha as [Hy Ha].
  destruct (conn_swap x y se Hxy Hx Hy) as (Hy' & Hx' & Hc).
  destruct (IH (conn y se) Hk) as (A1 & A2 & A3); [cbn [enabled_all]; by rewrite <- Hc|].
  split; [done|]. split; [done|]. unfold conn_all in *. cbn [foldl] in *. by rewrite Hc.
Qed.

Lemma conn_all_app l k se : conn_all (l ++ k) se = conn_all k (conn_all l se).
Proof. apply foldl_app. Qed.

Lemma enabled_all_app l k se : enabled_all (l ++ k) se <-> enabled_all l se /\ enabled_all k (conn_all l se).
Proof.
  revert se. induction l as [|x l IH]; intros se; cbn; [naive_solver|]. rewrite IH. naive_solver.
Qed.

(** ** The invariant *)
Lemma default_inv (E : gmap Z CSidechainEvents) (P : CSidechainEvents -> Prop) k :
  map_Forall (fun _ e => P e) E -> P Events_empty -> P (default Events_empty (E !! k)).
Proof. intros HE Hn. destruct (E !! k) eqn:Ek; [by eapply HE|done]. Qed.

Lemma upd_event_Forall (E : gmap Z CSidechainEvents) (P : CSidechainEvents -> Prop) k f :
  map_Forall (fun _ e => P e) E -> P (f (default Events_empty (E !! k))) ->
  map_Forall (fun _ e => P e) (upd_event k f E).
Proof. intros HE Hf. by apply map_Forall_insert_2. Qed.

Lemma add_not_null_m id e : Events_IsNull (add_maturing id e) = false.
Proof. apply not_true_iff_false. rewrite Events_IsNull_spec. cbn. set_solver. Qed.

Lemma add_not_null_c id e : Events_IsNull (add_ceasing id e) = false.
Proof. apply not_true_iff_false. rewrite Events_IsNull_spec. cbn. set_solver. Qed.

Lemma rec_of_immature th cr :
  create_sidechain cr th h MH CSidechain_null = Ok (rec_of th cr) ->
  mImmatureAmounts (rec_of th cr) = {[MH := sc_nValue cr]} /\ balance (rec_of th cr) = 0.
Proof.
  unfold rec_of, create_sidechain, InitScFees. cbn. unfold getMaxSizeOfScFeesContainers.
  destruct (negb _); [done|]. done.
Qed.

Lemma Inv_conn x se : pos_item x = true -> enabled x se.1 -> Inv se -> Inv (conn x se).
Proof.
  intros Hp He (I1 & I2 & I3). pose proof (fun k => default_inv _ (fun e => set_Forall
    (fun id => is_Some (se.1 !! id)) (ceasingScs e)) k I3 (set_Forall_empty _)) as D3.
  assert (Hmono : forall (S' : gmap Z CSidechain) (C : gset Z), (forall id, is_Some (se.1 !! id) -> is_Some (S' !! id)) ->
    set_Forall (fun id => is_Some (se.1 !! id)) C -> set_Forall (fun id => is_Some (S' !! id)) C)
    by (intros S' C HS HC id Hid; apply HS, HC, Hid).
  destruct x as [w|th cr|p]; unfold Inv; cbn [conn fst snd enabled pos_item] in *.
  - split; [|split; [done|]].
    + intros i s Hs a Ha. apply lookup_alter_Some in Hs as [(_ & s0 & Hs & ->)|[_ Hs]]; by eapply I1.
    + eapply map_Forall_impl; [exact I3|]. intros k e. apply Hmono. intros id. apply lookup_alter_is_Some.
  - destruct He as [Hn Hc]. apply rec_of_immature in Hc as [Hm Hb]. zbool. split; [|split].
    + apply map_Forall_insert_2; [|done]. rewrite Hm. intros a Ha. by simplify_map_eq.
    + apply upd_event_Forall; [apply upd_event_Forall; [done|]|]; [apply add_not_null_m|apply add_not_null_c].
    + set (S' := <[generatedScId cr:=rec_of th cr]> se.1).
      assert (HS : forall id, is_Some (se.1 !! id) -> is_Some (S' !! id)) by (intros id; apply is_Some_insert).
      pose proof (fun k => Hmono S' _ HS (D3 k)) as D3'.
      assert (I3' : map_Forall (fun _ e => set_Forall (fun id => is_Some (S' !! id)) (ceasingScs e)) se.2)
        by (eapply map_Forall_impl; [exact I3|]; intros k e; by apply Hmono).
      assert (I4 : map_Forall (fun _ e => set_Forall (fun id => is_Some (S' !! id)) (ceasingScs e))
        (upd_event MH (add_maturing (generatedScId cr)) se.2)) by (apply upd_event_Forall; [done|apply D3']).
      apply upd_event_Forall; [done|]. cbn. apply set_Forall_union.
      * apply set_Forall_singleton. unfold S'. by rewrite lookup_insert_eq.
      * by apply (default_inv _ (fun e => set_Forall (fun id => is_Some (S' !! id)) (ceasingScs e))).
  - zbool. split; [|split].
    + intros i s Hs a Ha. apply lookup_alter_Some in Hs as [(_ & s0 & Hs & ->)|[_ Hs]]; [|by eapply I1].
      unfold add_immature in Ha. cbn in Ha. simplify_map_eq. specialize (I1 _ _ Hs). cbn in I1.
      destruct (mImmatureAmounts s0 !! MH) as [a0|]; cbn; [specialize (I1 a0 eq_refl)|]; lia.
    + apply upd_event_Forall; [done|]. apply add_not_null_m.
    + eapply map_Forall_impl; [apply (upd_event_Forall _ (fun e => set_Forall (fun id => is_Some (se.1 !! id)) (ceasingScs e)));
        [exact I3|apply D3]|]. intros k e. apply Hmono. intros id. apply lookup_alter_is_Some.
Qed.

Lemma Inv_conn_all l se :
  Forall (fun x => pos_item x = true) l -> enabled_all l se -> Inv se -> Inv (conn_all l se).
Proof.
  revert se. induction l as [|x l IH]; intros se Hp He Hi; [done|]. apply list.Forall_cons in Hp as [Hx Hp].
  destruct He as [Hex He]. cbn. apply IH; try done. by apply Inv_conn.
Qed.

(** ** Removing events *)
Lemma lookup_rem_event k f m j :
  rem_event k f m !! j = if decide (j = k) then
    (let e := f (default Events_empty (m !! k)) in if Events_IsNull e then None else Some e) else m !! j.
Proof.
  unfold rem_event. destruct (decide (j = k)) as [->|]; destruct (Events_IsNull _); by simplify_map_eq.
Qed.

Lemma fewer_maturing id a E :
  fewer a (upd_event MH (add_maturing id) E) -> fewer (rem_event MH (erase_maturing id) a) E.
Proof.
  unfold fewer, upd_event. rewrite lookup_insert_eq. cbn -[Events_IsNull]. intros [Hk Ha]. split.
  { intros k Hne. rewrite lookup_rem_event, decide_False by done. rewrite Hk by done. by simplify_map_eq. }
  rewrite lookup_rem_event, decide_True by done.
  destruct (a !! MH) as [ea|]; cbn -[Events_IsNull].
  - destruct Ha as (Hn & Hv & Hc & Hm). destruct (Events_IsNull (erase_maturing id ea)) eqn:En.
    + apply Events_IsNull_spec in En as [En _]. cbn in En. by rewrite <- Hc.
    + cbn -[Events_IsNull]. split_and!; try done. set_solver.
  - destruct (Events_IsNull _) eqn:En; [done|]. apply not_true_iff_false in En. rewrite Events_IsNull_spec in En.
    cbn in En. exfalso. apply En. set_solver.
Qed.

Lemma fewer_present k id a E :
  fewer a (upd_event k (add_ceasing id) E) -> is_Some (a !! k).
Proof.
  unfold fewer, upd_event. intros [Hk Ha]. destruct (decide (k = MH)) as [->|Hne].
  - rewrite lookup_insert_eq in Ha. cbn in Ha. destruct (a !! MH); [done|]. set_solver.
  - rewrite Hk by done. by rewrite lookup_insert_eq.
Qed.

Lemma fewer_ceasing k id a E :
  map_Forall (fun _ e => Events_IsNull e = false) E ->
  id ∉ ceasingScs (default Events_empty (E !! k)) ->
  fewer a (upd_event k (add_ceasing id) E) -> fewer (rem_event k (erase_ceasing id) a) E.
Proof.
  intros HE Hid [Hk Ha]. unfold upd_event in *. split.
  - intros j Hne. rewrite lookup_rem_event. destruct (decide (j = k)) as [->|]; [|rewrite Hk by done; by simplify_map_eq].
    rewrite Hk, lookup_insert_eq by done. cbn -[Events_IsNull].
    assert (Hex : erase_ceasing id (add_ceasing id (default Events_empty (E !! k))) = default Events_empty (E !! k)).
    { apply events_eq; try done. cbn. set_solver. }
    rewrite Hex. destruct (E !! k) as [e|] eqn:Ek; cbn -[Events_IsNull]; [by rewrite (HE _ _ Ek)|done].
  - rewrite lookup_rem_event. destruct (decide (MH = k)) as [<-|Hne].
    + rewrite lookup_insert_eq in Ha. cbn -[Events_IsNull] in Ha |- *. destruct (a !! MH) as [ea|]; cbn -[Events_IsNull].
      * destruct Ha as (Hn & Hv & Hc & Hm).
        assert (Hc' : ceasingScs ea ∖ {[id]} = ceasingScs (default Events_empty (E !! MH))) by set_solver.
        destruct (Events_IsNull (erase_ceasing id ea)) eqn:En; [|done]. apply Events_IsNull_spec in En as [En _]. cbn in En. by rewrite <- Hc'.
      * set_solver.
    + by rewrite lookup_insert_ne in Ha by done.
Qed.

(** Without maturing events at the maturity height there is no difference. *)
Lemma fewer_quiet a E :
  map_Forall (fun _ e => Events_IsNull e = false) E ->
  maturingScs (default Events_empty (E !! MH)) = ∅ -> fewer a E -> a = E.
Proof.
  intros HE Hq [Hk Ha]. apply map_eq. intros k. destruct (decide (k = MH)) as [->|]; [|by apply Hk].
  destruct (E !! MH) as [e|] eqn:Ee, (a !! MH) as [ea|] eqn:Ea; cbn in *; try done.
  - destruct Ha as (_ & Hv & Hc & Hm). f_equal. apply events_eq; try done. set_solver.
  - pose proof (HE _ _ Ee) as Hn. apply not_true_iff_false in Hn. rewrite Events_IsNull_spec in Hn. by destruct Hn.
  - destruct Ha as (Hn & _ & Hc & Hm). apply not_true_iff_false in Hn. rewrite Events_IsNull_spec in Hn.
    destruct Hn. set_solver.
Qed.

Lemma fewer_refl E : map_Forall (fun _ e => Events_IsNull e = false) E -> fewer E E.
Proof.
  intros HE. split; [done|]. destruct (E !! MH) eqn:Ee; cbn; [|done]. split_and!; try done. by apply (HE _ _ Ee).
Qed.
End Pure.

(** ** The code's operations, item by item *)
Definition put (se : SE) (a : AbsView) : AbsView := with_ev (fun _ => se.2) (with_sc (fun _ => se.1) a).

Definition null_events (m : gmap Z CSidechainEvents) : Prop := map_Forall (fun _ e => Events_IsNull e = true) m.

Section Items.
  Context `{NodeConfig} {V : Type} `{CCoinsView V} `{ViewSpec V} `{!ViewLaws V} `{!FreshOk V} (h : Z).
Local Notation C := (CCoinsViewCache V).
Local Notation MH := (h + getScCoinsMaturity).

Definition conn_item (x : item) : M C bool :=
  match x with
  | ICsw w => update_csw w
  | ICreate txHash cr => update_creation txHash h MH cr
  | IOut p => update_ccout MH p
  end.

Definition disc_item (x : item) : M C bool :=
  match x with
  | ICsw w => revert_csw w
  | ICreate _ cr => revert_creation MH cr
  | IOut p => revert_ccout MH p
  end.

Lemma awp_event_add k f P t :
  t_ev_stale t = ∅ -> P tt (mkTop (with_ev (upd_event k f) (t_view t)) (t_sc_stale t) ∅ (t_csw_stale t)) ->
  awp (modify_ev (V := V) k (event_add f)) P t.
Proof.
  intros Hst HP. apply awp_modify_ev. intros e Hc [Hp Hn].
  assert (Hc' : content e = default Events_empty (t_ev t !! k)).
  { rewrite Hc. unfold ev_content. rewrite Hst, lookup_empty. by destruct (t_ev t !! k). }
  eexists tt, _. split; [reflexivity|]. split.
  - right. unfold keep_fresh. cbn. case_decide; [right; right; done|by left].
  - rewrite upd_ev_live by (cbn; unfold keep_fresh; by case_decide).
    rewrite Hst, Hc', delete_empty. exact HP.
Qed.

Lemma awp_event_remove k f P t :
  null_events (t_ev_stale t) -> (forall e, Events_IsNull e = true -> Events_IsNull (f e) = true) ->
  (forall st, null_events st -> P tt (mkTop (with_ev (rem_event k f) (t_view t)) (t_sc_stale t) st (t_csw_stale t))) ->
  awp (modify_ev (V := V) k (event_remove f)) P t.
Proof.
  intros Hst Hf HP. apply awp_modify_ev. intros e Hc [Hp Hn].
  assert (Hc' : Events_IsNull (f (content e)) = Events_IsNull (f (default Events_empty (t_ev t !! k)))
    /\ (Events_IsNull (f (content e)) = false -> content e = default Events_empty (t_ev t !! k))).
  { rewrite Hc. unfold ev_content. destruct (t_ev t !! k) as [ev|]; [done|]. cbn [default from_option id].
    assert (Hd : Events_IsNull (f (default Events_empty (t_ev_stale t !! k))) = true).
    { apply Hf. by apply (default_inv _ (fun e => Events_IsNull e = true)). }
    rewrite Hd. split; [|done]. by rewrite Hf. }
  destruct Hc' as [Hnull Hcont]. unfold event_remove. eexists tt, _. split; [reflexivity|]. split.
  - right. cbn. destruct (Events_IsNull _); cbn; auto.
  - unfold rem_event, t_ev, with_ev in *.
    destruct (Events_IsNull (f (content e))) eqn:En.
    + rewrite upd_ev_erased by done. specialize (HP (<[k := f (content e)]> (t_ev_stale t))).
      rewrite <- Hnull in HP. apply HP. by apply map_Forall_insert_2.
    + rewrite upd_ev_live by done. specialize (HP (delete k (t_ev_stale t))).
      rewrite <- Hnull, <- Hcont in HP by done. apply HP. by apply map_Forall_delete.
Qed.

Lemma insert_alter {A} (f : A -> A) (m : gmap Z A) i x : m !! i = Some x -> <[i := f x]> m = alter f i m.
Proof.
  intros Hi. apply map_eq. intros j. destruct (decide (j = i)) as [->|].
  - by rewrite lookup_insert_eq, lookup_alter_eq, Hi.
  - by rewrite lookup_insert_ne, lookup_alter_ne.
Qed.

Lemma sc_content_some t k s : t_sc t !! k = Some s -> sc_content t k = s.
Proof. unfold sc_content. by intros ->. Qed.

Lemma create_mem_ok cr th s s' :
  maxSizeOfScFeesContainers s = -1 -> create_sidechain cr th h MH s = Ok s' -> sc_mem_ok s'.
Proof. intros Hm. unfold create_sidechain. by apply InitScFees_mem_ok. Qed.

(** *** Connecting *)
Lemma conn_item_law x t :
  t_sc_stale t = ∅ -> t_ev_stale t = ∅ ->
  awlp (conn_item x) (fun ok t' => ok = true -> enabled h x (t_sc t)
    /\ t' = mkTop (put (conn h x (t_sc t, t_ev t)) (t_view t)) ∅ ∅ (t_csw_stale t)) t.
Proof.
  intros Hs He. apply awlp_mem. intros Hok. destruct x as [w|th cr|p]; cbn [conn_item].
  - unfold update_csw. apply awlp_bind, awp_awlp, awp_HaveSidechain.
    destruct (t_sc t !! csw_scId w) as [s|] eqn:Es; [|by apply awlp_ret].
    rewrite bool_decide_true by done. apply awlp_bind, awlp_modify_sc.
    intros e Hc Hcar _ r e'. rewrite (sc_content_some _ _ _ Es) in Hc. rewrite Hc. cbn.
    destruct (0 <=? _); [|done]. intros [= <- <-].
    split; [right; by left|]. split; [intros _; cbn; by apply mem_ok_balance, (Hok _ _ Es)|].
    apply awlp_ret. intros _. split; [done|]. rewrite upd_sc_live by done.
    rewrite Hs, He, delete_empty. unfold put, with_sc, with_ev. cbn. unfold t_sc in *. do 2 f_equal.
    by apply (insert_alter (fun s => set_balance (balance s - csw_nValue w) s)).
  - unfold update_creation. apply awlp_bind, awp_awlp, awp_HaveSidechain.
    destruct (t_sc t !! generatedScId cr) as [s|] eqn:Es; [by apply awlp_ret|].
    rewrite bool_decide_false by (by intros []). apply awlp_bind, awlp_modify_sc.
    intros e Hc Hcar Hfr r e'. unfold sc_content in Hc. rewrite Es, Hs, lookup_empty in Hc. cbn in Hc. rewrite Hc.
    specialize (Hfr Es ltac:(by rewrite Hs)). destruct (create_sidechain cr th h MH CSidechain_null) as [sc|] eqn:Ecr; [|done].
    assert (Hrec : sc = rec_of h th cr) by (unfold rec_of; by rewrite Ecr). cbn. intros [= <- <-].
    split; [right; right; right; done|]. split; [intros _; cbn; by apply (create_mem_ok cr th CSidechain_null)|].
    rewrite upd_sc_live by done. rewrite Hs, delete_empty. apply awlp_bind, awp_awlp, awp_event_add; [done|].
    apply awlp_bind, awp_awlp, awp_event_add; [done|]. apply awlp_ret. intros _. rewrite <- Hrec.
    split; [done|]. unfold put, with_sc, with_ev, cease_of. cbn. by rewrite <- Hrec.
  - unfold update_ccout. cbn [GetScId GetScValue pair_out]. apply awlp_bind, awp_awlp, awp_HaveSidechain.
    destruct (t_sc t !! p.1) as [s|] eqn:Es; [|by apply awlp_ret].
    rewrite bool_decide_true by done. apply awlp_bind, awlp_modify_sc.
    intros e Hc [Hcar _] _ r e'. rewrite (sc_content_some _ _ _ Es) in Hc. rewrite Hc. intros [= <- <-].
    split; [right; unfold keep_fresh; cbn; case_decide; [by right; right|by left]|].
    split; [intros _; cbn; by apply mem_ok_immature, (Hok _ _ Es)|].
    rewrite upd_sc_live by (cbn; unfold keep_fresh; by case_decide). rewrite Hs, delete_empty.
    apply awlp_bind, awp_awlp, awp_event_add; [done|]. apply awlp_ret. intros _. split; [by exists s|].
    unfold put, with_sc, with_ev. cbn. unfold t_sc in *. do 2 f_equal. by apply (insert_alter (add_immature MH p.2)).
Qed.

(** *** Disconnecting *)
Lemma insert_alter_back {A} (f : A -> A) (m : gmap Z A) i x : m !! i = Some x -> <[i := x]> (alter f i m) = m.
Proof.
  intros Hi. apply map_eq. intros j. destruct (decide (j = i)) as [->|].
  - by rewrite lookup_insert_eq, Hi.
  - by rewrite lookup_insert_ne, lookup_alter_ne.
Qed.

Lemma put_sc t S : with_sc (fun _ => S) (t_view t) = put (S, t_ev t) (t_view t).
Proof. done. Qed.

(** A decrement undoes an increment. *)
Lemma Decrement_add k v s fl :
  0 < v -> (forall a, mImmatureAmounts s !! k = Some a -> 0 < a) ->
  DecrementImmatureAmount v k (mkEntry (add_immature k v s) fl) = (true, mkEntry s DIRTY).
Proof.
  intros Hv Ha. unfold DecrementImmatureAmount, add_immature. cbn. rewrite lookup_insert_eq.
  destruct (mImmatureAmounts s !! k) as [a|] eqn:E; cbn.
  - specialize (Ha a eq_refl). zcases; try lia. do 2 f_equal. unfold set_immature. destruct s. cbn in *. f_equal.
    rewrite !insert_insert_eq. replace (a + v - v) with a by lia. by apply insert_id.
  - zcases; try lia. do 2 f_equal. unfold set_immature. destruct s. cbn in *. f_equal.
    rewrite !delete_insert_eq. by apply delete_id.
Qed.

Lemma erase_maturing_null id e : Events_IsNull e = true -> Events_IsNull (erase_maturing id e) = true.
Proof. rewrite !Events_IsNull_spec. cbn. set_solver. Qed.

Lemma erase_ceasing_null id e : Events_IsNull e = true -> Events_IsNull (erase_ceasing id e) = true.
Proof. rewrite !Events_IsNull_spec. cbn. set_solver. Qed.

(** what the disconnection of [x] leaves *)
Definition undone (t : Top) (se : SE) (ok : bool) (t' : Top) : Prop :=
  ok = true /\ null_events (t_ev_stale t')
  /\ exists E', t_view t' = put (se.1, E') (t_view t) /\ fewer h E' se.2.

Lemma disc_csw_law w S E t :
  enabled h (ICsw w) S -> t_sc t = (conn h (ICsw w) (S, E)).1 -> fewer h (t_ev t) E ->
  null_events (t_ev_stale t) -> awp (disc_item (ICsw w)) (undone t (S, E)) t.
Proof.
  intros [s Hs] Ht Hf Hn. apply awp_mem. intros Hok. cbn in Ht. unfold disc_item, revert_csw.
  assert (Es : t_sc t !! csw_scId w = Some (set_balance (balance s - csw_nValue w) s))
    by (rewrite Ht, lookup_alter_eq, Hs; done).
  apply awp_bind, awp_HaveSidechain. rewrite Es, bool_decide_true by done. cbn [negb].
  apply awp_bind, awp_modify_sc. intros e Hc _ _. rewrite (sc_content_some _ _ _ Es) in Hc.
  eexists tt, _. split; [reflexivity|]. split; [right; by left|]. split.
  - intros _. cbn. rewrite Hc. apply mem_ok_balance, (Hok _ _ Es).
  - apply awp_ret. split; [done|]. rewrite upd_sc_live by done. cbn [content]. split; [done|].
    exists (t_ev t). split; [|done]. rewrite Hc. cbn [t_view]. unfold with_sc at 1.
    rewrite <- put_sc. unfold with_sc. f_equal. unfold t_sc in Ht. rewrite Ht.
    replace (set_balance _ _) with s; [by apply insert_alter_back|]. unfold set_balance. destruct s. cbn. f_equal. lia.
Qed.

Lemma disc_out_law p S E t :
  Inv h (S, E) -> 0 < p.2 -> enabled h (IOut p) S -> t_sc t = (conn h (IOut p) (S, E)).1 ->
  fewer h (t_ev t) (conn h (IOut p) (S, E)).2 ->
  null_events (t_ev_stale t) -> awp (disc_item (IOut p)) (undone t (S, E)) t.
Proof.
  intros (I1 & _) Hp [s Hs] Ht Hf Hn. apply awp_mem. intros Hok. cbn [conn fst snd] in Ht, Hf. unfold disc_item, revert_ccout.
  cbn [GetScId GetScValue pair_out].
  assert (Es : t_sc t !! p.1 = Some (add_immature MH p.2 s)) by (rewrite Ht, lookup_alter_eq, Hs; done).
  apply awp_bind, awp_HaveSidechain. rewrite Es, bool_decide_true by done. cbn [negb].
  apply awp_bind, awp_modify_sc. intros [c fl] Hc _ _. rewrite (sc_content_some _ _ _ Es) in Hc. cbn in Hc. subst c.
  rewrite Decrement_add by (try done; by apply (I1 _ _ Hs)). eexists true, _. split; [reflexivity|]. split; [right; by left|].
  assert (Hms : sc_mem_ok s).
  { pose proof (mem_ok_immature _ (mImmatureAmounts s) (Hok _ _ Es)) as Hm. by destruct s. }
  split; [done|]. cbn [negb]. apply awp_bind. rewrite upd_sc_live by done. apply awp_event_remove; [done|apply erase_maturing_null|].
  intros st Hst. apply awp_ret. split; [done|]. split; [done|].
  exists (rem_event MH (erase_maturing p.1) (t_ev t)). split; [|by apply fewer_maturing].
  cbn [t_view content]. unfold put, with_sc, with_ev. cbn. unfold t_sc in Ht. rewrite Ht. f_equal. by apply insert_alter_back.
Qed.

Lemma revert_creation_rec th cr fl :
  0 < sc_nValue cr -> create_sidechain cr th h MH CSidechain_null = Ok (rec_of h th cr) ->
  exists s, revert_creation_entry MH cr (mkEntry (rec_of h th cr) fl)
            = Ok ((true, cease_of h th cr), mkEntry s ERASED).
Proof.
  intros Hv Hc. apply rec_of_immature in Hc as [Hm Hb].
  unfold revert_creation_entry, DecrementImmatureAmount. cbn [content]. rewrite Hm, lookup_singleton_eq.
  rewrite Z.ltb_irrefl, Z.sub_diag, Z.eqb_refl. cbn -[rec_of cease_of]. rewrite Hb. cbn -[rec_of cease_of]. by eexists.
Qed.

Lemma rem_event_none k f m :
  m !! k = None -> Events_IsNull (f Events_empty) = true -> rem_event k f m = m.
Proof. intros Hk Hf. unfold rem_event. rewrite Hk. cbn [default from_option]. unfold id. rewrite Hf. by apply delete_id. Qed.

(** The conditional removal of the maturing event. *)
Lemma awp_maybe_remove k id P t :
  null_events (t_ev_stale t) ->
  (forall st, null_events st -> P tt (mkTop (with_ev (rem_event k (erase_maturing id)) (t_view t)) (t_sc_stale t) st (t_csw_stale t))) ->
  awp (V := V) (let* have := HaveSidechainEvents k in
       if have then modify_ev k (event_remove (erase_maturing id)) else ret tt) P t.
Proof.
  intros Hn HP. apply awp_bind, awp_HaveSidechainEvents. case_bool_decide as Hk.
  - by apply awp_event_remove; [|apply erase_maturing_null|].
  - apply awp_ret. specialize (HP _ Hn). assert (Hk' : a_ev (t_view t) !! k = None) by (by apply eq_None_not_Some).
    unfold with_ev in HP. rewrite rem_event_none in HP by (done || by apply erase_maturing_null).
    by destruct t as [[] ? ?].
Qed.

Lemma bind_assoc_if {A} (m : M C bool) (k1 : bool -> M C unit) (k2 : M C A) c :
  bind m (fun b => bind (k1 b) (fun _ => k2)) c = bind (bind m k1) (fun _ => k2) c.
Proof. unfold bind. by destruct (m c) as [[b c']|]. Qed.

Lemma disc_create_law th cr S E t :
  Inv h (S, E) -> 0 < sc_nValue cr -> enabled h (ICreate th cr) S -> t_sc t = (conn h (ICreate th cr) (S, E)).1 ->
  fewer h (t_ev t) (conn h (ICreate th cr) (S, E)).2 ->
  null_events (t_ev_stale t) -> awp (disc_item (ICreate th cr)) (undone t (S, E)) t.
Proof.
  intros (_ & I2 & I3) Hp [Hs Hc] Ht Hf Hn. cbn [conn fst snd] in Ht, Hf. unfold disc_item, revert_creation.
  set (id := generatedScId cr) in *. assert (Es : t_sc t !! id = Some (rec_of h th cr)) by (by rewrite Ht, lookup_insert_eq).
  rewrite (upd_event_comm (cease_of h th cr) MH) in Hf by done. apply fewer_maturing in Hf.
  pose proof (fewer_present _ _ _ _ _ Hf) as Hpr.
  apply awp_bind, awp_HaveSidechain. rewrite Es, bool_decide_true by done. cbn [negb].
  apply awp_bind, awp_modify_sc. intros [c fl] Hco _ _. rewrite (sc_content_some _ _ _ Es) in Hco. cbn in Hco. subst c.
  destruct (revert_creation_rec th cr fl Hp Hc) as [s' Hr]. eexists _, _. split; [exact Hr|].
  split; [right; right; by left|]. split; [done|]. cbn [negb]. rewrite upd_sc_erased by done.
  eapply awp_ext; [intros c; apply bind_assoc_if|]. apply awp_bind, awp_maybe_remove; [done|]. intros st Hst.
  apply awp_bind, awp_HaveSidechainEvents. unfold t_ev at 1. cbn [t_view with_ev with_sc a_ev].
  rewrite bool_decide_true by done. cbn [negb]. apply awp_bind, awp_event_remove; [done|apply erase_ceasing_null|].
  intros st' Hst'. apply awp_ret. split; [done|]. split; [done|].
  exists (rem_event (cease_of h th cr) (erase_ceasing id) (rem_event MH (erase_maturing id) (t_ev t))). split.
  - cbn [t_view content]. unfold put, with_sc, with_ev. cbn. unfold t_sc in Ht. rewrite Ht. f_equal.
    rewrite delete_insert_eq. by apply delete_id.
  - apply fewer_ceasing; [done| |done]. intros Hin. cbn [snd fst] in I3.
    pose proof (default_inv _ (fun e => set_Forall (fun id => is_Some (S !! id)) (ceasingScs e))
      (cease_of h th cr) I3 (set_Forall_empty _) id Hin) as Hx. cbn in Hx. rewrite Hs in Hx. by destruct Hx.
Qed.

Lemma disc_item_law x se t :
  Inv h se -> pos_item x = true -> enabled h x se.1 -> t_sc t = (conn h x se).1 ->
  fewer h (t_ev t) (conn h x se).2 -> null_events (t_ev_stale t) -> awp (disc_item x) (undone t se) t.
Proof.
  destruct se as [S E]. intros Hi Hp He Ht Hf Hn. destruct x as [w|th cr|p]; cbn in Hp; zbool.
  - by apply disc_csw_law.
  - by apply disc_create_law.
  - by apply disc_out_law.
Qed.

(** ** Groups of items and blocks *)
Lemma undone_trans t t1 se se' ok ok' t2 :
  undone t se' ok t1 -> undone t1 se ok' t2 -> undone t se ok' t2.
Proof.
  intros (_ & _ & E1 & H1' & _) (Ho & Hn & E2 & H2 & Hf). split; [done|]. split; [done|].
  exists E2. split; [|done]. by rewrite H2, H1'.
Qed.

Lemma undone_sc t se ok t' : undone t se ok t' -> t_sc t' = se.1 /\ fewer h (t_ev t') se.2.
Proof. intros (_ & _ & E' & Hv & Hf). unfold t_sc, t_ev. by rewrite Hv. Qed.

Lemma disc_group k se t :
  Forall (fun x => pos_item x = true) k -> (exists n, Forall (fun x => cls x = n) k) ->
  Inv h se -> enabled_all h k se -> t_sc t = (conn_all h k se).1 -> fewer h (t_ev t) (conn_all h k se).2 ->
  null_events (t_ev_stale t) -> awp (for_each k disc_item) (undone t se) t.
Proof.
  intros Hp [n Hk] Hi. revert t. induction k as [|x k IH]; intros t He Ht Hf Hn.
  { apply awp_ret. split; [done|]. split; [done|]. exists (t_ev t). split; [|done]. rewrite <- put_sc.
    cbn in Ht. rewrite <- Ht. by destruct t as [[] ? ?]. }
  apply list.Forall_cons in Hp as [Hpx Hp]. apply list.Forall_cons in Hk as [Hx Hk].
  destruct (conn_bubble h x k se) as (A1 & A2 & A3); [|done|].
  { eapply list.Forall_impl; [exact Hk|]. cbn. by intros y ->. }
  rewrite A3 in Ht, Hf. cbn [for_each]. apply awp_bind.
  eapply awp_mono; [apply (disc_item_law x (conn_all h k se)); try done; by apply Inv_conn_all|].
  intros ok t1 Hu. pose proof Hu as (-> & Hn1 & _). pose proof (undone_sc _ _ _ _ Hu) as [Hs1 Hf1].
  eapply awp_mono; [apply (IH Hp Hk t1); done|]. intros ok' t2. by eapply undone_trans.
Qed.

Lemma for_each_app {A} (l k : list A) (f : A -> M C bool) c :
  for_each (l ++ k) f c = then_ (for_each l f) (for_each k f) c.
Proof.
  unfold then_. revert c. induction l as [|x l IH]; intros c; cbn; [done|].
  unfold bind in *. destruct (f x c) as [[[] c']|]; [by rewrite IH|done|done].
Qed.

Lemma for_each_map {A B} (g : B -> A) (l : list B) (f : A -> M C bool) c :
  for_each (map g l) f c = for_each l (fun x => f (g x)) c.
Proof.
  revert c. induction l as [|x l IH]; intros c; cbn; [done|]. unfold bind.
  destruct (f (g x) c) as [[[] c']|]; [by rewrite IH|done|done].
Qed.

Lemma then_ext (m m' k k' : M C bool) c :
  (forall c, m c = m' c) -> (forall c, k c = k' c) -> then_ m k c = then_ m' k' c.
Proof. intros Hm Hk. unfold then_, bind. rewrite Hm. by destruct (m' c) as [[[] c']|]. Qed.

Lemma disc_groups gs se t :
  Forall (Forall (fun x => pos_item x = true)) gs ->
  Forall (fun k => exists n, Forall (fun x => cls x = n) k) gs ->
  Inv h se -> enabled_all h (concat gs) se -> t_sc t = (conn_all h (concat gs) se).1 ->
  fewer h (t_ev t) (conn_all h (concat gs) se).2 -> null_events (t_ev_stale t) ->
  awp (for_each (concat (rev gs)) disc_item) (undone t se) t.
Proof.
  intros Hp Hk Hi. revert t. induction gs as [|k gs IH] using rev_ind; intros t He Ht Hf Hn.
  { apply (disc_group [] se t); try done. by exists 0%nat. }
  rewrite concat_app in He, Ht, Hf. cbn in He, Ht, Hf. rewrite app_nil_r in He, Ht, Hf.
  rewrite conn_all_app in Ht, Hf. apply enabled_all_app in He as [He1 He2].
  apply Forall_app in Hp as [Hp1 Hp2%Forall_inv], Hk as [Hk1 Hk2%Forall_inv].
  rewrite rev_app_distr. cbn [rev app concat]. eapply awp_ext; [intros c; apply for_each_app|].
  unfold then_. apply awp_bind. eapply awp_mono; [apply (disc_group k (conn_all h (concat gs) se)); try done|].
  { apply Inv_conn_all; [|done|done]. by apply Forall_concat. }
  intros ok t1 Hu. pose proof Hu as (-> & Hn1 & _). pose proof (undone_sc _ _ _ _ Hu) as [Hs1 Hf1].
  eapply awp_mono; [apply (IH Hp1 Hk1 t1); done|]. intros ok' t2. by eapply undone_trans.
Qed.

Lemma top_put se a st st' w : (t_sc (mkTop (put se a) st st' w), t_ev (mkTop (put se a) st st' w)) = se.
Proof. by destruct se. Qed.

Lemma conn_items_law l t :
  t_sc_stale t = ∅ -> t_ev_stale t = ∅ ->
  awlp (for_each l conn_item) (fun ok t' => ok = true -> enabled_all h l (t_sc t, t_ev t)
    /\ t' = mkTop (put (conn_all h l (t_sc t, t_ev t)) (t_view t)) ∅ ∅ (t_csw_stale t)) t.
Proof.
  revert t. induction l as [|x l IH]; intros t Hs He; cbn [for_each].
  { apply awlp_ret. intros _. split; [done|]. destruct t as [[] ? ?]. cbn in *. by subst. }
  apply awlp_bind. eapply awlp_mono; [by apply conn_item_law|]. intros [] t1 Hx; [|by apply awlp_ret].
  destruct (Hx eq_refl) as [Hen ->]. eapply awlp_mono; [by apply IH|]. intros ok t2 Ha Hok.
  destruct (Ha Hok) as [Hall ->]. rewrite top_put in Hall |- *. done.
Qed.

(** ** The code's loops are loops over items *)
Lemma UpdateSidechain_items tx c : UpdateSidechain tx h c = for_each (concat (groups tx)) conn_item c.
Proof.
  unfold UpdateSidechain, groups. cbn [concat]. rewrite app_nil_r, for_each_app.
  apply then_ext; [intros; by rewrite for_each_map|]. intros c1. rewrite for_each_app.
  apply then_ext; [intros; by rewrite for_each_map|]. intros c2. rewrite for_each_app.
  apply then_ext; intros; by rewrite for_each_map.
Qed.

Lemma RevertTxOutputs_items tx c : RevertTxOutputs tx h c = for_each (concat (rev (groups tx))) disc_item c.
Proof.
  unfold RevertTxOutputs, groups. cbn [concat rev app]. rewrite app_nil_r, for_each_app.
  apply then_ext; [intros; by rewrite for_each_map|]. intros c1. rewrite for_each_app.
  apply then_ext; [intros; by rewrite for_each_map|]. intros c2. rewrite for_each_app.
  apply then_ext; intros; by rewrite for_each_map.
Qed.

Lemma for_each_concat {A} (g : A -> M C bool) (items : A -> list item) (f : item -> M C bool) txs c :
  (forall x c, g x c = for_each (items x) f c) ->
  for_each txs g c = for_each (concat (map items txs)) f c.
Proof.
  intros Hg. revert c. induction txs as [|tx txs IH]; intros c; cbn; [done|].
  rewrite for_each_app. unfold then_, bind. rewrite Hg. by destruct (for_each (items tx) f c) as [[[] c']|].
Qed.

Lemma concat_groups txs : concat (map (fun tx => concat (groups tx)) txs) = concat (concat (map groups txs)).
Proof. induction txs as [|tx txs IH]; [done|]. cbn [map concat]. by rewrite concat_app, IH. Qed.

Lemma concat_rev_groups txs :
  concat (map (fun tx => concat (rev (groups tx))) (rev txs)) = concat (rev (concat (map groups txs))).
Proof.
  induction txs as [|tx txs IH]; [done|]. cbn [map rev]. rewrite map_app, concat_app, IH. cbn [map concat].
  by rewrite rev_app_distr, concat_app, app_nil_r.
Qed.

Lemma groups_cls tx : Forall (fun k => exists n, Forall (fun x => cls x = n) k) (groups tx).
Proof.
  repeat constructor; [exists 0%nat|exists 1%nat|exists 2%nat|exists 2%nat]; apply list.Forall_forall;
    intros x [y [-> _]]%list_elem_of_fmap; done.
Qed.
End Items.

(** amounts to sidechains are positive *)
Definition positive (tx : CTransaction) : bool := forallb pos_item (concat (groups tx)).

Lemma positive_groups txs :
  Forall (fun tx => positive tx = true) txs ->
  Forall (Forall (fun x => pos_item x = true)) (concat (map groups txs)).
Proof.
  induction 1 as [|tx txs Hp _ IH]; cbn [map concat]; [constructor|]. apply Forall_app. split; [|done].
  unfold positive in Hp. rewrite forallb_forall in Hp. apply list.Forall_forall. intros k Hk. apply list.Forall_forall. intros x Hx.
  apply Hp. apply in_concat. exists k. by rewrite <- !list_elem_of_In.
Qed.

(** C2: the sidechain part of a block's transactions can be undone.  If
    [UpdateSidechain] succeeds on each transaction of a block at height [h] in a
    new cache over a view, then on any view that holds the resulting sidechains
    and events (such as the one the cache is flushed to) [RevertTxOutputs]
    succeeds on the transactions in the opposite order and gives back exactly the
    sidechains, balances, immature amounts and scheduled events there were before
    the block, and touches nothing else.  Assumed of the state before the block:
    nothing is maturing yet at the height the block's own outputs mature at,
    amounts waiting for that height are positive, no height has an empty set of
    events, only existing sidechains are scheduled to cease; and of the block:
    the amounts sent to sidechains are positive. *)
Theorem sidechain_txs_undone `{NodeConfig} {V : Type} `{CCoinsView V} `{ViewSpec V} `{!ViewLaws V} `{!FreshOk V}
    (h : Z) (txs : list CTransaction) (v v' : V) (c' : CCoinsViewCache V) :
  v_wf v -> Inv h (a_sc (denote v), a_ev (denote v)) ->
  maturingScs (default Events_empty (a_ev (denote v) !! (h + getScCoinsMaturity))) = ∅ ->
  Forall (fun tx => positive tx = true) txs ->
  for_each txs (fun tx => UpdateSidechain tx h) (Cache_new v) = Ok (true, c') ->
  v_wf v' -> a_sc (denote v') = a_sc (denote c') -> a_ev (denote v') = a_ev (denote c') ->
  exists c'', for_each (rev txs) (fun tx => RevertTxOutputs tx h) (Cache_new v') = Ok (true, c'')
    /\ v_wf c'' /\ denote c'' = put (a_sc (denote v), a_ev (denote v)) (denote v').
Proof.
  intros Hv Hi Hq Hp Hrun Hv' Hsc Hev. pose proof Hi as (_ & I2 & _).
  set (se := (a_sc (denote v), a_ev (denote v))) in *. set (gs := concat (map groups txs)).
  assert (Hk : Forall (fun k => exists n, Forall (fun x => cls x = n) k) gs).
  { apply Forall_concat, Forall_map, Forall_true. intros. apply groups_cls. }
  rewrite (for_each_concat _ (fun tx => concat (groups tx)) (conn_item h)), concat_groups in Hrun
    by (intros; apply UpdateSidechain_items).
  pose proof (conn_items_law h (concat gs) (top (Cache_new v : CCoinsViewCache V))) as Hc.
  destruct (awlp_run _ _ _ _ _ (Hc ltac:(done) ltac:(done)) (Cache_new_wf v Hv) Hrun) as [_ Hc'].
  specialize (Hc' eq_refl). rewrite Cache_new_top in Hc'. destruct Hc' as [Hen Ht].
  apply (f_equal t_view) in Ht. cbn [t_view top] in Ht. change (t_sc _, t_ev _) with se in Hen, Ht.
  rewrite Ht in Hsc, Hev. cbn in Hsc, Hev.
  assert (Hinv : Inv h (conn_all h (concat gs) se)) by (apply Inv_conn_all; try done; by apply Forall_concat, positive_groups).
  destruct Hinv as (_ & Hnn & _).
  assert (Hd : awp (for_each (concat (rev gs)) (disc_item h)) (undone h (mkTop (denote v') ∅ ∅ ∅) se) (mkTop (denote v') ∅ ∅ ∅)).
  { apply (disc_groups h gs se); try done; [by apply positive_groups|]. unfold t_ev. cbn [t_view]. rewrite Hev. by apply fewer_refl. }
  rewrite <- Cache_new_top in Hd. destruct (awp_run _ _ _ Hd (Cache_new_wf v' Hv')) as (r & c'' & Hr & Hw & Hu).
  destruct Hu as (-> & _ & E' & Hview & Hf). rewrite Cache_new_top in Hview. cbn [t_view top] in Hview.
  exists c''. split; [|split; [done|]].
  - rewrite (for_each_concat _ (fun tx => concat (rev (groups tx))) (disc_item h)), concat_rev_groups
      by (intros; apply RevertTxOutputs_items). exact Hr.
  - rewrite Hview. f_equal. unfold se. cbn. f_equal. by apply (fewer_quiet h).
Qed.

(** An instance on the sample ledger: a sidechain is created, receives a transfer
    in the next transaction, the other one receives two and a request, and the
    ceased one is withdrawn from. *)
#[local] Existing Instance regtest.
#[local] Existing Instance toy_hash.

Definition connected : CCoinsViewCache CCoinsViewDB :=
  match for_each [tx_create; tx_transfers] (fun tx => UpdateSidechain tx height) (Cache_new ledger) with
  | Ok (_, c) => c
  | Err _ => Cache_new ledger
  end.

(** the database the block is disconnected from *)
Definition connected_db : CCoinsViewDB :=
  mkDB ∅ (a_sc (denote connected)) (a_ev (denote connected)) ∅ ∅ ∅ (Some 2) None.

Definition Inv_check `{NodeConfig} (h : Z) (se : SE) : bool :=
  bool_decide (map_Forall (fun _ s => 0 < default 1 (mImmatureAmounts s !! (h + getScCoinsMaturity))) se.1)
  && bool_decide (map_Forall (fun _ e => Events_IsNull e = false) se.2)
  && bool_decide (map_Forall (fun _ e =>
       forallb (fun id => if se.1 !! id is Some _ then true else false) (elements (ceasingScs e)) = true) se.2).

Lemma Inv_check_sound `{NodeConfig} h se : Inv_check h se = true -> Inv h se.
Proof.
  unfold Inv_check. rewrite !andb_true_iff, !bool_decide_eq_true. intros [[H1 H2] H3]. split_and!; [|done|].
  - eapply map_Forall_impl; [exact H1|]. intros k s Hs a Ha. cbn in Hs. by rewrite Ha in Hs.
  - eapply map_Forall_impl; [exact H3|]. cbn. intros k e He id Hid. rewrite forallb_forall in He.
    specialize (He id). rewrite <- list_elem_of_In, elem_of_elements in He. specialize (He Hid). by destruct (se.1 !! id).
Qed.

Lemma sidechain_txs_undone_witness :
  exists c'', for_each (rev [tx_create; tx_transfers]) (fun tx => RevertTxOutputs tx height)
      (Cache_new connected_db) = Ok (true, c'')
    /\ a_sc (denote c'') = a_sc (denote ledger) /\ a_ev (denote c'') = a_ev (denote ledger).
Proof.
  destruct (sidechain_txs_undone height [tx_create; tx_transfers] ledger connected_db connected) as (c'' & Hr & _ & Hd).
  - exact ledger_wf.
  - apply Inv_check_sound. vm_compute. reflexivity.
  - vm_compute. reflexivity.
  - repeat constructor.
  - vm_compute. reflexivity.
  - apply db_check_sound. vm_compute. reflexivity.
  - vm_compute. reflexivity.
  - vm_compute. reflexivity.
  - exists c''. split; [exact Hr|]. rewrite Hd. split; reflexivity.
Defined.


Section ZeroFee.
  Context `{NodeConfig} {V : Type} `{CCoinsView V} `{ViewSpec V} `{!ViewLaws V} `{!FreshOk V} (h : Z).
Local Notation C := (CCoinsViewCache V).
Local Notation MH := (h + getScCoinsMaturity).



End ZeroFee.




