(* ===== verification/BlockCoins.v ===== *)
(** * Unspent outputs in blocks

    The inputs and outputs of transactions and certificates on the view:
    [UpdateCoins] and [ApplyTxInUndo] of [main.cpp], and the functions of
    [coins.cpp] that look at the inputs. *)

From stdpp Require Import base numbers list strings gmap fin_maps sets option.
From Stdlib Require Import ZArith Lia.
From S2P Require Import Prelude.
From S2P Require Import Amount.
From S2P Require Import Serialize.
From S2P Require Import ScTypes.
From S2P Require Import Primitives.
From S2P Require Import Sidechain.
From S2P Require Import Coins.
From S2P Require Import CoinsSer.
From S2P Require Import Undo.
From S2P Require Import Merkle.
From S2P Require Import View.
From S2P Require Import ViewLaws.
From S2P Require Import SampleLedger.
From S2P Require Import TopLaws.
From S2P Require Import ViewOps.
From S2P Require Import ScOps.
Open Scope Z_scope.
Open Scope zen_scope.

(** ** What transactions and certificates have in common ([CTransactionBase]) *)
Class TxBase (T : Type) := {
  tb_vin : T -> list CTxIn;
  tb_vout : T -> list CTxOut;
  tb_hash : T -> uint256;
  tb_IsCoinBase : T -> bool;
  tb_vjoinsplit : T -> list JSDescription;
  tb_GetJoinSplitValueIn : T -> res CAmount;
  tb_GetCSWValueIn : T -> res CAmount;
  tb_CheckFeeAmount : T -> CAmount -> M CValidationState bool }.

#[export] Instance CTransaction_base : TxBase CTransaction := {|
  tb_vin := tx_vin; tb_vout := tx_vout; tb_hash := tx_hash; tb_IsCoinBase := IsCoinBase;
  tb_vjoinsplit := vjoinsplit; tb_GetJoinSplitValueIn := GetJoinSplitValueIn;
  tb_GetCSWValueIn := GetCSWValueIn; tb_CheckFeeAmount := CheckFeeAmount |}.

#[export] Instance CScCertificate_base : TxBase CScCertificate := {|
  tb_vin := cert_vin; tb_vout := cert_vout; tb_hash := cert_hash; tb_IsCoinBase := fun _ => false;
  tb_vjoinsplit := fun _ => []; tb_GetJoinSplitValueIn := fun _ => Ok 0;
  tb_GetCSWValueIn := fun _ => Ok 0; tb_CheckFeeAmount := cert_CheckFeeAmount |}.

Section Operations.
  Context {V : Type} `{CCoinsView V} `{MerkleHash Z}.
Local Notation C := (CCoinsViewCache V).

(** ** Looking at the inputs *)
Definition GetOutputFor (input : CTxIn) : M C CTxOut :=
  let* coins := AccessCoins (op_hash (prevout input)) in
  match coins with
  | Some coins =>
      if IsAvailable coins (op_n (prevout input)) then
        match vout coins !! Z.to_nat (op_n (prevout input)) with
        | Some o => ret o
        | None => fail out_of_bounds
        end
      else fail AssertFailed
  | None => fail AssertFailed
  end.

Fixpoint sum_outputs (vin : list CTxIn) (nResult : CAmount) : M C CAmount :=
  match vin with
  | [] => ret nResult
  | i :: vin' => let* o := GetOutputFor i in sum_outputs vin' (nResult + out_nValue o)
  end.

Definition GetValueIn {T} `{TxBase T} (tx : T) : M C CAmount :=
  if tb_IsCoinBase tx then ret 0
  else
    let* nResult := sum_outputs (tb_vin tx) 0 in
    let* js := lift (tb_GetJoinSplitValueIn tx) in
    let* csw := lift (tb_GetCSWValueIn tx) in
    ret (nResult + (js + csw)).

Definition input_available (i : CTxIn) : M C bool :=
  let* coins := AccessCoins (op_hash (prevout i)) in
  ret (match coins with Some c => IsAvailable c (op_n (prevout i)) | None => false end).

Definition HaveInputs {T} `{TxBase T} (tx : T) : M C bool :=
  if negb (tb_IsCoinBase tx) then for_each (tb_vin tx) input_available else ret true.

(** [tree.append] for each commitment *)
Fixpoint append_commitments (cms : list uint256) (tree : Tree) : res Tree :=
  match cms with
  | [] => Ok tree
  | cm :: cms' => res_bind (append INCREMENTAL_MERKLE_TREE_DEPTH cm tree) (append_commitments cms')
  end.

(** one JoinSplit, with the map [intermediates]: its insertion keeps an existing
    tree *)
Definition joinsplit_requirements (intermediates : gmap Z Tree) (js : JSDescription)
  : M C (option (gmap Z Tree)) :=
  let* fresh := for_each (nullifiers js) (fun nf => let* spent := GetNullifier nf in ret (negb spent)) in
  if negb fresh then ret None
  else
    let* tree :=
      match intermediates !! anchor js with
      | Some tree => ret (Some tree)
      | None => GetAnchorAt (anchor js)
      end in
    match tree with
    | None => ret None
    | Some tree =>
        let* tree' := lift (append_commitments (commitments js) tree) in
        let rt := tree_root INCREMENTAL_MERKLE_TREE_DEPTH tree' in
        ret (Some (match intermediates !! rt with Some _ => intermediates | None => <[rt := tree']> intermediates end))
    end.

Definition HaveJoinSplitRequirements {T} `{TxBase T} (tx : T) : M C bool :=
  let* r := for_acc (tb_vjoinsplit tx) ∅ joinsplit_requirements in
  ret (match r with Some _ => true | None => false end).

(** ** Spending the inputs, adding the outputs *)
Definition spend_input (txin : CTxIn) (vprevout : list CTxInUndo) : M C (list CTxInUndo) :=
  with_coins (op_hash (prevout txin)) (fun coins =>
    let nPos := op_n (prevout txin) in
    if negb (IsAvailable coins nPos) then Err AssertFailed
    else
      match vout coins !! Z.to_nat nPos with
      | None => Err out_of_bounds
      | Some o =>
          let coins1 := (Spend nPos coins).2 in
          Ok (vprevout ++ [spent_undo o coins1], coins1)
      end).

Fixpoint spend_inputs (vin : list CTxIn) (vprevout : list CTxInUndo) : M C (list CTxInUndo) :=
  match vin with
  | [] => ret vprevout
  | i :: vin' => let* vprevout' := spend_input i vprevout in spend_inputs vin' vprevout'
  end.

Fixpoint set_nullifiers (nfs : list uint256) (spent : bool) : M C unit :=
  match nfs with
  | [] => ret tt
  | nf :: nfs' => SetNullifier nf spent ;;; set_nullifiers nfs' spent
  end.

(** the nullifiers of a transaction in the order of the loops *)
Definition tx_nullifiers (tx : CTransaction) : list uint256 := concat (map nullifiers (vjoinsplit tx)).

Definition UpdateCoins (tx : CTransaction) (txundo : CTxUndo) (nHeight : Z) : M C CTxUndo :=
  let* txundo' := if negb (IsCoinBase tx) then spend_inputs (tx_vin tx) txundo else ret txundo in
  set_nullifiers (tx_nullifiers tx) true ;;;
  with_coins (tx_hash tx) (fun _ => Ok (tt, Coins_From_tx tx nHeight)) ;;;
  ret txundo'.

Definition UpdateCoins_cert (cert : CScCertificate) (txundo : CTxUndo) (nHeight : Z)
    (isBlockTopQualityCert : bool) : M C CTxUndo :=
  let* txundo' := spend_inputs (cert_vin cert) txundo in
  let* o := GetSidechain (cert_scId cert) in
  match o with
  | None => fail AssertFailed
  | Some sidechain =>
      let bwtMaturityHeight := GetCertMaturityHeight sidechain (epochNumber cert) in
      with_coins (cert_hash cert) (fun _ =>
        Ok (tt, Coins_From_cert cert nHeight bwtMaturityHeight isBlockTopQualityCert)) ;;;
      ret txundo'
  end.

(** ** Restoring the inputs, removing the outputs *)
Definition apply_undo (undo : CTxInUndo) (n : Z) (coins : CCoins) : res (bool * CCoins) :=
  let '(fClean, coins1) := undo_header undo true coins in
  put_output n (to_u32 (n + 1)) (u_txout undo) fClean coins1.

Definition ApplyTxInUndo (undo : CTxInUndo) (out : COutPoint) : M C bool :=
  with_coins (op_hash out) (apply_undo undo (op_n out)).

(** the loop of [DisconnectBlock] over the inputs, from the last one *)
Fixpoint undo_inputs (l : list (CTxIn * CTxInUndo)) (fClean : bool) : M C bool :=
  match l with
  | [] => ret fClean
  | (i, undo) :: l' =>
      let* ok := ApplyTxInUndo undo (prevout i) in
      undo_inputs l' (if ok then fClean else false)
  end.

(** the outputs are compared with those of the block, [outsBlock], and cleared *)
Definition clear_outputs (outsBlock outs : CCoins) : res (bool * CCoins) :=
  let outs1 := ClearUnspendable outs in
  let outs2 :=
    if nVersion outsBlock <? 0
    then mkCoins (fCoinBase outs1) (vout outs1) (nHeight outs1) (nVersion outsBlock)
           (coins_nFirstBwtPos outs1) (nBwtMaturityHeight outs1)
    else outs1 in
  Ok (Coins_eqb outs2 outsBlock, Coins_Clear).

Definition remove_outputs (hash : uint256) (outsBlock : CCoins) : M C bool :=
  with_coins hash (clear_outputs outsBlock).
End Operations.

(** ** Outputs put and taken, on one set of coins *)
Lemma IsAvailable_avail c n : IsAvailable c n = bool_decide (is_Some (avail_at (vout c) (Z.to_nat n))).
Proof.
  unfold IsAvailable, avail_at. destruct (vout c !! Z.to_nat n) as [o|]; [|done]. by destruct (TxOut_IsNull o).
Qed.

Lemma avail_lookup l i o : avail_at l i = Some o -> l !! i = Some o /\ TxOut_IsNull o = false.
Proof. unfold avail_at. destruct (l !! i) as [o'|]; [|done]. destruct (TxOut_IsNull o') eqn:E; [done|]. by intros [= ->]. Qed.

Lemma avail_app_nulls l n i : avail_at (l ++ repeat TxOut_SetNull n) i = avail_at l i.
Proof.
  unfold avail_at. destruct (decide (i < length l)%nat); [by rewrite lookup_app_l|].
  rewrite lookup_app_r, (lookup_ge_None_2 l) by lia. destruct (repeat _ _ !! _) as [o|] eqn:E; [|done].
  apply list_elem_of_lookup_2, list_elem_of_In, repeat_spec in E. by rewrite E.
Qed.

Lemma canon_app_nulls l n : canon l -> canon (l ++ repeat TxOut_SetNull n).
Proof.
  intros Hc i o Hi Ho. apply lookup_app_Some in Hi as [Hi|[_ Hi]]; [by eapply Hc|].
  by apply list_elem_of_lookup_2, list_elem_of_In, repeat_spec in Hi.
Qed.

Lemma canon_insert l i o : canon l -> (TxOut_IsNull o = true -> o = TxOut_SetNull) -> canon (<[i := o]> l).
Proof.
  intros H Hn j o' Hj Ho. apply list_lookup_insert_Some in Hj as [(-> & <- & _)|[_ Hj]]; [by apply Hn|].
  by apply (H j).
Qed.

Lemma put_output_spec n size o fc c :
  0 <= n < 2 ^ 32 -> size = n + 1 -> (TxOut_IsNull o = true -> o = TxOut_SetNull) -> canon (vout c) ->
  exists v', put_output n size o fc c = Ok (fc && negb (IsAvailable c n), set_vout v' c)
    /\ canon v' /\ forall i, avail_at v' i = if decide (i = Z.to_nat n) then (if TxOut_IsNull o then None else Some o)
                                             else avail_at (vout c) i.
Proof.
  intros Hn -> Ho Hc. unfold put_output, grow, vout_at_put, to_u32. rewrite (Z.mod_small n) by lia.
  set (l := vout c) in *. set (l' := if vsize l <? n + 1 then l ++ repeat TxOut_SetNull (Z.to_nat (n + 1) - length l) else l).
  assert (Hl' : (if vsize l <? n + 1 then if 2 ^ 63 <=? n + 1 then Err (Exception "length_error")
     else Ok (l ++ repeat TxOut_SetNull (Z.to_nat (n + 1) - length l)) else Ok l) = Ok l').
  { unfold l'. destruct (vsize l <? n + 1); [|done]. destruct (Z.leb_spec (2 ^ 63) (n + 1)); [lia|done]. }
  rewrite Hl'. cbn [res_bind].
  assert (Hlen : (Z.to_nat n < length l')%nat).
  { unfold l', vsize. destruct (Z.ltb_spec (Z.of_nat (length l)) (n + 1)); [rewrite length_app, repeat_length|]; lia. }
  destruct (Z.ltb_spec n (vsize l')); [|unfold vsize in *; lia].
  eexists. split; [reflexivity|].
  assert (Hcan : canon l') by (unfold l'; destruct (_ <? _); [by apply canon_app_nulls|done]).
  split; [by apply canon_insert|]. intros i. rewrite avail_insert by done.
  destruct (decide (Z.to_nat n = i)), (decide (i = Z.to_nat n)); try congruence.
  unfold l'. destruct (_ <? _); [by rewrite avail_app_nulls|done].
Qed.

Lemma Spend_stored n c : Spend n (coins_stored c) = ((Spend n c).1, coins_stored (Spend n c).2).
Proof.
  unfold Spend. cbn [coins_stored vout]. destruct (vout c !! Z.to_nat n) as [o|]; [|done].
  by destruct (TxOut_IsNull o).
Qed.

Lemma Spend_header n c : set_vout (vout c) (Spend n c).2 = c.
Proof.
  unfold Spend. destruct (vout c !! Z.to_nat n) as [o|]; [|by destruct c].
  destruct (TxOut_IsNull o); by destruct c.
Qed.

Lemma Cleanup_clean c : clean (vout c) -> Cleanup c = c.
Proof. intros Hc. unfold Cleanup. rewrite Hc. by destruct c. Qed.

(** Coins in a state: as stored, with an unspent output, positions and heights at
    their width. *)
Definition coins_bound (c : CCoins) : Prop :=
  0 < nHeight c < 2 ^ 31 /\ vsize (vout c) < 2 ^ 32 /\ - 2 ^ 31 <= coins_nFirstBwtPos c < 2 ^ 31.

Definition coins_good (c : CCoins) : Prop :=
  coins_wf c /\ IsPruned c = false /\ coins_stored c = c /\ coins_bound c.

(** the header in [u] is that of [a] *)
Definition header_fits (a : CCoins) (u : CTxInUndo) : Prop :=
  u_nHeight u = nHeight a /\ sane_version (u_nVersion u) = true
  /\ coins_stored (mkCoins (u_fCoinBase u) (vout a) (nHeight a) (u_nVersion u) (u_nFirstBwtPos u)
       (u_nBwtMaturityHeight u)) = a.

(** The undo information [u] fits the spending of output [n] of [a]. *)
Definition undo_fits (a : CCoins) (n : Z) (u : CTxInUndo) : Prop :=
  avail_at (vout a) (Z.to_nat n) = Some (u_txout u)
  /\ if IsPruned (Spend n a).2
     then header_fits a u
     else u_nHeight u = 0.

Lemma spent_undo_fits n o co a :
  0 <= n -> coins_ok co -> coins_abs co = Some a -> 0 < nHeight a < 2 ^ 31 -> vout co !! Z.to_nat n = Some o ->
  TxOut_IsNull o = false -> undo_fits a n (spent_undo o (Spend n co).2).
Proof.
  intros Hn [Hw Hsv] Ha Hh Ho Hnull. unfold coins_abs in Ha. destruct (IsPruned co) eqn:Ep; [done|]. injection Ha as <-.
  assert (Hav : avail_at (vout co) (Z.to_nat n) = Some o) by (unfold avail_at; by rewrite Ho, Hnull).
  unfold undo_fits. rewrite Spend_stored. cbn [snd]. change (IsPruned (coins_stored ?c)) with (IsPruned c).
  pose proof (Spend_wf n co Hn Hw) as [Hc _]. pose proof (IsPruned_clean _ Hc) as Hp.
  pose proof (Spend_header n co) as Hhd. set (co1 := (Spend n co).2) in *.
  unfold spent_undo. destruct (IsPruned co1).
  - rewrite (proj1 Hp eq_refl). cbn. rewrite <- Hhd in Hh, Hsv |- *. cbn in Hh, Hsv |- *. split; [done|].
    unfold to_u32. by rewrite Z.mod_small by lia.
  - destruct (Z.eqb_spec (vsize (vout co1)) 0) as [E|E]; [|done].
    assert (vout co1 = []) as Hv by (destruct (vout co1); [done|]; unfold vsize in E; cbn in E; lia).
    by specialize (proj2 Hp Hv).
Qed.

Lemma stored_set_vout v c : coins_stored (set_vout v c) = set_vout v (coins_stored c).
Proof. done. Qed.

Lemma set_vout_twice v v' c : set_vout v (set_vout v' c) = set_vout v c.
Proof. done. Qed.

(** The header after an output was taken: restored, or still there. *)
Lemma undo_header_spec u a a1 co :
  coins_good a -> clean (vout a1) -> set_vout (vout a) a1 = a -> (if IsPruned a1 then header_fits a u else u_nHeight u = 0) ->
  coins_ok co -> coins_abs co = coins_abs a1 ->
  exists c1, undo_header u true co = (true, c1) /\ vout c1 = vout a1 /\ sane_version (nVersion c1) = true
    /\ coins_stored (set_vout (vout a) c1) = a.
Proof.
  intros (Hwa & Hpa & Hsa & Hh & Hlen & _) Hc1 Hhd Hu [[Hclean Hcanon] Hvco] Habs. unfold undo_header, coins_abs in *.
  destruct (IsPruned a1) eqn:E1.
  - destruct Hu as (Hu1 & Hus & Hu2). destruct (IsPruned co) eqn:E2; [|done]. rewrite Hu1.
    destruct (Z.eqb_spec (nHeight a) 0); [lia|]. eexists. split; [done|]. split; [|split; [done|]].
    + cbn. rewrite (proj1 (IsPruned_clean co Hclean) E2). by rewrite (proj1 (IsPruned_clean a1 Hc1) E1).
    + unfold to_i32. rewrite Z.mod_small, Z.add_simpl_r by lia. exact Hu2.
  - rewrite Hu. destruct (IsPruned co) eqn:E2; [done|]. exists co. split; [done|].
    apply (inj Some) in Habs. split; [by apply (f_equal vout) in Habs|]. split; [done|].
    rewrite stored_set_vout, Habs, <- stored_set_vout, Hhd. exact Hsa.
Qed.

(** Coins that offer what [a] does and have its header. *)
Lemma coins_abs_as a c1 v' :
  coins_good a -> canon v' -> (forall i, avail_at v' i = avail_at (vout a) i) -> coins_stored (set_vout (vout a) c1) = a ->
  coins_abs (Cleanup (set_vout v' c1)) = Some a.
Proof.
  intros (Hwa & Hpa & _) Hcan Hav Hst. assert (Hva : pop_null_back v' = vout a).
  { apply avail_ext; [apply pop_null_back_idem|apply Hwa|by apply canon_pop|apply Hwa|]. intros i.
    by rewrite avail_pop_null_back, Hav. }
  unfold coins_abs, Cleanup. cbn [vout set_vout]. rewrite set_vout_twice, Hva.
  assert (IsPruned (set_vout (vout a) c1) = false) as -> by exact Hpa. by rewrite Hst.
Qed.

Lemma apply_undo_spec n u a co :
  0 <= n -> coins_good a -> undo_fits a n u -> coins_ok co -> coins_abs co = coins_abs (Spend n a).2 ->
  exists co', apply_undo u n co = Ok (true, co') /\ coins_fit co' /\ coins_abs (Cleanup co') = Some a.
Proof.
  intros Hn Hga [Hav Hu] Hok Habs. pose proof Hga as (Hwa & Hpa & Hsa & Hh & Hlen & _).
  destruct (avail_lookup _ _ _ Hav) as [Hlk Hnull].
  assert (Hn' : 0 <= n < 2 ^ 32 - 1).
  { apply lookup_lt_Some in Hlk. unfold vsize in Hlen. lia. }
  pose proof (fun i => Spend_avail n a i Hn) as Hsp.
  pose proof (Spend_wf n a Hn Hwa) as [Hc1 Hk1]. unfold apply_undo.
  destruct (undo_header_spec u a (Spend n a).2 co Hga Hc1 (Spend_header n a) Hu Hok Habs) as (c1 & -> & Hv1 & Hs1 & Hst).
  set (a1 := (Spend n a).2) in *.
  destruct (put_output_spec n (to_u32 (n + 1)) (u_txout u) true c1) as (v' & -> & Hcan & Hav'); try done.
  { lia. } { unfold to_u32. by rewrite Z.mod_small by lia. } { congruence. } { by rewrite Hv1. }
  rewrite IsAvailable_avail, Hv1, Hsp, decide_True by done. cbn.
  eexists. split; [reflexivity|]. split; [by split|]. apply coins_abs_as; try done.
  intros i. rewrite Hav', Hv1, Hsp, Hnull. by repeat case_decide; subst.
Qed.

Lemma coins_abs_inv co a : coins_ok co -> coins_abs co = Some a -> coins_wf a /\ IsPruned a = false /\ coins_stored a = a.
Proof.
  unfold coins_abs. intros [Hw _] Ha. destruct (IsPruned co) eqn:E; [done|]. injection Ha as <-.
  split; [done|]. split; [done|]. apply coins_stored_idem.
Qed.

Lemma Spend_abs n co a : coins_abs co = Some a -> coins_abs (Spend n co).2 = coins_abs (Spend n a).2.
Proof.
  unfold coins_abs at 1. intros Ha. destruct (IsPruned co) eqn:E; [done|]. injection Ha as <-.
  rewrite Spend_stored. unfold coins_abs. cbn [snd]. change (IsPruned (coins_stored ?c)) with (IsPruned c).
  by rewrite coins_stored_idem.
Qed.

(** ** Outputs of a transaction or certificate *)
Lemma ClearUnspendable_idem c : ClearUnspendable (ClearUnspendable c) = ClearUnspendable c.
Proof.
  unfold ClearUnspendable, Cleanup, set_vout. cbn [vout fCoinBase nHeight nVersion coins_nFirstBwtPos nBwtMaturityHeight].
  f_equal. set (f := fun o => if IsUnspendable (scriptPubKey o) then TxOut_SetNull else o).
  assert (Hm : map f (pop_null_back (map f (vout c))) = pop_null_back (map f (vout c))).
  { destruct (pop_null_back_prefix (map f (vout c))) as [n ->]. rewrite firstn_map, map_map. apply map_ext. intros o.
    unfold f. destruct (IsUnspendable (scriptPubKey o)) eqn:E; [done|]. by rewrite E. }
  rewrite Hm. apply pop_null_back_idem.
Qed.

Lemma ClearUnspendable_canon c : canon (vout c) -> canon (vout (ClearUnspendable c)).
Proof.
  intros Hc. apply canon_pop. cbn. intros i o Hi Ho. change (map ?f ?l) with (f <$> l) in Hi.
  apply list_lookup_fmap_Some in Hi as (o' & -> & Hi). destruct (IsUnspendable _); [done|]. by apply (Hc i).
Qed.

(** A version that the stored one determines: negative ones are replaced before
    the comparison, and the numbers they are stored as are not used. *)
Definition exact_version (v : Z) : bool := (v <? 0) || (v <? 123) || (125 <? v).

Definition with_version (v : Z) (c : CCoins) : CCoins :=
  mkCoins (fCoinBase c) (vout c) (nHeight c) v (coins_nFirstBwtPos c) (nBwtMaturityHeight c).

Lemma stored_eq co outs : coins_stored co = coins_stored outs -> exists v, co = with_version v outs.
Proof. destruct co as [? ? ? v ? ?], outs. unfold coins_stored. cbn. intros [=]. subst. by exists v. Qed.

Lemma clear_outputs_match outs co :
  coins_fit outs -> ClearUnspendable outs = outs -> exact_version (nVersion outs) = true ->
  coins_ok co -> coins_abs co = coins_abs outs ->
  Coins_eqb (if nVersion outs <? 0
    then mkCoins (fCoinBase (ClearUnspendable co)) (vout (ClearUnspendable co)) (nHeight (ClearUnspendable co)) (nVersion outs)
           (coins_nFirstBwtPos (ClearUnspendable co)) (nBwtMaturityHeight (ClearUnspendable co))
    else ClearUnspendable co) outs = true.
Proof.
  intros [Hcan Hs] Hcl Hex [Hok Hsco] Habs. unfold Coins_eqb. apply orb_true_iff. unfold coins_abs in Habs.
  destruct (IsPruned outs) eqn:E.
  - left. rewrite andb_true_r. destruct (IsPruned co) eqn:Ec; [|done].
    assert (Hp : IsPruned (ClearUnspendable co) = true).
    { rewrite IsPruned_avail in Ec |- *. intros i. by rewrite ClearUnspendable_avail, Ec. }
    by destruct (nVersion outs <? 0).
  - right. apply bool_decide_eq_true. destruct (IsPruned co) eqn:Ec; [done|]. apply (inj Some) in Habs.
    destruct (stored_eq _ _ Habs) as [v ->]. cbn [nVersion with_version] in Hsco.
    assert (Hcv : ClearUnspendable (with_version v outs) = with_version v outs) by (apply (f_equal (with_version v)) in Hcl; exact Hcl).
    rewrite Hcv. unfold exact_version in Hex. destruct (nVersion outs <? 0) eqn:Ev; [by destruct outs|].
    apply (f_equal nVersion) in Habs. cbn in Habs. unfold stored_version in Habs. rewrite Ev in Habs.
    assert (v = nVersion outs) as ->; [|by destruct outs]. destruct (Z.ltb_spec v 0) as [Hv|Hv]; [|done].
    unfold sane_version in Hsco. rewrite <- Habs in Hex. rewrite (proj2 (Z.leb_gt _ _) Hv) in Hsco. cbn in Hsco.
    apply orb_true_iff in Hsco as [[Hx%Z.eqb_eq|Hx%Z.eqb_eq]%orb_true_iff|Hx%Z.eqb_eq]; by rewrite Hx in Hex.
Qed.

(** ** Spending and restoring lists of inputs, on the unspent outputs of a state *)
Definition bounded : gmap Z CCoins -> Prop := map_Forall (fun _ => coins_bound).

Definition spend_at (i : CTxIn) (a : CCoins) (C : gmap Z CCoins) : gmap Z CCoins :=
  partial_alter (fun _ => coins_abs (Spend (op_n (prevout i)) a).2) (op_hash (prevout i)) C.

(** [vin] takes [C] to [C'] and leaves [us] to undo it *)
Inductive spent : gmap Z CCoins -> list CTxIn -> list CTxInUndo -> gmap Z CCoins -> Prop :=
| spent_nil C : spent C [] [] C
| spent_cons C a i vin u us C' :
    C !! op_hash (prevout i) = Some a -> coins_good a -> 0 <= op_n (prevout i) ->
    undo_fits a (op_n (prevout i)) u -> spent (spend_at i a C) vin us C' ->
    spent C (i :: vin) (u :: us) C'.

Lemma Spend_bound n a : coins_bound a -> coins_bound (Spend n a).2.
Proof.
  intros (Hh & Hl & Hf). pose proof (Spend_header n a) as Hhd. split; [|split].
  - by rewrite <- Hhd in Hh.
  - unfold Spend. destruct (vout a !! _); [|done]. destruct (TxOut_IsNull _); [done|]. cbn.
    destruct (pop_null_back_prefix (<[Z.to_nat n:=TxOut_SetNull]> (vout a))) as [k ->].
    unfold vsize in *. rewrite length_take, length_insert. lia.
  - by rewrite <- Hhd in Hf.
Qed.

Lemma spend_at_bounded i a C : coins_bound a -> bounded C -> bounded (spend_at i a C).
Proof.
  intros Ha HC k c. unfold spend_at. destruct (decide (k = op_hash (prevout i))) as [->|].
  - rewrite lookup_partial_alter_eq. unfold coins_abs. destruct (IsPruned _); [done|]. intros [= <-].
    by apply (Spend_bound (op_n (prevout i))) in Ha.
  - rewrite lookup_partial_alter_ne by done. apply HC.
Qed.

Lemma spent_bounded C vin us C' : spent C vin us C' -> bounded C -> bounded C'.
Proof. induction 1 as [|C a i vin u us C' _ (_ & _ & _ & Ha) _ _ _ IH]; [done|]. intros HC. by apply IH, spend_at_bounded. Qed.

(** What is absent stays so. *)
Lemma spent_absent C vin us C' k : spent C vin us C' -> C !! k = None -> C' !! k = None.
Proof.
  induction 1 as [|C a i vin u us C' Ha _ _ _ _ IH]; [done|]. intros Hk. apply IH. unfold spend_at.
  rewrite lookup_partial_alter_ne by congruence. done.
Qed.

(** the unspent outputs of a state are replaced *)
Definition put_tcoins (C : gmap Z CCoins) : Top -> Top := on_view (with_acoins (fun _ => C)).

Lemma put_tcoins_upd k o C t : upd_coins k o (put_tcoins C t) = put_tcoins (partial_alter (fun _ => o) k C) t.
Proof. done. Qed.

Lemma put_tcoins_id t : put_tcoins (t_coins t) t = t.
Proof. by destruct t as [[] ? ? ?]. Qed.

Lemma put_tcoins_back k o o' D t :
  D !! k = o -> t_coins t = partial_alter (fun _ => o') k D -> upd_coins k o t = put_tcoins D t.
Proof.
  intros Hk Ht. rewrite <- (put_tcoins_id t), put_tcoins_upd, Ht. unfold put_tcoins, on_view, with_acoins. cbn. do 2 f_equal.
  apply map_eq. intros j. destruct (decide (j = k)) as [->|].
  - by rewrite lookup_partial_alter_eq.
  - by rewrite !lookup_partial_alter_ne.
Qed.

Section Rules.
  Context `{NodeConfig} {V : Type} `{CCoinsView V} `{ViewSpec V} `{!ViewLaws V} `{!FreshOk V}.
Local Notation C := (CCoinsViewCache V).

Lemma awlp_spend_input i vp t :
  0 <= op_n (prevout i) -> bounded (t_coins t) ->
  awlp (spend_input (V := V) i vp) (fun vp' t' => exists a u, vp' = vp ++ [u]
    /\ t_coins t !! op_hash (prevout i) = Some a /\ coins_good a /\ undo_fits a (op_n (prevout i)) u
    /\ t' = put_tcoins (spend_at i a (t_coins t)) t) t.
Proof.
  intros Hn Hb. unfold spend_input. apply awlp_with_coins. intros co Hok Habs vp' co' Hrun.
  set (n := op_n (prevout i)) in *. rewrite IsAvailable_avail in Hrun.
  destruct (avail_at (vout co) (Z.to_nat n)) as [o|] eqn:Ea; [|done]. cbn in Hrun.
  destruct (avail_lookup _ _ _ Ea) as [Hlk Hnull]. rewrite Hlk in Hrun. injection Hrun as <- <-.
  assert (Hp : IsPruned co = false).
  { apply not_true_iff_false. rewrite IsPruned_avail. intros Hx. by rewrite Hx in Ea. }
  assert (Ha : coins_abs co = Some (coins_stored co)) by (unfold coins_abs; by rewrite Hp).
  rewrite Ha in Habs. symmetry in Habs. pose proof (Hb _ _ Habs) as Hbd. pose proof Hbd as (Hh & _).
  destruct (coins_abs_inv co _ Hok Ha) as (W1 & W2 & W3). pose proof Hok as [[Hc Hcan] Hv].
  pose proof (Spend_wf n co Hn (proj1 Hok)) as [Hc1 Hk1]. split.
  - split; [done|]. pose proof (Spend_header n co) as Hhd. by rewrite <- Hhd in Hv.
  - exists (coins_stored co), (spent_undo o (Spend n co).2). split; [done|]. split; [done|]. split; [done|].
    split; [by apply spent_undo_fits|]. rewrite Cleanup_clean by done. by rewrite (Spend_abs n co _ Ha).
Qed.

Lemma awlp_spend_inputs vin vp t :
  Forall (fun i => 0 <= op_n (prevout i)) vin -> bounded (t_coins t) ->
  awlp (spend_inputs (V := V) vin vp) (fun vp' t' => exists us C', vp' = vp ++ us
    /\ spent (t_coins t) vin us C' /\ t' = put_tcoins C' t) t.
Proof.
  revert vp t. induction vin as [|i vin IH]; intros vp t Hn Hb; cbn [spend_inputs].
  { apply awlp_ret. exists [], (t_coins t). rewrite app_nil_r, put_tcoins_id. split_and!; [done|constructor|done]. }
  apply list.Forall_cons in Hn as [Hi Hn]. apply awlp_bind. eapply awlp_mono; [by apply awlp_spend_input|].
  intros vp1 t1 (a & u & -> & Ha & Hg & Hu & ->).
  eapply awlp_mono; [apply IH; [done|]; apply spend_at_bounded; [by apply Hg|done]|].
  intros vp2 t2 (us & C' & -> & Hs & ->). exists (u :: us), C'. rewrite <- app_assoc. split_and!; [done| |done].
  by econstructor.
Qed.

Lemma awp_ApplyTxInUndo u i a C P t :
  0 <= op_n (prevout i) -> C !! op_hash (prevout i) = Some a -> coins_good a -> undo_fits a (op_n (prevout i)) u ->
  t_coins t = spend_at i a C -> P true (put_tcoins C t) -> awp (ApplyTxInUndo (V := V) u (prevout i)) P t.
Proof.
  intros Hn HC Hg Hu Ht HP. unfold ApplyTxInUndo. apply awp_with_coins. intros co Hok Habs.
  rewrite Ht in Habs. unfold spend_at in Habs. rewrite lookup_partial_alter_eq in Habs.
  destruct (apply_undo_spec _ u a co Hn Hg Hu Hok Habs) as (co' & E & Hf & Hr). exists true, co'.
  split; [done|]. split; [done|]. rewrite Hr.
  by rewrite (put_tcoins_back _ _ _ C t HC Ht).
Qed.

Lemma undo_inputs_app l k fc c :
  undo_inputs (V := V) (l ++ k) fc c = (let* fc' := undo_inputs l fc in undo_inputs k fc') c.
Proof.
  revert fc c. induction l as [|[i u] l IH]; intros fc c; cbn; [done|]. unfold bind in *.
  destruct (ApplyTxInUndo u (prevout i) c) as [[ok c']|]; [apply IH|done].
Qed.

Lemma awp_undo_inputs D vin us D' fc P t :
  spent D vin us D' -> t_coins t = D' -> P fc (put_tcoins D t) ->
  awp (undo_inputs (V := V) (rev (zip vin us)) fc) P t.
Proof.
  intros Hs. revert fc P t. induction Hs as [D|D a i vin u us D' Ha Hg Hn Hu Hs IH]; intros fc P t Ht HP.
  { cbn. apply awp_ret. by rewrite <- Ht, put_tcoins_id in HP. }
  cbn [zip zip_with rev]. eapply awp_ext; [intros c; apply undo_inputs_app|]. apply awp_bind, IH; [done|].
  cbn [undo_inputs]. apply awp_bind, (awp_ApplyTxInUndo u i a D); try done. by apply awp_ret.
Qed.

(** ** Outputs added and removed *)
Lemma awp_add_outputs k co P t :
  clean (vout co) -> coins_fit co -> P tt (upd_coins k (coins_abs co) t) ->
  awp (with_coins (V := V) k (fun _ => Ok (tt, co))) P t.
Proof. intros Hc Hf HP. apply awp_with_coins. intros c _ _. exists tt, co. by rewrite Cleanup_clean. Qed.

Lemma awp_remove_outputs k outs P t :
  coins_fit outs -> ClearUnspendable outs = outs -> exact_version (nVersion outs) = true ->
  t_coins t !! k = coins_abs outs -> P true (upd_coins k None t) -> awp (remove_outputs (V := V) k outs) P t.
Proof.
  intros [Hcan Hsane] Hcl Hex Hk HP. unfold remove_outputs. apply awp_with_coins. intros co Hok Habs.
  rewrite Hk in Habs. exists true, Coins_Clear. split; [|done]. unfold clear_outputs. f_equal. f_equal.
  by apply clear_outputs_match.
Qed.
End Rules.

(** ** What [UpdateCoins] does, exactly *)

(** the unspent output an outpoint refers to *)
Definition utxo (D : gmap Z CCoins) (p : COutPoint) : option CTxOut :=
  D !! op_hash p ≫= fun c => avail_at (vout c) (Z.to_nat (op_n p)).

(** nullifiers marked or cleared one after the other *)
Definition mark_null (nfs : list Z) (spent : bool) (N : gmap Z unit) : gmap Z unit :=
  foldl (fun N nf => partial_alter (fun _ => if spent then Some tt else None) nf N) N nfs.

Lemma lookup_mark_null nfs spent N k :
  mark_null nfs spent N !! k = if decide (k ∈ nfs) then (if spent then Some tt else None) else N !! k.
Proof.
  unfold mark_null. revert N. induction nfs as [|nf nfs IH]; intros N; cbn [foldl]; [done|]. rewrite IH.
  destruct (decide (k ∈ nfs)); [rewrite decide_True by set_solver; done|].
  destruct (decide (k = nf)) as [->|].
  - rewrite lookup_partial_alter_eq, decide_True by set_solver. done.
  - rewrite lookup_partial_alter_ne, decide_False by set_solver. done.
Qed.

(** Clearing the nullifiers a transaction revealed gives back the state before. *)
Lemma mark_null_undo nfs N : Forall (fun nf => N !! nf = None) nfs -> mark_null nfs false (mark_null nfs true N) = N.
Proof.
  intros Hf. apply map_eq. intros k. rewrite !lookup_mark_null. destruct (decide (k ∈ nfs)) as [Hk|]; [|done].
  rewrite list.Forall_forall in Hf. by rewrite Hf.
Qed.

(** the coins a transaction may leave: no output is null, and the version is one
    transactions have *)
Definition outputs_ok {T} `{TxBase T} (version : Z) (tx : T) : Prop :=
  Forall (fun o => TxOut_IsNull o = false) (tb_vout tx) /\ sane_version version = true.

Lemma canon_outputs l : Forall (fun o => TxOut_IsNull o = false) l -> canon l.
Proof. intros Hf i o Hi Ho. rewrite list.Forall_forall in Hf. rewrite Hf in Ho; [done|]. by eapply list_elem_of_lookup_2. Qed.

Lemma Coins_From_tx_fit tx h : outputs_ok (tx_nVersion tx) tx ->
  coins_fit (Coins_From_tx tx h) /\ clean (vout (Coins_From_tx tx h)).
Proof.
  intros [Ho Hv]. split; [split; [|done]|apply pop_null_back_idem].
  by apply ClearUnspendable_canon, canon_outputs.
Qed.

Lemma utxo_abs k co D p :
  utxo (partial_alter (fun _ => coins_abs co) k D) p
  = if decide (op_hash p = k) then avail_at (vout co) (Z.to_nat (op_n p)) else utxo D p.
Proof.
  unfold utxo. case_decide as E; [|by rewrite lookup_partial_alter_ne]. rewrite <- E, lookup_partial_alter_eq.
  unfold coins_abs. destruct (IsPruned co) eqn:Ep; [|done]. cbn. by rewrite (proj1 (IsPruned_avail co) Ep).
Qed.

Section Exact.
  Context `{NodeConfig} {V : Type} `{CCoinsView V} `{ViewSpec V} `{!ViewLaws V} `{!FreshOk V}.
Local Notation C := (CCoinsViewCache V).

Lemma coins_abs_avail (oc : option CCoins) o k D p :
  (oc ≫= coins_abs) = D !! k -> op_hash p = k -> utxo D p = Some o ->
  exists co, oc = Some co /\ avail_at (vout co) (Z.to_nat (op_n p)) = Some o.
Proof.
  unfold utxo. intros Habs <- Hp. rewrite <- Habs in Hp. destruct oc as [co|]; [|done]. cbn in Hp.
  unfold coins_abs in Hp. destruct (IsPruned co); [done|]. by exists co.
Qed.

Lemma avail_utxo (oc : option CCoins) co k D p :
  (oc ≫= coins_abs) = D !! k -> op_hash p = k -> oc = Some co ->
  utxo D p = avail_at (vout co) (Z.to_nat (op_n p)).
Proof.
  unfold utxo. intros Habs <- ->. rewrite <- Habs. cbn. unfold coins_abs. destruct (IsPruned co) eqn:Ep; [|done].
  cbn. by rewrite (proj1 (IsPruned_avail co) Ep).
Qed.

Lemma awp_input_available i P t :
  P (bool_decide (is_Some (utxo (t_coins t) (prevout i)))) t -> awp (input_available (V := V) i) P t.
Proof.
  intros HP. unfold input_available. apply awp_bind, awp_AccessCoins. intros oc Habs _. apply awp_ret.
  destruct oc as [co|].
  - rewrite (avail_utxo _ co _ _ _ Habs eq_refl eq_refl) in HP. by rewrite IsAvailable_avail.
  - unfold utxo in HP. by rewrite <- Habs in HP.
Qed.

Lemma awp_inputs_available vin t :
  awp (for_each vin (input_available (V := V))) (fun ok t' => t' = t
    /\ (ok = true <-> Forall (fun i => is_Some (utxo (t_coins t) (prevout i))) vin)) t.
Proof.
  induction vin as [|i vin IH]; cbn [for_each]; [by apply awp_ret|]. apply awp_bind, awp_input_available.
  destruct (bool_decide _) eqn:E.
  - apply bool_decide_eq_true in E. eapply awp_mono; [exact IH|]. intros ok t' [-> Hok].
    split; [done|]. rewrite list.Forall_cons. tauto.
  - apply bool_decide_eq_false in E. apply awp_ret. split; [done|]. rewrite list.Forall_cons. split; [done|tauto].
Qed.

Lemma awp_spend_inputs vin vp t :
  Forall (fun i => 0 <= op_n (prevout i)) vin -> NoDup (map prevout vin) ->
  Forall (fun i => is_Some (utxo (t_coins t) (prevout i))) vin ->
  awp (spend_inputs (V := V) vin vp) (fun vp' t' => exists us D', vp' = vp ++ us /\ t' = put_tcoins D' t
    /\ map (fun i => utxo (t_coins t) (prevout i)) vin = map (fun u => Some (u_txout u)) us
    /\ forall p, 0 <= op_n p -> utxo D' p = if decide (p ∈ map prevout vin) then None else utxo (t_coins t) p) t.
Proof.
  revert vp t. induction vin as [|i vin IH]; intros vp t Hn Hd Ha; cbn [spend_inputs map].
  { apply awp_ret. exists [], (t_coins t). rewrite app_nil_r, put_tcoins_id. done. }
  apply list.Forall_cons in Hn as [Hi Hn], Ha as [[o Ho] Ha]. cbn [map] in Hd. apply list.NoDup_cons in Hd as [Hni Hd].
  apply awp_bind. unfold spend_input. apply awp_with_coins. intros co [Hok Hv] Habs.
  destruct (coins_abs_avail (Some co) o _ _ _ Habs eq_refl Ho) as (? & [= <-] & Hav).
  destruct (avail_lookup _ _ _ Hav) as [Hlk Hnull]. rewrite IsAvailable_avail, Hav, Hlk. cbn [is_Some].
  rewrite bool_decide_true by done. cbn [negb]. eexists _, _. split; [reflexivity|].
  pose proof (Spend_wf _ co Hi Hok) as [Hc1 Hk1]. set (n := op_n (prevout i)) in *.
  assert (Hu : u_txout (spent_undo o (Spend n co).2) = o) by (unfold spent_undo; by destruct (_ =? _)).
  set (u := spent_undo o (Spend n co).2) in *.
  assert (Hut : forall p, 0 <= op_n p -> utxo (partial_alter (fun _ => coins_abs (Spend n co).2) (op_hash (prevout i)) (t_coins t)) p
    = if decide (p = prevout i) then None else utxo (t_coins t) p).
  { intros p Hp. rewrite utxo_abs. destruct (decide (op_hash p = op_hash (prevout i))) as [E|E].
    - rewrite Spend_avail by done. rewrite (avail_utxo (Some co) co _ _ p Habs E eq_refl).
      destruct (decide (p = prevout i)) as [->|Hne]; [by rewrite decide_True|]. rewrite decide_False; [done|].
      intros Hx. apply Hne. destruct p, (prevout i). cbn in *. f_equal; [done|]. subst n. lia.
    - rewrite decide_False; [done|]. by intros ->. }
  split; [split; [done|]; pose proof (Spend_header n co) as Hhd; by rewrite <- Hhd in Hv|].
  rewrite Cleanup_clean by done.
  assert (Hsame : forall j, j ∈ vin -> utxo (t_coins (upd_coins (op_hash (prevout i)) (coins_abs (Spend n co).2) t)) (prevout j)
    = utxo (t_coins t) (prevout j)).
  { intros j Hj. unfold t_coins at 1. cbn. rewrite list.Forall_forall in Hn. rewrite Hut by by apply Hn.
    rewrite decide_False; [done|]. intros E. apply Hni. rewrite <- E. by apply list_elem_of_fmap_2. }
  eapply awp_mono; [apply IH; try done|].
  - rewrite list.Forall_forall in Ha |- *. intros j Hj. rewrite Hsame by done. by apply Ha.
  - intros vp' t' (us & D' & -> & -> & H2 & Hall). exists (u :: us), D'. rewrite <- app_assoc. split; [done|]. split; [done|].
    split.
    + cbn [map]. rewrite Hu, Ho, <- H2. f_equal. apply map_ext_in. intros j Hj%list_elem_of_In. by rewrite Hsame.
    + intros p Hp. rewrite Hall by done. unfold t_coins at 1. cbn. rewrite Hut by done.
      repeat case_decide; try done; set_solver.
Qed.

Lemma awp_set_nullifiers nfs b P t :
  P tt (on_view (with_null (mark_null nfs b)) t) -> awp (set_nullifiers (V := V) nfs b) P t.
Proof.
  revert t. induction nfs as [|nf nfs IH]; intros t HP; cbn [set_nullifiers].
  { apply awp_ret. by destruct t as [[] ? ? ?]. }
  apply awp_bind, awp_SetNullifier. apply IH. exact HP.
Qed.

Lemma awp_UpdateCoins tx h t :
  IsCoinBase tx = false -> Forall (fun i => 0 <= op_n (prevout i)) (tx_vin tx) -> NoDup (map prevout (tx_vin tx)) ->
  outputs_ok (tx_nVersion tx) tx -> Forall (fun i => is_Some (utxo (t_coins t) (prevout i))) (tx_vin tx) ->
  awp (UpdateCoins (V := V) tx [] h) (fun us t' => exists D', 
    map (fun i => utxo (t_coins t) (prevout i)) (tx_vin tx) = map (fun u => Some (u_txout u)) us
    /\ (forall p, 0 <= op_n p -> utxo D' p = if decide (op_hash p = tx_hash tx)
          then avail_at (vout (Coins_From_tx tx h)) (Z.to_nat (op_n p))
          else if decide (p ∈ map prevout (tx_vin tx)) then None else utxo (t_coins t) p)
    /\ t' = on_view (with_null (mark_null (tx_nullifiers tx) true)) (put_tcoins D' t)) t.
Proof.
  intros Hcb Hn Hd Ho Ha. unfold UpdateCoins. rewrite Hcb. cbn [negb]. apply awp_bind.
  eapply awp_mono; [by apply awp_spend_inputs|]. intros us t1 (us' & D1 & -> & -> & Hus & HD1). cbn [app].
  apply awp_bind, awp_set_nullifiers, awp_bind. destruct (Coins_From_tx_fit tx h Ho) as [Hf Hc].
  apply awp_add_outputs; [done|done|]. apply awp_ret.
  exists (partial_alter (fun _ => coins_abs (Coins_From_tx tx h)) (tx_hash tx) D1). split; [done|]. split; [|done].
  intros p Hp. rewrite utxo_abs. case_decide; [done|]. by apply HD1.
Qed.
End Exact.

(** C4: what connecting a transaction does to the unspent outputs and nullifiers,
    exactly.  When [HaveInputs] accepts a transaction that does not use an input
    twice, [UpdateCoins] returns (none of its assertions fails); afterwards its
    inputs are spent, its spendable outputs are there, its nullifiers are marked,
    and every other outpoint, nullifier and part of the state is as it was.  The
    undo information lists the outputs that were spent, in order. *)
Theorem UpdateCoins_exact `{NodeConfig} {V : Type} `{CCoinsView V} `{ViewSpec V} `{!ViewLaws V} `{!FreshOk V}
    (tx : CTransaction) (h : Z) (c c1 : CCoinsViewCache V) :
  v_wf c -> HaveInputs tx c = Ok (true, c1) -> IsCoinBase tx = false ->
  Forall (fun i => 0 <= op_n (prevout i)) (tx_vin tx) -> NoDup (map prevout (tx_vin tx)) ->
  outputs_ok (tx_nVersion tx) tx ->
  exists undo c2, UpdateCoins tx [] h c1 = Ok (undo, c2) /\ v_wf c2
    /\ map (fun i => utxo (a_coins (denote c)) (prevout i)) (tx_vin tx) = map (fun u => Some (u_txout u)) undo
    /\ (forall p, 0 <= op_n p -> utxo (a_coins (denote c2)) p =
          if decide (op_hash p = tx_hash tx) then spendable (avail_at (tx_vout tx) (Z.to_nat (op_n p)))
          else if decide (p ∈ map prevout (tx_vin tx)) then None else utxo (a_coins (denote c)) p)
    /\ (forall nf, a_null (denote c2) !! nf =
          if decide (nf ∈ tx_nullifiers tx) then Some tt else a_null (denote c) !! nf)
    /\ denote c = with_acoins (fun _ => a_coins (denote c)) (with_null (fun _ => a_null (denote c)) (denote c2)).
Proof.
  intros Hwf Hin Hcb Hn Hd Ho. pose proof (awp_awlp _ _ _ (awp_inputs_available (tx_vin tx) (top c))) as Hav.
  unfold HaveInputs in Hin. cbn [tb_IsCoinBase CTransaction_base tb_vin] in Hin. rewrite Hcb in Hin. cbn [negb] in Hin.
  destruct (awlp_run _ _ _ _ _ Hav Hwf Hin) as (Hwf1 & Ht & Hall). apply proj1 in Hall. specialize (Hall eq_refl).
  pose proof (awp_UpdateCoins tx h (top c1) Hcb Hn Hd Ho) as Hu. rewrite Ht in Hu. specialize (Hu Hall).
  rewrite <- Ht in Hu at 1. destruct (awp_run _ _ _ Hu Hwf1) as (undo & c2 & Hr & Hwf2 & D' & Hus & HD & Ht2).
  exists undo, c2. split; [done|]. split; [done|]. apply (f_equal t_view) in Ht2. cbn [t_view top] in Ht2.
  split; [done|]. rewrite Ht2. split_and!.
  - intros p Hp. cbn [on_view with_null put_tcoins with_acoins t_view a_coins]. rewrite HD by done. case_decide; [|done].
    unfold Coins_From_tx. by rewrite ClearUnspendable_avail.
  - intros nf. cbn. by rewrite lookup_mark_null.
  - cbn. by destruct (denote c).
Qed.

#[local] Existing Instance regtest.
#[local] Existing Instance toy_hash.

Definition inputs_seen : CCoinsViewCache CCoinsViewDB :=
  match HaveInputs tx_transfers (Cache_new ledger) with Ok (_, c) => c | Err _ => Cache_new ledger end.

Lemma UpdateCoins_exact_witness :
  exists undo c2, UpdateCoins tx_transfers [] height inputs_seen = Ok (undo, c2)
    /\ map u_txout undo = [mkTxOut 7 [2]]
    /\ utxo (a_coins (denote c2)) (mkOutPoint 500 1) = None
    /\ utxo (a_coins (denote c2)) (mkOutPoint 500 0) = Some (mkTxOut 5 [1])
    /\ utxo (a_coins (denote c2)) (mkOutPoint 602 0) = Some (mkTxOut 6 [0x51]).
Proof.
  destruct (UpdateCoins_exact tx_transfers height (Cache_new ledger) inputs_seen) as (undo & c2 & Hr & _ & Hu & Hp & _).
  - apply Cache_new_wf, ledger_wf.
  - vm_compute. reflexivity.
  - reflexivity.
  - repeat constructor. cbn. lia.
  - apply (bool_decide_unpack _). vm_compute. exact I.
  - split; [|reflexivity]. repeat constructor.
  - exists undo, c2. split; [exact Hr|].
    rewrite (Hp (mkOutPoint 500 1)), (Hp (mkOutPoint 500 0)), (Hp (mkOutPoint 602 0)) by (cbn; lia).
    split_and!; try (vm_compute; reflexivity). 
    change (map (fun i => utxo (a_coins (denote (Cache_new ledger))) (prevout i)) (tx_vin tx_transfers))
      with [Some (mkTxOut 7 [2])] in Hu. destruct undo as [|u [|]]; [done| |done].
    cbn in Hu |- *. by injection Hu as <-.
Defined.
