(* ===== verification/ScCert.v ===== *)
(** * Certificates connected and disconnected

    [UpdateSidechain] and [RestoreSidechain] for certificates, and the backward
    transfers of a superseded certificate, [NullifyBackwardTransfers] and
    [RestoreBackwardTransfers]: each pair is an exact round trip. *)

From stdpp Require Import base numbers list strings gmap fin_maps sets option.
From Stdlib Require Import ZArith Lia.
From S2P Require Import Prelude.
From S2P Require Import Amount.
From S2P Require Import Serialize.
From S2P Require Import ScTypes.
From S2P Require Import Primitives.
From S2P Require Import Sidechain.
From S2P Require Import Coins.
From S2P Require Import CoinsSer.
From S2P Require Import Undo.
From S2P Require Import Merkle.
From S2P Require Import View.
From S2P Require Import ViewLaws.
From S2P Require Import SampleLedger.
From S2P Require Import TopLaws.
From S2P Require Import ViewOps.
From S2P Require Import ScOps.
From S2P Require Import ScRound.
From S2P Require Import BlockCoins.
Open Scope Z_scope.
Open Scope zen_scope.

(** ** Erased events keep nothing *)
Definition stale_empty (m : gmap Z CSidechainEvents) : Prop := map_Forall (fun _ e => e = Events_empty) m.

(** all events are of the current version *)
Definition ev_version (E : gmap Z CSidechainEvents) : Prop := map_Forall (fun _ e => sidechainEventsVersion e = 0) E.

Definition ev_nonnull (E : gmap Z CSidechainEvents) : Prop := map_Forall (fun _ e => Events_IsNull e = false) E.

Lemma stale_empty_null m : stale_empty m -> null_events m.
Proof. intros Hm k e Hk. by rewrite (Hm k e Hk). Qed.

Lemma upd_event_version k f E :
  (forall e, sidechainEventsVersion (f e) = sidechainEventsVersion e) -> ev_version E -> ev_version (upd_event k f E).
Proof.
  intros Hf HE. apply upd_event_Forall; [done|]. rewrite Hf. by apply (default_inv _ (fun e => sidechainEventsVersion e = 0)).
Qed.

Lemma rem_event_version k f E :
  (forall e, sidechainEventsVersion (f e) = sidechainEventsVersion e) -> ev_version E -> ev_version (rem_event k f E).
Proof.
  intros Hf HE. unfold rem_event. destruct (Events_IsNull _); [by apply map_Forall_delete|].
  apply map_Forall_insert_2; [|done]. rewrite Hf. by apply (default_inv _ (fun e => sidechainEventsVersion e = 0)).
Qed.

Lemma rem_event_nonnull k f E : ev_nonnull E -> ev_nonnull (rem_event k f E).
Proof.
  intros HE. unfold rem_event. destruct (Events_IsNull _) eqn:En; [by apply map_Forall_delete|].
  by apply map_Forall_insert_2.
Qed.

Lemma null_is_empty e : Events_IsNull e = true -> sidechainEventsVersion e = 0 -> e = Events_empty.
Proof. rewrite Events_IsNull_spec. intros [H1 H2] H3. by apply events_eq. Qed.

(** Moving a sidechain from one height to another and back. *)
Lemma move_event_back sid p n E :
  ev_nonnull E -> ev_version E -> sid ∈ ceasingScs (default Events_empty (E !! p)) ->
  sid ∉ ceasingScs (default Events_empty (E !! n)) ->
  upd_event p (add_ceasing sid) (rem_event n (erase_ceasing sid)
    (upd_event n (add_ceasing sid) (rem_event p (erase_ceasing sid) E))) = E.
Proof.
  intros Hnn Hv Hp Hn. assert (Hne : n <> p) by (intros ->; done).
  set (E1 := rem_event p (erase_ceasing sid) E).
  assert (H1 : E1 !! n = E !! n) by (unfold E1; by rewrite lookup_rem_event, decide_False).
  assert (H2 : rem_event n (erase_ceasing sid) (upd_event n (add_ceasing sid) E1) = E1).
  { apply map_eq. intros k. rewrite lookup_rem_event. unfold upd_event. case_decide as Hk; [subst k|by simplify_map_eq].
    rewrite lookup_insert_eq. cbn [default from_option id]. rewrite H1.
    assert (Hex : erase_ceasing sid (add_ceasing sid (default Events_empty (E !! n))) = default Events_empty (E !! n)).
    { apply events_eq; try done. cbn. set_solver. }
    rewrite Hex. destruct (E !! n) as [e|] eqn:En; cbn; [by rewrite (Hnn _ _ En)|done]. }
  rewrite H2. apply map_eq. intros k. unfold upd_event. destruct (decide (k = p)) as [->|].
  - rewrite lookup_insert_eq. unfold E1. rewrite lookup_rem_event, decide_True by done.
    destruct (E !! p) as [e|] eqn:Ep; cbn [default from_option id] in *; [|done]. f_equal.
    destruct (Events_IsNull (erase_ceasing sid e)) eqn:Eno; cbn [default from_option id].
    + apply Events_IsNull_spec in Eno as [N1 N2]. cbn in N1, N2. apply events_eq; cbn.
      * by rewrite (Hv _ _ Ep).
      * rewrite <- N1. symmetry. by apply union_difference_singleton_L.
      * by rewrite N2.
    + apply events_eq; try done. cbn. symmetry. by apply union_difference_singleton_L.
  - rewrite lookup_insert_ne by done. unfold E1. by rewrite lookup_rem_event, decide_False.
Qed.

(** ** One sidechain *)
Lemma has_lor m x b : has (Z.lor m x) b = has m b || has x b.
Proof.
  unfold has. rewrite <- negb_andb. f_equal. rewrite Z.land_lor_distr_l. apply eq_true_iff_eq.
  rewrite andb_true_iff, !Z.eqb_eq. apply Z.lor_eq_0_iff.
Qed.

(** the part of the undo data that restoring a certificate reads *)
Definition cert_undo (u : CSidechainUndoData) :=
  (su_pastEpochTopQualityCertView u, su_scFees u, prevTopCommittedCertHash u,
   prevTopCommittedCertReferencedEpoch u, prevTopCommittedCertQuality u, prevTopCommittedCertBwtAmount u,
   su_lastTopQualityCertView u).

(** [u'] is [u] with more sections filled *)
Definition extends (u u' : CSidechainUndoData) : Prop :=
  cert_undo u' = cert_undo u
  /\ forall b, has (contentBitMask u) b = true -> has (contentBitMask u') b = true.

Lemma UpdateScFees_inv v s s' : UpdateScFees v s = Ok s' ->
  exists f, s' = set_fees (maxSizeOfScFeesContainers s) f s /\ 0 < maxSizeOfScFeesContainers s /\ f <> [].
Proof.
  unfold UpdateScFees. destruct (Z.ltb_spec 0 (maxSizeOfScFeesContainers s)) as [Hm|]; [|done]. cbn [negb].
  set (l := scFees s ++ _). intros [= <-]. eexists. split; [done|]. split; [done|].
  assert (Hl : l <> []) by (unfold l; by destruct (scFees s)). destruct (Z.ltb_spec 0 (vsize l - maxSizeOfScFeesContainers s)); [|done].
  rewrite pop_front_n_drop. intros Hd%(f_equal length). rewrite length_drop in Hd. cbn in Hd. unfold vsize in *.
  lia.
Qed.

(** what a successful update does *)
Definition cert_step `{ZendooLib} (cert : CScCertificate) (u : CSidechainUndoData) (s : CSidechain)
    (u' : CSidechainUndoData) (s' : CSidechain) : Prop :=
  forall fl, cert_update_entry cert u (mkEntry s fl)
  = Ok ((true, u', GetScheduledCeasingHeight s, GetScheduledCeasingHeight s'), mkEntry s' DIRTY).

Section Entry.
  Context `{ZendooLib} `{NodeConfig}.
  Context (cert : CScCertificate) (u : CSidechainUndoData).

Lemma cert_update_cases s fl r e' :
  cert_update_entry cert u (mkEntry s fl) = Ok (r, e') -> r.1.1.1 = true ->
  exists s1 u1 view, cert_epoch_step cert s u = Ok (true, s1, u1)
    /\ GetValueOfBackwardTransfers cert <= balance s1
    /\ CertView_of cert (fixedParams s1) = Ok view
    /\ let s2 := set_balance (balance s1 - GetValueOfBackwardTransfers cert) s1 in
       let s3 := set_lastCert view (cert_hash cert) (epochNumber cert) (quality cert)
                   (GetValueOfBackwardTransfers cert) s2 in
       r = (true, undo_any s2 u1, GetScheduledCeasingHeight s, GetScheduledCeasingHeight s3) /\ e' = mkEntry s3 DIRTY.
Proof.
  unfold cert_update_entry. cbn [content flag]. destruct (cert_epoch_step cert s u) as [[[ok s1] u1]|] eqn:E; [|done].
  cbn [res_bind]. destruct ok; cbn [negb]; [|by intros [= <- <-]].
  destruct (Z.ltb_spec (balance s1) (GetValueOfBackwardTransfers cert)) as [Hb|Hb]; [by intros [= <- <-]|].
  cbn [set_balance fixedParams]. destruct (CertView_of cert (fixedParams s1)) as [view|] eqn:Ev; [|done].
  cbn [res_bind]. intros [= <- <-] _. exists s1, u1, view. done.
Qed.

Lemma cert_update_step s fl r e' :
  cert_update_entry cert u (mkEntry s fl) = Ok (r, e') -> r.1.1.1 = true ->
  exists u' s', cert_step cert u s u' s' /\ r = (true, u', GetScheduledCeasingHeight s, GetScheduledCeasingHeight s')
    /\ e' = mkEntry s' DIRTY.
Proof.
  intros Hr Ht. destruct (cert_update_cases _ _ _ _ Hr Ht) as (s1 & u1 & view & Hs & Hb & Hv & -> & ->).
  eexists _, _. split; [|done]. intros fl'. unfold cert_update_entry. cbn [content flag]. rewrite Hs. cbn [res_bind negb].
  rewrite (proj2 (Z.ltb_ge _ _) Hb). cbn [set_balance fixedParams]. by rewrite Hv.
Qed.

(** Restoring gives back the sidechain there was. *)
Lemma cert_restore_step s u' s' u'' fl :
  cert_step cert u s u' s' -> extends u' u'' ->
  cert_restore_entry cert u'' (mkEntry s' fl)
  = Ok ((true, GetScheduledCeasingHeight s', s), mkEntry s DIRTY).
Proof.
  intros Hst [Hex Hbits]. destruct (cert_update_cases _ _ _ _ (Hst DIRTY) eq_refl) as (s1 & u1 & view & Hs & Hb & Hv & Hr & He).
  injection Hr as Hu' _. injection He as Hs'. rewrite Hu' in Hex. cbn in Hex. injection Hex as X1 X2 X3 X4 X5 X6 X7.
  assert (Hany : has (contentBitMask u'') ANY_EPOCH_CERT_DATA = true).
  { apply Hbits. rewrite Hu'. cbn [contentBitMask undo_any]. by rewrite has_lor, orb_true_r. }
  unfold cert_restore_entry. cbn [content flag]. rewrite Hany. subst s'. cbn [lastTopQualityCertHash set_lastCert].
  rewrite Z.eqb_refl. cbn [negb]. rewrite X4. unfold cert_epoch_step in Hs.
  destruct (Z.eqb_spec (epochNumber cert) (lastTopQualityCertReferencedEpoch s + 1)) as [Ee|Ee].
  - destruct (UpdateScFees _ _) as [s2|] eqn:Hf; [|done]. apply UpdateScFees_inv in Hf as (f & -> & _).
    cbn [res_bind] in Hs. injection Hs as <- <-.
    cbn [lastTopQualityCertReferencedEpoch set_balance set_fees set_pastView]. rewrite (proj2 (Z.eqb_eq _ _) Ee).
    assert (has (contentBitMask u'') CROSS_EPOCH_CERT_DATA = true) as ->.
    { apply Hbits. rewrite Hu'. cbn [contentBitMask undo_any undo_cross]. by rewrite !has_lor, !orb_true_r. }
    cbn [negb]. rewrite X1, X2, X3, X5, X6, X7.
    match goal with |- Ok (_, _, ?a, _) = _ => assert (a = s) as ->; [|done] end. destruct s; unfold set_lastCert; cbn; f_equal; lia.
  - destruct (Z.eqb_spec (epochNumber cert) (lastTopQualityCertReferencedEpoch s)) as [E2|E2]; [|done].
    destruct (Z.leb_spec (quality cert) (lastTopQualityCertQuality s)) as [Hq|Hq]; [done|]. injection Hs as <- <-.
    cbn [lastTopQualityCertReferencedEpoch set_balance lastTopQualityCertQuality] in *. 
    rewrite (proj2 (Z.eqb_neq _ _) Ee), (proj2 (Z.eqb_eq _ _) E2), X5. cbn [lastTopQualityCertQuality set_balance].
    rewrite (proj2 (Z.ltb_lt _ _) Hq). cbn [negb]. rewrite X3, X6, X7.
    match goal with |- Ok (_, _, ?a, _) = _ => assert (a = s) as ->; [|done] end. destruct s; unfold set_lastCert; cbn; f_equal; lia.
Qed.
End Entry.

(** ** On the view *)

(** the sidechain's record, and its place among the scheduled events if the
    certificate begins a new epoch *)
Definition cert_moves (cert : CScCertificate) (s : CSidechain) : bool :=
  negb (epochNumber cert =? lastTopQualityCertReferencedEpoch s).

Definition conn_cert (cert : CScCertificate) (s s' : CSidechain) (se : SE) : SE :=
  let sid := cert_scId cert in
  (<[sid := s']> se.1,
   if cert_moves cert s
   then upd_event (GetScheduledCeasingHeight s') (add_ceasing sid)
          (rem_event (GetScheduledCeasingHeight s) (erase_ceasing sid) se.2)
   else se.2).

Section View.
  Context `{ZendooLib} `{NodeConfig} {V : Type} `{CCoinsView V} `{ViewSpec V} `{!ViewLaws V} `{!FreshOk V}.
Local Notation C := (CCoinsViewCache V).

Lemma awp_event_add_st k f P t :
  stale_empty (t_ev_stale t) ->
  (forall st, stale_empty st -> P tt (mkTop (with_ev (upd_event k f) (t_view t)) (t_sc_stale t) st (t_csw_stale t))) ->
  awp (modify_ev (V := V) k (event_add f)) P t.
Proof.
  intros Hst HP. apply awp_modify_ev. intros e Hc [Hp Hn].
  assert (Hc' : content e = default Events_empty (t_ev t !! k)).
  { rewrite Hc. unfold ev_content. destruct (t_ev t !! k); [done|]. cbn.
    by apply (default_inv _ (fun e => e = Events_empty)). }
  eexists tt, _. split; [reflexivity|]. split.
  - right. unfold keep_fresh. cbn. case_decide; [right; right; done|by left].
  - rewrite upd_ev_live by (cbn; unfold keep_fresh; by case_decide). cbn [content]. rewrite Hc'.
    apply HP. by apply map_Forall_delete.
Qed.

Lemma awp_event_remove_st k f P t :
  stale_empty (t_ev_stale t) -> ev_version (t_ev t) ->
  (forall e, sidechainEventsVersion (f e) = sidechainEventsVersion e) -> f Events_empty = Events_empty ->
  (forall st, stale_empty st -> P tt (mkTop (with_ev (rem_event k f) (t_view t)) (t_sc_stale t) st (t_csw_stale t))) ->
  awp (modify_ev (V := V) k (event_remove f)) P t.
Proof.
  intros Hst Hv Hf Hf0 HP. apply awp_modify_ev. intros e Hc [Hp Hn].
  assert (Hc' : content e = default Events_empty (t_ev t !! k)).
  { rewrite Hc. unfold ev_content. destruct (t_ev t !! k); [done|]. cbn.
    by apply (default_inv _ (fun e => e = Events_empty)). }
  assert (Hver : sidechainEventsVersion (f (content e)) = 0).
  { rewrite Hf, Hc'. by apply (default_inv _ (fun e => sidechainEventsVersion e = 0)). }
  unfold event_remove. eexists tt, _. split; [reflexivity|]. split.
  - right. cbn. destruct (Events_IsNull _); cbn; auto.
  - unfold rem_event, t_ev, with_ev in *. rewrite Hc' in *.
    destruct (Events_IsNull (f (default Events_empty (a_ev (t_view t) !! k)))) eqn:En; cbn [negb].
    + rewrite upd_ev_erased by done. apply HP. apply map_Forall_insert_2; [|done]. by apply null_is_empty.
    + rewrite upd_ev_live by done. apply HP. by apply map_Forall_delete.
Qed.

Lemma erase_ceasing_version sid e : sidechainEventsVersion (erase_ceasing sid e) = sidechainEventsVersion e.
Proof. done. Qed.

Lemma erase_ceasing_empty sid : erase_ceasing sid Events_empty = Events_empty.
Proof. apply events_eq; try done. cbn. set_solver. Qed.

Lemma mem_ok_nonempty s : sc_mem_ok s -> scFees s <> [] -> getMaxSizeOfScFeesContainers s = Ok (maxSizeOfScFeesContainers s).
Proof.
  unfold sc_mem_ok, sidechain_read. intros Hs Hf. destruct (scFees s) as [|x l]; [done|]. cbn [is_empty negb] in Hs.
  destruct (getMaxSizeOfScFeesContainers s) as [mx|]; [|done]. cbn in Hs. injection Hs as Hs.
  apply (f_equal maxSizeOfScFeesContainers) in Hs. cbn in Hs. by rewrite Hs.
Qed.

Lemma mem_ok_fees s s' f :
  sc_mem_ok s -> 0 < maxSizeOfScFeesContainers s -> epochLength s' = epochLength s ->
  maxSizeOfScFeesContainers s' = maxSizeOfScFeesContainers s -> scFees s' = f -> f <> [] -> sc_mem_ok s'.
Proof.
  intros Hs Hm He Hx <- Hf. assert (Hne : scFees s <> []).
  { intros E. unfold sc_mem_ok, sidechain_read in Hs. rewrite E in Hs. cbn in Hs. injection Hs as Hs.
    apply (f_equal maxSizeOfScFeesContainers) in Hs. cbn in Hs. lia. }
  pose proof (mem_ok_nonempty s Hs Hne) as Hg. unfold sc_mem_ok, sidechain_read. destruct (scFees s') as [|x l] eqn:E; [done|].
  cbn [is_empty negb]. unfold getMaxSizeOfScFeesContainers in *. rewrite He, Hg. cbn. rewrite <- Hx, <- E. f_equal. by destruct s'.
Qed.

Lemma mem_ok_ext s s' :
  sc_mem_ok s -> epochLength s' = epochLength s -> maxSizeOfScFeesContainers s' = maxSizeOfScFeesContainers s ->
  scFees s' = scFees s -> sc_mem_ok s'.
Proof.
  unfold sc_mem_ok, sidechain_read, getMaxSizeOfScFeesContainers. intros Hs He Hm Hf. rewrite He, Hf.
  destruct (is_empty (scFees s)); cbn [negb] in *.
  - injection Hs as Hs. apply (f_equal maxSizeOfScFeesContainers) in Hs. cbn in Hs. rewrite Hs, <- Hm, <- Hf. by destruct s'.
  - destruct (negb (0 <? epochLength s)); [done|]. cbn in *. injection Hs as Hs. apply (f_equal maxSizeOfScFeesContainers) in Hs.
    cbn in Hs. rewrite Hs, <- Hm, <- Hf. by destruct s'.
Qed.

Lemma cert_step_mem_ok cert u s u' s' : sc_mem_ok s -> cert_step cert u s u' s' -> sc_mem_ok s'.
Proof.
  intros Hs Hst. destruct (cert_update_cases _ _ _ _ _ _ (Hst DIRTY) eq_refl) as (s1 & u1 & view & He & _ & _ & _ & Hs').
  injection Hs' as ->. apply (mem_ok_ext s1); try done. unfold cert_epoch_step in He.
  destruct (_ =? _).
  - destruct (UpdateScFees _ _) as [s2|] eqn:Hf; [|done]. apply UpdateScFees_inv in Hf as (f & -> & Hm & Hf).
    injection He as <- _. by apply (mem_ok_fees s _ f).
  - destruct (_ =? _); [|done]. destruct (_ <=? _); [done|]. injection He as <- _. by apply mem_ok_balance.
Qed.

Lemma cert_step_prev cert u s u' s' : cert_step cert u s u' s' ->
  prevTopCommittedCertReferencedEpoch u' = lastTopQualityCertReferencedEpoch s
  /\ prevTopCommittedCertHash u' = lastTopQualityCertHash s.
Proof.
  intros Hst. destruct (cert_update_cases _ _ _ _ _ _ (Hst DIRTY) eq_refl) as (s1 & u1 & view & He & _ & _ & Hr & _).
  injection Hr as -> _. cbn. unfold cert_epoch_step in He. destruct (_ =? _).
  - destruct (UpdateScFees _ _) as [s2|] eqn:Hf; [|done]. apply UpdateScFees_inv in Hf as (f & -> & Hm & Hf).
    by injection He as <- _.
  - destruct (_ =? _); [|done]. destruct (_ <=? _); [done|]. by injection He as <- _.
Qed.

Lemma set_undo_twice sid u u' bu : set_undo sid u (set_undo sid u' bu) = set_undo sid u bu.
Proof. unfold set_undo. cbn. by rewrite insert_insert_eq. Qed.

Lemma alp_UpdateSidechain_cert cert bu t :
  stale_empty (t_ev_stale t) -> ev_version (t_ev t) ->
  alp fst (UpdateSidechain_cert (V := V) cert bu) (fun r t' => exists s u' s' st,
    t_sc t !! cert_scId cert = Some s /\ sc_mem_ok s /\ cert_step cert (undo_at (cert_scId cert) bu) s u' s'
    /\ prevTopCommittedCertHash (undo_at (cert_scId cert) bu) = 0
    /\ (cert_moves cert s = true -> is_Some (t_ev t !! GetScheduledCeasingHeight s))
    /\ r.2 = set_undo (cert_scId cert) u' bu /\ stale_empty st
    /\ t' = mkTop (put (conn_cert cert s s' (t_sc t, t_ev t)) (t_view t)) (delete (cert_scId cert) (t_sc_stale t)) st (t_csw_stale t)) t.
Proof.
  intros Hst Hv. apply alp_mem. intros Hok. unfold UpdateSidechain_cert. set (sid := cert_scId cert) in *.
  apply alp_massert. intros Hz%Z.eqb_eq. apply alp_bind, awp_awlp, awp_HaveSidechain.
  destruct (t_sc t !! sid) as [s|] eqn:Es; [|by apply alp_bad]. rewrite bool_decide_true by done. cbn [negb].
  apply (alp_then (fun r => r.1.1.1)); [|intros [[[ok u'] p] n] c r c' Hbad; cbn in Hbad; subst ok; by intros [= <- _]].
  apply alp_modify_sc. intros [co fl] Hc Hcar r e' Hr Hgood. rewrite (sc_content_some _ _ _ Es) in Hc. cbn in Hc. subst co.
  destruct (cert_update_step _ _ _ _ _ _ Hr Hgood) as (u1 & s' & Hstep & -> & ->).
  split; [right; by left|]. split; [intros _; eapply cert_step_mem_ok; [apply (Hok _ _ Es)|exact Hstep]|].
  rewrite upd_sc_live by done. cbn [content negb].
  assert (Hprev : prevTopCommittedCertReferencedEpoch u1 = lastTopQualityCertReferencedEpoch s) by (by eapply (cert_step_prev cert)).
  rewrite Hprev. fold (cert_moves cert s). destruct (cert_moves cert s) eqn:Em.
  - apply alp_bind, awp_awlp, awp_HaveSidechainEvents. unfold t_ev at 1. cbn [t_view with_sc a_ev]. fold (t_ev t).
    case_bool_decide as Hev; cbn [negb]; [|by apply alp_bad].
    apply alp_bind, awp_awlp, awp_event_remove_st; [done|done|done|apply erase_ceasing_empty|]. intros st1 Hst1.
    apply alp_bind, awp_awlp, awp_event_add_st; [done|]. intros st2 Hst2. apply alp_ret. intros _.
    exists s, u1, s', st2. split_and!; try done; [by apply (Hok _ _ Es)|by rewrite set_undo_twice|].
    cbn [t_view t_sc_stale t_csw_stale]. unfold conn_cert. rewrite Em. done.
  - apply alp_ret. intros _. exists s, u1, s', (t_ev_stale t). split_and!; try done; [by apply (Hok _ _ Es)|by rewrite Em|by rewrite set_undo_twice|].
    unfold conn_cert. rewrite Em. done.
Qed.

Lemma awp_RestoreSidechain cert u u' u'' s s' S E P t :
  cert_step cert u s u' s' -> extends u' u'' -> sc_mem_ok s -> S !! cert_scId cert = Some s ->
  ev_nonnull E -> ev_version E ->
  (cert_moves cert s = true -> cert_scId cert ∈ ceasingScs (default Events_empty (E !! GetScheduledCeasingHeight s))
    /\ cert_scId cert ∉ ceasingScs (default Events_empty (E !! GetScheduledCeasingHeight s'))) ->
  (t_sc t, t_ev t) = conn_cert cert s s' (S, E) -> stale_empty (t_ev_stale t) ->
  (forall st, stale_empty st -> P true (mkTop (put (S, E) (t_view t)) (delete (cert_scId cert) (t_sc_stale t)) st (t_csw_stale t))) ->
  awp (RestoreSidechain (V := V) cert u'') P t.
Proof.
  intros Hstep Hext Hmem HS Hnn Hv Hmove Ht Hst HP. unfold RestoreSidechain. set (sid := cert_scId cert) in *.
  injection Ht as Hsc Hev. fold sid in Hsc, Hev.
  assert (Es : t_sc t !! sid = Some s') by (by rewrite Hsc, lookup_insert_eq).
  apply awp_bind, awp_HaveSidechain. rewrite Es, bool_decide_true by done. cbn [negb].
  apply awp_bind, awp_modify_sc. intros [co fl] Hc _ _. rewrite (sc_content_some _ _ _ Es) in Hc. cbn in Hc. subst co.
  eexists _, _. split; [by eapply cert_restore_step|]. split; [right; by left|]. split; [done|].
  rewrite upd_sc_live by done. cbn [content negb]. fold (cert_moves cert s).
  assert (Hback : <[sid := s]> (t_sc t) = S) by (rewrite Hsc, insert_insert_eq; by apply insert_id).
  destruct (cert_moves cert s).
  - destruct (Hmove eq_refl) as [Hin Hout]. apply awp_bind, awp_HaveSidechainEvents.
    assert (Hpres : is_Some (t_ev t !! GetScheduledCeasingHeight s')) by (rewrite Hev; unfold upd_event; by rewrite lookup_insert_eq).
    unfold t_ev at 1. cbn [t_view with_sc a_ev]. fold (t_ev t). rewrite bool_decide_true by done. cbn [negb].
    apply awp_bind, awp_event_remove_st; [done| |done|apply erase_ceasing_empty|].
    { unfold t_ev. cbn [t_view with_sc a_ev]. fold (t_ev t). rewrite Hev. by apply upd_event_version, rem_event_version. }
    intros st1 Hst1. apply awp_bind, awp_event_add_st; [done|]. intros st2 Hst2. apply awp_ret.
    specialize (HP _ Hst2). revert HP. cbn [t_view t_sc_stale t_csw_stale].
    match goal with |- P true ?x -> P true ?y => assert (y = x) as ->; [|done] end.
    unfold put, with_ev, with_sc. cbn. fold (t_sc t) (t_ev t). rewrite Hback, Hev. do 2 f_equal.
    by apply move_event_back.
  - apply awp_ret. specialize (HP _ Hst). revert HP. cbn [t_view t_sc_stale t_csw_stale].
    match goal with |- P true ?x -> P true ?y => assert (y = x) as ->; [|done] end.
    unfold put, with_ev, with_sc. cbn. fold (t_sc t) (t_ev t). by rewrite Hback, Hev.
Qed.
End View.
