(* ===== verification/BwtOps.v ===== *)
(** * Backward transfers nullified and restored

    [NullifyBackwardTransfers] spends the outputs of a certificate from its first
    backward transfer on, [RestoreBackwardTransfers] puts them back. *)

From stdpp Require Import base numbers list strings gmap fin_maps sets option.
From Stdlib Require Import ZArith Lia.
From S2P Require Import Prelude.
From S2P Require Import Amount.
From S2P Require Import Serialize.
From S2P Require Import ScTypes.
From S2P Require Import Primitives.
From S2P Require Import Sidechain.
From S2P Require Import Coins.
From S2P Require Import CoinsSer.
From S2P Require Import Undo.
From S2P Require Import Merkle.
From S2P Require Import View.
From S2P Require Import ViewLaws.
From S2P Require Import SampleLedger.
From S2P Require Import TopLaws.
From S2P Require Import ViewOps.
From S2P Require Import ScOps.
From S2P Require Import ScRound.
From S2P Require Import BlockCoins.
Open Scope Z_scope.
Open Scope zen_scope.

(** ** Vectors without a null output at the end *)
Lemma clean_last l : clean l <-> (forall o, l !! pred (length l) = Some o -> TxOut_IsNull o = false).
Proof.
  unfold clean. induction l as [|o l IH]; [done|]. cbn [pop_null_back]. destruct l as [|o' l'].
  - cbn. destruct (TxOut_IsNull o) eqn:E; split; try done; [intros Hx; by specialize (Hx o eq_refl); congruence|].
    by intros _ o1 [= <-].
  - change ((o :: o' :: l') !! pred (length (o :: o' :: l'))) with ((o' :: l') !! pred (length (o' :: l'))).
    rewrite <- IH. split; intros Hx.
    + destruct (pop_null_back (o' :: l')) eqn:E; [destruct (TxOut_IsNull o); done|]. by injection Hx as <- <-.
    + by rewrite Hx.
Qed.

Lemma clean_avail l : clean l -> l <> [] -> is_Some (avail_at l (pred (length l))).
Proof.
  intros Hc Hl. rewrite clean_last in Hc. destruct (l !! pred (length l)) as [o|] eqn:E.
  - unfold avail_at. by rewrite E, (Hc o eq_refl).
  - apply lookup_ge_None in E. destruct l; [done|]. cbn in E. lia.
Qed.

Lemma clean_insert l i : clean l -> (S i < length l)%nat -> clean (<[i := TxOut_SetNull]> l).
Proof.
  rewrite !clean_last. intros Hc Hi o Ho. apply Hc. rewrite length_insert in Ho.
  rewrite list_lookup_insert_ne in Ho by lia. done.
Qed.

Lemma clean_length l n : clean l -> (forall i, (n <= i)%nat -> avail_at l i = None) -> (length l <= n)%nat.
Proof.
  intros Hc Hn. destruct (decide (l = [])) as [->|Hl]; [cbn; lia|]. destruct (clean_avail l Hc Hl) as [o Ho].
  destruct (decide (length l <= n)%nat); [done|]. rewrite Hn in Ho; [done|]. lia.
Qed.

Lemma Spend_inner pos c o :
  coins_wf c -> vout c !! Z.to_nat pos = Some o -> (S (Z.to_nat pos) < length (vout c))%nat ->
  vout (Spend pos c).2 = <[Z.to_nat pos := TxOut_SetNull]> (vout c).
Proof.
  intros [Hc Hn] Ho Hl. unfold Spend. rewrite Ho. destruct (TxOut_IsNull o) eqn:E.
  - cbn. rewrite (Hn _ _ Ho E) in Ho. by rewrite list_insert_id.
  - cbn. by apply clean_insert.
Qed.

(** ** The loop *)

(** undo information for the output at [pos], with the header exactly when [last] *)
Definition bwt_undo (last : bool) (c : CCoins) (u : CTxInUndo) : Prop :=
  if last then u = mkTxInUndo (u_txout u) (fCoinBase c) (to_u32 (nHeight c)) (nVersion c) (coins_nFirstBwtPos c) (nBwtMaturityHeight c)
  else u = TxInUndo_of (u_txout u).

Lemma nullify_loop_spec fuel pos c acc :
  0 <= pos < 2 ^ 63 -> vsize (vout c) < 2 ^ 32 -> coins_wf c -> (length (vout c) <= Z.to_nat pos + fuel)%nat ->
  exists us c', nullify_loop fuel pos c acc = Ok (acc ++ us, c') /\ coins_wf c' /\ set_vout (vout c) c' = c
    /\ (forall i, avail_at (vout c') i = if decide (i < Z.to_nat pos)%nat then avail_at (vout c) i else None)
    /\ map u_txout us = drop (Z.to_nat pos) (vout c)
    /\ forall idx u, us !! idx = Some u -> bwt_undo (bool_decide (S idx = length us) && IsPruned c') c u.
Proof.
  revert pos c acc. induction fuel as [|fuel IH]; intros pos c acc Hpos Hsz Hwf Hfuel; cbn [nullify_loop].
  { exists [], c. rewrite app_nil_r. split; [done|]. split; [done|]. split; [by destruct c|].
    split; [|split; [by rewrite drop_ge by lia|done]]. intros i. case_decide; [done|]. unfold avail_at. by rewrite lookup_ge_None_2 by lia. }
  unfold vsize in *. assert (Hu64 : to_u64 pos = pos) by (unfold to_u64; rewrite Z.mod_small by lia; done). rewrite Hu64.
  destruct (Z.ltb_spec pos (Z.of_nat (length (vout c)))) as [Hlt|Hge].
  2:{ exists [], c. rewrite app_nil_r. split; [done|]. split; [done|]. split; [by destruct c|].
      split; [|split; [by rewrite drop_ge by lia|done]]. intros i. case_decide; [done|]. unfold avail_at. by rewrite lookup_ge_None_2 by lia. }
  assert (Hu32 : to_u32 pos = pos) by (unfold to_u32; rewrite Z.mod_small by lia; done). rewrite Hu32.
  destruct (vout c !! Z.to_nat pos) as [o|] eqn:Ho; [|apply lookup_ge_None in Ho; lia].
  set (c1 := (Spend pos c).2). pose proof (Spend_wf pos c ltac:(lia) Hwf) as Hwf1. fold c1 in Hwf1.
  pose proof (Spend_header pos c) as Hhd. fold c1 in Hhd. pose proof (fun i => Spend_avail pos c i ltac:(lia)) as Hav. fold c1 in Hav.
  assert (Hlen1 : (length (vout c1) <= length (vout c))%nat).
  { apply clean_length; [apply Hwf1|]. intros i Hi. rewrite Hav. case_decide; [done|]. unfold avail_at. by rewrite lookup_ge_None_2. }
  destruct (IH (pos + 1) c1 (acc ++ [spent_undo o c1])) as (us & c' & Hrun & Hwf' & Hhd' & Hav' & Hmap & Hus); try done; try lia.
  assert (Hdrop : drop (Z.to_nat (pos + 1)) (vout c1) = drop (S (Z.to_nat pos)) (vout c)).
  { replace (Z.to_nat (pos + 1)) with (S (Z.to_nat pos)) by lia.
    destruct (decide (S (Z.to_nat pos) < length (vout c))%nat) as [Hin|Hout].
    - unfold c1. rewrite (Spend_inner pos c o) by done. by rewrite drop_insert_lt by lia.
    - by rewrite !drop_ge by lia. }
  exists (spent_undo o c1 :: us), c'. split; [by rewrite Hrun, <- app_assoc|]. split; [done|].
  assert (Huo : u_txout (spent_undo o c1) = o) by (unfold spent_undo; by destruct (_ =? _)).
  split; [|split; [|split]].
  - rewrite <- Hhd at 2. rewrite <- Hhd'. done.
  - intros i. rewrite Hav', Hav. repeat case_decide; try done; try lia.
  - cbn [map]. rewrite Huo, Hmap, Hdrop. symmetry. by apply drop_S.
  - intros [|idx] u Hu; cbn in Hu.
    + injection Hu as <-. unfold bwt_undo. rewrite Huo. unfold spent_undo.
      assert (Hz : (vsize (vout c1) =? 0) = IsPruned c1).
      { apply eq_true_iff_eq. rewrite (IsPruned_clean c1) by apply Hwf1. rewrite Z.eqb_eq. unfold vsize.
        destruct (vout c1); cbn; split; intros; try done; lia. }
      rewrite Hz. destruct us as [|u us].
      * assert (Hp : IsPruned c' = IsPruned c1).
        { apply eq_true_iff_eq. rewrite !IsPruned_avail. cbn in Hmap. apply (f_equal length) in Hmap. cbn in Hmap.
          rewrite length_drop in Hmap. split; intros Hx i; specialize (Hx i); rewrite Hav' in *.
          - case_decide; [done|]. unfold avail_at. by rewrite lookup_ge_None_2 by lia.
          - by case_decide. }
        rewrite Hp. cbn. destruct (IsPruned c1); [|done]. by rewrite <- Hhd.
      * rewrite bool_decide_false by (cbn; lia). cbn [andb]. destruct (IsPruned c1) eqn:Ep; [|done].
        apply (IsPruned_clean c1) in Ep; [|apply Hwf1]. rewrite Ep, drop_nil in Hmap. done.
    + apply Hus in Hu. cbn [length].
      assert (Hb : bool_decide (S (S idx) = S (length us)) = bool_decide (S idx = length us)) by (apply bool_decide_ext; lia).
      rewrite Hb. revert Hu. unfold bwt_undo. destruct (_ && _); [|done]. intros ->. cbn. rewrite <- Hhd. done.
Qed.

(** ** Taking the backward transfers of a certificate's coins *)

(** the first position [NullifyBackwardTransfers] looks at; a negative one is
    beyond every vector *)
Definition bwt_start (c : CCoins) : nat :=
  if coins_nFirstBwtPos c <? 0 then length (vout c) else Z.to_nat (coins_nFirstBwtPos c).

Definition cut (c : CCoins) : CCoins := Cleanup (set_vout (take (bwt_start c) (vout c)) c).

Lemma cut_avail c i : avail_at (vout (cut c)) i = if decide (i < bwt_start c)%nat then avail_at (vout c) i else None.
Proof.
  unfold cut, Cleanup. cbn [vout set_vout]. rewrite avail_pop_null_back. unfold avail_at. rewrite lookup_take.
  by case_decide.
Qed.

Lemma cut_wf c : coins_wf c -> coins_wf (cut c).
Proof.
  intros [_ Hc]. split; [apply pop_null_back_idem|]. apply canon_pop. intros i o Hi Ho.
  apply lookup_take_Some in Hi as [Hi _]. by apply (Hc i).
Qed.

Lemma cut_header c : set_vout (vout c) (cut c) = c.
Proof. by destruct c. Qed.

Lemma cut_id c : coins_wf c -> (length (vout c) <= bwt_start c)%nat -> cut c = c.
Proof. intros [Hc _] Hl. unfold cut, Cleanup. cbn [vout set_vout]. rewrite take_ge, Hc by done. by destruct c. Qed.

(** what is recorded *)
Definition nullified (a : CCoins) (us : list CTxInUndo) : Prop :=
  map u_txout us = drop (bwt_start a) (vout a)
  /\ forall idx u, us !! idx = Some u ->
       if bool_decide (S idx = length us) && IsPruned (cut a) then header_fits a u else u_nHeight u = 0.

Inductive bwts_nullified (D : gmap Z CCoins) (h : Z) : list CTxInUndo -> gmap Z CCoins -> Prop :=
| nullified_none : h = 0 \/ D !! h = None -> bwts_nullified D h [] D
| nullified_some a us :
    D !! h = Some a -> coins_good a -> nullified a us ->
    bwts_nullified D h us (partial_alter (fun _ => coins_abs (cut a)) h D).

Lemma coins_ext c c' :
  coins_wf c -> coins_wf c' -> set_vout (vout c) c' = c -> (forall i, avail_at (vout c) i = avail_at (vout c') i) -> c = c'.
Proof.
  intros [C1 N1] [C2 N2] Hh Ha. rewrite <- Hh, (avail_ext _ _ C1 C2 N1 N2 Ha). by destruct c'.
Qed.

Lemma nullify_coins_spec co acc :
  coins_ok co -> coins_bound co -> nBwtMaturityHeight co <> 0 ->
  exists us, nullify_coins acc co = Ok (acc ++ us, cut co) /\ (IsPruned co = false -> nullified (coins_stored co) us).
Proof.
  intros [Hwf Hs] (Hh & Hsz & Hf) Hm. unfold nullify_coins. rewrite (proj2 (Z.eqb_neq _ _) Hm).
  destruct (Z.ltb_spec (coins_nFirstBwtPos co) 0) as [Hneg|Hpos].
  - assert (Hst : bwt_start co = length (vout co)) by (unfold bwt_start; by rewrite (proj2 (Z.ltb_lt _ _) Hneg)).
    assert (Hcut : cut co = co) by (apply cut_id; [done|lia]).
    exists []. split.
    + rewrite app_nil_r, Hcut. destruct (length (vout co)); cbn [nullify_loop]; [done|].
      unfold to_u64, vsize in *. replace (coins_nFirstBwtPos co mod 2 ^ 64) with (coins_nFirstBwtPos co + 2 ^ 64)
        by (rewrite <- (Z.mod_unique _ (2^64) (-1) (coins_nFirstBwtPos co + 2 ^ 64)); lia).
      by rewrite (proj2 (Z.ltb_ge _ _)) by lia.
    + intros _. split; [|done]. cbn. rewrite drop_ge; [done|]. unfold bwt_start. cbn. by rewrite (proj2 (Z.ltb_lt _ _) Hneg).
  - assert (Hst : bwt_start co = Z.to_nat (coins_nFirstBwtPos co)) by (unfold bwt_start; by rewrite (proj2 (Z.ltb_ge _ _) Hpos)).
    destruct (nullify_loop_spec (length (vout co)) (coins_nFirstBwtPos co) co acc) as (us & c' & Hrun & Hwf' & Hhd & Hav & Hmap & Hus);
      try done; try lia.
    assert (Hcut : c' = cut co).
    { apply coins_ext; [done|by apply cut_wf| |].
      - rewrite <- (cut_header co) in Hhd at 2. destruct c', co. cbn in *. unfold cut, Cleanup, set_vout in *. cbn in *. by simplify_eq.
      - intros i. by rewrite Hav, cut_avail, Hst. }
    exists us. rewrite <- Hcut. split; [done|]. intros Hp. split; [by change (bwt_start (coins_stored co)) with (bwt_start co); rewrite Hst|].
    intros idx u Hu. specialize (Hus idx u Hu). change (IsPruned (cut (coins_stored co))) with (IsPruned (cut co)).
    rewrite <- Hcut. revert Hus. unfold bwt_undo. destruct (_ && _); intros ->; [|done].
    unfold header_fits. cbn. unfold to_u32. rewrite Z.mod_small by lia. done.
Qed.

(** ** Putting them back *)
Section Restore.
  Context (a : CCoins) (us : list CTxInUndo).
  Hypothesis Hgood : coins_good a.
  Hypothesis Hnull : nullified a us.
  Hypothesis Hpos : 0 <= coins_nFirstBwtPos a.

(** the coins when [j] are left *)
Definition restoring (j : nat) (c : CCoins) : Prop :=
  coins_fit c /\ coins_stored (set_vout (vout a) c) = a
  /\ forall i, avail_at (vout c) i
     = if decide (bwt_start a <= i < bwt_start a + j)%nat then None else avail_at (vout a) i.

Lemma restoring_undo idx u : us !! idx = Some u -> vout a !! (bwt_start a + idx)%nat = Some (u_txout u).
Proof using Hnull.
  intros Hu. destruct Hnull as [Hmap _]. rewrite <- lookup_drop, <- Hmap.
  change (map u_txout us) with (u_txout <$> us). by rewrite list_lookup_fmap, Hu.
Qed.

Lemma restoring_first c : coins_stored (set_vout (vout a) c) = a -> coins_nFirstBwtPos c = Z.of_nat (bwt_start a).
Proof using Hpos.
  intros Hc. apply (f_equal coins_nFirstBwtPos) in Hc. cbn in Hc. rewrite Hc. unfold bwt_start.
  rewrite (proj2 (Z.ltb_ge _ _) Hpos). lia.
Qed.

(** one iteration, the header being settled *)
Lemma restore_one_spec idx u c c1 :
  us !! idx = Some u -> undo_header u true c = (true, c1) -> restoring (S idx) c1 ->
  exists c2, restore_one (Z.of_nat idx) u true c = Ok (true, c2) /\ restoring idx c2.
Proof using Hnull Hgood Hpos.
  intros Hu Hh ([Hcan Hs] & Hst & Hav). pose proof Hgood as ((_ & Hcana) & _ & _ & _ & Hsz & _).
  pose proof (restoring_undo idx u Hu) as Hlk. pose proof (lookup_lt_Some _ _ _ Hlk) as Hlt. unfold vsize in Hsz.
  unfold restore_one. rewrite Hh, (restoring_first c1 Hst). unfold to_u64. rewrite !Z.mod_small by lia.
  destruct (put_output_spec (Z.of_nat (bwt_start a) + Z.of_nat idx) (Z.of_nat (bwt_start a) + Z.of_nat idx + 1)
    (u_txout u) true c1) as (v' & -> & Hcan' & Hav'); [lia|done|by apply Hcana in Hlk|done|].
  rewrite IsAvailable_avail, Hav. replace (Z.to_nat (Z.of_nat (bwt_start a) + Z.of_nat idx)) with (bwt_start a + idx)%nat by lia.
  rewrite decide_True by lia. cbn. eexists. split; [reflexivity|]. split; [by split|]. split; [done|].
  intros i. cbn. rewrite Hav', Hav. replace (Z.to_nat (Z.of_nat (bwt_start a) + Z.of_nat idx)) with (bwt_start a + idx)%nat by lia.
  repeat case_decide; try done; try lia. subst i. unfold avail_at. by rewrite Hlk.
Qed.

Lemma restore_loop_spec j c :
  (j < length us)%nat -> restoring j c ->
  exists c', restore_loop j us true c = Ok (true, c') /\ restoring 0 c'.
Proof using Hnull Hgood Hpos.
  revert c. induction j as [|idx IH]; intros c Hj Hc; cbn [restore_loop]; [by exists c|].
  destruct (us !! idx) as [u|] eqn:Hu; [|apply lookup_ge_None in Hu; lia].
  destruct Hnull as [Hmap Hhd]. specialize (Hhd idx u Hu). rewrite bool_decide_false in Hhd by lia. cbn in Hhd.
  assert (Hh : undo_header u true c = (true, c)).
  { unfold undo_header. rewrite Hhd. cbn [Z.eqb negb andb].
    assert (IsPruned c = false) as ->; [|done]. apply not_true_iff_false. rewrite IsPruned_avail. intros Hp.
    destruct Hc as (_ & _ & Hav). pose proof Hgood as ((Hcl & _) & Hpa & _).
    apply (f_equal length) in Hmap. rewrite length_map, length_drop in Hmap.
    destruct (clean_avail (vout a) Hcl) as [o Ho]; [by intros E; rewrite E in Hmap; cbn in Hmap; lia|].
    specialize (Hp (pred (length (vout a)))). rewrite Hav, decide_False in Hp by lia. congruence. }
  destruct (restore_one_spec idx u c c Hu Hh Hc) as (c2 & -> & Hc2). cbn [res_bind]. by apply IH; [lia|].
Qed.

Lemma restore_bwts_spec co :
  coins_ok co -> coins_abs co = coins_abs (cut a) ->
  exists c', restore_loop (length us) us true co = Ok (true, c') /\ coins_fit c' /\ coins_abs (Cleanup c') = Some a.
Proof using Hnull Hgood Hpos.
  intros Hok Habs. pose proof Hgood as (Hwa & Hpa & Hsa & _). pose proof (cut_wf a Hwa) as [Hcc Hcn].
  destruct (length us) as [|n] eqn:Hlen.
  - exists co. split; [done|]. split; [split; [apply Hok|apply Hok]|]. rewrite Cleanup_clean by apply Hok. rewrite Habs.
    rewrite cut_id; [unfold coins_abs; by rewrite Hpa, Hsa|done|]. destruct Hnull as [Hmap _].
    apply (f_equal length) in Hmap. rewrite length_map, length_drop, Hlen in Hmap. lia.
  - destruct (us !! n) as [u|] eqn:Hu; [|apply lookup_ge_None in Hu; lia].
    destruct Hnull as [_ Hhd]. pose proof (Hhd n u Hu) as Hn. rewrite Hlen, bool_decide_true in Hn by done. cbn [andb] in Hn.
    destruct (undo_header_spec u a (cut a) co Hgood Hcc (cut_header a) Hn Hok Habs) as (c1 & Hh & Hv1 & Hs1 & Hst1).
    assert (Hr : restoring (S n) c1).
    { split; [split; [by rewrite Hv1|done]|]. split; [done|]. intros i. rewrite Hv1, cut_avail.
      destruct Hnull as [Hmap _]. apply (f_equal length) in Hmap. rewrite length_map, length_drop, Hlen in Hmap.
      repeat case_decide; try done; try lia. unfold avail_at. by rewrite lookup_ge_None_2 by lia. }
    destruct (restore_one_spec n u co c1 Hu Hh Hr) as (c2 & Hr2 & Hc2).
    destruct (restore_loop_spec n c2 ltac:(lia) Hc2) as (c3 & Hr3 & Hf3 & Hst3 & Hav3).
    exists c3. cbn [restore_loop]. rewrite Hu, Hr2. cbn [res_bind]. split; [done|]. split; [done|].
    replace c3 with (set_vout (vout c3) c3) by by destruct c3. apply coins_abs_as; try done; [by destruct Hf3|].
    intros i. rewrite Hav3. rewrite decide_False by lia. done.
Qed.
End Restore.

Section Rules.
  Context `{NodeConfig} {V : Type} `{CCoinsView V} `{ViewSpec V} `{!ViewLaws V} `{!FreshOk V}.

Lemma awlp_Nullify h acc t :
  bounded (t_coins t) ->
  awlp (NullifyBackwardTransfers (V := V) h acc) (fun r t' => exists us D', r = acc ++ us
    /\ bwts_nullified (t_coins t) h us D' /\ t' = put_tcoins D' t) t.
Proof.
  intros Hb. unfold NullifyBackwardTransfers.
  assert (Hnone : h = 0 \/ t_coins t !! h = None -> awlp (V := V) (ret acc) (fun r t' => exists us D', r = acc ++ us
    /\ bwts_nullified (t_coins t) h us D' /\ t' = put_tcoins D' t) t).
  { intros Hn. apply awlp_ret. exists [], (t_coins t). rewrite app_nil_r, put_tcoins_id. split; [done|]. split; [by constructor|done]. }
  destruct (Z.eqb_spec h 0) as [Hz|Hz]; [apply Hnone; by left|].
  apply awlp_bind, awp_awlp, awp_HaveCoins. case_bool_decide as Hk; cbn [negb]; [|apply Hnone; right; by apply eq_None_not_Some].
  destruct Hk as [a Ha]. apply awlp_with_coins. intros co Hok Habs r co' Hrun. rewrite Ha in Habs.
  pose proof (Hb _ _ Ha) as Hbd. destruct (coins_abs_inv _ _ Hok Habs) as (W1 & W2 & W3).
  assert (Hco : IsPruned co = false /\ a = coins_stored co).
  { unfold coins_abs in Habs. destruct (IsPruned co); [done|]. by injection Habs. }
  destruct Hco as [Hp ->]. destruct (decide (nBwtMaturityHeight co = 0)) as [E|E].
  { unfold nullify_coins in Hrun. by rewrite E in Hrun. }
  destruct (nullify_coins_spec co acc Hok Hbd E) as (us & Hn & Hnull). rewrite Hn in Hrun. injection Hrun as <- <-.
  pose proof (cut_wf co (proj1 Hok)) as [Hc1 Hc2]. split; [split; [done|apply Hok]|].
  rewrite Cleanup_clean by done. exists us, (partial_alter (fun _ => coins_abs (cut (coins_stored co))) h (t_coins t)).
  split; [done|]. split; [by apply nullified_some; auto|].
  assert (coins_abs (cut (coins_stored co)) = coins_abs (cut co)) as ->; [|done].
  unfold coins_abs. change (IsPruned (cut (coins_stored co))) with (IsPruned (cut co)). destruct (IsPruned (cut co)); [done|].
  f_equal. change (cut (coins_stored co)) with (coins_stored (cut co)). apply coins_stored_idem.
Qed.

Lemma awp_Restore h us D D' P t :
  bwts_nullified D h us D' -> t_coins t = D' -> P true (put_tcoins D t) ->
  awp (RestoreBackwardTransfers (V := V) h us) P t.
Proof.
  intros Hn Ht HP. unfold RestoreBackwardTransfers. apply awp_with_coins. intros co Hok Habs.
  destruct Hn as [Hnone|a us Ha Hgood Hnull].
  - exists true, co. split; [done|]. split; [split; apply Hok|]. rewrite Cleanup_clean by apply Hok.
    rewrite Habs, (put_tcoins_back h _ (t_coins t !! h) D t); [done|by rewrite Ht|]. rewrite Ht.
    apply map_eq. intros k. destruct (decide (k = h)) as [->|]; [by rewrite lookup_partial_alter_eq|by rewrite lookup_partial_alter_ne].
  - rewrite Ht, lookup_partial_alter_eq in Habs.
    assert (Hrun : exists c', restore_loop (length us) us true co = Ok (true, c') /\ coins_fit c' /\ coins_abs (Cleanup c') = Some a).
    { destruct (Z.le_gt_cases 0 (coins_nFirstBwtPos a)) as [Hpos|Hneg]; [by apply (restore_bwts_spec a us)|].
      assert (us = []) as ->.
      { destruct Hnull as [Hm _]. unfold bwt_start in Hm. rewrite (proj2 (Z.ltb_lt _ _) Hneg), drop_ge in Hm by done.
        by destruct us. }
      pose proof Hgood as (Hwa & Hpa & Hsa & _). exists co. split; [done|]. split; [split; apply Hok|].
      rewrite Cleanup_clean by apply Hok. rewrite Habs, cut_id; [unfold coins_abs; by rewrite Hpa, Hsa|done|].
      unfold bwt_start. by rewrite (proj2 (Z.ltb_lt _ _) Hneg). }
    destruct Hrun as (c' & Hr & Hf & Hres). exists true, c'. split; [done|]. split; [done|]. rewrite Hres.
    by rewrite (put_tcoins_back _ _ _ D t Ha Ht).
Qed.
End Rules.
