(* ===== verification/ScEvents.v ===== *)
(** * Scheduled events handled and reverted

    [HandleSidechainEvents] at the end of connecting a block lets amounts mature
    and voids the backward transfers of the sidechains that cease;
    [RevertSidechainEvents] undoes both from the block's undo data. *)

From stdpp Require Import base numbers list strings gmap fin_maps sets option.
From Stdlib Require Import ZArith Lia.
From S2P Require Import Prelude.
From S2P Require Import Amount.
From S2P Require Import Serialize.
From S2P Require Import ScTypes.
From S2P Require Import Primitives.
From S2P Require Import Sidechain.
From S2P Require Import Coins.
From S2P Require Import CoinsSer.
From S2P Require Import Undo.
From S2P Require Import Merkle.
From S2P Require Import View.
From S2P Require Import ViewLaws.
From S2P Require Import SampleLedger.
From S2P Require Import TopLaws.
From S2P Require Import ViewOps.
From S2P Require Import ScOps.
From S2P Require Import ScRound.
From S2P Require Import BlockCoins.
From S2P Require Import ScCert.
From S2P Require Import BwtOps.
Open Scope Z_scope.
Open Scope zen_scope.

(** ** Amounts that mature *)
Definition amount_at (h : Z) (s : CSidechain) : Z := default 0 (mImmatureAmounts s !! h).

Definition mature (h : Z) (s : CSidechain) : CSidechain :=
  set_immature (delete h (mImmatureAmounts s)) (set_balance (balance s + amount_at h s) s).

(** the amounts of the sidechains [ids] mature *)
Definition mature_all (h : Z) (ids : list Z) (S : gmap Z CSidechain) : gmap Z CSidechain :=
  map_imap (fun sid s => Some (if decide (sid ∈ ids) then mature h s else s)) S.

Lemma lookup_mature_all h ids S sid :
  mature_all h ids S !! sid = (fun s => if decide (sid ∈ ids) then mature h s else s) <$> S !! sid.
Proof. unfold mature_all. rewrite map_lookup_imap. by destruct (S !! sid). Qed.

Lemma mature_all_nil h S : mature_all h [] S = S.
Proof. apply map_eq. intros sid. rewrite lookup_mature_all. destruct (S !! sid); [|done]. cbn. by rewrite decide_False by set_solver. Qed.

Lemma mature_all_ext h ids ids' S : (forall sid, sid ∈ ids <-> sid ∈ ids') -> mature_all h ids S = mature_all h ids' S.
Proof.
  intros Hi. apply map_eq. intros sid. rewrite !lookup_mature_all. destruct (S !! sid); [cbn|done]. f_equal.
  specialize (Hi sid). repeat case_decide; try done; tauto.
Qed.

Lemma mature_all_cons h sid s ids S :
  S !! sid = Some s -> sid ∉ ids -> <[sid := mature h s]> (mature_all h ids S) = mature_all h (sid :: ids) S.
Proof.
  intros Hs Hn. apply map_eq. intros k. destruct (decide (k = sid)) as [->|Hne].
  - rewrite lookup_insert_eq, lookup_mature_all, Hs. cbn. by rewrite decide_True by set_solver.
  - rewrite lookup_insert_ne, !lookup_mature_all by done. destruct (S !! k); [cbn|done]. f_equal.
    repeat case_decide; try done; set_solver.
Qed.

Lemma mature_all_back h sid s ids S :
  S !! sid = Some s -> sid ∉ ids -> <[sid := s]> (mature_all h (sid :: ids) S) = mature_all h ids S.
Proof.
  intros Hs Hn. rewrite <- (mature_all_cons h sid s) by done. rewrite insert_insert_eq.
  apply insert_id. rewrite lookup_mature_all, Hs. cbn. by rewrite decide_False.
Qed.

Lemma mature_cert h s : lastTopQualityCertReferencedEpoch (mature h s) = lastTopQualityCertReferencedEpoch s
  /\ lastTopQualityCertHash (mature h s) = lastTopQualityCertHash s.
Proof. done. Qed.

(** ** Certificates whose transfers are voided *)

(** the certificate a sidechain that ceases voids *)
Definition cert_key (S : gmap Z CSidechain) (sid : Z) : option Z :=
  match S !! sid with
  | Some s => if lastTopQualityCertReferencedEpoch s =? EPOCH_NULL then None else Some (lastTopQualityCertHash s)
  | None => None
  end.

Definition certs_distinct (S : gmap Z CSidechain) : Prop :=
  forall i j k, cert_key S i = Some k -> cert_key S j = Some k -> i = j.

(** what voiding the transfers at [h] does to the coins there *)
Definition voided (h : Z) (o : option CCoins) (us : list CTxInUndo) (o' : option CCoins) : Prop :=
  ((h = 0 \/ o = None) /\ us = [] /\ o' = o)
  \/ exists a, o = Some a /\ coins_good a /\ nullified a us /\ o' = coins_abs (cut a).

Lemma alter_id {A} (D : gmap Z A) k : partial_alter (fun _ => D !! k) k D = D.
Proof.
  apply map_eq. intros j. destruct (decide (j = k)) as [->|]; [by rewrite lookup_partial_alter_eq|by rewrite lookup_partial_alter_ne].
Qed.

Lemma bwts_voided D h us D' :
  bwts_nullified D h us D' <-> exists o', voided h (D !! h) us o' /\ D' = partial_alter (fun _ => o') h D.
Proof.
  split.
  - intros [Hn|a us' Ha Hg Hn].
    + exists (D !! h). split; [by left|]. by rewrite alter_id.
    + eexists. split; [right; by exists a|done].
  - intros (o' & [(Hn & -> & ->)|(a & Ha & Hg & Hn & ->)] & ->).
    + rewrite alter_id. by constructor.
    + by apply nullified_some.
Qed.

(** the coins of the voided certificates, by hash; [W]: by sidechain, what was
    recorded and what is left *)
Local Notation Voids := (gmap Z (list CTxInUndo * option CCoins)).

Definition void_map (S : gmap Z CSidechain) (W : Voids) (ids : list Z) : gmap Z (option CCoins) :=
  foldr (fun sid m => match cert_key S sid with
                      | Some k => <[k := (W !! sid) ≫= snd]> m
                      | None => m
                      end) ∅ ids.

Definition void_coins S W ids (D : gmap Z CCoins) : gmap Z CCoins := overlay (fun o => o) (void_map S W ids) D.

(** what [W] records is right *)
Definition voids_ok (S : gmap Z CSidechain) (D : gmap Z CCoins) (W : Voids) (ids : list Z) : Prop :=
  forall sid k, sid ∈ ids -> cert_key S sid = Some k -> exists us o', W !! sid = Some (us, o') /\ voided k (D !! k) us o'.

Lemma lookup_void_map S W ids k o :
  certs_distinct S -> (void_map S W ids !! k = Some o <-> exists sid, sid ∈ ids /\ cert_key S sid = Some k /\ o = (W !! sid) ≫= snd).
Proof.
  intros Hd. induction ids as [|sid ids IH]; cbn [void_map foldr]; [rewrite lookup_empty; set_solver|].
  fold (void_map S W ids). destruct (cert_key S sid) as [k'|] eqn:Ek.
  - destruct (decide (k' = k)) as [->|Hne].
    + rewrite lookup_insert_eq. split.
      * intros [= <-]. exists sid. set_solver.
      * intros (sid' & _ & Hk & ->). by rewrite (Hd _ _ _ Ek Hk).
    + rewrite lookup_insert_ne, IH by done. split; intros (sid' & Hs & Hk & Ho); exists sid'; [set_solver|].
      split; [|done]. apply elem_of_cons in Hs as [->|]; [congruence|done].
  - rewrite IH. split; intros (sid' & Hs & Hk & Ho); exists sid'; [set_solver|]. split; [|done].
    apply elem_of_cons in Hs as [->|]; [congruence|done].
Qed.

Lemma void_map_ext S W ids ids' :
  certs_distinct S -> (forall sid, sid ∈ ids <-> sid ∈ ids') -> void_map S W ids = void_map S W ids'.
Proof.
  intros Hd Hi. apply map_eq. intros k. apply option_eq. intros o. rewrite !lookup_void_map by done.
  split; intros (sid & Hs & Hr); exists sid; split; try done; by apply Hi.
Qed.

Lemma void_map_other S W sid ids k :
  certs_distinct S -> sid ∉ ids -> cert_key S sid = Some k -> void_map S W ids !! k = None.
Proof.
  intros Hd Hn Hk. destruct (void_map S W ids !! k) as [o|] eqn:E; [|done].
  apply lookup_void_map in E as (sid' & Hs & Hk' & _); [|done]. by rewrite (Hd _ _ _ Hk Hk') in Hn.
Qed.

Lemma void_coins_nil S W D : void_coins S W [] D = D.
Proof. exact (overlay_empty _ D). Qed.

Lemma void_coins_cons S W sid k ids D :
  cert_key S sid = Some k ->
  void_coins S W (sid :: ids) D = partial_alter (fun _ => (W !! sid) ≫= snd) k (void_coins S W ids D).
Proof. intros Hk. unfold void_coins. cbn [void_map foldr]. rewrite Hk. by rewrite overlay_store. Qed.

Lemma void_coins_skip S W sid ids D : cert_key S sid = None -> void_coins S W (sid :: ids) D = void_coins S W ids D.
Proof. intros Hk. unfold void_coins. cbn [void_map foldr]. by rewrite Hk. Qed.

Lemma void_coins_under S W sid k ids D o :
  certs_distinct S -> sid ∉ ids -> cert_key S sid = Some k ->
  void_coins S W ids (partial_alter (fun _ => o) k D) = partial_alter (fun _ => o) k (void_coins S W ids D).
Proof.
  intros Hd Hn Hk. pose proof (void_map_other S W sid ids k Hd Hn Hk) as Hm. apply map_eq. intros j.
  unfold void_coins. destruct (decide (j = k)) as [->|].
  - by rewrite lookup_overlay, Hm, !lookup_partial_alter_eq.
  - rewrite lookup_overlay, !lookup_partial_alter_ne, lookup_overlay by done. done.
Qed.

(** ** The undo data *)
Definition undo_all (f : Z -> CSidechainUndoData -> CSidechainUndoData) (ids : list Z) (bu : CBlockUndo) : CBlockUndo :=
  foldl (fun bu sid => set_undo sid (f sid (undo_at sid bu)) bu) bu ids.

Lemma undo_all_other f ids bu :
  includesSidechainAttributes (undo_all f ids bu) = includesSidechainAttributes bu
  /\ vtxundo (undo_all f ids bu) = vtxundo bu /\ old_tree_root (undo_all f ids bu) = old_tree_root bu.
Proof. unfold undo_all. revert bu. induction ids as [|sid ids IH]; intros bu; cbn [foldl]; [done|].
  by destruct (IH (set_undo sid (f sid (undo_at sid bu)) bu)) as (-> & -> & ->).
Qed.

Lemma undo_all_lookup f ids bu k :
  NoDup ids -> scUndoDatabyScId (undo_all f ids bu) !! k
  = if decide (k ∈ ids) then Some (f k (undo_at k bu)) else scUndoDatabyScId bu !! k.
Proof.
  unfold undo_all. revert bu. induction ids as [|sid ids IH]; intros bu Hn; cbn [foldl]; [done|].
  apply list.NoDup_cons in Hn as [Hni Hn]. rewrite IH by done. unfold undo_at. cbn [set_undo scUndoDatabyScId].
  destruct (decide (k = sid)) as [->|Hne].
  - rewrite decide_False by done. rewrite decide_True by set_solver. by rewrite lookup_insert_eq.
  - rewrite lookup_insert_ne by done. repeat case_decide; try done; set_solver.
Qed.

(** the changes of the two loops *)
Definition record_matured (h : Z) (S : gmap Z CSidechain) (sid : Z) (u : CSidechainUndoData) : CSidechainUndoData :=
  undo_matured (default 0 (amount_at h <$> S !! sid)) u.

Definition record_ceased (W : Voids) (sid : Z) (u : CSidechainUndoData) : CSidechainUndoData :=
  undo_ceased (ceasedBwts u ++ default [] (fst <$> W !! sid)) u.

Lemma undo_ceased_twice b b' u : undo_ceased b (undo_ceased b' u) = undo_ceased b u.
Proof. unfold undo_ceased. cbn. f_equal. rewrite <- Z.lor_assoc. by rewrite Z.lor_diag. Qed.

Lemma record_ceased_ext W W' ids bu :
  (forall sid, sid ∈ ids -> W !! sid = W' !! sid) -> undo_all (record_ceased W) ids bu = undo_all (record_ceased W') ids bu.
Proof.
  unfold undo_all. revert bu. induction ids as [|sid ids IH]; intros bu Hw; cbn [foldl]; [done|].
  rewrite IH by set_solver. unfold record_ceased at 2 4. rewrite (Hw sid) by set_solver. done.
Qed.

Lemma void_map_ext_W S W W' ids :
  (forall sid, sid ∈ ids -> W !! sid = W' !! sid) -> void_map S W ids = void_map S W' ids.
Proof.
  induction ids as [|sid ids IH]; intros Hw; cbn [void_map foldr]; [done|]. fold (void_map S W ids) (void_map S W' ids).
  rewrite IH by set_solver. rewrite (Hw sid) by set_solver. done.
Qed.

Lemma cut_bound a : coins_bound a -> coins_bound (cut a).
Proof.
  intros (Hh & Hs & Hf). split; [done|]. split; [|done]. unfold cut, Cleanup, vsize in *. cbn [vout set_vout].
  destruct (pop_null_back_prefix (take (bwt_start a) (vout a))) as [n ->]. rewrite !length_take. lia.
Qed.

Lemma voided_bounded k us o' D :
  voided k (D !! k) us o' -> bounded D -> bounded (partial_alter (fun _ => o') k D).
Proof.
  intros Hv Hb j c. destruct (decide (j = k)) as [->|]; [rewrite lookup_partial_alter_eq|rewrite lookup_partial_alter_ne by done; apply Hb].
  intros ->. destruct Hv as [(_ & _ & Hc)|(a & Ha & Hg & _ & Hc)]; [by apply (Hb k)|].
  unfold coins_abs in Hc. destruct (IsPruned (cut a)); [done|]. injection Hc as ->. by apply (cut_bound a), Hg.
Qed.

Section Handle.
  Context `{NodeConfig} {V : Type} `{CCoinsView V} `{ViewSpec V} `{!ViewLaws V} `{!FreshOk V} (h : Z).
Local Notation C := (CCoinsViewCache V).

Definition put_tsc (S : gmap Z CSidechain) : Top -> Top := on_view (with_sc (fun _ => S)).

Lemma put_tsc_id t : put_tsc (t_sc t) t = t.
Proof. by destruct t as [[] ? ? ?]. Qed.

Lemma awlp_handle_maturing sid bu t :
  t_sc_stale t = ∅ ->
  awlp (handle_maturing (V := V) h bu sid) (fun r t' => exists s a, t_sc t !! sid = Some s /\ mImmatureAmounts s !! h = Some a
    /\ r = Some (set_undo sid (undo_matured a (undo_at sid bu)) bu)
    /\ t' = put_tsc (<[sid := mature h s]> (t_sc t)) t) t.
Proof.
  intros Hst. apply awlp_mem. intros Hok. unfold handle_maturing. apply awlp_bind, awp_awlp, awp_HaveSidechain.
  destruct (t_sc t !! sid) as [s|] eqn:Es; [|by intros c]. rewrite bool_decide_true by done.
  apply awlp_bind, awlp_ret. apply awlp_bind, awlp_modify_sc. intros e Hc _ _ a e'.
  rewrite (sc_content_some _ _ _ Es) in Hc. unfold mature_entry. rewrite Hc.
  destruct (mImmatureAmounts s !! h) as [am|] eqn:Ea; [|done]. intros [= <- <-].
  split; [right; by left|]. split; [intros _; apply mem_ok_immature, mem_ok_balance, (Hok _ _ Es)|].
  apply awlp_ret. exists s, am. split_and!; try done. rewrite upd_sc_live by done. rewrite Hst, delete_empty.
  unfold put_tsc, on_view, with_sc, mature, amount_at. cbn. rewrite Hst, Ea. done.
Qed.

Lemma awlp_maturing_loop l bu pre S t :
  t_sc_stale t = ∅ -> NoDup l -> (forall sid, sid ∈ l -> sid ∉ pre) -> t_sc t = mature_all h pre S ->
  awlp (for_acc l bu (handle_maturing (V := V) h)) (fun r t' =>
    Forall (fun sid => exists s, S !! sid = Some s /\ is_Some (mImmatureAmounts s !! h)) l
    /\ r = Some (undo_all (record_matured h S) l bu)
    /\ t' = put_tsc (mature_all h (l ++ pre) S) t) t.
Proof.
  revert bu pre t. induction l as [|sid l IH]; intros bu pre t Hst Hnd Hpre Hsc; cbn [for_acc].
  { apply awlp_ret. split; [done|]. split; [done|]. cbn. by rewrite <- Hsc, put_tsc_id. }
  apply list.NoDup_cons in Hnd as [Hni Hnd]. apply awlp_bind. eapply awlp_mono; [by apply awlp_handle_maturing|].
  intros r t1 (s & a & Hs & Ha & -> & ->). rewrite Hsc, lookup_mature_all in Hs.
  destruct (S !! sid) as [s0|] eqn:E0; [cbn in Hs|done]. rewrite decide_False in Hs by (apply Hpre; set_solver). injection Hs as ->.
  rewrite Hsc, (mature_all_cons h sid s) by (done || apply Hpre; set_solver).
  eapply awlp_mono; [apply (IH _ (sid :: pre)); [done|done| |done]|].
  { intros x Hx Hin%elem_of_cons. destruct Hin as [->|Hin]; [done|]. eapply Hpre; [|done]. set_solver. }
  intros r t2 (Hall & -> & ->). split; [|split].
  - constructor; [|done]. exists s. split; [done|]. by exists a.
  - assert (Hr : record_matured h S sid (undo_at sid bu) = undo_matured a (undo_at sid bu)).
    { unfold record_matured. rewrite E0. cbn. unfold amount_at. by rewrite Ha. }
    unfold undo_all. cbn [foldl]. by rewrite Hr.
  - unfold put_tsc, on_view, with_sc. cbn. do 2 f_equal. apply mature_all_ext. intros x. set_solver.
Qed.

Lemma awlp_handle_ceasing sid bu t :
  bounded (t_coins t) ->
  awlp (handle_ceasing (V := V) bu sid) (fun r t' => exists us D' , is_Some (t_sc t !! sid)
    /\ r = Some (set_undo sid (undo_ceased (ceasedBwts (undo_at sid bu) ++ us) (undo_at sid bu)) bu)
    /\ t' = put_tcoins D' t
    /\ match cert_key (t_sc t) sid with
       | Some k => bwts_nullified (t_coins t) k us D'
       | None => us = [] /\ D' = t_coins t
       end) t.
Proof.
  intros Hb. unfold handle_ceasing. apply awlp_bind, awp_awlp, awp_GetSidechain. unfold cert_key.
  destruct (t_sc t !! sid) as [s|] eqn:Es; [|by intros c].
  destruct (lastTopQualityCertReferencedEpoch s =? EPOCH_NULL).
  - apply awlp_bind. unfold massert. destruct (_ =? 0); [|by intros c]. apply awlp_ret, awlp_ret.
    exists [], (t_coins t). rewrite app_nil_r, put_tcoins_id. done.
  - apply awlp_bind. eapply awlp_mono; [by apply awlp_Nullify|]. intros r t1 (us & D' & -> & Hn & ->).
    apply awlp_ret. exists us, D'. split; [done|]. cbn [ceasedBwts undo_ceased]. by rewrite undo_ceased_twice.
Qed.

Lemma cert_key_mature ids S sid : cert_key (mature_all h ids S) sid = cert_key S sid.
Proof. unfold cert_key. rewrite lookup_mature_all. destruct (S !! sid) as [s|]; [cbn|done]. by case_decide. Qed.

Lemma void_coins_mature ids S W l D : void_coins (mature_all h ids S) W l D = void_coins S W l D.
Proof.
  unfold void_coins. f_equal. induction l as [|sid l IH]; [done|]. cbn [void_map foldr].
  fold (void_map S W l) (void_map (mature_all h ids S) W l). by rewrite cert_key_mature, IH.
Qed.

Lemma awlp_ceasing_loop l bu t :
  NoDup l -> certs_distinct (t_sc t) -> bounded (t_coins t) ->
  awlp (for_acc l bu (handle_ceasing (V := V))) (fun r t' => exists W,
    voids_ok (t_sc t) (t_coins t) W l
    /\ (forall sid, is_Some (W !! sid) -> sid ∈ l /\ is_Some (cert_key (t_sc t) sid))
    /\ Forall (fun sid => is_Some (t_sc t !! sid)) l
    /\ r = Some (undo_all (record_ceased W) l bu)
    /\ t' = put_tcoins (void_coins (t_sc t) W l (t_coins t)) t) t.
Proof.
  revert bu t. induction l as [|sid l IH]; intros bu t Hnd Hd Hb; cbn [for_acc].
  { apply awlp_ret. exists ∅. split; [by intros ? ? ?%elem_of_nil|]. split; [by intros ? []|]. split; [done|]. split; [done|].
    by rewrite void_coins_nil, put_tcoins_id. }
  apply list.NoDup_cons in Hnd as [Hni Hnd]. apply awlp_bind. eapply awlp_mono; [by apply awlp_handle_ceasing|].
  intros r t1 (us & D' & Hsid & -> & -> & Hk). destruct (cert_key (t_sc t) sid) as [k|] eqn:Ek.
  - apply bwts_voided in Hk as (o' & Hv & ->). set (D := t_coins t) in *.
    eapply awlp_mono; [apply IH; [done|done|by eapply voided_bounded]|].
    intros r t2 (W0 & Hok & Hdom & Hall & -> & ->). change (t_sc (put_tcoins _ t)) with (t_sc t) in *.
    change (t_coins (put_tcoins ?x t)) with x in *.
    assert (HW0 : W0 !! sid = None) by (apply eq_None_not_Some; intros Hx; by apply Hdom in Hx as [? _]).
    set (W := <[sid := (us, o')]> W0). assert (Hag : forall x, x ∈ l -> W !! x = W0 !! x).
    { intros x Hx. unfold W. rewrite lookup_insert_ne; [done|]. by intros ->. }
    exists W. split_and!.
    + intros x kx [->|Hx]%elem_of_cons Hkx.
      * rewrite Ek in Hkx. injection Hkx as <-. exists us, o'. unfold W. by rewrite lookup_insert_eq.
      * destruct (Hok x kx Hx Hkx) as (us' & o2 & Hw & Hvx). exists us', o2. rewrite Hag by done. split; [done|].
        rewrite lookup_partial_alter_ne in Hvx; [done|]. intros ->. by rewrite (Hd _ _ _ Ek Hkx) in Hni.
    + intros x Hx. unfold W in Hx. destruct (decide (x = sid)) as [->|Hne]; [split; [by left|by rewrite Ek]|].
      rewrite lookup_insert_ne in Hx by done. apply Hdom in Hx as [? ?]. split; [by right|done].
    + by constructor.
    + change (undo_all (record_ceased W) (sid :: l) bu)
        with (undo_all (record_ceased W) l (set_undo sid (record_ceased W sid (undo_at sid bu)) bu)).
      rewrite (record_ceased_ext W W0) by done. do 3 f_equal. unfold record_ceased, W. by rewrite lookup_insert_eq.
    + rewrite (void_coins_cons _ _ _ k) by done. unfold W at 1. rewrite lookup_insert_eq. cbn [mbind option_bind snd].
      rewrite <- (void_coins_under _ _ sid) by done. unfold void_coins. rewrite (void_map_ext_W _ W W0) by done. done.
  - destruct Hk as [-> ->]. rewrite put_tcoins_id. eapply awlp_mono; [by apply IH|].
    intros r t2 (W & Hok & Hdom & Hall & -> & ->). exists W. split_and!.
    + intros x kx [->|Hx]%elem_of_cons Hkx; [congruence|by apply Hok].
    + intros x Hx. apply Hdom in Hx as [? ?]. split; [by right|done].
    + by constructor.
    + unfold undo_all. cbn [foldl]. do 3 f_equal. unfold record_ceased. 
      assert (W !! sid = None) as -> by (apply eq_None_not_Some; intros Hx; by apply Hdom in Hx as [? _]). done.
    + by rewrite void_coins_skip.
Qed.

Definition events_at (E : gmap Z CSidechainEvents) : CSidechainEvents := default Events_empty (E !! h).

Lemma awlp_HandleSidechainEvents bu t :
  t_sc_stale t = ∅ -> certs_distinct (t_sc t) -> bounded (t_coins t) ->
  let M := set_iter (maturingScs (events_at (t_ev t))) in
  let L := set_iter (ceasingScs (events_at (t_ev t))) in
  awlp (HandleSidechainEvents (V := V) h bu) (fun r t' => exists W st,
    Forall (fun sid => exists s, t_sc t !! sid = Some s /\ is_Some (mImmatureAmounts s !! h)) M
    /\ Forall (fun sid => is_Some (t_sc t !! sid)) L
    /\ voids_ok (t_sc t) (t_coins t) W L
    /\ r = (true, undo_all (record_ceased W) L (undo_all (record_matured h (t_sc t)) M bu))
    /\ t' = mkTop (with_ev (delete h) (with_sc (fun _ => mature_all h M (t_sc t))
               (with_acoins (fun _ => void_coins (t_sc t) W L (t_coins t)) (t_view t)))) ∅ st (t_csw_stale t)) t.
Proof.
  intros Hst Hd Hb M L. unfold HandleSidechainEvents. apply awlp_bind, awp_awlp, awp_HaveSidechainEvents.
  destruct (t_ev t !! h) as [ev|] eqn:Eev.
  - rewrite bool_decide_true by done. cbn [negb]. apply awlp_bind, awp_awlp, awp_GetSidechainEvents. rewrite Eev.
    cbn [default from_option id]. assert (Hev : events_at (t_ev t) = ev) by (unfold events_at; by rewrite Eev).
    subst M L. rewrite Hev. set (M := set_iter (maturingScs ev)). set (L := set_iter (ceasingScs ev)).
    apply awlp_bind. eapply awlp_mono; [apply (awlp_maturing_loop M bu [] (t_sc t)); [done|apply NoDup_set_iter|set_solver|by rewrite mature_all_nil]|].
    intros r1 t1 (HM & -> & ->). rewrite app_nil_r. cbn [default from_option id]. set (S := t_sc t) in *. set (S1 := mature_all h M S).
    apply awlp_bind. eapply awlp_mono; [apply (awlp_ceasing_loop L); [apply NoDup_set_iter| |done]|].
    { change (t_sc (put_tsc S1 t)) with S1. intros i j k. unfold S1. rewrite !cert_key_mature. apply Hd. }
    change (t_sc (put_tsc S1 t)) with S1. change (t_coins (put_tsc S1 t)) with (t_coins t).
    intros r2 t2 (W & Hok & _ & HL & -> & ->). cbn [default from_option id].
    apply awlp_bind, awp_awlp, awp_modify_ev. intros e _ _. eexists tt, _. split; [reflexivity|]. split; [right; right; by left|].
    rewrite upd_ev_erased by done. apply awlp_ret. exists W. eexists. split; [done|]. split_and!; [| |done|].
    + eapply list.Forall_impl; [exact HL|]. intros sid. unfold S1. rewrite lookup_mature_all, fmap_is_Some. done.
    + intros sid k Hsid Hk. apply (Hok sid k Hsid). unfold S1. by rewrite cert_key_mature.
    + unfold put_tsc, put_tcoins, on_view, with_ev, with_sc, with_acoins. cbn. rewrite Hst. unfold S1. rewrite void_coins_mature.
      reflexivity.
  - rewrite bool_decide_false by (by intros []). cbn [negb]. apply awlp_ret. exists ∅, (t_ev_stale t).
    assert (HM : M = [] /\ L = []) by (unfold M, L, events_at; rewrite Eev; cbn; by rewrite set_iter_empty). destruct HM as [-> ->].
    split_and!; try done; [by intros ? ? ?%elem_of_nil|].
    rewrite mature_all_nil, void_coins_nil. unfold t_ev in Eev. destruct t as [[] ? ? ?]. cbn in *. subst.
    unfold with_ev, with_sc, with_acoins, t_sc, t_coins. cbn. by rewrite delete_id.
Qed.
End Handle.

(** ** Reverting *)
Section Revert.
  Context `{NodeConfig} {V : Type} `{CCoinsView V} `{ViewSpec V} `{!ViewLaws V} `{!FreshOk V} (h : Z).
  Context (S : gmap Z CSidechain) (D : gmap Z CCoins) (W : gmap Z (list CTxInUndo * option CCoins)).
Local Notation C := (CCoinsViewCache V).

Definition is_matured (p : Z * CSidechainUndoData) : bool := has (contentBitMask p.2) MATURED_AMOUNTS.
Definition is_ceased (p : Z * CSidechainUndoData) : bool := has (contentBitMask p.2) CEASED_CERT_DATA.

(** the sidechains a list of undo data marks *)
Definition marked (f : Z * CSidechainUndoData -> bool) (l : list (Z * CSidechainUndoData)) : list Z :=
  (List.filter f l).*1.

Lemma elem_of_marked f l sid : sid ∈ marked f l <-> exists u, (sid, u) ∈ l /\ f (sid, u) = true.
Proof.
  unfold marked. rewrite list_elem_of_fmap. split.
  - intros ([k u] & -> & Hq). apply list_elem_of_In, filter_In in Hq as [Hq Hf]. exists u. by rewrite list_elem_of_In.
  - intros (u & Hu & Hf). exists (sid, u). split; [done|]. by apply list_elem_of_In, filter_In; rewrite <- list_elem_of_In.
Qed.

Lemma marked_sub f l sid : sid ∈ marked f l -> sid ∈ l.*1.
Proof. intros (u & Hu & _)%elem_of_marked. by apply (list_elem_of_fmap_2 fst) in Hu. Qed.

(** a sidechain whose amount matured *)
Definition matured_ok (p : Z * CSidechainUndoData) : Prop :=
  exists s, S !! p.1 = Some s /\ 0 <= balance s /\ sc_mem_ok s
    /\ mImmatureAmounts s !! h = Some (appliedMaturedAmount p.2) /\ 0 < appliedMaturedAmount p.2.

Lemma mature_back s a :
  mImmatureAmounts s !! h = Some a -> 0 <= balance s -> 0 < a ->
  forall fl, revert_matured_entry h a (mkEntry (mature h s) fl) = Ok (true, mkEntry s DIRTY).
Proof.
  intros Ha Hb Hp fl. unfold revert_matured_entry. rewrite (proj2 (Z.ltb_lt _ _) Hp). cbn [content].
  unfold mature, amount_at. rewrite Ha. cbn [default from_option id balance set_immature set_balance].
  rewrite (proj2 (Z.ltb_ge _ _)) by lia. do 3 f_equal. unfold add_immature, set_immature, set_balance. cbn.
  rewrite lookup_delete_eq. cbn. rewrite insert_delete_eq, insert_id by done. destruct s. cbn. f_equal. lia.
Qed.

Lemma awp_revert_matured_loop l ev P t :
  t_sc_stale t = ∅ -> NoDup l.*1 -> (forall p, p ∈ l -> is_matured p = true -> matured_ok p) ->
  t_sc t = mature_all h (marked is_matured l) S ->
  P (Some (foldl (fun ev p => if is_matured p then add_maturing p.1 ev else ev) ev l)) (put_tsc S t) ->
  awp (for_acc l ev (revert_matured (V := V) h)) P t.
Proof.
  revert ev t. induction l as [|p l IH]; intros ev t Hst Hnd Hok Hsc HP; cbn [for_acc].
  { apply awp_ret. cbn in *. rewrite mature_all_nil in Hsc. by rewrite <- Hsc, put_tsc_id in HP. }
  cbn [fmap list_fmap] in Hnd. apply list.NoDup_cons in Hnd as [Hni Hnd]. apply awp_bind. unfold revert_matured.
  fold (is_matured p). cbn [foldl] in HP. unfold marked in Hsc. cbn [List.filter] in Hsc. destruct (is_matured p) eqn:Em; cbn [negb].
  2:{ apply awp_ret. apply IH; try done. intros q Hq. apply Hok. by right. }
  destruct (Hok p) as (s & Hs & Hb & Hmem & Ha & Hpos); [by left|done|].
  cbn [fmap list_fmap] in Hsc. fold (marked is_matured l) in Hsc.
  assert (Hnm : p.1 ∉ marked is_matured l) by (by intros Hin%marked_sub).
  assert (Es : t_sc t !! p.1 = Some (mature h s)).
  { rewrite Hsc, lookup_mature_all, Hs. cbn. by rewrite decide_True by by left. }
  apply awp_bind, awp_HaveSidechain. rewrite Es, bool_decide_true by done. cbn [negb].
  apply awp_bind, awp_modify_sc. intros [co fl] Hc _ _. rewrite (sc_content_some _ _ _ Es) in Hc. cbn in Hc. subst co.
  eexists _, _. split; [by apply mature_back|]. split; [right; by left|]. split; [done|]. cbn [negb]. apply awp_ret.
  rewrite upd_sc_live by done. rewrite Hst, delete_empty. cbn [content]. apply IH; try done.
  - intros q Hq. apply Hok. by right.
  - unfold t_sc at 1. cbn [t_view with_sc a_sc]. fold (t_sc t). rewrite Hsc. by apply mature_all_back.
  - revert HP. unfold put_tsc, on_view. by rewrite Hst.
Qed.

Lemma awp_revert_ceased_loop l ev P t :
  certs_distinct S -> NoDup l.*1 -> t_sc t = S ->
  (forall p, p ∈ l -> is_ceased p = true -> is_Some (S !! p.1) /\ ceasedBwts p.2 = default [] (fst <$> W !! p.1)) ->
  voids_ok S D W (marked is_ceased l) -> t_coins t = void_coins S W (marked is_ceased l) D ->
  P (Some (foldl (fun ev p => if is_ceased p then add_ceasing p.1 ev else ev) ev l)) (put_tcoins D t) ->
  awp (for_acc l ev (revert_ceased (V := V))) P t.
Proof.
  intros Hd. revert ev t. induction l as [|p l IH]; intros ev t Hnd Hsc Hok Hv Hco HP; cbn [for_acc].
  { apply awp_ret. cbn [foldl] in HP. change (marked is_ceased []) with (@nil Z) in Hco. rewrite void_coins_nil in Hco.
    by rewrite <- Hco, put_tcoins_id in HP. }
  cbn [fmap list_fmap] in Hnd. apply list.NoDup_cons in Hnd as [Hni Hnd]. apply awp_bind. unfold revert_ceased.
  fold (is_ceased p). cbn [foldl] in HP. unfold marked in Hco, Hv. cbn [List.filter] in Hco, Hv.
  destruct (is_ceased p) eqn:Em; cbn [negb].
  2:{ apply awp_ret. apply IH; try done. intros q Hq. apply Hok. by right. }
  destruct (Hok p) as ([s Hs] & Hbw); [by left|done|]. cbn [fmap list_fmap] in Hco, Hv. fold (marked is_ceased l) in Hco, Hv.
  assert (Hnm : p.1 ∉ marked is_ceased l) by (by intros Hin%marked_sub).
  apply awp_bind, awp_AccessSidechain. rewrite Hsc, Hs.
  assert (Hkey : cert_key S p.1 = if lastTopQualityCertReferencedEpoch s =? EPOCH_NULL then None else Some (lastTopQualityCertHash s))
    by (unfold cert_key; by rewrite Hs).
  assert (Hok' : forall q, q ∈ l -> is_ceased q = true -> is_Some (S !! q.1) /\ ceasedBwts q.2 = default [] (fst <$> W !! q.1))
    by (intros q Hq; apply Hok; by right).
  assert (Hv' : voids_ok S D W (marked is_ceased l)) by (intros x k Hx; apply Hv; by right).
  destruct (lastTopQualityCertReferencedEpoch s =? EPOCH_NULL); cbn [negb].
  - rewrite void_coins_skip in Hco by done. apply awp_ret. by apply IH.
  - rewrite (void_coins_cons _ _ _ _ _ _ Hkey) in Hco. destruct (Hv p.1 _ ltac:(by left) Hkey) as (us & o' & Hw & Hvo).
    rewrite Hw in Hco. cbn in Hco. rewrite Hbw, Hw. cbn [default from_option id fmap option_fmap option_map fst].
    apply awp_bind. eapply (awp_Restore _ _ (void_coins S W (marked is_ceased l) D)); [|exact Hco|].
    + apply bwts_voided. exists o'. split; [|done]. unfold void_coins. rewrite lookup_overlay.
      by rewrite (void_map_other _ _ _ _ _ Hd Hnm Hkey).
    + cbn [negb]. apply awp_ret. by apply IH.
Qed.

Lemma fold_maturing l ev :
  foldl (fun ev p => if is_matured p then add_maturing p.1 ev else ev) ev l
  = mkEvents (sidechainEventsVersion ev) (ceasingScs ev) (list_to_set (marked is_matured l) ∪ maturingScs ev).
Proof.
  revert ev. induction l as [|p l IH]; intros ev; cbn [foldl].
  { apply events_eq; try done. cbn. set_solver. }
  rewrite IH. unfold marked. cbn [List.filter]. destruct (is_matured p); [|done]. apply events_eq; try done. cbn. set_solver.
Qed.

Lemma fold_ceasing l ev :
  foldl (fun ev p => if is_ceased p then add_ceasing p.1 ev else ev) ev l
  = mkEvents (sidechainEventsVersion ev) (list_to_set (marked is_ceased l) ∪ ceasingScs ev) (maturingScs ev).
Proof.
  revert ev. induction l as [|p l IH]; intros ev; cbn [foldl].
  { apply events_eq; try done. cbn. set_solver. }
  rewrite IH. unfold marked. cbn [List.filter]. destruct (is_ceased p); [|done]. apply events_eq; try done. cbn. set_solver.
Qed.

(** the undo data of a block says what matured and what was voided *)
Definition events_undo (ev : CSidechainEvents) (U : gmap Z CSidechainUndoData) : Prop :=
  (forall sid, sid ∈ maturingScs ev \/ sid ∈ ceasingScs ev -> is_Some (U !! sid))
  /\ (forall sid u, U !! sid = Some u ->
       (is_matured (sid, u) = true <-> sid ∈ maturingScs ev) /\ (is_ceased (sid, u) = true <-> sid ∈ ceasingScs ev)
       /\ (sid ∈ maturingScs ev -> appliedMaturedAmount u = default 0 (amount_at h <$> S !! sid))
       /\ (sid ∈ ceasingScs ev -> ceasedBwts u = default [] (fst <$> W !! sid))).

Lemma marked_events ev U : events_undo ev U ->
  (forall sid, sid ∈ marked is_matured (map_iter U) <-> sid ∈ maturingScs ev)
  /\ (forall sid, sid ∈ marked is_ceased (map_iter U) <-> sid ∈ ceasingScs ev).
Proof.
  intros [Hdom Hu]. split; intros sid; rewrite elem_of_marked; split.
  - intros (u & Hin%elem_of_map_iter & Hm). by apply (Hu _ _ Hin).
  - intros Hin. destruct (Hdom sid) as [u Hs]; [by left|]. exists u. split; [by apply elem_of_map_iter|]. by apply (Hu _ _ Hs).
  - intros (u & Hin%elem_of_map_iter & Hm). by apply (Hu _ _ Hin).
  - intros Hin. destruct (Hdom sid) as [u Hs]; [by right|]. exists u. split; [by apply elem_of_map_iter|]. by apply (Hu _ _ Hs).
Qed.

(** the sidechains whose amounts mature are as the ledger keeps them *)
Definition maturing_ok (ev : CSidechainEvents) : Prop :=
  forall sid, sid ∈ maturingScs ev -> exists s a, S !! sid = Some s /\ 0 <= balance s /\ sc_mem_ok s
    /\ mImmatureAmounts s !! h = Some a /\ 0 < a.

Lemma awp_RevertSidechainEvents E bu P t :
  let ev := events_at h E in
  let M := set_iter (maturingScs ev) in let L := set_iter (ceasingScs ev) in
  t_sc_stale t = ∅ -> t_ev_stale t = ∅ -> certs_distinct S -> ev_version E -> ev_nonnull E ->
  events_undo ev (scUndoDatabyScId bu) -> maturing_ok ev -> Forall (fun sid => is_Some (S !! sid)) L -> voids_ok S D W L ->
  t_sc t = mature_all h M S -> t_ev t = delete h E -> t_coins t = void_coins S W L D ->
  P true (mkTop (with_ev (fun _ => E) (with_sc (fun _ => S) (with_acoins (fun _ => D) (t_view t)))) ∅ ∅ (t_csw_stale t)) ->
  awp (RevertSidechainEvents (V := V) bu h) P t.
Proof.
  intros ev M L Hss Hes Hd Hver Hnn Hu Hmok Hcok Hv Hsc Hev Hco HP. unfold RevertSidechainEvents.
  destruct (marked_events _ _ Hu) as [HmM HmL]. destruct Hu as [Hdom Hus].
  apply awp_bind, awp_HaveSidechainEvents. rewrite Hev, lookup_delete_eq, bool_decide_false by (by intros []).
  set (U := scUndoDatabyScId bu) in *.
  assert (Hnd : NoDup (map_iter U).*1) by (rewrite map_iter_fst; apply NoDup_set_iter).
  apply awp_bind, awp_revert_matured_loop; [done|done| | |].
  { intros [sid u] Hin%elem_of_map_iter Hm. destruct (Hus _ _ Hin) as (H1' & _ & H3' & _). apply H1' in Hm.
    destruct (Hmok sid Hm) as (s & a & Hs & Hb & Hmem & Ha & Hpos). exists s. cbn.
    assert (appliedMaturedAmount u = a) as -> by (rewrite (H3' Hm), Hs; cbn; unfold amount_at; by rewrite Ha). done. }
  { rewrite Hsc. apply mature_all_ext. intros sid. rewrite HmM. unfold M. by rewrite elem_of_set_iter. }
  apply awp_bind, awp_revert_ceased_loop; [done|done|done| | | |].
  { intros [sid u] Hin%elem_of_map_iter Hm. destruct (Hus _ _ Hin) as (_ & H2' & _ & H4'). cbn. split; [|by apply H4', H2'].
    rewrite list.Forall_forall in Hcok. apply Hcok. unfold L. rewrite elem_of_set_iter. by apply H2'. }
  { intros sid k Hsid. apply Hv. unfold L. rewrite elem_of_set_iter. by apply HmL. }
  { change (t_coins (put_tsc S t)) with (t_coins t). rewrite Hco. unfold void_coins. f_equal. apply void_map_ext; [done|].
    intros sid. rewrite HmL. unfold L. by rewrite elem_of_set_iter. }
  rewrite fold_maturing, fold_ceasing. cbn [sidechainEventsVersion ceasingScs maturingScs Events_empty].
  assert (Hrec : mkEvents 0 (list_to_set (marked is_ceased (map_iter U)) ∪ ∅) (list_to_set (marked is_matured (map_iter U)) ∪ ∅) = ev).
  { apply events_eq; cbn.
    - unfold ev, events_at. symmetry. by apply (default_inv _ (fun e => sidechainEventsVersion e = 0)).
    - apply set_eq. intros x. rewrite elem_of_union, elem_of_list_to_set, HmL. set_solver.
    - apply set_eq. intros x. rewrite elem_of_union, elem_of_list_to_set, HmM. set_solver. }
  rewrite Hrec. unfold ev, events_at. destruct (E !! h) as [e|] eqn:Ee; cbn [default from_option id].
  - rewrite (Hnn _ _ Ee). cbn [negb]. apply awp_bind, awp_modify_ev_fresh. intros e0 _ _ Hfr.
    eexists tt, _. split; [reflexivity|]. split.
    + right. right. right. split; [done|]. apply Hfr; [|cbn; by rewrite Hes].
      unfold t_ev. cbn. fold (t_ev t). by rewrite Hev, lookup_delete_eq.
    + rewrite upd_ev_live by done. apply awp_ret. revert HP. cbn [t_view t_sc_stale t_ev_stale t_csw_stale put_tcoins put_tsc on_view content].
      rewrite Hss, Hes, delete_empty. unfold with_ev, with_sc, with_acoins. cbn. fold (t_ev t). rewrite Hev, insert_delete_eq, insert_id by done.
      done.
  - cbn. apply awp_bind, awp_ret, awp_ret. revert HP. rewrite delete_id in Hev by done.
    unfold put_tcoins, put_tsc, on_view, with_ev, with_sc, with_acoins. cbn. rewrite Hss, Hes, <- Hev. done.
Qed.
End Revert.

(** ** The undo data made by [HandleSidechainEvents] *)

(** nothing about events is recorded yet *)
Definition no_events (bu : CBlockUndo) : Prop :=
  forall sid, has (contentBitMask (undo_at sid bu)) MATURED_AMOUNTS = false
    /\ has (contentBitMask (undo_at sid bu)) CEASED_CERT_DATA = false /\ ceasedBwts (undo_at sid bu) = [].

Section Undo.
  Context (h : Z) (S : gmap Z CSidechain) (W : gmap Z (list CTxInUndo * option CCoins)) (ev : CSidechainEvents) (bu : CBlockUndo).
Local Notation M := (set_iter (maturingScs ev)).
Local Notation L := (set_iter (ceasingScs ev)).

Definition record_events : CBlockUndo := undo_all (record_ceased W) L (undo_all (record_matured h S) M bu).

(** one sidechain's entry *)
Definition recorded (sid : Z) (u : CSidechainUndoData) : CSidechainUndoData :=
  let u1 := if decide (sid ∈ maturingScs ev) then record_matured h S sid u else u in
  if decide (sid ∈ ceasingScs ev) then record_ceased W sid u1 else u1.

Lemma record_events_lookup sid :
  scUndoDatabyScId record_events !! sid
  = if decide (sid ∈ maturingScs ev \/ sid ∈ ceasingScs ev) then Some (recorded sid (undo_at sid bu))
    else scUndoDatabyScId bu !! sid.
Proof.
  unfold record_events, recorded. rewrite undo_all_lookup by apply NoDup_set_iter. unfold undo_at at 1.
  rewrite undo_all_lookup by apply NoDup_set_iter. pose proof (elem_of_set_iter sid (maturingScs ev)) as Hm.
  pose proof (elem_of_set_iter sid (ceasingScs ev)) as Hl. fold (undo_at sid bu).
  repeat case_decide; try tauto; try done.
Qed.

Lemma recorded_extends sid u :
  extends u (recorded sid u) /\ lowQualityBwts (recorded sid u) = lowQualityBwts u.
Proof.
  unfold recorded. split; [split|]; repeat case_decide; try done; intros b Hb; cbn; by rewrite ?has_lor, Hb.
Qed.

Lemma record_events_extends sid u :
  scUndoDatabyScId bu !! sid = Some u ->
  exists u', scUndoDatabyScId record_events !! sid = Some u' /\ extends u u' /\ lowQualityBwts u' = lowQualityBwts u.
Proof.
  intros Hu. rewrite record_events_lookup. unfold undo_at. rewrite Hu. cbn. case_decide.
  - eexists. split; [done|]. apply recorded_extends.
  - eexists. by split_and!.
Qed.

Lemma record_events_ok : no_events bu -> events_undo h S W ev (scUndoDatabyScId record_events).
Proof.
  intros Hno. split.
  - intros sid Hs. rewrite record_events_lookup, decide_True by done. done.
  - intros sid u. rewrite record_events_lookup. destruct (Hno sid) as (N1 & N2 & N3). case_decide as Hc.
    + intros [= <-]. unfold recorded, is_matured, is_ceased. cbn [snd].
      set (u0 := undo_at sid bu) in *.
      assert (Hbits : forall b, has (contentBitMask (record_matured h S sid u0)) b = has (contentBitMask u0) b || has MATURED_AMOUNTS b)
        by (intros b; apply has_lor).
      repeat case_decide; cbn -[has]; rewrite ?has_lor, ?N1, ?N2, ?N3; cbn;
        split_and!; try tauto; try done.
    + intros Hu. unfold undo_at in N1, N2. rewrite Hu in N1, N2. cbn in N1, N2. unfold is_matured, is_ceased. cbn [snd].
      rewrite N1, N2. split_and!; try tauto; split; try done; tauto.
Qed.
End Undo.
