(* ===== verification/ScInv.v ===== *)
(** * An invariant of sidechains and their scheduled events

    Amounts are positive and balances are not negative; a sidechain is scheduled to
    cease at the height that its last certificate gives and nowhere else; two sidechains
    do not have the same last certificate. The transactions and certificates of a block
    keep it ([conn_good], [conn_cert_good]). *)

From stdpp Require Import base numbers list strings gmap fin_maps sets option.
From Stdlib Require Import ZArith Lia.
From S2P Require Import Prelude.
From S2P Require Import Amount.
From S2P Require Import Serialize.
From S2P Require Import ScTypes.
From S2P Require Import Primitives.
From S2P Require Import Sidechain.
From S2P Require Import Coins.
From S2P Require Import CoinsSer.
From S2P Require Import Undo.
From S2P Require Import Merkle.
From S2P Require Import View.
From S2P Require Import ViewLaws.
From S2P Require Import TopLaws.
From S2P Require Import ViewOps.
From S2P Require Import ScOps.
From S2P Require Import ScRound.
From S2P Require Import BlockCoins.
From S2P Require Import ScCert.
From S2P Require Import BwtOps.
From S2P Require Import ScEvents.
Open Scope Z_scope.
Open Scope zen_scope.

(** ** Sidechains scheduled to cease *)
Definition ceasing_at (E : gmap Z CSidechainEvents) (k : Z) : gset Z := ceasingScs (default Events_empty (E !! k)).

Lemma ceasing_add_maturing k id E j : ceasing_at (upd_event k (add_maturing id) E) j = ceasing_at E j.
Proof.
  unfold ceasing_at, upd_event. destruct (decide (j = k)) as [->|]; [by rewrite lookup_insert_eq|by rewrite lookup_insert_ne].
Qed.

Lemma ceasing_add k id E j : ceasing_at (upd_event k (add_ceasing id) E) j = if decide (j = k) then {[id]} ∪ ceasing_at E k else ceasing_at E j.
Proof.
  unfold ceasing_at, upd_event. case_decide as Hj; [subst; by rewrite lookup_insert_eq|by rewrite lookup_insert_ne].
Qed.

Lemma ceasing_erase k id E j : ceasing_at (rem_event k (erase_ceasing id) E) j = if decide (j = k) then ceasing_at E k ∖ {[id]} else ceasing_at E j.
Proof.
  unfold ceasing_at. rewrite lookup_rem_event. case_decide; [|done]. cbv zeta. destruct (Events_IsNull _) eqn:En; [|done].
  apply Events_IsNull_spec in En as [En _]. cbn in En |- *. by rewrite En.
Qed.

(** ** Sidechains with an amount that matures *)
Definition maturing_at (E : gmap Z CSidechainEvents) (k : Z) : gset Z := maturingScs (default Events_empty (E !! k)).

Lemma maturing_add k id E j : j <> k -> maturing_at (upd_event k (add_maturing id) E) j = maturing_at E j.
Proof. intros Hj. unfold maturing_at, upd_event. by rewrite lookup_insert_ne. Qed.

Lemma maturing_add_ceasing k id E j : maturing_at (upd_event k (add_ceasing id) E) j = maturing_at E j.
Proof.
  unfold maturing_at, upd_event. destruct (decide (j = k)) as [->|]; [by rewrite lookup_insert_eq|by rewrite lookup_insert_ne].
Qed.

Lemma maturing_erase_ceasing k id E j : maturing_at (rem_event k (erase_ceasing id) E) j = maturing_at E j.
Proof.
  unfold maturing_at. rewrite lookup_rem_event. case_decide; [|done]. subst j. cbv zeta. destruct (Events_IsNull _) eqn:En; [|done].
  apply Events_IsNull_spec in En as [_ En]. cbn in En |- *. by rewrite En.
Qed.

Record good_se (h : Z) (se : SE) : Prop := {
  gs_pos : map_Forall (fun _ s => map_Forall (fun _ a => 0 < a) (mImmatureAmounts s)) se.1;
  gs_balance : map_Forall (fun _ s => 0 <= balance s) se.1;
  gs_epoch : map_Forall (fun _ s => 0 < epochLength s) se.1;
  gs_nonnull : ev_nonnull se.2;
  gs_version : ev_version se.2;
  gs_ceasing : forall k sid, sid ∈ ceasing_at se.2 k -> exists s, se.1 !! sid = Some s /\ GetScheduledCeasingHeight s = k;
  gs_scheduled : forall sid s, se.1 !! sid = Some s -> h <= GetScheduledCeasingHeight s -> sid ∈ ceasing_at se.2 (GetScheduledCeasingHeight s);
  gs_certs : certs_distinct se.1 }.

(** what the schedule and the last certificate depend on *)
Definition same_frame (s s' : CSidechain) : Prop :=
  creationBlockHeight s' = creationBlockHeight s /\ fixedParams s' = fixedParams s
  /\ lastTopQualityCertReferencedEpoch s' = lastTopQualityCertReferencedEpoch s /\ lastTopQualityCertHash s' = lastTopQualityCertHash s.

Lemma same_frame_schedule s s' : same_frame s s' -> GetScheduledCeasingHeight s' = GetScheduledCeasingHeight s.
Proof.
  intros (E1 & E2 & E3 & _). unfold GetScheduledCeasingHeight, GetCertSubmissionWindowEnd, GetCertSubmissionWindowStart, GetCertSubmissionWindowLength,
    GetStartHeightForEpoch, isCreationConfirmed, epochLength. by rewrite E1, E2, E3.
Qed.

Lemma good_alter h f id S E E' :
  (forall s, same_frame s (f s)) -> (forall s, S !! id = Some s -> 0 <= balance (f s) /\ map_Forall (fun _ a => 0 < a) (mImmatureAmounts (f s))) ->
  ev_nonnull E' -> ev_version E' -> (forall k, ceasing_at E' k = ceasing_at E k) -> good_se h (S, E) -> good_se h (alter f id S, E').
Proof.
  intros Hf Hok Hn Hv Hc [G1 G2 G3 G4 G5 G6 G7 G8]. cbn [fst snd] in *.
  assert (Hback : forall sid s', alter f id S !! sid = Some s' -> exists s, S !! sid = Some s /\ same_frame s s' /\ (s' = s \/ sid = id /\ s' = f s)).
  { intros sid s' Hs. apply lookup_alter_Some in Hs as [(-> & s & Hs & ->)|[_ Hs]]; exists s || exists s'; eauto 6. split; [done|]. split; [|by left]. by repeat split. }
  constructor; cbn [fst snd]; try done.
  - intros sid s' Hs. destruct (Hback _ _ Hs) as (s & Es & _ & [->|[-> ->]]); [by apply (G1 sid)|]. by apply Hok.
  - intros sid s' Hs. destruct (Hback _ _ Hs) as (s & Es & _ & [->|[-> ->]]); [by apply (G2 sid)|]. by apply Hok.
  - intros sid s' Hs. destruct (Hback _ _ Hs) as (s & Es & (_ & Hp & _) & _). unfold epochLength. rewrite Hp. by apply (G3 sid).
  - intros k sid. rewrite Hc. intros Hin. destruct (G6 k sid Hin) as (s & Es & Hk). destruct (decide (sid = id)) as [->|Hne].
    + exists (f s). rewrite lookup_alter_eq, Es. split; [done|]. by rewrite (same_frame_schedule s).
    + exists s. by rewrite lookup_alter_ne.
  - intros sid s' Hs Hh. destruct (Hback _ _ Hs) as (s & Es & Hfr & _). rewrite Hc. rewrite (same_frame_schedule _ _ Hfr) in Hh |- *. by apply G7.
  - assert (Hkey : forall i, cert_key (alter f id S) i = cert_key S i).
    { intros i. unfold cert_key. destruct (decide (i = id)) as [->|Hne]; [|by rewrite lookup_alter_ne]. rewrite lookup_alter_eq.
      destruct (S !! id) as [s|]; [|done]. cbn. destruct (Hf s) as (_ & _ & -> & ->). done. }
    intros i j k. rewrite !Hkey. apply G8.
Qed.

(** ** Transactions *)
(** a withdrawal does not exceed the balance *)
Definition funded (x : item) (S : gmap Z CSidechain) : Prop :=
  match x with ICsw w => forall s, S !! csw_scId w = Some s -> csw_nValue w <= balance s | _ => True end.

Definition lasting (x : item) : Prop := match x with ICreate _ cr => 0 < sc_withdrawalEpochLength cr | _ => True end.

Section Conn.
  Context `{NodeConfig} (h : Z).
Local Notation MH := (h + getScCoinsMaturity).

Fixpoint funded_all (l : list item) (se : SE) : Prop :=
  match l with [] => True | x :: l' => funded x se.1 /\ funded_all l' (conn h x se) end.

Lemma rec_of_fields th cr :
  create_sidechain cr th h MH CSidechain_null = Ok (rec_of h th cr) ->
  mImmatureAmounts (rec_of h th cr) = {[MH := sc_nValue cr]} /\ balance (rec_of h th cr) = 0
  /\ epochLength (rec_of h th cr) = sc_withdrawalEpochLength cr /\ lastTopQualityCertReferencedEpoch (rec_of h th cr) = EPOCH_NULL
  /\ lastTopQualityCertHash (rec_of h th cr) = 0.
Proof.
  unfold rec_of, create_sidechain, InitScFees, epochLength. cbn. unfold getMaxSizeOfScFeesContainers. destruct (negb _); done.
Qed.

Lemma good_create th cr S E :
  0 < sc_nValue cr -> 0 < sc_withdrawalEpochLength cr -> enabled h (ICreate th cr) S -> good_se h (S, E) ->
  good_se h (conn h (ICreate th cr) (S, E)).
Proof.
  intros Hv He [Hn Hc] [G1 G2 G3 G4 G5 G6 G7 G8]. cbn [fst snd] in *. cbn [conn fst snd]. unfold cease_of.
  destruct (rec_of_fields _ _ Hc) as (R1 & R2 & R3 & R4 & R5). set (r := rec_of h th cr) in *. set (id := generatedScId cr) in *. clearbody r. clear Hc.
  constructor; cbn [fst snd].
  - apply map_Forall_insert_2; [|done]. rewrite R1. apply map_Forall_singleton. done.
  - apply map_Forall_insert_2; [lia|done].
  - apply map_Forall_insert_2; [lia|done].
  - apply upd_event_Forall; [apply upd_event_Forall; [done|apply add_not_null_m]|apply add_not_null_c].
  - apply upd_event_version; [done|]. by apply upd_event_version.
  - intros k sid. rewrite ceasing_add, !ceasing_add_maturing. case_decide as Hk; [subst k|].
    + rewrite elem_of_union, elem_of_singleton. intros [->|Hin]; [exists r; by rewrite lookup_insert_eq|].
      destruct (G6 _ _ Hin) as (s & Es & Hs). exists s. rewrite lookup_insert_ne; [done|]. intros <-. by rewrite Hn in Es.
    + intros Hin. destruct (G6 _ _ Hin) as (s & Es & Hs). exists s. rewrite lookup_insert_ne; [done|]. intros <-. by rewrite Hn in Es.
  - intros sid s Hs Hh. rewrite ceasing_add, !ceasing_add_maturing. destruct (decide (sid = id)) as [->|Hne].
    + rewrite lookup_insert_eq in Hs. injection Hs as <-. rewrite decide_True by done. set_solver.
    + rewrite lookup_insert_ne in Hs by done. specialize (G7 _ _ Hs Hh). case_decide as Hk; [|done]. rewrite Hk in G7. set_solver.
  - assert (Hkey : forall i k, cert_key (<[id := r]> S) i = Some k -> cert_key S i = Some k).
    { intros i k. unfold cert_key. destruct (decide (i = id)) as [->|]; [|by rewrite lookup_insert_ne]. by rewrite lookup_insert_eq, R4. }
    intros i j k Hi%Hkey Hj%Hkey. by eapply G8.
Qed.

Lemma conn_good x se :
  pos_item x = true -> lasting x -> funded x se.1 -> enabled h x se.1 -> good_se h se -> good_se h (conn h x se).
Proof.
  intros Hp Hl Hf He Hg. destruct se as [S E]. pose proof Hg as [G1 G2 G3 G4 G5 G6 G7 G8]. cbn [fst snd] in *. destruct x as [w|th cr|p]; cbn [pos_item lasting funded] in *.
  - cbn [conn fst snd]. apply (good_alter h _ _ S E); try done. intros s Hs. specialize (Hf s Hs). cbn. split; [lia|by apply (G1 (csw_scId w))].
  - zbool. by apply good_create.
  - zbool. cbn [conn fst snd]. apply (good_alter h _ _ S E); try done.
    + intros s Hs. cbn. split; [by apply (G2 p.1)|]. specialize (G1 _ _ Hs). cbn in G1. apply map_Forall_insert_2; [|done].
      destruct (mImmatureAmounts s !! MH) as [a|] eqn:Ea; cbn; [specialize (G1 _ _ Ea); cbn in G1|]; lia.
    + apply upd_event_Forall; [done|apply add_not_null_m].
    + by apply upd_event_version.
    + intros k. apply ceasing_add_maturing.
Qed.

Lemma conn_all_good l se :
  Forall (fun x => pos_item x = true) l -> Forall lasting l -> funded_all l se -> enabled_all h l se -> good_se h se -> good_se h (conn_all h l se).
Proof.
  intros Hp Hl. revert se. induction l as [|x l IH]; intros se Hf He Hg; [done|]. apply list.Forall_cons in Hp as [P1 Hp], Hl as [L1 Hl].
  destruct Hf as [F1 Hf], He as [E1 He]. cbn. apply IH; [done..|]. by apply conn_good.
Qed.

Lemma good_Inv se : good_se h se -> Inv h se.
Proof.
  intros [G1 G2 G3 G4 G5 G6 G7 G8]. split; [|split; [done|]].
  - intros sid s Hs a Ha. by apply (G1 sid s Hs MH).
  - intros k e Hk id Hid. destruct (G6 k id) as (s & -> & _); [|done]. unfold ceasing_at. by rewrite Hk.
Qed.

(** what is connected is funded *)
Context {V : Type} `{CCoinsView V} `{ViewSpec V} `{!ViewLaws V} `{!FreshOk V}.

Lemma awlp_and {A} (m : M (CCoinsViewCache V) A) P Q t : awlp m P t -> awlp m Q t -> awlp m (fun a t' => P a t' /\ Q a t') t.
Proof.
  intros HP HQ c Hw Ht. specialize (HP c Hw Ht). specialize (HQ c Hw Ht). unfold wlp in *. destruct (m c) as [[a c']|]; [|done]. tauto.
Qed.

Lemma conn_item_funded x t :
  t_sc_stale t = ∅ -> t_ev_stale t = ∅ -> awlp (V := V) (conn_item h x) (fun ok _ => ok = true -> funded x (t_sc t)) t.
Proof.
  intros Hs He. destruct x as [w|th cr|p]; [|eapply awlp_mono; [by apply conn_item_law|done]..].
  apply awlp_mem. intros Hok. cbn [conn_item funded]. unfold update_csw. apply awlp_bind, awp_awlp, awp_HaveSidechain.
  destruct (t_sc t !! csw_scId w) as [s|] eqn:Es; [|by apply awlp_ret]. rewrite bool_decide_true by done. cbn [negb]. apply awlp_bind, awlp_modify_sc.
  intros e Hc Hcar _ r e'. rewrite (sc_content_some _ _ _ Es) in Hc. rewrite Hc. cbn. destruct (Z.leb_spec 0 (balance s - csw_nValue w)); [|done].
  intros [= <- <-]. split; [right; by left|]. split; [intros _; cbn; by apply mem_ok_balance, (Hok _ _ Es)|]. apply awlp_ret.
  intros _ s' [= <-]. lia.
Qed.

Lemma conn_items_funded l t :
  t_sc_stale t = ∅ -> t_ev_stale t = ∅ ->
  awlp (V := V) (for_each l (conn_item h)) (fun ok t' => ok = true -> enabled_all h l (t_sc t, t_ev t) /\ funded_all l (t_sc t, t_ev t)
    /\ t' = mkTop (put (conn_all h l (t_sc t, t_ev t)) (t_view t)) ∅ ∅ (t_csw_stale t)) t.
Proof.
  intros Hs He. eapply awlp_mono.
  { apply awlp_and; [by apply conn_items_law|]. instantiate (1 := fun ok _ => ok = true -> funded_all l (t_sc t, t_ev t)).
    revert t Hs He. induction l as [|x l IH]; intros t Hs He; cbn [for_each]; [by apply awlp_ret|].
    apply awlp_bind. eapply awlp_mono; [apply awlp_and; [by apply conn_item_law|by apply conn_item_funded]|].
    intros [] t1 [Hx Hf]; [|by apply awlp_ret]. destruct (Hx eq_refl) as [_ ->]. eapply awlp_mono; [by apply IH|].
    intros ok t2 Ha Hok. split; [by apply Hf|]. specialize (Ha Hok). by rewrite top_put in Ha. }
  intros ok t' [Ha Hb] Hok. destruct (Ha Hok). auto.
Qed.
End Conn.

(** ** Certificates *)
Section Cert.
  Context `{ZendooLib} `{NodeConfig}.

Record step_fields (cert : CScCertificate) (u : CSidechainUndoData) (s : CSidechain) (u' : CSidechainUndoData) (s' : CSidechain) : Prop := {
  sf_creation : creationBlockHeight s' = creationBlockHeight s;
  sf_params : fixedParams s' = fixedParams s;
  sf_immature : mImmatureAmounts s' = mImmatureAmounts s;
  sf_balance : 0 <= balance s';
  sf_hash : lastTopQualityCertHash s' = cert_hash cert;
  sf_epoch : lastTopQualityCertReferencedEpoch s' = epochNumber cert;
  sf_next : epochNumber cert = lastTopQualityCertReferencedEpoch s + 1 \/ epochNumber cert = lastTopQualityCertReferencedEpoch s;
  sf_low : lowQualityBwts u' = lowQualityBwts u;
  sf_ceased : ceasedBwts u' = ceasedBwts u;
  sf_other : forall b, b = MATURED_AMOUNTS \/ b = SUPERSEDED_CERT_DATA \/ b = CEASED_CERT_DATA -> has (contentBitMask u') b = has (contentBitMask u) b;
  sf_any : has (contentBitMask u') ANY_EPOCH_CERT_DATA = true;
  sf_cross : has (contentBitMask u') CROSS_EPOCH_CERT_DATA = false ->
    su_pastEpochTopQualityCertView u' = su_pastEpochTopQualityCertView u /\ su_scFees u' = su_scFees u }.

Lemma cert_step_fields cert u s u' s' : cert_step cert u s u' s' -> step_fields cert u s u' s'.
Proof.
  intros Hst. destruct (cert_update_cases _ _ _ _ _ _ (Hst DIRTY) eq_refl) as (s1 & u1 & view & He & Hb & _ & Hr & Hs').
  injection Hr as -> _. injection Hs' as ->. unfold cert_epoch_step in He.
  destruct (Z.eqb_spec (epochNumber cert) (lastTopQualityCertReferencedEpoch s + 1)) as [E|E].
  - destruct (UpdateScFees _ _) as [s2|] eqn:Hf; [|done]. apply UpdateScFees_inv in Hf as (f & -> & Hm & Hf). injection He as <- <-.
    split; cbn in *; try done; [lia|by left|..].
    + intros b Hbit. rewrite !has_lor. by destruct Hbit as [->|[->| ->]]; rewrite !orb_false_r.
    + by rewrite has_lor, orb_true_r.
    + by rewrite !has_lor, orb_true_r.
  - destruct (Z.eqb_spec (epochNumber cert) (lastTopQualityCertReferencedEpoch s)) as [E'|]; [|done]. destruct (_ <=? _); [done|]. injection He as <- <-.
    split; cbn in *; try done; [lia|by right|..].
    + intros b Hbit. rewrite !has_lor. by destruct Hbit as [->|[->| ->]]; rewrite !orb_false_r.
    + by rewrite has_lor, orb_true_r.
Qed.

Lemma schedule_of s : isCreationConfirmed s = true ->
  GetScheduledCeasingHeight s = creationBlockHeight s + (lastTopQualityCertReferencedEpoch s + 2) * epochLength s + GetCertSubmissionWindowLength s - 1.
Proof.
  intros Hc. unfold GetScheduledCeasingHeight, GetCertSubmissionWindowEnd, GetCertSubmissionWindowStart, GetStartHeightForEpoch. rewrite Hc. cbn [negb]. lia.
Qed.

Context (h : Z) (cert : CScCertificate) (u u' : CSidechainUndoData) (s s' : CSidechain) (S : gmap Z CSidechain) (E : gmap Z CSidechainEvents).
Hypothesis Hstep : cert_step cert u s u' s'.
Hypothesis Hgood : good_se h (S, E).
Hypothesis Hs : S !! cert_scId cert = Some s.
Hypothesis Hconf : isCreationConfirmed s = true.
Hypothesis Hlive : h <= GetScheduledCeasingHeight s.

Lemma step_schedule : GetScheduledCeasingHeight s' = GetScheduledCeasingHeight s + (if cert_moves cert s then epochLength s else 0).
Proof.
  destruct (cert_step_fields _ _ _ _ _ Hstep) as [F1 F2 F3 F4 F5 F6 F7 _ _ _ _ _].
  assert (Hc' : isCreationConfirmed s' = true) by (unfold isCreationConfirmed in *; by rewrite F1).
  rewrite !schedule_of by done. unfold GetCertSubmissionWindowLength, epochLength. rewrite F1, F2, F6. unfold cert_moves.
  destruct (Z.eqb_spec (epochNumber cert) (lastTopQualityCertReferencedEpoch s)) as [E'|E']; cbn [negb]; [by rewrite E', Z.add_0_r|].
  destruct F7 as [->|]; [lia|congruence].
Qed.

Lemma step_moves : cert_moves cert s = true ->
  cert_scId cert ∈ ceasing_at E (GetScheduledCeasingHeight s) /\ cert_scId cert ∉ ceasing_at E (GetScheduledCeasingHeight s').
Proof.
  intros Hm. destruct Hgood as [G1 G2 G3 G4 G5 G6 G7 G8]. cbn [fst snd] in *. split; [by apply G7|]. intros Hin. destruct (G6 _ _ Hin) as (s0 & Es & Hk).
  rewrite Hs in Es. injection Es as <-. rewrite step_schedule, Hm in Hk. specialize (G3 _ _ Hs). cbn in G3. lia.
Qed.

Lemma conn_cert_good : (forall i, cert_key S i <> Some (cert_hash cert)) -> good_se h (conn_cert cert s s' (S, E)).
Proof.
  intros Hfresh. destruct (cert_step_fields _ _ _ _ _ Hstep) as [F1 F2 F3 F4 F5 F6 F7 _ _ _ _ _]. pose proof step_schedule as Hsch. pose proof step_moves as Hmv.
  destruct Hgood as [G1 G2 G3 G4 G5 G6 G7 G8]. cbn [fst snd] in *. unfold conn_cert. set (sid := cert_scId cert) in *.
  set (E' := if cert_moves cert s then _ else _).
  assert (Hc : forall k i, i ∈ ceasing_at E' k <-> if decide (i = sid) then k = GetScheduledCeasingHeight s' else i ∈ ceasing_at E k).
  { intros k i. unfold E'. assert (Hk : forall k, sid ∈ ceasing_at E k <-> k = GetScheduledCeasingHeight s).
    { intros k'. split; [|intros ->; by apply G7]. intros Hin. destruct (G6 _ _ Hin) as (s0 & Es & <-). rewrite Hs in Es. by injection Es as <-. }
    destruct (cert_moves cert s) eqn:Em.
    - rewrite ceasing_add, !ceasing_erase. destruct (decide (i = sid)) as [->|Hne].
      + split; [|intros ->; rewrite decide_True by done; set_solver]. case_decide as Hj; [done|].
        case_decide as Hj'; [set_solver|]. intros Hin%Hk. done.
      + repeat case_decide; subst; set_solver.
    - rewrite Z.add_0_r in Hsch. rewrite Hsch. case_decide as Hi; [subst; apply Hk|done]. }
  constructor; cbn [fst snd].
  - apply map_Forall_insert_2; [|done]. rewrite F3. by apply (G1 _ _ Hs).
  - by apply map_Forall_insert_2.
  - apply map_Forall_insert_2; [|done]. unfold epochLength. rewrite F2. by apply (G3 _ _ Hs).
  - unfold E'. destruct (cert_moves cert s); [|done]. apply upd_event_Forall; [by apply rem_event_nonnull|apply add_not_null_c].
  - unfold E'. destruct (cert_moves cert s); [|done]. apply upd_event_version; [done|]. by apply rem_event_version.
  - intros k i Hin%Hc. case_decide as Hi.
    + subst. exists s'. by rewrite lookup_insert_eq.
    + destruct (G6 _ _ Hin) as (s0 & Es & Hk). exists s0. by rewrite lookup_insert_ne.
  - intros i s0 Es Hh. apply Hc. case_decide as Hi.
    + subst. rewrite lookup_insert_eq in Es. by injection Es as <-.
    + rewrite lookup_insert_ne in Es by done. by apply G7.
  - assert (Hkey : forall i k, cert_key (<[sid := s']> S) i = Some k -> if decide (i = sid) then k = cert_hash cert else cert_key S i = Some k).
    { intros i k. unfold cert_key. case_decide as Hi; [subst; rewrite lookup_insert_eq|by rewrite lookup_insert_ne].
      destruct (_ =? _); [done|]. rewrite F5. by intros [= <-]. }
    intros i j k Hi%Hkey Hj%Hkey. destruct (decide (i = sid)) as [->|], (decide (j = sid)) as [->|]; [done|..].
    + rewrite Hi in Hj. by apply Hfresh in Hj.
    + rewrite Hj in Hi. by apply Hfresh in Hi.
    + by eapply G8.
Qed.
End Cert.
