(* ===== verification/UndoNorm.v ===== *)
(** * Undo data as it is stored

    Undo data is read back from disk in a normal form ([BlockUndo_norm]): the version of
    the coins as it is stored, and the fields of backward transfers only for
    certificates. It undoes what the undo data in memory undoes, for coins whose fields
    are those of the transaction or certificate they come from ([tidy]). *)

From stdpp Require Import base numbers list strings gmap fin_maps sets option.
From Stdlib Require Import ZArith Lia.
From S2P Require Import Prelude.
From S2P Require Import Amount.
From S2P Require Import Serialize.
From S2P Require Import ScTypes.
From S2P Require Import Primitives.
From S2P Require Import Compress.
From S2P Require Import Sidechain.
From S2P Require Import Coins.
From S2P Require Import CoinsSer.
From S2P Require Import Undo.
From S2P Require Import Merkle.
From S2P Require Import View.
From S2P Require Import ViewLaws.
From S2P Require Import TopLaws.
From S2P Require Import ViewOps.
From S2P Require Import ScOps.
From S2P Require Import ScRound.
From S2P Require Import BlockCoins.
From S2P Require Import ScCert.
From S2P Require Import BwtOps.
From S2P Require Import ScEvents.
From S2P Require Import ScInv.
Open Scope Z_scope.
Open Scope zen_scope.

(** only the coins of certificates have backward transfers *)
Definition tidy (c : CCoins) : Prop :=
  Z.land (nVersion c) 0x7f = Z.land SC_CERT_VERSION 0x7f \/ coins_nFirstBwtPos c = BWT_POS_UNSET /\ nBwtMaturityHeight c = 0.

Definition tidy_coins : gmap Z CCoins -> Prop := map_Forall (fun _ => tidy).

Lemma stored_land v : Z.land (stored_version v) 0x7f = Z.land v 0x7f.
Proof. unfold stored_version. destruct (v <? 0); [|done]. by rewrite <- Z.land_assoc. Qed.

Lemma stored_version_sane v : sane_version (stored_version v) = true.
Proof.
  unfold sane_version. rewrite (proj2 (Z.leb_le 0 (stored_version v))); [done|]. unfold stored_version. destruct (Z.ltb_spec v 0); [|lia]. apply Z.land_nonneg. lia.
Qed.

Lemma header_fits_norm a u : 0 < nHeight a -> tidy a -> header_fits a u -> header_fits a (TxInUndo_norm u).
Proof.
  intros Hh Ht (E1 & Hv & E2). unfold TxInUndo_norm. rewrite E1. rewrite (proj2 (Z.ltb_lt 0 (nHeight a))) by done.
  assert (Hver : nVersion a = stored_version (u_nVersion u)) by (by rewrite <- E2).
  assert (Hp : coins_nFirstBwtPos a = u_nFirstBwtPos u) by (by rewrite <- E2).
  assert (Hm : nBwtMaturityHeight a = u_nBwtMaturityHeight u) by (by rewrite <- E2).
  destruct (TxInUndo_cert (nHeight a) (u_nVersion u)) eqn:Ec.
  - split; [done|]. split; [apply stored_version_sane|]. revert E2. unfold coins_stored. cbn -[stored_version]. by rewrite stored_version_idem.
  - assert (Hdef : u_nFirstBwtPos u = BWT_POS_UNSET /\ u_nBwtMaturityHeight u = 0).
    { destruct Ht as [Ht|[H1 H2]]; [|by rewrite <- Hp, <- Hm]. rewrite Hver, stored_land in Ht. unfold TxInUndo_cert in Ec.
      rewrite (proj2 (Z.ltb_lt 0 (nHeight a))) in Ec by done. cbn [andb] in Ec. by apply Z.eqb_neq in Ec. }
    destruct Hdef as [D1 D2]. split; [done|]. split; [apply stored_version_sane|]. revert E2. unfold coins_stored. cbn -[stored_version]. by rewrite stored_version_idem, D1, D2.
Qed.

Lemma norm_txout u : u_txout (TxInUndo_norm u) = u_txout u.
Proof. unfold TxInUndo_norm. by destruct (TxInUndo_cert _ _). Qed.

Lemma norm_height u : u_nHeight (TxInUndo_norm u) = u_nHeight u.
Proof. unfold TxInUndo_norm. by destruct (TxInUndo_cert _ _). Qed.

Lemma undo_fits_norm a n u : 0 < nHeight a -> tidy a -> undo_fits a n u -> undo_fits a n (TxInUndo_norm u).
Proof.
  intros Hh Ht [Hav Hfit]. split; [by rewrite norm_txout|]. destruct (IsPruned _); [by apply header_fits_norm|by rewrite norm_height].
Qed.

Lemma tidy_abs_header c c' v : tidy c -> set_vout v c' = set_vout v c -> tidy c'.
Proof.
  unfold tidy. intros Ht E. pose proof (f_equal nVersion E) as E1. pose proof (f_equal coins_nFirstBwtPos E) as E2.
  pose proof (f_equal nBwtMaturityHeight E) as E3. cbn in E1, E2, E3. by rewrite E1, E2, E3.
Qed.

Lemma tidy_stored c : tidy c -> tidy (coins_stored c).
Proof. unfold tidy. cbn. by rewrite stored_land. Qed.

Lemma tidy_alter k c D : tidy c -> tidy_coins D -> tidy_coins (partial_alter (fun _ => coins_abs c) k D).
Proof.
  intros Hc Hd i x. destruct (decide (i = k)) as [->|]; [|rewrite lookup_partial_alter_ne by done; apply Hd].
  rewrite lookup_partial_alter_eq. unfold coins_abs. destruct (IsPruned c); [done|]. intros [= <-]. by apply tidy_stored.
Qed.

Lemma tidy_Spend n a : tidy a -> tidy (Spend n a).2.
Proof. intros Ha. apply (tidy_abs_header a _ (vout a)); [done|]. rewrite Spend_header. by destruct a. Qed.

Lemma tidy_cut a : tidy a -> tidy (cut a).
Proof. intros Ha. apply (tidy_abs_header a _ (vout a)); [done|]. rewrite cut_header. by destruct a. Qed.

Lemma spent_tidy D vin us D' : spent D vin us D' -> tidy_coins D -> tidy_coins D'.
Proof.
  induction 1 as [|D a i vin u us D' Ha Hg Hn Hf Hs IH]; intros Hd; [done|]. apply IH. apply tidy_alter; [|done]. apply tidy_Spend, (Hd _ _ Ha).
Qed.

(** ** Inputs *)
Lemma spent_norm D vin us D' : spent D vin us D' -> tidy_coins D -> spent D vin (map TxInUndo_norm us) D'.
Proof.
  induction 1 as [|D a i vin u us D' Ha Hg Hn Hf Hs IH]; intros Hd; cbn [map]; [constructor|]. econstructor; try done.
  - apply undo_fits_norm; [apply Hg|apply (Hd _ _ Ha)|done].
  - apply IH. apply tidy_alter; [|done]. apply tidy_Spend, (Hd _ _ Ha).
Qed.

(** ** Backward transfers *)
Lemma nullified_norm a us : 0 < nHeight a -> tidy a -> nullified a us -> nullified a (map TxInUndo_norm us).
Proof.
  intros Hh Ht [Ho Hu]. split.
  - rewrite map_map, <- Ho. apply map_ext. apply norm_txout.
  - intros idx u Hi. change (map TxInUndo_norm us) with (TxInUndo_norm <$> us) in Hi. apply list_lookup_fmap_Some in Hi as (u0 & -> & Hi).
    specialize (Hu idx u0 Hi). rewrite length_map. destruct (bool_decide _ && _); [by apply header_fits_norm|by rewrite norm_height].
Qed.

Lemma voided_norm k o us o' : (forall a, o = Some a -> tidy a) -> voided k o us o' -> voided k o (map TxInUndo_norm us) o'.
Proof.
  intros Ht [(Hk & -> & ->)|(a & -> & Hg & Hn & ->)]; [by left|]. right. exists a. split; [done|]. split; [done|]. split; [|done].
  apply nullified_norm; [apply Hg|by apply Ht|done].
Qed.

Lemma bwts_nullified_norm D k us D' : tidy_coins D -> bwts_nullified D k us D' -> bwts_nullified D k (map TxInUndo_norm us) D'.
Proof.
  intros Ht Hn. apply bwts_voided in Hn as (o' & Hv & ->). apply bwts_voided. exists o'. split; [|done]. apply voided_norm; [|done]. intros a Ha. by apply (Ht k).
Qed.

Lemma bwts_nullified_tidy D k us D' : bwts_nullified D k us D' -> tidy_coins D -> tidy_coins D'.
Proof. intros [|a us' Ha Hg Hn] Ht; [done|]. apply tidy_alter; [|done]. apply tidy_cut, (Ht _ _ Ha). Qed.

(** ** Sidechains *)
Local Notation Voids := (gmap Z (list CTxInUndo * option CCoins)).

Definition norm_voids (W : Voids) : Voids := (fun p => (map TxInUndo_norm p.1, p.2)) <$> W.

Lemma voids_ok_norm S D W ids : tidy_coins D -> voids_ok S D W ids -> voids_ok S D (norm_voids W) ids.
Proof.
  intros Ht Hv sid k Hin Hk. destruct (Hv sid k Hin Hk) as (us & o' & Hw & Hvd). exists (map TxInUndo_norm us), o'.
  split; [unfold norm_voids; by rewrite lookup_fmap, Hw|]. apply voided_norm; [|done]. intros a Ha. by apply (Ht k).
Qed.

Lemma void_map_norm S W ids : void_map S (norm_voids W) ids = void_map S W ids.
Proof.
  induction ids as [|sid ids IH]; [done|]. unfold void_map in *. cbn [foldr]. rewrite IH. destruct (cert_key S sid); [|done]. f_equal. unfold norm_voids. rewrite lookup_fmap. by destruct (W !! sid).
Qed.

Lemma events_undo_norm h S W ev U : events_undo h S W ev U -> events_undo h S (norm_voids W) ev (ScUndo_norm <$> U).
Proof.
  intros [Ha Hb]. split.
  - intros sid Hs. rewrite lookup_fmap. apply fmap_is_Some. by apply Ha.
  - intros sid u Hu. rewrite lookup_fmap in Hu. apply fmap_Some in Hu as (u0 & Hu & ->). destruct (Hb sid u0 Hu) as (H1 & H2 & H3 & H4).
    split; [done|]. split; [done|]. split.
    + intros Hm. specialize (H3 Hm). apply H1 in Hm. unfold is_matured in Hm. cbn in Hm |- *. by rewrite Hm.
    + intros Hc. specialize (H4 Hc). apply H2 in Hc. unfold is_ceased in Hc. cbn in Hc |- *. rewrite Hc, H4. unfold norm_voids. rewrite lookup_fmap.
      by destruct (W !! sid) as [[]|].
Qed.

(** what was recorded of a certificate stays *)
Lemma norm_extends u1 u3 :
  extends u1 u3 -> has (contentBitMask u1) ANY_EPOCH_CERT_DATA = true ->
  (has (contentBitMask u1) CROSS_EPOCH_CERT_DATA = false -> su_pastEpochTopQualityCertView u1 = CertView_null /\ su_scFees u1 = []) ->
  extends u1 (ScUndo_norm u3).
Proof.
  intros [Hf Hb] Hany Hcross. split; [|exact Hb]. unfold cert_undo in *. injection Hf as F1 F2 F3 F4 F5 F6 F7.
  cbn. rewrite (Hb _ Hany). destruct (has (contentBitMask u3) CROSS_EPOCH_CERT_DATA) eqn:E; [by rewrite F1, F2, F3, F4, F5, F6, F7|].
  destruct Hcross as [H1 H2]. { destruct (has (contentBitMask u1) CROSS_EPOCH_CERT_DATA) eqn:E1; [|done]. by rewrite (Hb _ E1) in E. }
  by rewrite F3, F4, F5, F6, F7, H1, H2.
Qed.
