(* ===== verification/Script.v ===== *)
(** * Scripts

    [script/script.h] and [script/script.cpp]: script numbers ([CScriptNum]),
    the construction of scripts ([operator<<]), instruction decoding
    ([GetOp2]), signature-operation counting and the script templates. *)

From stdpp Require Import base numbers list strings option.
From Stdlib Require Import ZArith Lia.
From S2P Require Import Prelude.
From S2P Require Import Serialize.
From S2P Require Import ScTypes.
From S2P Require Import Primitives.
From S2P Require Import Compress.
Open Scope Z_scope.
Open Scope zen_scope.

(** ** Opcodes

    [opcodetype] is a C enumeration: its values are integers, and any byte can
    be cast to it. *)
Abbreviation OP_0 := 0x00 (only parsing).
Abbreviation OP_1NEGATE := 0x4f (only parsing).
Abbreviation OP_RESERVED := 0x50 (only parsing).
Abbreviation OP_1 := 0x51 (only parsing).
Abbreviation OP_2 := 0x52 (only parsing).
Abbreviation OP_16 := 0x60 (only parsing).
Abbreviation OP_NOP := 0x61 (only parsing).
Abbreviation OP_IF := 0x63 (only parsing).
Abbreviation OP_NOTIF := 0x64 (only parsing).
Abbreviation OP_ELSE := 0x67 (only parsing).
Abbreviation OP_ENDIF := 0x68 (only parsing).
Abbreviation OP_VERIFY := 0x69 (only parsing).
Abbreviation OP_TOALTSTACK := 0x6b (only parsing).
Abbreviation OP_FROMALTSTACK := 0x6c (only parsing).
Abbreviation OP_2DROP := 0x6d (only parsing).
Abbreviation OP_2DUP := 0x6e (only parsing).
Abbreviation OP_3DUP := 0x6f (only parsing).
Abbreviation OP_2OVER := 0x70 (only parsing).
Abbreviation OP_2ROT := 0x71 (only parsing).
Abbreviation OP_2SWAP := 0x72 (only parsing).
Abbreviation OP_IFDUP := 0x73 (only parsing).
Abbreviation OP_DEPTH := 0x74 (only parsing).
Abbreviation OP_DROP := 0x75 (only parsing).
Abbreviation OP_NIP := 0x77 (only parsing).
Abbreviation OP_OVER := 0x78 (only parsing).
Abbreviation OP_PICK := 0x79 (only parsing).
Abbreviation OP_ROLL := 0x7a (only parsing).
Abbreviation OP_ROT := 0x7b (only parsing).
Abbreviation OP_SWAP := 0x7c (only parsing).
Abbreviation OP_TUCK := 0x7d (only parsing).
Abbreviation OP_CAT := 0x7e (only parsing).
Abbreviation OP_SUBSTR := 0x7f (only parsing).
Abbreviation OP_LEFT := 0x80 (only parsing).
Abbreviation OP_RIGHT := 0x81 (only parsing).
Abbreviation OP_SIZE := 0x82 (only parsing).
Abbreviation OP_INVERT := 0x83 (only parsing).
Abbreviation OP_AND := 0x84 (only parsing).
Abbreviation OP_OR := 0x85 (only parsing).
Abbreviation OP_XOR := 0x86 (only parsing).
Abbreviation OP_1ADD := 0x8b (only parsing).
Abbreviation OP_1SUB := 0x8c (only parsing).
Abbreviation OP_2MUL := 0x8d (only parsing).
Abbreviation OP_2DIV := 0x8e (only parsing).
Abbreviation OP_NEGATE := 0x8f (only parsing).
Abbreviation OP_ABS := 0x90 (only parsing).
Abbreviation OP_NOT := 0x91 (only parsing).
Abbreviation OP_0NOTEQUAL := 0x92 (only parsing).
Abbreviation OP_ADD := 0x93 (only parsing).
Abbreviation OP_SUB := 0x94 (only parsing).
Abbreviation OP_MUL := 0x95 (only parsing).
Abbreviation OP_DIV := 0x96 (only parsing).
Abbreviation OP_MOD := 0x97 (only parsing).
Abbreviation OP_LSHIFT := 0x98 (only parsing).
Abbreviation OP_RSHIFT := 0x99 (only parsing).
Abbreviation OP_BOOLAND := 0x9a (only parsing).
Abbreviation OP_BOOLOR := 0x9b (only parsing).
Abbreviation OP_NUMEQUAL := 0x9c (only parsing).
Abbreviation OP_NUMEQUALVERIFY := 0x9d (only parsing).
Abbreviation OP_NUMNOTEQUAL := 0x9e (only parsing).
Abbreviation OP_LESSTHAN := 0x9f (only parsing).
Abbreviation OP_GREATERTHAN := 0xa0 (only parsing).
Abbreviation OP_LESSTHANOREQUAL := 0xa1 (only parsing).
Abbreviation OP_GREATERTHANOREQUAL := 0xa2 (only parsing).
Abbreviation OP_MIN := 0xa3 (only parsing).
Abbreviation OP_MAX := 0xa4 (only parsing).
Abbreviation OP_WITHIN := 0xa5 (only parsing).
Abbreviation OP_RIPEMD160 := 0xa6 (only parsing).
Abbreviation OP_SHA1 := 0xa7 (only parsing).
Abbreviation OP_SHA256 := 0xa8 (only parsing).
Abbreviation OP_HASH256 := 0xaa (only parsing).
Abbreviation OP_CODESEPARATOR := 0xab (only parsing).
Abbreviation OP_CHECKSIGVERIFY := 0xad (only parsing).
Abbreviation OP_CHECKMULTISIG := 0xae (only parsing).
Abbreviation OP_CHECKMULTISIGVERIFY := 0xaf (only parsing).
Abbreviation OP_NOP1 := 0xb0 (only parsing).
Abbreviation OP_CHECKLOCKTIMEVERIFY := 0xb1 (only parsing).
Abbreviation OP_NOP3 := 0xb2 (only parsing).
Abbreviation OP_NOP4 := 0xb3 (only parsing).
Abbreviation OP_CHECKBLOCKATHEIGHT := 0xb4 (only parsing).
Abbreviation OP_NOP6 := 0xb5 (only parsing).
Abbreviation OP_NOP7 := 0xb6 (only parsing).
Abbreviation OP_NOP8 := 0xb7 (only parsing).
Abbreviation OP_NOP9 := 0xb8 (only parsing).
Abbreviation OP_NOP10 := 0xb9 (only parsing).
Abbreviation OP_INVALIDOPCODE := 0xff (only parsing).

Definition INT64_MIN : Z := - 2 ^ 63.

Definition INT64_MAX : Z := 2 ^ 63 - 1.

(** [v.back()] of a non-empty vector *)
Definition back (v : bytes) : Z := at_ v (pred (length v)).

(** ** CScriptNum

    A [CScriptNum] is its [m_value]. *)
Definition number_overflow : err := Exception "script number overflow".

Definition number_not_minimal : err := Exception "non-minimally encoded script number".

(** the [while (absvalue)] loop; eight rounds empty a [uint64_t] *)
Fixpoint abs_bytes (fuel : nat) (absvalue : Z) : bytes :=
  match fuel with
  | O => []
  | S fuel' =>
      if absvalue =? 0 then []
      else Z.land absvalue 0xff :: abs_bytes fuel' (Z.shiftr absvalue 8)
  end.

Definition int64_min_encoding : bytes := [0; 0; 0; 0; 0; 0; 0; 128; 128].

Definition num_serialize (value : Z) : bytes :=
  if value =? 0 then []
  else if value =? INT64_MIN then int64_min_encoding
  else
    let neg := value <? 0 in
    let result := abs_bytes 8 (if neg then - value else value) in
    if negb (Z.land (back result) 0x80 =? 0) then result ++ [if neg then 0x80 else 0]
    else if neg then take (pred (length result)) result ++ [Z.lor (back result) 0x80]
    else result.

(** the loop [result |= static_cast<int64_t>(vch[i]) << 8*i], from index [i] on *)
Fixpoint or_bytes (vch : bytes) (i : Z) (result : Z) : Z :=
  match vch with
  | [] => result
  | b :: vch' => or_bytes vch' (i + 1) (Z.lor result (to_i64 (Z.shiftl b (8 * i))))
  end.

Definition set_vch (vch : bytes) : res Z :=
  if decide (vch = []) then Ok 0
  else if decide (vch = int64_min_encoding) then Ok INT64_MIN
  else if 8 <? vsize vch then Err number_overflow
  else
    let result := or_bytes vch 0 0 in
    if negb (Z.land (back vch) 0x80 =? 0)
    then Ok (- to_i64 (Z.ldiff (to_u64 result) (Z.shiftl 0x80 (8 * (vsize vch - 1)))))
    else Ok result.

Definition nDefaultMaxNumSize : Z := 4.

Definition CScriptNum_of (vch : bytes) (fRequireMinimal : bool) (nMaxNumSize : Z) : res Z :=
  if nMaxNumSize <? vsize vch then Err number_overflow
  else if fRequireMinimal && (0 <? vsize vch) && (Z.land (back vch) 0x7f =? 0)
          && ((vsize vch <=? 1) || (Z.land (at_ vch (length vch - 2)) 0x80 =? 0))
  then Err number_not_minimal
  else set_vch vch.

Definition num_neg (m_value : Z) : res Z :=
  if m_value =? INT64_MIN then Err AssertFailed else Ok (- m_value).

Definition num_add_assign (m_value rhs : Z) : res Z :=
  if (rhs =? 0) || ((0 <? rhs) && (m_value <=? INT64_MAX - rhs))
     || ((rhs <? 0) && (INT64_MIN - rhs <=? m_value))
  then Ok (m_value + rhs) else Err AssertFailed.

Definition num_sub_assign (m_value rhs : Z) : res Z :=
  if (rhs =? 0) || ((0 <? rhs) && (INT64_MIN + rhs <=? m_value))
     || ((rhs <? 0) && (m_value <=? INT64_MAX + rhs))
  then Ok (m_value - rhs) else Err AssertFailed.

Definition getint (m_value : Z) : Z :=
  if 2 ^ 31 - 1 <? m_value then 2 ^ 31 - 1
  else if m_value <? - 2 ^ 31 then - 2 ^ 31
  else m_value.

(** ** Building scripts *)
Definition push_int64 (script : CScript) (n : Z) : CScript :=
  if (n =? -1) || ((1 <=? n) && (n <=? 16)) then script ++ [n + (OP_1 - 1)]
  else if n =? 0 then script ++ [OP_0]
  else push_data script (num_serialize n).

Definition push_opcode (script : CScript) (opcode : Z) : res CScript :=
  if (opcode <? 0) || (0xff <? opcode)
  then Err (Exception "CScript::operator<<(): invalid opcode")
  else Ok (script ++ [opcode]).

(** ** Decoding instructions

    The iterator [pc] is the part of the script from it to [end()].  A success
    gives the opcode, the operand and the new [pc]. *)
Definition GetOp2 (pc : bytes) : option (Z * bytes * bytes) :=
  match pc with
  | [] => None
  | opcode :: pc1 =>
      if opcode <=? OP_PUSHDATA4 then
        let size_and_pc :=
          if opcode <? OP_PUSHDATA1 then Some (opcode, pc1)
          else if opcode =? OP_PUSHDATA1 then
            if vsize pc1 <? 1 then None else Some (at_ pc1 0, drop 1 pc1)
          else if opcode =? OP_PUSHDATA2 then
            if vsize pc1 <? 2 then None else Some (le_combine (take 2 pc1), drop 2 pc1)
          else
            if vsize pc1 <? 4 then None else Some (le_combine (take 4 pc1), drop 4 pc1) in
        match size_and_pc with
        | None => None
        | Some (nSize, pc2) =>
            if to_u32 (vsize pc2) <? nSize then None
            else Some (opcode, take (Z.to_nat nSize) pc2, drop (Z.to_nat nSize) pc2)
        end
      else Some (opcode, [], pc1)
  end.

(** The loop [while (pc < end()) { if (!GetOp(pc, opcode, data)) ...; ... }] the
    readers of a script share: [body] goes on with a new local state or returns,
    [bad] is the return when an instruction cannot be decoded, [fin] what
    follows the loop.  Every instruction takes at least one byte. *)
Fixpoint ops_loop {S R} (body : S -> Z -> bytes -> bytes -> S + R) (bad fin : S -> R) (fuel : nat) (pc : bytes)
    (s : S) : R :=
  match fuel with
  | O => fin s
  | Datatypes.S fuel' =>
      match pc with
      | [] => fin s
      | _ :: _ =>
          match GetOp2 pc with
          | None => bad s
          | Some (opcode, data, pc') =>
              match body s opcode data pc' with
              | inl s' => ops_loop body bad fin fuel' pc' s'
              | inr r => r
              end
          end
      end
  end.

Definition for_ops {S R} (body : S -> Z -> bytes -> bytes -> S + R) (bad fin : S -> R) (script : CScript) (s : S) : R :=
  ops_loop body bad fin (length script) script s.

Definition DecodeOP_N (opcode : Z) : res Z :=
  if opcode =? OP_0 then Ok 0
  else if (OP_1 <=? opcode) && (opcode <=? OP_16) then Ok (opcode - (OP_1 - 1))
  else Err AssertFailed.

Definition EncodeOP_N (n : Z) : res Z :=
  if (0 <=? n) && (n <=? 16) then Ok (if n =? 0 then OP_0 else OP_1 + n - 1)
  else Err AssertFailed.

(** ** Signature operations *)
Definition sigops_of (fAccurate : bool) (lastOpcode opcode : Z) : res Z :=
  if (opcode =? OP_CHECKSIG) || (opcode =? OP_CHECKSIGVERIFY) then Ok 1
  else if (opcode =? OP_CHECKMULTISIG) || (opcode =? OP_CHECKMULTISIGVERIFY) then
    if fAccurate && (OP_1 <=? lastOpcode) && (lastOpcode <=? OP_16)
    then DecodeOP_N lastOpcode
    else Ok 20
  else Ok 0.

(** the loop of [GetSigOpCount], from the count [n] and the opcode [last] on *)
Definition sigops_loop (fAccurate : bool) (script : CScript) (n last : Z) : res Z :=
  for_ops
    (fun '(n, lastOpcode) opcode _ _ =>
       match sigops_of fAccurate lastOpcode opcode with
       | Ok k => inl (to_u32 (n + k), opcode)
       | Err e => inr (Err e)
       end)
    (fun '(n, _) => Ok n) (fun '(n, _) => Ok n) script (n, last).

Definition GetSigOpCount (fAccurate : bool) (script : CScript) : res Z :=
  sigops_loop fAccurate script 0 OP_INVALIDOPCODE.

Definition IsPayToPublicKeyHash (s : CScript) : bool :=
  ((vsize s =? 25) && (at_ s 0 =? OP_DUP) && (at_ s 1 =? OP_HASH160) && (at_ s 2 =? 0x14)
   && (at_ s 23 =? OP_EQUALVERIFY) && (at_ s 24 =? OP_CHECKSIG))
  || ((25 <? vsize s) && (vsize s <? 65) && (at_ s 0 =? OP_DUP) && (at_ s 1 =? OP_HASH160)
      && (at_ s 2 =? 0x14) && (at_ s 23 =? OP_EQUALVERIFY) && (at_ s 24 =? OP_CHECKSIG)
      && (back s =? OP_CHECKBLOCKATHEIGHT)).

Definition IsPayToScriptHash (s : CScript) : bool :=
  ((vsize s =? 23) && (at_ s 0 =? OP_HASH160) && (at_ s 1 =? 0x14) && (at_ s 22 =? OP_EQUAL))
  || ((23 <? vsize s) && (vsize s <? 63) && (at_ s 0 =? OP_HASH160) && (at_ s 1 =? 0x14)
      && (at_ s 22 =? OP_EQUAL) && (back s =? OP_CHECKBLOCKATHEIGHT)).

(** [GetSigOpCount(scriptSig)] of the [scriptPubKey] [s] *)
Definition GetSigOpCount_sig (s scriptSig : CScript) : res Z :=
  if negb (IsPayToScriptHash s) then GetSigOpCount true s
  else
    for_ops
      (fun _ opcode data _ => if OP_16 <? opcode then inr (Ok 0) else inl data)
      (fun _ => Ok 0) (fun data => GetSigOpCount true data) scriptSig [].

Definition IsPushOnly (script : CScript) : bool :=
  for_ops (fun _ opcode _ _ => if OP_16 <? opcode then inr false else inl ())
    (fun _ => false) (fun _ => true) script ().

(** ** Templates *)
Inductive ScriptType := UNKNOWN | P2PKH | P2SH.

#[export] Instance ScriptType_eq_dec : EqDecision ScriptType.
Proof. solve_decision. Defined.

Definition GetType (s : CScript) : ScriptType :=
  if IsPayToPublicKeyHash s then P2PKH
  else if IsPayToScriptHash s then P2SH
  else UNKNOWN.

Definition AddressHash (s : CScript) : uint160 :=
  if IsPayToPublicKeyHash s then slice s 3 20
  else if IsPayToScriptHash s then slice s 2 20
  else replicate 20 0.

(** ** Bytes *)
Definition is_byte (b : Z) : Prop := 0 <= b < 256.

Lemma byte_cases (P : Z -> bool) b :
  forallb P (map Z.of_nat (seq 0 256)) = true -> is_byte b -> P b = true.
Proof.
  intros HP Hb. rewrite forallb_forall in HP. apply HP, in_map_iff.
  exists (Z.to_nat b). unfold is_byte in Hb. split; [lia|]. apply in_seq. lia.
Qed.

(** the top bit and the other seven of a byte *)
Lemma land_top b : is_byte b -> Z.land b 0x80 = if 128 <=? b then 128 else 0.
Proof.
  intros Hb. apply Z.eqb_eq.
  by apply (byte_cases (fun b => Z.land b 0x80 =? if 128 <=? b then 128 else 0)).
Qed.

Lemma lor_top b : is_byte b -> b < 128 -> Z.lor b 0x80 = b + 128.
Proof.
  intros Hb Hlt. unfold is_byte in Hb. pose proof (lor_low 7 1 b) as H. change (1 * 2 ^ 7) with 128 in H.
  rewrite Z.lor_comm, H; lia.
Qed.

Lemma back_snoc l b : back (l ++ [b]) = b.
Proof.
  unfold back, at_. rewrite length_app. simpl. rewrite Nat.add_1_r. simpl.
  by rewrite nth_middle.
Qed.

Lemma back_cons a b l : back (a :: b :: l) = back (b :: l).
Proof. done. Qed.

Lemma split_back l : l <> [] -> l = take (pred (length l)) l ++ [back l].
Proof.
  destruct l as [|b l _] using rev_ind; [done|]. intros _. rewrite back_snoc, length_app. cbn [length].
  rewrite Nat.add_1_r. cbn [pred]. by rewrite take_app_length.
Qed.

Lemma le_combine_app a b :
  le_combine (a ++ b) = le_combine a + 2 ^ (8 * vsize a) * le_combine b.
Proof.
  unfold vsize. induction a as [|x a IH]; cbn [le_combine app length]; [lia|].
  rewrite IH. replace (8 * Z.of_nat (S (length a))) with (8 + 8 * Z.of_nat (length a)) by lia.
  rewrite Z.pow_add_r by lia. change (2 ^ 8) with 256. lia.
Qed.

Lemma le_combine_bound l : Forall is_byte l -> 0 <= le_combine l < 2 ^ (8 * vsize l).
Proof.
  unfold vsize. induction 1 as [|b l Hb _ IH]; cbn [le_combine length]; [simpl; lia|].
  replace (8 * Z.of_nat (S (length l))) with (8 + 8 * Z.of_nat (length l)) by lia.
  rewrite Z.pow_add_r by lia. change (2 ^ 8) with 256. unfold is_byte in Hb. lia.
Qed.

Lemma bytes_snoc l b : Forall is_byte l -> is_byte b -> Forall is_byte (l ++ [b]).
Proof. intros Hl Hb. apply Forall_app. split; [done|]. by constructor. Qed.

Lemma land_ff a : Z.land a 0xff = a mod 256.
Proof. change 0xff with (Z.ones 8). by rewrite Z.land_ones. Qed.

(** ** Script numbers: lemmas *)
Lemma abs_bytes_combine fuel w :
  Forall is_byte w -> (w <> [] -> back w <> 0) -> (length w <= fuel)%nat ->
  abs_bytes fuel (le_combine w) = w.
Proof.
  intros Hw. revert fuel. induction Hw as [|b w Hb Hw IH]; intros fuel Hback Hlen.
  { by destruct fuel. }
  destruct fuel as [|fuel]; cbn in Hlen; [lia|]. cbn [abs_bytes le_combine].
  assert (Hnz : b + 256 * le_combine w <> 0).
  { pose proof (le_combine_bound w Hw). unfold is_byte in Hb.
    intros Hz. assert (Hb0 : b = 0) by lia. assert (Hw0 : le_combine w = 0) by lia.
    destruct w as [|c w]; [by apply Hback|].
    assert (Habs : abs_bytes fuel (le_combine (c :: w)) = c :: w).
    { apply IH; [|simpl in *; lia]. intros _. rewrite <- (back_cons b). by apply Hback. }
    rewrite Hw0 in Habs. by destruct fuel. }
  destruct (Z.eqb_spec (b + 256 * le_combine w) 0); [done|].
  f_equal.
  - rewrite land_ff. unfold is_byte in Hb. rewrite Z.mul_comm, Z.mod_add by lia. apply Z.mod_small; lia.
  - rewrite Z.shiftr_div_pow2 by lia. change (2 ^ 8) with 256. unfold is_byte in Hb.
    rewrite (Z.mul_comm 256), Z.div_add, Z.div_small, Z.add_0_l by lia.
    apply IH; [|lia]. intros Hne. destruct w as [|c w]; [done|].
    rewrite <- (back_cons b). by apply Hback.
Qed.

Lemma abs_bytes_spec fuel a :
  0 <= a < 2 ^ (8 * Z.of_nat fuel) ->
  Forall is_byte (abs_bytes fuel a) /\ le_combine (abs_bytes fuel a) = a
  /\ (length (abs_bytes fuel a) <= fuel)%nat /\ (0 < a -> back (abs_bytes fuel a) <> 0).
Proof.
  revert a. induction fuel as [|fuel IH]; intros a Ha.
  { simpl in Ha. assert (a = 0) as -> by lia. repeat split; [constructor|simpl; lia|lia]. }
  cbn [abs_bytes]. destruct (Z.eqb_spec a 0) as [->|Hnz]; [repeat split; [constructor|simpl; lia|lia]|].
  rewrite land_ff, Z.shiftr_div_pow2 by lia. change (2 ^ 8) with 256.
  replace (8 * Z.of_nat (S fuel)) with (8 + 8 * Z.of_nat fuel) in Ha by lia.
  rewrite Z.pow_add_r in Ha by lia. change (2 ^ 8) with 256 in Ha.
  pose proof (Z.mod_pos_bound a 256 ltac:(lia)). pose proof (Z.div_mod a 256 ltac:(lia)).
  destruct (IH (a / 256)) as (Hb & Hc & Hl & Hn).
  { split; [apply Z.div_pos; lia|]. apply Z.div_lt_upper_bound; lia. }
  cbn [le_combine length]. repeat split; [by constructor|lia|lia|]. intros _.
  destruct (decide (0 < a / 256)) as [Hq|Hq].
  - destruct (abs_bytes fuel (a / 256)) as [|c w] eqn:E; [simpl in Hc; lia|].
    rewrite back_cons. by apply Hn.
  - assert (Hz : a / 256 = 0) by (pose proof (Z.div_pos a 256); lia). rewrite Hz.
    replace (abs_bytes fuel 0) with (@nil Z) by (by destruct fuel). unfold back, at_. simpl. lia.
Qed.

Lemma to_i64_small x : is_i64 x -> to_i64 x = x.
Proof. unfold is_i64, to_i64. intros. rewrite Z.mod_small; lia. Qed.

Lemma or_bytes_cons b vch i r :
  or_bytes (b :: vch) i r = or_bytes vch (i + 1) (Z.lor r (to_i64 (Z.shiftl b (8 * i)))).
Proof. done. Qed.

Lemma or_bytes_spec vch b i r :
  Forall is_byte (b :: vch) -> 0 <= i -> i + vsize (b :: vch) <= 8 -> 0 <= r < 2 ^ (8 * i) ->
  or_bytes (b :: vch) i r = to_i64 (r + 2 ^ (8 * i) * le_combine (b :: vch)).
Proof.
  revert b i r. induction vch as [|c vch IH]; intros b i r [Hb Hv]%list.Forall_cons Hi Hlen Hr;
    unfold vsize in Hlen; cbn [length] in Hlen; rewrite or_bytes_cons; cbn [le_combine];
    unfold is_byte in Hb; rewrite Z.shiftl_mul_pow2 by lia.
  - cbn [or_bytes]. assert (Hp : 2 ^ (8 * i) * 2 ^ (64 - 8 * i) = 2 ^ 64) by (rewrite <- Z.pow_add_r by lia; f_equal; lia).
    assert (Hh : 2 ^ (8 * i) * 2 ^ (63 - 8 * i) = 2 ^ 63) by (rewrite <- Z.pow_add_r by lia; f_equal; lia).
    assert (H2 : 256 <= 2 ^ (64 - 8 * i)) by (change 256 with (2 ^ 8); apply Z.pow_le_mono_r; lia).
    assert (0 < 2 ^ (8 * i)) by (apply Z.pow_pos_nonneg; lia).
    unfold to_i64. destruct (Z.ltb_spec b (2 ^ (63 - 8 * i))).
    + rewrite (Z.mod_small (b * _ + _)), (Z.mod_small (_ + _ * _ + _)) by nia.
      replace (b * 2 ^ (8 * i) + 2 ^ 63 - 2 ^ 63) with (b * 2 ^ (8 * i)) by lia.
      rewrite Z.lor_comm, lor_low by lia. lia.
    + rewrite <- (Z.mod_add (b * _ + _) (-1)), <- (Z.mod_add (_ + _ * _ + _) (-1)) by lia.
      rewrite (Z.mod_small (b * _ + _ + _)), (Z.mod_small (_ + _ * _ + _ + _)) by nia.
      replace (b * 2 ^ (8 * i) + 2 ^ 63 + -1 * 2 ^ 64 - 2 ^ 63)
        with ((b - 2 ^ (64 - 8 * i)) * 2 ^ (8 * i)) by lia.
      rewrite Z.lor_comm, lor_low by lia. lia.
  - assert (Hp : 2 ^ (8 * i) * 256 <= 2 ^ 56).
    { change 256 with (2 ^ 8). rewrite <- Z.pow_add_r by lia. apply Z.pow_le_mono_r; lia. }
    assert (0 < 2 ^ (8 * i)) by (apply Z.pow_pos_nonneg; lia).
    rewrite to_i64_small by (unfold is_i64; nia). rewrite Z.lor_comm, lor_low by lia.
    assert (Hs : 2 ^ (8 * (i + 1)) = 2 ^ (8 * i) * 256).
    { replace (8 * (i + 1)) with (8 * i + 8) by lia. by rewrite Z.pow_add_r by lia. }
    rewrite IH; [|done|lia|unfold vsize; cbn [length]; lia|rewrite Hs; nia].
    rewrite Hs. cbn [le_combine]. f_equal. lia.
Qed.

(** what a vector of one to eight bytes denotes: sign and magnitude *)
Definition magnitude (vch : bytes) : Z :=
  let init := take (pred (length vch)) vch in
  le_combine init + 2 ^ (8 * vsize init) * (back vch mod 128).

Lemma magnitude_snoc l b : magnitude (l ++ [b]) = le_combine l + 2 ^ (8 * vsize l) * (b mod 128).
Proof.
  unfold magnitude. rewrite back_snoc, length_app. cbn [length]. rewrite Nat.add_1_r. cbn [pred].
  by rewrite take_app_length.
Qed.

Lemma ldiff_top k m : 0 <= k -> 0 <= m < 2 ^ k -> Z.ldiff (2 ^ k + m) (2 ^ k) = m.
Proof.
  intros Hk Hm. pose proof (lor_low k 1 m Hk Hm) as Hlor. rewrite Z.mul_1_l in Hlor.
  rewrite <- Hlor. apply Z.bits_inj'. intros i Hi. rewrite Z.ldiff_spec, Z.lor_spec.
  destruct (decide (i = k)) as [->|Hne].
  - rewrite Z.pow2_bits_true by lia. rewrite andb_false_r. symmetry.
    destruct (decide (m = 0)) as [->|Hnz]; [apply Z.bits_0|].
    apply Z.bits_above_log2; [lia|]. apply Z.log2_lt_pow2; lia.
  - rewrite Z.pow2_bits_false by done. by rewrite andb_true_r.
Qed.

Lemma set_vch_spec l b :
  Forall is_byte (l ++ [b]) -> vsize l < 8 ->
  set_vch (l ++ [b]) = Ok (if 128 <=? b then - magnitude (l ++ [b]) else magnitude (l ++ [b])).
Proof.
  intros Hby Hlen. pose proof Hby as Hall. apply Forall_app in Hby as [Hl [Hb _]%list.Forall_cons].
  unfold set_vch. rewrite decide_False by (by destruct l).
  assert (Hsz : vsize (l ++ [b]) = vsize l + 1) by (unfold vsize; rewrite length_app; simpl; lia).
  rewrite decide_False.
  2:{ intros E. rewrite E in Hsz. change (vsize int64_min_encoding) with 9 in Hsz. lia. }
  rewrite Hsz. destruct (Z.ltb_spec 8 (vsize l + 1)); [lia|].
  rewrite back_snoc, land_top by done. rewrite magnitude_snoc.
  assert (Hor : or_bytes (l ++ [b]) 0 0 = to_i64 (le_combine (l ++ [b]))).
  { destruct (l ++ [b]) as [|c v] eqn:E; [by destruct l|].
    rewrite or_bytes_spec; [f_equal; lia|done|lia|unfold vsize in *; lia|simpl; lia]. }
  rewrite Hor, le_combine_app. cbn [le_combine]. rewrite Z.mul_0_r, Z.add_0_r.
  pose proof (le_combine_bound l Hl) as Hlb. unfold is_byte in Hb. set (p := 2 ^ (8 * vsize l)) in *.
  assert (Hvs : 0 <= vsize l) by (unfold vsize; lia).
  assert (Hp : p * 256 <= 2 ^ 64).
  { subst p. change 256 with (2 ^ 8). rewrite <- Z.pow_add_r by lia. apply Z.pow_le_mono_r; lia. }
  destruct (Z.leb_spec 128 b); cbn [negb Z.eqb].
  - replace (b mod 128) with (b - 128) by (apply (Z.mod_unique_pos _ _ 1); lia).
    replace (to_u64 (to_i64 (le_combine l + p * b))) with (le_combine l + p * b).
    2:{ unfold to_u64, to_i64. rewrite Zminus_mod_idemp_l. rewrite Z.mod_small; [lia|nia]. }
    replace (vsize l + 1 - 1) with (vsize l) by lia. rewrite Z.shiftl_mul_pow2 by lia. fold p.
    replace (0x80 * p) with (2 ^ (7 + 8 * vsize l)) by (rewrite Z.pow_add_r by lia; subst p; lia).
    replace (le_combine l + p * b) with (2 ^ (7 + 8 * vsize l) + (le_combine l + p * (b - 128)))
      by (rewrite Z.pow_add_r by lia; subst p; lia).
    rewrite ldiff_top by (rewrite ?Z.pow_add_r by lia; fold p; change (2 ^ 7) with 128; nia).
    rewrite to_i64_small; [done|]. unfold is_i64. nia.
  - rewrite Z.mod_small by lia. rewrite to_i64_small; [done|]. unfold is_i64. nia.
Qed.

(** no shorter vector denotes the same number *)
Definition minimal (l : bytes) (b : Z) : Prop :=
  b mod 128 <> 0 \/ exists l' c, l = l' ++ [c] /\ 128 <= c.

Definition signed (l : bytes) (b : Z) : Z :=
  if 128 <=? b then - magnitude (l ++ [b]) else magnitude (l ++ [b]).

Lemma abs_bytes_snoc l b :
  Forall is_byte (l ++ [b]) -> b <> 0 -> vsize l < 8 ->
  abs_bytes 8 (le_combine (l ++ [b])) = l ++ [b].
Proof.
  intros Hby Hb Hl. apply abs_bytes_combine; [done|by rewrite back_snoc|].
  rewrite length_app. unfold vsize in Hl. simpl. lia.
Qed.

Lemma magnitude_bound l b :
  Forall is_byte (l ++ [b]) -> vsize l < 8 -> minimal l b -> 0 < magnitude (l ++ [b]) < 2 ^ 63.
Proof.
  intros Hby Hl Hmin. rewrite magnitude_snoc. apply Forall_app in Hby as [Hby _].
  pose proof (le_combine_bound l Hby). pose proof (Z.mod_pos_bound b 128 ltac:(lia)).
  assert (Hv : 0 <= vsize l) by (unfold vsize; lia).
  assert (Hp : 2 ^ (8 * vsize l) * 128 <= 2 ^ 63).
  { change 128 with (2 ^ 7). rewrite <- Z.pow_add_r by lia. apply Z.pow_le_mono_r; lia. }
  split; [|nia]. destruct Hmin as [Hb|(l' & c & -> & Hc)]; [nia|].
  apply Forall_app in Hby as [Hl' _]. pose proof (le_combine_bound l' Hl').
  rewrite le_combine_app. cbn [le_combine]. assert (0 < 2 ^ (8 * vsize l')).
  { apply Z.pow_pos_nonneg; unfold vsize; lia. }
  nia.
Qed.

(** Encoding the number a minimal vector denotes gives the vector back. *)
Lemma serialize_signed l b :
  Forall is_byte (l ++ [b]) -> vsize l < 8 -> minimal l b ->
  num_serialize (signed l b) = l ++ [b].
Proof.
  intros Hby Hl Hmin. pose proof (magnitude_bound l b Hby Hl Hmin) as Hm.
  pose proof Hby as [Hbl [Hb _]%list.Forall_cons]%Forall_app.
  assert (Habs : (if signed l b <? 0 then - signed l b else signed l b) = magnitude (l ++ [b])
                 /\ (signed l b <? 0) = (128 <=? b)).
  { unfold signed. destruct (Z.leb_spec 128 b); zcases; lia. }
  destruct Habs as [Habs Hneg]. unfold num_serialize.
  assert (Hz : (signed l b =? 0) = false /\ (signed l b =? INT64_MIN) = false)
    by (unfold signed, INT64_MIN; destruct (128 <=? b); zcases; lia).
  destruct Hz as [-> ->]. cbv zeta. rewrite Habs, Hneg, magnitude_snoc.
  unfold is_byte in Hb. destruct (decide (b mod 128 = 0)) as [Hb0|Hb0].
  - destruct Hmin as [?|(l' & c & -> & Hc)]; [done|].
    rewrite Hb0, Z.mul_0_r, Z.add_0_r. apply Forall_app in Hbl as [Hl' [Hcb _]%list.Forall_cons].
    assert (Hs : vsize l' < 8) by (unfold vsize in *; rewrite length_app in Hl; simpl in Hl; lia).
    rewrite abs_bytes_snoc, back_snoc, land_top; [|done|by apply bytes_snoc|lia|done].
    destruct (Z.leb_spec 128 c); [|lia]. cbn [negb Z.eqb]. f_equal. f_equal.
    pose proof (Z.div_mod b 128 ltac:(lia)). destruct (Z.leb_spec 128 b); lia.
  - assert (Hm128 := Z.mod_pos_bound b 128 ltac:(lia)).
    assert (Hcomb : le_combine l + 2 ^ (8 * vsize l) * (b mod 128) = le_combine (l ++ [b mod 128]))
      by (rewrite le_combine_app; cbn [le_combine]; lia).
    assert (Hby' : is_byte (b mod 128)) by (unfold is_byte; lia).
    rewrite Hcomb, abs_bytes_snoc, back_snoc, land_top; [|done|by apply bytes_snoc|done|done].
    destruct (Z.leb_spec 128 (b mod 128)); [lia|]. cbn [negb Z.eqb]. destruct (Z.leb_spec 128 b).
    + rewrite length_app. cbn [length]. rewrite Nat.add_1_r. cbn [pred]. rewrite take_app_length.
      rewrite lor_top by (done || lia). do 2 f_equal. symmetry.
      replace (b mod 128) with (b - 128) by (apply (Z.mod_unique_pos _ _ 1); lia). lia.
    + by rewrite Z.mod_small by lia.
Qed.

(** Every number but zero and [INT64_MIN] is encoded as such a vector. *)
Lemma serialize_form n :
  is_i64 n -> n <> 0 -> n <> INT64_MIN ->
  exists l b, n = signed l b /\ Forall is_byte (l ++ [b]) /\ vsize l < 8 /\ minimal l b.
Proof.
  unfold is_i64, INT64_MIN. intros Hn Hnz Hmin.
  destruct (abs_bytes_spec 8 (Z.abs n)) as (Hby & Hc & Hlen & Hback); [change (8 * Z.of_nat 8) with 64; lia|].
  specialize (Hback ltac:(lia)). set (w := abs_bytes 8 (Z.abs n)) in *.
  assert (Hne : w <> []) by (intros ->; simpl in Hc; lia).
  pose proof (split_back w Hne) as Hw. set (l := take (pred (length w)) w) in *. set (b := back w) in *.
  assert (Hls : vsize l < 8).
  { unfold vsize. subst l. rewrite length_take. destruct w; [done|simpl in *; lia]. }
  rewrite Hw in Hby, Hc. pose proof Hby as [Hl [Hb _]%list.Forall_cons]%Forall_app.
  rewrite le_combine_app in Hc. cbn [le_combine] in Hc. unfold is_byte in Hb.
  destruct (Z.leb_spec 128 b) as [Htop|Htop].
  - assert (Hls' : vsize (l ++ [b]) < 8).
    { unfold vsize in *. rewrite length_app. cbn [length]. destruct (decide (length l = 7%nat)) as [E|]; [|lia].
      exfalso. rewrite E in Hc. pose proof (le_combine_bound l Hl). change (2 ^ (8 * Z.of_nat 7)) with (2 ^ 56) in Hc. lia. }
    exists (l ++ [b]), (if n <? 0 then 128 else 0). split_and!; [|apply Forall_app; split; [done|]|done|right; by exists l, b].
    + unfold signed. rewrite magnitude_snoc, le_combine_app. cbn [le_combine].
      destruct (Z.ltb_spec n 0); [change (128 mod 128) with 0|change (0 mod 128) with 0]; zcases; lia.
    + constructor; [|done]. unfold is_byte. destruct (n <? 0); lia.
  - exists l, (if n <? 0 then b + 128 else b).
    assert (Hmod : (if n <? 0 then b + 128 else b) mod 128 = b).
    { destruct (n <? 0); [|by rewrite Z.mod_small by lia]. symmetry. apply (Z.mod_unique_pos _ _ 1); lia. }
    split_and!; [|apply Forall_app; split; [done|]|done|left; by rewrite Hmod].
    + unfold signed. rewrite magnitude_snoc, Hmod. destruct (Z.ltb_spec n 0); zcases; lia.
    + constructor; [|done]. unfold is_byte. destruct (n <? 0); lia.
Qed.

Lemma set_vch_serialize n : is_i64 n -> set_vch (num_serialize n) = Ok n.
Proof.
  intros Hn. destruct (decide (n = 0)) as [->|Hnz]; [done|].
  destruct (decide (n = INT64_MIN)) as [->|Hmin]; [done|].
  destruct (serialize_form n) as (l & b & -> & Hby & Hl & Hm); [done..|].
  by rewrite serialize_signed, set_vch_spec.
Qed.

Lemma minimal_check l b :
  Forall is_byte (l ++ [b]) ->
  (Z.land (back (l ++ [b])) 0x7f =? 0)
  && ((vsize (l ++ [b]) <=? 1) || (Z.land (at_ (l ++ [b]) (length (l ++ [b]) - 2)) 0x80 =? 0)) = false
  <-> minimal l b.
Proof.
  intros [Hl [Hb _]%list.Forall_cons]%Forall_app. rewrite back_snoc, land_127. unfold minimal.
  destruct (Z.eqb_spec (b mod 128) 0) as [Hz|Hz]; simpl; [|split; auto].
  unfold vsize. rewrite length_app. destruct l as [|c l' _] using rev_ind.
  { simpl. split; [done|]. intros [?|(l' & c & E & _)]; [done|by destruct l']. }
  apply Forall_app in Hl as [Hl' [Hc _]%list.Forall_cons].
  rewrite length_app. cbn [length]. destruct (Z.leb_spec (Z.of_nat (length l' + 1 + 1)) 1); [lia|].
  replace (length l' + 1 + 1 - 2)%nat with (length l') by lia. unfold at_.
  rewrite <- app_assoc. cbn [app]. rewrite nth_middle, land_top by done. simpl. split.
  - destruct (Z.leb_spec 128 c); [|done]. right. by exists l', c.
  - intros [?|(l2 & c2 & E & Hc2)]; [done|]. apply app_inj_tail in E as [_ ->].
    destruct (Z.leb_spec 128 c2); [done|lia].
Qed.

(** An encoding within the size limit decodes to its number. *)
Lemma CScriptNum_serialize n fm k :
  is_i64 n -> vsize (num_serialize n) <= k -> k <= 8 -> CScriptNum_of (num_serialize n) fm k = Ok n.
Proof.
  intros Hn Hlen Hk. unfold CScriptNum_of. destruct (Z.ltb_spec k (vsize (num_serialize n))); [lia|].
  destruct (decide (n = 0)) as [->|Hnz]; [by destruct fm|].
  destruct (decide (n = INT64_MIN)) as [->|Hmin].
  { change (vsize (num_serialize INT64_MIN)) with 9 in Hlen. lia. }
  destruct (serialize_form n) as (l & b & -> & Hbl & Hl & Hm); [done..|].
  rewrite set_vch_serialize by done. rewrite serialize_signed by done.
  destruct (Z.ltb_spec 0 (vsize (l ++ [b]))); [|unfold vsize in *; rewrite length_app in *; simpl in *; lia].
  destruct fm; [|done]. cbn [andb]. by rewrite (proj2 (minimal_check l b Hbl) Hm).
Qed.

(** The four-byte limit is the range of numbers of less than 2^31 in magnitude. *)
Lemma num_serialize_4 n : Z.abs n < 2 ^ 31 -> vsize (num_serialize n) <= 4.
Proof.
  intros Hn. destruct (decide (n = 0)) as [->|Hnz]; [vm_compute; done|].
  destruct (serialize_form n) as (l & b & -> & Hby & Hl & Hm); [unfold is_i64; lia|done|unfold INT64_MIN; lia|].
  rewrite serialize_signed by done. unfold vsize. rewrite length_app. cbn [length].
  assert (Hmag : magnitude (l ++ [b]) < 2 ^ 31) by (unfold signed in Hn; destruct (128 <=? b); lia).
  pose proof (magnitude_bound l b Hby Hl Hm) as Hpos. rewrite magnitude_snoc in Hmag, Hpos.
  apply Forall_app in Hby as [Hbl _]. pose proof (le_combine_bound l Hbl).
  pose proof (Z.mod_pos_bound b 128 ltac:(lia)). destruct (decide (length l <= 3)%nat); [lia|]. exfalso.
  assert (H32 : 2 ^ 32 <= 2 ^ (8 * vsize l)) by (apply Z.pow_le_mono_r; unfold vsize; lia).
  destruct Hm as [Hb|(l' & c & -> & Hc)]; [nia|]. rewrite le_combine_app in Hmag. cbn [le_combine] in Hmag.
  apply Forall_app in Hbl as [Hl' _]. pose proof (le_combine_bound l' Hl').
  assert (H24 : 2 ^ 24 <= 2 ^ (8 * vsize l')).
  { apply Z.pow_le_mono_r; [lia|]. unfold vsize in *. rewrite length_app in *. simpl in *. lia. }
  nia.
Qed.

(** C33: the byte vectors [CScriptNum(vch, fRequireMinimal = true, nMaxNumSize)] accepts are exactly the
    encodings [CScriptNum::serialize] produces within the size limit: decoding is the
    inverse of encoding, and no number has a second accepted encoding. *)
Theorem scriptnum_exact (v : bytes) (k n : Z) :
  Forall is_byte v -> 0 <= k <= 8 ->
  CScriptNum_of v true k = Ok n <-> is_i64 n /\ v = num_serialize n /\ vsize v <= k.
Proof.
  intros Hby Hk. split.
  - unfold CScriptNum_of. destruct (Z.ltb_spec k (vsize v)); [done|]. destruct v as [|b l _] using rev_ind.
    { simpl. intros [= <-]. split_and!; [unfold is_i64; lia|done|unfold vsize; simpl; lia]. }
    assert (Hpos : 0 < vsize (l ++ [b]) /\ vsize l < 8) by (unfold vsize in *; rewrite length_app in *; simpl in *; lia).
    destruct (Z.ltb_spec 0 (vsize (l ++ [b]))); [|lia]. cbn [andb].
    case_match eqn:E; [done|]. apply minimal_check in E; [|done].
    rewrite set_vch_spec by (done || apply Hpos). intros [= Hn].
    change (signed l b = n) in Hn. pose proof (magnitude_bound l b Hby (proj2 Hpos) E).
    split_and!; [|by rewrite <- Hn, serialize_signed by (done || apply Hpos)|lia].
    rewrite <- Hn. unfold is_i64, signed. destruct (128 <=? b); lia.
  - intros (Hn & -> & Hlen). apply CScriptNum_serialize; [done|lia|lia].
Qed.

Lemma scriptnum_exact_witness :
  (Forall is_byte [0xff; 0x80] /\ 0 <= 4 <= 8)
  /\ (CScriptNum_of [0xff; 0x80] true 4 = Ok (-255)
      <-> is_i64 (-255) /\ [0xff; 0x80] = num_serialize (-255) /\ vsize [0xff; 0x80] <= 4).
Proof.
  split; [split; [repeat constructor; lia|lia]|].
  apply (scriptnum_exact [0xff; 0x80] 4 (-255)); [repeat constructor; lia|lia].
Defined.

(** ** Decoding instructions: lemmas *)
(** the opcode [operator<<] puts before a vector *)
Definition push_op (data : bytes) : Z :=
  if vsize data <? OP_PUSHDATA1 then vsize data
  else if vsize data <=? 0xff then OP_PUSHDATA1
  else if vsize data <=? 0xffff then OP_PUSHDATA2
  else OP_PUSHDATA4.

Lemma vsize_app {A} (a b : list A) : vsize (a ++ b) = vsize a + vsize b.
Proof. unfold vsize. rewrite length_app. lia. Qed.

Lemma vsize_nonneg {A} (a : list A) : 0 <= vsize a.
Proof. unfold vsize. lia. Qed.

Lemma push_data_app script data rest :
  push_data script data ++ rest = script ++ push_data [] data ++ rest.
Proof. unfold push_data. repeat case_match; cbn [app]; by rewrite <- app_assoc. Qed.

Lemma take_vsize {A} (d rest : list A) : take (Z.to_nat (vsize d)) (d ++ rest) = d.
Proof. unfold vsize. by rewrite Nat2Z.id, take_app_length. Qed.

Lemma drop_vsize {A} (d rest : list A) : drop (Z.to_nat (vsize d)) (d ++ rest) = rest.
Proof. unfold vsize. by rewrite Nat2Z.id, drop_app_length. Qed.

Lemma read_size n x rest :
  0 <= x < 2 ^ (8 * Z.of_nat n) ->
  le_combine (take n (le_split n x ++ rest)) = x /\ drop n (le_split n x ++ rest) = rest.
Proof.
  intros Hx. pose proof (length_le_split n x) as Hl.
  rewrite take_app_length', drop_app_length', le_combine_split, Z.mod_small by done. done.
Qed.

Lemma GetOp2_push data rest :
  vsize data + vsize rest < 2 ^ 32 ->
  GetOp2 (push_data [] data ++ rest) = Some (push_op data, data, rest).
Proof.
  intros Hsz. pose proof (vsize_nonneg data). pose proof (vsize_nonneg rest).
  assert (Hu : (to_u32 (vsize (data ++ rest)) <? vsize data) = false).
  { unfold to_u32. rewrite vsize_app, Z.mod_small by lia. apply Z.ltb_ge. lia. }
  assert (Hlen : forall n x, (vsize (le_split n x ++ data ++ rest) <? Z.of_nat n) = false).
  { intros n x. apply Z.ltb_ge. rewrite vsize_app. unfold vsize. rewrite length_le_split. lia. }
  unfold push_data, push_op, OP_PUSHDATA1, OP_PUSHDATA2, OP_PUSHDATA4.
  destruct (Z.ltb_spec (vsize data) 0x4c); [|destruct (Z.leb_spec (vsize data) 0xff);
    [|destruct (Z.leb_spec (vsize data) 0xffff)]]; cbn [app GetOp2].
  - unfold OP_PUSHDATA4, OP_PUSHDATA1. destruct (Z.leb_spec (vsize data) 0x4e); [|lia].
    destruct (Z.ltb_spec (vsize data) 0x4c); [|lia]. by rewrite Hu, take_vsize, drop_vsize.
  - destruct (Z.ltb_spec (vsize (vsize data :: data ++ rest)) 1) as [Hl|_].
    { unfold vsize in Hl. simpl in Hl. lia. }
    cbn. unfold at_. cbn [nth]. rewrite drop_0. by rewrite Hu, take_vsize, drop_vsize.
  - rewrite <- app_assoc. cbn -[vsize le_split]. rewrite (Hlen 2%nat).
    destruct (read_size 2 (vsize data) (data ++ rest)) as [-> ->]; [simpl; lia|].
    by rewrite Hu, take_vsize, drop_vsize.
  - rewrite <- app_assoc. cbn -[vsize le_split]. rewrite (Hlen 4%nat).
    destruct (read_size 4 (vsize data) (data ++ rest)) as [-> ->]; [change (8 * Z.of_nat 4) with 32; lia|].
    by rewrite Hu, take_vsize, drop_vsize.
Qed.

Lemma GetOp2_op opcode rest : OP_PUSHDATA4 < opcode -> GetOp2 (opcode :: rest) = Some (opcode, [], rest).
Proof. intros Hop. cbn [GetOp2]. by destruct (Z.leb_spec opcode OP_PUSHDATA4); [lia|]. Qed.

(** an instruction takes at least its opcode byte *)
Lemma GetOp2_shorter pc opcode data pc' :
  GetOp2 pc = Some (opcode, data, pc') -> (length data + length pc' < length pc)%nat.
Proof.
  destruct pc as [|b pc1]; [done|]. cbn [GetOp2 length].
  destruct (b <=? OP_PUSHDATA4); [|intros [= <- <- <-]; simpl; lia].
  set (sp := if b <? OP_PUSHDATA1 then _ else _).
  assert (Hsp : forall n p, sp = Some (n, p) -> (length p <= length pc1)%nat).
  { subst sp. intros n p. repeat case_match; intros [= <- <-]; rewrite ?length_drop; lia. }
  destruct sp as [[n p]|]; [|done]. specialize (Hsp n p eq_refl).
  case_match; [done|]. intros [= <- <- <-]. rewrite length_take, length_drop. lia.
Qed.

Section Loops.
  Context {S R : Type} (body : S -> Z -> bytes -> bytes -> S + R) (bad fin : S -> R).

Lemma ops_loop_fuel f1 f2 pc s :
    (length pc <= f1)%nat -> (length pc <= f2)%nat ->
    ops_loop body bad fin f1 pc s = ops_loop body bad fin f2 pc s.
  Proof.
    revert f2 pc s. induction f1 as [|f1 IH]; intros f2 pc s H1 H2.
    { destruct pc; [|simpl in H1; lia]. by destruct f2. }
    destruct pc as [|b pc]; [by destruct f2|]. destruct f2 as [|f2]; [simpl in H2; lia|].
    cbn [ops_loop]. destruct (GetOp2 (b :: pc)) as [[[op d] pc']|] eqn:E; [|done].
    apply GetOp2_shorter in E. cbn [length] in *.
    destruct (body s op d pc'); [|done]. apply IH; lia.
  Qed.

Lemma for_ops_step pc s opcode data pc' :
    GetOp2 pc = Some (opcode, data, pc') ->
    for_ops body bad fin pc s
    = match body s opcode data pc' with inl s' => for_ops body bad fin pc' s' | inr r => r end.
  Proof.
    intros HG. destruct pc as [|b pc]; [done|]. unfold for_ops at 1. cbn [length ops_loop]. rewrite HG.
    destruct (body s opcode data pc'); [|done]. apply GetOp2_shorter in HG. cbn [length] in HG.
    apply ops_loop_fuel; lia.
  Qed.

Lemma for_ops_bad pc s : pc <> [] -> GetOp2 pc = None -> for_ops body bad fin pc s = bad s.
  Proof. intros Hne HG. destruct pc; [done|]. unfold for_ops. cbn [length ops_loop]. by rewrite HG. Qed.

  (** The loop ends, whatever the script: in [fin] at the end of the script, in
      [bad] at an instruction that cannot be decoded, or where the body returns. *)
Lemma for_ops_ind (P : bytes -> S -> R -> Prop) :
    (forall s, P [] s (fin s)) ->
    (forall pc s, pc <> [] -> GetOp2 pc = None -> P pc s (bad s)) ->
    (forall pc s opcode data pc' r, GetOp2 pc = Some (opcode, data, pc') ->
       body s opcode data pc' = inr r -> P pc s r) ->
    (forall pc s opcode data pc' s' r, GetOp2 pc = Some (opcode, data, pc') ->
       body s opcode data pc' = inl s' -> P pc' s' r -> P pc s r) ->
    forall pc s, P pc s (for_ops body bad fin pc s).
  Proof.
    intros Hfin Hbad Hret Hgo pc. remember (length pc) as n eqn:Hn.
    revert pc Hn. induction n as [n IH] using lt_wf_ind. intros pc -> s.
    destruct (GetOp2 pc) as [[[op d] pc']|] eqn:E.
    - rewrite (for_ops_step _ _ _ _ _ E). destruct (body s op d pc') as [s'|r] eqn:Eb; [|by eapply Hret].
      eapply Hgo; [done..|]. apply (IH (length pc')); [|done]. apply GetOp2_shorter in E. lia.
    - destruct pc as [|b pc]; [apply Hfin|]. rewrite for_ops_bad by done. by apply Hbad.
  Qed.
End Loops.

(** ** Building and reading back *)
Inductive item := Data (d : bytes) | Opcode (opcode : Z).

Definition add_item (script : CScript) (it : item) : res CScript :=
  match it with Data d => Ok (push_data script d) | Opcode o => push_opcode script o end.

Fixpoint build (script : CScript) (items : list item) : res CScript :=
  match items with
  | [] => Ok script
  | it :: items' => match add_item script it with Ok s => build s items' | Err e => Err e end
  end.

(** all the instructions of a script, in order *)
Definition instructions (script : CScript) : option (list (Z * bytes)) :=
  for_ops (fun acc opcode data _ => inl (acc ++ [(opcode, data)])) (fun _ => None) Some script [].

Definition item_ok (it : item) : Prop :=
  match it with Data _ => True | Opcode o => OP_PUSHDATA4 < o <= 0xff end.

Definition item_instruction (it : item) : Z * bytes :=
  match it with Data d => (push_op d, d) | Opcode o => (o, []) end.

Definition item_bytes (it : item) : bytes :=
  match it with Data d => push_data [] d | Opcode o => [o] end.

Lemma build_bytes items script :
  Forall item_ok items -> build script items = Ok (script ++ concat (map item_bytes items)).
Proof.
  intros Hok. revert script. induction Hok as [|it items Hit _ IH]; intros script; cbn [build map concat].
  { by rewrite app_nil_r. }
  rewrite app_assoc. destruct it as [d|o]; cbn [add_item item_bytes].
  - rewrite IH. f_equal. f_equal. rewrite <- (app_nil_r (push_data script d)), push_data_app. by rewrite app_nil_r.
  - unfold push_opcode. simpl in Hit. unfold OP_PUSHDATA4 in Hit.
    destruct (Z.ltb_spec o 0), (Z.ltb_spec 0xff o); try lia. cbn [orb]. by rewrite IH.
Qed.

Lemma push_data_size d : vsize d < vsize (push_data [] d).
Proof.
  unfold push_data. repeat case_match; cbn [app]; unfold vsize; cbn [length];
    rewrite ?length_app, ?length_le_split; lia.
Qed.

Lemma instructions_from items acc :
  Forall item_ok items -> vsize (concat (map item_bytes items)) < 2 ^ 32 ->
  for_ops (fun acc opcode data _ => inl (acc ++ [(opcode, data)])) (fun _ => None) Some
    (concat (map item_bytes items)) acc = Some (acc ++ map item_instruction items).
Proof.
  intros Hok. revert acc. induction Hok as [|it items Hit _ IH]; intros acc Hsz; cbn [map concat].
  { cbn. by rewrite app_nil_r. }
  cbn [map concat] in Hsz. rewrite vsize_app in Hsz.
  assert (HG : GetOp2 (item_bytes it ++ concat (map item_bytes items))
               = Some ((item_instruction it).1, (item_instruction it).2, concat (map item_bytes items))).
  { destruct it as [d|o]; cbn [item_bytes item_instruction fst snd] in *.
    - apply GetOp2_push. pose proof (push_data_size d). lia.
    - apply GetOp2_op, Hit. }
  rewrite (for_ops_step _ _ _ _ _ _ _ _ HG), IH.
  - rewrite <- app_assoc. cbn. by destruct (item_instruction it).
  - pose proof (vsize_nonneg (item_bytes it)). lia.
Qed.

(** C31: a script built with [operator<<] from byte vectors and opcodes that are not pushes reads
    back with [GetOp] as the same sequence: each vector as one push instruction with
    that vector as its operand, each opcode as itself. *)
Theorem script_roundtrip (items : list item) (script : CScript) :
  Forall item_ok items -> build [] items = Ok script -> vsize script < 2 ^ 32 ->
  instructions script = Some (map item_instruction items).
Proof.
  intros Hok. rewrite build_bytes by done. intros [= <-]. by apply instructions_from.
Qed.

Lemma script_roundtrip_witness :
  (Forall item_ok [Data [7; 8]; Opcode OP_DUP]
   /\ build [] [Data [7; 8]; Opcode OP_DUP] = Ok [2; 7; 8; OP_DUP]
   /\ vsize [2; 7; 8; OP_DUP] < 2 ^ 32)
  /\ instructions [2; 7; 8; OP_DUP] = Some (map item_instruction [Data [7; 8]; Opcode OP_DUP]).
Proof.
  split.
  - split; [repeat constructor; vm_compute; done|split; [done|vm_compute; done]].
  - apply (script_roundtrip [Data [7; 8]; Opcode OP_DUP]);
      [repeat constructor; vm_compute; done|done|vm_compute; done].
Defined.

(** ** Signature operations: bounds *)
Lemma sigops_of_bounds last opcode :
  exists a l, sigops_of true last opcode = Ok a /\ sigops_of false last opcode = Ok l /\ 0 <= a <= l /\ l <= 20.
Proof.
  unfold sigops_of, DecodeOP_N, OP_CHECKSIG. cbn [andb].
  destruct (_ || _); [exists 1, 1; split_and!; lia || done|].
  destruct (_ || _); [|exists 0, 0; split_and!; lia || done].
  destruct (_ <=? last) eqn:E1; cbn [andb]; [|exists 20, 20; split_and!; lia || done].
  destruct (last <=? _) eqn:E2; cbn [andb]; [|exists 20, 20; split_and!; lia || done].
  zbool. destruct (Z.eqb_spec last 0); [lia|]. exists (last - 0x50), 20. split_and!; done || lia.
Qed.

Lemma sigops_loop_bounds script a l last :
  0 <= a <= l -> l + 20 * vsize script < 2 ^ 32 ->
  exists a' l', sigops_loop true script a last = Ok a' /\ sigops_loop false script l last = Ok l'
    /\ 0 <= a' <= l' /\ l' <= l + 20 * vsize script.
Proof.
  remember (length script) as n eqn:Hn. revert script Hn a l last.
  induction n as [n IH] using lt_wf_ind. intros script -> a l last Ha Hl. pose proof (vsize_nonneg script) as Hv.
  unfold sigops_loop. destruct (GetOp2 script) as [[[op d] pc']|] eqn:E.
  - rewrite !(for_ops_step _ _ _ _ _ _ _ _ E). apply GetOp2_shorter in E.
    pose proof (vsize_nonneg pc'). assert (Hlt : vsize pc' + 1 <= vsize script) by (unfold vsize; lia).
    destruct (sigops_of_bounds last op) as (ka & kl & -> & -> & Hk & Hk20). unfold to_u32.
    rewrite !Z.mod_small by lia.
    destruct (IH (length pc') ltac:(lia) pc' eq_refl (a + ka) (l + kl) op) as (a' & l' & Ea & El & Hb & Hc); [lia|lia|].
    exists a', l'. split_and!; [exact Ea|exact El|lia..].
  - destruct script as [|b script].
    + exists a, l. split_and!; done || lia.
    + rewrite !for_ops_bad by done. exists a, l. split_and!; done || lia.
Qed.

(** Counting signature operations never fails and never wraps: for a script of fewer than
    2^27 bytes the accurate count is at most the legacy one, which is at most 20
    per byte. *)
Theorem sigop_counts (script : CScript) :
  vsize script < 2 ^ 27 ->
  exists accurate legacy,
    GetSigOpCount true script = Ok accurate /\ GetSigOpCount false script = Ok legacy
    /\ 0 <= accurate <= legacy /\ legacy <= 20 * vsize script.
Proof. intros Hsz. apply (sigops_loop_bounds script 0 0 OP_INVALIDOPCODE); lia. Qed.

Lemma sigop_counts_witness :
  vsize [OP_2; OP_CHECKMULTISIG] < 2 ^ 27
  /\ exists accurate legacy,
    GetSigOpCount true [OP_2; OP_CHECKMULTISIG] = Ok accurate
    /\ GetSigOpCount false [OP_2; OP_CHECKMULTISIG] = Ok legacy
    /\ 0 <= accurate <= legacy /\ legacy <= 20 * vsize [OP_2; OP_CHECKMULTISIG].
Proof.
  split; [vm_compute; done|]. apply (sigop_counts [OP_2; OP_CHECKMULTISIG]). vm_compute; done.
Defined.
