(* ===== verification/Crypto.v ===== *)
(** * Hash functions

    [crypto/sha256.cpp], [crypto/sha512.cpp], [crypto/sha1.cpp],
    [crypto/ripemd160.cpp], [crypto/hmac_sha256.cpp], [crypto/hmac_sha512.cpp]
    and [hash.h], [hash.cpp].  The compression functions are executable; the
    buffering of [Write] and [Finalize], which the four classes share, is
    proved to compute the padded hash of the concatenation of what was written. *)

From stdpp Require Import base numbers list strings option.
From Stdlib Require Import ZArith Lia.
From S2P Require Import Prelude.
From S2P Require Import Serialize.
From S2P Require Import ScTypes.
Open Scope Z_scope.
Open Scope zen_scope.

(** ** Words

    [crypto/common.h]; [x >> n | x << (w - n)] on an unsigned type of [w] bits. *)
Definition ReadLE32 (p : bytes) : Z := le_combine (take 4 p).

Definition ReadBE32 (p : bytes) : Z := le_combine (rev (take 4 p)).

Definition ReadBE64 (p : bytes) : Z := le_combine (rev (take 8 p)).

Definition WriteLE32 (x : Z) : bytes := le_split 4 x.

Definition WriteBE32 (x : Z) : bytes := rev (le_split 4 x).

Definition WriteLE64 (x : Z) : bytes := le_split 8 x.

Definition WriteBE64 (x : Z) : bytes := rev (le_split 8 x).

Definition rotr32 (x n : Z) : Z := Z.lor (Z.shiftr x n) (to_u32 (Z.shiftl x (32 - n))).

Definition rotl32 (x n : Z) : Z := Z.lor (to_u32 (Z.shiftl x n)) (Z.shiftr x (32 - n)).

Definition rotr64 (x n : Z) : Z := Z.lor (Z.shiftr x n) (to_u64 (Z.shiftl x (64 - n))).

Definition not32 (x : Z) : Z := to_u32 (Z.lnot x).

(** the words of a block, [read] every [n] bytes *)
Fixpoint block_words (count : nat) (n : nat) (read : bytes -> Z) (chunk : bytes) : list Z :=
  match count with
  | O => []
  | S count' => read chunk :: block_words count' n read (drop n chunk)
  end.

(** the source's [w<i>] *)
Definition word (w : list Z) (i : nat) : Z := nth i w 0.

Definition regs8 : Type := Z * Z * Z * Z * Z * Z * Z * Z.

Definition regs5 : Type := Z * Z * Z * Z * Z.

(** ** SHA-256 *)
Definition sha256_Ch (x y z : Z) : Z := Z.lxor z (Z.land x (Z.lxor y z)).

Definition sha256_Maj (x y z : Z) : Z := Z.lor (Z.land x y) (Z.land z (Z.lor x y)).

Definition sha256_Sigma0 (x : Z) : Z := Z.lxor (Z.lxor (rotr32 x 2) (rotr32 x 13)) (rotr32 x 22).

Definition sha256_Sigma1 (x : Z) : Z := Z.lxor (Z.lxor (rotr32 x 6) (rotr32 x 11)) (rotr32 x 25).

Definition sha256_sigma0 (x : Z) : Z := Z.lxor (Z.lxor (rotr32 x 7) (rotr32 x 18)) (Z.shiftr x 3).

Definition sha256_sigma1 (x : Z) : Z := Z.lxor (Z.lxor (rotr32 x 17) (rotr32 x 19)) (Z.shiftr x 10).

(** One round; the source's next round names the registers one place further
    on, so the result lists them in the order of the next call. *)
Definition sha256_Round (r : regs8) (k w : Z) : regs8 :=
  let '(a, b, c, d, e, f, g, h) := r in
  let t1 := to_u32 (h + sha256_Sigma1 e + sha256_Ch e f g + k + w) in
  let t2 := to_u32 (sha256_Sigma0 a + sha256_Maj a b c) in
  (to_u32 (t1 + t2), a, b, c, to_u32 (d + t1), e, f, g).

Definition sha256_Initialize : regs8 :=
  (0x6a09e667, 0xbb67ae85, 0x3c6ef372, 0xa54ff53a, 0x510e527f, 0x9b05688c, 0x1f83d9ab, 0x5be0cd19).

(** the 64 lines of the rounds: the constant and the index of the schedule word *)
Definition sha256_lines : list (Z * nat) :=
  [(0x428a2f98, 0%nat); (0x71374491, 1%nat); (0xb5c0fbcf, 2%nat); (0xe9b5dba5, 3%nat);
   (0x3956c25b, 4%nat); (0x59f111f1, 5%nat); (0x923f82a4, 6%nat); (0xab1c5ed5, 7%nat);
   (0xd807aa98, 8%nat); (0x12835b01, 9%nat); (0x243185be, 10%nat); (0x550c7dc3, 11%nat);
   (0x72be5d74, 12%nat); (0x80deb1fe, 13%nat); (0x9bdc06a7, 14%nat); (0xc19bf174, 15%nat);
   (0xe49b69c1, 0%nat); (0xefbe4786, 1%nat); (0x0fc19dc6, 2%nat); (0x240ca1cc, 3%nat);
   (0x2de92c6f, 4%nat); (0x4a7484aa, 5%nat); (0x5cb0a9dc, 6%nat); (0x76f988da, 7%nat);
   (0x983e5152, 8%nat); (0xa831c66d, 9%nat); (0xb00327c8, 10%nat); (0xbf597fc7, 11%nat);
   (0xc6e00bf3, 12%nat); (0xd5a79147, 13%nat); (0x06ca6351, 14%nat); (0x14292967, 15%nat);
   (0x27b70a85, 0%nat); (0x2e1b2138, 1%nat); (0x4d2c6dfc, 2%nat); (0x53380d13, 3%nat);
   (0x650a7354, 4%nat); (0x766a0abb, 5%nat); (0x81c2c92e, 6%nat); (0x92722c85, 7%nat);
   (0xa2bfe8a1, 8%nat); (0xa81a664b, 9%nat); (0xc24b8b70, 10%nat); (0xc76c51a3, 11%nat);
   (0xd192e819, 12%nat); (0xd6990624, 13%nat); (0xf40e3585, 14%nat); (0x106aa070, 15%nat);
   (0x19a4c116, 0%nat); (0x1e376c08, 1%nat); (0x2748774c, 2%nat); (0x34b0bcb5, 3%nat);
   (0x391c0cb3, 4%nat); (0x4ed8aa4a, 5%nat); (0x5b9cca4f, 6%nat); (0x682e6ff3, 7%nat);
   (0x748f82ee, 8%nat); (0x78a5636f, 9%nat); (0x84c87814, 10%nat); (0x8cc70208, 11%nat);
   (0x90befffa, 12%nat); (0xa4506ceb, 13%nat); (0xbef9a3f7, 14%nat); (0xc67178f2, 15%nat)].

(** [w0 += sigma1(w14) + w9 + sigma0(w1)] and so on, for the word [i] *)
Definition sha256_next (w : list Z) (i : nat) : Z :=
  to_u32 (word w i + sha256_sigma1 (word w ((i + 14) mod 16)) + word w ((i + 9) mod 16)
    + sha256_sigma0 (word w ((i + 1) mod 16))).

(** the first sixteen lines use the words of the block, the others [update] them *)
Fixpoint sha256_rounds (update : bool) (lines : list (Z * nat)) (w : list Z) (r : regs8) : regs8 :=
  match lines with
  | [] => r
  | (k, i) :: lines' =>
      let w' := if update then <[i := sha256_next w i]> w else w in
      sha256_rounds update lines' w' (sha256_Round r k (word w' i))
  end.

Definition add8 (norm : Z -> Z) (x y : regs8) : regs8 :=
  let '(a, b, c, d, e, f, g, h) := x in
  let '(a', b', c', d', e', f', g', h') := y in
  (norm (a + a'), norm (b + b'), norm (c + c'), norm (d + d'),
   norm (e + e'), norm (f + f'), norm (g + g'), norm (h + h')).

Definition sha256_Transform (s : regs8) (chunk : bytes) : regs8 :=
  let w := block_words 16 4 ReadBE32 chunk in
  add8 to_u32 s (sha256_rounds true (drop 16 sha256_lines) w (sha256_rounds false (take 16 sha256_lines) w s)).

Definition sha256_output (s : regs8) : bytes :=
  let '(a, b, c, d, e, f, g, h) := s in
  WriteBE32 a ++ WriteBE32 b ++ WriteBE32 c ++ WriteBE32 d
  ++ WriteBE32 e ++ WriteBE32 f ++ WriteBE32 g ++ WriteBE32 h.

(** ** SHA-512 *)
Definition sha512_Ch (x y z : Z) : Z := Z.lxor z (Z.land x (Z.lxor y z)).

Definition sha512_Maj (x y z : Z) : Z := Z.lor (Z.land x y) (Z.land z (Z.lor x y)).

Definition sha512_Sigma0 (x : Z) : Z := Z.lxor (Z.lxor (rotr64 x 28) (rotr64 x 34)) (rotr64 x 39).

Definition sha512_Sigma1 (x : Z) : Z := Z.lxor (Z.lxor (rotr64 x 14) (rotr64 x 18)) (rotr64 x 41).

Definition sha512_sigma0 (x : Z) : Z := Z.lxor (Z.lxor (rotr64 x 1) (rotr64 x 8)) (Z.shiftr x 7).

Definition sha512_sigma1 (x : Z) : Z := Z.lxor (Z.lxor (rotr64 x 19) (rotr64 x 61)) (Z.shiftr x 6).

Definition sha512_Round (r : regs8) (k w : Z) : regs8 :=
  let '(a, b, c, d, e, f, g, h) := r in
  let t1 := to_u64 (h + sha512_Sigma1 e + sha512_Ch e f g + k + w) in
  let t2 := to_u64 (sha512_Sigma0 a + sha512_Maj a b c) in
  (to_u64 (t1 + t2), a, b, c, to_u64 (d + t1), e, f, g).

Definition sha512_Initialize : regs8 :=
  (0x6a09e667f3bcc908, 0xbb67ae8584caa73b, 0x3c6ef372fe94f82b, 0xa54ff53a5f1d36f1,
   0x510e527fade682d1, 0x9b05688c2b3e6c1f, 0x1f83d9abfb41bd6b, 0x5be0cd19137e2179).

(** the 80 lines of the rounds: the constant and the index of the schedule word *)
Definition sha512_lines : list (Z * nat) :=
  [(0x428a2f98d728ae22, 0%nat); (0x7137449123ef65cd, 1%nat); (0xb5c0fbcfec4d3b2f, 2%nat);
   (0xe9b5dba58189dbbc, 3%nat); (0x3956c25bf348b538, 4%nat); (0x59f111f1b605d019, 5%nat);
   (0x923f82a4af194f9b, 6%nat); (0xab1c5ed5da6d8118, 7%nat); (0xd807aa98a3030242, 8%nat);
   (0x12835b0145706fbe, 9%nat); (0x243185be4ee4b28c, 10%nat); (0x550c7dc3d5ffb4e2, 11%nat);
   (0x72be5d74f27b896f, 12%nat); (0x80deb1fe3b1696b1, 13%nat); (0x9bdc06a725c71235, 14%nat);
   (0xc19bf174cf692694, 15%nat);
   (0xe49b69c19ef14ad2, 0%nat); (0xefbe4786384f25e3, 1%nat); (0x0fc19dc68b8cd5b5, 2%nat);
   (0x240ca1cc77ac9c65, 3%nat); (0x2de92c6f592b0275, 4%nat); (0x4a7484aa6ea6e483, 5%nat);
   (0x5cb0a9dcbd41fbd4, 6%nat); (0x76f988da831153b5, 7%nat); (0x983e5152ee66dfab, 8%nat);
   (0xa831c66d2db43210, 9%nat); (0xb00327c898fb213f, 10%nat); (0xbf597fc7beef0ee4, 11%nat);
   (0xc6e00bf33da88fc2, 12%nat); (0xd5a79147930aa725, 13%nat); (0x06ca6351e003826f, 14%nat);
   (0x142929670a0e6e70, 15%nat);
   (0x27b70a8546d22ffc, 0%nat); (0x2e1b21385c26c926, 1%nat); (0x4d2c6dfc5ac42aed, 2%nat);
   (0x53380d139d95b3df, 3%nat); (0x650a73548baf63de, 4%nat); (0x766a0abb3c77b2a8, 5%nat);
   (0x81c2c92e47edaee6, 6%nat); (0x92722c851482353b, 7%nat); (0xa2bfe8a14cf10364, 8%nat);
   (0xa81a664bbc423001, 9%nat); (0xc24b8b70d0f89791, 10%nat); (0xc76c51a30654be30, 11%nat);
   (0xd192e819d6ef5218, 12%nat); (0xd69906245565a910, 13%nat); (0xf40e35855771202a, 14%nat);
   (0x106aa07032bbd1b8, 15%nat);
   (0x19a4c116b8d2d0c8, 0%nat); (0x1e376c085141ab53, 1%nat); (0x2748774cdf8eeb99, 2%nat);
   (0x34b0bcb5e19b48a8, 3%nat); (0x391c0cb3c5c95a63, 4%nat); (0x4ed8aa4ae3418acb, 5%nat);
   (0x5b9cca4f7763e373, 6%nat); (0x682e6ff3d6b2b8a3, 7%nat); (0x748f82ee5defb2fc, 8%nat);
   (0x78a5636f43172f60, 9%nat); (0x84c87814a1f0ab72, 10%nat); (0x8cc702081a6439ec, 11%nat);
   (0x90befffa23631e28, 12%nat); (0xa4506cebde82bde9, 13%nat); (0xbef9a3f7b2c67915, 14%nat);
   (0xc67178f2e372532b, 15%nat);
   (0xca273eceea26619c, 0%nat); (0xd186b8c721c0c207, 1%nat); (0xeada7dd6cde0eb1e, 2%nat);
   (0xf57d4f7fee6ed178, 3%nat); (0x06f067aa72176fba, 4%nat); (0x0a637dc5a2c898a6, 5%nat);
   (0x113f9804bef90dae, 6%nat); (0x1b710b35131c471b, 7%nat); (0x28db77f523047d84, 8%nat);
   (0x32caab7b40c72493, 9%nat); (0x3c9ebe0a15c9bebc, 10%nat); (0x431d67c49c100d4c, 11%nat);
   (0x4cc5d4becb3e42b6, 12%nat); (0x597f299cfc657e2a, 13%nat); (0x5fcb6fab3ad6faec, 14%nat);
   (0x6c44198c4a475817, 15%nat)].

(** [w0 += sigma1(w14) + w9 + sigma0(w1)] and so on, for the word [i] *)
Definition sha512_next (w : list Z) (i : nat) : Z :=
  to_u64 (word w i + sha512_sigma1 (word w ((i + 14) mod 16)) + word w ((i + 9) mod 16)
    + sha512_sigma0 (word w ((i + 1) mod 16))).

(** the first sixteen lines use the words of the block, the others [update] them *)
Fixpoint sha512_rounds (update : bool) (lines : list (Z * nat)) (w : list Z) (r : regs8) : regs8 :=
  match lines with
  | [] => r
  | (k, i) :: lines' =>
      let w' := if update then <[i := sha512_next w i]> w else w in
      sha512_rounds update lines' w' (sha512_Round r k (word w' i))
  end.

Definition sha512_Transform (s : regs8) (chunk : bytes) : regs8 :=
  let w := block_words 16 8 ReadBE64 chunk in
  add8 to_u64 s (sha512_rounds true (drop 16 sha512_lines) w (sha512_rounds false (take 16 sha512_lines) w s)).

Definition sha512_output (s : regs8) : bytes :=
  let '(a, b, c, d, e, f, g, h) := s in
  WriteBE64 a ++ WriteBE64 b ++ WriteBE64 c ++ WriteBE64 d
  ++ WriteBE64 e ++ WriteBE64 f ++ WriteBE64 g ++ WriteBE64 h.

(** ** SHA-1 *)
Definition sha1_f1 (b c d : Z) : Z := Z.lxor d (Z.land b (Z.lxor c d)).

Definition sha1_f2 (b c d : Z) : Z := Z.lxor (Z.lxor b c) d.

Definition sha1_f3 (b c d : Z) : Z := Z.lor (Z.land b c) (Z.land d (Z.lor b c)).

Definition sha1_left (x : Z) : Z := rotl32 x 1.

Definition sha1_Round (r : regs5) (f : Z -> Z -> Z -> Z) (k w : Z) : regs5 :=
  let '(a, b, c, d, e) := r in
  (to_u32 (e + (rotl32 a 5 + f b c d + k + w)), a, rotl32 b 30, c, d).

Definition sha1_Initialize : regs5 :=
  (0x67452301, 0xEFCDAB89, 0x98BADCFE, 0x10325476, 0xC3D2E1F0).

(** [w0 = left(w0 ^ w13 ^ w8 ^ w2)], seen from the round that uses [w0]: the words
    are a sliding window whose head is that of the round *)
Definition sha1_next (w : list Z) : Z :=
  sha1_left (Z.lxor (Z.lxor (Z.lxor (word w 0) (word w 13)) (word w 8)) (word w 2)).

Fixpoint sha1_rounds (n : nat) (f : Z -> Z -> Z -> Z) (k : Z) (wr : list Z * regs5) : list Z * regs5 :=
  match n with
  | O => wr
  | S n' =>
      let '(w, r) := wr in
      sha1_rounds n' f k (drop 1 w ++ [sha1_next w], sha1_Round r f k (word w 0))
  end.

Definition add5 (x y : regs5) : regs5 :=
  let '(a, b, c, d, e) := x in
  let '(a', b', c', d', e') := y in
  (to_u32 (a + a'), to_u32 (b + b'), to_u32 (c + c'), to_u32 (d + d'), to_u32 (e + e')).

Definition sha1_Transform (s : regs5) (chunk : bytes) : regs5 :=
  let wr0 := (block_words 16 4 ReadBE32 chunk, s) in
  let wr1 := sha1_rounds 20 sha1_f1 0x5A827999 wr0 in
  let wr2 := sha1_rounds 20 sha1_f2 0x6ED9EBA1 wr1 in
  let wr3 := sha1_rounds 20 sha1_f3 0x8F1BBCDC wr2 in
  let wr4 := sha1_rounds 20 sha1_f2 0xCA62C1D6 wr3 in
  add5 s wr4.2.

Definition sha1_output (s : regs5) : bytes :=
  let '(a, b, c, d, e) := s in
  WriteBE32 a ++ WriteBE32 b ++ WriteBE32 c ++ WriteBE32 d ++ WriteBE32 e.

(** ** RIPEMD-160 *)
Definition ripemd160_f1 (x y z : Z) : Z := Z.lxor (Z.lxor x y) z.

Definition ripemd160_f2 (x y z : Z) : Z := Z.lor (Z.land x y) (Z.land (not32 x) z).

Definition ripemd160_f3 (x y z : Z) : Z := Z.lxor (Z.lor x (not32 y)) z.

Definition ripemd160_f4 (x y z : Z) : Z := Z.lor (Z.land x z) (Z.land y (not32 z)).

Definition ripemd160_f5 (x y z : Z) : Z := Z.lxor x (Z.lor y (not32 z)).

Definition ripemd160_Initialize : regs5 :=
  (0x67452301, 0xEFCDAB89, 0x98BADCFE, 0x10325476, 0xC3D2E1F0).

Definition ripemd160_Round (r : regs5) (f : Z -> Z -> Z -> Z) (x k rot : Z) : regs5 :=
  let '(a, b, c, d, e) := r in
  (e, to_u32 (rotl32 (to_u32 (a + f b c d + x + k)) rot + e), b, rotl32 c 10, d).

(** a group of rounds with the same function and constant: the index of the
    message word and the rotation of each *)
Fixpoint ripemd160_rounds (steps : list (nat * Z)) (f : Z -> Z -> Z -> Z) (k : Z) (w : list Z)
    (r : regs5) : regs5 :=
  match steps with
  | [] => r
  | (i, rot) :: steps' =>
      ripemd160_rounds steps' f k w (ripemd160_Round r f (word w i) k rot)
  end.

(** the first line of rounds ([R11] to [R51]) *)
Definition ripemd160_line1 (w : list Z) (r : regs5) : regs5 :=
  let r := ripemd160_rounds
    [(0%nat, 11); (1%nat, 14); (2%nat, 15); (3%nat, 12); (4%nat, 5); (5%nat, 8); (6%nat, 7); (7%nat, 9);
     (8%nat, 11); (9%nat, 13); (10%nat, 14); (11%nat, 15); (12%nat, 6); (13%nat, 7); (14%nat, 9); (15%nat, 8)]
    ripemd160_f1 0 w r in
  let r := ripemd160_rounds
    [(7%nat, 7); (4%nat, 6); (13%nat, 8); (1%nat, 13); (10%nat, 11); (6%nat, 9); (15%nat, 7); (3%nat, 15);
     (12%nat, 7); (0%nat, 12); (9%nat, 15); (5%nat, 9); (2%nat, 11); (14%nat, 7); (11%nat, 13); (8%nat, 12)]
    ripemd160_f2 0x5A827999 w r in
  let r := ripemd160_rounds
    [(3%nat, 11); (10%nat, 13); (14%nat, 6); (4%nat, 7); (9%nat, 14); (15%nat, 9); (8%nat, 13); (1%nat, 15);
     (2%nat, 14); (7%nat, 8); (0%nat, 13); (6%nat, 6); (13%nat, 5); (11%nat, 12); (5%nat, 7); (12%nat, 5)]
    ripemd160_f3 0x6ED9EBA1 w r in
  let r := ripemd160_rounds
    [(1%nat, 11); (9%nat, 12); (11%nat, 14); (10%nat, 15); (0%nat, 14); (8%nat, 15); (12%nat, 9); (4%nat, 8);
     (13%nat, 9); (3%nat, 14); (7%nat, 5); (15%nat, 6); (14%nat, 8); (5%nat, 6); (6%nat, 5); (2%nat, 12)]
    ripemd160_f4 0x8F1BBCDC w r in
  let r := ripemd160_rounds
    [(4%nat, 9); (0%nat, 15); (5%nat, 5); (9%nat, 11); (7%nat, 6); (12%nat, 8); (2%nat, 13); (10%nat, 12);
     (14%nat, 5); (1%nat, 12); (3%nat, 13); (8%nat, 14); (11%nat, 11); (6%nat, 8); (15%nat, 5); (13%nat, 6)]
    ripemd160_f5 0xA953FD4E w r in
  r.

(** the second line of rounds ([R12] to [R52]) *)
Definition ripemd160_line2 (w : list Z) (r : regs5) : regs5 :=
  let r := ripemd160_rounds
    [(5%nat, 8); (14%nat, 9); (7%nat, 9); (0%nat, 11); (9%nat, 13); (2%nat, 15); (11%nat, 15); (4%nat, 5);
     (13%nat, 7); (6%nat, 7); (15%nat, 8); (8%nat, 11); (1%nat, 14); (10%nat, 14); (3%nat, 12); (12%nat, 6)]
    ripemd160_f5 0x50A28BE6 w r in
  let r := ripemd160_rounds
    [(6%nat, 9); (11%nat, 13); (3%nat, 15); (7%nat, 7); (0%nat, 12); (13%nat, 8); (5%nat, 9); (10%nat, 11);
     (14%nat, 7); (15%nat, 7); (8%nat, 12); (12%nat, 7); (4%nat, 6); (9%nat, 15); (1%nat, 13); (2%nat, 11)]
    ripemd160_f4 0x5C4DD124 w r in
  let r := ripemd160_rounds
    [(15%nat, 9); (5%nat, 7); (1%nat, 15); (3%nat, 11); (7%nat, 8); (14%nat, 6); (6%nat, 6); (9%nat, 14);
     (11%nat, 12); (8%nat, 13); (12%nat, 5); (2%nat, 14); (10%nat, 13); (0%nat, 13); (4%nat, 7); (13%nat, 5)]
    ripemd160_f3 0x6D703EF3 w r in
  let r := ripemd160_rounds
    [(8%nat, 15); (6%nat, 5); (4%nat, 8); (1%nat, 11); (3%nat, 14); (11%nat, 14); (15%nat, 6); (0%nat, 14);
     (5%nat, 6); (12%nat, 9); (2%nat, 12); (13%nat, 9); (9%nat, 12); (7%nat, 5); (10%nat, 15); (14%nat, 8)]
    ripemd160_f2 0x7A6D76E9 w r in
  let r := ripemd160_rounds
    [(12%nat, 8); (15%nat, 5); (10%nat, 12); (4%nat, 9); (1%nat, 12); (5%nat, 5); (8%nat, 14); (7%nat, 6);
     (6%nat, 8); (2%nat, 13); (13%nat, 6); (14%nat, 5); (0%nat, 15); (3%nat, 13); (9%nat, 11); (11%nat, 11)]
    ripemd160_f1 0 w r in
  r.

Definition ripemd160_Transform (s : regs5) (chunk : bytes) : regs5 :=
  let w := block_words 16 4 ReadLE32 chunk in
  let '(a1, b1, c1, d1, e1) := ripemd160_line1 w s in
  let '(a2, b2, c2, d2, e2) := ripemd160_line2 w s in
  let '(s0, s1, s2, s3, s4) := s in
  (to_u32 (s1 + c1 + d2), to_u32 (s2 + d1 + e2), to_u32 (s3 + e1 + a2), to_u32 (s4 + a1 + b2),
   to_u32 (s0 + b1 + c2)).

Definition ripemd160_output (s : regs5) : bytes :=
  let '(a, b, c, d, e) := s in
  WriteLE32 a ++ WriteLE32 b ++ WriteLE32 c ++ WriteLE32 d ++ WriteLE32 e.

(** ** Streaming

    What distinguishes one hasher class from another: the state and its
    compression function, the block size, the constant of the padding length and
    the encodings of the length and of the digest. *)
Record BlockHash := mkBlockHash {
  hash_state : Type;
  hash_block : nat;
  hash_init : hash_state;
  hash_transform : hash_state -> bytes -> hash_state;
  hash_padbase : Z;
  hash_sizedesc : Z -> bytes;
  hash_output : hash_state -> bytes }.

Definition sha256 : BlockHash :=
  mkBlockHash regs8 64 sha256_Initialize sha256_Transform 119 WriteBE64 sha256_output.

Definition sha512 : BlockHash :=
  mkBlockHash regs8 128 sha512_Initialize sha512_Transform 239
    (fun bits => replicate 8 0 ++ WriteBE64 bits) sha512_output.

Definition sha1 : BlockHash :=
  mkBlockHash regs5 64 sha1_Initialize sha1_Transform 119 WriteBE64 sha1_output.

Definition ripemd160 : BlockHash :=
  mkBlockHash regs5 64 ripemd160_Initialize ripemd160_Transform 119 WriteLE64 ripemd160_output.

(** The fields [s], [buf] and [bytes]; [buf] keeps stale bytes past
    [bytes % block]. *)
Record Hasher (H : BlockHash) := mkHasher {
  hs_s : hash_state H;
  hs_buf : bytes;
  hs_bytes : Z }.
Arguments mkHasher {H} _ _ _.
Arguments hs_s {H} _.
Arguments hs_buf {H} _.
Arguments hs_bytes {H} _.

Definition memcpy (buf : bytes) (off : nat) (data : bytes) : bytes :=
  take off buf ++ data ++ drop (off + length data) buf.

Section Stream.
  Context (H : BlockHash).

  (** the constructor leaves [buf] as the memory was *)
Definition Hasher_new (memory : bytes) : Hasher H := mkHasher (hash_init H) memory 0.

Definition Hasher_Reset (h : Hasher H) : Hasher H := mkHasher (hash_init H) (hs_buf h) 0.

  (** [while (end >= data + block)]: one round per block, the length of the data
      is enough *)
Fixpoint process_chunks (fuel : nat) (s : hash_state H) (n : Z) (data : bytes)
    : hash_state H * Z * bytes :=
  match fuel with
  | O => (s, n, data)
  | S fuel' =>
      if (hash_block H <=? length data)%nat
      then process_chunks fuel' (hash_transform H s (take (hash_block H) data))
             (to_u64 (n + Z.of_nat (hash_block H))) (drop (hash_block H) data)
      else (s, n, data)
  end.

Definition Hasher_Write (h : Hasher H) (data : bytes) : Hasher H :=
  let bufsize := Z.to_nat (hs_bytes h mod Z.of_nat (hash_block H)) in
  let fill := (hash_block H - bufsize)%nat in
  let '(h1, data1, bufsize1) :=
    if negb (bufsize =? 0)%nat && (hash_block H <=? bufsize + length data)%nat then
      let buf := memcpy (hs_buf h) bufsize (take fill data) in
      (mkHasher (hash_transform H (hs_s h) buf) buf (to_u64 (hs_bytes h + Z.of_nat fill)),
       drop fill data, O)
    else (h, data, bufsize) in
  let '(s, n, rest) := process_chunks (length data1) (hs_s h1) (hs_bytes h1) data1 in
  if (0 <? length rest)%nat
  then mkHasher s (memcpy (hs_buf h1) bufsize1 rest) (to_u64 (n + vsize rest))
  else mkHasher s (hs_buf h1) n.

  (** The digest, and the hasher after it. *)
Definition Hasher_Finalize (h : Hasher H) : bytes * Hasher H :=
  let sizedesc := hash_sizedesc H (to_u64 (Z.shiftl (hs_bytes h) 3)) in
  let block := Z.of_nat (hash_block H) in
  let padlen := Z.to_nat (1 + (hash_padbase H - hs_bytes h mod block) mod block) in
  let h1 := Hasher_Write h (take padlen (0x80 :: replicate (pred (hash_block H)) 0)) in
  let h2 := Hasher_Write h1 sizedesc in
  (hash_output H (hs_s h2), h2).
End Stream.
Arguments Hasher_Reset {H} _.
Arguments Hasher_Write {H} _ _.
Arguments Hasher_Finalize {H} _.

(** The memory a local hasher is constructed on. *)
Definition stack_memory (H : BlockHash) : bytes := replicate (hash_block H) 0.

Definition CSHA256_new : Hasher sha256 := Hasher_new sha256 (stack_memory sha256).

Definition CSHA256_Write : Hasher sha256 -> bytes -> Hasher sha256 := Hasher_Write.

Definition CSHA256_Finalize : Hasher sha256 -> bytes * Hasher sha256 := Hasher_Finalize.

Definition CSHA256_Reset : Hasher sha256 -> Hasher sha256 := Hasher_Reset.

Definition CSHA256_FinalizeNoPadding (h : Hasher sha256) (enforce_compression : bool) : res bytes :=
  if enforce_compression && negb (hs_bytes h =? 64)
  then Err (Exception "SHA256Compress should be invoked with a 512-bit block")
  else Ok (sha256_output (hs_s h)).

Definition CSHA512_new : Hasher sha512 := Hasher_new sha512 (stack_memory sha512).

Definition CSHA512_Write : Hasher sha512 -> bytes -> Hasher sha512 := Hasher_Write.

Definition CSHA512_Finalize : Hasher sha512 -> bytes * Hasher sha512 := Hasher_Finalize.

Definition CSHA1_new : Hasher sha1 := Hasher_new sha1 (stack_memory sha1).

Definition CSHA1_Write : Hasher sha1 -> bytes -> Hasher sha1 := Hasher_Write.

Definition CSHA1_Finalize : Hasher sha1 -> bytes * Hasher sha1 := Hasher_Finalize.

Definition CRIPEMD160_new : Hasher ripemd160 := Hasher_new ripemd160 (stack_memory ripemd160).

Definition CRIPEMD160_Write : Hasher ripemd160 -> bytes -> Hasher ripemd160 := Hasher_Write.

Definition CRIPEMD160_Finalize : Hasher ripemd160 -> bytes * Hasher ripemd160 := Hasher_Finalize.

(** ** Double hashes and hash writers: [hash.h] *)
Definition CHash256_Finalize (sha : Hasher sha256) : bytes :=
  let '(buf, sha') := CSHA256_Finalize sha in
  (CSHA256_Finalize (CSHA256_Write (CSHA256_Reset sha') buf)).1.

Definition CHash160_Finalize (sha : Hasher sha256) : bytes :=
  let '(buf, _) := CSHA256_Finalize sha in
  (CRIPEMD160_Finalize (CRIPEMD160_Write CRIPEMD160_new buf)).1.

(** [Hash] of one to three ranges *)
Definition Hash (ranges : list bytes) : bytes :=
  CHash256_Finalize (foldl CSHA256_Write CSHA256_new ranges).

Definition Hash160 (vch : bytes) : bytes := CHash160_Finalize (CSHA256_Write CSHA256_new vch).

(** ** HMAC *)
Record CHMAC (H : BlockHash) := mkHMAC { outer : Hasher H; inner : Hasher H }.
Arguments mkHMAC {H} _ _.
Arguments outer {H} _.
Arguments inner {H} _.

Section HMAC.
  Context (H : BlockHash).

Definition CHMAC_new (key : bytes) : CHMAC H :=
  let new := Hasher_new H (stack_memory H) in
  let rkey :=
    if (length key <=? hash_block H)%nat then key ++ replicate (hash_block H - length key) 0
    else
      let digest := (Hasher_Finalize (Hasher_Write new key)).1 in
      digest ++ replicate (hash_block H - length digest) 0 in
  let okey := map (Z.lxor 0x5c) rkey in
  let ikey := map (Z.lxor (Z.lxor 0x5c 0x36)) okey in
  mkHMAC (Hasher_Write new okey) (Hasher_Write new ikey).

Definition CHMAC_Write (m : CHMAC H) (data : bytes) : CHMAC H :=
  mkHMAC (outer m) (Hasher_Write (inner m) data).

Definition CHMAC_Finalize (m : CHMAC H) : bytes :=
  let temp := (Hasher_Finalize (inner m)).1 in
  (Hasher_Finalize (Hasher_Write (outer m) temp)).1.
End HMAC.
Arguments CHMAC_Write {H} _ _.
Arguments CHMAC_Finalize {H} _.

Definition CHMAC_SHA256_new : bytes -> CHMAC sha256 := CHMAC_new sha256.

Definition CHMAC_SHA256_Finalize : CHMAC sha256 -> bytes := CHMAC_Finalize.

Definition CHMAC_SHA512_new : bytes -> CHMAC sha512 := CHMAC_new sha512.

Definition CHMAC_SHA512_Finalize : CHMAC sha512 -> bytes := CHMAC_Finalize.

Definition BIP32Hash (chainCode : bytes) (nChild header : Z) (data : bytes) : bytes :=
  let num := [Z.land (Z.shiftr nChild 24) 0xFF; Z.land (Z.shiftr nChild 16) 0xFF;
              Z.land (Z.shiftr nChild 8) 0xFF; Z.land nChild 0xFF] in
  CHMAC_SHA512_Finalize
    (CHMAC_Write (CHMAC_Write (CHMAC_Write (CHMAC_SHA512_new chainCode) [header]) data) num).

(** ** MurmurHash3 *)
Definition murmur_mix (k1 : Z) : Z :=
  to_u32 (rotl32 (to_u32 (k1 * 0xcc9e2d51)) 15 * 0x1b873593).

Fixpoint murmur_body (nblocks : nat) (h1 : Z) (data : bytes) : Z :=
  match nblocks with
  | O => h1
  | S n =>
      let h1 := rotl32 (Z.lxor h1 (murmur_mix (ReadLE32 data))) 13 in
      murmur_body n (to_u32 (h1 * 5 + 0xe6546b64)) (drop 4 data)
  end.

Definition murmur_tail (h1 : Z) (tail : bytes) : Z :=
  match tail with
  | [] => h1
  | [a] => Z.lxor h1 (murmur_mix a)
  | [a; b] => Z.lxor h1 (murmur_mix (Z.lxor (Z.shiftl b 8) a))
  | a :: b :: c :: _ => Z.lxor h1 (murmur_mix (Z.lxor (Z.lxor (Z.shiftl c 16) (Z.shiftl b 8)) a))
  end.

Definition MurmurHash3 (nHashSeed : Z) (vDataToHash : bytes) : Z :=
  let nblocks := (length vDataToHash / 4)%nat in
  let h1 := murmur_tail (murmur_body nblocks nHashSeed vDataToHash) (drop (nblocks * 4) vDataToHash) in
  let h1 := Z.lxor h1 (to_u32 (vsize vDataToHash)) in
  let h1 := Z.lxor h1 (Z.shiftr h1 16) in
  let h1 := to_u32 (h1 * 0x85ebca6b) in
  let h1 := Z.lxor h1 (Z.shiftr h1 13) in
  let h1 := to_u32 (h1 * 0xc2b2ae35) in
  Z.lxor h1 (Z.shiftr h1 16).

(** ** The hash of a message, without a buffer

    The message, the byte [0x80], zeros up to the block boundary and the length
    in bits, cut into blocks. *)
Section Reference.
  Context (H : BlockHash).

Definition padding (m : bytes) : bytes :=
  0x80 :: replicate (Z.to_nat ((hash_padbase H - vsize m) mod Z.of_nat (hash_block H))) 0
  ++ hash_sizedesc H (to_u64 (8 * vsize m)).

Fixpoint blocks (count : nat) (m : bytes) : list bytes :=
  match count with
  | O => []
  | S n => take (hash_block H) m :: blocks n (drop (hash_block H) m)
  end.

Definition message_digest (m : bytes) : bytes :=
  let p := m ++ padding m in
  hash_output H (foldl (hash_transform H) (hash_init H) (blocks (length p / hash_block H) p)).
End Reference.

(** What the buffering relies on: the block size divides 2^64, and the padding
    constant fits the length descriptor. *)
Class HashOk (H : BlockHash) : Prop := {
  block_pos : (0 < hash_block H)%nat;
  block_divides : (Z.of_nat (hash_block H) | 2 ^ 64);
  sizedesc_fits : forall n, (hash_padbase H + 1 + vsize (hash_sizedesc H n)) mod Z.of_nat (hash_block H) = 0 }.

Lemma vsize_WriteBE64 n : vsize (WriteBE64 n) = 8.
Proof. unfold vsize, WriteBE64. by rewrite length_rev, length_le_split. Qed.

#[export] Instance sha256_ok : HashOk sha256.
Proof. split; [simpl; lia|by exists (2 ^ 58)|]. intros n. simpl. by rewrite vsize_WriteBE64. Qed.

#[export] Instance sha1_ok : HashOk sha1.
Proof. split; [simpl; lia|by exists (2 ^ 58)|]. intros n. simpl. by rewrite vsize_WriteBE64. Qed.

#[export] Instance ripemd160_ok : HashOk ripemd160.
Proof.
  split; [simpl; lia|by exists (2 ^ 58)|]. intros n. simpl. unfold vsize, WriteLE64.
  by rewrite length_le_split.
Qed.

#[export] Instance sha512_ok : HashOk sha512.
Proof.
  split; [simpl; lia|by exists (2 ^ 57)|]. intros n. cbn [hash_sizedesc sha512 hash_padbase hash_block].
  replace (vsize (replicate 8 0 ++ WriteBE64 n)) with 16; [done|].
  unfold vsize. rewrite length_app, length_replicate. pose proof (vsize_WriteBE64 n). unfold vsize in *. lia.
Qed.

Section StreamLaws.
  Context {H : BlockHash} {Hok : HashOk H}.
  Local Notation B := (hash_block H).

  (** The blocks of the data processed from [s], and what remains. *)
Definition absorb (s : hash_state H) (data : bytes) : hash_state H * bytes :=
  let '(s', _, rest) := process_chunks H (length data) s 0 data in (s', rest).

Lemma process_fuel f1 f2 s n1 n2 data :
  (length data <= f1)%nat -> (length data <= f2)%nat ->
  (process_chunks H f1 s n1 data).1.1 = (process_chunks H f2 s n2 data).1.1
  /\ (process_chunks H f1 s n1 data).2 = (process_chunks H f2 s n2 data).2.
Proof.
  pose proof (block_pos (H := H)) as HB.
  revert f2 s n1 n2 data. induction f1 as [|f1 IH]; intros f2 s n1 n2 data H1 H2.
  { destruct data; [|simpl in H1; lia]. destruct f2; [done|]. cbn [process_chunks length].
    destruct (Nat.leb_spec B 0); [lia|done]. }
  destruct f2 as [|f2].
  { destruct data; [|simpl in H2; lia]. cbn [process_chunks length].
    destruct (Nat.leb_spec B 0); [lia|done]. }
  cbn [process_chunks]. destruct (Nat.leb_spec B (length data)); [|done].
  apply IH; rewrite length_drop; lia.
Qed.

Lemma absorb_short s data : (length data < B)%nat -> absorb s data = (s, data).
Proof.
  intros Hlt. unfold absorb. destruct data as [|b data]; [done|]. cbn [length process_chunks].
  destruct (Nat.leb_spec B (S (length data))); [simpl in Hlt; lia|done].
Qed.

Lemma absorb_block s b data :
  length b = B -> absorb s (b ++ data) = absorb (hash_transform H s b) data.
Proof.
  pose proof (block_pos (H := H)) as HB. intros Hb. unfold absorb.
  destruct (length (b ++ data)) as [|f] eqn:Hf; rewrite length_app in Hf; [lia|].
  cbn [process_chunks]. rewrite length_app. destruct (Nat.leb_spec B (length b + length data)); [|lia].
  rewrite take_app_length', drop_app_length' by done.
  pose proof (process_fuel f (length data) (hash_transform H s b) (to_u64 (0 + Z.of_nat B)) 0 data ltac:(lia) ltac:(lia)) as [E1 E2].
  destruct (process_chunks H f _ _ data) as [[? ?] ?], (process_chunks H (length data) _ _ data) as [[? ?] ?].
  simpl in *. by subst.
Qed.

  (** Data is either shorter than a block or starts with one. *)
Lemma block_ind (P : list Z -> Prop) :
  (forall data, (length data < B)%nat -> P data) ->
  (forall b data, length b = B -> P data -> P (b ++ data)) -> forall data : list Z, P data.
Proof.
  pose proof (block_pos (H := H)) as HB. intros Hs Hb data. remember (length data) as n eqn:Hn.
  revert data Hn. induction n as [n IH] using lt_wf_ind. intros data ->.
  destruct (decide (length data < B)%nat) as [?|Hge]; [by apply Hs|].
  rewrite <- (take_drop B data). apply Hb; [rewrite length_take; lia|].
  apply (IH (length (drop B data))); [rewrite length_drop; lia|done].
Qed.

Lemma absorb_app s a b : absorb s (a ++ b) = absorb (absorb s a).1 ((absorb s a).2 ++ b).
Proof.
  revert s. induction a as [a Ha|c a Hc IH] using block_ind; intros s.
  - by rewrite (absorb_short s a).
  - rewrite <- app_assoc, !(absorb_block s) by done. apply IH.
Qed.

Lemma absorb_rest s data : vsize (absorb s data).2 = vsize data mod Z.of_nat B.
Proof.
  revert s. induction data as [data Hd|c data Hc IH] using block_ind; intros s.
  - rewrite absorb_short by done. simpl. unfold vsize. rewrite Z.mod_small; [done|lia].
  - rewrite absorb_block, IH by done. unfold vsize. rewrite length_app, Hc, Nat2Z.inj_add.
    rewrite <- (Z.mod_add (Z.of_nat (length data)) 1) by (pose proof (block_pos (H := H)); lia). f_equal. lia.
Qed.

Lemma absorb_blocks s data :
  (length data mod B = 0)%nat ->
  absorb s data = (foldl (hash_transform H) s (blocks H (length data / B) data), []).
Proof.
  pose proof (block_pos (H := H)) as HB. revert s.
  induction data as [data Hd|c data Hc IH] using block_ind; intros s Hm.
  - rewrite Nat.mod_small in Hm by done. destruct data; [|done]. rewrite absorb_short by (simpl; lia).
    cbn [length]. by rewrite Nat.Div0.div_0_l.
  - rewrite absorb_block by done. rewrite length_app, Hc in *.
    replace (B + length data)%nat with (length data + 1 * B)%nat in Hm by lia. rewrite Nat.Div0.mod_add in Hm.
    rewrite IH by done. replace ((B + length data) / B)%nat with (S (length data / B)).
    2:{ replace (B + length data)%nat with (length data + 1 * B)%nat by lia. rewrite Nat.div_add; lia. }
    cbn [blocks foldl]. by rewrite take_app_length', drop_app_length' by done.
Qed.

Lemma process_chunks_spec fuel s n data :
  (length data <= fuel)%nat -> 0 <= n < 2 ^ 64 ->
  process_chunks H fuel s n data
  = ((absorb s data).1, to_u64 (n + (vsize data - vsize (absorb s data).2)), (absorb s data).2).
Proof.
  pose proof (block_pos (H := H)) as HB. intros Hf. revert fuel s n Hf.
  induction data as [data Hd|c data Hc IH] using block_ind; intros fuel s n Hf Hn.
  - rewrite absorb_short by done. unfold to_u64. simpl. rewrite Z.sub_diag, Z.add_0_r, Z.mod_small by done.
    destruct fuel; [done|]. cbn [process_chunks]. by destruct (Nat.leb_spec B (length data)); [lia|].
  - rewrite absorb_block by done. rewrite length_app in Hf. destruct fuel as [|fuel]; [lia|].
    cbn [process_chunks]. rewrite length_app. destruct (Nat.leb_spec B (length c + length data)); [|lia].
    rewrite take_app_length', drop_app_length' by done.
    rewrite IH; [|lia|apply Z.mod_pos_bound; lia]. f_equal. f_equal. unfold to_u64.
    rewrite Zplus_mod_idemp_l. f_equal. unfold vsize. rewrite length_app, Hc. lia.
Qed.

  (** The hasher [h] has been written [m]. *)
Definition written (h : Hasher H) (m : bytes) : Prop :=
  absorb (hash_init H) m = (hs_s h, take (Z.to_nat (vsize m mod Z.of_nat B)) (hs_buf h))
  /\ hs_bytes h = to_u64 (vsize m) /\ length (hs_buf h) = B.

Lemma to_u64_mod_block n : to_u64 n mod Z.of_nat B = n mod Z.of_nat B.
Proof.
  pose proof (block_pos (H := H)). unfold to_u64. destruct (block_divides (H := H)) as [q Hq]. rewrite Hq.
  rewrite (Z.mul_comm q), Z.rem_mul_r by lia. rewrite Z.mul_comm, Z.mod_add by lia. by rewrite Z.mod_mod by lia.
Qed.

Lemma length_memcpy buf off data :
  (off + length data <= length buf)%nat -> length (memcpy buf off data) = length buf.
Proof. intros Hl. unfold memcpy. rewrite !length_app, length_take, length_drop. lia. Qed.

Lemma take_memcpy buf off data :
  (off <= length buf)%nat -> take (off + length data) (memcpy buf off data) = take off buf ++ data.
Proof.
  intros Hl. unfold memcpy. rewrite app_assoc. apply take_app_length'. rewrite length_app, length_take. lia.
Qed.

  (** The second half of [Write]: whole blocks from the data, the rest into the
      buffer, from a state whose buffer holds [r]. *)
Lemma write_rest (s : hash_state H) buf n r data m :
  0 <= n < 2 ^ 64 -> length buf = B -> take (length r) buf = r -> (length r < B)%nat ->
  absorb (hash_init H) m = (s, r) -> n = to_u64 (vsize m) ->
  (r = [] \/ (length r + length data < B)%nat) ->
  written
    (let '(s', n', rest) := process_chunks H (length data) s n data in
     if (0 <? length rest)%nat then mkHasher s' (memcpy buf (length r) rest) (to_u64 (n' + vsize rest))
     else mkHasher s' buf n') (m ++ data).
Proof.
  intros Hn Hbuf Hr HrB Hm Hnm Hcase. rewrite process_chunks_spec by done.
  assert (Habs : absorb (hash_init H) (m ++ data) = ((absorb s data).1, r ++ (absorb s data).2)).
  { rewrite absorb_app, Hm. cbn [fst snd]. destruct Hcase as [->|Hsh]; [cbn [app]; by destruct (absorb s data)|].
    rewrite !absorb_short by (rewrite ?length_app; lia). done. }
  pose proof (absorb_rest (hash_init H) (m ++ data)) as Hsz. rewrite Habs in Hsz. cbn [snd] in Hsz.
  assert (Hlt : (length (r ++ (absorb s data).2) < B)%nat).
  { unfold vsize in Hsz. pose proof (block_pos (H := H)).
    pose proof (Z.mod_pos_bound (vsize (m ++ data)) (Z.of_nat B) ltac:(lia)). unfold vsize in *. lia. }
  rewrite length_app in Hlt.
  assert (Htot : to_u64 (to_u64 (n + (vsize data - vsize (absorb s data).2)) + vsize (absorb s data).2)
                 = to_u64 (vsize (m ++ data))).
  { subst n. unfold to_u64. rewrite Zplus_mod_idemp_l, <- Z.add_assoc, Zplus_mod_idemp_l. f_equal.
    unfold vsize. rewrite length_app. lia. }
  destruct (Nat.ltb_spec 0 (length (absorb s data).2)) as [Hpos|Hz]; unfold written; cbn [hs_s hs_buf hs_bytes];
    rewrite <- Hsz, Habs; unfold vsize at 1; rewrite Nat2Z.id, length_app.
  - rewrite take_memcpy, Hr by lia. split_and!; [done|done|]. rewrite length_memcpy; lia.
  - destruct (absorb s data).2 eqn:E; [|simpl in Hz; lia]. rewrite app_nil_r, Nat.add_0_r, Hr.
    split_and!; [done| |done]. rewrite <- Htot. change (vsize (@nil Z)) with 0. unfold to_u64.
    by rewrite Z.add_0_r, Z.mod_mod by lia.
Qed.

Lemma written_Write h m data : written h m -> written (Hasher_Write h data) (m ++ data).
Proof.
  intros (Hab & Hn & Hb). pose proof (block_pos (H := H)) as HB. unfold Hasher_Write.
  assert (HnB : 0 <= hs_bytes h < 2 ^ 64) by (rewrite Hn; apply Z.mod_pos_bound; lia).
  replace (Z.to_nat (hs_bytes h mod Z.of_nat B)) with (Z.to_nat (vsize m mod Z.of_nat B))
    by (by rewrite Hn, to_u64_mod_block).
  set (k := Z.to_nat (vsize m mod Z.of_nat B)) in *. set (r := take k (hs_buf h)) in *.
  assert (Hk : (k < B)%nat).
  { pose proof (Z.mod_pos_bound (vsize m) (Z.of_nat B) ltac:(lia)). subst k. lia. }
  assert (Hr : length r = k) by (subst r; rewrite length_take; lia).
  assert (Htr : take (length r) (hs_buf h) = r) by (by rewrite Hr).
  destruct (Nat.eqb_spec k 0) as [Hk0|Hk0]; cbn [negb andb].
  { replace k with (length r). apply write_rest with (s := hs_s h); try done; [lia|].
    left. apply nil_length_inv. lia. }
  destruct (Nat.leb_spec B (k + length data)) as [Hfull|Hshort].
  2:{ replace k with (length r). apply write_rest with (s := hs_s h); try done; [lia|]. right. lia. }
  cbn [hs_s hs_buf hs_bytes]. set (fill := (B - k)%nat).
  assert (Hmc : memcpy (hs_buf h) k (take fill data) = r ++ take fill data).
  { unfold memcpy. fold r. rewrite length_take, (drop_ge (hs_buf h)) by lia. by rewrite app_nil_r. }
  assert (Hlen : length (r ++ take fill data) = B) by (rewrite length_app, length_take; lia).
  rewrite Hmc. replace (m ++ data) with ((m ++ take fill data) ++ drop fill data) by (by rewrite <- app_assoc, take_drop).
  apply (write_rest (hash_transform H (hs_s h) (r ++ take fill data)) (r ++ take fill data)
    (to_u64 (hs_bytes h + Z.of_nat fill)) [] (drop fill data) (m ++ take fill data)); try done.
  - unfold to_u64. apply Z.mod_pos_bound. lia.
  - rewrite absorb_app, Hab. cbn [fst snd].
    pose proof (absorb_block (hs_s h) (r ++ take fill data) [] Hlen) as Hone. rewrite app_nil_r in Hone.
    rewrite Hone. apply absorb_short. simpl. lia.
  - rewrite Hn. unfold to_u64. rewrite Zplus_mod_idemp_l. f_equal. unfold vsize. rewrite length_app, length_take. lia.
  - by left.
Qed.

Lemma written_new memory : length memory = B -> written (Hasher_new H memory) [].
Proof.
  intros Hm. split_and!; [|done|done]. rewrite absorb_short by (simpl; apply block_pos).
  change (vsize (@nil Z)) with 0. by rewrite Z.mod_0_l by (pose proof (block_pos (H := H)); lia).
Qed.

Lemma written_Reset h m : written h m -> written (Hasher_Reset h) [].
Proof. intros (_ & _ & Hb). by apply written_new. Qed.

Lemma written_all h m pieces : written h m -> written (foldl Hasher_Write h pieces) (m ++ concat pieces).
Proof.
  revert h m. induction pieces as [|p pieces IH]; intros h m Hw; cbn [foldl concat]; [by rewrite app_nil_r|].
  rewrite app_assoc. by apply IH, written_Write.
Qed.

Lemma padding_length m : (length (m ++ padding H m) mod B = 0)%nat.
Proof.
  pose proof (block_pos (H := H)). apply Nat2Z.inj. rewrite Nat2Z.inj_mod.
  unfold padding. rewrite length_app. cbn [length]. rewrite length_app, length_replicate.
  pose proof (sizedesc_fits (H := H) (to_u64 (8 * vsize m))) as Hs. unfold vsize in *.
  pose proof (Z.mod_pos_bound (hash_padbase H - Z.of_nat (length m)) (Z.of_nat B) ltac:(lia)).
  rewrite !Nat2Z.inj_add, !Nat2Z.inj_succ, Nat2Z.inj_add, Z2Nat.id by lia.
  change (Z.of_nat 0) with 0. rewrite <- Hs. set (L := Z.of_nat (length (hash_sizedesc H _))).
  replace (Z.of_nat (length m) + Z.succ ((hash_padbase H - Z.of_nat (length m)) mod Z.of_nat B + L))
    with ((hash_padbase H - Z.of_nat (length m)) mod Z.of_nat B + (Z.of_nat (length m) + 1 + L)) by lia.
  rewrite Zplus_mod_idemp_l. f_equal. lia.
Qed.

Lemma Finalize_written h m : written h m ->
  (Hasher_Finalize h).1 = message_digest H m /\ exists m', written (Hasher_Finalize h).2 m'.
Proof.
  intros Hw. pose proof Hw as (_ & Hn & _). pose proof (block_pos (H := H)) as HB. unfold Hasher_Finalize. cbv zeta. cbn [fst snd].
  assert (Hpad : Hasher_Write h (take (Z.to_nat (1 + (hash_padbase H - hs_bytes h mod Z.of_nat B) mod Z.of_nat B))
                    (0x80 :: replicate (pred B) 0))
                 = Hasher_Write h (0x80 :: replicate (Z.to_nat ((hash_padbase H - vsize m) mod Z.of_nat B)) 0)).
  { f_equal. rewrite Hn, to_u64_mod_block, Zminus_mod_idemp_r.
    pose proof (Z.mod_pos_bound (hash_padbase H - vsize m) (Z.of_nat B) ltac:(lia)).
    rewrite Z2Nat.inj_add by lia. cbn [Nat.add Z.to_nat Pos.to_nat]. change (Z.to_nat 1) with 1%nat. cbn [Nat.add take].
    f_equal. rewrite take_replicate. f_equal. lia. }
  assert (Hbits : to_u64 (Z.shiftl (hs_bytes h) 3) = to_u64 (8 * vsize m)).
  { rewrite Hn, Z.shiftl_mul_pow2 by lia. unfold to_u64. change (2 ^ 3) with 8.
    rewrite Zmult_mod_idemp_l. f_equal. lia. }
  rewrite Hpad, Hbits.
  pose proof (written_Write _ _ (hash_sizedesc H (to_u64 (8 * vsize m))) (written_Write _ _
    (0x80 :: replicate (Z.to_nat ((hash_padbase H - vsize m) mod Z.of_nat B)) 0) Hw)) as Hw2.
  split; [|by eexists]. destruct Hw2 as (Hab & _ & _).
  rewrite <- app_assoc in Hab. cbn [app] in Hab. fold (padding H m) in Hab.
  rewrite absorb_blocks in Hab by apply padding_length. injection Hab as Hs _.
  unfold message_digest. by rewrite Hs.
Qed.

(** C15: whatever the pieces a message is written in, and whatever the buffer's memory held before,
    [Finalize] returns the digest of the whole message: padded as one string, cut into
    blocks and compressed block after block. *)
Theorem stream_hash memory pieces :
  length memory = B ->
  (Hasher_Finalize (foldl Hasher_Write (Hasher_new H memory) pieces)).1 = message_digest H (concat pieces).
Proof. intros Hm. apply Finalize_written. apply (written_all _ []), written_new, Hm. Qed.
End StreamLaws.

Lemma stream_hash_witness :
  (HashOk ripemd160 /\ length (replicate 64 7) = hash_block ripemd160)
  /\ (Hasher_Finalize (foldl Hasher_Write (Hasher_new ripemd160 (replicate 64 7)) [[97]; []; [98; 99]])).1
     = message_digest ripemd160 [97; 98; 99]
  /\ le_combine (rev (message_digest ripemd160 [97; 98; 99])) = 0x8eb208f7e05d987a9b044a8e98c6b087f15a0bfc.
Proof.
  split; [split; [exact ripemd160_ok|done]|]. split; [|by vm_compute].
  exact (stream_hash (H := ripemd160) (replicate 64 7) [[97]; []; [98; 99]] eq_refl).
Defined.

(** ** Double hashes and HMAC: what they compute *)
Lemma written_stack_memory (H : BlockHash) {Hok : HashOk H} : written (Hasher_new H (stack_memory H)) [].
Proof. apply written_new. unfold stack_memory. by rewrite length_replicate. Qed.

Lemma digest_of (H : BlockHash) {Hok : HashOk H} m :
  (Hasher_Finalize (Hasher_Write (Hasher_new H (stack_memory H)) m)).1 = message_digest H m.
Proof. refine (proj1 (Finalize_written _ m _)). apply (written_Write _ []). exact (written_stack_memory _). Qed.

Lemma Hash_digest ranges :
  Hash ranges = message_digest sha256 (message_digest sha256 (concat ranges)).
Proof.
  unfold Hash, CHash256_Finalize, CSHA256_Finalize, CSHA256_Write, CSHA256_Reset.
  destruct (Finalize_written (foldl Hasher_Write CSHA256_new ranges) (concat ranges)) as [Hd [m Hm]].
  { apply (written_all _ []). exact (written_stack_memory _). }
  destruct (Hasher_Finalize _) as [buf sha'] eqn:E. simpl in Hd, Hm. subst buf.
  refine (proj1 (Finalize_written _ _ _)). apply (written_Write _ []). by eapply written_Reset.
Qed.

Lemma Hash160_digest vch : Hash160 vch = message_digest ripemd160 (message_digest sha256 vch).
Proof.
  unfold Hash160, CHash160_Finalize, CSHA256_Finalize, CSHA256_Write, CSHA256_new.
  pose proof (digest_of sha256 vch) as Hd. destruct (Hasher_Finalize _) as [buf sha']. cbn [fst] in Hd.
  rewrite Hd. exact (digest_of ripemd160 _).
Qed.

(** RFC 2104: the key, hashed first if longer than a block, padded with zeros
    to a block, with every byte combined with the inner or the outer pad *)
Definition hmac_key (H : BlockHash) (key : bytes) : bytes :=
  let k := if (length key <=? hash_block H)%nat then key else message_digest H key in
  k ++ replicate (hash_block H - length k) 0.

Definition hmac (H : BlockHash) (key m : bytes) : bytes :=
  message_digest H (map (Z.lxor 0x5c) (hmac_key H key)
    ++ message_digest H (map (Z.lxor 0x36) (hmac_key H key) ++ m)).

Lemma CHMAC_new_written (H : BlockHash) {Hok : HashOk H} key :
  written (outer (CHMAC_new H key)) (map (Z.lxor 0x5c) (hmac_key H key))
  /\ written (inner (CHMAC_new H key)) (map (Z.lxor 0x36) (hmac_key H key)).
Proof.
  unfold CHMAC_new. rewrite (digest_of H). cbv zeta. cbn [outer inner].
  replace (if (length key <=? hash_block H)%nat then _ else _) with (hmac_key H key)
    by (unfold hmac_key; by destruct (length key <=? hash_block H)%nat).
  split; [apply (written_Write _ []); exact (written_stack_memory _)|].
  replace (map (Z.lxor 0x36) (hmac_key H key))
    with (map (Z.lxor (Z.lxor 0x5c 0x36)) (map (Z.lxor 0x5c) (hmac_key H key))).
  { apply (written_Write _ []). exact (written_stack_memory _). }
  rewrite map_map. apply map_ext. intros b. rewrite <- Z.lxor_assoc. by f_equal.
Qed.

Lemma CHMAC_writes (H : BlockHash) pieces (m : CHMAC H) :
  foldl CHMAC_Write m pieces = mkHMAC (outer m) (foldl Hasher_Write (inner m) pieces).
Proof. revert m. induction pieces as [|p pieces IH]; intros m; [by destruct m|]. cbn [foldl]. by rewrite IH. Qed.

(** The HMAC classes compute the keyed hash of RFC 2104 over the concatenation of what was
    written, for keys of any length. *)
Theorem hmac_exact (H : BlockHash) (Hok : HashOk H) (key : bytes) (pieces : list bytes) :
  CHMAC_Finalize (foldl CHMAC_Write (CHMAC_new H key) pieces) = hmac H key (concat pieces).
Proof.
  destruct (CHMAC_new_written H key) as [Ho Hi]. rewrite CHMAC_writes. unfold CHMAC_Finalize, hmac.
  cbn [outer inner]. destruct (Finalize_written _ _ (written_all _ _ pieces Hi)) as [-> _].
  refine (proj1 (Finalize_written _ _ _)). by apply written_Write.
Qed.

Lemma hmac_exact_witness :
  HashOk sha256
  /\ CHMAC_Finalize (foldl CHMAC_Write (CHMAC_new sha256 (replicate 20 0x0b)) [[0x48; 0x69]; [0x20; 0x54; 0x68; 0x65; 0x72; 0x65]])
     = hmac sha256 (replicate 20 0x0b) [0x48; 0x69; 0x20; 0x54; 0x68; 0x65; 0x72; 0x65]
  /\ le_combine (rev (hmac sha256 (replicate 20 0x0b) [0x48; 0x69; 0x20; 0x54; 0x68; 0x65; 0x72; 0x65]))
     = 0xb0344c61d8db38535ca8afceaf0bf12b881dc200c9833da726e9376c2e32cff7.
Proof.
  split; [exact sha256_ok|]. split; [|by vm_compute].
  exact (hmac_exact sha256 sha256_ok (replicate 20 0x0b) [[0x48; 0x69]; [0x20; 0x54; 0x68; 0x65; 0x72; 0x65]]).
Defined.

(** ** Digest sizes *)
Lemma length_WriteBE32 x : length (WriteBE32 x) = 4%nat.
Proof. unfold WriteBE32. by rewrite length_rev, length_le_split. Qed.

Lemma length_WriteLE32 x : length (WriteLE32 x) = 4%nat.
Proof. apply length_le_split. Qed.

Lemma length_sha256 h : length (CSHA256_Finalize h).1 = 32%nat.
Proof.
  unfold CSHA256_Finalize, Hasher_Finalize. cbn [fst hash_output sha256].
  destruct (hs_s _) as [[[[[[[a b] c] d] e] f] g] i]. unfold sha256_output.
  by rewrite !length_app, !length_WriteBE32.
Qed.

Lemma length_sha1 h : length (CSHA1_Finalize h).1 = 20%nat.
Proof.
  unfold CSHA1_Finalize, Hasher_Finalize. cbn [fst hash_output sha1].
  destruct (hs_s _) as [[[[a b] c] d] e]. unfold sha1_output. by rewrite !length_app, !length_WriteBE32.
Qed.

Lemma length_ripemd160 h : length (CRIPEMD160_Finalize h).1 = 20%nat.
Proof.
  unfold CRIPEMD160_Finalize, Hasher_Finalize. cbn [fst hash_output ripemd160].
  destruct (hs_s _) as [[[[a b] c] d] e]. unfold ripemd160_output. by rewrite !length_app, !length_WriteLE32.
Qed.

Lemma length_Hash ranges : length (Hash ranges) = 32%nat.
Proof. unfold Hash, CHash256_Finalize. destruct (CSHA256_Finalize _). apply length_sha256. Qed.

Lemma length_Hash160 vch : length (Hash160 vch) = 20%nat.
Proof. unfold Hash160, CHash160_Finalize. destruct (CSHA256_Finalize _). apply length_ripemd160. Qed.

(** the published digests of a short message *)
Example sha256_abc :
  le_combine (rev (CSHA256_Finalize (CSHA256_Write CSHA256_new [97; 98; 99])).1)
  = 0xba7816bf8f01cfea414140de5dae2223b00361a396177a9cb410ff61f20015ad.
Proof. by vm_compute. Qed.

Example sha1_abc :
  le_combine (rev (CSHA1_Finalize (CSHA1_Write CSHA1_new [97; 98; 99])).1)
  = 0xa9993e364706816aba3e25717850c26c9cd0d89d.
Proof. by vm_compute. Qed.

Example sha512_abc :
  le_combine (rev (CSHA512_Finalize (CSHA512_Write CSHA512_new [97; 98; 99])).1)
  = 0xddaf35a193617abacc417349ae20413112e6fa4e89a97ea20a9eeee64b55d39a2192992a274fc1a836ba3c23a3feebbd454d4423643ce80e2a9ac94fa54ca49f.
Proof. by vm_compute. Qed.

Example murmur_vectors :
  MurmurHash3 0xFBA4C795 [] = 0x6a396f08 /\ MurmurHash3 0 [0x00; 0x11; 0x22; 0x33] = 0xb4471bf8.
Proof. by vm_compute. Qed.
