(* ===== verification/Interpreter.v ===== *)
(** * The script interpreter

    [script/interpreter.cpp]: the encoding checks on keys and signatures,
    [EvalScript] with every opcode, [VerifyScript], and the checks of lock time
    and of the replay-protection data.  The signature checker is the class
    [BaseSignatureChecker] of the source; [CPubKey::CheckLowS], a call of the
    secp256k1 library, is a parameter. *)

From stdpp Require Import base numbers list strings option.
From Stdlib Require Import ZArith Lia.
From S2P Require Import Prelude.
From S2P Require Import Serialize.
From S2P Require Import ScTypes.
From S2P Require Import Primitives.
From S2P Require Import Compress.
From S2P Require Import Script.
From S2P Require Import Crypto.
Open Scope Z_scope.
Open Scope zen_scope.

Abbreviation valtype := bytes (only parsing).

(** ** Errors and flags *)
Inductive ScriptError :=
| SCRIPT_ERR_OK
| SCRIPT_ERR_UNKNOWN_ERROR
| SCRIPT_ERR_EVAL_FALSE
| SCRIPT_ERR_OP_RETURN
| SCRIPT_ERR_SCRIPT_SIZE
| SCRIPT_ERR_PUSH_SIZE
| SCRIPT_ERR_OP_COUNT
| SCRIPT_ERR_STACK_SIZE
| SCRIPT_ERR_SIG_COUNT
| SCRIPT_ERR_PUBKEY_COUNT
| SCRIPT_ERR_VERIFY
| SCRIPT_ERR_EQUALVERIFY
| SCRIPT_ERR_CHECKMULTISIGVERIFY
| SCRIPT_ERR_CHECKSIGVERIFY
| SCRIPT_ERR_NUMEQUALVERIFY
| SCRIPT_ERR_BAD_OPCODE
| SCRIPT_ERR_DISABLED_OPCODE
| SCRIPT_ERR_INVALID_STACK_OPERATION
| SCRIPT_ERR_INVALID_ALTSTACK_OPERATION
| SCRIPT_ERR_UNBALANCED_CONDITIONAL
| SCRIPT_ERR_NEGATIVE_LOCKTIME
| SCRIPT_ERR_UNSATISFIED_LOCKTIME
| SCRIPT_ERR_SIG_HASHTYPE
| SCRIPT_ERR_SIG_DER
| SCRIPT_ERR_MINIMALDATA
| SCRIPT_ERR_SIG_PUSHONLY
| SCRIPT_ERR_SIG_HIGH_S
| SCRIPT_ERR_SIG_NULLDUMMY
| SCRIPT_ERR_PUBKEYTYPE
| SCRIPT_ERR_CLEANSTACK
| SCRIPT_ERR_DISCOURAGE_UPGRADABLE_NOPS
| SCRIPT_ERR_CHECKBLOCKATHEIGHT
| SCRIPT_ERR_CHECKBLOCKATHEIGHT_UNVERIFIED
| SCRIPT_ERR_NOT_FINAL
| SCRIPT_ERR_ERROR_COUNT.

#[export] Instance ScriptError_eq_dec : EqDecision ScriptError.
Proof. solve_decision. Defined.

Abbreviation SCRIPT_VERIFY_P2SH := 1 (only parsing).
Abbreviation SCRIPT_VERIFY_STRICTENC := 2 (only parsing).
Abbreviation SCRIPT_VERIFY_LOW_S := 8 (only parsing).
Abbreviation SCRIPT_VERIFY_NULLDUMMY := 16 (only parsing).
Abbreviation SCRIPT_VERIFY_SIGPUSHONLY := 32 (only parsing).
Abbreviation SCRIPT_VERIFY_MINIMALDATA := 64 (only parsing).
Abbreviation SCRIPT_VERIFY_DISCOURAGE_UPGRADABLE_NOPS := 128 (only parsing).
Abbreviation SCRIPT_VERIFY_CLEANSTACK := 256 (only parsing).
Abbreviation SCRIPT_VERIFY_CHECKLOCKTIMEVERIFY := 512 (only parsing).
Abbreviation SCRIPT_VERIFY_CHECKBLOCKATHEIGHT := 1024 (only parsing).

Abbreviation SIGHASH_ALL := 1 (only parsing).
Abbreviation SIGHASH_NONE := 2 (only parsing).
Abbreviation SIGHASH_SINGLE := 3 (only parsing).
Abbreviation SIGHASH_ANYONECANPAY := 0x80 (only parsing).

(** [(flags & flag) != 0] *)
Definition has_flag (flags flag : Z) : bool := negb (Z.land flags flag =? 0).

(** A [bool] function with a [ScriptError*]: [inl e] is [false] with the error
    [e], [inr a] is [true]; a failed [assert] aborts, an exception propagates. *)
Definition outcome (A : Type) : Type := res (ScriptError + A).

Definition pass {A} (a : A) : outcome A := Ok (inr a).

Definition set_error {A} (e : ScriptError) : outcome A := Ok (inl e).

Definition then_ {A B} (m : outcome A) (k : A -> outcome B) : outcome B :=
  match m with
  | Ok (inr a) => k a
  | Ok (inl e) => Ok (inl e)
  | Err e => Err e
  end.

Definition lift_res {A} (r : res A) : outcome A :=
  match r with Ok a => Ok (inr a) | Err e => Err e end.

Notation "'let?' x := m 'in' k" := (then_ m (fun x => k))
  (at level 10, x name, m at level 100, k at level 200) : zen_scope.

(** [if (!ok) return set_error(e)] *)
Definition require (ok : bool) (e : ScriptError) : outcome unit :=
  if ok then pass tt else set_error e.

(** ** Values *)
Fixpoint CastToBool (vch : valtype) : bool :=
  match vch with
  | [] => false
  | b :: vch' =>
      if negb (b =? 0) then negb (match vch' with [] => b =? 0x80 | _ => false end)
      else CastToBool vch'
  end.

Definition vchFalse : valtype := [].

Definition vchTrue : valtype := [1].

Definition bool_val (b : bool) : valtype := if b then vchTrue else vchFalse.

(** ** Encodings of keys and signatures *)
Definition IsCompressedOrUncompressedPubKey (vchPubKey : valtype) : bool :=
  if vsize vchPubKey <? 33 then false
  else if at_ vchPubKey 0 =? 0x04 then vsize vchPubKey =? 65
  else if (at_ vchPubKey 0 =? 0x02) || (at_ vchPubKey 0 =? 0x03) then vsize vchPubKey =? 33
  else false.

Definition IsValidSignatureEncoding (sig : valtype) : bool :=
  let lenR := at_ sig 3 in
  let lenS := at_ sig (Z.to_nat (5 + lenR)) in
  negb (vsize sig <? 9) && negb (73 <? vsize sig)
  && (at_ sig 0 =? 0x30)
  && (at_ sig 1 =? vsize sig - 3)
  && negb (vsize sig <=? 5 + lenR)
  && (lenR + lenS + 7 =? vsize sig)
  && (at_ sig 2 =? 0x02)
  && negb (lenR =? 0)
  && (Z.land (at_ sig 4) 0x80 =? 0)
  && negb ((1 <? lenR) && (at_ sig 4 =? 0x00) && (Z.land (at_ sig 5) 0x80 =? 0))
  && (at_ sig (Z.to_nat (lenR + 4)) =? 0x02)
  && negb (lenS =? 0)
  && (Z.land (at_ sig (Z.to_nat (lenR + 6))) 0x80 =? 0)
  && negb ((1 <? lenS) && (at_ sig (Z.to_nat (lenR + 6)) =? 0x00)
           && (Z.land (at_ sig (Z.to_nat (lenR + 7))) 0x80 =? 0)).

Definition IsDefinedHashtypeSignature (vchSig : valtype) : bool :=
  if vsize vchSig =? 0 then false
  else
    let nHashType := Z.land (back vchSig) (to_u8 (Z.lnot SIGHASH_ANYONECANPAY)) in
    negb ((nHashType <? SIGHASH_ALL) || (SIGHASH_SINGLE <? nHashType)).

Definition CheckPubKeyEncoding (vchPubKey : valtype) (flags : Z) : outcome unit :=
  require (negb (has_flag flags SCRIPT_VERIFY_STRICTENC && negb (IsCompressedOrUncompressedPubKey vchPubKey)))
    SCRIPT_ERR_PUBKEYTYPE.

Definition CheckMinimalPush (data : valtype) (opcode : Z) : bool :=
  if vsize data =? 0 then opcode =? OP_0
  else if (vsize data =? 1) && (1 <=? at_ data 0) && (at_ data 0 <=? 16)
  then opcode =? OP_1 + (at_ data 0 - 1)
  else if (vsize data =? 1) && (at_ data 0 =? 0x81) then opcode =? OP_1NEGATE
  else if vsize data <=? 75 then opcode =? vsize data
  else if vsize data <=? 255 then opcode =? OP_PUSHDATA1
  else if vsize data <=? 65535 then opcode =? OP_PUSHDATA2
  else true.

(** ** The signature checker *)
Class BaseSignatureChecker := {
  CheckSig : valtype -> valtype -> CScript -> bool;
  CheckLockTime : Z -> bool;
  CheckBlockHash : Z -> valtype -> bool }.

(** ** The state of [EvalScript]

    The stacks are listed from the top: [stacktop(-1)] is the head. *)
Record EvalState := mkEval {
  stack : list valtype;
  altstack : list valtype;
  vfExec : list bool;
  nOpCount : Z }.

Definition with_stack (s : EvalState) (st : list valtype) : EvalState :=
  mkEval st (altstack s) (vfExec s) (nOpCount s).

Definition MAX_SCRIPT_ELEMENT_SIZE : Z := 520.

Definition invalid_stack {A} : outcome A := set_error SCRIPT_ERR_INVALID_STACK_OPERATION.

(** ** Stack operations

    [None] where the stack is too short. *)
Definition op_stack1 (opcode : Z) (st : list valtype) : option (list valtype) :=
  if opcode =? OP_2DROP then match st with _ :: _ :: s => Some s | _ => None end
  else if opcode =? OP_2DUP then
    match st with x2 :: x1 :: s => Some (x2 :: x1 :: x2 :: x1 :: s) | _ => None end
  else if opcode =? OP_3DUP then
    match st with x3 :: x2 :: x1 :: s => Some (x3 :: x2 :: x1 :: x3 :: x2 :: x1 :: s) | _ => None end
  else if opcode =? OP_2OVER then
    match st with
    | x4 :: x3 :: x2 :: x1 :: s => Some (x2 :: x1 :: x4 :: x3 :: x2 :: x1 :: s)
    | _ => None
    end
  else if opcode =? OP_2ROT then
    match st with
    | x6 :: x5 :: x4 :: x3 :: x2 :: x1 :: s => Some (x2 :: x1 :: x6 :: x5 :: x4 :: x3 :: s)
    | _ => None
    end
  else if opcode =? OP_2SWAP then
    match st with
    | x4 :: x3 :: x2 :: x1 :: s => Some (x2 :: x1 :: x4 :: x3 :: s)
    | _ => None
    end
  else if opcode =? OP_IFDUP then
    match st with x :: s => Some (if CastToBool x then x :: x :: s else x :: s) | _ => None end
  else if opcode =? OP_DEPTH then Some (num_serialize (vsize st) :: st)
  else if opcode =? OP_DROP then match st with _ :: s => Some s | _ => None end
  else match st with x :: s => Some (x :: x :: s) | _ => None end.

Definition op_stack2 (opcode : Z) (st : list valtype) : option (list valtype) :=
  if opcode =? OP_NIP then match st with x2 :: _ :: s => Some (x2 :: s) | _ => None end
  else if opcode =? OP_OVER then match st with x2 :: x1 :: s => Some (x1 :: x2 :: x1 :: s) | _ => None end
  else if opcode =? OP_ROT then
    match st with x3 :: x2 :: x1 :: s => Some (x1 :: x3 :: x2 :: s) | _ => None end
  else if opcode =? OP_SWAP then match st with x2 :: x1 :: s => Some (x1 :: x2 :: s) | _ => None end
  else if opcode =? OP_TUCK then
    match st with x2 :: x1 :: s => Some (x2 :: x1 :: x2 :: s) | _ => None end
  else match st with x :: s => Some (num_serialize (vsize x) :: x :: s) | _ => None end.

Section Eval.
  Context (CheckLowS : bytes -> bool) `{checker : BaseSignatureChecker} (flags : Z).

Definition fRequireMinimal : bool := has_flag flags SCRIPT_VERIFY_MINIMALDATA.

Definition num (vch : valtype) : outcome Z :=
  lift_res (CScriptNum_of vch fRequireMinimal nDefaultMaxNumSize).

  (** A high [S] returns without an error of its own: the one set when
      [EvalScript] started stays. *)
Definition IsLowDERSignature (vchSig : valtype) : outcome unit :=
  if negb (IsValidSignatureEncoding vchSig) then set_error SCRIPT_ERR_SIG_DER
  else require (CheckLowS (take (pred (length vchSig)) vchSig)) SCRIPT_ERR_UNKNOWN_ERROR.

Definition CheckSignatureEncoding (vchSig : valtype) : outcome unit :=
  if vsize vchSig =? 0 then pass tt
  else if negb (IsValidSignatureEncoding vchSig) then set_error SCRIPT_ERR_SIG_DER
  else
    let? _ := (if has_flag flags SCRIPT_VERIFY_LOW_S then IsLowDERSignature vchSig else pass tt) in
    require (negb (has_flag flags SCRIPT_VERIFY_STRICTENC && negb (IsDefinedHashtypeSignature vchSig)))
      SCRIPT_ERR_SIG_HASHTYPE.

Definition CheckEncodings (vchSig vchPubKey : valtype) : outcome unit :=
  let? _ := CheckSignatureEncoding vchSig in CheckPubKeyEncoding vchPubKey flags.

Definition op_checklocktimeverify (st : list valtype) : outcome (list valtype) :=
  if negb (has_flag flags SCRIPT_VERIFY_CHECKLOCKTIMEVERIFY) then
    let? _ := require (negb (has_flag flags SCRIPT_VERIFY_DISCOURAGE_UPGRADABLE_NOPS))
                SCRIPT_ERR_DISCOURAGE_UPGRADABLE_NOPS in
    pass st
  else
    match st with
    | [] => invalid_stack
    | x :: _ =>
        let? nLockTime := lift_res (CScriptNum_of x fRequireMinimal 5) in
        let? _ := require (negb (nLockTime <? 0)) SCRIPT_ERR_NEGATIVE_LOCKTIME in
        let? _ := require (CheckLockTime nLockTime) SCRIPT_ERR_UNSATISFIED_LOCKTIME in
        pass st
    end.

Definition op_checkblockatheight (st : list valtype) : outcome (list valtype) :=
  match st with
  | vchBlockIndex :: vchBlockHash :: s =>
      if negb (has_flag flags SCRIPT_VERIFY_CHECKBLOCKATHEIGHT) then pass s
      else
        let? _ := require (negb ((4 <? vsize vchBlockIndex) || (32 <? vsize vchBlockHash)))
                    SCRIPT_ERR_CHECKBLOCKATHEIGHT in
        let? n := lift_res (CScriptNum_of vchBlockIndex true 4) in
        let nHeight := getint n in
        let? _ := require (negb ((nHeight <? 0) || negb (CheckBlockHash nHeight vchBlockHash)))
                    SCRIPT_ERR_NOT_FINAL in
        pass s
  | _ => invalid_stack
  end.

Definition op_if (fExec : bool) (opcode : Z) (s : EvalState) : outcome EvalState :=
  if fExec then
    match stack s with
    | [] => set_error SCRIPT_ERR_UNBALANCED_CONDITIONAL
    | vch :: st =>
        let fValue := if opcode =? OP_NOTIF then negb (CastToBool vch) else CastToBool vch in
        pass (mkEval st (altstack s) (fValue :: vfExec s) (nOpCount s))
    end
  else pass (mkEval (stack s) (altstack s) (false :: vfExec s) (nOpCount s)).

Definition op_else (s : EvalState) : outcome EvalState :=
  match vfExec s with
  | [] => set_error SCRIPT_ERR_UNBALANCED_CONDITIONAL
  | b :: v => pass (mkEval (stack s) (altstack s) (negb b :: v) (nOpCount s))
  end.

Definition op_endif (s : EvalState) : outcome EvalState :=
  match vfExec s with
  | [] => set_error SCRIPT_ERR_UNBALANCED_CONDITIONAL
  | _ :: v => pass (mkEval (stack s) (altstack s) v (nOpCount s))
  end.

Definition op_verify (st : list valtype) : outcome (list valtype) :=
  match st with
  | [] => invalid_stack
  | x :: s => if CastToBool x then pass s else set_error SCRIPT_ERR_VERIFY
  end.

Definition op_toaltstack (s : EvalState) : outcome EvalState :=
  match stack s with
  | [] => invalid_stack
  | x :: st => pass (mkEval st (x :: altstack s) (vfExec s) (nOpCount s))
  end.

Definition op_fromaltstack (s : EvalState) : outcome EvalState :=
  match altstack s with
  | [] => set_error SCRIPT_ERR_INVALID_ALTSTACK_OPERATION
  | x :: alt => pass (mkEval (x :: stack s) alt (vfExec s) (nOpCount s))
  end.

Definition op_pick_roll (opcode : Z) (st : list valtype) : outcome (list valtype) :=
  match st with
  | x :: ((_ :: _) as s) =>
      let? bn := num x in
      let n := getint bn in
      if (n <? 0) || (vsize s <=? n) then invalid_stack
      else
        match s !! Z.to_nat n with
        | Some vch => pass (vch :: if opcode =? OP_ROLL then delete (Z.to_nat n) s else s)
        | None => invalid_stack
        end
  | _ => invalid_stack
  end.

Definition op_equal (opcode : Z) (st : list valtype) : outcome (list valtype) :=
  match st with
  | vch2 :: vch1 :: s =>
      let fEqual := bool_decide (vch1 = vch2) in
      if opcode =? OP_EQUALVERIFY
      then (if fEqual then pass s else set_error SCRIPT_ERR_EQUALVERIFY)
      else pass (bool_val fEqual :: s)
  | _ => invalid_stack
  end.

Definition b2z (b : bool) : Z := if b then 1 else 0.

Definition unary (opcode bn : Z) : res Z :=
  if opcode =? OP_1ADD then num_add_assign bn 1
  else if opcode =? OP_1SUB then num_sub_assign bn 1
  else if opcode =? OP_NEGATE then num_neg bn
  else if opcode =? OP_ABS then (if bn <? 0 then num_neg bn else Ok bn)
  else if opcode =? OP_NOT then Ok (b2z (bn =? 0))
  else if opcode =? OP_0NOTEQUAL then Ok (b2z (negb (bn =? 0)))
  else Err AssertFailed.

Definition op_numeric1 (opcode : Z) (st : list valtype) : outcome (list valtype) :=
  match st with
  | [] => invalid_stack
  | x :: s =>
      let? bn := num x in
      let? r := lift_res (unary opcode bn) in
      pass (num_serialize r :: s)
  end.

Definition binary (opcode bn1 bn2 : Z) : res Z :=
  if opcode =? OP_ADD then Ok (bn1 + bn2)
  else if opcode =? OP_SUB then Ok (bn1 - bn2)
  else if opcode =? OP_BOOLAND then Ok (b2z (negb (bn1 =? 0) && negb (bn2 =? 0)))
  else if opcode =? OP_BOOLOR then Ok (b2z (negb (bn1 =? 0) || negb (bn2 =? 0)))
  else if opcode =? OP_NUMEQUAL then Ok (b2z (bn1 =? bn2))
  else if opcode =? OP_NUMEQUALVERIFY then Ok (b2z (bn1 =? bn2))
  else if opcode =? OP_NUMNOTEQUAL then Ok (b2z (negb (bn1 =? bn2)))
  else if opcode =? OP_LESSTHAN then Ok (b2z (bn1 <? bn2))
  else if opcode =? OP_GREATERTHAN then Ok (b2z (bn2 <? bn1))
  else if opcode =? OP_LESSTHANOREQUAL then Ok (b2z (bn1 <=? bn2))
  else if opcode =? OP_GREATERTHANOREQUAL then Ok (b2z (bn2 <=? bn1))
  else if opcode =? OP_MIN then Ok (if bn1 <? bn2 then bn1 else bn2)
  else if opcode =? OP_MAX then Ok (if bn2 <? bn1 then bn1 else bn2)
  else Err AssertFailed.

Definition op_numeric2 (opcode : Z) (st : list valtype) : outcome (list valtype) :=
  match st with
  | x2 :: x1 :: s =>
      let? bn1 := num x1 in
      let? bn2 := num x2 in
      let? bn := lift_res (binary opcode bn1 bn2) in
      let r := num_serialize bn in
      if opcode =? OP_NUMEQUALVERIFY
      then (if CastToBool r then pass s else set_error SCRIPT_ERR_NUMEQUALVERIFY)
      else pass (r :: s)
  | _ => invalid_stack
  end.

Definition op_within (st : list valtype) : outcome (list valtype) :=
  match st with
  | x3 :: x2 :: x1 :: s =>
      let? bn1 := num x1 in
      let? bn2 := num x2 in
      let? bn3 := num x3 in
      pass (bool_val ((bn2 <=? bn1) && (bn1 <? bn3)) :: s)
  | _ => invalid_stack
  end.

Definition op_hash (opcode : Z) (st : list valtype) : outcome (list valtype) :=
  match st with
  | [] => invalid_stack
  | vch :: s =>
      let vchHash :=
        if opcode =? OP_RIPEMD160 then (CRIPEMD160_Finalize (CRIPEMD160_Write CRIPEMD160_new vch)).1
        else if opcode =? OP_SHA1 then (CSHA1_Finalize (CSHA1_Write CSHA1_new vch)).1
        else if opcode =? OP_SHA256 then (CSHA256_Finalize (CSHA256_Write CSHA256_new vch)).1
        else if opcode =? OP_HASH160 then CHash160_Finalize (CSHA256_Write CSHA256_new vch)
        else CHash256_Finalize (CSHA256_Write CSHA256_new vch) in
      pass (vchHash :: s)
  end.

Definition op_checksig (opcode : Z) (script : CScript) (st : list valtype) : outcome (list valtype) :=
  match st with
  | vchPubKey :: vchSig :: s =>
      let? _ := CheckEncodings vchSig vchPubKey in
      let fSuccess := CheckSig vchSig vchPubKey script in
      if opcode =? OP_CHECKSIGVERIFY
      then (if fSuccess then pass s else set_error SCRIPT_ERR_CHECKSIGVERIFY)
      else pass (bool_val fSuccess :: s)
  | _ => invalid_stack
  end.

  (** The loop over the keys and the signatures still to be matched; the loop
      ends before the keys run out, as [nSigsCount > nKeysCount] then. *)
Fixpoint multisig_loop (script : CScript) (keys sigs : list valtype) {struct keys} : outcome bool :=
  match sigs with
  | [] => pass true
  | vchSig :: sigs' =>
      match keys with
      | [] => pass false
      | vchPubKey :: keys' =>
          let? _ := CheckEncodings vchSig vchPubKey in
          let left := if CheckSig vchSig vchPubKey script then sigs' else sigs in
          if vsize keys' <? vsize left then pass false else multisig_loop script keys' left
      end
  end.

Definition op_checkmultisig (opcode : Z) (script : CScript) (s : EvalState) : outcome EvalState :=
  let st := stack s in
  match st with
  | [] => invalid_stack
  | x :: _ =>
      let? bnKeys := num x in
      let nKeysCount := getint bnKeys in
      if (nKeysCount <? 0) || (20 <? nKeysCount) then set_error SCRIPT_ERR_PUBKEY_COUNT
      else if 201 <? nOpCount s + nKeysCount then set_error SCRIPT_ERR_OP_COUNT
      else if vsize st <? 2 + nKeysCount then invalid_stack
      else
        let k := Z.to_nat nKeysCount in
        let? bnSigs := num (nth (1 + k) st []) in
        let nSigsCount := getint bnSigs in
        if (nSigsCount <? 0) || (nKeysCount <? nSigsCount) then set_error SCRIPT_ERR_SIG_COUNT
        else if vsize st <? 3 + nKeysCount + nSigsCount then invalid_stack
        else
          let n := Z.to_nat nSigsCount in
          let? fSuccess := multisig_loop script (take k (drop 1 st)) (take n (drop (2 + k) st)) in
          match drop (2 + k + n) st with
          | [] => invalid_stack
          | dummy :: rest =>
              if has_flag flags SCRIPT_VERIFY_NULLDUMMY && negb (vsize dummy =? 0)
              then set_error SCRIPT_ERR_SIG_NULLDUMMY
              else
                let done_ st' := mkEval st' (altstack s) (vfExec s) (nOpCount s + nKeysCount) in
                if opcode =? OP_CHECKMULTISIGVERIFY
                then (if fSuccess then pass (done_ rest) else set_error SCRIPT_ERR_CHECKMULTISIGVERIFY)
                else pass (done_ (bool_val fSuccess :: rest))
          end
  end.

Definition in_range (lo hi opcode : Z) : bool := (lo <=? opcode) && (opcode <=? hi).

Definition on_stack (s : EvalState) (r : outcome (list valtype)) : outcome EvalState :=
  let? st := r in pass (with_stack s st).

Definition or_invalid (r : option (list valtype)) : outcome (list valtype) :=
  match r with Some st => pass st | None => invalid_stack end.

  (** the [switch] *)
Definition eval_switch (script : CScript) (fExec : bool) (opcode : Z) (s : EvalState) : outcome EvalState :=
  if (opcode =? OP_1NEGATE) || in_range OP_1 OP_16 opcode
  then pass (with_stack s (num_serialize (opcode - (OP_1 - 1)) :: stack s))
  else if opcode =? OP_NOP then pass s
  else if opcode =? OP_CHECKLOCKTIMEVERIFY then on_stack s (op_checklocktimeverify (stack s))
  else if opcode =? OP_CHECKBLOCKATHEIGHT then on_stack s (op_checkblockatheight (stack s))
  else if (opcode =? OP_NOP1) || in_range OP_NOP3 OP_NOP4 opcode || in_range OP_NOP6 OP_NOP10 opcode
  then
    let? _ := require (negb (has_flag flags SCRIPT_VERIFY_DISCOURAGE_UPGRADABLE_NOPS))
                SCRIPT_ERR_DISCOURAGE_UPGRADABLE_NOPS in
    pass s
  else if (opcode =? OP_IF) || (opcode =? OP_NOTIF) then op_if fExec opcode s
  else if opcode =? OP_ELSE then op_else s
  else if opcode =? OP_ENDIF then op_endif s
  else if opcode =? OP_VERIFY then on_stack s (op_verify (stack s))
  else if opcode =? OP_RETURN then set_error SCRIPT_ERR_OP_RETURN
  else if opcode =? OP_TOALTSTACK then op_toaltstack s
  else if opcode =? OP_FROMALTSTACK then op_fromaltstack s
  else if in_range OP_2DROP OP_DUP opcode then on_stack s (or_invalid (op_stack1 opcode (stack s)))
  else if (opcode =? OP_PICK) || (opcode =? OP_ROLL) then on_stack s (op_pick_roll opcode (stack s))
  else if in_range OP_NIP OP_TUCK opcode || (opcode =? OP_SIZE)
  then on_stack s (or_invalid (op_stack2 opcode (stack s)))
  else if (opcode =? OP_EQUAL) || (opcode =? OP_EQUALVERIFY) then on_stack s (op_equal opcode (stack s))
  else if in_range OP_1ADD OP_1SUB opcode || in_range OP_NEGATE OP_0NOTEQUAL opcode
  then on_stack s (op_numeric1 opcode (stack s))
  else if in_range OP_ADD OP_SUB opcode || in_range OP_BOOLAND OP_MAX opcode
  then on_stack s (op_numeric2 opcode (stack s))
  else if opcode =? OP_WITHIN then on_stack s (op_within (stack s))
  else if in_range OP_RIPEMD160 OP_HASH256 opcode then on_stack s (op_hash opcode (stack s))
  else if (opcode =? OP_CHECKSIG) || (opcode =? OP_CHECKSIGVERIFY)
  then on_stack s (op_checksig opcode script (stack s))
  else if (opcode =? OP_CHECKMULTISIG) || (opcode =? OP_CHECKMULTISIGVERIFY)
  then op_checkmultisig opcode script s
  else set_error SCRIPT_ERR_BAD_OPCODE.

Definition disabled (opcode : Z) : bool :=
  in_range OP_CAT OP_RIGHT opcode || in_range OP_INVERT OP_XOR opcode
  || in_range OP_2MUL OP_2DIV opcode || in_range OP_MUL OP_RSHIFT opcode
  || (opcode =? OP_CODESEPARATOR).

  (** one iteration of the loop, after the instruction has been read *)
Definition eval_op (script : CScript) (s : EvalState) (opcode : Z) (vchPushValue : valtype)
    : outcome EvalState :=
  let fExec := forallb id (vfExec s) in
  let? _ := require (negb (MAX_SCRIPT_ELEMENT_SIZE <? vsize vchPushValue)) SCRIPT_ERR_PUSH_SIZE in
  let s1 :=
    if OP_16 <? opcode then mkEval (stack s) (altstack s) (vfExec s) (nOpCount s + 1) else s in
  let? _ := require (negb ((OP_16 <? opcode) && (201 <? nOpCount s1))) SCRIPT_ERR_OP_COUNT in
  let? _ := require (negb (disabled opcode)) SCRIPT_ERR_DISABLED_OPCODE in
  let? s2 :=
    (if fExec && in_range 0 OP_PUSHDATA4 opcode then
       let? _ := require (negb (fRequireMinimal && negb (CheckMinimalPush vchPushValue opcode)))
                   SCRIPT_ERR_MINIMALDATA in
       pass (with_stack s1 (vchPushValue :: stack s1))
     else if fExec || in_range OP_IF OP_ENDIF opcode then eval_switch script fExec opcode s1
     else pass s1) in
  let? _ := require (negb (1000 <? vsize (stack s2) + vsize (altstack s2))) SCRIPT_ERR_STACK_SIZE in
  pass s2.

Definition eval_body (script : CScript) (s : EvalState) (opcode : Z) (data : valtype) (_ : bytes)
    : EvalState + outcome (list valtype) :=
  match eval_op script s opcode data with
  | Ok (inr s') => inl s'
  | Ok (inl e) => inr (Ok (inl e))
  | Err e => inr (Err e)
  end.

Definition eval_bad (_ : EvalState) : outcome (list valtype) := set_error SCRIPT_ERR_BAD_OPCODE.

Definition eval_end (s : EvalState) : outcome (list valtype) :=
  match vfExec s with
  | [] => pass (stack s)
  | _ => set_error SCRIPT_ERR_UNBALANCED_CONDITIONAL
  end.

  (** [catch (...)] *)
Definition catch_all {A} (m : outcome A) : outcome A :=
  match m with Err (Exception _) => set_error SCRIPT_ERR_UNKNOWN_ERROR | m => m end.

  (** The stack after a successful evaluation. *)
Definition EvalScript (st : list valtype) (script : CScript) : outcome (list valtype) :=
  if MAX_SCRIPT_SIZE <? vsize script then set_error SCRIPT_ERR_SCRIPT_SIZE
  else catch_all (for_ops (eval_body script) eval_bad eval_end script (mkEval st [] [] 0)).

Definition top_true (st : list valtype) : outcome unit :=
  match st with
  | [] => set_error SCRIPT_ERR_EVAL_FALSE
  | x :: _ => require (CastToBool x) SCRIPT_ERR_EVAL_FALSE
  end.

Definition VerifyScript (scriptSig scriptPubKey : CScript) : outcome unit :=
  let? _ := require (negb (has_flag flags SCRIPT_VERIFY_SIGPUSHONLY && negb (IsPushOnly scriptSig)))
              SCRIPT_ERR_SIG_PUSHONLY in
  let? stackCopy := EvalScript [] scriptSig in
  let? st := EvalScript stackCopy scriptPubKey in
  let? _ := top_true st in
  let? st :=
    (if has_flag flags SCRIPT_VERIFY_P2SH && IsPayToScriptHash scriptPubKey then
       let? _ := require (IsPushOnly scriptSig) SCRIPT_ERR_SIG_PUSHONLY in
       match stackCopy with
       | [] => Err AssertFailed
       | pubKeySerialized :: rest =>
           let? st2 := EvalScript rest pubKeySerialized in
           let? _ := top_true st2 in
           pass st2
       end
     else pass st) in
  if has_flag flags SCRIPT_VERIFY_CLEANSTACK then
    if negb (has_flag flags SCRIPT_VERIFY_P2SH) then Err AssertFailed
    else require (vsize st =? 1) SCRIPT_ERR_CLEANSTACK
  else pass tt.
End Eval.

(** ** Outcomes: a calculus

    [good m Q]: [m] does not abort, and its value, if it passes, satisfies [Q]. *)
Definition good {A} (m : outcome A) (Q : A -> Prop) : Prop :=
  match m with
  | Ok (inr a) => Q a
  | Ok (inl _) => True
  | Err AssertFailed => False
  | Err (Exception _) => True
  end.

Lemma good_then {A B} (m : outcome A) (k : A -> outcome B) Q Q' :
  good m Q -> (forall a, Q a -> good (k a) Q') -> good (then_ m k) Q'.
Proof. unfold good, then_. destruct m as [[e|a]|[]]; naive_solver. Qed.

Lemma good_mono {A} (m : outcome A) (Q Q' : A -> Prop) :
  good m Q -> (forall a, Q a -> Q' a) -> good m Q'.
Proof. unfold good. destruct m as [[e|a]|[]]; naive_solver. Qed.

Lemma good_require b e : good (require b e) (fun _ => b = true).
Proof. by destruct b. Qed.

Lemma then_ok {A B} (m : outcome A) (k : A -> outcome B) b :
  then_ m k = Ok (inr b) <-> exists a, m = Ok (inr a) /\ k a = Ok (inr b).
Proof. destruct m as [[e|a]|e]; simpl; naive_solver. Qed.

Lemma require_ok b e : require b e = Ok (inr tt) <-> b = true.
Proof. destruct b; simpl; naive_solver. Qed.

(** ** Values on the stack *)
Definition elem_ok (x : valtype) : Prop := Forall is_byte x /\ vsize x <= MAX_SCRIPT_ELEMENT_SIZE.

Lemma CScriptNum_of_bound v fm k :
  Forall is_byte v -> 1 <= k <= 8 -> good (lift_res (CScriptNum_of v fm k)) (fun n => Z.abs n < 2 ^ (8 * k - 1)).
Proof.
  intros Hby Hk. unfold CScriptNum_of. destruct (Z.ltb_spec k (vsize v)) as [|Hsz]; [done|].
  destruct (fm && _ && _ && _); [done|]. destruct v as [|b l _] using rev_ind.
  { simpl. apply Z.pow_pos_nonneg; lia. }
  rewrite vsize_app in Hsz. change (vsize [b]) with 1 in Hsz.
  rewrite set_vch_spec by (done || lia). rewrite magnitude_snoc. cbn [lift_res good].
  apply Forall_app in Hby as [Hl [Hb _]%list.Forall_cons].
  pose proof (le_combine_bound l Hl) as Hlb. pose proof (Z.mod_pos_bound b 128 ltac:(lia)).
  pose proof (vsize_nonneg l). assert (Hp : 2 ^ (8 * vsize l) * 128 <= 2 ^ (8 * k - 1)).
  { change 128 with (2 ^ 7). rewrite <- Z.pow_add_r by lia. apply Z.pow_le_mono_r; lia. }
  destruct (128 <=? b); nia.
Qed.

Lemma abs_bytes_bytes fuel a : Forall is_byte (abs_bytes fuel a) /\ (length (abs_bytes fuel a) <= fuel)%nat.
Proof.
  revert a. induction fuel as [|fuel IH]; intros a; cbn [abs_bytes]; [split; [constructor|simpl; lia]|].
  destruct (a =? 0); [split; [constructor|simpl; lia]|]. destruct (IH (Z.shiftr a 8)) as [Hb Hl].
  split; [constructor; [|done]|simpl; lia]. rewrite land_ff. unfold is_byte. apply Z.mod_pos_bound. lia.
Qed.

Lemma back_byte l : Forall is_byte l -> is_byte (back l).
Proof.
  intros Hl. unfold back, at_. destruct (nth_in_or_default (pred (length l)) l 0) as [Hin| ->].
  - rewrite list.Forall_forall in Hl. by apply Hl, list_elem_of_In.
  - unfold is_byte. lia.
Qed.

Lemma num_serialize_ok n : elem_ok (num_serialize n).
Proof.
  unfold elem_ok, num_serialize, MAX_SCRIPT_ELEMENT_SIZE.
  destruct (n =? 0); [split; [constructor|vm_compute; done]|].
  destruct (n =? INT64_MIN); [split; [repeat constructor; lia|vm_compute; done]|]. cbv zeta.
  set (w := abs_bytes 8 _). destruct (abs_bytes_bytes 8 (if n <? 0 then - n else n)) as [Hb Hl]. fold w in Hb, Hl.
  destruct (negb _) eqn:Et.
  - split; [|rewrite vsize_app; unfold vsize; simpl; lia]. apply bytes_snoc; [done|].
    unfold is_byte. destruct (n <? 0); lia.
  - destruct (n <? 0); [|split; [done|unfold vsize; lia]].
    split; [|rewrite vsize_app; unfold vsize; rewrite length_take; simpl; lia].
    apply bytes_snoc; [by apply Forall_take|]. pose proof (back_byte w Hb) as Hbk.
    rewrite land_top in Et by done. destruct (Z.leb_spec 128 (back w)); [done|].
    rewrite lor_top by done. unfold is_byte in *. lia.
Qed.

Lemma le_split_bytes n x : Forall is_byte (le_split n x).
Proof.
  revert x. induction n as [|n IH]; intros x; cbn [le_split]; constructor; [|apply IH].
  unfold is_byte. apply Z.mod_pos_bound. lia.
Qed.

Lemma bool_val_ok b : elem_ok (bool_val b).
Proof. unfold elem_ok, MAX_SCRIPT_ELEMENT_SIZE. destruct b; split; vm_compute; try done; by repeat constructor. Qed.

Lemma sha256_output_bytes s : Forall is_byte (sha256_output s).
Proof.
  destruct s as [[[[[[[a b] c] d] e] f] g] i]. unfold sha256_output, WriteBE32.
  rewrite !Forall_app. split_and!; apply Forall_rev, le_split_bytes.
Qed.

Lemma sha1_output_bytes s : Forall is_byte (sha1_output s).
Proof.
  destruct s as [[[[a b] c] d] e]. unfold sha1_output, WriteBE32.
  rewrite !Forall_app. split_and!; apply Forall_rev, le_split_bytes.
Qed.

Lemma ripemd160_output_bytes s : Forall is_byte (ripemd160_output s).
Proof.
  destruct s as [[[[a b] c] d] e]. unfold ripemd160_output, WriteLE32.
  rewrite !Forall_app. split_and!; apply le_split_bytes.
Qed.

(** the values the hash opcodes push *)
Lemma digest_ok (d : bytes) : Forall is_byte d -> (length d <= 32)%nat -> elem_ok d.
Proof. intros Hb Hl. split; [done|]. unfold vsize, MAX_SCRIPT_ELEMENT_SIZE. lia. Qed.

Lemma op_hash_ok opcode st : Forall elem_ok st -> good (op_hash opcode st) (Forall elem_ok).
Proof.
  intros Hst. destruct st as [|x st]; [done|]. apply list.Forall_cons in Hst as [_ Hst].
  cbn [op_hash good pass]. constructor; [|done]. unfold CHash160_Finalize, CHash256_Finalize.
  repeat case_match; apply digest_ok;
    rewrite ?length_ripemd160, ?length_sha1, ?length_sha256; try lia;
    unfold CRIPEMD160_Finalize, CSHA1_Finalize, CSHA256_Finalize, Hasher_Finalize; cbn [fst hash_output ripemd160 sha1 sha256];
    (apply ripemd160_output_bytes || apply sha1_output_bytes || apply sha256_output_bytes).
Qed.

(** ** Every opcode keeps the stack well formed and does not abort *)
Section Safety.
  Context (CheckLowS : bytes -> bool) {checker : BaseSignatureChecker} (flags : Z).
  Local Notation wf := (Forall elem_ok).

Lemma num_ok x : elem_ok x -> good (num flags x) (fun n => Z.abs n < 2 ^ 31).
Proof. intros [Hx _]. by apply (CScriptNum_of_bound x (fRequireMinimal flags) 4). Qed.

Lemma IsLowDERSignature_ok sig : good (IsLowDERSignature CheckLowS sig) (fun _ => True).
Proof. unfold IsLowDERSignature. destruct (negb _); [done|]. by destruct (CheckLowS _). Qed.

Lemma CheckEncodings_ok sig key : good (CheckEncodings CheckLowS flags sig key) (fun _ => True).
Proof.
  unfold CheckEncodings, CheckSignatureEncoding, CheckPubKeyEncoding.
  apply (good_then _ _ (fun _ => True)); [|intros ? _; eapply good_mono; [apply good_require|done]].
  destruct (_ =? _); [done|]. destruct (negb _); [done|].
  apply (good_then _ _ (fun _ => True)); [|intros ? _; eapply good_mono; [apply good_require|done]].
  destruct (has_flag _ _); [apply IsLowDERSignature_ok|done].
Qed.

Lemma op_checklocktimeverify_ok st : wf st -> good (op_checklocktimeverify flags st) wf.
Proof.
  intros Hst. unfold op_checklocktimeverify. destruct (negb _).
  { by eapply good_then; [apply good_require|]. }
  destruct st as [|x st]; [done|]. pose proof Hst as [[Hx _] _]%list.Forall_cons.
  eapply good_then; [by apply CScriptNum_of_bound|]. intros n _.
  eapply good_then; [apply good_require|]. intros _ _. by eapply good_then; [apply good_require|].
Qed.

Lemma op_checkblockatheight_ok st : wf st -> good (op_checkblockatheight flags st) wf.
Proof.
  intros Hst. destruct st as [|x [|y st]]; [done..|]. apply list.Forall_cons in Hst as [[Hx _] [_ Hst]%list.Forall_cons].
  cbn [op_checkblockatheight]. destruct (negb _); [done|].
  eapply good_then; [apply good_require|]. intros _ _.
  eapply good_then; [by apply CScriptNum_of_bound|]. intros n _.
  by eapply good_then; [apply good_require|].
Qed.

Lemma op_verify_ok st : wf st -> good (op_verify st) wf.
Proof. intros Hst. destruct st as [|x st]; [done|]. inversion Hst. simpl. by destruct (CastToBool x). Qed.

Lemma op_stack1_ok opcode st : wf st -> good (or_invalid (op_stack1 opcode st)) wf.
Proof.
  intros Hst. unfold op_stack1.
  repeat match goal with
  | |- context [if Z.eqb opcode ?b then _ else _] => destruct (Z.eqb opcode b)
  end;
  (destruct st as [|x1 [|x2 [|x3 [|x4 [|x5 [|x6 st]]]]]]; cbn [or_invalid good pass]; try done;
   try destruct (CastToBool _); repeat (match goal with H : Forall _ (_ :: _) |- _ => inversion H; clear H; subst end);
   repeat apply list.Forall_cons_2; try done; apply num_serialize_ok).
Qed.

Lemma op_stack2_ok opcode st : wf st -> good (or_invalid (op_stack2 opcode st)) wf.
Proof.
  intros Hst. unfold op_stack2.
  repeat match goal with
  | |- context [if Z.eqb opcode ?b then _ else _] => destruct (Z.eqb opcode b)
  end;
  (destruct st as [|x1 [|x2 [|x3 st]]]; cbn [or_invalid good pass]; try done;
   repeat (match goal with H : Forall _ (_ :: _) |- _ => inversion H; clear H; subst end);
   repeat apply list.Forall_cons_2; try done; apply num_serialize_ok).
Qed.

Lemma op_pick_roll_ok opcode st : wf st -> good (op_pick_roll flags opcode st) wf.
Proof.
  intros Hst. destruct st as [|x [|y st]]; [done..|]. apply list.Forall_cons in Hst as [Hx Hst].
  cbn [op_pick_roll]. eapply good_then; [by apply num_ok|]. intros n _.
  destruct (_ || _); [done|]. destruct ((y :: st) !! _) as [v|] eqn:E; [|done]. cbn [good pass].
  constructor; [by eapply Forall_lookup_1|]. destruct (_ =? _); [by apply Forall_delete|done].
Qed.

Lemma op_equal_ok opcode st : wf st -> good (op_equal opcode st) wf.
Proof.
  intros Hst. destruct st as [|x [|y st]]; [done..|]. apply list.Forall_cons in Hst as [_ [_ Hst]%list.Forall_cons].
  cbn [op_equal]. destruct (_ =? _); [by destruct (bool_decide _)|]. constructor; [apply bool_val_ok|done].
Qed.

  (** four-byte operands never trip the asserts of [CScriptNum] *)
Lemma unary_ok opcode n :
  Z.abs n < 2 ^ 31 -> in_range OP_1ADD OP_1SUB opcode || in_range OP_NEGATE OP_0NOTEQUAL opcode = true ->
  exists r, unary opcode n = Ok r.
Proof.
  intros Hn Hop. unfold unary, num_add_assign, num_sub_assign, num_neg, INT64_MIN, INT64_MAX.
  unfold in_range in Hop.
  repeat (match goal with |- context [if Z.eqb opcode ?b then _ else _] => destruct (Z.eqb_spec opcode b) end).
  - destruct (Z.leb_spec n (2 ^ 63 - 1 - 1)); [by eexists|lia].
  - destruct (Z.leb_spec (- 2 ^ 63 + 1) n); [by eexists|lia].
  - destruct (Z.eqb_spec n (- 2 ^ 63)); [lia|by eexists].
  - destruct (n <? 0); [destruct (Z.eqb_spec n (- 2 ^ 63)); [lia|]|]; by eexists.
  - by eexists.
  - by eexists.
  - exfalso. apply orb_true_iff in Hop as [Hop|Hop]; zbool; lia.
Qed.

Lemma binary_ok opcode n1 n2 :
  in_range OP_ADD OP_SUB opcode || in_range OP_BOOLAND OP_MAX opcode = true ->
  exists r, binary opcode n1 n2 = Ok r.
Proof.
  intros Hop. unfold binary, in_range in *.
  repeat (match goal with |- context [if Z.eqb opcode ?b then _ else _] => destruct (Z.eqb_spec opcode b); [by eexists|] end).
  exfalso. apply orb_true_iff in Hop as [Hop|Hop]; zbool; lia.
Qed.

Lemma op_numeric1_ok opcode st :
  in_range OP_1ADD OP_1SUB opcode || in_range OP_NEGATE OP_0NOTEQUAL opcode = true ->
  wf st -> good (op_numeric1 flags opcode st) wf.
Proof.
  intros Hop Hst. destruct st as [|x st]; [done|]. apply list.Forall_cons in Hst as [Hx Hst].
  cbn [op_numeric1]. eapply good_then; [by apply num_ok|]. intros n Hn.
  destruct (unary_ok opcode n Hn Hop) as [r ->]. simpl. constructor; [apply num_serialize_ok|done].
Qed.

Lemma op_numeric2_ok opcode st :
  in_range OP_ADD OP_SUB opcode || in_range OP_BOOLAND OP_MAX opcode = true ->
  wf st -> good (op_numeric2 flags opcode st) wf.
Proof.
  intros Hop Hst. destruct st as [|x [|y st]]; [done..|].
  apply list.Forall_cons in Hst as [Hx [Hy Hst]%list.Forall_cons].
  cbn [op_numeric2]. eapply good_then; [by apply num_ok|]. intros n1 _.
  eapply good_then; [by apply num_ok|]. intros n2 _.
  destruct (binary_ok opcode n1 n2 Hop) as [r ->]. cbn [lift_res then_]. cbv zeta.
  destruct (_ =? _); [by destruct (CastToBool _)|]. constructor; [apply num_serialize_ok|done].
Qed.

Lemma op_within_ok st : wf st -> good (op_within flags st) wf.
Proof.
  intros Hst. destruct st as [|x [|y [|z st]]]; [done..|].
  apply list.Forall_cons in Hst as [Hx [Hy [Hz Hst]%list.Forall_cons]%list.Forall_cons].
  cbn [op_within]. do 3 (eapply good_then; [by apply num_ok|]; intros ? _).
  constructor; [apply bool_val_ok|done].
Qed.

Lemma op_checksig_ok opcode script st : wf st -> good (op_checksig CheckLowS flags opcode script st) wf.
Proof.
  intros Hst. destruct st as [|x [|y st]]; [done..|]. apply list.Forall_cons in Hst as [_ [_ Hst]%list.Forall_cons].
  cbn [op_checksig]. eapply good_then; [apply CheckEncodings_ok|]. intros _ _.
  destruct (_ =? _); [by destruct (CheckSig _ _ _)|]. constructor; [apply bool_val_ok|done].
Qed.

Lemma multisig_loop_ok script keys sigs :
  good (multisig_loop CheckLowS flags script keys sigs) (fun _ => True).
Proof.
  revert sigs. induction keys as [|key keys IH]; intros [|sig sigs]; cbn [multisig_loop]; try done.
  eapply good_then; [apply CheckEncodings_ok|]. intros _ _. cbv zeta.
  destruct (_ <? _); [done|]. apply IH.
Qed.

Definition eval_inv (s : EvalState) : Prop :=
  wf (stack s) /\ wf (altstack s) /\ nOpCount s <= 201.

Lemma on_stack_ok s r : eval_inv s -> good r wf -> good (on_stack s r) eval_inv.
Proof.
  intros (_ & Halt & Hn) Hr. unfold on_stack. eapply good_then; [exact Hr|]. intros st Hst. by split_and!.
Qed.

Lemma op_checkmultisig_ok opcode script s :
  eval_inv s -> good (op_checkmultisig CheckLowS flags opcode script s) eval_inv.
Proof.
  intros (Hst & Halt & Hn). unfold op_checkmultisig. destruct (stack s) as [|x st] eqn:Es; [done|].
  set (full := x :: st) in *. pose proof Hst as [Hx _]%list.Forall_cons.
  assert (Hnth : forall i, elem_ok (nth i full [])).
  { intros i. destruct (nth_in_or_default i full []) as [Hin| ->]; [|split; [constructor|vm_compute; done]].
    rewrite list.Forall_forall in Hst. by apply Hst, list_elem_of_In. }
  eapply good_then; [by apply num_ok|]. intros nk _. cbv zeta. destruct (_ || _); [done|].
  destruct (Z.ltb_spec 201 (nOpCount s + getint nk)); [done|]. destruct (_ <? _); [done|].
  eapply good_then; [apply num_ok, Hnth|]. intros ns _. destruct (_ || _); [done|]. destruct (_ <? _); [done|].
  eapply good_then; [apply multisig_loop_ok|]. intros ok _.
  destruct (drop _ full) as [|dummy rest] eqn:Ed; [done|]. destruct (_ && _); [done|].
  assert (Hrest : wf rest).
  { assert (Hd : wf (drop (2 + Z.to_nat (getint nk) + Z.to_nat (getint ns)) full)) by (by apply Forall_drop).
    rewrite Ed in Hd. by inversion Hd. }
  destruct (_ =? _); [destruct ok|]; cbn [good pass set_error]; [split_and!; done|done|].
  split_and!; [|done|done]. constructor; [apply bool_val_ok|done].
Qed.

Lemma eval_switch_ok script fExec opcode s :
  eval_inv s -> good (eval_switch CheckLowS flags script fExec opcode s) eval_inv.
Proof.
  intros Hs. pose proof Hs as (Hst & Halt & Hn). unfold eval_switch.
  destruct (_ || _); [split_and!; try done; constructor; [apply num_serialize_ok|done]|].
  destruct (_ =? _); [done|].
  destruct (_ =? _); [by apply on_stack_ok, op_checklocktimeverify_ok|].
  destruct (_ =? _); [by apply on_stack_ok, op_checkblockatheight_ok|].
  destruct (_ || _ || _); [by eapply good_then; [apply good_require|]|].
  destruct (_ || _).
  { unfold op_if. destruct fExec; [|done]. destruct (stack s) as [|x st]; [done|].
    apply list.Forall_cons in Hst as [_ Hst]. done. }
  destruct (_ =? _); [unfold op_else; by destruct (vfExec s)|].
  destruct (_ =? _); [unfold op_endif; by destruct (vfExec s)|].
  destruct (_ =? _); [by apply on_stack_ok, op_verify_ok|].
  destruct (_ =? _); [done|].
  destruct (_ =? _).
  { unfold op_toaltstack. destruct (stack s) as [|x st]; [done|]. apply list.Forall_cons in Hst as [Hx Hst].
    split_and!; [done|by constructor|done]. }
  destruct (_ =? _).
  { unfold op_fromaltstack. destruct (altstack s) as [|x st]; [done|]. apply list.Forall_cons in Halt as [Hx Halt].
    split_and!; [by constructor|done|done]. }
  destruct (in_range _ _ _); [by apply on_stack_ok, op_stack1_ok|].
  destruct (_ || _); [by apply on_stack_ok, op_pick_roll_ok|].
  destruct (_ || _); [by apply on_stack_ok, op_stack2_ok|].
  destruct (_ || _); [by apply on_stack_ok, op_equal_ok|].
  destruct (in_range OP_1ADD OP_1SUB opcode || in_range OP_NEGATE OP_0NOTEQUAL opcode) eqn:E1; [by apply on_stack_ok, op_numeric1_ok|].
  destruct (in_range OP_ADD OP_SUB opcode || in_range OP_BOOLAND OP_MAX opcode) eqn:E2; [by apply on_stack_ok, op_numeric2_ok|].
  clear E1 E2. destruct (_ =? _); [by apply on_stack_ok, op_within_ok|].
  destruct (in_range _ _ _); [by apply on_stack_ok, op_hash_ok|].
  destruct (_ || _); [by apply on_stack_ok, op_checksig_ok|].
  destruct (_ || _); [by apply op_checkmultisig_ok|done].
Qed.

Lemma eval_op_ok script s opcode data :
  eval_inv s -> Forall is_byte data ->
  good (eval_op CheckLowS flags script s opcode data)
    (fun s' => eval_inv s' /\ vsize (stack s') + vsize (altstack s') <= 1000).
Proof.
  intros (Hst & Halt & Hn) Hdata. unfold eval_op. cbv zeta.
  eapply good_then; [apply good_require|]. intros ? Hsize. cbv beta in Hsize.
  set (s1 := if _ <? opcode then _ else s).
  eapply good_then; [apply good_require|]. intros ? Hcount. cbv beta in Hcount.
  assert (Hs1 : eval_inv s1).
  { subst s1. destruct (Z.ltb_spec OP_16 opcode); [|done]. simpl in Hcount. zbool. by split_and!. }
  clearbody s1. clear Hcount. eapply good_then; [apply good_require|]. intros _ _.
  apply (good_then _ _ eval_inv).
  2:{ intros s2 Hs2. eapply good_then; [apply good_require|]. intros ? Htot. cbv beta in Htot. zbool. by split. }
  destruct (_ && _).
  { eapply good_then; [apply good_require|]. intros _ _. destruct Hs1 as (H1 & H2 & H3).
    split_and!; try done. constructor; [|done]. zbool. split; [done|lia]. }
  destruct (_ || _); [by apply eval_switch_ok|done].
Qed.
End Safety.

Lemma GetOp2_bytes pc opcode data pc' :
  GetOp2 pc = Some (opcode, data, pc') -> Forall is_byte pc -> Forall is_byte data /\ Forall is_byte pc'.
Proof.
  destruct pc as [|b pc1]; [done|]. cbn [GetOp2]. intros HG [_ Hpc]%list.Forall_cons. revert HG.
  destruct (b <=? OP_PUSHDATA4); [|by intros [= <- <- <-]].
  set (sp := if b <? OP_PUSHDATA1 then _ else _).
  assert (Hsp : forall n p, sp = Some (n, p) -> Forall is_byte p).
  { subst sp. intros n p. repeat case_match; intros [= <- <-]; try done; by apply Forall_drop. }
  destruct sp as [[n p]|]; [|done]. specialize (Hsp n p eq_refl).
  case_match; [done|]. intros [= <- <- <-]. split; [by apply Forall_take|by apply Forall_drop].
Qed.

Section Evaluation.
  Context (CheckLowS : bytes -> bool) {checker : BaseSignatureChecker} (flags : Z).

Lemma eval_loop_ok script pc s :
  Forall is_byte pc -> eval_inv s -> vsize (stack s) + vsize (altstack s) <= 1000 ->
  good (for_ops (eval_body CheckLowS flags script) eval_bad eval_end pc s)
    (fun st => Forall elem_ok st /\ vsize st <= 1000).
Proof.
  set (P := fun (pc : bytes) (s : EvalState) (r : outcome (list valtype)) =>
    Forall is_byte pc -> eval_inv s -> vsize (stack s) + vsize (altstack s) <= 1000 ->
    good r (fun st => Forall elem_ok st /\ vsize st <= 1000)).
  apply (for_ops_ind (eval_body CheckLowS flags script) eval_bad eval_end P); unfold P; clear P pc s.
  - intros s _ (Hst & _) Hsz. unfold eval_end. pose proof (vsize_nonneg (altstack s)).
    destruct (vfExec s); [|done]. split; [done|lia].
  - done.
  - intros pc s opcode data pc' r HG Hb Hpc Hs _. destruct (GetOp2_bytes _ _ _ _ HG Hpc) as [Hd _].
    pose proof (eval_op_ok CheckLowS flags script s opcode data Hs Hd) as Hop. unfold eval_body in Hb.
    destruct (eval_op _ _ _ _ _ _) as [[e|s']|[]]; simplify_eq; done.
  - intros pc s opcode data pc' s' r HG Hb IH Hpc Hs _. destruct (GetOp2_bytes _ _ _ _ HG Hpc) as [Hd Hpc'].
    pose proof (eval_op_ok CheckLowS flags script s opcode data Hs Hd) as Hop. unfold eval_body in Hb.
    destruct (eval_op _ _ _ _ _ _) as [[e|s2]|[]]; simplify_eq. destruct Hop. by apply IH.
Qed.

Lemma EvalScript_ok st script :
  Forall is_byte script -> Forall elem_ok st -> vsize st <= 1000 ->
  exists r, EvalScript CheckLowS flags st script = Ok r
    /\ forall st', r = inr st' -> Forall elem_ok st' /\ vsize st' <= 1000.
Proof.
  intros Hby Hst Hsz. unfold EvalScript. destruct (_ <? _); [by eexists|].
  pose proof (eval_loop_ok script script (mkEval st [] [] 0) Hby) as Hgood.
  destruct (for_ops _ _ _ _ _) as [[e|st']|[]]; cbn [catch_all].
  - by eexists.
  - eexists. split; [done|]. intros ? [= <-]. apply Hgood; [|cbn; change (vsize (@nil valtype)) with 0; lia].
    split_and!; [done|constructor|simpl; lia].
  - exfalso. apply Hgood; [|cbn; change (vsize (@nil valtype)) with 0; lia].
    split_and!; [done|constructor|simpl; lia].
  - by eexists.
Qed.
End Evaluation.

(** ** Stepping through a script *)
Section Steps.
  Context (CheckLowS : bytes -> bool) {checker : BaseSignatureChecker} (flags : Z).
  Local Notation loop script := (for_ops (eval_body CheckLowS flags script) eval_bad eval_end).

  (** an executed opcode that is not a push *)
Lemma eval_op_exec script st alt n opcode :
  OP_16 < opcode -> n < 201 -> disabled opcode = false ->
  eval_op CheckLowS flags script (mkEval st alt [] n) opcode []
  = (let? s2 := eval_switch CheckLowS flags script true opcode (mkEval st alt [] (n + 1)) in
     let? _ := require (negb (1000 <? vsize (stack s2) + vsize (altstack s2))) SCRIPT_ERR_STACK_SIZE in
     pass s2).
Proof.
  intros Hop Hn Hdis. unfold eval_op, in_range, OP_PUSHDATA4. cbn [vfExec forallb]. cbv zeta.
  change (negb (MAX_SCRIPT_ELEMENT_SIZE <? vsize [])) with true. cbn [require then_ pass].
  destruct (Z.ltb_spec OP_16 opcode); [|lia]. cbn [nOpCount stack altstack vfExec andb].
  destruct (Z.ltb_spec 201 (n + 1)); [lia|]. rewrite Hdis. cbn [negb require then_ pass].
  destruct (Z.leb_spec opcode 0x4e); [lia|]. rewrite andb_false_r. done.
Qed.

Lemma loop_op script opcode rest st n st' :
  OP_16 < opcode -> n < 201 -> disabled opcode = false ->
  eval_switch CheckLowS flags script true opcode (mkEval st [] [] (n + 1)) = pass (mkEval st' [] [] (n + 1)) ->
  vsize st' <= 1000 ->
  loop script (opcode :: rest) (mkEval st [] [] n) = loop script rest (mkEval st' [] [] (n + 1)).
Proof.
  intros Hop Hn Hdis Hsw Hsz. rewrite (for_ops_step _ _ _ _ _ opcode [] rest).
  2:{ apply GetOp2_op. unfold OP_PUSHDATA4. lia. }
  unfold eval_body at 1. rewrite eval_op_exec, Hsw by done. cbn [then_ pass stack altstack].
  change (vsize (@nil valtype)) with 0. destruct (Z.ltb_spec 1000 (vsize st' + 0)); [lia|done].
Qed.

Lemma loop_op_fail script opcode rest st n e :
  OP_16 < opcode -> n < 201 -> disabled opcode = false ->
  eval_switch CheckLowS flags script true opcode (mkEval st [] [] (n + 1)) = Ok (inl e) ->
  loop script (opcode :: rest) (mkEval st [] [] n) = Ok (inl e).
Proof.
  intros Hop Hn Hdis Hsw. rewrite (for_ops_step _ _ _ _ _ opcode [] rest).
  2:{ apply GetOp2_op. unfold OP_PUSHDATA4. lia. }
  unfold eval_body at 1. by rewrite eval_op_exec, Hsw by done.
Qed.

Lemma loop_op_over script opcode rest st n st' :
  OP_16 < opcode -> n < 201 -> disabled opcode = false ->
  eval_switch CheckLowS flags script true opcode (mkEval st [] [] (n + 1)) = pass (mkEval st' [] [] (n + 1)) ->
  1000 < vsize st' ->
  loop script (opcode :: rest) (mkEval st [] [] n) = set_error SCRIPT_ERR_STACK_SIZE.
Proof.
  intros Hop Hn Hdis Hsw Hsz. rewrite (for_ops_step _ _ _ _ _ opcode [] rest).
  2:{ apply GetOp2_op. unfold OP_PUSHDATA4. lia. }
  unfold eval_body at 1. rewrite eval_op_exec, Hsw by done. cbn [then_ pass stack altstack].
  change (vsize (@nil valtype)) with 0. destruct (Z.ltb_spec 1000 (vsize st' + 0)); [done|lia].
Qed.

  (** a vector that [operator<<] pushes in a form the flags accept *)
Definition pushable (data : valtype) : Prop :=
  vsize data <= MAX_SCRIPT_ELEMENT_SIZE
  /\ (fRequireMinimal flags = true -> CheckMinimalPush data (push_op data) = true).

Lemma push_op_range data : vsize data <= MAX_SCRIPT_ELEMENT_SIZE -> 0 <= push_op data <= OP_PUSHDATA4.
Proof.
  unfold push_op, OP_PUSHDATA1, OP_PUSHDATA2, OP_PUSHDATA4. pose proof (vsize_nonneg data). zcases; lia.
Qed.

Lemma loop_push_exact script data rest st n :
  pushable data -> vsize rest < 2 ^ 31 ->
  loop script (push_data [] data ++ rest) (mkEval st [] [] n)
  = if vsize st <? 1000 then loop script rest (mkEval (data :: st) [] [] n) else set_error SCRIPT_ERR_STACK_SIZE.
Proof.
  intros [Hsz Hmin] Hrest. unfold MAX_SCRIPT_ELEMENT_SIZE in Hsz.
  rewrite (for_ops_step _ _ _ _ _ (push_op data) data rest) by (apply GetOp2_push; lia).
  pose proof (push_op_range data Hsz) as Hop. unfold OP_PUSHDATA4 in Hop.
  unfold eval_body at 1, eval_op, in_range, disabled, in_range, MAX_SCRIPT_ELEMENT_SIZE, OP_PUSHDATA4. cbn [vfExec forallb]. cbv zeta.
  assert (Hd : forall a, 0x60 < a -> (a <=? push_op data) = false) by (intros; apply Z.leb_gt; lia).
  destruct (Z.ltb_spec 520 (vsize data)); [lia|]. cbn [negb require then_ pass].
  destruct (Z.ltb_spec OP_16 (push_op data)); [lia|]. cbn [andb negb require then_ pass].
  rewrite !Hd by lia. cbn [andb orb]. destruct (Z.eqb_spec (push_op data) OP_CODESEPARATOR); [lia|].
  cbn [negb require then_ pass]. destruct (Z.leb_spec 0 (push_op data)); [|lia].
  destruct (Z.leb_spec (push_op data) 0x4e); [|lia]. cbn [andb].
  replace (negb (fRequireMinimal flags && negb (CheckMinimalPush data (push_op data)))) with true.
  2:{ destruct (fRequireMinimal flags); [|done]. by rewrite Hmin. }
  cbn [require then_ pass with_stack stack altstack].
  replace (1000 <? vsize (data :: st) + vsize []) with (negb (vsize st <? 1000)); [by destruct (vsize st <? 1000)|].
  unfold vsize. simpl length. zcases; cbn [negb]; lia || done.
Qed.

Lemma loop_push script data rest st n :
  pushable data -> vsize rest < 2 ^ 31 -> vsize st < 1000 ->
  loop script (push_data [] data ++ rest) (mkEval st [] [] n) = loop script rest (mkEval (data :: st) [] [] n).
Proof. intros Hd Hrest Hst. rewrite loop_push_exact by done. by destruct (Z.ltb_spec (vsize st) 1000); [|lia]. Qed.

Lemma loop_end script st n : loop script [] (mkEval st [] [] n) = pass st.
Proof. done. Qed.

Lemma EvalScript_small st script :
  vsize script <= MAX_SCRIPT_SIZE ->
  EvalScript CheckLowS flags st script = catch_all (loop script script (mkEval st [] [] 0)).
Proof. intros Hs. unfold EvalScript. by destruct (Z.ltb_spec MAX_SCRIPT_SIZE (vsize script)); [lia|]. Qed.

  (** A script whose first instruction fails does not pass. *)
Lemma EvalScript_first_fails st opcode rest e :
  OP_16 < opcode -> disabled opcode = false ->
  eval_switch CheckLowS flags (opcode :: rest) true opcode (mkEval st [] [] 1) = Ok (inl e) ->
  forall st', EvalScript CheckLowS flags st (opcode :: rest) <> pass st'.
Proof.
  intros Hop Hdis Hsw st'. unfold EvalScript. destruct (_ <? _); [done|].
  by rewrite (loop_op_fail _ _ _ _ 0 e) by (done || lia).
Qed.

Lemma P2SH_first script : IsPayToScriptHash script = true -> exists rest, script = OP_HASH160 :: rest.
Proof.
  unfold IsPayToScriptHash. intros [H|H]%orb_true_iff; zbool; destruct script as [|b rest]; try done;
    exists rest; f_equal; done.
Qed.

Lemma P2SH_stack_not_empty script st : IsPayToScriptHash script = true ->
  EvalScript CheckLowS flags [] script <> pass st.
Proof.
  intros [rest ->]%P2SH_first. eapply EvalScript_first_fails; [done..|]. reflexivity.
Qed.

Lemma then_total {A B} (m : outcome A) (k : A -> outcome B) (P : A -> Prop) :
  (exists r, m = Ok r /\ forall a, r = inr a -> P a) ->
  (forall a, P a -> m = pass a -> exists r, k a = Ok r) -> exists r, then_ m k = Ok r.
Proof. intros ([e|a] & -> & Hr) Hk; simpl; [by eexists|]. apply Hk; [by apply Hr|done]. Qed.

Lemma require_total b e : exists r, require b e = Ok r /\ forall a, r = inr a -> True.
Proof. destruct b; by eexists. Qed.

(** C7: [VerifyScript] always returns: on any two scripts and any signature checker no [assert] of
    the interpreter, of [CScriptNum] or of the P2SH evaluation fails and no exception
    leaves it, as long as [CLEANSTACK] is only used together with [P2SH]. *)
Theorem VerifyScript_total (scriptSig scriptPubKey : CScript) :
  Forall is_byte scriptSig -> Forall is_byte scriptPubKey ->
  (has_flag flags SCRIPT_VERIFY_CLEANSTACK = true -> has_flag flags SCRIPT_VERIFY_P2SH = true) ->
  exists r, VerifyScript CheckLowS flags scriptSig scriptPubKey = Ok r.
Proof.
  intros Hsig Hpub Hclean. unfold VerifyScript.
  eapply then_total; [apply require_total|]. intros _ _ _.
  eapply then_total; [apply EvalScript_ok; [done|constructor|vm_compute; done]|]. intros copy [Hcopy Hcsz] Ecopy.
  eapply then_total; [by apply EvalScript_ok|]. intros st _ Est.
  apply (then_total _ _ (fun _ => True)); [destruct st; [by eexists|apply require_total]|]. intros _ _ _.
  apply (then_total _ _ (fun _ => True)).
  - destruct (has_flag flags 1 && IsPayToScriptHash scriptPubKey) eqn:Ep; [|by eexists].
    apply andb_true_iff in Ep as [_ Ep]. destruct (IsPushOnly scriptSig); [|by eexists]. cbn [require then_ pass].
    destruct copy as [|pk rest]; [by apply P2SH_stack_not_empty in Est|].
    apply list.Forall_cons in Hcopy as [[Hpk _] Hrest].
    assert (Hr : vsize rest <= 1000) by (unfold vsize in *; simpl in Hcsz; lia).
    destruct (EvalScript_ok CheckLowS flags rest pk Hpk Hrest Hr) as ([e|st2] & -> & _); cbn [then_]; [by eexists|].
    destruct st2 as [|x st2]; [by eexists|]. unfold top_true. destruct (CastToBool x); by eexists.
  - intros st2 _ _. destruct (has_flag flags 256); [|by eexists]. rewrite Hclean by done. cbn [negb].
    destruct (vsize st2 =? 1); by eexists.
Qed.

(** C32: an evaluation that passes leaves at most 1000 elements on the stack, each a byte vector of
    at most 520 bytes, when it started from such a stack; and evaluation always
    returns. *)
Theorem EvalScript_limits (st : list valtype) (script : CScript) :
  Forall is_byte script -> Forall elem_ok st -> vsize st <= 1000 ->
  exists r, EvalScript CheckLowS flags st script = Ok r
    /\ forall st', r = inr st' -> Forall elem_ok st' /\ vsize st' <= 1000.
Proof. apply EvalScript_ok. Qed.

(** C34: a script that [IsUnspendable] reports can be dropped from the set of unspent outputs: no
    input script, flags and signatures make [VerifyScript] accept it. *)
Theorem unspendable_sound (scriptSig scriptPubKey : CScript) :
  IsUnspendable scriptPubKey = true -> VerifyScript CheckLowS flags scriptSig scriptPubKey <> pass tt.
Proof.
  intros Hun. assert (Hev : forall st st', EvalScript CheckLowS flags st scriptPubKey <> pass st').
  { intros st st'. unfold IsUnspendable in Hun. apply orb_true_iff in Hun as [Hun|Hun].
    - destruct scriptPubKey as [|b rest]; [done|]. apply Z.eqb_eq in Hun as ->.
      eapply EvalScript_first_fails; [done..|]. reflexivity.
    - unfold EvalScript. by rewrite Hun. }
  unfold VerifyScript, pass. intros H. repeat (apply then_ok in H as (? & ? & H)).
  by eapply Hev.
Qed.
End Steps.

(** A checker that accepts one signature; for the witnesses. *)
Definition sample_checker : BaseSignatureChecker :=
  Build_BaseSignatureChecker (fun sig key _ => bool_decide (sig = [0x30; 1]) && bool_decide (key = [2; 7]))
    (fun n => n <=? 100) (fun h _ => h <=? 500).

Lemma VerifyScript_total_witness :
  (Forall is_byte [OP_1] /\ Forall is_byte [OP_NOT]
   /\ (has_flag 257 SCRIPT_VERIFY_CLEANSTACK = true -> has_flag 257 SCRIPT_VERIFY_P2SH = true))
  /\ exists r, @VerifyScript (fun _ => true) sample_checker 257 [OP_1] [OP_NOT] = Ok r.
Proof.
  split; [split; [repeat constructor; lia|split; [repeat constructor; lia|done]]|].
  apply (@VerifyScript_total (fun _ => true) sample_checker 257 [OP_1] [OP_NOT]);
    [repeat constructor; lia|repeat constructor; lia|done].
Defined.

Lemma EvalScript_limits_witness :
  (Forall is_byte [OP_DUP] /\ Forall elem_ok [[7]] /\ vsize [[7]] <= 1000)
  /\ exists r, @EvalScript (fun _ => true) sample_checker 0 [[7]] [OP_DUP] = Ok r
    /\ forall st', r = inr st' -> Forall elem_ok st' /\ vsize st' <= 1000.
Proof.
  assert (He : Forall elem_ok [[7]]) by (constructor; [split; [repeat constructor; lia|vm_compute; done]|constructor]).
  split; [split; [repeat constructor; vm_compute; done|split; [exact He|vm_compute; done]]|].
  apply (@EvalScript_limits (fun _ => true) sample_checker 0 [[7]] [OP_DUP]);
    [repeat constructor; vm_compute; done|exact He|vm_compute; done].
Defined.

Lemma unspendable_sound_witness :
  IsUnspendable [OP_RETURN; OP_1] = true
  /\ @VerifyScript (fun _ => true) sample_checker 0 [OP_1] [OP_RETURN; OP_1] <> pass tt.
Proof.
  split; [done|]. apply (@unspendable_sound (fun _ => true) sample_checker 0 [OP_1] [OP_RETURN; OP_1]). done.
Defined.
