(* ===== verification/Standard.v ===== *)
(** * Standard scripts and destinations

    [script/standard.cpp] (the template matcher [Solver] with the checks of the
    replay-protection data, destinations and the scripts that pay them) and the
    signature checkers of [script/interpreter.cpp], whose signature hash and
    secp256k1 verification are parameters. *)

From stdpp Require Import base numbers list strings option.
From Stdlib Require Import ZArith Lia.
From S2P Require Import Prelude.
From S2P Require Import Serialize.
From S2P Require Import ScTypes.
From S2P Require Import Primitives.
From S2P Require Import Forks.
From S2P Require Import Compress.
From S2P Require Import Script.
From S2P Require Import Crypto.
From S2P Require Import Interpreter.
Open Scope Z_scope.
Open Scope zen_scope.

Abbreviation OP_SMALLDATA := 0xf9 (only parsing).
Abbreviation OP_SMALLINTEGER := 0xfa (only parsing).
Abbreviation OP_PUBKEYS := 0xfb (only parsing).
Abbreviation OP_PUBKEYHASH := 0xfd (only parsing).
Abbreviation OP_PUBKEY := 0xfe (only parsing).

(** ** Chain and settings

    What the code reads of [chainActive] (the hashes of its blocks, by height),
    of the chain parameters and of the command line. *)
Record ScriptEnv := mkEnv {
  env_net : Network;
  env_chain : list uint256;
  env_safeDepth : Z;
  env_datacarrier : bool;
  nMaxDatacarrierBytes : Z }.

Definition env_Height (chain : list uint256) : Z := vsize chain - 1.

(** the bytes of a hash, [hash.begin()] to [hash.end()] *)
Definition hash_bytes (h : uint256) : bytes := rev (le_split 32 h).

(** ** Replay protection *)
Definition CheckReplayProtectionData (safeDepth : Z) (chain : option (list uint256)) (nHeight : Z)
    (vchCompareTo : bytes) : bool :=
  match chain with
  | None => false
  | Some c =>
      if env_Height c <? nHeight then false
      else if nHeight <=? env_Height c - safeDepth then true
      else
        match c !! Z.to_nat nHeight with
        | None => false
        | Some blockHash =>
            let vchBlockHash := hash_bytes blockHash in
            if bool_decide (vchBlockHash = []) || bool_decide (vchCompareTo = []) then false
            else bool_decide (vchCompareTo = vchBlockHash)
        end
  end.

Record ReplayProtectionAttributes := mkRpa {
  referencedHeight : Z;
  referencedHash : bytes;
  foundOpCode : bool }.

Definition Rpa_SetNull : ReplayProtectionAttributes := mkRpa (- 2 ^ 31) [] false.

Definition Rpa_GotValues (a : ReplayProtectionAttributes) : bool :=
  negb (referencedHeight a =? - 2 ^ 31) && negb (bool_decide (referencedHash a = [])).

(** ** Templates, in the order of the multimap *)
Definition templates (env : ScriptEnv) : list (txnouttype * CScript) :=
  let rp := [OP_SMALLDATA; OP_SMALLDATA; OP_CHECKBLOCKATHEIGHT] in
  [(TX_PUBKEY, [OP_PUBKEY; OP_CHECKSIG]);
   (TX_PUBKEYHASH, [OP_DUP; OP_HASH160; OP_PUBKEYHASH; OP_EQUALVERIFY; OP_CHECKSIG]);
   (TX_SCRIPTHASH, [OP_HASH160; OP_PUBKEYHASH; OP_EQUAL]);
   (TX_SCRIPTHASH_REPLAY, [OP_HASH160; OP_PUBKEYHASH; OP_EQUAL] ++ rp);
   (TX_MULTISIG, [OP_SMALLINTEGER; OP_PUBKEYS; OP_SMALLINTEGER; OP_CHECKMULTISIG])]
  ++ (if env_datacarrier env then [(TX_NULL_DATA, [OP_RETURN; OP_SMALLDATA])] else [])
  ++ [(TX_NULL_DATA, [OP_RETURN]);
      (TX_PUBKEY_REPLAY, [OP_PUBKEY; OP_CHECKSIG] ++ rp);
      (TX_PUBKEYHASH_REPLAY, [OP_DUP; OP_HASH160; OP_PUBKEYHASH; OP_EQUALVERIFY; OP_CHECKSIG] ++ rp);
      (TX_MULTISIG_REPLAY, [OP_SMALLINTEGER; OP_PUBKEYS; OP_SMALLINTEGER; OP_CHECKMULTISIG] ++ rp)]
  ++ (if env_datacarrier env then [(TX_NULL_DATA_REPLAY, [OP_RETURN; OP_SMALLDATA] ++ rp)] else [])
  ++ [(TX_NULL_DATA_REPLAY, [OP_RETURN] ++ rp)].

(** the locals of the comparison with one template *)
Record MatchState := mkMatch {
  ms_solutions : list bytes;
  ms_blockHash : bytes;
  ms_blockHeight : bytes;
  ms_params : list (bytes * Z) }.

Definition push_solution (m : MatchState) (v : bytes) : MatchState :=
  mkMatch (ms_solutions m ++ [v]) (ms_blockHash m) (ms_blockHeight m) (ms_params m).

(** [GetOp] as the matcher calls it: a failure leaves an invalid opcode and no data *)
Definition next_op (pc : bytes) : Z * bytes * bytes :=
  match GetOp2 pc with Some r => r | None => (OP_INVALIDOPCODE, [], []) end.

(** the loop of [OP_PUBKEYS]: the keys, then the instruction that is not one *)
Fixpoint match_pubkeys (fuel : nat) (opcode1 : Z) (vch1 pc1 : bytes) (sols : list bytes)
    : Z * bytes * bytes * list bytes :=
  match fuel with
  | O => (opcode1, vch1, pc1, sols)
  | S fuel' =>
      if (33 <=? vsize vch1) && (vsize vch1 <=? 65) then
        let '(op, v, pc) := next_op pc1 in
        match_pubkeys fuel' op v pc (sols ++ [vch1])
      else (opcode1, vch1, pc1, sols)
  end.

Section Solver.
  Context (env : ScriptEnv).

Definition rpLevel : ReplayProtectionLevel := getReplayProtectionLevel (env_net env) (env_Height (env_chain env)).

Definition before_fix2 : bool := bool_decide (rpLevel <> RPLEVEL_FIXED_2).

  (** an argument of the replay-protection opcode; [None] is a mismatch *)
Definition match_smalldata (m : MatchState) (opcode1 : Z) (vch1 : bytes) : option MatchState :=
  if before_fix2 then
    if vsize vch1 <=? 4 then
      let h := if (vsize vch1 =? 0) && in_range OP_1 OP_16 opcode1 then [opcode1 - OP_1 + 1] else vch1 in
      Some (mkMatch (ms_solutions m) (ms_blockHash m) h (ms_params m))
    else Some (mkMatch (ms_solutions m) vch1 (ms_blockHeight m) (ms_params m))
  else
    let add v := Some (mkMatch (ms_solutions m) (ms_blockHash m) (ms_blockHeight m) (ms_params m ++ [(v, opcode1)])) in
    if vsize vch1 =? 0 then
      if in_range OP_1 OP_16 opcode1 || (opcode1 =? OP_1NEGATE) then add (num_serialize (opcode1 - (OP_1 - 1)))
      else if opcode1 =? OP_0 then add (num_serialize opcode1)
      else None
    else add vch1.

  (** the checks at the replay-protection opcode before the second fix *)
Definition check_rp_old (m : MatchState) : option (Z * bytes) :=
  let nChActHeight := env_Height (env_chain env) in
  if negb (vsize (ms_blockHash m) =? 32) then None
  else
    match CScriptNum_of (ms_blockHeight m) false 4 with
    | Err _ => None
    | Ok bn =>
        let nHeight := getint bn in
        if ((nHeight <? 0) || (nChActHeight <? nHeight)) && bool_decide (rpLevel = RPLEVEL_FIXED_1) then None
        else if (nChActHeight - env_safeDepth env <? nHeight) && (0 <=? nHeight) && (nHeight <=? nChActHeight)
             && negb (bool_decide (env_chain env !! Z.to_nat nHeight = Some (le_combine (rev (ms_blockHash m)))))
        then None
        else Some (nHeight, ms_blockHash m)
    end.

  (** and since the second fix *)
Definition check_rp_new (m : MatchState) : option (Z * bytes) :=
  let nChActHeight := env_Height (env_chain env) in
  match rev (ms_params m) with
  | (vchBlockHeight, hopcode) :: (vchBlockHash, _) :: _ =>
      if (4 <? vsize vchBlockHeight) || negb (vsize vchBlockHash =? 32) then None
      else
        match CScriptNum_of vchBlockHeight true 4 with
        | Err _ => None
        | Ok bn =>
            let nHeight := getint bn in
            if negb (CheckMinimalPush vchBlockHeight hopcode) then None
            else if (nHeight <? 0) || (nChActHeight <? nHeight) then None
            else if negb (CheckReplayProtectionData (env_safeDepth env) (Some (env_chain env)) nHeight vchBlockHash)
            then None
            else Some (nHeight, vchBlockHash)
        end
  | _ => None
  end.

  (** One instruction of the script against one of the template, after
      [OP_PUBKEYS]; the attributes are those of the whole call. *)
Definition match_op (m : MatchState) (rpa : ReplayProtectionAttributes) (opcode1 : Z) (vch1 : bytes)
    (opcode2 : Z) (vch2 : bytes) : option MatchState * ReplayProtectionAttributes :=
  let same := (opcode1 =? opcode2) && bool_decide (vch1 = vch2) in
  if opcode2 =? OP_PUBKEY then
    (if (vsize vch1 <? 33) || (65 <? vsize vch1) then None else Some (push_solution m vch1), rpa)
  else if opcode2 =? OP_PUBKEYHASH then
    (if negb (vsize vch1 =? 20) then None else Some (push_solution m vch1), rpa)
  else if opcode2 =? OP_SMALLINTEGER then
    (if (opcode1 =? OP_0) || in_range OP_1 OP_16 opcode1 then
       match DecodeOP_N opcode1 with
       | Ok n => Some (push_solution m [n])
       | Err _ => None
       end
     else None, rpa)
  else if opcode2 =? OP_SMALLDATA then
    (match match_smalldata m opcode1 vch1 with
     | Some m' => if nMaxDatacarrierBytes env <? vsize vch1 then None else Some m'
     | None => None
     end, rpa)
  else if opcode2 =? OP_CHECKBLOCKATHEIGHT then
    let found := mkRpa (referencedHeight rpa) (referencedHash rpa) true in
    match (if before_fix2 then check_rp_old m else check_rp_new m) with
    | None => (None, found)
    | Some (h, hash) => (if same then Some m else None, mkRpa h hash true)
    end
  else (if same then Some m else None, rpa).

  (** The comparison with a template: [Some] the solutions if it matches.  Every
      round but the last reads an instruction of the template. *)
Fixpoint match_template (fuel : nat) (pc1 pc2 : bytes) (m : MatchState) (rpa : ReplayProtectionAttributes)
    : option (list bytes) * ReplayProtectionAttributes :=
  match fuel with
  | O => (None, rpa)
  | S fuel' =>
      match pc1, pc2 with
      | [], [] => (Some (ms_solutions m), rpa)
      | _, _ =>
          match GetOp2 pc1, GetOp2 pc2 with
          | Some (opcode1, vch1, pc1'), Some (opcode2, vch2, pc2') =>
              if opcode2 =? OP_PUBKEYS then
                let '(o1, v1, p1, sols) := match_pubkeys (S (length pc1)) opcode1 vch1 pc1' (ms_solutions m) in
                match GetOp2 pc2' with
                | None => (None, rpa)
                | Some (o2, v2, p2) =>
                    let m' := mkMatch sols (ms_blockHash m) (ms_blockHeight m) (ms_params m) in
                    match match_op m' rpa o1 v1 o2 v2 with
                    | (Some m2, rpa') => match_template fuel' p1 p2 m2 rpa'
                    | (None, rpa') => (None, rpa')
                    end
                end
              else
                match match_op m rpa opcode1 vch1 opcode2 vch2 with
                | (Some m2, rpa') => match_template fuel' pc1' pc2' m2 rpa'
                | (None, rpa') => (None, rpa')
                end
          | _, _ => (None, rpa)
          end
      end
  end.

  (** the additional checks of a matched template: the result and the solutions *)
Definition finish_match (scriptPubKey : CScript) (t : txnouttype) (sols : list bytes) : bool * list bytes :=
  match t with
  | TX_MULTISIG | TX_MULTISIG_REPLAY =>
      let m := at_ (nth 0 sols []) 0 in
      let n := at_ (nth (pred (length sols)) sols []) 0 in
      (negb ((m <? 1) || (n <? 1) || (n <? m) || negb (to_u64 (vsize sols - 2) =? n)), sols)
  | TX_SCRIPTHASH | TX_SCRIPTHASH_REPLAY => (true, sols ++ [slice scriptPubKey 2 20])
  | _ => (true, sols)
  end.

Fixpoint solve (scriptPubKey : CScript) (ts : list (txnouttype * CScript)) (rpa : ReplayProtectionAttributes)
    : bool * txnouttype * list bytes * ReplayProtectionAttributes :=
  match ts with
  | [] => (false, TX_NONSTANDARD, [], rpa)
  | (t, tpl) :: ts' =>
      match match_template (S (length tpl)) scriptPubKey tpl (mkMatch [] [] [] []) rpa with
      | (Some sols, rpa') =>
          let '(ok, sols') := finish_match scriptPubKey t sols in (ok, t, sols', rpa')
      | (None, rpa') => solve scriptPubKey ts' rpa'
      end
  end.

  (** the returned flag, [typeRet], [vSolutionsRet] and [rpAttributes] *)
Definition Solver (scriptPubKey : CScript) : bool * txnouttype * list bytes * ReplayProtectionAttributes :=
  solve scriptPubKey (templates env) Rpa_SetNull.

Definition CheckReplayProtectionAttributes (scriptPubKey : CScript) : bool :=
  let '(solverResult, _, _, rpa) := Solver scriptPubKey in
  if negb (foundOpCode rpa) then true else solverResult.

Definition IsStandard (scriptPubKey : CScript) : bool * txnouttype :=
  let '(ok, whichType, vSolutions, _) := Solver scriptPubKey in
  if negb ok then (false, whichType)
  else
    match whichType with
    | TX_MULTISIG | TX_MULTISIG_REPLAY =>
        let m := at_ (nth 0 vSolutions []) 0 in
        let n := at_ (nth (pred (length vSolutions)) vSolutions []) 0 in
        if (n <? 1) || (3 <? n) then (false, whichType)
        else if (m <? 1) || (n <? m) then (false, whichType)
        else (true, whichType)
    | TX_NONSTANDARD => (false, whichType)
    | _ => (true, whichType)
    end.
End Solver.

Definition ScriptSigArgsExpected (t : txnouttype) (vSolutions : list bytes) : Z :=
  match t with
  | TX_NONSTANDARD | TX_NULL_DATA | TX_NULL_DATA_REPLAY => -1
  | TX_PUBKEY | TX_PUBKEY_REPLAY => 1
  | TX_PUBKEYHASH | TX_PUBKEYHASH_REPLAY => 2
  | TX_MULTISIG | TX_MULTISIG_REPLAY =>
      match vSolutions with
      | (m :: _) :: _ => m + 1
      | _ => -1
      end
  | TX_SCRIPTHASH | TX_SCRIPTHASH_REPLAY => 1
  end.

(** ** Destinations *)
Inductive CTxDestination :=
| CNoDestination
| CKeyID (h : uint160)
| CScriptID (h : uint160).

#[export] Instance CTxDestination_eq_dec : EqDecision CTxDestination.
Proof. solve_decision. Defined.

Definition ExtractDestination (env : ScriptEnv) (scriptPubKey : CScript) : option CTxDestination :=
  let '(ok, whichType, vSolutions, _) := Solver env scriptPubKey in
  if negb ok then None
  else
    match whichType with
    | TX_PUBKEY | TX_PUBKEY_REPLAY =>
        match PubKey_Set (nth 0 vSolutions []) with
        | [] => None
        | k => Some (CKeyID (Hash160 k))
        end
    | TX_PUBKEYHASH | TX_PUBKEYHASH_REPLAY => Some (CKeyID (nth 0 vSolutions []))
    | TX_SCRIPTHASH | TX_SCRIPTHASH_REPLAY => Some (CScriptID (nth 0 vSolutions []))
    | _ => None
    end.

Definition multisig_addresses (keys : list bytes) : list CTxDestination :=
  flat_map (fun k => match PubKey_Set k with [] => [] | k' => [CKeyID (Hash160 k')] end) keys.

(** the returned flag, [typeRet], [addressRet] and [nRequiredRet] (unset on the
    failures) *)
Definition ExtractDestinations (env : ScriptEnv) (scriptPubKey : CScript)
    : bool * txnouttype * list CTxDestination * option Z :=
  let '(ok, typeRet, vSolutions, _) := Solver env scriptPubKey in
  if negb ok then (false, typeRet, [], None)
  else
    match typeRet with
    | TX_NULL_DATA | TX_NULL_DATA_REPLAY => (false, typeRet, [], None)
    | TX_MULTISIG | TX_MULTISIG_REPLAY =>
        let nRequiredRet := at_ (nth 0 vSolutions []) 0 in
        let addressRet := multisig_addresses (take (length vSolutions - 2) (drop 1 vSolutions)) in
        (negb (bool_decide (addressRet = [])), typeRet, addressRet, Some nRequiredRet)
    | _ =>
        match ExtractDestination env scriptPubKey with
        | None => (false, typeRet, [], Some 1)
        | Some address => (true, typeRet, [address], Some 1)
        end
    end.

Definition CBH_DELTA_HEIGHT : Z := 300.

(** the replay-protection suffix of [CScriptVisitor] *)
Definition with_replay_protection (env : ScriptEnv) (withCheckBlockAtHeight : bool) (script : CScript) : CScript :=
  match env_chain env with
  | [] => script
  | _ =>
      if negb withCheckBlockAtHeight then script
      else
        let d := env_Height (env_chain env) - CBH_DELTA_HEIGHT in
        let blockIndex := if d <? 0 then 0 else d in
        match env_chain env !! Z.to_nat blockIndex with
        | None => script
        | Some h => push_int64 (push_data script (hash_bytes h)) blockIndex ++ [OP_CHECKBLOCKATHEIGHT]
        end
  end.

Definition GetScriptForDestination (env : ScriptEnv) (dest : CTxDestination) (withCheckBlockAtHeight : bool) : CScript :=
  match dest with
  | CNoDestination => []
  | CKeyID h =>
      with_replay_protection env withCheckBlockAtHeight
        (push_data [OP_DUP; OP_HASH160] h ++ [OP_EQUALVERIFY; OP_CHECKSIG])
  | CScriptID h =>
      with_replay_protection env withCheckBlockAtHeight (push_data [OP_HASH160] h ++ [OP_EQUAL])
  end.

Definition GetScriptForMultisig (nRequired : Z) (keys : list bytes) : res CScript :=
  match EncodeOP_N nRequired, EncodeOP_N (vsize keys) with
  | Ok m, Ok n => Ok (foldl push_data [m] keys ++ [n; OP_CHECKMULTISIG])
  | _, _ => Err AssertFailed
  end.

(** ** The signature checkers *)
Definition LOCKTIME_THRESHOLD : Z := 500000000.

Definition TxIn_IsFinal (i : CTxIn) : bool := nSequence i =? 2 ^ 32 - 1.

Section Checkers.
  (** [SignatureHash], [None] where it throws, and [CPubKey::Verify]. *)
  Context (SignatureHash : CScript -> Z -> option uint256) (Verify : bytes -> uint256 -> bytes -> bool).

Definition Transaction_CheckSig (vchSigIn vchPubKey : valtype) (scriptCode : CScript) : bool :=
  match PubKey_Set vchPubKey with
  | [] => false
  | pubkey =>
      match vchSigIn with
      | [] => false
      | _ =>
          match SignatureHash scriptCode (back vchSigIn) with
          | None => false
          | Some sighash => Verify pubkey sighash (take (pred (length vchSigIn)) vchSigIn)
          end
      end
  end.

Definition Certificate_CheckSig (vchSigIn vchPubKey : valtype) (scriptCode : CScript) : bool :=
  match PubKey_Set vchPubKey with
  | [] => false
  | pubkey =>
      match vchSigIn with
      | [] => false
      | _ =>
          if negb (back vchSigIn =? SIGHASH_ALL) then false
          else
            match SignatureHash scriptCode (back vchSigIn) with
            | None => false
            | Some sighash => Verify pubkey sighash (take (pred (length vchSigIn)) vchSigIn)
            end
      end
  end.

Definition Transaction_CheckLockTime (txLockTime : Z) (vin : list CTxIn) (nIn : nat) (nLockTime : Z) : bool :=
  if negb (((txLockTime <? LOCKTIME_THRESHOLD) && (nLockTime <? LOCKTIME_THRESHOLD))
           || ((LOCKTIME_THRESHOLD <=? txLockTime) && (LOCKTIME_THRESHOLD <=? nLockTime))) then false
  else if txLockTime <? nLockTime then false
  else
    match vin !! nIn with
    | Some i => negb (TxIn_IsFinal i)
    | None => true
    end.

Definition TransactionSignatureChecker (txLockTime : Z) (vin : list CTxIn) (nIn : nat) (safeDepth : Z)
    (chain : option (list uint256)) : BaseSignatureChecker :=
  Build_BaseSignatureChecker Transaction_CheckSig (Transaction_CheckLockTime txLockTime vin nIn)
    (CheckReplayProtectionData safeDepth chain).

Definition CertificateSignatureChecker (safeDepth : Z) (chain : option (list uint256)) : BaseSignatureChecker :=
  Build_BaseSignatureChecker Certificate_CheckSig (fun _ => true) (CheckReplayProtectionData safeDepth chain).
End Checkers.

(** ** Integers in scripts *)
Lemma length_hash_bytes h : length (hash_bytes h) = 32%nat.
Proof. unfold hash_bytes. by rewrite length_rev, length_le_split. Qed.

(** the instruction [push_int64] writes for a height *)
Definition int_op (n : Z) : Z :=
  if n =? 0 then OP_0 else if n <=? 16 then n + (OP_1 - 1) else vsize (num_serialize n).

Definition int_data (n : Z) : bytes := if n <=? 16 then [] else num_serialize n.

Lemma push_int64_app script n rest : push_int64 script n ++ rest = script ++ push_int64 [] n ++ rest.
Proof.
  unfold push_int64. destruct (_ || _); [by rewrite <- app_assoc|].
  destruct (_ =? _); [by rewrite <- app_assoc|apply push_data_app].
Qed.

Lemma push_int64_large n : 16 < n -> push_int64 [] n = push_data [] (num_serialize n).
Proof. intros Hn. unfold push_int64. zcases; simpl; try lia; done. Qed.

Lemma push_int64_small n : 1 <= n <= 16 -> push_int64 [] n = [n + (OP_1 - 1)].
Proof. intros Hn. unfold push_int64. zcases; simpl; try lia; done. Qed.

Lemma height_size n : 0 <= n < 2 ^ 31 -> vsize (num_serialize n) <= 4.
Proof. intros Hn. apply num_serialize_4. lia. Qed.

Lemma GetOp2_int n rest :
  0 <= n < 2 ^ 31 -> vsize rest < 2 ^ 31 ->
  GetOp2 (push_int64 [] n ++ rest) = Some (int_op n, int_data n, rest).
Proof.
  intros Hn Hrest. unfold int_op, int_data. destruct (Z.leb_spec n 16).
  - destruct (Z.eqb_spec n 0) as [->|Hnz].
    + cbn. unfold OP_PUSHDATA4, OP_PUSHDATA1. cbn. rewrite drop_0. unfold to_u32.
      pose proof (vsize_nonneg rest). rewrite Z.mod_small by lia. destruct (Z.ltb_spec (vsize rest) 0); [lia|done].
    + rewrite push_int64_small by lia. cbn [app]. apply GetOp2_op. unfold OP_PUSHDATA4. lia.
  - pose proof (height_size n Hn). destruct (Z.eqb_spec n 0); [lia|]. rewrite push_int64_large by done.
    rewrite GetOp2_push by lia. unfold push_op, OP_PUSHDATA1. destruct (Z.ltb_spec (vsize (num_serialize n)) 0x4c); [done|lia].
Qed.

Lemma serialize_one n b : 0 < n < 2 ^ 31 -> num_serialize n = [b] -> b = n.
Proof.
  intros Hn Hs. pose proof (set_vch_serialize n ltac:(unfold is_i64; lia)) as Hv. rewrite Hs in Hv.
  destruct (num_serialize_ok n) as [Hb _]. rewrite Hs in Hb. pose proof Hb as [Hb1 _]%list.Forall_cons. unfold is_byte in Hb1.
  change [b] with ([] ++ [b]) in Hv, Hb. rewrite set_vch_spec in Hv by (done || (vm_compute; done)).
  rewrite magnitude_snoc in Hv. change (le_combine []) with 0 in Hv. change (2 ^ (8 * vsize [])) with 1 in Hv.
  injection Hv as Hv. destruct (Z.leb_spec 128 b); [pose proof (Z.mod_pos_bound b 128); lia|].
  rewrite Z.mod_small in Hv by lia. lia.
Qed.

Lemma CheckMinimalPush_int n : 0 <= n < 2 ^ 31 -> CheckMinimalPush (num_serialize n) (int_op n) = true.
Proof.
  intros Hn. pose proof (height_size n Hn) as Hsz. unfold int_op, CheckMinimalPush.
  destruct (Z.eqb_spec n 0) as [->|Hnz]; [done|]. destruct (Z.leb_spec n 16) as [Hle|Hgt].
  - assert (Hc : In n (map Z.of_nat (seq 1 16))).
    { apply in_map_iff. exists (Z.to_nat n). split; [lia|]. apply in_seq. lia. }
    simpl in Hc. repeat (destruct Hc as [<-|Hc]; [done|]). done.
  - pose proof (serialize_one n) as Hone. destruct (num_serialize n) as [|b [|b2 l]] eqn:E.
    + assert (H0 : set_vch (num_serialize n) = Ok n) by (apply set_vch_serialize; unfold is_i64; lia).
      rewrite E in H0. injection H0 as H0. lia.
    + specialize (Hone b ltac:(lia) eq_refl). subst b. unfold at_. cbn [nth].
      change (vsize [n]) with 1. cbn [Z.eqb Pos.eqb]. change (1 =? 1) with true. cbn [andb].
      destruct (Z.leb_spec 1 n); [|lia]. destruct (Z.leb_spec n 16); [lia|]. cbn [andb].
      destruct (Z.eqb_spec n 0x81) as [->|]; [by vm_compute in E|]. done.
    + set (v := b :: b2 :: l) in *. assert (Hv : 2 <= vsize v) by (unfold vsize; subst v; simpl; lia).
      destruct (Z.eqb_spec (vsize v) 0); [lia|]. destruct (Z.eqb_spec (vsize v) 1); [lia|]. cbn [andb].
      destruct (Z.leb_spec (vsize v) 75); [|lia]. apply Z.eqb_refl.
Qed.

(** ** Recognizing the scripts that pay a destination *)
Section Recognize.
  Context (env : ScriptEnv).
  Local Notation chain := (env_chain env).

  (** the chain's heights fit an [int], its hashes are hashes, and the data-carrier
      limit leaves room for a block hash *)
Record env_ok : Prop := {
  env_heights : vsize chain < 2 ^ 31;
  env_hashes : Forall (fun h => 0 <= h < 2 ^ 256) chain;
  env_carrier : 32 <= nMaxDatacarrierBytes env }.

Lemma match_step f pc1 pc2 m rpa o1 v1 p1 o2 v2 p2 :
  GetOp2 pc1 = Some (o1, v1, p1) -> GetOp2 pc2 = Some (o2, v2, p2) -> o2 <> OP_PUBKEYS ->
  match_template env (S f) pc1 pc2 m rpa
  = match match_op env m rpa o1 v1 o2 v2 with
    | (Some m2, rpa') => match_template env f p1 p2 m2 rpa'
    | (None, rpa') => (None, rpa')
    end.
Proof.
  intros H1 H2 Hne. destruct pc1 as [|b1 pc1]; [done|]. cbn [match_template]. rewrite H1, H2.
  by destruct (Z.eqb_spec o2 OP_PUBKEYS).
Qed.

  (** an opcode of the script equal to that of the template *)
Lemma match_same f o pc1 pc2 m rpa :
  OP_PUSHDATA4 < o < OP_SMALLDATA -> o <> OP_CHECKBLOCKATHEIGHT ->
  match_template env (S f) (o :: pc1) (o :: pc2) m rpa = match_template env f pc1 pc2 m rpa.
Proof.
  intros Ho Hne. rewrite (match_step _ _ _ _ _ o [] pc1 o [] pc2); [|apply GetOp2_op; lia..|lia].
  unfold match_op. rewrite Z.eqb_refl, bool_decide_eq_true_2 by done. cbn [andb].
  repeat match goal with |- context [Z.eqb o ?c] => destruct (Z.eqb_spec o c); [lia|] end. done.
Qed.

  (** the key or script hash *)
Lemma match_hash f h pc1 pc2 m rpa :
  length h = 20%nat -> vsize pc1 < 2 ^ 31 ->
  match_template env (S f) (push_data [] h ++ pc1) (OP_PUBKEYHASH :: pc2) m rpa
  = match_template env f pc1 pc2 (push_solution m h) rpa.
Proof.
  intros Hh Hpc. assert (Hv : vsize h = 20) by (unfold vsize; lia).
  rewrite (match_step _ _ _ _ _ (push_op h) h pc1 OP_PUBKEYHASH [] pc2).
  - unfold match_op. cbn [Z.eqb Pos.eqb]. rewrite Hv. done.
  - apply GetOp2_push. lia.
  - done.
  - done.
Qed.

Lemma chain_hash_lookup i h : env_ok -> chain !! i = Some h -> le_combine (rev (hash_bytes h)) = h.
Proof.
  intros [_ Hh _] Hi. unfold hash_bytes. rewrite rev_involutive, le_combine_split.
  apply Z.mod_small. change (8 * Z.of_nat 32) with 256. by apply (Forall_lookup_1 _ _ _ _ Hh Hi).
Qed.

Lemma replay_data_valid n h :
  0 <= n -> chain !! Z.to_nat n = Some h ->
  CheckReplayProtectionData (env_safeDepth env) (Some chain) n (hash_bytes h) = true.
Proof.
  intros Hn Hl. unfold CheckReplayProtectionData, env_Height.
  pose proof (lookup_lt_Some _ _ _ Hl) as Hlt. destruct (Z.ltb_spec (vsize chain - 1) n); [unfold vsize in *; lia|].
  destruct (_ <=? _); [done|]. rewrite Hl. rewrite (bool_decide_eq_false_2 (hash_bytes h = [])).
  2:{ intros E. pose proof (length_hash_bytes h) as Hlen. by rewrite E in Hlen. }
  cbn [orb]. by rewrite bool_decide_eq_true_2.
Qed.

  (** the height argument, before and since the second fix *)
Lemma small_cases n (P : Z -> Prop) : 1 <= n <= 16 -> Forall P (map Z.of_nat (seq 1 16)) -> P n.
Proof.
  intros Hn HP. rewrite list.Forall_forall in HP. apply HP, list_elem_of_In, in_map_iff.
  exists (Z.to_nat n). split; [lia|]. apply in_seq. lia.
Qed.

Lemma serialize_nonempty n : 0 < n < 2 ^ 31 -> vsize (num_serialize n) <> 0.
Proof.
  intros Hn Hz. pose proof (set_vch_serialize n ltac:(unfold is_i64; lia)) as Hs.
  destruct (num_serialize n); [injection Hs; lia|]. unfold vsize in Hz. simpl in Hz. lia.
Qed.

Lemma int_small n : 1 <= n <= 16 -> in_range OP_1 OP_16 (n + (OP_1 - 1)) = true.
Proof. intros Hn. unfold in_range. zcases; lia || done. Qed.

Lemma smalldata_height_old m n :
  0 <= n < 2 ^ 31 -> before_fix2 env = true ->
  exists hd, match_smalldata env m (int_op n) (int_data n) = Some (mkMatch (ms_solutions m) (ms_blockHash m) hd (ms_params m))
    /\ CScriptNum_of hd false 4 = Ok n.
Proof.
  intros Hn Hb. pose proof (height_size n Hn). unfold match_smalldata, int_op, int_data. rewrite Hb.
  destruct (Z.leb_spec n 16) as [Hs|Hl].
  - change (vsize [] <=? 4) with true. change (vsize [] =? 0) with true. cbn [andb].
    destruct (Z.eqb_spec n 0) as [->|]; [by eexists|]. rewrite int_small by lia.
    eexists. split; [reflexivity|]. replace (n + (OP_1 - 1) - OP_1 + 1) with n by lia.
    apply (small_cases n (fun n => CScriptNum_of [n] false 4 = Ok n)); [lia|]. by repeat constructor.
  - destruct (Z.eqb_spec n 0); [lia|]. destruct (Z.leb_spec (vsize (num_serialize n)) 4); [|lia].
    destruct (Z.eqb_spec (vsize (num_serialize n)) 0); [by apply serialize_nonempty in e; [|lia]|]. cbn [andb].
    eexists. split; [reflexivity|]. apply CScriptNum_serialize; [unfold is_i64|..]; lia.
Qed.

Lemma smalldata_height_new m n :
  0 <= n < 2 ^ 31 -> before_fix2 env = false ->
  match_smalldata env m (int_op n) (int_data n)
  = Some (mkMatch (ms_solutions m) (ms_blockHash m) (ms_blockHeight m) (ms_params m ++ [(num_serialize n, int_op n)])).
Proof.
  intros Hn Hb. unfold match_smalldata, int_op, int_data. rewrite Hb. destruct (Z.leb_spec n 16) as [Hs|Hl].
  - change (vsize [] =? 0) with true. destruct (Z.eqb_spec n 0) as [->|]; [done|]. rewrite int_small by lia.
    cbn [orb]. by replace (n + (OP_1 - 1) - (OP_1 - 1)) with n by lia.
  - destruct (Z.eqb_spec n 0); [lia|].
    destruct (Z.eqb_spec (vsize (num_serialize n)) 0); [by apply serialize_nonempty in e; [|lia]|done].
Qed.

Lemma height_in_chain n h :
  0 <= n -> chain !! Z.to_nat n = Some h -> (n <? 0) || (env_Height chain <? n) = false.
Proof.
  intros Hn Hl. apply lookup_lt_Some in Hl. unfold env_Height, vsize. zcases; lia || done.
Qed.

Lemma getint_id n : 0 <= n < 2 ^ 31 -> getint n = n.
Proof. intros. unfold getint. zcases; lia. Qed.

Lemma rp_old_ok n h hd m :
  env_ok -> 0 <= n < 2 ^ 31 -> chain !! Z.to_nat n = Some h -> CScriptNum_of hd false 4 = Ok n ->
  ms_blockHash m = hash_bytes h -> ms_blockHeight m = hd -> check_rp_old env m = Some (n, hash_bytes h).
Proof.
  intros Hok Hn Hl Hhd Eh En. unfold check_rp_old. rewrite Eh, En, Hhd, getint_id, (height_in_chain n h) by (done || lia).
  unfold vsize at 1. rewrite length_hash_bytes. cbn [Z.eqb Pos.eqb Z.of_nat Pos.of_succ_nat Pos.succ negb andb].
  rewrite (chain_hash_lookup _ _ Hok Hl), Hl, bool_decide_eq_true_2 by done. cbn [negb]. by rewrite andb_false_r.
Qed.

Lemma rp_new_ok n h o m ps :
  0 <= n < 2 ^ 31 -> chain !! Z.to_nat n = Some h ->
  ms_params m = ps ++ [(hash_bytes h, o); (num_serialize n, int_op n)] -> check_rp_new env m = Some (n, hash_bytes h).
Proof.
  intros Hn Hl Hm. pose proof (height_size n Hn). unfold check_rp_new. rewrite Hm, rev_app_distr. cbn [rev app].
  destruct (Z.ltb_spec 4 (vsize (num_serialize n))); [lia|]. unfold vsize at 1. rewrite length_hash_bytes.
  cbn [orb Z.eqb Pos.eqb Z.of_nat Pos.of_succ_nat Pos.succ negb].
  rewrite CScriptNum_serialize by (unfold is_i64; lia). rewrite getint_id, CheckMinimalPush_int by done. cbn [negb].
  rewrite (height_in_chain n h), replay_data_valid by (done || lia). done.
Qed.

  (** the suffix with the hash and the height of a block of the chain *)
Lemma match_replay f m rpa n h :
  env_ok -> 0 <= n < 2 ^ 31 -> chain !! Z.to_nat n = Some h ->
  exists rpa',
    match_template env (4 + f) (push_data [] (hash_bytes h) ++ push_int64 [] n ++ [OP_CHECKBLOCKATHEIGHT])
      [OP_SMALLDATA; OP_SMALLDATA; OP_CHECKBLOCKATHEIGHT] m rpa = (Some (ms_solutions m), rpa').
Proof.
  intros Hok Hn Hl. pose proof (env_carrier Hok) as Hcar. pose proof (height_size n Hn) as Hsz.
  assert (Hhv : vsize (hash_bytes h) = 32) by (unfold vsize; by rewrite length_hash_bytes).
  assert (Hil : vsize (push_int64 [] n ++ [OP_CHECKBLOCKATHEIGHT]) < 2 ^ 31).
  { rewrite vsize_app. change (vsize [OP_CHECKBLOCKATHEIGHT]) with 1. unfold push_int64.
    destruct (_ || _); [vm_compute; done|]. destruct (_ =? _); [vm_compute; done|].
    unfold push_data, OP_PUSHDATA1. destruct (Z.ltb_spec (vsize (num_serialize n)) 0x4c); [|lia].
    cbn [app]. unfold vsize in *. cbn [length]. lia. }
  assert (Hint : (nMaxDatacarrierBytes env <? vsize (int_data n)) = false).
  { apply Z.ltb_ge. unfold int_data. destruct (n <=? 16); [change (vsize (@nil Z)) with 0|]; lia. }
  rewrite (match_step (3 + f) _ _ _ _ (push_op (hash_bytes h)) (hash_bytes h)
             (push_int64 [] n ++ [OP_CHECKBLOCKATHEIGHT]) OP_SMALLDATA [] [OP_SMALLDATA; OP_CHECKBLOCKATHEIGHT]);
    [|apply GetOp2_push; lia|done|done].
  unfold match_op at 1. cbn [Z.eqb Pos.eqb]. unfold match_smalldata at 1. rewrite Hhv.
  destruct (Z.ltb_spec (nMaxDatacarrierBytes env) 32); [lia|]. change (32 <=? 4) with false. change (32 =? 0) with false.
  destruct (before_fix2 env) eqn:Eb;
    rewrite (match_step (2 + f) _ _ _ _ (int_op n) (int_data n) [OP_CHECKBLOCKATHEIGHT] OP_SMALLDATA []
               [OP_CHECKBLOCKATHEIGHT]) by (done || (apply GetOp2_int; [lia|vm_compute; done]));
    unfold match_op at 1; cbn [Z.eqb Pos.eqb]; rewrite Hint.
  - set (m1 := mkMatch _ _ _ _). destruct (smalldata_height_old m1 n Hn Eb) as (hd & -> & Hhd).
    rewrite (match_step (1 + f) [OP_CHECKBLOCKATHEIGHT] [OP_CHECKBLOCKATHEIGHT] _ _
               OP_CHECKBLOCKATHEIGHT [] [] OP_CHECKBLOCKATHEIGHT [] []) by done.
    unfold match_op. cbn [Z.eqb Pos.eqb]. rewrite Eb, (rp_old_ok n h hd) by done.
    cbn [andb]. rewrite bool_decide_eq_true_2 by done. eexists. reflexivity.
  - rewrite smalldata_height_new by done. cbn [ms_params ms_solutions ms_blockHash ms_blockHeight].
    rewrite (match_step (1 + f) [OP_CHECKBLOCKATHEIGHT] [OP_CHECKBLOCKATHEIGHT] _ _
               OP_CHECKBLOCKATHEIGHT [] [] OP_CHECKBLOCKATHEIGHT [] []) by done.
    unfold match_op. cbn [Z.eqb Pos.eqb].
    rewrite Eb, (rp_new_ok n h (push_op (hash_bytes h)) _ (ms_params m)) by (done || (cbn; by rewrite <- app_assoc)).
    cbn [andb]. rewrite bool_decide_eq_true_2 by done. eexists. reflexivity.
Qed.

  (** the block the scripts of a destination commit to *)
Definition replay_block (w : bool) : option (Z * uint256) :=
  let d := env_Height chain - CBH_DELTA_HEIGHT in
  let n := if d <? 0 then 0 else d in
  if w then (fun h => (n, h)) <$> (chain !! Z.to_nat n) else None.

Definition suffix (rp : option (Z * uint256)) : bytes :=
  match rp with
  | None => []
  | Some (n, h) => push_data [] (hash_bytes h) ++ push_int64 [] n ++ [OP_CHECKBLOCKATHEIGHT]
  end.

Definition key_script (h : bytes) (rest : bytes) : CScript :=
  OP_DUP :: OP_HASH160 :: push_data [] h ++ OP_EQUALVERIFY :: OP_CHECKSIG :: rest.

Definition hash_script (h : bytes) (rest : bytes) : CScript :=
  OP_HASH160 :: push_data [] h ++ OP_EQUAL :: rest.

Lemma with_replay_suffix w script :
  with_replay_protection env w script = script ++ suffix (replay_block w).
Proof.
  unfold with_replay_protection, replay_block. destruct chain as [|h0 c] eqn:E; [destruct w; simpl; by rewrite app_nil_r|].
  destruct w; cbn [negb]; [|by rewrite app_nil_r]. destruct (_ !! _) as [h|]; cbn [fmap option_fmap option_map suffix]; [|by rewrite app_nil_r].
  rewrite push_int64_app, <- (app_nil_r (push_data script _ ++ _)), <- app_assoc, push_data_app, <- app_assoc. by rewrite app_nil_r.
Qed.

Lemma key_destination_script h w :
  GetScriptForDestination env (CKeyID h) w = key_script h (suffix (replay_block w)).
Proof.
  cbn [GetScriptForDestination]. rewrite with_replay_suffix, <- app_assoc, push_data_app. unfold key_script. by cbn [app].
Qed.

Lemma script_destination_script h w :
  GetScriptForDestination env (CScriptID h) w = hash_script h (suffix (replay_block w)).
Proof.
  cbn [GetScriptForDestination]. rewrite with_replay_suffix, <- app_assoc, push_data_app. unfold hash_script. by cbn [app].
Qed.

Lemma replay_block_in_chain w n h :
  env_ok -> replay_block w = Some (n, h) -> 0 <= n < 2 ^ 31 /\ chain !! Z.to_nat n = Some h.
Proof.
  intros Hok Hr. unfold replay_block in Hr. destruct w; [|done].
  destruct (_ !! _) as [h'|] eqn:El in Hr; [|done]. cbn in Hr. injection Hr as <- <-.
  pose proof (env_heights Hok). pose proof (lookup_lt_Some _ _ _ El). unfold vsize in *.
  split; [|done]. destruct (Z.ltb_spec (env_Height chain - CBH_DELTA_HEIGHT) 0); lia.
Qed.

Lemma suffix_size w : env_ok -> vsize (suffix (replay_block w)) <= 39.
Proof.
  intros Hok. destruct (replay_block w) as [[n h]|] eqn:E; [|vm_compute; done].
  destruct (replay_block_in_chain _ _ _ Hok E) as [Hn _]. pose proof (height_size n Hn). cbn [suffix].
  rewrite !vsize_app. change (vsize [OP_CHECKBLOCKATHEIGHT]) with 1.
  assert (Hd : forall d, vsize d <= 32 -> vsize (push_data [] d) = vsize d + 1).
  { intros d Hd. unfold push_data, OP_PUSHDATA1. destruct (Z.ltb_spec (vsize d) 0x4c); [|lia].
    cbn [app]. unfold vsize. cbn [length]. lia. }
  assert (Hh : vsize (hash_bytes h) = 32) by (unfold vsize; by rewrite length_hash_bytes).
  rewrite (Hd (hash_bytes h)), Hh by lia. unfold push_int64.
  destruct (_ || _); [change (vsize ([] ++ [n + (OP_1 - 1)])) with 1; lia|].
  destruct (_ =? _); [change (vsize ([] ++ [OP_0])) with 1; lia|]. rewrite Hd; lia.
Qed.

Lemma match_key f h rest pc2 m rpa :
  length h = 20%nat -> vsize rest < 2 ^ 30 ->
  match_template env (5 + f) (key_script h rest) (OP_DUP :: OP_HASH160 :: OP_PUBKEYHASH :: OP_EQUALVERIFY :: OP_CHECKSIG :: pc2) m rpa
  = match_template env f rest pc2 (push_solution m h) rpa.
Proof.
  intros Hh Hr. unfold key_script. cbn [Nat.add]. rewrite !match_same by done. rewrite match_hash by (done || (unfold vsize in *; simpl; lia)).
  by rewrite !match_same by done.
Qed.

Lemma match_script f h rest pc2 m rpa :
  length h = 20%nat -> vsize rest < 2 ^ 30 ->
  match_template env (3 + f) (hash_script h rest) (OP_HASH160 :: OP_PUBKEYHASH :: OP_EQUAL :: pc2) m rpa
  = match_template env f rest pc2 (push_solution m h) rpa.
Proof.
  intros Hh Hr. unfold hash_script. cbn [Nat.add]. rewrite match_same by done. rewrite match_hash by (done || (unfold vsize in *; simpl; lia)).
  by rewrite match_same by done.
Qed.

  (** a longer script does not match a shorter template *)
Lemma match_longer f b rest m rpa : match_template env f (b :: rest) [] m rpa = (None, rpa).
Proof. destruct f; [done|]. cbn [match_template]. destruct (GetOp2 (b :: rest)) as [[[? ?] ?]|]; done. Qed.

Lemma solve_skip script t tpl ts rpa :
  match_template env (S (length tpl)) script tpl (mkMatch [] [] [] []) rpa = (None, rpa) ->
  solve env script ((t, tpl) :: ts) rpa = solve env script ts rpa.
Proof. intros Hm. cbn [solve]. by rewrite Hm. Qed.

Lemma solve_found script t tpl ts rpa sols rpa' :
  match_template env (S (length tpl)) script tpl (mkMatch [] [] [] []) rpa = (Some sols, rpa') ->
  solve env script ((t, tpl) :: ts) rpa
  = (let '(ok, sols') := finish_match script t sols in (ok, t, sols', rpa')).
Proof. intros Hm. cbn [solve]. by rewrite Hm. Qed.

Lemma suffix_head n h : exists b rest, suffix (Some (n, h)) = b :: rest.
Proof.
  cbn [suffix]. destruct (push_data [] (hash_bytes h)) as [|b r] eqn:E; [|by exists b; eexists].
  pose proof (push_data_size (hash_bytes h)) as Hs. rewrite E in Hs. unfold vsize in Hs. simpl in Hs. lia.
Qed.

Lemma Solver_key h w :
  env_ok -> length h = 20%nat ->
  exists t rpa, Solver env (GetScriptForDestination env (CKeyID h) w) = (true, t, [h], rpa)
    /\ t = (if replay_block w then TX_PUBKEYHASH_REPLAY else TX_PUBKEYHASH).
Proof.
  intros Hok Hh. rewrite key_destination_script. pose proof (suffix_size w Hok) as Hsz.
  unfold Solver, templates. cbn [app].
  rewrite solve_skip by done. destruct (replay_block w) as [[n bh]|] eqn:Er.
  - destruct (replay_block_in_chain _ _ _ Hok Er) as [Hn Hl]. destruct (suffix_head n bh) as (b & rest & Hs).
    rewrite solve_skip by (rewrite (match_key 1) by (done || lia); rewrite Hs; apply match_longer).
    do 3 (rewrite solve_skip by done).
    replace (solve env (key_script h (suffix (Some (n, bh)))) (_ ++ _) Rpa_SetNull)
      with (solve env (key_script h (suffix (Some (n, bh))))
        ([(TX_PUBKEYHASH_REPLAY, [OP_DUP; OP_HASH160; OP_PUBKEYHASH; OP_EQUALVERIFY; OP_CHECKSIG; OP_SMALLDATA; OP_SMALLDATA; OP_CHECKBLOCKATHEIGHT]);
          (TX_MULTISIG_REPLAY, [OP_SMALLINTEGER; OP_PUBKEYS; OP_SMALLINTEGER; OP_CHECKMULTISIG; OP_SMALLDATA; OP_SMALLDATA; OP_CHECKBLOCKATHEIGHT])]
          ++ (if env_datacarrier env then [(TX_NULL_DATA_REPLAY, [OP_RETURN; OP_SMALLDATA; OP_SMALLDATA; OP_SMALLDATA; OP_CHECKBLOCKATHEIGHT])] else [])
          ++ [(TX_NULL_DATA_REPLAY, [OP_RETURN; OP_SMALLDATA; OP_SMALLDATA; OP_CHECKBLOCKATHEIGHT])]) Rpa_SetNull).
    2:{ destruct (env_datacarrier env); cbn [app]; symmetry; repeat (rewrite solve_skip by done); reflexivity. }
    cbn [app]. edestruct (match_replay 0 (push_solution (mkMatch [] [] [] []) h) Rpa_SetNull n bh Hok Hn Hl) as [rpa' Hm].
    erewrite solve_found.
    2:{ cbn [length]. rewrite (match_key 4) by (done || lia). exact Hm. }
    by do 2 eexists.
  - erewrite solve_found by (rewrite (match_key 1) by (done || lia); reflexivity). by do 2 eexists.
Qed.

Lemma Solver_script h w :
  env_ok -> length h = 20%nat ->
  exists t more rpa, Solver env (GetScriptForDestination env (CScriptID h) w) = (true, t, h :: more, rpa)
    /\ t = (if replay_block w then TX_SCRIPTHASH_REPLAY else TX_SCRIPTHASH).
Proof.
  intros Hok Hh. rewrite script_destination_script. pose proof (suffix_size w Hok) as Hsz.
  unfold Solver, templates. cbn [app]. do 2 (rewrite solve_skip by done).
  destruct (replay_block w) as [[n bh]|] eqn:Er.
  - destruct (replay_block_in_chain _ _ _ Hok Er) as [Hn Hl]. destruct (suffix_head n bh) as (b & rest & Hs).
    rewrite solve_skip by (rewrite (match_script 1) by (done || lia); rewrite Hs; apply match_longer).
    edestruct (match_replay 0 (push_solution (mkMatch [] [] [] []) h) Rpa_SetNull n bh Hok Hn Hl) as [rpa' Hm].
    erewrite solve_found.
    2:{ cbn [length]. rewrite (match_script 4) by (done || lia). exact Hm. }
    by do 3 eexists.
  - erewrite solve_found by (rewrite (match_script 1) by (done || lia); reflexivity). by do 3 eexists.
Qed.

(** C17: the script that pays a key or a script hash, with or without replay protection, is read back
    as that destination, under every version of the replay-protection rules: the
    block the script commits to is found in the chain it was built on. *)
Theorem destination_roundtrip (dest : CTxDestination) (w : bool) :
  env_ok -> (match dest with CNoDestination => False | CKeyID h | CScriptID h => length h = 20%nat end) ->
  ExtractDestination env (GetScriptForDestination env dest w) = Some dest.
Proof.
  intros Hok Hd. unfold ExtractDestination. destruct dest as [|h|h]; [done| |].
  - destruct (Solver_key h w Hok Hd) as (t & rpa & -> & ->). by destruct (replay_block w).
  - destruct (Solver_script h w Hok Hd) as (t & more & rpa & -> & ->). by destruct (replay_block w).
Qed.
End Recognize.

(** a chain of 400 blocks on the regtest network *)
Definition sample_env : ScriptEnv := mkEnv REGTEST (map Z.of_nat (seq 1000 400)) 50 true 80.

Lemma sample_env_ok : env_ok sample_env.
Proof.
  split; [vm_compute; done| |vm_compute; done]. apply list.Forall_forall. intros x Hx.
  apply list_elem_of_In, in_map_iff in Hx as (k & <- & Hk%in_seq). lia.
Qed.

Lemma destination_roundtrip_witness :
  env_ok sample_env
  /\ length (GetScriptForDestination sample_env (CKeyID (replicate 20 7)) true) = 61%nat
  /\ ExtractDestination sample_env (GetScriptForDestination sample_env (CKeyID (replicate 20 7)) true)
     = Some (CKeyID (replicate 20 7)).
Proof.
  split; [exact sample_env_ok|]. split; [by vm_compute|].
  exact (destination_roundtrip sample_env (CKeyID (replicate 20 7)) true sample_env_ok eq_refl).
Defined.

(** The attributes report a replay-protection opcode that the script does not
    contain: only the template's instruction is looked at. *)
Lemma rp_found_without_opcode :
  let script := key_script (replicate 20 7) (push_data [] (hash_bytes 1099) ++ push_int64 [] 99 ++ [OP_NOP]) in
  ~ In OP_CHECKBLOCKATHEIGHT script
  /\ foundOpCode (Solver sample_env script).2 = true
  /\ CheckReplayProtectionAttributes sample_env script = false.
Proof.
  split_and!; [|by vm_compute..]. vm_compute. intros H.
  repeat (destruct H as [H|H]; [discriminate H|]). exact H.
Qed.

(** ** Spending *)
#[local] Opaque CHash160_Finalize CHash256_Finalize CSHA256_Finalize CSHA1_Finalize CRIPEMD160_Finalize
  CSHA256_Write CSHA1_Write CRIPEMD160_Write.

Section Spend.
  Context (CheckLowS : bytes -> bool) {checker : BaseSignatureChecker} (flags : Z) (env : ScriptEnv).
  Local Notation loop script := (for_ops (eval_body CheckLowS flags script) eval_bad eval_end).

Lemma pushable_size data : 2 <= vsize data <= MAX_SCRIPT_ELEMENT_SIZE -> pushable flags data.
Proof.
  intros Hs. split; [lia|]. intros _. unfold MAX_SCRIPT_ELEMENT_SIZE in Hs.
  unfold CheckMinimalPush, push_op, OP_PUSHDATA1, OP_PUSHDATA2, OP_PUSHDATA4.
  destruct (Z.eqb_spec (vsize data) 0); [lia|]. destruct (Z.eqb_spec (vsize data) 1); [lia|]. cbn [andb].
  zcases; lia || done.
Qed.

Lemma eval_op_int script st k n :
  1 <= n <= 16 ->
  eval_op CheckLowS flags script (mkEval st [] [] k) (n + (OP_1 - 1)) []
  = if vsize st <? 1000 then pass (mkEval (num_serialize n :: st) [] [] k) else set_error SCRIPT_ERR_STACK_SIZE.
Proof.
  intros Hn. assert (Hv : (1000 <? vsize (num_serialize n :: st) + vsize (@nil bytes)) = negb (vsize st <? 1000)).
  { unfold vsize. simpl length. zcases; cbn [negb]; lia || done. }
  unfold eval_op. cbn [vfExec forallb]. cbv zeta. change (negb (MAX_SCRIPT_ELEMENT_SIZE <? vsize [])) with true.
  cbn [require then_ pass]. destruct (Z.ltb_spec OP_16 (n + (OP_1 - 1))); [lia|]. cbn [andb negb require then_ pass].
  replace (disabled (n + (OP_1 - 1))) with false by (unfold disabled, in_range; zcases; lia || done).
  cbn [negb require then_ pass]. unfold in_range at 1, OP_PUSHDATA4.
  destruct (Z.leb_spec (n + (OP_1 - 1)) 0x4e); [lia|]. rewrite andb_false_r. cbn [andb orb].
  unfold eval_switch. rewrite int_small by done. rewrite orb_true_r. cbn [with_stack stack altstack vfExec nOpCount then_ pass].
  replace (n + (OP_1 - 1) - (OP_1 - 1)) with n by lia. rewrite Hv. by destruct (vsize st <? 1000).
Qed.

Lemma loop_int script n rest st k :
  0 <= n < 2 ^ 31 -> vsize rest < 2 ^ 31 ->
  loop script (push_int64 [] n ++ rest) (mkEval st [] [] k)
  = if vsize st <? 1000 then loop script rest (mkEval (num_serialize n :: st) [] [] k) else set_error SCRIPT_ERR_STACK_SIZE.
Proof.
  intros Hn Hrest. destruct (decide (n = 0)) as [->|Hnz].
  { change (push_int64 [] 0 ++ rest) with (push_data [] [] ++ rest). rewrite loop_push_exact; [done| |done].
    split; [vm_compute; done|done]. }
  destruct (decide (n <= 16)) as [Hs|Hl].
  - rewrite (for_ops_step _ _ _ _ _ (int_op n) (int_data n) rest) by (by apply GetOp2_int).
    unfold int_op, int_data. destruct (Z.leb_spec n 16); [|lia]. destruct (Z.eqb_spec n 0); [lia|].
    unfold eval_body at 1. rewrite eval_op_int by lia. by destruct (vsize st <? 1000).
  - rewrite push_int64_large by lia. apply loop_push_exact; [|done].
    pose proof (height_size n Hn). split; [unfold MAX_SCRIPT_ELEMENT_SIZE; lia|]. intros _.
    pose proof (CheckMinimalPush_int n Hn) as Hc. unfold int_op in Hc.
    destruct (Z.eqb_spec n 0); [lia|]. destruct (Z.leb_spec n 16); [lia|].
    unfold push_op, OP_PUSHDATA1. by destruct (Z.ltb_spec (vsize (num_serialize n)) 0x4c); [|lia].
Qed.

  (** the verdict on the block a script commits to *)
Definition replay_verdict (rp : option (Z * uint256)) : outcome unit :=
  match rp with
  | Some (n, h) =>
      if has_flag flags SCRIPT_VERIFY_CHECKBLOCKATHEIGHT
      then require (CheckBlockHash n (hash_bytes h)) SCRIPT_ERR_NOT_FINAL
      else pass tt
  | None => pass tt
  end.

Lemma replay_verdict_total rp : exists r, replay_verdict rp = Ok r.
Proof. unfold replay_verdict, require. repeat case_match; by eexists. Qed.

Lemma pushable_hash h : pushable flags (hash_bytes h).
Proof. apply pushable_size. unfold vsize, MAX_SCRIPT_ELEMENT_SIZE. rewrite length_hash_bytes. lia. Qed.

  (** the most elements a stack has before the height and the hash are pushed *)
Definition suffix_room (rp : option (Z * uint256)) : Z := match rp with Some _ => 998 | None => 1000 end.

Lemma loop_suffix script w st k :
  env_ok env -> vsize st <= suffix_room (replay_block env w) -> k < 200 ->
  loop script (suffix (replay_block env w)) (mkEval st [] [] k)
  = (let? _ := replay_verdict (replay_block env w) in pass st).
Proof.
  intros Hok Hst Hk. pose proof (suffix_size env w Hok) as Hsz.
  destruct (replay_block env w) as [[n h]|] eqn:Er; [|done].
  destruct (replay_block_in_chain _ _ _ _ Hok Er) as [Hn _]. pose proof (height_size n Hn) as Hh4.
  assert (Hone : vsize [OP_CHECKBLOCKATHEIGHT] < 2 ^ 31) by (vm_compute; done).
  cbn [suffix_room] in Hst.
  assert (Hv1 : vsize (hash_bytes h :: st) < 1000) by (unfold vsize in *; simpl length; lia).
  cbn [suffix replay_verdict] in *. rewrite !vsize_app in Hsz. pose proof (vsize_nonneg (push_data [] (hash_bytes h))).
  rewrite loop_push; [|apply pushable_hash|rewrite vsize_app; lia|lia]. rewrite loop_int by (lia || done).
  rewrite (proj2 (Z.ltb_lt _ _) Hv1).
  set (st' := num_serialize n :: hash_bytes h :: st).
  assert (Hop : op_checkblockatheight flags st'
                = (let? _ := replay_verdict (Some (n, h)) in pass st)).
  { subst st'. cbn [op_checkblockatheight replay_verdict]. destruct (has_flag flags 1024); [|done]. cbn [negb].
    destruct (Z.ltb_spec 4 (vsize (num_serialize n))); [lia|]. unfold vsize at 1. rewrite length_hash_bytes.
    cbn [orb Z.ltb Z.compare Z.of_nat Pos.of_succ_nat Pos.succ Pos.compare Pos.compare_cont negb require then_ pass].
    rewrite CScriptNum_serialize by (unfold is_i64; lia). cbn [lift_res then_]. rewrite getint_id by done.
    destruct (Z.ltb_spec n 0); [lia|]. cbn [orb]. by rewrite negb_involutive. }
  cbn [replay_verdict] in Hop. destruct (let? _ := _ in _) as [[e|st2]|e] eqn:Ev in Hop |- *.
  - apply loop_op_fail; [done|lia|done|]. unfold eval_switch. cbn [Z.eqb Pos.eqb orb in_range Z.leb Z.compare Pos.compare Pos.compare_cont andb].
    change (on_stack (mkEval st' [] [] (k + 1)) (op_checkblockatheight flags st') = Ok (inl e)). by rewrite Hop.
  - assert (st2 = st) as -> by (destruct (has_flag flags 1024); [destruct (CheckBlockHash _ _)|]; by inversion Ev).
    rewrite (loop_op _ _ _ _ _ _ _ st); [done|done|lia|done| |lia].
    change (on_stack (mkEval st' [] [] (k + 1)) (op_checkblockatheight flags st') = pass (mkEval st [] [] (k + 1))). by rewrite Hop.
  - exfalso. destruct (has_flag flags 1024); [destruct (CheckBlockHash _ _)|]; by inversion Ev.
Qed.

Lemma loop_suffix_full script w st k :
  env_ok env -> vsize st <= 1000 -> suffix_room (replay_block env w) < vsize st ->
  loop script (suffix (replay_block env w)) (mkEval st [] [] k) = set_error SCRIPT_ERR_STACK_SIZE.
Proof.
  intros Hok Hst Hfull. pose proof (suffix_size env w Hok) as Hsz.
  destruct (replay_block env w) as [[n h]|] eqn:Er; cbn [suffix suffix_room] in *; [|lia].
  destruct (replay_block_in_chain _ _ _ _ Hok Er) as [Hn _].
  rewrite !vsize_app in Hsz. pose proof (vsize_nonneg (push_data [] (hash_bytes h))).
  rewrite loop_push_exact; [|apply pushable_hash|rewrite vsize_app; lia].
  destruct (Z.ltb_spec (vsize st) 1000); [|done]. rewrite loop_int by (lia || (vm_compute; done)).
  destruct (Z.ltb_spec (vsize (hash_bytes h :: st)) 1000) as [Hlt|]; [|done]. unfold vsize in *. simpl length in *. lia.
Qed.

Lemma CheckEncodings_total sig pub : exists r, CheckEncodings CheckLowS flags sig pub = Ok r.
Proof.
  unfold CheckEncodings, CheckSignatureEncoding, CheckPubKeyEncoding, IsLowDERSignature, require.
  repeat case_match; simpl; by eexists.
Qed.

Lemma pushable_20 h : length h = 20%nat -> pushable flags h.
Proof. intros Hh. apply pushable_size. unfold vsize, MAX_SCRIPT_ELEMENT_SIZE. lia. Qed.

  (** the instructions that compare the hash of the top with the one the script names *)
Lemma loop_key_hash script pub below h rest :
  length h = 20%nat -> vsize rest < 2 ^ 30 ->
  loop script (key_script h rest) (mkEval (pub :: below) [] [] 0)
  = if 998 <? vsize (pub :: below) then set_error SCRIPT_ERR_STACK_SIZE
    else if bool_decide (Hash160 pub = h) then loop script (OP_CHECKSIG :: rest) (mkEval (pub :: below) [] [] 3)
    else set_error SCRIPT_ERR_EQUALVERIFY.
Proof.
  intros Hh Hr. unfold key_script. set (st := pub :: below).
  assert (Hc : forall x : bytes, vsize (x :: st) = vsize st + 1) by (intros; unfold vsize; cbn [length]; lia).
  destruct (decide (vsize st = 1000 \/ 1000 < vsize st)) as [Hover|].
  { rewrite (loop_op_over _ _ _ _ _ _ _ (pub :: st)); [|done..|rewrite Hc; lia]. by destruct (Z.ltb_spec 998 (vsize st)); [|lia]. }
  rewrite (loop_op _ _ _ _ _ _ _ (pub :: st)); [|done..|rewrite Hc; lia].
  rewrite (loop_op _ _ _ _ _ _ _ (Hash160 pub :: st)); [|done..|rewrite Hc; lia].
  rewrite loop_push_exact; [|by apply pushable_20|unfold vsize in *; simpl; lia]. rewrite Hc.
  destruct (Z.ltb_spec (vsize st + 1) 1000); destruct (Z.ltb_spec 998 (vsize st)); try lia; [|done].
  assert (Heq : op_equal OP_EQUALVERIFY (h :: Hash160 pub :: st)
                = if bool_decide (Hash160 pub = h) then pass st else set_error SCRIPT_ERR_EQUALVERIFY) by done.
  destruct (bool_decide (Hash160 pub = h)).
  - rewrite (loop_op _ _ _ _ _ _ _ st); [done|done..| |lia].
    change (on_stack (mkEval (h :: Hash160 pub :: st) [] [] 3) (op_equal OP_EQUALVERIFY (h :: Hash160 pub :: st)) = pass (mkEval st [] [] 3)).
    by rewrite Heq.
  - apply loop_op_fail; [done..|].
    change (on_stack (mkEval (h :: Hash160 pub :: st) [] [] 3) (op_equal OP_EQUALVERIFY (h :: Hash160 pub :: st)) = set_error SCRIPT_ERR_EQUALVERIFY).
    by rewrite Heq.
Qed.

Lemma loop_checksig script sig pub st rest :
  vsize st <= 996 ->
  loop script (OP_CHECKSIG :: rest) (mkEval (pub :: sig :: st) [] [] 3)
  = (let? _ := CheckEncodings CheckLowS flags sig pub in
     loop script rest (mkEval (bool_val (CheckSig sig pub script) :: st) [] [] 4)).
Proof.
  intros Hst.
  assert (Hcs : op_checksig CheckLowS flags OP_CHECKSIG script (pub :: sig :: st)
                = (let? _ := CheckEncodings CheckLowS flags sig pub in pass (bool_val (CheckSig sig pub script) :: st))) by done.
  destruct (CheckEncodings_total sig pub) as [[e|u] He]; rewrite He in Hcs |- *; cbn [then_] in Hcs |- *.
  - apply loop_op_fail; [done..|].
    change (on_stack (mkEval (pub :: sig :: st) [] [] 4) (op_checksig CheckLowS flags OP_CHECKSIG script (pub :: sig :: st)) = Ok (inl e)). by rewrite Hcs.
  - rewrite (loop_op _ _ _ _ _ _ _ (bool_val (CheckSig sig pub script) :: st)); [done..| |unfold vsize in *; cbn [length]; lia].
    change (on_stack (mkEval (pub :: sig :: st) [] [] 4) (op_checksig CheckLowS flags OP_CHECKSIG script (pub :: sig :: st))
            = pass (mkEval (bool_val (CheckSig sig pub script) :: st) [] [] 4)). by rewrite Hcs.
Qed.

  (** what a spender writes: an input script that pushes vectors, and the stack it leaves *)
Lemma push_data_foldl args script : foldl push_data script args = script ++ concat (map (push_data []) args).
Proof.
  revert script. induction args as [|a args IH]; intros script; cbn [foldl map concat]; [by rewrite app_nil_r|].
  rewrite IH. apply push_data_app.
Qed.

Lemma loop_pushes script args st :
  Forall (pushable flags) args -> vsize st + vsize args <= 1000 -> vsize (concat (map (push_data []) args)) < 2 ^ 31 ->
  loop script (concat (map (push_data []) args)) (mkEval st [] [] 0) = pass (rev args ++ st).
Proof.
  intros Hall. revert st. induction Hall as [|a args Ha _ IH]; intros st Hst Hsz; [done|].
  cbn [map concat rev] in *. rewrite vsize_app in Hsz. pose proof (vsize_nonneg (push_data [] a)).
  assert (Hn : vsize st + 1 + vsize args <= 1000) by (unfold vsize in *; simpl length in Hst; lia).
  pose proof (vsize_nonneg args). rewrite loop_push by (done || lia).
  rewrite IH by (unfold vsize in *; simpl length; lia). by rewrite <- app_assoc.
Qed.

Lemma EvalScript_pushes args :
  Forall (pushable flags) args -> vsize args <= 1000 -> vsize (foldl push_data [] args) <= MAX_SCRIPT_SIZE ->
  EvalScript CheckLowS flags [] (foldl push_data [] args) = pass (rev args).
Proof.
  intros Ha Hn Hs. rewrite EvalScript_small by done. rewrite push_data_foldl in *. cbn [app] in *.
  unfold MAX_SCRIPT_SIZE in Hs. rewrite loop_pushes by (done || (change (vsize (@nil bytes)) with 0; lia) || lia).
  by rewrite app_nil_r.
Qed.

Lemma IsPushOnly_pushes args :
  Forall (pushable flags) args -> vsize (foldl push_data [] args) <= MAX_SCRIPT_SIZE ->
  IsPushOnly (foldl push_data [] args) = true.
Proof.
  intros Ha. rewrite push_data_foldl. cbn [app]. unfold MAX_SCRIPT_SIZE. induction Ha as [|a args [Hsz _] _ IH]; intros Hs; [done|].
  cbn [map concat] in *. rewrite vsize_app in Hs. pose proof (vsize_nonneg (push_data [] a)). unfold IsPushOnly.
  pose proof (push_op_range a Hsz) as Hop. unfold OP_PUSHDATA4, MAX_SCRIPT_ELEMENT_SIZE in *.
  rewrite (for_ops_step _ _ _ _ _ (push_op a) a (concat (map (push_data []) args))) by (apply GetOp2_push; lia).
  destruct (Z.ltb_spec OP_16 (push_op a)); [lia|]. apply IH. lia.
Qed.

Lemma key_script_not_P2SH h rest : IsPayToScriptHash (key_script h rest) = false.
Proof.
  unfold IsPayToScriptHash, key_script. unfold at_ at 1 4. cbn [nth]. change (OP_DUP =? OP_HASH160) with false.
  by rewrite !andb_false_r.
Qed.

Lemma top_true_bool b st : top_true (bool_val b :: st) = require b SCRIPT_ERR_EVAL_FALSE.
Proof. by destruct b. Qed.

Lemma push_data_length d : vsize d <= MAX_SCRIPT_ELEMENT_SIZE -> vsize (push_data [] d) <= vsize d + 5.
Proof.
  unfold MAX_SCRIPT_ELEMENT_SIZE. intros Hd. unfold push_data.
  repeat case_match; cbn [app]; unfold vsize; cbn [length]; rewrite ?length_app, ?length_le_split; lia.
Qed.

Lemma key_script_size h w :
  env_ok env -> length h = 20%nat -> vsize (key_script h (suffix (replay_block env w))) <= MAX_SCRIPT_SIZE.
Proof.
  intros Hok Hh. pose proof (suffix_size env w Hok). unfold key_script, MAX_SCRIPT_SIZE.
  pose proof (push_data_length h ltac:(unfold vsize, MAX_SCRIPT_ELEMENT_SIZE; lia)).
  unfold vsize in *. cbn [length]. rewrite length_app. cbn [length]. lia.
Qed.

Lemma clean_stack st :
  (has_flag flags SCRIPT_VERIFY_CLEANSTACK = true -> has_flag flags SCRIPT_VERIFY_P2SH = true) ->
  (if has_flag flags SCRIPT_VERIFY_CLEANSTACK then
     if negb (has_flag flags SCRIPT_VERIFY_P2SH) then Err AssertFailed
     else require (vsize (st : list bytes) =? 1) SCRIPT_ERR_CLEANSTACK
   else pass tt) = require (negb (has_flag flags SCRIPT_VERIFY_CLEANSTACK) || (vsize st =? 1)) SCRIPT_ERR_CLEANSTACK.
Proof. intros Hc. destruct (has_flag flags 256); [|done]. by rewrite Hc. Qed.

(** evaluation of the script on the stack the input left *)
Lemma EvalScript_key st h w :
  env_ok env -> length h = 20%nat ->
  let script := key_script h (suffix (replay_block env w)) in
  EvalScript CheckLowS flags st script
  = match st with
    | [] => set_error SCRIPT_ERR_INVALID_STACK_OPERATION
    | pub :: below =>
        if 998 <? vsize st then set_error SCRIPT_ERR_STACK_SIZE
        else if bool_decide (Hash160 pub = h) then
          match below with
          | [] => set_error SCRIPT_ERR_INVALID_STACK_OPERATION
          | sig :: rest =>
              let? _ := CheckEncodings CheckLowS flags sig pub in
              let? _ := replay_verdict (replay_block env w) in
              pass (bool_val (CheckSig sig pub script) :: rest)
          end
        else set_error SCRIPT_ERR_EQUALVERIFY
    end.
Proof.
  intros Hok Hh script. pose proof (suffix_size env w Hok). unfold script. rewrite EvalScript_small by (by apply key_script_size).
  destruct st as [|pub below]; [unfold key_script; by rewrite (loop_op_fail _ _ _ _ _ _ _ SCRIPT_ERR_INVALID_STACK_OPERATION)|].
  rewrite loop_key_hash by (done || lia). destruct (Z.ltb_spec 998 (vsize (pub :: below))) as [|Hst]; [done|].
  destruct (bool_decide _); [|done]. destruct below as [|sig rest].
  { by rewrite (loop_op_fail _ _ _ _ _ _ _ SCRIPT_ERR_INVALID_STACK_OPERATION). }
  assert (Hr : vsize rest <= 996) by (unfold vsize in *; simpl length in Hst; lia). rewrite loop_checksig by done.
  destruct (CheckEncodings_total sig pub) as [[e|u] ->]; cbn [then_ catch_all]; [done|].
  rewrite loop_suffix; [|done|unfold suffix_room, vsize in *; simpl length; case_match; lia|lia].
  by destruct (replay_verdict_total (replay_block env w)) as [[e|u2] ->].
Qed.

(** C9: an output that pays a key hash is spent exactly by a key with that hash and a signature the
    checker accepts for it, both in an accepted encoding, once the block the output
    commits to is in the chain, where it commits to one and the flags ask for that
    check.  For every scriptSig the verdict is the one stated:
    the scriptSig is evaluated (push-only where the flags ask for it), its top
    element is the key, the next one the signature, and each way in which it is
    not such a pair has its own error; a stack without room for two more elements
    is refused, and under the clean-stack flag nothing else may be on the stack.
    The script is made on a well-formed chain ([env_ok]), the hash has 20 bytes, and the flags include P2SH when they
    include the clean stack, as the code asserts. *)
Theorem spend_key_destination (scriptSig : CScript) (h : bytes) (w : bool) :
  env_ok env -> length h = 20%nat ->
  (has_flag flags SCRIPT_VERIFY_CLEANSTACK = true -> has_flag flags SCRIPT_VERIFY_P2SH = true) ->
  let script := GetScriptForDestination env (CKeyID h) w in
  VerifyScript CheckLowS flags scriptSig script
  = (let? _ := require (negb (has_flag flags SCRIPT_VERIFY_SIGPUSHONLY && negb (IsPushOnly scriptSig))) SCRIPT_ERR_SIG_PUSHONLY in
     let? st := EvalScript CheckLowS flags [] scriptSig in
     match st with
     | [] => set_error SCRIPT_ERR_INVALID_STACK_OPERATION
     | pub :: below =>
         if 998 <? vsize st then set_error SCRIPT_ERR_STACK_SIZE
         else if bool_decide (Hash160 pub = h) then
           match below with
           | [] => set_error SCRIPT_ERR_INVALID_STACK_OPERATION
           | sig :: rest =>
               let? _ := CheckEncodings CheckLowS flags sig pub in
               let? _ := replay_verdict (replay_block env w) in
               let? _ := require (CheckSig sig pub script) SCRIPT_ERR_EVAL_FALSE in
               require (negb (has_flag flags SCRIPT_VERIFY_CLEANSTACK) || (vsize rest =? 0)) SCRIPT_ERR_CLEANSTACK
           end
         else set_error SCRIPT_ERR_EQUALVERIFY
     end).
Proof.
  intros Hok Hh Hclean. cbv zeta. rewrite key_destination_script. unfold VerifyScript.
  destruct (negb (_ && _)); cbn [require then_ pass]; [|done].
  destruct (EvalScript _ _ [] scriptSig) as [[e|st]|e]; cbn [then_]; [done| |done]. rewrite EvalScript_key by done.
  destruct st as [|pub below]; [done|]. destruct (998 <? vsize _); [done|]. destruct (bool_decide _); [|done].
  destruct below as [|sig rest]; [done|]. destruct (CheckEncodings_total sig pub) as [[e|u] ->]; cbn [then_]; [done|].
  destruct (replay_verdict_total (replay_block env w)) as [[e|u2] ->]; cbn [then_ pass]; [done|].
  rewrite top_true_bool, key_script_not_P2SH, andb_false_r. destruct (CheckSig _ _ _); [|done].
  cbn [require then_ pass]. rewrite clean_stack by done. do 2 f_equal. unfold vsize. cbn [length]. zcases; lia || done.
Qed.

Lemma loop_script script x st h rest :
  length h = 20%nat -> vsize rest < 2 ^ 30 ->
  loop script (hash_script h rest) (mkEval (x :: st) [] [] 0)
  = if 999 <? vsize (x :: st) then set_error SCRIPT_ERR_STACK_SIZE
    else loop script rest (mkEval (bool_val (bool_decide (Hash160 x = h)) :: st) [] [] 2).
Proof.
  intros Hh Hr. unfold hash_script.
  assert (Hc : forall y, vsize (y :: st) = vsize (x :: st)) by (intros; unfold vsize; by cbn [length]).
  destruct (decide (1000 < vsize (x :: st))) as [Hover|].
  { rewrite (loop_op_over _ _ _ _ _ _ _ (Hash160 x :: st)); [|done..|by rewrite Hc].
    by destruct (Z.ltb_spec 999 (vsize (x :: st))); [|lia]. }
  rewrite (loop_op _ _ _ _ _ _ _ (Hash160 x :: st)); [|done..|rewrite Hc; lia].
  rewrite loop_push_exact; [|by apply pushable_20|unfold vsize in *; simpl; lia]. rewrite Hc.
  destruct (Z.ltb_spec (vsize (x :: st)) 1000); destruct (Z.ltb_spec 999 (vsize (x :: st))); try lia; [|done].
  by rewrite (loop_op _ _ _ _ _ _ _ (bool_val (bool_decide (Hash160 x = h)) :: st)) by (done || (rewrite Hc; lia)).
Qed.

Lemma hash_script_P2SH h w :
  env_ok env -> length h = 20%nat -> IsPayToScriptHash (hash_script h (suffix (replay_block env w))) = true.
Proof.
  intros Hok Hh. pose proof (suffix_size env w Hok) as Hs. unfold hash_script.
  assert (Hp : push_data [] h = 20 :: h).
  { unfold push_data. assert (vsize h = 20) as -> by (unfold vsize; lia). done. }
  rewrite Hp. cbn [app]. set (s := OP_HASH160 :: 20 :: h ++ OP_EQUAL :: suffix (replay_block env w)).
  assert (Hsz : vsize s = 23 + vsize (suffix (replay_block env w))).
  { unfold vsize, s. cbn [length]. rewrite length_app. cbn [length]. lia. }
  assert (H22 : at_ s 22 = OP_EQUAL).
  { unfold at_, s. cbn [nth]. rewrite <- Hh at 1. by rewrite nth_middle. }
  unfold IsPayToScriptHash. change (at_ s 0) with OP_HASH160. change (at_ s 1) with 20. rewrite H22, Hsz.
  destruct (replay_block env w) as [[n bh]|] eqn:Er; [|done]. apply orb_true_iff. right.
  assert (Hback : back s = OP_CHECKBLOCKATHEIGHT).
  { subst s. cbn [suffix]. rewrite !app_comm_cons, !app_assoc.
    apply back_snoc. }
  rewrite Hback. destruct (suffix_head n bh) as (b & r & E). rewrite E in *.
  assert (0 < vsize (b :: r)) by (unfold vsize; simpl length; lia).
  destruct (Z.ltb_spec 23 (23 + vsize (b :: r))); [|lia]. destruct (Z.ltb_spec (23 + vsize (b :: r)) 63); [done|lia].
Qed.

Lemma EvalScript_hash st h w :
  env_ok env -> length h = 20%nat ->
  EvalScript CheckLowS flags st (hash_script h (suffix (replay_block env w)))
  = match st with
    | [] => set_error SCRIPT_ERR_INVALID_STACK_OPERATION
    | redeem :: rest =>
        if Z.min 999 (suffix_room (replay_block env w)) <? vsize st then set_error SCRIPT_ERR_STACK_SIZE
        else let? _ := replay_verdict (replay_block env w) in pass (bool_val (bool_decide (Hash160 redeem = h)) :: rest)
    end.
Proof.
  intros Hok Hh. pose proof (suffix_size env w Hok). rewrite EvalScript_small.
  2:{ unfold hash_script, MAX_SCRIPT_SIZE. pose proof (push_data_length h ltac:(unfold vsize, MAX_SCRIPT_ELEMENT_SIZE; lia)).
      unfold vsize in *. cbn [length]. rewrite length_app. cbn [length]. lia. }
  destruct st as [|x rest]; [unfold hash_script; by rewrite (loop_op_fail _ _ _ _ _ _ _ SCRIPT_ERR_INVALID_STACK_OPERATION)|].
  rewrite loop_script by (done || lia). set (b := bool_val _).
  assert (Hb : vsize (b :: rest) = vsize (x :: rest)) by done.
  destruct (Z.ltb_spec 999 (vsize (x :: rest))) as [|Hst]; [by destruct (Z.ltb_spec (Z.min 999 (suffix_room (replay_block env w))) (vsize (x :: rest))); [|lia]|].
  destruct (Z.ltb_spec (Z.min 999 (suffix_room (replay_block env w))) (vsize (x :: rest))).
  - rewrite loop_suffix_full by (rewrite ?Hb; done || lia). done.
  - rewrite loop_suffix by (rewrite ?Hb; done || lia). by destruct (replay_verdict_total (replay_block env w)) as [[e|u] ->].
Qed.

(** C28: an output that pays a script hash is spent exactly by a script with that hash on top of a
    stack on which it evaluates to true, once the block the output commits to is in
    the chain, where it commits to one and the flags ask for that check.  For every scriptSig the verdict is the one stated: the scriptSig is
    evaluated, its top element must hash to the 20 bytes of the output, and under
    the P2SH flag the scriptSig must only push and that element is then run as a
    script on the rest of the stack; without the flag nothing more is asked.  A
    stack with no room for the hash, or for the height and hash of the replay
    protection, is refused.  The script is made on a well-formed chain ([env_ok]),
    and the flags include P2SH when they include the clean
    stack, as the code asserts. *)
Theorem spend_script_destination (scriptSig : CScript) (h : bytes) (w : bool) :
  env_ok env -> length h = 20%nat ->
  (has_flag flags SCRIPT_VERIFY_CLEANSTACK = true -> has_flag flags SCRIPT_VERIFY_P2SH = true) ->
  VerifyScript CheckLowS flags scriptSig (GetScriptForDestination env (CScriptID h) w)
  = (let? _ := require (negb (has_flag flags SCRIPT_VERIFY_SIGPUSHONLY && negb (IsPushOnly scriptSig))) SCRIPT_ERR_SIG_PUSHONLY in
     let? st := EvalScript CheckLowS flags [] scriptSig in
     match st with
     | [] => set_error SCRIPT_ERR_INVALID_STACK_OPERATION
     | redeem :: rest =>
         if Z.min 999 (suffix_room (replay_block env w)) <? vsize st then set_error SCRIPT_ERR_STACK_SIZE
         else
           let? _ := replay_verdict (replay_block env w) in
           let? _ := require (bool_decide (Hash160 redeem = h)) SCRIPT_ERR_EVAL_FALSE in
           if has_flag flags SCRIPT_VERIFY_P2SH then
             let? _ := require (IsPushOnly scriptSig) SCRIPT_ERR_SIG_PUSHONLY in
             let? st' := EvalScript CheckLowS flags rest redeem in
             let? _ := top_true st' in
             require (negb (has_flag flags SCRIPT_VERIFY_CLEANSTACK) || (vsize st' =? 1)) SCRIPT_ERR_CLEANSTACK
           else pass tt
     end).
Proof.
  intros Hok Hh Hclean. rewrite script_destination_script. unfold VerifyScript.
  destruct (negb (_ && _)); cbn [require then_ pass]; [|done].
  destruct (EvalScript _ _ [] scriptSig) as [[e|st]|e]; cbn [then_]; [done| |done]. rewrite EvalScript_hash by done.
  destruct st as [|x rest]; [done|]. destruct (_ <? vsize _); [done|].
  destruct (replay_verdict_total (replay_block env w)) as [[e|u] ->]; cbn [then_ pass]; [done|].
  rewrite top_true_bool, hash_script_P2SH, andb_true_r by done. destruct (bool_decide _); cbn [require then_ pass]; [|done].
  destruct (has_flag flags SCRIPT_VERIFY_P2SH) eqn:Hp.
  - destruct (IsPushOnly scriptSig); cbn [require then_ pass]; [|done].
    destruct (EvalScript _ _ rest x) as [[e|st]|e]; cbn [then_]; [done| |done].
    destruct (top_true st) as [[e|u2]|e]; cbn [then_ pass]; [done| |done]. by destruct (has_flag flags 256).
  - cbn [then_ pass]. destruct (has_flag flags SCRIPT_VERIFY_CLEANSTACK); [by discriminate Hclean|done].
Qed.
End Spend.

(** a signature in the encoding the rules ask for, and a checker that accepts it *)
Definition der_sig : bytes := [0x30; 6; 2; 1; 1; 2; 1; 1; 1].

Definition der_checker : BaseSignatureChecker :=
  Build_BaseSignatureChecker (fun sig key _ => bool_decide (sig = der_sig) && bool_decide (key = [2; 7]))
    (fun n => n <=? 100) (fun h _ => h <=? 500).

Definition key_output : CScript := GetScriptForDestination sample_env (CKeyID (Hash160 [2; 7])) true.

Definition script_output : CScript := GetScriptForDestination sample_env (CScriptID (Hash160 [OP_1; OP_EQUAL])) true.

Lemma spend_key_destination_witness :
  (env_ok sample_env /\ length (Hash160 [2; 7]) = 20%nat
   /\ (has_flag 1313 SCRIPT_VERIFY_CLEANSTACK = true -> has_flag 1313 SCRIPT_VERIFY_P2SH = true))
  /\ has_flag 1313 SCRIPT_VERIFY_CLEANSTACK = true /\ replay_block sample_env true <> None
  /\ @VerifyScript (fun _ => true) der_checker 1313 (foldl push_data [] [der_sig; [2; 7]]) key_output = pass tt
  /\ @VerifyScript (fun _ => true) der_checker 1313 (push_data [] [2; 7]) key_output = set_error SCRIPT_ERR_INVALID_STACK_OPERATION.
Proof.
  assert (Hclean : has_flag 1313 SCRIPT_VERIFY_CLEANSTACK = true -> has_flag 1313 SCRIPT_VERIFY_P2SH = true) by done.
  assert (Hall := fun scriptSig => @spend_key_destination (fun _ => true) der_checker 1313 sample_env scriptSig (Hash160 [2; 7]) true
    sample_env_ok (length_Hash160 _) Hclean).
  split; [split; [exact sample_env_ok|split; [apply length_Hash160|exact Hclean]]|]. split; [done|]. split; [by vm_compute|].
  split; (etransitivity; [apply Hall|vm_compute; reflexivity]).
Defined.

Lemma spend_script_destination_witness :
  (env_ok sample_env /\ length (Hash160 [OP_1; OP_EQUAL]) = 20%nat
   /\ (has_flag 1281 SCRIPT_VERIFY_CLEANSTACK = true -> has_flag 1281 SCRIPT_VERIFY_P2SH = true))
  /\ replay_block sample_env true <> None
  /\ @VerifyScript (fun _ => true) sample_checker 1281 (foldl push_data [] [[1]; [OP_1; OP_EQUAL]]) script_output = pass tt
  /\ @VerifyScript (fun _ => true) sample_checker 1281 (OP_NOP :: foldl push_data [] [[1]; [OP_1; OP_EQUAL]]) script_output
     = set_error SCRIPT_ERR_SIG_PUSHONLY.
Proof.
  assert (Hclean : has_flag 1281 SCRIPT_VERIFY_CLEANSTACK = true -> has_flag 1281 SCRIPT_VERIFY_P2SH = true) by done.
  assert (Hall := fun scriptSig => @spend_script_destination (fun _ => true) sample_checker 1281 sample_env scriptSig (Hash160 [OP_1; OP_EQUAL]) true
    sample_env_ok (length_Hash160 _) Hclean).
  split; [split; [exact sample_env_ok|split; [apply length_Hash160|exact Hclean]]|]. split; [by vm_compute|].
  split; (etransitivity; [apply Hall|vm_compute; reflexivity]).
Defined.
