(* ===== verification/Chain.v ===== *)
(** * The block index and the active chain

    [chain.cpp] and the class [CChain] of [chain.h]: entries linked to their
    parents and, by [pskip], to an older ancestor; the vector of the active
    chain's entries; forks and locators.  The entries live in a store and
    pointers are its keys. *)

From stdpp Require Import base numbers list gmap option strings.
From Stdlib Require Import ZArith Lia.
From S2P Require Import Prelude.
From S2P Require Import ScTypes.
Open Scope Z_scope.
Open Scope zen_scope.

Abbreviation ptr := Z (only parsing).

(** the fields of [CBlockIndex] the algorithms use *)
Record IndexEntry := mkEntry {
  ie_hash : uint256;
  ie_nHeight : Z;
  ie_pprev : option ptr;
  ie_pskip : option ptr }.

Notation Store := (gmap Z IndexEntry).

(** a null or dangling pointer has no entry: reading through it is an error *)
Definition null_pointer : err := Exception "null pointer".

Definition deref (st : Store) (p : option ptr) : res IndexEntry :=
  match p with
  | None => Err null_pointer
  | Some q => match st !! q with Some e => Ok e | None => Err null_pointer end
  end.

(** ** Skip heights *)
Definition InvertLowestOne (n : Z) : Z := Z.land n (n - 1).

Definition GetSkipHeight (height : Z) : Z :=
  if height <? 2 then 0
  else if negb (Z.land height 1 =? 0) then InvertLowestOne (InvertLowestOne (height - 1)) + 1
  else InvertLowestOne height.

(** ** Ancestors *)
(** the loop [while (heightWalk > height)]; the height walked decreases *)
Fixpoint walk (fuel : nat) (st : Store) (pindexWalk : option ptr) (heightWalk height : Z) : res (option ptr) :=
  match fuel with
  | O => Ok pindexWalk
  | S fuel' =>
      if height <? heightWalk then
        let heightSkip := GetSkipHeight heightWalk in
        let heightSkipPrev := GetSkipHeight (heightWalk - 1) in
        match deref st pindexWalk with
        | Err e => Err e
        | Ok e =>
            if negb (bool_decide (ie_pskip e = None))
               && ((heightSkip =? height)
                   || ((height <? heightSkip)
                       && negb ((heightSkipPrev <? heightSkip - 2) && (height <=? heightSkipPrev))))
            then walk fuel' st (ie_pskip e) heightSkip height
            else walk fuel' st (ie_pprev e) (heightWalk - 1) height
        end
      else Ok pindexWalk
  end.

Definition GetAncestor (st : Store) (p : ptr) (height : Z) : res (option ptr) :=
  match deref st (Some p) with
  | Err e => Err e
  | Ok e =>
      if (ie_nHeight e <? height) || (height <? 0) then Ok None
      else walk (Z.to_nat (ie_nHeight e)) st (Some p) (ie_nHeight e) height
  end.

Definition BuildSkip (st : Store) (p : ptr) : res Store :=
  match deref st (Some p) with
  | Err e => Err e
  | Ok e =>
      match ie_pprev e with
      | None => Ok st
      | Some q =>
          match GetAncestor st q (GetSkipHeight (ie_nHeight e)) with
          | Err e' => Err e'
          | Ok s => Ok (<[p := mkEntry (ie_hash e) (ie_nHeight e) (ie_pprev e) s]> st)
          end
      end
  end.

(** ** The active chain: the pointers by height *)
Definition Height (v : list (option ptr)) : Z := vsize v - 1.

Definition chain_at (v : list (option ptr)) (nHeight : Z) : option ptr :=
  if (nHeight <? 0) || (Height v <? nHeight) then None
  else match v !! Z.to_nat nHeight with Some p => p | None => None end.

Definition Tip (v : list (option ptr)) : option ptr :=
  if 0 <=? Height v then chain_at v (Height v) else None.

Definition Contains (st : Store) (v : list (option ptr)) (p : ptr) : res bool :=
  match deref st (Some p) with
  | Err e => Err e
  | Ok e => Ok (bool_decide (chain_at v (ie_nHeight e) = Some p))
  end.

Definition Next (st : Store) (v : list (option ptr)) (p : ptr) : res (option ptr) :=
  match Contains st v p, deref st (Some p) with
  | Ok true, Ok e => Ok (chain_at v (ie_nHeight e + 1))
  | Ok false, _ => Ok None
  | Err e, _ | _, Err e => Err e
  end.

(** [std::vector::resize] *)
Definition resize (v : list (option ptr)) (n : nat) : list (option ptr) :=
  take n v ++ replicate (n - length v) None.

(** the loop of [SetTip]; one round per height *)
Fixpoint set_tip_loop (fuel : nat) (st : Store) (v : list (option ptr)) (pindex : option ptr)
    : res (list (option ptr)) :=
  match fuel with
  | O => Ok v
  | S fuel' =>
      match pindex with
      | None => Ok v
      | Some p =>
          match deref st (Some p) with
          | Err e => Err e
          | Ok e =>
              if bool_decide (v !! Z.to_nat (ie_nHeight e) = Some (Some p)) then Ok v
              else set_tip_loop fuel' st (<[Z.to_nat (ie_nHeight e) := Some p]> v) (ie_pprev e)
          end
      end
  end.

Definition SetTip (st : Store) (v : list (option ptr)) (pindex : option ptr) : res (list (option ptr)) :=
  match pindex with
  | None => Ok []
  | Some p =>
      match deref st (Some p) with
      | Err e => Err e
      | Ok e =>
          let n := Z.to_nat (ie_nHeight e + 1) in
          set_tip_loop n st (resize v n) (Some p)
      end
  end.

(** the loop of [FindFork]; one round per height *)
Fixpoint fork_loop (fuel : nat) (st : Store) (v : list (option ptr)) (pindex : option ptr) : res (option ptr) :=
  match fuel with
  | O => Ok pindex
  | S fuel' =>
      match pindex with
      | None => Ok None
      | Some p =>
          match Contains st v p, deref st (Some p) with
          | Ok true, _ => Ok (Some p)
          | Ok false, Ok e => fork_loop fuel' st v (ie_pprev e)
          | Err e, _ | _, Err e => Err e
          end
      end
  end.

Definition FindFork (st : Store) (v : list (option ptr)) (p : ptr) : res (option ptr) :=
  match deref st (Some p) with
  | Err e => Err e
  | Ok e =>
      let fuel := Z.to_nat (ie_nHeight e + 2) in
      if Height v <? ie_nHeight e then
        match GetAncestor st p (Height v) with
        | Err e' => Err e'
        | Ok q => fork_loop fuel st v q
        end
      else fork_loop fuel st v (Some p)
  end.

(** the loop of [GetLocator]; the heights decrease to zero *)
Fixpoint locator_loop (fuel : nat) (st : Store) (v : list (option ptr)) (pindex : option ptr) (nStep : Z)
    (vHave : list uint256) : res (list uint256) :=
  match fuel with
  | O => Ok vHave
  | S fuel' =>
      match pindex with
      | None => Ok vHave
      | Some p =>
          match deref st (Some p), Contains st v p with
          | Ok e, Ok inside =>
              let vHave' := vHave ++ [ie_hash e] in
              if ie_nHeight e =? 0 then Ok vHave'
              else
                let nHeight := Z.max (ie_nHeight e - nStep) 0 in
                let nStep' := if 10 <? vsize vHave' then nStep * 2 else nStep in
                match (if inside then Ok (chain_at v nHeight) else GetAncestor st p nHeight) with
                | Ok q => locator_loop fuel' st v q nStep' vHave'
                | Err e' => Err e'
                end
          | Err e', _ | _, Err e' => Err e'
          end
      end
  end.

Definition GetLocator (st : Store) (v : list (option ptr)) (pindex : option ptr) : res (list uint256) :=
  let start := match pindex with None => Tip v | Some p => Some p end in
  match start with
  | None => Ok []
  | Some p =>
      match deref st (Some p) with
      | Err e => Err e
      | Ok e => locator_loop (Z.to_nat (ie_nHeight e + 1)) st v (Some p) 1 []
      end
  end.

(** ** The tree: parents and heights *)
Fixpoint parent_n (st : Store) (n : nat) (p : ptr) : option ptr :=
  match n with
  | O => Some p
  | S n' => e ← st !! p; q ← ie_pprev e; parent_n st n' q
  end.

(** The ancestor of [p] at a height, by following parents only. *)
Definition ancestor (st : Store) (p : ptr) (height : Z) : option ptr :=
  e ← st !! p; parent_n st (Z.to_nat (ie_nHeight e - height)) p.

Record entry_ok (st : Store) (p : ptr) (e : IndexEntry) : Prop := {
  ok_height : 0 <= ie_nHeight e;
  ok_prev : match ie_pprev e with
            | None => ie_nHeight e = 0
            | Some q => exists e', st !! q = Some e' /\ ie_nHeight e = ie_nHeight e' + 1
            end;
  ok_skip : forall s, ie_pskip e = Some s -> ancestor st p (GetSkipHeight (ie_nHeight e)) = Some s }.

Definition store_ok (st : Store) : Prop := forall p e, st !! p = Some e -> entry_ok st p e.

Lemma InvertLowestOne_bounds n : 0 < n -> 0 <= InvertLowestOne n <= n - 1.
Proof.
  intros Hn. unfold InvertLowestOne. split; [apply Z.land_nonneg; lia|].
  rewrite <- (Z2N.id n), <- (Z2N.id (Z.of_N (Z.to_N n) - 1)), <- N2Z.inj_land by lia.
  apply N2Z.inj_le, N.land_le_r.
Qed.

Lemma GetSkipHeight_bounds h : 0 < h -> 0 <= GetSkipHeight h < h.
Proof.
  intros Hh. unfold GetSkipHeight. destruct (Z.ltb_spec h 2); [lia|].
  destruct (negb _).
  - pose proof (InvertLowestOne_bounds (h - 1) ltac:(lia)) as H1.
    destruct (decide (InvertLowestOne (h - 1) = 0)) as [->|Hne]; [change (InvertLowestOne 0) with 0; lia|].
    pose proof (InvertLowestOne_bounds (InvertLowestOne (h - 1)) ltac:(lia)). lia.
  - pose proof (InvertLowestOne_bounds h ltac:(lia)). lia.
Qed.

(** ** Ancestors: lemmas *)
Section Ancestors.
  Context (st : Store) (Hst : store_ok st).

Lemma parent_n_add a b p : parent_n st (a + b) p = q ← parent_n st a p; parent_n st b q.
Proof.
  revert p. induction a as [|a IH]; intros p; [done|]. cbn [Nat.add parent_n].
  destruct (st !! p) as [e|]; [|done]. cbn. destruct (ie_pprev e) as [q|]; [|done]. cbn. apply IH.
Qed.

  (** every entry has an ancestor at each height below its own *)
Lemma parent_n_some n p e :
  st !! p = Some e -> Z.of_nat n <= ie_nHeight e ->
  exists q e', parent_n st n p = Some q /\ st !! q = Some e' /\ ie_nHeight e' = ie_nHeight e - Z.of_nat n.
Proof.
  revert p e. induction n as [|n IH]; intros p e Hp Hn; [exists p, e; split_and!; done || lia|].
  cbn [parent_n]. rewrite Hp. cbn. pose proof (ok_prev _ _ _ (Hst _ _ Hp)) as Hprev.
  destruct (ie_pprev e) as [q|]; [|lia]. destruct Hprev as (e' & Hq & Hh). cbn.
  destruct (IH q e' Hq) as (r & e'' & Hr & Hr' & Hh'); [lia|]. exists r, e''. split_and!; done || lia.
Qed.

Lemma ancestor_some p e h :
  st !! p = Some e -> 0 <= h <= ie_nHeight e ->
  exists q e', ancestor st p h = Some q /\ st !! q = Some e' /\ ie_nHeight e' = h.
Proof.
  intros Hp Hh. unfold ancestor. rewrite Hp. cbn.
  destruct (parent_n_some (Z.to_nat (ie_nHeight e - h)) p e Hp) as (q & e' & Hq & He & Hhe); [lia|].
  exists q, e'. split_and!; done || lia.
Qed.

  (** an ancestor's ancestor *)
Lemma ancestor_trans p e h q e' h' :
  st !! p = Some e -> st !! q = Some e' -> ie_nHeight e' = h -> ancestor st p h = Some q ->
  h' <= h <= ie_nHeight e -> ancestor st p h' = ancestor st q h'.
Proof.
  intros Hp Hq Hh Ha Hle. unfold ancestor in *. rewrite Hp in *. rewrite Hq. cbn in *.
  replace (Z.to_nat (ie_nHeight e - h')) with (Z.to_nat (ie_nHeight e - h) + Z.to_nat (ie_nHeight e' - h'))%nat by lia.
  by rewrite parent_n_add, Ha.
Qed.

Lemma ancestor_self p e : st !! p = Some e -> ancestor st p (ie_nHeight e) = Some p.
Proof. intros Hp. unfold ancestor. rewrite Hp. cbn. by rewrite Z.sub_diag. Qed.

Lemma ancestor_prev p e q :
  st !! p = Some e -> ie_pprev e = Some q -> ancestor st p (ie_nHeight e - 1) = Some q.
Proof.
  intros Hp Hq. unfold ancestor. rewrite Hp. cbn.
  replace (Z.to_nat (ie_nHeight e - (ie_nHeight e - 1))) with 1%nat by lia. cbn. rewrite Hp. cbn. by rewrite Hq.
Qed.

Lemma walk_spec fuel p e height :
  st !! p = Some e -> 0 <= height <= ie_nHeight e -> ie_nHeight e - height <= Z.of_nat fuel ->
  walk fuel st (Some p) (ie_nHeight e) height = Ok (ancestor st p height).
Proof.
  revert p e. induction fuel as [|fuel IH]; intros p e Hp Hh Hf.
  { cbn [walk]. replace height with (ie_nHeight e) by lia. by rewrite (ancestor_self p e). }
  cbn [walk]. destruct (Z.ltb_spec height (ie_nHeight e)) as [Hlt|Hge].
  2:{ replace height with (ie_nHeight e) by lia. by rewrite (ancestor_self p e). }
  cbn [deref]. rewrite Hp. pose proof (GetSkipHeight_bounds (ie_nHeight e) ltac:(lia)) as Hsk.
  destruct (_ && _) eqn:Ec.
  - apply andb_true_iff in Ec as [Hns Hcond]. destruct (ie_pskip e) as [s|] eqn:Es; [|done].
    pose proof (ok_skip _ _ _ (Hst _ _ Hp) s Es) as Ha.
    destruct (ancestor_some p e (GetSkipHeight (ie_nHeight e)) Hp) as (s' & es & Hs' & Hse & Hsh); [lia|].
    assert (s' = s) as -> by congruence.
    assert (Hle : height <= GetSkipHeight (ie_nHeight e)).
    { apply orb_true_iff in Hcond as [Hc|Hc]; [apply Z.eqb_eq in Hc; lia|]. apply andb_true_iff in Hc as [Hc _].
      apply Z.ltb_lt in Hc. lia. }
    rewrite <- Hsh. rewrite IH by (done || lia). f_equal. symmetry.
    apply (ancestor_trans p e (GetSkipHeight (ie_nHeight e)) s es); done || lia.
  - pose proof (ok_prev _ _ _ (Hst _ _ Hp)) as Hprev. destruct (ie_pprev e) as [q|] eqn:Eq; [|lia].
    destruct Hprev as (e' & Hq & Hqh). replace (ie_nHeight e - 1) with (ie_nHeight e') by lia.
    rewrite IH by (done || lia). f_equal. symmetry.
    eapply ancestor_trans; [done|exact Hq|reflexivity| |lia].
    replace (ie_nHeight e') with (ie_nHeight e - 1) by lia. by apply ancestor_prev.
Qed.

Lemma GetAncestor_spec p e height :
  st !! p = Some e ->
  GetAncestor st p height
  = Ok (if (0 <=? height) && (height <=? ie_nHeight e) then ancestor st p height else None).
Proof.
  intros Hp. unfold GetAncestor. cbn [deref]. rewrite Hp.
  destruct (Z.ltb_spec (ie_nHeight e) height), (Z.ltb_spec height 0), (Z.leb_spec 0 height),
    (Z.leb_spec height (ie_nHeight e)); try lia; cbn [orb andb]; try done.
  apply walk_spec; [done|lia|lia].
Qed.
End Ancestors.

(** C27: [GetAncestor], which jumps along skip pointers, returns the ancestor that following one
    parent after another reaches at that height, never reads through a null pointer,
    and returns null exactly for heights outside the entry's own chain. *)
Theorem GetAncestor_exact (st : Store) (p : ptr) (e : IndexEntry) (height : Z) :
  store_ok st -> st !! p = Some e ->
  GetAncestor st p height = Ok (if (0 <=? height) && (height <=? ie_nHeight e) then ancestor st p height else None)
  /\ (0 <= height <= ie_nHeight e -> exists q e', ancestor st p height = Some q /\ st !! q = Some e' /\ ie_nHeight e' = height).
Proof. intros Hst Hp. split; [by apply GetAncestor_spec|]. intros Hh. by eapply ancestor_some. Qed.

(** a chain of five blocks with one fork of two blocks, built with [BuildSkip] *)
Definition sample_store : Store :=
  <[6 := mkEntry 2005 3 (Some 5) (Some 2)]> (<[5 := mkEntry 2004 2 (Some 2) (Some 1)]>
  (<[4 := mkEntry 1003 3 (Some 3) (Some 2)]> (<[3 := mkEntry 1002 2 (Some 2) (Some 1)]>
  (<[2 := mkEntry 1001 1 (Some 1) (Some 1)]> {[1 := mkEntry 1000 0 None None]})))).

Lemma sample_store_ok : store_ok sample_store.
Proof.
  intros p e Hp. unfold sample_store in Hp.
  repeat (apply lookup_insert_Some in Hp as [[<- <-]|[_ Hp]];
    [split; [simpl; lia|eexists; split; [by vm_compute|simpl; lia]|intros s [= <-]; by vm_compute]|]).
  apply lookup_singleton_Some in Hp as [<- <-]. split; simpl; done || lia.
Qed.

Lemma GetAncestor_exact_witness :
  (store_ok sample_store /\ sample_store !! 4 = Some (mkEntry 1003 3 (Some 3) (Some 2)))
  /\ (GetAncestor sample_store 4 1 = Ok (if (0 <=? 1) && (1 <=? 3) then ancestor sample_store 4 1 else None)
      /\ (0 <= 1 <= 3 -> exists q e', ancestor sample_store 4 1 = Some q /\ sample_store !! q = Some e' /\ ie_nHeight e' = 1)).
Proof.
  split; [split; [exact sample_store_ok|by vm_compute]|].
  apply (GetAncestor_exact sample_store 4 (mkEntry 1003 3 (Some 3) (Some 2)) 1 sample_store_ok). by vm_compute.
Defined.

(** ** Building the skip pointers *)
Lemma parent_n_ext st st' n p :
  (forall q, option_map ie_pprev (st !! q) = option_map ie_pprev (st' !! q)) -> parent_n st n p = parent_n st' n p.
Proof.
  intros Hext. revert p. induction n as [|n IH]; intros p; [done|]. cbn [parent_n]. specialize (Hext p) as Hp.
  destruct (st !! p) as [e|], (st' !! p) as [e'|]; try done. cbn in *. injection Hp as ->.
  destruct (ie_pprev e') as [q|]; [|done]. cbn. apply IH.
Qed.

Lemma BuildSkip_ok st p e :
  store_ok st -> st !! p = Some e ->
  exists st', BuildSkip st p = Ok st' /\ store_ok st'
    /\ (forall q h, ancestor st' q h = ancestor st q h)
    /\ (ie_pprev e <> None -> exists s, ie_pskip <$> st' !! p = Some (Some s) /\ ancestor st p (GetSkipHeight (ie_nHeight e)) = Some s).
Proof.
  intros Hst Hp. unfold BuildSkip. cbn [deref]. rewrite Hp. pose proof (Hst _ _ Hp) as [Hh Hprev Hskip].
  destruct (ie_pprev e) as [q|] eqn:Eq; [|by exists st]. destruct Hprev as (e' & Hq & Hqh).
  pose proof (GetSkipHeight_bounds (ie_nHeight e)) as Hsk. pose proof (ok_height _ _ _ (Hst _ _ Hq)) as Hq0. specialize (Hsk ltac:(lia)).
  rewrite (GetAncestor_spec st Hst q e') by done.
  destruct (Z.leb_spec 0 (GetSkipHeight (ie_nHeight e))), (Z.leb_spec (GetSkipHeight (ie_nHeight e)) (ie_nHeight e')); try lia.
  cbn [andb]. destruct (ancestor_some st Hst p e (GetSkipHeight (ie_nHeight e)) Hp) as (s & es & Hs & _ & _); [lia|].
  assert (Hqs : ancestor st q (GetSkipHeight (ie_nHeight e)) = Some s).
  { rewrite <- Hs. symmetry. apply (ancestor_trans st p e (ie_nHeight e') q e'); try done; [|lia].
    replace (ie_nHeight e') with (ie_nHeight e - 1) by lia. by apply ancestor_prev. }
  rewrite Hqs. eexists. split; [done|]. set (st' := <[p:=_]> st).
  assert (Hpar : forall r, option_map ie_pprev (st' !! r) = option_map ie_pprev (st !! r)).
  { intros r. subst st'. destruct (decide (r = p)) as [->|Hne]; [|by rewrite lookup_insert_ne].
    rewrite lookup_insert_eq, Hp. cbn. by rewrite Eq. }
  assert (Hhei : forall r, option_map ie_nHeight (st' !! r) = option_map ie_nHeight (st !! r)).
  { intros r. subst st'. destruct (decide (r = p)) as [->|Hne]; [|by rewrite lookup_insert_ne].
    rewrite lookup_insert_eq, Hp. done. }
  assert (Hanc : forall r h, ancestor st' r h = ancestor st r h).
  { intros r h. unfold ancestor. specialize (Hhei r). destruct (st' !! r) as [e1|], (st !! r) as [e2|]; try done.
    cbn in *. injection Hhei as ->. by apply parent_n_ext. }
  split_and!; [|done|].
  - intros r er Hr. assert (Hstep : forall r' er', st !! r' = Some er' -> ie_nHeight er' = ie_nHeight er -> ie_pprev er' = ie_pprev er ->
      r' = r -> (forall s', ie_pskip er = Some s' -> ancestor st r (GetSkipHeight (ie_nHeight er)) = Some s') -> entry_ok st' r er).
    { intros r' er' Hr' Hh' Hp' -> Hs'. destruct (Hst _ _ Hr') as [H1 H2 _]. split; [lia| |intros; rewrite Hanc; by apply Hs'].
      rewrite Hp' in H2. destruct (ie_pprev er) as [q'|]; [|lia]. destruct H2 as (e2 & Hq2 & Hh2).
      specialize (Hhei q'). rewrite Hq2 in Hhei. destruct (st' !! q') as [e3|]; [|done]. injection Hhei as Hhei. exists e3. split; [done|lia]. }
    subst st'. destruct (decide (r = p)) as [->|Hne].
    + rewrite lookup_insert_eq in Hr. injection Hr as <-. apply (Hstep p e Hp); try done. by intros ? [= <-].
    + rewrite lookup_insert_ne in Hr by done. apply (Hstep r er Hr); try done. apply (ok_skip _ _ _ (Hst _ _ Hr)).
  - intros _. exists s. subst st'. by rewrite lookup_insert_eq.
Qed.

(** ** The vector of the active chain *)
Section ActiveChain.
  Context (st : Store) (Hst : store_ok st).

  (** [v] is the path from a first block to its last entry *)
Definition path_ok (v : list (option ptr)) : Prop :=
  forall i x, v !! i = Some x -> exists p e, x = Some p /\ st !! p = Some e /\ ie_nHeight e = Z.of_nat i
    /\ forall j, (j <= i)%nat -> v !! j = Some (ancestor st p (Z.of_nat j)).

Definition path_to (p : ptr) (e : IndexEntry) : list (option ptr) :=
  map (fun i => ancestor st p (Z.of_nat i)) (seq 0 (Z.to_nat (ie_nHeight e + 1))).

Lemma lookup_path_to p e i :
  path_to p e !! i = if decide (i < Z.to_nat (ie_nHeight e + 1))%nat then Some (ancestor st p (Z.of_nat i)) else None.
Proof.
  unfold path_to. rewrite list_lookup_fmap. case_decide as Hi.
  - by rewrite lookup_seq_lt by done.
  - by rewrite lookup_seq_ge by lia.
Qed.

Lemma path_to_ok p e : st !! p = Some e -> path_ok (path_to p e).
Proof.
  intros Hp i x. rewrite lookup_path_to. case_decide as Hi; [|done]. intros [= <-].
  pose proof (ok_height _ _ _ (Hst _ _ Hp)).
  destruct (ancestor_some st Hst p e (Z.of_nat i) Hp) as (q & eq & Hq & Hqe & Hqh); [lia|].
  exists q, eq. split_and!; [done..|]. intros j Hj. rewrite lookup_path_to. rewrite decide_True by lia. f_equal.
  apply (ancestor_trans st p e (Z.of_nat i) q eq); done || lia.
Qed.

  (** Two entries with equal ancestors at a height agree below it. *)
Lemma set_tip_loop_spec fuel p e v tip et :
  st !! tip = Some et -> st !! p = Some e -> ancestor st tip (ie_nHeight e) = Some p -> ie_nHeight e <= ie_nHeight et ->
  (Z.to_nat (ie_nHeight e + 1) <= fuel)%nat -> length v = Z.to_nat (ie_nHeight et + 1) ->
  (forall i, (Z.to_nat (ie_nHeight e) < i)%nat -> v !! i = path_to tip et !! i) ->
  (forall i q, v !! i = Some (Some q) -> (i <= Z.to_nat (ie_nHeight e))%nat ->
     exists eq, st !! q = Some eq /\ ie_nHeight eq = Z.of_nat i
       /\ forall j, (j <= i)%nat -> v !! j = Some (ancestor st q (Z.of_nat j))) ->
  set_tip_loop fuel st v (Some p) = Ok (path_to tip et).
Proof.
  revert p e v. induction fuel as [|fuel IH]; intros p e v Htip Hp Hanc Hle Hf Hlen Hhigh Hlow.
  { pose proof (ok_height _ _ _ (Hst _ _ Hp)). lia. }
  pose proof (ok_height _ _ _ (Hst _ _ Hp)) as H0. cbn [set_tip_loop deref]. rewrite Hp.
  assert (Hsub : forall j, (j <= Z.to_nat (ie_nHeight e))%nat -> ancestor st tip (Z.of_nat j) = ancestor st p (Z.of_nat j)).
  { intros j Hj. apply (ancestor_trans st tip et (ie_nHeight e) p e); done || lia. }
  case_bool_decide as Hin.
  - f_equal. apply list_eq. intros i. destruct (decide (Z.to_nat (ie_nHeight e) < i)%nat) as [Hi|Hi]; [by apply Hhigh|].
    destruct (Hlow _ _ Hin (le_n _)) as (eq & _ & _ & Hj). rewrite Hj, lookup_path_to by lia.
    rewrite decide_True by lia. by rewrite Hsub by lia.
  - set (h := Z.to_nat (ie_nHeight e)) in *. assert (Hhlt : (h < length v)%nat) by lia.
    assert (Hnew : <[h:=Some p]> v !! h = path_to tip et !! h).
    { rewrite list_lookup_insert_eq by done. rewrite lookup_path_to, decide_True by lia. replace (Z.of_nat h) with (ie_nHeight e) by lia. by rewrite Hanc. }
    pose proof (ok_prev _ _ _ (Hst _ _ Hp)) as Hprev. destruct (ie_pprev e) as [q|] eqn:Eq.
    + destruct Hprev as (e' & Hq & Hqh). pose proof (ok_height _ _ _ (Hst _ _ Hq)).
      apply (IH q e'); try done; [|lia|lia|by rewrite length_insert| |].
      * replace (ie_nHeight e') with (Z.of_nat (h - 1)) by lia. rewrite Hsub by lia.
        replace (Z.of_nat (h - 1)) with (ie_nHeight e - 1) by lia. by apply ancestor_prev.
      * intros i Hi. destruct (decide (i = h)) as [->|Hne]; [done|]. rewrite list_lookup_insert_ne by done. apply Hhigh. lia.
      * intros i r Hr Hi. rewrite list_lookup_insert_ne in Hr by lia. destruct (Hlow i r Hr) as (er & H1 & H2 & H3); [lia|].
        exists er. split_and!; [done..|]. intros j Hj. rewrite list_lookup_insert_ne by lia. by apply H3.
    + destruct fuel; cbn [set_tip_loop]; f_equal; apply list_eq; intros i;
        (destruct (decide (i = h)) as [->|Hne]; [done|]; rewrite list_lookup_insert_ne by done; apply Hhigh; lia).
Qed.

Lemma lookup_resize v n i q :
  resize v n !! i = Some (Some q) -> v !! i = Some (Some q) /\ (i < n)%nat.
Proof.
  unfold resize. intros Hl. apply lookup_app_Some in Hl as [Hl|[_ Hl]].
  - apply lookup_take_Some in Hl as [Hl Hi]. done.
  - by apply lookup_replicate in Hl as [? _].
Qed.

Lemma lookup_resize_lt v n i : (i < n)%nat -> (i < length v)%nat -> resize v n !! i = v !! i.
Proof. intros Hn Hv. unfold resize. rewrite lookup_app_l by (rewrite length_take; lia). by apply lookup_take_lt. Qed.

Lemma length_resize v n : length (resize v n) = n.
Proof. unfold resize. rewrite length_app, length_take, length_replicate. lia. Qed.

Lemma SetTip_spec v p e : path_ok v -> st !! p = Some e -> SetTip st v (Some p) = Ok (path_to p e).
Proof.
  intros Hv Hp. pose proof (ok_height _ _ _ (Hst _ _ Hp)). unfold SetTip. cbn [deref]. rewrite Hp. cbv zeta.
  apply (set_tip_loop_spec _ p e); [done|done|by apply ancestor_self|lia|lia|by rewrite length_resize| |].
  - intros i Hi. rewrite lookup_path_to, decide_False by lia. apply lookup_ge_None_2. rewrite length_resize. lia.
  - intros i q Hl Hi. apply lookup_resize in Hl as [Hl Hn]. destruct (Hv i _ Hl) as (q' & eq & [= <-] & Hq & Hh & Hj).
    exists eq. split_and!; [done..|]. intros j Hji. pose proof (lookup_lt_Some _ _ _ Hl).
    rewrite lookup_resize_lt by lia. by apply Hj.
Qed.

  (** what the chain holds at a height is what it contains *)
Lemma chain_at_lookup v h : 0 <= h -> chain_at v h = match v !! Z.to_nat h with Some x => x | None => None end.
Proof.
  intros Hh. unfold chain_at, Height. destruct (Z.ltb_spec h 0); [lia|]. cbn [orb].
  destruct (Z.ltb_spec (vsize v - 1) h); [|done]. rewrite lookup_ge_None_2; [done|]. unfold vsize in *. lia.
Qed.

  (** the highest common block of [p]'s chain and the active one, from a height down *)
Lemma fork_loop_spec fuel v p e q eq :
  st !! p = Some e -> st !! q = Some eq -> ancestor st p (ie_nHeight eq) = Some q -> ie_nHeight eq <= ie_nHeight e ->
  (Z.to_nat (ie_nHeight eq + 1) <= fuel)%nat ->
  exists r, fork_loop fuel st v (Some q) = Ok r
    /\ (forall h, 0 <= h <= ie_nHeight eq ->
         (forall x, r = Some x -> forall ex, st !! x = Some ex -> ie_nHeight ex < h) -> chain_at v h <> ancestor st p h)
    /\ (forall x, r = Some x -> exists ex, st !! x = Some ex /\ 0 <= ie_nHeight ex <= ie_nHeight eq
         /\ ancestor st p (ie_nHeight ex) = Some x /\ chain_at v (ie_nHeight ex) = Some x).
Proof.
  revert q eq. induction fuel as [|fuel IH]; intros q eq Hp Hq Hanc Hle Hf.
  { pose proof (ok_height _ _ _ (Hst _ _ Hq)). lia. }
  pose proof (ok_height _ _ _ (Hst _ _ Hq)) as H0.
  cbn [fork_loop]. unfold Contains. cbn [deref]. rewrite Hq. case_bool_decide as Hin.
  { exists (Some q). split; [done|]. split.
    - intros h Hh Hx. specialize (Hx q eq_refl eq Hq). lia.
    - intros x [= <-]. exists eq. split_and!; done || lia. }
  pose proof (ok_prev _ _ _ (Hst _ _ Hq)) as Hprev. destruct (ie_pprev eq) as [q'|] eqn:Eq'.
  - destruct Hprev as (e' & Hq' & Hqh).
    destruct (IH q' e') as (r & Hr & Hno & Hyes); [done|done| |lia|lia|].
    { rewrite (ancestor_trans st p e (ie_nHeight eq) q eq) by (done || lia).
      replace (ie_nHeight e') with (ie_nHeight eq - 1) by lia. by apply ancestor_prev. }
    exists r. split; [done|]. split.
    + intros h Hh Hx. destruct (decide (h = ie_nHeight eq)) as [->|Hne]; [rewrite Hanc; done|]. apply Hno; [lia|done].
    + intros x Hx. destruct (Hyes x Hx) as (ex & H1 & H2 & H3). exists ex. split_and!; try done; lia || apply H3.
  - exists None. split; [by destruct fuel|]. split; [|done]. intros h Hh _.
    replace h with (ie_nHeight eq) by lia. by rewrite Hanc.
Qed.
End ActiveChain.

(** [SetTip] makes the vector of the active chain the path from the genesis block to the new
    tip, one entry per height, although it stops at the first entry that was already
    right: whatever the previous chain was, as long as it was such a path. *)
Theorem SetTip_exact (st : Store) (v : list (option ptr)) (p : ptr) (e : IndexEntry) :
  store_ok st -> path_ok st v -> st !! p = Some e ->
  SetTip st v (Some p) = Ok (path_to st p e) /\ path_ok st (path_to st p e).
Proof. intros Hst Hv Hp. split; [by apply SetTip_spec|by apply path_to_ok]. Qed.

Lemma SetTip_exact_witness :
  (store_ok sample_store /\ path_ok sample_store (path_to sample_store 6 (mkEntry 2005 3 (Some 5) (Some 2)))
   /\ sample_store !! 4 = Some (mkEntry 1003 3 (Some 3) (Some 2)))
  /\ SetTip sample_store [Some 1; Some 2; Some 5; Some 6] (Some 4) = Ok [Some 1; Some 2; Some 3; Some 4].
Proof.
  assert (Hp : path_ok sample_store (path_to sample_store 6 (mkEntry 2005 3 (Some 5) (Some 2)))).
  { apply path_to_ok; [exact sample_store_ok|by vm_compute]. }
  split; [split; [exact sample_store_ok|split; [exact Hp|by vm_compute]]|].
  exact (proj1 (SetTip_exact sample_store _ 4 (mkEntry 1003 3 (Some 3) (Some 2)) sample_store_ok Hp eq_refl)).
Defined.

Lemma FindFork_spec (st : Store) (v : list (option ptr)) (p : ptr) (e : IndexEntry) :
  store_ok st -> st !! p = Some e ->
  exists r, FindFork st v p = Ok r
    /\ (forall h, 0 <= h <= ie_nHeight e ->
         (forall x, r = Some x -> forall ex, st !! x = Some ex -> ie_nHeight ex < h) -> chain_at v h <> ancestor st p h)
    /\ (forall x, r = Some x -> exists ex, st !! x = Some ex /\ 0 <= ie_nHeight ex <= ie_nHeight e
         /\ ancestor st p (ie_nHeight ex) = Some x /\ chain_at v (ie_nHeight ex) = Some x).
Proof.
  intros Hst Hp. pose proof (ok_height _ _ _ (Hst _ _ Hp)) as H0. unfold FindFork. cbn [deref]. rewrite Hp.
  destruct (Z.ltb_spec (Height v) (ie_nHeight e)) as [Hlt|Hge].
  2:{ apply (fork_loop_spec st Hst _ v p e p e); try done; [by apply ancestor_self|lia]. }
  assert (Habove : forall h, 0 <= h <= ie_nHeight e -> Height v < h -> chain_at v h <> ancestor st p h).
  { intros h Hh Hv Heq. destruct (ancestor_some st Hst p e h Hp Hh) as (q & eq & Hq & _). rewrite Hq in Heq.
    unfold chain_at in Heq. destruct (Z.ltb_spec h 0); [lia|]. by destruct (Z.ltb_spec (Height v) h); [|lia]. }
  rewrite (GetAncestor_spec st Hst p e) by done.
  destruct (Z.leb_spec 0 (Height v)) as [Hv0|Hv0]; cbn [andb].
  2:{ exists None. split; [by destruct (Z.to_nat (ie_nHeight e + 2))|]. split; [|done]. intros h Hh _. apply Habove; lia. }
  destruct (Z.leb_spec (Height v) (ie_nHeight e)); [|lia].
  destruct (ancestor_some st Hst p e (Height v) Hp) as (q & eq & Hq & Hqe & Hqh); [lia|]. rewrite Hq.
  destruct (fork_loop_spec st Hst (Z.to_nat (ie_nHeight e + 2)) v p e q eq) as (r & Hr & Hno & Hyes); try done; [by rewrite Hqh|lia|lia|].
  exists r. split; [done|]. split.
  - intros h Hh Hx. destruct (decide (h <= ie_nHeight eq)); [apply Hno; [lia|done]|apply Habove; lia].
  - intros x Hx. destruct (Hyes x Hx) as (ex & H1 & H2 & H3). exists ex. split_and!; try done; lia || apply H3.
Qed.

(** C35: [FindFork] returns the highest block that the chain of [p] has in common with the active
    chain, and null exactly when they have none. *)
Theorem FindFork_exact (st : Store) (v : list (option ptr)) (p : ptr) (e : IndexEntry) :
  store_ok st -> st !! p = Some e ->
  exists r, FindFork st v p = Ok r
    /\ (forall h, 0 <= h <= ie_nHeight e ->
         (forall x, r = Some x -> forall ex, st !! x = Some ex -> ie_nHeight ex < h) -> chain_at v h <> ancestor st p h)
    /\ (forall x, r = Some x -> exists ex, st !! x = Some ex /\ 0 <= ie_nHeight ex <= ie_nHeight e
         /\ ancestor st p (ie_nHeight ex) = Some x /\ chain_at v (ie_nHeight ex) = Some x).
Proof. apply FindFork_spec. Qed.

Lemma FindFork_exact_witness :
  (store_ok sample_store /\ sample_store !! 6 = Some (mkEntry 2005 3 (Some 5) (Some 2)))
  /\ FindFork sample_store [Some 1; Some 2; Some 3; Some 4] 6 = Ok (Some 2)
  /\ exists r, FindFork sample_store [Some 1; Some 2; Some 3; Some 4] 6 = Ok r
    /\ (forall h, 0 <= h <= 3 ->
         (forall x, r = Some x -> forall ex, sample_store !! x = Some ex -> ie_nHeight ex < h) ->
         chain_at [Some 1; Some 2; Some 3; Some 4] h <> ancestor sample_store 6 h)
    /\ (forall x, r = Some x -> exists ex, sample_store !! x = Some ex /\ 0 <= ie_nHeight ex <= 3
         /\ ancestor sample_store 6 (ie_nHeight ex) = Some x
         /\ chain_at [Some 1; Some 2; Some 3; Some 4] (ie_nHeight ex) = Some x).
Proof.
  split; [split; [exact sample_store_ok|by vm_compute]|]. split; [by vm_compute|].
  apply (FindFork_exact sample_store [Some 1; Some 2; Some 3; Some 4] 6 (mkEntry 2005 3 (Some 5) (Some 2)) sample_store_ok).
  by vm_compute.
Defined.

(** ** Locators *)
(** the heights a locator names: ten steps of one, then doubling steps, down to
    the genesis block *)
Fixpoint locator_heights (fuel : nat) (h nStep count : Z) : list Z :=
  match fuel with
  | O => []
  | S fuel' =>
      h :: if h =? 0 then []
           else locator_heights fuel' (Z.max (h - nStep) 0) (if 10 <? count + 1 then nStep * 2 else nStep) (count + 1)
  end.

Definition hash_at (st : Store) (p : ptr) (h : Z) : uint256 :=
  match q ← ancestor st p h; st !! q with Some e => ie_hash e | None => 0 end.

Lemma locator_loop_spec st v p e fuel q eq nStep have :
  store_ok st -> path_ok st v -> st !! p = Some e -> st !! q = Some eq ->
  ancestor st p (ie_nHeight eq) = Some q -> ie_nHeight eq <= ie_nHeight e -> 1 <= nStep ->
  locator_loop fuel st v (Some q) nStep have
  = Ok (have ++ map (hash_at st p) (locator_heights fuel (ie_nHeight eq) nStep (vsize have))).
Proof.
  intros Hst Hv Hp. revert q eq nStep have. induction fuel as [|fuel IH]; intros q eq nStep have Hq Hanc Hle Hstep.
  { cbn. by rewrite app_nil_r. }
  pose proof (ok_height _ _ _ (Hst _ _ Hq)) as H0.
  cbn [locator_loop locator_heights map]. unfold Contains. cbn [deref]. rewrite Hq. cbv zeta.
  assert (Hhash : hash_at st p (ie_nHeight eq) = ie_hash eq) by (unfold hash_at; rewrite Hanc; cbn; by rewrite Hq).
  rewrite Hhash. destruct (Z.eqb_spec (ie_nHeight eq) 0) as [Hz|Hnz]; [done|].
  set (h := Z.max (ie_nHeight eq - nStep) 0). assert (Hh : 0 <= h < ie_nHeight eq) by lia.
  destruct (ancestor_some st Hst q eq h Hq) as (r & er & Hr & Hre & Hrh); [lia|].
  assert (Hpr : ancestor st p h = Some r).
  { rewrite <- Hr. apply (ancestor_trans st p e (ie_nHeight eq) q eq); done || lia. }
  replace (vsize (have ++ [ie_hash eq])) with (vsize have + 1) by (unfold vsize; rewrite length_app; simpl; lia).
  assert (Hnext : (if bool_decide (chain_at v (ie_nHeight eq) = Some q) then Ok (chain_at v h) else GetAncestor st q h) = Ok (Some r)).
  { case_bool_decide as Hin.
    - rewrite chain_at_lookup in Hin |- * by lia. destruct (v !! Z.to_nat (ie_nHeight eq)) as [x|] eqn:Ev; [|done]. subst x.
      destruct (Hv _ _ Ev) as (q' & e' & [= <-] & _ & _ & Hj). rewrite Hj by lia. by rewrite Z2Nat.id, Hr by lia.
    - rewrite (GetAncestor_spec st Hst q eq) by done.
      destruct (Z.leb_spec 0 h), (Z.leb_spec h (ie_nHeight eq)); try lia. cbn [andb]. by rewrite Hr. }
  rewrite Hnext. rewrite IH with (eq := er); [|done|by rewrite Hrh|lia|destruct (10 <? vsize have + 1); lia].
  rewrite Hrh, <- app_assoc. cbn [app]. 
  replace (vsize (have ++ [ie_hash eq])) with (vsize have + 1) by (unfold vsize; rewrite length_app; simpl; lia). done.
Qed.

Lemma GetLocator_spec st v p e :
  store_ok st -> path_ok st v -> st !! p = Some e ->
  GetLocator st v (Some p) = Ok (map (hash_at st p) (locator_heights (Z.to_nat (ie_nHeight e + 1)) (ie_nHeight e) 1 0)).
Proof.
  intros Hst Hv Hp. unfold GetLocator. cbn [deref]. rewrite Hp.
  by rewrite (locator_loop_spec st v p e _ p e) by (done || lia || by apply ancestor_self).
Qed.
