(* ===== verification/Base58.v ===== *)
(** * Base58 strings and addresses

    [base58_codec.cpp] (base 58 with and without checksum), [base58.cpp] and
    [base58.h] (versioned payloads: addresses, shielded addresses and keys, secret
    keys), the prefixes of [chainparams.cpp] and the script of a community fund.
    A C string is the list of its characters before the terminating zero. *)

From stdpp Require Import base numbers list strings option.
From Stdlib Require Import ZArith Lia Ascii.
From S2P Require Import Prelude.
From S2P Require Import Serialize.
From S2P Require Import ScTypes.
From S2P Require Import Digits.
From S2P Require Import Primitives.
From S2P Require Import Forks.
From S2P Require Import Script.
From S2P Require Import Crypto.
From S2P Require Import Interpreter.
From S2P Require Import Standard.
Open Scope Z_scope.
Open Scope zen_scope.

(** the characters of a string literal *)
Fixpoint chars (s : string) : bytes :=
  match s with
  | EmptyString => []
  | String c s' => Z.of_N (N_of_ascii c) :: chars s'
  end.

(** [std::string::c_str()] read up to the first zero *)
Fixpoint c_str (s : bytes) : bytes :=
  match s with
  | [] => []
  | c :: s' => if c =? 0 then [] else c :: c_str s'
  end.

(** ** The codec *)
Definition pszBase58 : bytes :=
  chars "123456789ABCDEFGHJKLMNPQRSTUVWXYZabcdefghijkmnopqrstuvwxyz".

(** [isspace] of the "C" locale *)
Definition isspace (c : Z) : bool := (c =? 32) || ((9 <=? c) && (c <=? 13)).

(** [strchr(s, c) - s], [None] for the null pointer *)
Fixpoint strchr (s : bytes) (c : Z) : option Z :=
  match s with
  | [] => None
  | x :: s' => if x =? c then Some 0 else Z.succ <$> strchr s' c
  end.

(** a loop that advances [psz] past the characters [p] accepts *)
Fixpoint skip_while (p : Z -> bool) (psz : bytes) : bytes :=
  match psz with
  | [] => []
  | c :: psz' => if p c then skip_while p psz' else psz
  end.

(** the number of characters such a loop passes *)
Fixpoint count_while (p : Z -> bool) (psz : bytes) : nat :=
  match psz with
  | [] => 0
  | c :: psz' => if p c then S (count_while p psz') else 0
  end.

(** the loop over [b256.rbegin() .. rend()], the digits in that order *)
Fixpoint b256_loop (carry : Z) (it : list Z) : list Z * Z :=
  match it with
  | [] => ([], carry)
  | d :: it' =>
      let carry := carry + 58 * d in
      let '(ds, c) := b256_loop (Z.quot carry 256) it' in (Z.rem carry 256 :: ds, c)
  end.

(** the loop over [b58.rbegin() .. rend()] *)
Fixpoint b58_loop (carry : Z) (it : list Z) : list Z * Z :=
  match it with
  | [] => ([], carry)
  | d :: it' =>
      let carry := carry + 256 * d in
      let '(ds, c) := b58_loop (Z.quot carry 58) it' in (Z.rem carry 58 :: ds, c)
  end.

(** the loop over the characters; the digits are kept last one first.  [None] is
    [return false], otherwise the digits and where the loop stopped *)
Fixpoint decode_chars (psz : bytes) (rb256 : list Z) : res (option (list Z * bytes)) :=
  match psz with
  | [] => Ok (Some (rb256, []))
  | c :: psz' =>
      if isspace c then Ok (Some (rb256, psz))
      else
        match strchr pszBase58 c with
        | None => Ok None
        | Some ch =>
            let '(rb256', carry) := b256_loop ch rb256 in
            if negb (carry =? 0) then Err AssertFailed else decode_chars psz' rb256'
        end
  end.

Definition DecodeBase58 (psz : bytes) : res (option bytes) :=
  let psz := skip_while isspace psz in
  let zeroes := count_while (Z.eqb 49) psz in
  let psz := skip_while (Z.eqb 49) psz in
  let size := Z.to_nat (Z.quot (vsize psz * 733) 1000 + 1) in
  match decode_chars psz (replicate size 0) with
  | Err e => Err e
  | Ok None => Ok None
  | Ok (Some (rb256, psz)) =>
      match skip_while isspace psz with
      | _ :: _ => Ok None
      | [] => Ok (Some (replicate zeroes 0 ++ skip_while (Z.eqb 0) (rev rb256)))
      end
  end.

Fixpoint encode_bytes (p : bytes) (rb58 : list Z) : res (list Z) :=
  match p with
  | [] => Ok rb58
  | b :: p' =>
      let '(rb58', carry) := b58_loop b rb58 in
      if negb (carry =? 0) then Err AssertFailed else encode_bytes p' rb58'
  end.

Definition EncodeBase58 (vch : bytes) : res bytes :=
  let zeroes := count_while (Z.eqb 0) vch in
  let p := skip_while (Z.eqb 0) vch in
  let size := Z.to_nat (Z.quot (vsize p * 138) 100 + 1) in
  match encode_bytes p (replicate size 0) with
  | Err e => Err e
  | Ok rb58 =>
      Ok (replicate zeroes 49 ++
          map (fun d => nth (Z.to_nat d) pszBase58 0) (skip_while (Z.eqb 0) (rev rb58)))
  end.

Definition EncodeBase58Check (vchIn : bytes) : res bytes :=
  let hash := Hash [vchIn] in
  EncodeBase58 (vchIn ++ take 4 hash).

(** on [false] the vector is cleared *)
Definition DecodeBase58Check (psz : bytes) : res (option bytes) :=
  match DecodeBase58 psz with
  | Err e => Err e
  | Ok None => Ok None
  | Ok (Some vchRet) =>
      if vsize vchRet <? 4 then Ok None
      else
        let n := (length vchRet - 4)%nat in
        let hash := Hash [take n vchRet] in
        if negb (bool_decide (take 4 hash = drop n vchRet)) then Ok None
        else Ok (Some (take n vchRet))
  end.

(** ** Versioned data *)
Inductive Base58Type :=
| PUBKEY_ADDRESS | PUBKEY_ADDRESS_OLD | SCRIPT_ADDRESS | SCRIPT_ADDRESS_OLD
| SECRET_KEY | EXT_PUBLIC_KEY | EXT_SECRET_KEY
| ZCPAYMENT_ADDRRESS | ZCSPENDING_KEY | ZCVIEWING_KEY.

(** the main network leaves the viewing key prefix unset *)
Definition main_Base58Prefix (type : Base58Type) : bytes :=
  match type with
  | PUBKEY_ADDRESS => [0x20; 0x89] | PUBKEY_ADDRESS_OLD => [0x1C; 0xB8]
  | SCRIPT_ADDRESS => [0x20; 0x96] | SCRIPT_ADDRESS_OLD => [0x1C; 0xBD]
  | SECRET_KEY => [0x80]
  | EXT_PUBLIC_KEY => [0x04; 0x88; 0xB2; 0x1E] | EXT_SECRET_KEY => [0x04; 0x88; 0xAD; 0xE4]
  | ZCPAYMENT_ADDRRESS => [0x16; 0x9A] | ZCSPENDING_KEY => [0xAB; 0x36]
  | ZCVIEWING_KEY => []
  end.

Definition test_Base58Prefix (type : Base58Type) : bytes :=
  match type with
  | PUBKEY_ADDRESS => [0x20; 0x98] | PUBKEY_ADDRESS_OLD => [0x1D; 0x25]
  | SCRIPT_ADDRESS => [0x20; 0x92] | SCRIPT_ADDRESS_OLD => [0x1C; 0xBA]
  | SECRET_KEY => [0xEF]
  | EXT_PUBLIC_KEY => [0x04; 0x35; 0x87; 0xCF] | EXT_SECRET_KEY => [0x04; 0x35; 0x83; 0x94]
  | ZCPAYMENT_ADDRRESS => [0x16; 0xB6] | ZCSPENDING_KEY => [0xAC; 0x08]
  | ZCVIEWING_KEY => [0xA8; 0xAC; 0x0C]
  end.

(** [CRegTestParams] derives from [CTestNetParams] and keeps its prefixes *)
Definition Base58Prefix (net : Network) : Base58Type -> bytes :=
  match net with MAIN => main_Base58Prefix | TESTNET | REGTEST => test_Base58Prefix end.

Record CBase58Data := mkBase58 { vchVersion : bytes; vchData : bytes }.

Definition Base58_new : CBase58Data := mkBase58 [] [].

Definition SetData (vchVersionIn pdata : bytes) : CBase58Data := mkBase58 vchVersionIn pdata.

Definition Base58_SetString (psz : bytes) (nVersionBytes : nat) : res (bool * CBase58Data) :=
  match DecodeBase58Check psz with
  | Err e => Err e
  | Ok None => Ok (false, Base58_new)
  | Ok (Some vchTemp) =>
      if vsize vchTemp <? Z.of_nat nVersionBytes then Ok (false, Base58_new)
      else Ok (true, mkBase58 (take nVersionBytes vchTemp) (drop nVersionBytes vchTemp))
  end.

Definition Base58_ToString (d : CBase58Data) : res bytes :=
  EncodeBase58Check (vchVersion d ++ vchData d).

(** [operator<] of [std::vector] *)
Fixpoint vector_lt (a b : bytes) : bool :=
  match a, b with
  | _, [] => false
  | [], _ :: _ => true
  | x :: a', y :: b' => if x <? y then true else if y <? x then false else vector_lt a' b'
  end.

Definition Base58_CompareTo (a b : CBase58Data) : Z :=
  if vector_lt (vchVersion a) (vchVersion b) then -1
  else if vector_lt (vchVersion b) (vchVersion a) then 1
  else if vector_lt (vchData a) (vchData b) then -1
  else if vector_lt (vchData b) (vchData a) then 1
  else 0.

(** ** Transparent addresses *)
Section Addresses.
  Context (net : Network).
  Local Notation has_version d t := (bool_decide (vchVersion d = Base58Prefix net t)).

(** [CBitcoinAddress::Set]; [None] is [false], which leaves the object alone *)
Definition Address_Set (dest : CTxDestination) : option CBase58Data :=
  match dest with
  | CKeyID id => Some (SetData (Base58Prefix net PUBKEY_ADDRESS) id)
  | CScriptID id => Some (SetData (Base58Prefix net SCRIPT_ADDRESS) id)
  | CNoDestination => None
  end.

Definition Address_IsValid (d : CBase58Data) : bool :=
  let fCorrectSize := vsize (vchData d) =? 20 in
  let fKnownVersion :=
    has_version d PUBKEY_ADDRESS || has_version d SCRIPT_ADDRESS
    || has_version d PUBKEY_ADDRESS_OLD || has_version d SCRIPT_ADDRESS_OLD in
  fCorrectSize && fKnownVersion.

Definition Address_SetString (pszAddress : bytes) : res (bool * CBase58Data) :=
  Base58_SetString pszAddress 2.

Definition Address_Get (d : CBase58Data) : CTxDestination :=
  if negb (Address_IsValid d) then CNoDestination
  else
    let id := take 20 (vchData d) in
    if has_version d PUBKEY_ADDRESS || has_version d PUBKEY_ADDRESS_OLD then CKeyID id
    else if has_version d SCRIPT_ADDRESS || has_version d SCRIPT_ADDRESS_OLD then CScriptID id
    else CNoDestination.

(** the old prefixes have no index key *)
Definition Address_GetIndexKey (d : CBase58Data) : option (uint160 * Z) :=
  if negb (Address_IsValid d) then None
  else if has_version d PUBKEY_ADDRESS then Some (take 20 (vchData d), 1)
  else if has_version d SCRIPT_ADDRESS then Some (take 20 (vchData d), 2)
  else None.

Definition Address_IsPubKey (d : CBase58Data) : bool :=
  Address_IsValid d && (has_version d PUBKEY_ADDRESS || has_version d PUBKEY_ADDRESS_OLD).

Definition Address_GetKeyID (d : CBase58Data) : option uint160 :=
  if negb (Address_IsPubKey d) then None else Some (take 20 (vchData d)).

Definition Address_IsScript (d : CBase58Data) : bool :=
  Address_IsValid d && (has_version d SCRIPT_ADDRESS || has_version d SCRIPT_ADDRESS_OLD).

(** ** The script of a community fund *)
Definition GetCommunityFundScriptAtHeight (nHeight : Z) (cfType : CommunityFundType) : res CScript :=
  if negb (0 <? nHeight) then Err AssertFailed
  else
    match GetCommunityFundAddressAtHeight net nHeight cfType with
    | Err e => Err e
    | Ok str =>
        match Address_SetString (c_str (chars str)) with
        | Err e => Err e
        | Ok (_, address) =>
            if negb (Address_IsValid address) then Err AssertFailed
            else if negb (Address_IsScript address) then Err AssertFailed
            else
              match Address_Get address with
              | CScriptID scriptID => Ok (push_data [OP_HASH160] scriptID ++ [OP_EQUAL])
              | _ => Err (Exception "boost::bad_get")
              end
        end
    end.
End Addresses.

(** ** Shielded addresses and keys *)
Record PaymentAddress := mkPayAddr { a_pk : uint256; pk_enc : uint256 }.

Definition s_PaymentAddress : Serializer PaymentAddress :=
  s_iso (fun a => (a_pk a, pk_enc a)) (fun p => mkPayAddr p.1 p.2) (s_pair s_uint256 s_uint256).

Record ViewingKey := mkViewKey { vk_a_pk : uint256; sk_enc : uint256 }.

Definition s_ViewingKey : Serializer ViewingKey :=
  s_iso (fun k => (vk_a_pk k, sk_enc k)) (fun p => mkViewKey p.1 p.2) (s_pair s_uint256 s_uint256).

(** [contents.begin() & 0xF0] of a [uint252] *)
Definition leading_bits (x : uint256) : Z := Z.land (Z.shiftr x 248) 0xF0.

(** Writing checks the leading bits as well, and [uint252] refuses to be built
    with them set, so that a [SpendingKey] writes its [contents]. *)
Definition s_SpendingKey : Serializer uint256 :=
  mkSerializer (ser s_uint256)
    (let* x := unser s_uint256 in
     if negb (leading_bits x =? 0) then fail (Exception "spending key has invalid leading bits") else ret x)
    (ser_size s_uint256).

Section Encodings.
  Context (net : Network) {DATA : Type} (s : Serializer DATA) (PREFIX : Base58Type) (SER_SIZE : Z)
    (name : string).

Definition ZCEncoding_Set (addr : DATA) : res CBase58Data :=
  let addrSerialized := ser s addr in
  if negb (vsize addrSerialized =? SER_SIZE) then Err AssertFailed
  else Ok (SetData (Base58Prefix net PREFIX) addrSerialized).

Definition ZCEncoding_Get (d : CBase58Data) : res DATA :=
  if negb (vsize (vchData d) =? SER_SIZE) then Err (Exception (name ++ " is invalid"))
  else if negb (bool_decide (vchVersion d = Base58Prefix net PREFIX)) then
    Err (Exception (name ++ " is for wrong network type"))
  else
    match unser s (vchData d) with
    | Err e => Err e
    | Ok (ret, _) => Ok ret
    end.
End Encodings.

(** ** Secret keys *)
Record CKey := mkKey { fValid : bool; fCompressed : bool; key_vch : bytes }.

Section Secrets.
  (** [secp256k1_ec_seckey_verify] *)
  Context (net : Network) (seckey_verify : bytes -> bool).

Definition Key_new : CKey := mkKey false false (replicate 32 0).

Definition Key_Set (k : CKey) (range : bytes) (fCompressedIn : bool) : CKey :=
  if negb (vsize range =? 32) then mkKey false (fCompressed k) (key_vch k)
  else if seckey_verify range then mkKey true fCompressedIn range
  else mkKey false (fCompressed k) (key_vch k).

Definition Key_bytes (k : CKey) : bytes := if fValid k then key_vch k else [].

Definition Secret_SetKey (vchSecret : CKey) : res CBase58Data :=
  if negb (fValid vchSecret) then Err AssertFailed
  else
    Ok (mkBase58 (Base58Prefix net SECRET_KEY)
          (Key_bytes vchSecret ++ if fCompressed vchSecret then [1] else [])).

Definition Secret_GetKey (d : CBase58Data) : res CKey :=
  if negb (32 <=? vsize (vchData d)) then Err AssertFailed
  else
    Ok (Key_Set Key_new (take 32 (vchData d))
          ((32 <? vsize (vchData d)) && (nth 32 (vchData d) 0 =? 1))).

Definition Secret_IsValid (d : CBase58Data) : bool :=
  let fExpectedFormat :=
    (vsize (vchData d) =? 32) || ((vsize (vchData d) =? 33) && (nth 32 (vchData d) 0 =? 1)) in
  let fCorrectVersion := bool_decide (vchVersion d = Base58Prefix net SECRET_KEY) in
  fExpectedFormat && fCorrectVersion.

Definition Secret_SetString (pszSecret : bytes) : res (bool * CBase58Data) :=
  match Base58_SetString pszSecret 1 with
  | Err e => Err e
  | Ok (ok, d) => Ok (ok && Secret_IsValid d, d)
  end.
End Secrets.

Lemma b256_loop_digits carry l : b256_loop carry l = digits_loop 58 256 carry l.
Proof. revert carry. induction l as [|d l IH]; intros carry; cbn; [done|]. by rewrite IH. Qed.

Lemma b58_loop_digits carry l : b58_loop carry l = digits_loop 256 58 carry l.
Proof. revert carry. induction l as [|d l IH]; intros carry; cbn; [done|]. by rewrite IH. Qed.

(** ** Digits without leading zeros *)
Lemma rev_replicate (n : nat) (x : Z) : rev (replicate n x) = replicate n x.
Proof. rewrite rev_alt. apply reverse_replicate. Qed.

Lemma skip_zeros_replicate n l : skip_while (Z.eqb 0) (replicate n 0 ++ l) = skip_while (Z.eqb 0) l.
Proof. induction n as [|n IH]; [done|]. exact IH. Qed.

Lemma skip_while_split p l : l = take (count_while p l) l ++ skip_while p l.
Proof. induction l as [|c l IH]; cbn; [done|]. destruct (p c); cbn; [by f_equal|done]. Qed.

Lemma skip_while_idem p l : skip_while p (skip_while p l) = skip_while p l.
Proof. induction l as [|c l IH]; cbn; [done|]. destruct (p c) eqn:E; cbn; [done|by rewrite E]. Qed.

Lemma count_while_eqb k l : take (count_while (Z.eqb k) l) l = replicate (count_while (Z.eqb k) l) k.
Proof. induction l as [|c l IH]; cbn; [done|]. destruct (Z.eqb_spec k c) as [->|]; cbn; [by f_equal|done]. Qed.

Lemma skip_eqb_split k l : l = replicate (count_while (Z.eqb k) l) k ++ skip_while (Z.eqb k) l.
Proof. rewrite <- count_while_eqb. apply skip_while_split. Qed.

Lemma skip_while_Forall (P : Z -> Prop) p l : Forall P l -> Forall P (skip_while p l).
Proof. induction 1; cbn; [done|]. destruct (p x); [done|by constructor]. Qed.

Lemma skip_while_shorter p c l : skip_while p l <> c :: l.
Proof.
  intros Hc%(f_equal length). pose proof (skip_while_split p l) as Hs%(f_equal length).
  rewrite length_app in Hs. cbn in Hc. lia.
Qed.

(** Two sequences of digits with the same value differ in their leading zeros. *)
Lemma digits_skip_eq b l1 l2 :
  1 < b -> Forall (digit b) l1 -> Forall (digit b) l2 -> digits_value b (rev l1) = digits_value b (rev l2) ->
  skip_while (Z.eqb 0) l1 = skip_while (Z.eqb 0) l2.
Proof.
  intros Hb H1 H2 E.
  assert (Heq : replicate (length l2) 0 ++ l1 = replicate (length l1) 0 ++ l2).
  { rewrite <- (rev_involutive (_ ++ l1)), <- (rev_involutive (_ ++ l2)). f_equal. apply (digits_inj b); [done|..].
    - apply Forall_rev, Forall_app. split; [apply digits_zeros; lia|done].
    - apply Forall_rev, Forall_app. split; [apply digits_zeros; lia|done].
    - rewrite !length_rev, !length_app, !length_replicate. lia.
    - rewrite !rev_app_distr, !rev_replicate, !digits_value_snoc_zeros. done. }
  rewrite <- (skip_zeros_replicate (length l2) l1), Heq. apply skip_zeros_replicate.
Qed.

(** ** The buffers are large enough *)
Lemma pow_room a b p q n :
  1 < a -> 1 < b -> 0 < q -> 0 <= p -> 0 <= n -> a ^ q <= b ^ p -> a ^ n <= b ^ (Z.quot (n * p) q + 1).
Proof.
  intros Ha Hb Hq Hp Hn Hpow. rewrite Z.quot_div_nonneg by lia. set (k := n * p / q + 1).
  assert (Hk : n * p <= k * q) by (unfold k; pose proof (Z.div_mod (n * p) q ltac:(lia));
    pose proof (Z.mod_pos_bound (n * p) q Hq); nia).
  assert (0 <= k) by (unfold k; pose proof (Z.div_pos (n * p) q); lia).
  destruct (Z.le_gt_cases (a ^ n) (b ^ k)) as [|Hlt]; [done|]. exfalso.
  assert (Hc : (b ^ k) ^ q < (a ^ n) ^ q) by (apply Z.pow_lt_mono_l; [lia|]; split; [apply Z.pow_nonneg|]; lia).
  rewrite <- !Z.pow_mul_r in Hc by lia.
  assert (a ^ (n * q) <= b ^ (n * p)).
  { rewrite (Z.mul_comm n q), (Z.mul_comm n p), !Z.pow_mul_r by lia. apply Z.pow_le_mono_l.
    split; [apply Z.pow_nonneg; lia|done]. }
  assert (b ^ (n * p) <= b ^ (k * q)) by (apply Z.pow_le_mono_r; lia). lia.
Qed.

Lemma encode_room n : 0 <= n -> 256 ^ n <= 58 ^ (Z.quot (n * 138) 100 + 1).
Proof. intros. apply pow_room; [done..|lia|]. vm_compute. discriminate. Qed.

Lemma decode_room n : 0 <= n -> 58 ^ n <= 256 ^ (Z.quot (n * 733) 1000 + 1).
Proof. intros. apply pow_room; [done..|lia|]. vm_compute. discriminate. Qed.

(** the value of digits that are read from the first on *)
Definition be_value (b : Z) (l : list Z) : Z := digits_value b (rev l).

Lemma be_value_cons b d l : be_value b (d :: l) = d * b ^ vsize l + be_value b l.
Proof. unfold be_value. cbn [rev]. rewrite digits_value_snoc. unfold vsize. rewrite length_rev. lia. Qed.

Lemma be_value_bound b l : 0 < b -> Forall (digit b) l -> 0 <= be_value b l < b ^ vsize l.
Proof.
  intros Hb Hl. unfold be_value. replace (vsize l) with (vsize (rev l)) by (unfold vsize; by rewrite length_rev).
  apply digits_value_bound; [done|]. by apply Forall_rev.
Qed.

Lemma be_value_zeros b n l : be_value b (replicate n 0 ++ l) = be_value b l.
Proof. unfold be_value. by rewrite rev_app_distr, rev_replicate, digits_value_snoc_zeros. Qed.

(** One step of either loop, when the value read so far leaves room for the rest. *)
Lemma digits_step m b d (l : list Z) (n : Z) ds c :
  1 < m -> 1 < b -> Forall (digit b) l -> digit m d -> 0 <= n ->
  (digits_value b l + 1) * m ^ Z.succ n <= b ^ vsize l -> digits_loop m b d l = (ds, c) ->
  c = 0 /\ Forall (digit b) ds /\ length ds = length l /\ digits_value b ds = m * digits_value b l + d
  /\ (digits_value b ds + 1) * m ^ n <= b ^ vsize ds.
Proof.
  intros Hm Hb Hl Hd Hn Hroom E. unfold digit in Hd.
  pose proof (digits_value_bound b l ltac:(lia) Hl). rewrite Z.pow_succ_r in Hroom by lia.
  assert (0 < m ^ n) by (apply Z.pow_pos_nonneg; lia).
  destruct (digits_loop_fits m b d l ds c) as (-> & Hds & Hlen & Hv); try done; [lia..|nia|].
  split_and!; try done; [lia|]. unfold vsize in *. rewrite Hlen, Hv. nia.
Qed.

Lemma encode_bytes_spec p rb :
  Forall (digit 256) p -> Forall (digit 58) rb ->
  (digits_value 58 rb + 1) * 256 ^ vsize p <= 58 ^ vsize rb ->
  exists r, encode_bytes p rb = Ok r /\ Forall (digit 58) r
    /\ digits_value 58 r = digits_value 58 rb * 256 ^ vsize p + be_value 256 p.
Proof.
  intros Hp. revert rb. induction Hp as [|d p Hd Hp IH]; intros rb Hrb Hroom.
  { exists rb. split_and!; try done. unfold vsize, be_value. cbn. lia. }
  cbn [encode_bytes]. rewrite b58_loop_digits. destruct (digits_loop 256 58 d rb) as [ds c] eqn:E.
  unfold vsize in Hroom at 1. cbn [length] in Hroom. rewrite Nat2Z.inj_succ in Hroom.
  destruct (digits_step 256 58 d rb (vsize p) ds c) as (-> & Hds & Hlen & Hv & Hroom'); try done; [unfold vsize; lia|].
  destruct (IH ds Hds Hroom') as (r & -> & Hr & Hvr). exists r. split_and!; [done..|].
  rewrite Hvr, Hv, be_value_cons. unfold vsize. cbn [length]. rewrite Nat2Z.inj_succ, Z.pow_succ_r by lia. lia.
Qed.

(** ** The alphabet *)
Definition to_char (d : Z) : Z := nth (Z.to_nat d) pszBase58 0.

Lemma strchr_range s c d : strchr s c = Some d -> 0 <= d < vsize s /\ nth (Z.to_nat d) s 0 = c.
Proof.
  revert d. induction s as [|x s IH]; intros d; [done|]. cbn [strchr]. unfold vsize in *. cbn [length].
  destruct (Z.eqb_spec x c) as [->|].
  { intros [= <-]. split; [lia|done]. }
  destruct (strchr s c) as [d'|]; [|done]. cbn. intros [= <-]. destruct (IH d' eq_refl) as [? <-].
  split; [lia|]. by rewrite Z2Nat.inj_succ by lia.
Qed.

Lemma strchr_digit c d : strchr pszBase58 c = Some d -> digit 58 d /\ to_char d = c.
Proof. apply strchr_range. Qed.

Lemma digits_enum b d : digit b d -> d ∈ seqZ 0 b.
Proof. unfold digit. intros. apply elem_of_seqZ. lia. Qed.

Lemma to_char_digit d :
  digit 58 d -> strchr pszBase58 (to_char d) = Some d /\ isspace (to_char d) = false
    /\ (49 =? to_char d) = (0 =? d).
Proof.
  intros Hd%digits_enum.
  assert (Hall : Forall (fun d => strchr pszBase58 (to_char d) = Some d /\ isspace (to_char d) = false
    /\ (49 =? to_char d) = (0 =? d)) (seqZ 0 58)).
  { apply (bool_decide_unpack _). by vm_compute. }
  rewrite list.Forall_forall in Hall. by apply Hall.
Qed.

(** a character of the alphabet with its digit *)
Definition char_digit (c d : Z) : Prop := isspace c = false /\ strchr pszBase58 c = Some d.

Lemma to_chars_digits ds : Forall (digit 58) ds -> Forall2 char_digit (map to_char ds) ds.
Proof. induction 1 as [|d ds Hd _ IH]; cbn; constructor; [|done]. split; by apply to_char_digit. Qed.

Lemma chars_of_digits word ds : Forall2 char_digit word ds -> word = map to_char ds /\ Forall (digit 58) ds.
Proof.
  induction 1 as [|c d word ds [_ Hc] _ [IH1 IH2]]; [done|]. apply strchr_digit in Hc as [Hd <-].
  cbn. split; [by f_equal|by constructor].
Qed.

(** no digit, or a first digit that is not zero *)
Definition canonical (l : list Z) : Prop := skip_while (Z.eqb 0) l = l.

Lemma skip_ones ds : Forall (digit 58) ds -> canonical ds -> skip_while (Z.eqb 49) (map to_char ds) = map to_char ds.
Proof.
  intros Hds Hc. destruct Hds as [|d ds Hd Hds]; [done|]. unfold canonical in Hc.
  cbn [map skip_while] in *. destruct (to_char_digit d Hd) as (_ & _ & ->). destruct (0 =? d); [|done].
  by apply skip_while_shorter in Hc.
Qed.

Lemma canonical_count l : canonical l -> count_while (Z.eqb 0) l = 0%nat.
Proof.
  unfold canonical. destruct l as [|d l]; [done|]. cbn [skip_while count_while]. destruct (0 =? d); [|done]. intros Hc. by apply skip_while_shorter in Hc.
Qed.

(** ** Decoding *)
Lemma decode_chars_spec psz rb :
  Forall (digit 256) rb -> (digits_value 256 rb + 1) * 58 ^ vsize psz <= 256 ^ vsize rb ->
  match decode_chars psz rb with
  | Err _ => False
  | Ok None => exists word c rest, psz = word ++ c :: rest
      /\ Forall (fun c => isspace c = false) (word ++ [c]) /\ strchr pszBase58 c = None
  | Ok (Some (r, rest)) => exists word ds, psz = word ++ rest /\ Forall2 char_digit word ds
      /\ (forall c l, rest = c :: l -> isspace c = true)
      /\ Forall (digit 256) r /\ digits_value 256 r = digits_value 256 rb * 58 ^ vsize ds + be_value 58 ds
  end.
Proof.
  revert rb. induction psz as [|c psz IH]; intros rb Hrb Hroom; cbn [decode_chars].
  { exists [], []. split_and!; try done; unfold vsize, be_value; cbn; lia. }
  destruct (isspace c) eqn:Esp.
  { exists [], []. split_and!; try done; [by intros ?? [= <- <-]|]. unfold vsize, be_value. cbn. lia. }
  destruct (strchr pszBase58 c) as [d|] eqn:Ech; [|by exists [], c, psz; repeat constructor].
  rewrite b256_loop_digits. destruct (digits_loop 58 256 d rb) as [ds k] eqn:E.
  pose proof (strchr_digit _ _ Ech) as [Hd _].
  unfold vsize in Hroom at 1. cbn [length] in Hroom. rewrite Nat2Z.inj_succ in Hroom.
  destruct (digits_step 58 256 d rb (vsize psz) ds k) as (-> & Hds & Hlen & Hv & Hroom'); try done; [unfold vsize; lia|].
  cbn [Z.eqb negb]. specialize (IH ds Hds Hroom'). destruct (decode_chars psz ds) as [[[r rest]|]|e]; [| |done].
  - destruct IH as (word & es & -> & Hw & Hrest & Hr & Hvr). exists (c :: word), (d :: es).
    split_and!; try done; [by constructor|].
    rewrite Hvr, Hv, be_value_cons. unfold vsize. cbn [length]. rewrite Nat2Z.inj_succ, Z.pow_succ_r by lia. lia.
  - destruct IH as (word & c' & rest & -> & Hw & Hc'). exists (c :: word), c', rest. split_and!; try done. by constructor.
Qed.

Definition spaces (l : bytes) : Prop := Forall (fun c => isspace c = true) l.

Lemma skip_while_spaces l s : spaces l -> skip_while isspace (l ++ s) = skip_while isspace s.
Proof. induction 1 as [|c l Hc _ IH]; [done|]. cbn [app skip_while]. by rewrite Hc. Qed.

Lemma skip_spaces_split psz : exists l, spaces l /\ psz = l ++ skip_while isspace psz.
Proof.
  induction psz as [|c psz (l & Hl & E)]; cbn [skip_while];
    [exists []; split; [constructor|done]|].
  destruct (isspace c) eqn:Ec; [|exists []; split; [constructor|done]]. exists (c :: l). split; [by constructor|]. cbn. by f_equal.
Qed.

(** what the encoder writes: a '1' per leading zero and the digits of the number *)
Definition base58_of (n : nat) (ds : list Z) : bytes := replicate n 49 ++ map to_char ds.

Lemma EncodeBase58_spec v :
  Forall is_byte v ->
  exists ds, EncodeBase58 v = Ok (base58_of (count_while (Z.eqb 0) v) ds)
    /\ Forall (digit 58) ds /\ canonical ds /\ be_value 58 ds = be_value 256 v.
Proof.
  intros Hv. set (p := skip_while (Z.eqb 0) v).
  assert (Hp : Forall (digit 256) p) by by apply skip_while_Forall.
  unfold EncodeBase58. fold p. set (size := Z.to_nat (Z.quot (vsize p * 138) 100 + 1)).
  destruct (encode_bytes_spec p (replicate size 0)) as (r & -> & Hr & Hval); [done|apply digits_zeros; lia|..].
  { rewrite digits_value_zeros, Z.mul_1_l. unfold vsize at 2. rewrite length_replicate.
    unfold size. rewrite Z2Nat.id by (unfold vsize; apply Z.add_nonneg_nonneg; [apply Z.quot_pos|]; lia).
    apply encode_room. unfold vsize. lia. }
  exists (skip_while (Z.eqb 0) (rev r)). split_and!; [done|by apply skip_while_Forall, Forall_rev|apply skip_while_idem|].
  assert (Hvalue : be_value 256 v = be_value 256 p).
  { rewrite (skip_eqb_split 0 v), be_value_zeros. done. }
  assert (Hskip : be_value 58 (skip_while (Z.eqb 0) (rev r)) = be_value 58 (rev r)).
  { rewrite (skip_eqb_split 0 (rev r)) at 2. by rewrite be_value_zeros. }
  rewrite Hvalue, Hskip. unfold be_value at 1. rewrite rev_involutive, Hval, digits_value_zeros. lia.
Qed.

(** a run of characters that are not spaces ends where a space follows *)
Lemma word_split w1 w2 r1 r2 :
  w1 ++ r1 = w2 ++ r2 -> Forall (fun c => isspace c = false) w1 -> Forall (fun c => isspace c = false) w2 ->
  (forall c l, r1 = c :: l -> isspace c = true) -> (forall c l, r2 = c :: l -> isspace c = true) ->
  w1 = w2 /\ r1 = r2.
Proof.
  intros E H1. revert w2 E. induction H1 as [|c w1 Hc H1 IH]; intros w2 E H2 Hr1 Hr2.
  - destruct H2 as [|d w2 Hd H2]; [done|]. cbn in E. specialize (Hr1 _ _ E). congruence.
  - destruct H2 as [|d w2 Hd H2]; cbn in E.
    + specialize (Hr2 _ _ (eq_sym E)). congruence.
    + injection E as <- E. destruct (IH w2 E H2 Hr1 Hr2) as [-> ->]. done.
Qed.

Lemma char_digit_word word ds : Forall2 char_digit word ds -> Forall (fun c => isspace c = false) word.
Proof. induction 1 as [|c d word ds [Hc _] _ IH]; by constructor. Qed.

Lemma char_digits_inj word ds es : Forall2 char_digit word ds -> Forall2 char_digit word es -> ds = es.
Proof.
  intros H. revert es. induction H as [|c d word ds [_ Hc] _ IH]; intros es He; inversion He as [|? e ? es' [_ Hc'] He']; subst; [done|].
  f_equal; [congruence|by apply IH].
Qed.

(** a word of the alphabet followed by spaces has no character outside of it *)
Lemma bad_char_absent w ds r word c rest :
  Forall2 char_digit w ds -> spaces r -> w ++ r = word ++ c :: rest ->
  Forall (fun c => isspace c = false) (word ++ [c]) -> strchr pszBase58 c = None -> False.
Proof.
  intros Hw Hr. revert word. induction Hw as [|x d w ds [_ Hx] _ IH]; intros word E Hn Hc.
  - cbn in E. subst r. apply Forall_app in Hr as [_ Hr]. apply Forall_app in Hn as [_ Hn].
    apply list.Forall_cons in Hr as [Hr _]. apply list.Forall_cons in Hn as [Hn _]. congruence.
  - destruct word as [|y word]; cbn in E; injection E as -> E; [congruence|].
    apply list.Forall_cons in Hn as [_ Hn]. by apply (IH word).
Qed.

Lemma spaces_head r c l : spaces r -> r = c :: l -> isspace c = true.
Proof. intros Hr ->. by apply list.Forall_cons in Hr as [Hc _]. Qed.

Lemma skip_spaces r : spaces r -> skip_while isspace r = [].
Proof. intros Hr. rewrite <- (app_nil_r r). by rewrite skip_while_spaces. Qed.

Lemma skip_spaces_nil r : skip_while isspace r = [] -> spaces r.
Proof. destruct (skip_spaces_split r) as (l & Hl & E). intros E'. by rewrite E, E', app_nil_r. Qed.

(** leading spaces go, and the spaces that may follow *)
Lemma skip_to_word w r :
  Forall (fun c => isspace c = false) w -> spaces r -> exists r', spaces r' /\ skip_while isspace (w ++ r) = w ++ r'.
Proof.
  intros Hw Hr. destruct Hw as [|c w Hc Hw]; cbn [app skip_while].
  - exists []. split; [constructor|]. by apply skip_spaces.
  - exists r. by rewrite Hc.
Qed.

(** the first character after the ones *)
Lemma skip_ones_word n ds r :
  Forall (digit 58) ds -> canonical ds -> spaces r ->
  let s := replicate n 49 ++ map to_char ds ++ r in
  skip_while (Z.eqb 49) s = map to_char ds ++ r /\ count_while (Z.eqb 49) s = n.
Proof.
  intros Hds Hc Hr. cbn zeta. induction n as [|n [IH1 IH2]].
  2:{ cbn [replicate app skip_while count_while]. rewrite Z.eqb_refl. by rewrite IH1, IH2. }
  cbn [replicate app]. destruct Hds as [|d ds Hd Hds]; cbn [map app].
  - destruct Hr as [|c r Hspace Hr]; [done|]. cbn [skip_while count_while].
    destruct (Z.eqb_spec 49 c) as [<-|]; [by vm_compute in Hspace|done].
  - unfold canonical in Hc. cbn [skip_while count_while] in *.
    destruct (to_char_digit d Hd) as (_ & _ & ->). destruct (0 =? d); [|done].
    by apply skip_while_shorter in Hc.
Qed.

Section Decoded.
  Context (psz : bytes).
  Local Notation psz1 := (skip_while isspace psz).
  Local Notation psz2 := (skip_while (Z.eqb 49) psz1).
  Local Notation zeroes := (count_while (Z.eqb 49) psz1).
  Local Notation size := (Z.to_nat (Z.quot (vsize psz2 * 733) 1000 + 1)).

Lemma decode_buffer :
  Forall (digit 256) (replicate size 0)
  /\ (digits_value 256 (replicate size 0) + 1) * 58 ^ vsize psz2 <= 256 ^ vsize (replicate size 0).
Proof.
  split; [apply digits_zeros; lia|]. rewrite digits_value_zeros, Z.mul_1_l. unfold vsize at 2.
  rewrite length_replicate.
  rewrite Z2Nat.id by (unfold vsize; apply Z.add_nonneg_nonneg; [apply Z.quot_pos|]; lia).
  apply decode_room. unfold vsize. lia.
Qed.

(** decoding never aborts, and what it accepts is a number in base 58 between spaces *)
Lemma DecodeBase58_sound :
  match DecodeBase58 psz with
  | Err _ => False
  | Ok None => True
  | Ok (Some v) => exists l n ds r w, spaces l /\ spaces r /\ psz = l ++ base58_of n ds ++ r
      /\ Forall (digit 58) ds /\ canonical ds /\ v = replicate n 0 ++ w
      /\ Forall is_byte w /\ canonical w /\ be_value 256 w = be_value 58 ds
  end.
Proof.
  destruct decode_buffer as [Hbuf Hroom]. pose proof (decode_chars_spec psz2 _ Hbuf Hroom) as Hspec.
  unfold DecodeBase58. cbv zeta.
  destruct (decode_chars psz2 (replicate size 0)) as [[[rb rest]|]|e]; [|done..].
  destruct Hspec as (word & ds & Hpsz2 & Hword & Hrest & Hrb & Hval).
  destruct (skip_while isspace rest) eqn:Espace; [|done].
  destruct (skip_spaces_split psz) as (l & Hl & Epsz).
  exists l, zeroes, ds, rest, (skip_while (Z.eqb 0) (rev rb)).
  apply chars_of_digits in Hword as [-> Hds].
  split_and!; [done|by apply skip_spaces_nil| |done| |done|by apply skip_while_Forall, Forall_rev|apply skip_while_idem|].
  - rewrite Epsz at 1. f_equal. rewrite (skip_eqb_split 49 psz1) at 1. rewrite Hpsz2.
    unfold base58_of. by rewrite <- app_assoc.
  - destruct Hds as [|d ds Hd Hds]; [done|]. unfold canonical. cbn [skip_while].
    assert (Hskip : skip_while (Z.eqb 49) psz2 = psz2) by apply skip_while_idem.
    rewrite Hpsz2 in Hskip. cbn [map app skip_while] in Hskip.
    destruct (to_char_digit d Hd) as (_ & _ & E). rewrite E in Hskip. destruct (0 =? d); [|done].
    by apply skip_while_shorter in Hskip.
  - rewrite digits_value_zeros in Hval. transitivity (be_value 256 (rev rb)).
    { rewrite (skip_eqb_split 0 (rev rb)) at 2. by rewrite be_value_zeros. }
    unfold be_value at 1. rewrite rev_involutive. lia.
Qed.

Lemma DecodeBase58_complete l n ds r :
  spaces l -> spaces r -> psz = l ++ base58_of n ds ++ r -> Forall (digit 58) ds -> canonical ds ->
  exists w, DecodeBase58 psz = Ok (Some (replicate n 0 ++ w))
    /\ Forall is_byte w /\ canonical w /\ be_value 256 w = be_value 58 ds.
Proof.
  intros Hl Hr Epsz Hds Hcan. pose proof (to_chars_digits ds Hds) as Hword.
  assert (Hw : Forall (fun c => isspace c = false) (base58_of n ds)).
  { apply Forall_app. split; [by apply Forall_replicate|by eapply char_digit_word]. }
  assert (exists r', spaces r' /\ psz1 = base58_of n ds ++ r') as (r' & Hr' & E1).
  { rewrite Epsz, skip_while_spaces by done. by apply skip_to_word. }
  unfold base58_of in E1. rewrite <- app_assoc in E1.
  destruct (skip_ones_word n ds r' Hds Hcan Hr') as [E2 En]. rewrite <- E1 in E2, En.
  destruct decode_buffer as [Hbuf Hroom]. pose proof (decode_chars_spec psz2 _ Hbuf Hroom) as Hspec.
  unfold DecodeBase58. cbv zeta.
  destruct (decode_chars psz2 (replicate size 0)) as [[[rb rest]|]|e]; [| |done].
  - destruct Hspec as (word & es & Hpsz2 & Hword2 & Hrest & Hrb & Hval). rewrite E2 in Hpsz2.
    destruct (word_split _ _ _ _ Hpsz2) as [Eword Erest]; [by eapply char_digit_word..|by intros; eapply spaces_head|done|].
    subst rest word. rewrite skip_spaces by done. exists (skip_while (Z.eqb 0) (rev rb)). rewrite En.
    split_and!; [done|by apply skip_while_Forall, Forall_rev|apply skip_while_idem|].
    assert (es = ds) as -> by by eapply char_digits_inj.
    rewrite digits_value_zeros in Hval. transitivity (be_value 256 (rev rb)).
    { rewrite (skip_eqb_split 0 (rev rb)) at 2. by rewrite be_value_zeros. }
    unfold be_value at 1. rewrite rev_involutive. lia.
  - destruct Hspec as (word & c & rest & Hpsz2 & Hnsp & Hc). rewrite E2 in Hpsz2.
    exfalso. by eapply bad_char_absent.
Qed.
End Decoded.

(** ** Encoding and decoding are inverse *)
Lemma canonical_bytes_eq n v w :
  Forall is_byte v -> Forall is_byte w -> canonical w -> count_while (Z.eqb 0) v = n ->
  be_value 256 v = be_value 256 w -> v = replicate n 0 ++ w.
Proof.
  intros Hv Hw Hc <- E. rewrite (skip_eqb_split 0 v) at 1. f_equal. rewrite <- Hc.
  apply (digits_skip_eq 256); done.
Qed.

Lemma canonical_digits_eq v w : Forall (digit 58) v -> Forall (digit 58) w -> canonical v -> canonical w ->
  be_value 58 v = be_value 58 w -> v = w.
Proof. intros Hv Hw Hcv Hcw E. rewrite <- Hcv, <- Hcw. by apply (digits_skip_eq 58). Qed.

Lemma count_zeros n w : canonical w -> count_while (Z.eqb 0) (replicate n 0 ++ w) = n.
Proof. intros Hw%canonical_count. induction n as [|n IH]; cbn [replicate app count_while]; [done|]. by rewrite IH. Qed.

Lemma base58_exact_iff (psz v : bytes) :
  DecodeBase58 psz = Ok (Some v) <->
  Forall is_byte v /\ exists l s r, spaces l /\ spaces r /\ psz = l ++ s ++ r /\ EncodeBase58 v = Ok s.
Proof.
  split.
  - intros E. pose proof (DecodeBase58_sound psz) as H. rewrite E in H.
    destruct H as (l & n & ds & r & w & Hl & Hr & -> & Hds & Hcan & -> & Hw & Hcw & Hval).
    assert (Hv : Forall is_byte (replicate n 0 ++ w)).
    { apply Forall_app. split; [by apply Forall_replicate|done]. }
    split; [done|]. exists l, (base58_of n ds), r. split_and!; try done.
    destruct (EncodeBase58_spec _ Hv) as (es & -> & Hes & Hce & Hve). rewrite count_zeros by done.
    do 2 f_equal. apply canonical_digits_eq; try done. rewrite Hve, be_value_zeros. done.
  - intros (Hv & l & s & r & Hl & Hr & -> & Es).
    destruct (EncodeBase58_spec v Hv) as (ds & E & Hds & Hcan & Hval). rewrite E in Es. injection Es as <-.
    destruct (DecodeBase58_complete _ l (count_while (Z.eqb 0) v) ds r Hl Hr eq_refl Hds Hcan) as (w & -> & Hw & Hcw & Hvw).
    do 2 f_equal. symmetry. apply canonical_bytes_eq; try done. congruence.
Qed.

(** C25: base 58 is exact: decoding never aborts, every vector of bytes has an
    encoding, and a string decodes to a vector if and only if, up to spaces before
    and after it, it is the encoding of that vector. *)
Theorem base58_exact (psz v : bytes) :
  (exists o, DecodeBase58 psz = Ok o) /\ (Forall is_byte v -> exists s, EncodeBase58 v = Ok s)
  /\ (DecodeBase58 psz = Ok (Some v) <->
      Forall is_byte v /\ exists l s r, spaces l /\ spaces r /\ psz = l ++ s ++ r /\ EncodeBase58 v = Ok s).
Proof.
  split_and!; [| |apply base58_exact_iff].
  - pose proof (DecodeBase58_sound psz) as H. destruct (DecodeBase58 psz); [by eexists|done].
  - intros Hv. destruct (EncodeBase58_spec v Hv) as (ds & -> & _). by eexists.
Qed.

Lemma Hash_bytes l : Forall is_byte (Hash l).
Proof. unfold Hash, CHash256_Finalize, CSHA256_Finalize, Hasher_Finalize. apply sha256_output_bytes. Qed.

Lemma Hash_length l : length (Hash l) = 32%nat.
Proof. unfold Hash, CHash256_Finalize. apply length_sha256. Qed.

(** ** The same with the checksum *)
Lemma with_checksum (v : bytes) : Forall is_byte v -> Forall is_byte (v ++ take 4 (Hash [v])).
Proof. intros Hv. apply Forall_app. split; [done|]. apply Forall_take, Hash_bytes. Qed.

Lemma checksum_split (v : bytes) :
  let w := v ++ take 4 (Hash [v]) in
  vsize w <? 4 = false /\ take (length w - 4) w = v /\ drop (length w - 4) w = take 4 (Hash [v]).
Proof.
  cbn zeta. assert (Hlen : length (take 4 (Hash [v])) = 4%nat) by (rewrite length_take, Hash_length; done).
  unfold vsize. rewrite length_app, Hlen. replace (length v + 4 - 4)%nat with (length v) by lia.
  split_and!; [apply Z.ltb_ge; lia|by rewrite take_app_length|by rewrite drop_app_length].
Qed.

Lemma DecodeBase58Check_encoded v s : EncodeBase58Check v = Ok s -> Forall is_byte v -> DecodeBase58Check s = Ok (Some v).
Proof.
  intros E Hv. unfold EncodeBase58Check in E.
  assert (Ed : DecodeBase58 s = Ok (Some (v ++ take 4 (Hash [v])))).
  { apply (base58_exact_iff s). split; [by apply with_checksum|]. exists [], s, [].
    rewrite app_nil_r. split_and!; try done; constructor. }
  unfold DecodeBase58Check. rewrite Ed. cbv beta iota zeta. destruct (checksum_split v) as (-> & -> & ->).
  by rewrite bool_decide_true.
Qed.

Lemma EncodeBase58Check_total v : Forall is_byte v -> exists s, EncodeBase58Check v = Ok s.
Proof.
  intros Hv. unfold EncodeBase58Check. destruct (EncodeBase58_spec _ (with_checksum v Hv)) as (ds & -> & _). by eexists.
Qed.

(** Versioned data survives its string, the version taking the given bytes. *)
Lemma Base58_SetString_ToString d n :
  Forall is_byte (vchVersion d) -> Forall is_byte (vchData d) -> length (vchVersion d) = n ->
  exists s, Base58_ToString d = Ok s /\ Base58_SetString s n = Ok (true, d).
Proof.
  intros Hv Hd Hn. assert (Hall : Forall is_byte (vchVersion d ++ vchData d)) by by apply Forall_app.
  unfold Base58_ToString. destruct (EncodeBase58Check_total _ Hall) as (s & E). exists s. split; [done|].
  unfold Base58_SetString. rewrite (DecodeBase58Check_encoded _ _ E Hall).
  unfold vsize. rewrite length_app, Hn, take_app_length', drop_app_length' by done.
  destruct (Z.ltb_spec (Z.of_nat (n + length (vchData d))) (Z.of_nat n)); [lia|]. by destruct d.
Qed.

Lemma prefix_bytes net t : Forall is_byte (Base58Prefix net t).
Proof. destruct net, t; repeat constructor; by vm_compute. Qed.

Definition dest_ok (dest : CTxDestination) : Prop :=
  match dest with CNoDestination => False | CKeyID h | CScriptID h => Forall is_byte h /\ length h = 20%nat end.

(** C26: an address survives its string: every destination has an address, its
    string is accepted and gives the destination back on the same network, and on a
    network with other prefixes the address is not valid. *)
Theorem address_roundtrip (net : Network) (dest : CTxDestination) :
  dest_ok dest ->
  exists d s, Address_Set net dest = Some d /\ Base58_ToString d = Ok s
    /\ Address_SetString s = Ok (true, d) /\ Address_Get net d = dest
    /\ (forall net', (net = MAIN <-> net' <> MAIN) ->
         Address_IsValid net' d = false /\ Address_Get net' d = CNoDestination).
Proof.
  intros Hd. assert (exists t h, Address_Set net dest = Some (mkBase58 (Base58Prefix net t) h) /\ Forall is_byte h
    /\ length h = 20%nat /\ (dest = CKeyID h /\ t = PUBKEY_ADDRESS \/ dest = CScriptID h /\ t = SCRIPT_ADDRESS))
    as (t & h & E & Hh & Hlen & Ht) by (destruct dest; [done|..]; destruct Hd; eauto 10).
  destruct (Base58_SetString_ToString (mkBase58 (Base58Prefix net t) h) 2) as (s & Es & Hs);
    [apply prefix_bytes|done|by destruct net; destruct Ht as [[_ ->]|[_ ->]]|].
  exists (mkBase58 (Base58Prefix net t) h), s. split_and!; try done.
  - unfold Address_Get, Address_IsValid, vsize. cbn [vchVersion vchData]. rewrite take_ge by lia. rewrite Hlen.
    destruct Ht as [[-> ->]|[-> ->]]; by destruct net.
  - intros net' Hnet. enough (Hv : Address_IsValid net' (mkBase58 (Base58Prefix net t) h) = false)
      by (split; [done|unfold Address_Get; by rewrite Hv]).
    unfold Address_IsValid. apply andb_false_iff. right.
    destruct Ht as [[_ ->]|[_ ->]]; destruct net, net'; try done; exfalso; naive_solver.
Qed.

Lemma address_roundtrip_witness :
  exists d s, Address_Set MAIN (CScriptID (replicate 20 7)) = Some d /\ Base58_ToString d = Ok s
    /\ Address_SetString s = Ok (true, d) /\ Address_Get MAIN d = CScriptID (replicate 20 7).
Proof.
  destruct (address_roundtrip MAIN (CScriptID (replicate 20 7))) as (d & s & H1 & H2 & H3 & H4 & _).
  { split; [|done]. apply Forall_replicate. unfold is_byte. lia. }
  exists d, s. auto.
Defined.

(** ** The addresses of the community funds are script addresses *)
Definition script_address (net : Network) (a : string) : bool :=
  match Address_SetString (c_str (chars a)) with
  | Ok (_, d) => Address_IsScript net d
  | Err _ => false
  end.

Lemma community_tables_scripts net :
  forallb (script_address net) (rpfix_addresses net
    ++ concat (map (fun t => nulltx_addresses t net ++ scversion_addresses t net) [FOUNDATION; SECURENODE; SUPERNODE]))
  = true.
Proof. destruct net; vm_cast_no_check (eq_refl true). Qed.

Lemma community_addresses_scripts f net cfType l a :
  getHeight CommunityFundAndRPFixFork net <= getHeight f net -> getCommunityFundAddresses f net cfType = Ok l -> a ∈ l -> script_address net a = true.
Proof.
  intros Hf E Ha. pose proof (community_tables_scripts net) as Hall. rewrite forallb_forall in Hall. apply Hall.
  rewrite <- list_elem_of_In. cbn [concat map]. rewrite !elem_of_app.
  unfold getCommunityFundAddresses in E. destruct f, cfType; try discriminate E; injection E as <-; try tauto;
    exfalso; destruct net; vm_compute in Hf; by apply Hf.
Qed.

Lemma script_address_get net d : Address_IsScript net d = true ->
  Address_IsValid net d = true /\ Address_Get net d = CScriptID (vchData d) /\ length (vchData d) = 20%nat.
Proof.
  intros Hs. unfold Address_IsScript in Hs. apply andb_true_iff in Hs as [Hv Hver].
  assert (Hlen : length (vchData d) = 20%nat).
  { unfold Address_IsValid in Hv. zbool. unfold vsize in *. lia. }
  split_and!; [done| |done]. unfold Address_Get. rewrite Hv, Hver. cbn [negb]. rewrite take_ge by lia.
  match goal with |- (if ?b then _ else _) = _ => destruct b eqn:E end; [exfalso|done].
  apply orb_true_iff in Hver as [H1%bool_decide_eq_true|H1%bool_decide_eq_true];
    apply orb_true_iff in E as [H2%bool_decide_eq_true|H2%bool_decide_eq_true]; rewrite H1 in H2; by destruct net.
Qed.

(** From the fork that fixed the community fund on, whenever a part of the reward
    is due to a fund at a height, the script that must be paid is found: the address
    of the tables at that height has the right checksum, is a script address of the
    network and gives a pay-to-script-hash script, so that no assertion fails. *)
Theorem community_script_found (net : Network) (height : Z) (reward : CAmount) (cfType : CommunityFundType) :
  getHeight CommunityFundAndRPFixFork net <= height -> getCommunityFundReward net height reward cfType <> 0 ->
  exists h, GetCommunityFundScriptAtHeight net height cfType = Ok ([OP_HASH160; 20] ++ h ++ [OP_EQUAL])
    /\ length h = 20%nat /\ IsPayToScriptHash ([OP_HASH160; 20] ++ h ++ [OP_EQUAL]) = true.
Proof.
  intros Hf Hr. assert (0 < getHeight CommunityFundAndRPFixFork net) by by destruct net.
  assert (Hh : 0 < height) by lia.
  destruct (community_address_found net height reward cfType Hh Hr) as (l & a & Hl & Ea & Hin).
  assert (Hfork : getHeight CommunityFundAndRPFixFork net <= getHeight (getForkAtHeight net height) net).
  { apply Z.nlt_ge. intros Hlt%fork_bounds; lia. }
  pose proof (community_addresses_scripts _ _ _ _ _ Hfork Hl Hin) as Hs. unfold script_address in Hs.
  destruct (Address_SetString (c_str (chars a))) as [[ok d]|] eqn:Ed; [|done].
  destruct (script_address_get net d Hs) as (Hv & Hg & Hlen). exists (vchData d).
  unfold GetCommunityFundScriptAtHeight. rewrite (proj2 (Z.ltb_lt 0 height) Hh), Ea, Ed, Hv, Hs, Hg. cbn [negb].
  unfold push_data, vsize. rewrite Hlen. split_and!; [reflexivity|reflexivity|].
  clear -Hlen. destruct d as [ver h]. cbn in Hlen. do 20 (destruct h as [|? h]; [discriminate|]).
  destruct h; [reflexivity|discriminate].
Qed.

Lemma community_script_found_witness :
  exists h, GetCommunityFundScriptAtHeight MAIN 150000 FOUNDATION = Ok ([OP_HASH160; 20] ++ h ++ [OP_EQUAL])
    /\ length h = 20%nat.
Proof.
  destruct (community_script_found MAIN 150000 1250000000 FOUNDATION) as (h & H & Hl & _);
    [by vm_compute| |exact (ex_intro _ h (conj H Hl))].
  vm_compute. discriminate.
Defined.
