(* ===== verification/BlockData.v ===== *)
(** * Blocks and their Merkle trees

    [primitives/block.h] and [primitives/block.cpp]: headers with their format and
    hash, blocks, the tree of transaction and certificate hashes, its branches. *)

From stdpp Require Import base numbers list option sets countable.
From Stdlib Require Import ZArith Lia.
From S2P Require Import Prelude.
From S2P Require Import Serialize.
From S2P Require Import ScTypes.
From S2P Require Import Primitives.
From S2P Require Import Crypto.
Open Scope Z_scope.
Open Scope zen_scope.

(** ** Headers *)
Record CBlockHeader := mkHeader {
  hd_nVersion : Z;
  hashPrevBlock : uint256;
  hashMerkleRoot : uint256;
  hashScTxsCommitment : uint256;
  hd_nTime : Z;
  hd_nBits : Z;
  nNonce : uint256;
  nSolution : bytes }.

Definition s_header : Serializer CBlockHeader :=
  s_iso
    (fun h => (hd_nVersion h, (hashPrevBlock h, (hashMerkleRoot h, (hashScTxsCommitment h,
                (hd_nTime h, (hd_nBits h, (nNonce h, nSolution h))))))))
    (fun p => let '(v, (prev, (root, (comm, (t, (b, (nonce, sol))))))) := p in
              mkHeader v prev root comm t b nonce sol)
    (s_pair s_i32 (s_pair s_uint256 (s_pair s_uint256 (s_pair s_uint256
      (s_pair s_u32 (s_pair s_u32 (s_pair s_uint256 s_bytes))))))).

Definition header_SetNull : CBlockHeader := mkHeader 0 0 0 0 0 0 0 [].

Definition header_IsNull (h : CBlockHeader) : bool := hd_nBits h =? 0.

Definition GetBlockTime (h : CBlockHeader) : Z := hd_nTime h.

(** the [uint256] of the 32 bytes a hash function writes *)
Definition uint_of_bytes (b : bytes) : uint256 := le_combine (rev b).

Definition uint_bytes (x : uint256) : bytes := rev (le_split 32 x).

Definition SerializeHash {A} (s : Serializer A) (x : A) : uint256 := uint_of_bytes (Hash [ser s x]).

Definition header_GetHash (h : CBlockHeader) : uint256 := SerializeHash s_header h.

(** the part of a header the Equihash solution is about *)
Definition s_EquihashInput : Serializer CBlockHeader :=
  s_iso
    (fun h => (hd_nVersion h, (hashPrevBlock h, (hashMerkleRoot h, (hashScTxsCommitment h,
                (hd_nTime h, hd_nBits h))))))
    (fun p => let '(v, (prev, (root, (comm, (t, b))))) := p in mkHeader v prev root comm t b 0 [])
    (s_pair s_i32 (s_pair s_uint256 (s_pair s_uint256 (s_pair s_uint256 (s_pair s_u32 s_u32))))).

(** ** Blocks *)
Record CBlock := mkBlock {
  header : CBlockHeader;
  vtx : list CTransaction;
  vcert : list CScCertificate;
  vMerkleTree : list uint256 }.

Definition block_hashes (b : CBlock) : list uint256 := map tx_hash (vtx b) ++ map cert_hash (vcert b).

(** ** The tree

    [vMerkleTreeIn] holds the levels one after the other; [j] is where the level of
    size [nSize] starts.  [hash2] is the hash of two nodes. *)
Section Merkle.
  Context (hash2 : uint256 -> uint256 -> uint256).
  Local Notation at_ t i := (nth i t 0).

(** the loop over [i]; the fuel is the size of the level *)
Fixpoint merkle_level (fuel i nSize j : nat) (vMerkleTreeIn : list uint256) (mutated : bool)
  : list uint256 * bool :=
  match fuel with
  | O => (vMerkleTreeIn, mutated)
  | S fuel' =>
      if (i <? nSize)%nat then
        let i2 := Nat.min (i + 1) (nSize - 1) in
        let mutated' :=
          if (i2 =? i + 1)%nat && (i2 + 1 =? nSize)%nat
             && (at_ vMerkleTreeIn (j + i) =? at_ vMerkleTreeIn (j + i2))
          then true else mutated in
        merkle_level fuel' (i + 2) nSize j
          (vMerkleTreeIn ++ [hash2 (at_ vMerkleTreeIn (j + i)) (at_ vMerkleTreeIn (j + i2))]) mutated'
      else (vMerkleTreeIn, mutated)
  end.

(** the loop over the levels; the number of leaves bounds their number *)
Fixpoint merkle_levels (fuel nSize j : nat) (vMerkleTreeIn : list uint256) (mutated : bool)
  : list uint256 * bool :=
  match fuel with
  | O => (vMerkleTreeIn, mutated)
  | S fuel' =>
      if (1 <? nSize)%nat then
        let '(tree, mutated') := merkle_level nSize 0 nSize j vMerkleTreeIn mutated in
        merkle_levels fuel' (Nat.div (nSize + 1) 2) (j + nSize) tree mutated'
      else (vMerkleTreeIn, mutated)
  end.

(** the root, the flag and the vector *)
Definition BuildMerkleTree_in (vMerkleTreeIn : list uint256) (vtxSize : nat) : uint256 * bool * list uint256 :=
  let '(tree, mutated) := merkle_levels vtxSize vtxSize 0 vMerkleTreeIn false in
  (List.last tree 0, mutated, tree).

Definition BuildMerkleTree (b : CBlock) : uint256 * bool * CBlock :=
  let hashes := block_hashes b in
  let '(root, mutated, tree) := BuildMerkleTree_in hashes (length hashes) in
  (root, mutated, mkBlock (header b) (vtx b) (vcert b) tree).

Fixpoint merkle_branch (fuel nSize j : nat) (nIndex : Z) (tree : list uint256) : list uint256 :=
  match fuel with
  | O => []
  | S fuel' =>
      if (1 <? nSize)%nat then
        let i := Z.min (Z.lxor nIndex 1) (Z.of_nat nSize - 1) in
        at_ tree (j + Z.to_nat i)
        :: merkle_branch fuel' (Nat.div (nSize + 1) 2) (j + nSize) (Z.shiftr nIndex 1) tree
      else []
  end.

Definition GetMerkleBranch (b : CBlock) (nIndex : Z) : list uint256 :=
  let b := match vMerkleTree b with [] => (BuildMerkleTree b).2 | _ => b end in
  let n := (length (vtx b) + length (vcert b))%nat in
  merkle_branch n n 0 nIndex (vMerkleTree b).

Fixpoint check_branch (hash : uint256) (vMerkleBranch : list uint256) (nIndex : Z) : uint256 :=
  match vMerkleBranch with
  | [] => hash
  | x :: branch =>
      let hash' := if Z.odd nIndex then hash2 x hash else hash2 hash x in
      check_branch hash' branch (Z.shiftr nIndex 1)
  end.

Definition CheckMerkleBranch (hash : uint256) (vMerkleBranch : list uint256) (nIndex : Z) : uint256 :=
  if nIndex =? -1 then 0 else check_branch hash vMerkleBranch nIndex.
End Merkle.

(** the hash the node uses *)
Definition hash_nodes (a b : uint256) : uint256 := uint_of_bytes (Hash [uint_bytes a; uint_bytes b]).

(** ** Reference tree: each level pairs the nodes of the one below, repeating an odd
    last one *)
Section Reference.
  Context (hash2 : uint256 -> uint256 -> uint256).

Fixpoint pair_up (l : list uint256) : list uint256 :=
  match l with
  | [] => []
  | [a] => [hash2 a a]
  | a :: b :: l' => hash2 a b :: pair_up l'
  end.

(** the level ends in two equal nodes *)
Fixpoint ends_twice (l : list uint256) : bool :=
  match l with
  | [] => false
  | [_] => false
  | [a; b] => a =? b
  | _ :: _ :: l' => ends_twice l'
  end.

Fixpoint up (d : nat) (l : list uint256) : list uint256 :=
  match d with O => l | S d' => up d' (pair_up l) end.

(** the number of levels above [n] leaves *)
Fixpoint depth_of (fuel n : nat) : nat :=
  match fuel with
  | O => 0
  | S fuel' => if (1 <? n)%nat then S (depth_of fuel' (Nat.div (n + 1) 2)) else 0
  end.

Definition depth (l : list uint256) : nat := depth_of (length l) (length l).

Definition reference_root (l : list uint256) : uint256 := nth 0 (up (depth l) l) 0.

Definition reference_mutated (l : list uint256) : bool :=
  existsb (fun d => ends_twice (up d l)) (seq 0 (depth l)).
End Reference.

(** all the levels, one after the other *)
Fixpoint all_levels (hash2 : uint256 -> uint256 -> uint256) (d : nat) (l : list uint256) : list uint256 :=
  match d with O => l | S d' => l ++ all_levels hash2 d' (pair_up hash2 l) end.

Section Lemmas.
  Context (hash2 : uint256 -> uint256 -> uint256).
  Local Notation pair_up := (pair_up hash2).
  Local Notation up := (up hash2).
  Local Notation all_levels := (all_levels hash2).

(** induction two by two *)
Lemma two_ind (P : list Z -> Prop) :
  P [] -> (forall a, P [a]) -> (forall a b l, P l -> P (a :: b :: l)) -> forall l, P l.
Proof.
  intros H0 H1 H2. assert (forall l, P l /\ forall a, P (a :: l)) as H; [|intros l; apply H].
  induction l as [|b l [IH1 IH2]]; [split; [done|apply H1]|]. split; [apply IH2|]. intros a. by apply H2.
Qed.

Lemma length_pair_up l : length (pair_up l) = Nat.div (length l + 1) 2.
Proof.
  induction l as [|a|a b l IH] using two_ind; [done..|]. cbn [BlockData.pair_up length]. rewrite IH.
  replace (S (S (length l)) + 1)%nat with (1 * 2 + (length l + 1))%nat by lia. by rewrite Nat.div_add_l.
Qed.

Lemma pair_up_nonempty l : (1 < length l)%nat -> pair_up l <> [].
Proof. destruct l as [|a [|b l]]; cbn [length]; [lia..|done]. Qed.

Lemma half_lt n : (1 < n)%nat -> (1 <= Nat.div (n + 1) 2 < n)%nat.
Proof.
  intros Hn. pose proof (Nat.div_mod (n + 1) 2 ltac:(lia)). pose proof (Nat.mod_upper_bound (n + 1) 2 ltac:(lia)). lia.
Qed.

(** a level is appended, its end checked for repetition *)
Lemma merkle_level_spec fuel i n j A L B m :
  length A = j -> length L = n -> (i <= n)%nat -> (n - i <= 2 * fuel)%nat ->
  merkle_level hash2 fuel i n j (A ++ L ++ B) m
  = (A ++ L ++ B ++ pair_up (drop i L), m || ends_twice (drop i L)).
Proof.
  intros HA HL. revert i B m. induction fuel as [|fuel IH]; intros i B m Hi Hf.
  { rewrite drop_ge by lia. cbn. by rewrite app_nil_r, orb_false_r. }
  cbn [merkle_level]. destruct (Nat.ltb_spec i n) as [Hlt|].
  2:{ rewrite drop_ge by lia. cbn. by rewrite app_nil_r, orb_false_r. }
  assert (Hat : forall k, (k < n)%nat -> nth (j + k) (A ++ L ++ B) 0 = nth k L 0).
  { intros k Hk. rewrite app_nth2 by lia. rewrite app_nth1 by lia. f_equal. lia. }
  destruct (drop i L) as [|a l] eqn:El.
  { apply (f_equal length) in El. rewrite length_drop in El. simpl in El. lia. }
  assert (Ha : nth i L 0 = a).
  { rewrite <- (Nat.add_0_r i), <- nth_skipn, El. done. }
  rewrite (Hat i) by lia. rewrite Ha. destruct l as [|b l].
  - assert (n = S i) by (apply (f_equal length) in El; rewrite length_drop in El; simpl in El; lia).
    replace (Nat.min (i + 1) (n - 1)) with i by lia. rewrite (Hat i) by lia. rewrite Ha.
    destruct (Nat.eqb_spec i (i + 1)); [lia|]. cbn [andb].
    
    replace ((A ++ L ++ B) ++ [hash2 a a]) with (A ++ L ++ (B ++ [hash2 a a])) by (by rewrite <- !app_assoc).
    destruct fuel; cbn [merkle_level].
    + cbn. by rewrite orb_false_r.
    + destruct (Nat.ltb_spec (i + 2) n); [lia|]. cbn. by rewrite orb_false_r.
  - assert (Hlen : length l = (n - S (S i))%nat /\ (S (S i) <= n)%nat).
    { apply (f_equal length) in El. rewrite length_drop in El. simpl in El. lia. }
    replace (Nat.min (i + 1) (n - 1)) with (i + 1)%nat by lia.
    assert (Hb : nth (i + 1) L 0 = b) by (rewrite <- nth_skipn, El; done).
    rewrite (Hat (i + 1)%nat) by lia. rewrite Hb, Nat.eqb_refl. cbn [andb].
    replace ((A ++ L ++ B) ++ [hash2 a b]) with (A ++ L ++ (B ++ [hash2 a b])) by (by rewrite <- !app_assoc).
    rewrite IH by lia.
    assert (Ed : drop (i + 2) L = l) by (rewrite <- drop_drop, El; done). rewrite Ed.
    rewrite <- app_assoc. f_equal. destruct l as [|c l]; cbn [ends_twice].
    + replace (i + 1 + 1 =? n)%nat with true by (symmetry; apply Nat.eqb_eq; simpl in Hlen; lia).
      cbn [andb]. destruct (a =? b), m; done.
    + replace (i + 1 + 1 =? n)%nat with false by (symmetry; apply Nat.eqb_neq; simpl in Hlen; lia). done.
Qed.

Lemma depth_of_fuel fuel n : (n <= fuel)%nat -> depth_of fuel n = depth_of n n.
Proof.
  revert fuel. induction n as [n IH] using lt_wf_ind. intros fuel Hf.
  destruct n as [|n]; [by destruct fuel|]. destruct fuel as [|fuel]; [lia|]. cbn [depth_of].
  destruct (Nat.ltb_spec 1 (S n)) as [Hn|]; [|done]. f_equal. pose proof (half_lt (S n) Hn).
  rewrite (IH (Nat.div (S n + 1) 2)) by lia. symmetry. apply IH; lia.
Qed.

Lemma depth_step n : (1 < n)%nat -> depth_of n n = S (depth_of (Nat.div (n + 1) 2) (Nat.div (n + 1) 2)).
Proof.
  intros Hn. destruct n as [|n]; [lia|]. cbn [depth_of]. destruct (Nat.ltb_spec 1 (S n)); [|lia].
  f_equal. apply depth_of_fuel. pose proof (half_lt (S n) Hn). lia.
Qed.

Lemma depth_small n : (n <= 1)%nat -> depth_of n n = 0%nat.
Proof. destruct n as [|[|n]]; [done..|lia]. Qed.

Lemma depth_ind (P : list Z -> Prop) :
  (forall l, (length l <= 1)%nat -> P l) -> (forall l, (1 < length l)%nat -> P (pair_up l) -> P l) -> forall l, P l.
Proof.
  intros H0 H1 l. remember (length l) as n eqn:En. revert l En.
  induction n as [n IH] using lt_wf_ind. intros l ->.
  destruct (Nat.lt_ge_cases 1 (length l)) as [Hl|]; [|by apply H0].
  apply H1; [done|]. eapply IH; [|done]. rewrite length_pair_up. by apply half_lt.
Qed.

Lemma depth_pair_up l : (1 < length l)%nat -> depth l = S (depth (pair_up l)).
Proof. intros Hl. unfold depth. rewrite length_pair_up. by apply depth_step. Qed.

Lemma up_depth_length l : l <> [] -> length (up (depth l) l) = 1%nat.
Proof.
  induction l as [l Hl|l Hl IH] using depth_ind; intros Hne.
  - unfold depth. rewrite depth_small by done. destruct l as [|? [|]]; [done..|simpl in Hl; lia].
  - rewrite depth_pair_up by done. apply IH. by apply pair_up_nonempty.
Qed.

Lemma existsb_seq_S (f : nat -> bool) d : existsb f (seq 0 (S d)) = f 0%nat || existsb (fun k => f (S k)) (seq 0 d).
Proof. cbn [seq existsb]. f_equal. rewrite <- seq_shift. induction (seq 0 d); cbn; [done|]. by f_equal. Qed.

(** the loop over the levels builds the reference tree *)
Lemma merkle_levels_spec fuel n A L m :
  length L = n -> (n <= fuel)%nat ->
  merkle_levels hash2 fuel n (length A) (A ++ L) m
  = (A ++ all_levels (depth L) L, m || reference_mutated hash2 L).
Proof.
  intros HL Hf. revert fuel n A m HL Hf. induction L as [L Hl|L Hl IH] using depth_ind; intros fuel n A m <- Hf.
  - unfold reference_mutated, depth. rewrite depth_small by done. cbn. rewrite orb_false_r.
    destruct fuel; [done|]. cbn [merkle_levels]. destruct (Nat.ltb_spec 1 (length L)); [lia|done].
  - destruct fuel as [|fuel]; [lia|]. cbn [merkle_levels]. destruct (Nat.ltb_spec 1 (length L)); [|lia].
    replace (A ++ L) with (A ++ L ++ []) by (by rewrite app_nil_r).
    rewrite merkle_level_spec by lia. rewrite drop_0. cbn [app].
    rewrite app_assoc, <- length_app. rewrite IH; [|by rewrite length_pair_up|pose proof (half_lt _ Hl); lia].
    unfold reference_mutated. rewrite (depth_pair_up L Hl). rewrite existsb_seq_S. cbn [all_levels BlockData.all_levels BlockData.up].
    rewrite <- app_assoc, orb_assoc. done.
Qed.

Lemma last_levels A L : L <> [] -> List.last (A ++ all_levels (depth L) L) 0 = reference_root hash2 L.
Proof.
  revert A. induction L as [L Hl|L Hl IH] using depth_ind; intros A Hne.
  - unfold reference_root, depth. rewrite depth_small by done. cbn. destruct L as [|x [|]]; [done| |simpl in Hl; lia].
    by rewrite last_last.
  - unfold reference_root. rewrite depth_pair_up by done. cbn [BlockData.all_levels BlockData.up].
    rewrite app_assoc. apply IH. by apply pair_up_nonempty.
Qed.

Lemma Z_lxor_1 n : 0 <= n -> Z.lxor n 1 = if Z.odd n then n - 1 else n + 1.
Proof.
  intros Hn. destruct n as [|[p|p|]|]; reflexivity || lia.
Qed.

Lemma nth_pair_up l k : (2 * k < length l)%nat ->
  nth k (pair_up l) 0 = hash2 (nth (2 * k) l 0) (nth (Nat.min (2 * k + 1) (length l - 1)) l 0).
Proof.
  revert k. induction l as [|a|a b l IH] using two_ind; intros k Hk; [simpl in Hk; lia| |].
  - simpl in Hk. replace k with 0%nat by lia. done.
  - destruct k as [|k]; [done|]. cbn [BlockData.pair_up]. change (nth (S k) (hash2 a b :: pair_up l) 0) with (nth k (pair_up l) 0).
    simpl in Hk. rewrite IH by lia. replace (2 * S k)%nat with (S (S (2 * k))) by lia.
    replace (Nat.min (S (S (2 * k)) + 1) (length (a :: b :: l) - 1)) with (S (S (Nat.min (2 * k + 1) (length l - 1)))) by (cbn [length]; lia).
    done.
Qed.

(** the branch of a leaf leads from it to the root *)
Lemma merkle_branch_spec fuel A L idx :
  (length L <= fuel)%nat -> 0 <= idx < vsize L ->
  check_branch hash2 (nth (Z.to_nat idx) L 0)
    (merkle_branch fuel (length L) (length A) idx (A ++ all_levels (depth L) L)) idx
  = reference_root hash2 L.
Proof.
  revert fuel A idx. induction L as [L Hl|L Hl IH] using depth_ind; intros fuel A idx Hf Hi; unfold vsize in *.
  - unfold reference_root, depth. rewrite depth_small by done. replace idx with 0 by lia. cbn.
    destruct fuel; [done|]. cbn [merkle_branch]. destruct (Nat.ltb_spec 1 (length L)); [lia|done].
  - destruct fuel as [|fuel]; [lia|]. cbn [merkle_branch]. destruct (Nat.ltb_spec 1 (length L)); [|lia].
    rewrite depth_pair_up by done. cbn [BlockData.all_levels check_branch].
    rewrite app_nth2_plus. rewrite app_nth1 by lia.
    rewrite <- (length_pair_up L), app_assoc, <- length_app.
    assert (Hdiv : Z.shiftr idx 1 = Z.of_nat (Nat.div (Z.to_nat idx) 2)).
    { rewrite Z.shiftr_div_pow2 by lia. rewrite Nat2Z.inj_div, Z2Nat.id by lia. done. }
    pose proof (Nat.div_mod (Z.to_nat idx) 2 ltac:(lia)) as Hdm. pose proof (Nat.mod_upper_bound (Z.to_nat idx) 2 ltac:(lia)).
    set (k := Nat.div (Z.to_nat idx) 2) in *. clearbody k. rewrite Hdiv.
    assert (Hk : (2 * k < length L)%nat) by lia.
    assert (Hrange : 0 <= Z.of_nat k < Z.of_nat (length (pair_up L))).
    { rewrite length_pair_up. pose proof (Nat.div_mod (length L + 1) 2 ltac:(lia)).
      pose proof (Nat.mod_upper_bound (length L + 1) 2 ltac:(lia)). lia. }
    specialize (IH fuel (A ++ L) (Z.of_nat k)). rewrite Nat2Z.id in IH.
    transitivity (reference_root hash2 (pair_up L)); [|unfold reference_root; by rewrite (depth_pair_up L) by done].
    rewrite <- IH; [|rewrite length_pair_up; pose proof (half_lt _ Hl); lia|unfold vsize; lia].
    f_equal. rewrite nth_pair_up by done.
    rewrite (Z_lxor_1 idx) by lia. destruct (Z.odd idx) eqn:Eo.
    + assert (idx = 2 * Z.of_nat k + 1) as -> by (apply Z.odd_spec in Eo as [q ->]; lia).
      f_equal; f_equal; lia.
    + assert (idx = 2 * Z.of_nat k) as ->.
      { rewrite <- Z.negb_even in Eo. apply negb_false_iff, Z.even_spec in Eo as [q ->]. lia. }
      f_equal; f_equal; lia.
Qed.

(** ** Binding *)
Lemma pair_up_inj l1 l2 :
  (forall a b c d, a ∈ l1 -> b ∈ l1 -> c ∈ l2 -> d ∈ l2 -> hash2 a b = hash2 c d -> a = c /\ b = d) ->
  ends_twice l1 = false -> ends_twice l2 = false -> pair_up l1 = pair_up l2 -> l1 = l2.
Proof.
  revert l2. induction l1 as [|a|a b l1 IH] using two_ind; intros l2 Hinj H1 H2 E.
  - destruct l2 as [|? [|]]; done.
  - destruct l2 as [|c [|d l2]]; [done|..].
    + injection E as E. apply Hinj in E as [-> _]; [done|set_solver..].
    + injection E as E E'. destruct l2 as [|? [|]]; [|done..].
      apply Hinj in E as [-> ->]; [|set_solver..]. cbn in H2. by rewrite Z.eqb_refl in H2.
  - destruct l2 as [|c [|d l2]]; [done|..].
    + injection E as E E'. destruct l1 as [|? [|]]; [|done..].
      apply Hinj in E as [-> ->]; [|set_solver..]. cbn in H1. by rewrite Z.eqb_refl in H1.
    + injection E as E E'. apply Hinj in E as [-> ->]; [|set_solver..]. f_equal. f_equal. apply IH; [| | |done].
      * intros; apply Hinj; set_solver.
      * destruct l1 as [|? [|]]; done.
      * destruct l2 as [|? [|]]; done.
Qed.

Lemma up_inj d l1 l2 :
  (forall a b c e, a ∈ all_levels d l1 -> b ∈ all_levels d l1 -> c ∈ all_levels d l2 -> e ∈ all_levels d l2 ->
    hash2 a b = hash2 c e -> a = c /\ b = e) ->
  existsb (fun k => ends_twice (up k l1)) (seq 0 d) = false ->
  existsb (fun k => ends_twice (up k l2)) (seq 0 d) = false -> up d l1 = up d l2 -> l1 = l2.
Proof.
  revert l1 l2. induction d as [|d IH]; intros l1 l2 Hinj H1 H2 E; [done|].
  rewrite existsb_seq_S in H1, H2. apply orb_false_iff in H1 as [H1 H1'], H2 as [H2 H2'].
  cbn [BlockData.all_levels] in Hinj. apply pair_up_inj; [|done..|].
  - intros; apply Hinj; set_solver.
  - apply IH; [|done..]. intros; apply Hinj; set_solver.
Qed.
End Lemmas.

Lemma BuildMerkleTree_ref hash2 b :
  (BuildMerkleTree hash2 b).1 = (reference_root hash2 (block_hashes b), reference_mutated hash2 (block_hashes b)).
Proof.
  unfold BuildMerkleTree, BuildMerkleTree_in. set (l := block_hashes b).
  pose proof (merkle_levels_spec hash2 (length l) (length l) [] l false eq_refl ltac:(lia)) as E.
  cbn [app length] in E. rewrite E. cbn. f_equal. destruct l as [|x l']; [done|].
  apply (last_levels hash2 []). done.
Qed.

(** The tree of a block.  [BuildMerkleTree] computes the root of the tree in
    which each level pairs the nodes of the one below, an odd last one with itself,
    and reports whether some level ends in two equal nodes that are paired. *)
Theorem BuildMerkleTree_exact (hash2 : uint256 -> uint256 -> uint256) (b : CBlock) :
  (BuildMerkleTree hash2 b).1 = (reference_root hash2 (block_hashes b), reference_mutated hash2 (block_hashes b)).
Proof. apply BuildMerkleTree_ref. Qed.

(** Merkle proofs.  The branch a block gives for the position of one of its
    transactions or certificates leads from its hash to the root of the block. *)
Theorem merkle_branch_valid (hash2 : uint256 -> uint256 -> uint256) (b : CBlock) (nIndex : Z) (h : uint256) :
  vMerkleTree b = [] -> 0 <= nIndex -> block_hashes b !! Z.to_nat nIndex = Some h ->
  CheckMerkleBranch hash2 h (GetMerkleBranch hash2 b nIndex) nIndex = (BuildMerkleTree hash2 b).1.1.
Proof.
  intros Htree Hi Hh. unfold CheckMerkleBranch. destruct (Z.eqb_spec nIndex (-1)); [lia|].
  unfold GetMerkleBranch. rewrite Htree. unfold BuildMerkleTree, BuildMerkleTree_in. set (l := block_hashes b) in *.
  pose proof (merkle_levels_spec hash2 (length l) (length l) [] l false eq_refl ltac:(lia)) as E.
  cbn [app length] in E. rewrite E. cbn.
  assert (Hl : (length (vtx b) + length (vcert b))%nat = length l).
  { unfold l, block_hashes. by rewrite length_app, !length_map. }
  rewrite Hl. apply lookup_lt_Some in Hh as Hlt.
  rewrite <- (nth_lookup_Some l (Z.to_nat nIndex) 0 h Hh).
  pose proof (merkle_branch_spec hash2 (length l) [] l nIndex ltac:(lia) ltac:(unfold vsize; lia)) as Hb.
  cbn [app length] in Hb. rewrite Hb.
  symmetry. apply (last_levels hash2 []). by destruct l.
Qed.

Lemma merkle_binding_spec (hash2 : uint256 -> uint256 -> uint256) (b1 b2 : CBlock) (root : uint256) (d : nat) :
  block_hashes b1 <> [] -> block_hashes b2 <> [] ->
  depth (block_hashes b1) = d -> depth (block_hashes b2) = d ->
  (forall x y z w, x ∈ all_levels hash2 d (block_hashes b1) -> y ∈ all_levels hash2 d (block_hashes b1) ->
     z ∈ all_levels hash2 d (block_hashes b2) -> w ∈ all_levels hash2 d (block_hashes b2) ->
     hash2 x y = hash2 z w -> x = z /\ y = w) ->
  (BuildMerkleTree hash2 b1).1 = (root, false) -> (BuildMerkleTree hash2 b2).1 = (root, false) ->
  block_hashes b1 = block_hashes b2.
Proof.
  intros Hn1 Hn2 Hd1 Hd2 Hinj E1 E2. rewrite BuildMerkleTree_ref in E1, E2.
  unfold reference_root, reference_mutated in E1, E2. rewrite Hd1 in E1. rewrite Hd2 in E2.
  injection E1 as Er1 Em1. injection E2 as Er2 Em2. apply (up_inj hash2 d); try done.
  pose proof (up_depth_length hash2 _ Hn1) as Hl1. pose proof (up_depth_length hash2 _ Hn2) as Hl2.
  rewrite Hd1 in Hl1. rewrite Hd2 in Hl2.
  destruct (up hash2 d (block_hashes b1)) as [|x [|]]; [done| |done].
  destruct (up hash2 d (block_hashes b2)) as [|y [|]]; [done| |done]. cbn in Er1, Er2. congruence.
Qed.

(** The root binds the contents.  Two blocks whose trees have the same depth and
    the same root, neither of them reported as mutated, hold the same hashes in the
    same order, provided the nodes of their trees have no collision. *)
Theorem merkle_root_binding (hash2 : uint256 -> uint256 -> uint256) (b1 b2 : CBlock) (root : uint256) (d : nat) :
  block_hashes b1 <> [] -> block_hashes b2 <> [] ->
  depth (block_hashes b1) = d -> depth (block_hashes b2) = d ->
  (forall x y z w, x ∈ all_levels hash2 d (block_hashes b1) -> y ∈ all_levels hash2 d (block_hashes b1) ->
     z ∈ all_levels hash2 d (block_hashes b2) -> w ∈ all_levels hash2 d (block_hashes b2) ->
     hash2 x y = hash2 z w -> x = z /\ y = w) ->
  (BuildMerkleTree hash2 b1).1 = (root, false) -> (BuildMerkleTree hash2 b2).1 = (root, false) ->
  block_hashes b1 = block_hashes b2.
Proof. apply merkle_binding_spec. Qed.

(** a block of three transactions and a certificate-free tail *)
Definition sample_tx (h : uint256) : CTransaction := mkTx 1 [] [] h [] 0 [] [] [] [] 0 null_sig.

Definition sample_block : CBlock := mkBlock header_SetNull (map sample_tx [11; 12; 13]) [] [].

Lemma merkle_branch_valid_witness :
  CheckMerkleBranch hash_nodes 13 (GetMerkleBranch hash_nodes sample_block 2) 2
  = (BuildMerkleTree hash_nodes sample_block).1.1.
Proof. apply (merkle_branch_valid hash_nodes sample_block 2 13); [reflexivity|lia|reflexivity]. Defined.

(** a pairing, as a hash without collisions *)
Definition pairing (a b : uint256) : uint256 := Zpos (encode (a, b)).

Lemma pairing_inj a b c d : pairing a b = pairing c d -> a = c /\ b = d.
Proof. intros [= E]. apply (inj encode) in E. by injection E. Qed.

Lemma merkle_root_binding_witness :
  block_hashes (mkBlock header_SetNull (map sample_tx [11; 12; 13]) [] []) = block_hashes sample_block.
Proof.
  apply (merkle_root_binding pairing _ _ (BuildMerkleTree pairing sample_block).1.1 2); try done.
  all: try (vm_compute; reflexivity). intros x y z w _ _ _ _. apply pairing_inj.
Defined.
