(* ===== verification/Arith256.v ===== *)
(** * 256-bit unsigned integers

    [arith_uint256.h] and [arith_uint256.cpp]: numbers as eight 32-bit words, least
    word first, with the word loops of the source; the compact form of targets.  The
    lemmas relate every operation to the arithmetic of [Z] modulo [2^256]. *)

From stdpp Require Import base numbers list option strings.
From Stdlib Require Import ZArith Lia.
From S2P Require Import Prelude.
From S2P Require Import Serialize.
From S2P Require Import ScTypes.
From S2P Require Import Digits.
From S2P Require Import Crypto.
From S2P Require Import Script.
From S2P Require Import Interpreter.
From S2P Require Import BlockData.
Open Scope Z_scope.
Open Scope zen_scope.

Definition WIDTH : nat := 8.

(** the words [pn] *)
Definition arith_uint256 := list Z.

Definition arith_zero : arith_uint256 := replicate WIDTH 0.

(** the constructor from, and the assignment of, a [uint64_t] *)
Definition arith_of_u64 (b : Z) : arith_uint256 :=
  to_u32 b :: to_u32 (Z.shiftr b 32) :: replicate (WIDTH - 2) 0.

(** ** Bitwise operations *)
Definition arith_not (a : arith_uint256) : arith_uint256 := map (fun w => to_u32 (Z.lnot w)) a.

(** [operator++] *)
Fixpoint arith_inc (a : arith_uint256) : arith_uint256 :=
  match a with
  | [] => []
  | w :: a' =>
      let w' := to_u32 (w + 1) in
      if (w' =? 0) && negb (bool_decide (a' = [])) then w' :: arith_inc a' else w' :: a'
  end.

(** [operator--] *)
Fixpoint arith_dec (a : arith_uint256) : arith_uint256 :=
  match a with
  | [] => []
  | w :: a' =>
      let w' := to_u32 (w - 1) in
      if (w' =? 2 ^ 32 - 1) && negb (bool_decide (a' = [])) then w' :: arith_dec a' else w' :: a'
  end.

(** unary minus *)
Definition arith_neg (a : arith_uint256) : arith_uint256 := arith_inc (arith_not a).

Definition arith_xor (a b : arith_uint256) : arith_uint256 := zip_with Z.lxor a b.

Definition arith_and (a b : arith_uint256) : arith_uint256 := zip_with Z.land a b.

Definition arith_or (a b : arith_uint256) : arith_uint256 := zip_with Z.lor a b.

(** [pn[i] |= w] *)
Definition or_at (i : nat) (w : Z) (pn : list Z) : list Z := alter (fun x => Z.lor x w) i pn.

Definition shl_word (a : arith_uint256) (k : nat) (shift : Z) (pn : arith_uint256) (i : nat) : arith_uint256 :=
  let w := nth i a 0 in
  let pn :=
    if (i + k + 1 <? WIDTH)%nat && negb (shift =? 0) then or_at (i + k + 1) (Z.shiftr w (32 - shift)) pn else pn in
  if (i + k <? WIDTH)%nat then or_at (i + k) (to_u32 (Z.shiftl w shift)) pn else pn.

(** [operator<<=] *)
Definition arith_shl (a : arith_uint256) (shift : Z) : arith_uint256 :=
  let k := Z.to_nat (Z.quot shift 32) in
  foldl (shl_word a k (Z.rem shift 32)) arith_zero (seq 0 WIDTH).

Definition shr_word (a : arith_uint256) (k : nat) (shift : Z) (pn : arith_uint256) (i : nat) : arith_uint256 :=
  let w := nth i a 0 in
  let pn :=
    if (k + 1 <=? i)%nat && negb (shift =? 0) then or_at (i - k - 1) (to_u32 (Z.shiftl w (32 - shift))) pn else pn in
  if (k <=? i)%nat then or_at (i - k) (Z.shiftr w shift) pn else pn.

(** [operator>>=] *)
Definition arith_shr (a : arith_uint256) (shift : Z) : arith_uint256 :=
  let k := Z.to_nat (Z.quot shift 32) in
  foldl (shr_word a k (Z.rem shift 32)) arith_zero (seq 0 WIDTH).

(** ** Arithmetic *)
Fixpoint add_loop (carry : Z) (a b : list Z) : list Z :=
  match a, b with
  | x :: a', y :: b' =>
      let n := to_u64 (carry + x + y) in
      Z.land n 0xffffffff :: add_loop (Z.shiftr n 32) a' b'
  | _, _ => []
  end.

Definition arith_add (a b : arith_uint256) : arith_uint256 := add_loop 0 a b.

Definition arith_sub (a b : arith_uint256) : arith_uint256 := arith_add a (arith_neg b).

Fixpoint mul32_loop (b32 carry : Z) (a : list Z) : list Z :=
  match a with
  | [] => []
  | x :: a' =>
      let n := to_u64 (carry + b32 * x) in
      Z.land n 0xffffffff :: mul32_loop b32 (Z.shiftr n 32) a'
  end.

(** [operator*=(uint32_t)] *)
Definition arith_mul32 (a : arith_uint256) (b32 : Z) : arith_uint256 := mul32_loop b32 0 a.

(** the loop over [i]: the words [pn[j ..]] and the factor [a.pn[j]] *)
Fixpoint mul_row (aj carry : Z) (pn b : list Z) : list Z :=
  match pn, b with
  | p :: pn', y :: b' =>
      let n := to_u64 (carry + p + aj * y) in
      Z.land n 0xffffffff :: mul_row aj (Z.shiftr n 32) pn' b'
  | _, _ => []
  end.

(** the loop over [j] *)
Definition mul_rows (a b : arith_uint256) (rows : nat) : arith_uint256 :=
  foldl (fun pn j => take j pn ++ mul_row (nth j a 0) 0 (drop j pn) b) arith_zero (seq 0 rows).

(** [operator*=] *)
Definition arith_mul (a b : arith_uint256) : arith_uint256 := mul_rows a b WIDTH.

(** ** Comparisons *)
Fixpoint compare_down (a b : list Z) : Z :=
  match a, b with
  | x :: a', y :: b' => if x <? y then -1 else if y <? x then 1 else compare_down a' b'
  | _, _ => 0
  end.

Definition arith_CompareTo (a b : arith_uint256) : Z := compare_down (rev a) (rev b).

Definition arith_EqualTo (a : arith_uint256) (b : Z) : bool :=
  if negb (forallb (Z.eqb 0) (drop 2 a)) then false
  else if negb (nth 1 a 0 =? Z.shiftr b 32) then false
  else nth 0 a 0 =? Z.land b 0xffffffff.

(** the loop over [bits] in the highest word that is not zero *)
Fixpoint word_bits (bits : nat) (w : Z) : Z :=
  match bits with
  | O => 1
  | S b' => if Z.testbit w (Z.of_nat bits) then Z.of_nat bits + 1 else word_bits b' w
  end.

(** words from the highest one down, with the number of words below *)
Fixpoint bits_down (ws : list Z) : Z :=
  match ws with
  | [] => 0
  | w :: ws' => if negb (w =? 0) then 32 * vsize ws' + word_bits 31 w else bits_down ws'
  end.

Definition arith_bits (a : arith_uint256) : Z := bits_down (rev a).

Definition GetLow64 (a : arith_uint256) : Z := Z.lor (nth 0 a 0) (Z.shiftl (nth 1 a 0) 32).

(** ** Division *)

(** [while (shift >= 0)]: the fuel is [shift + 1] *)
Fixpoint div_loop (fuel : nat) (num div pn : arith_uint256) : arith_uint256 :=
  match fuel with
  | O => pn
  | S shift =>
      let '(num', pn') :=
        if 0 <=? arith_CompareTo num div
        then (arith_sub num div, or_at (Nat.div shift 32) (Z.shiftl 1 (Z.land (Z.of_nat shift) 31)) pn)
        else (num, pn) in
      div_loop shift num' (arith_shr div 1) pn'
  end.

Definition arith_div (a b : arith_uint256) : res arith_uint256 :=
  let num_bits := arith_bits a in
  let div_bits := arith_bits b in
  if div_bits =? 0 then Err (Exception "Division by zero")
  else if num_bits <? div_bits then Ok arith_zero
  else
    let shift := num_bits - div_bits in
    Ok (div_loop (Z.to_nat (shift + 1)) a (arith_shl b shift) arith_zero).

(** ** The compact form *)

(** the number, [pfNegative] and [pfOverflow] *)
Definition SetCompact (nCompact : Z) : arith_uint256 * bool * bool :=
  let nSize := Z.shiftr nCompact 24 in
  let nWord0 := Z.land nCompact 0x007fffff in
  let nWord := if nSize <=? 3 then Z.shiftr nWord0 (8 * (3 - nSize)) else nWord0 in
  let bn := if nSize <=? 3 then arith_of_u64 nWord else arith_shl (arith_of_u64 nWord) (8 * (nSize - 3)) in
  (bn,
   negb (nWord =? 0) && negb (Z.land nCompact 0x00800000 =? 0),
   negb (nWord =? 0) && ((34 <? nSize) || ((0xff <? nWord) && (33 <? nSize)) || ((0xffff <? nWord) && (32 <? nSize)))).

Definition GetCompact (a : arith_uint256) (fNegative : bool) : res Z :=
  let nSize := Z.quot (arith_bits a + 7) 8 in
  let nCompact :=
    if nSize <=? 3 then to_u32 (to_u64 (Z.shiftl (GetLow64 a) (8 * (3 - nSize))))
    else to_u32 (GetLow64 (arith_shr a (8 * (nSize - 3)))) in
  let '(nCompact, nSize) :=
    if negb (Z.land nCompact 0x00800000 =? 0) then (Z.shiftr nCompact 8, nSize + 1) else (nCompact, nSize) in
  if negb (Z.land nCompact (2 ^ 32 - 1 - 0x007fffff) =? 0) then Err AssertFailed
  else if negb (nSize <? 256) then Err AssertFailed
  else
    let nCompact := Z.lor nCompact (to_u32 (Z.shiftl nSize 24)) in
    Ok (Z.lor nCompact (if fNegative && negb (Z.land nCompact 0x007fffff =? 0) then 0x00800000 else 0)).

(** ** Conversions: a [uint256] holds the bytes of the number, least byte first *)
Definition ArithToUint256 (a : arith_uint256) : uint256 := uint_of_bytes (concat (map WriteLE32 a)).

Fixpoint read_words (n : nat) (b : bytes) : list Z :=
  match n with O => [] | S n' => le_combine (take 4 b) :: read_words n' (drop 4 b) end.

Definition UintToArith256 (x : uint256) : arith_uint256 := read_words WIDTH (uint_bytes x).

(** ** Values *)
Abbreviation base := (2 ^ 32) (only parsing).

Definition arith_value (a : arith_uint256) : Z := digits_value base a.

Definition arith_wf (a : arith_uint256) : Prop := length a = WIDTH /\ Forall (digit base) a.

Lemma value_cons w l : arith_value (w :: l) = w + base * arith_value l.
Proof. done. Qed.

Lemma value_bound a : arith_wf a -> 0 <= arith_value a < 2 ^ 256.
Proof.
  intros [Hlen Ha]. pose proof (digits_value_bound base a ltac:(lia) Ha) as H.
  unfold vsize in H. rewrite Hlen in H. exact H.
Qed.

Lemma wf_zero : arith_wf arith_zero /\ arith_value arith_zero = 0.
Proof. split; [split; [done|]|done]. apply digits_zeros. lia. Qed.

Lemma value_inj a b : arith_wf a -> arith_wf b -> arith_value a = arith_value b -> a = b.
Proof. intros [Ha1 Ha2] [Hb1 Hb2]. apply digits_inj; [lia|done..|congruence]. Qed.

(** the low word and the carry of a 64-bit sum *)
Lemma split_word n : 0 <= n < 2 ^ 64 ->
  digit base (Z.land (to_u64 n) 0xffffffff) /\ Z.land (to_u64 n) 0xffffffff = n mod base /\ Z.shiftr (to_u64 n) 32 = n / base.
Proof.
  intros Hn. unfold to_u64. rewrite Z.mod_small by done. change 0xffffffff with (Z.ones 32).
  rewrite Z.land_ones, Z.shiftr_div_pow2 by lia. split_and!; try done. apply Z.mod_pos_bound. lia.
Qed.

(** one word of a sum modulo a power of the base *)
Lemma carry_step n x m :
  0 < m -> n mod base + base * ((n / base + x) mod m) = (n + base * x) mod (base * m).
Proof.
  intros Hm. rewrite Z.rem_mul_r by lia.
  replace ((n + base * x) mod base) with (n mod base) by (rewrite (Z.mul_comm base x), Z.mod_add; lia).
  replace ((n + base * x) / base) with (n / base + x) by (rewrite (Z.mul_comm base x), Z.div_add; lia).
  lia.
Qed.

Lemma add_loop_spec carry a b :
  Forall (digit base) a -> Forall (digit base) b -> length a = length b -> 0 <= carry <= 1 ->
  Forall (digit base) (add_loop carry a b) /\ length (add_loop carry a b) = length a
  /\ arith_value (add_loop carry a b) = (carry + arith_value a + arith_value b) mod base ^ vsize a.
Proof.
  intros Ha. revert carry b. induction Ha as [|x a Hx Ha IH]; intros carry b Hb Hlen Hc.
  { split_and!; [constructor|done|]. cbn. by rewrite Z.mod_1_r. }
  destruct Hb as [|y b Hy Hb]; [done|]. cbn [add_loop]. unfold digit in Hx, Hy.
  destruct (split_word (carry + x + y)) as (Hw & -> & ->); [lia|].
  destruct (IH ((carry + x + y) / base) b Hb) as (H1 & H2 & H3); [simpl in Hlen; lia| |].
  { split; [apply Z.div_pos; lia|]. apply Z.lt_succ_r, Z.div_lt_upper_bound; lia. }
  split_and!; [|cbn; congruence|].
  { constructor; [|done]. unfold digit. apply Z.mod_pos_bound. lia. }
  rewrite !value_cons, H3. unfold vsize. cbn [length]. rewrite Nat2Z.inj_succ, Z.pow_succ_r by lia.
  rewrite <- (Z.add_assoc ((carry + x + y) / base)), carry_step by (apply Z.pow_pos_nonneg; lia). f_equal. lia.
Qed.

Lemma add_spec a b : arith_wf a -> arith_wf b ->
  arith_wf (arith_add a b) /\ arith_value (arith_add a b) = (arith_value a + arith_value b) mod 2 ^ 256.
Proof.
  intros [Ha1 Ha2] [Hb1 Hb2]. destruct (add_loop_spec 0 a b Ha2 Hb2 ltac:(congruence) ltac:(lia)) as (H1 & H2 & H3).
  split; [split; [unfold arith_add; congruence|done]|]. unfold arith_add. rewrite H3. unfold vsize. rewrite Ha1. done.
Qed.

Lemma inc_spec a : Forall (digit base) a -> a <> [] ->
  Forall (digit base) (arith_inc a) /\ length (arith_inc a) = length a
  /\ arith_value (arith_inc a) = (arith_value a + 1) mod base ^ vsize a.
Proof.
  induction 1 as [|x a Hx Ha IH]; [done|]. intros _. cbn [arith_inc]. unfold digit in Hx. unfold to_u32.
  assert (Hpow : 0 < base ^ vsize a) by (apply Z.pow_pos_nonneg; unfold vsize; lia).
  pose proof (digits_value_bound base a ltac:(lia) Ha) as Hv. fold (arith_value a) in Hv.
  assert (Hcons : base ^ vsize (x :: a) = base * base ^ vsize a).
  { unfold vsize. cbn [length]. rewrite Nat2Z.inj_succ, Z.pow_succ_r; lia. }
  destruct (Z.eqb_spec ((x + 1) mod base) 0) as [Ez|Enz]; cbn [andb].
  - assert (x = base - 1).
    { destruct (Z.eq_dec x (base - 1)); [done|]. rewrite Z.mod_small in Ez; lia. } subst x.
    case_bool_decide as En; cbn [negb].
    + subst a. split_and!; [|done|].
      * constructor; [|done]. unfold digit. apply Z.mod_pos_bound. lia.
      * rewrite !value_cons, Hcons, Ez. cbn. done.
    + destruct (IH En) as (H1 & H2 & H3). rewrite Ez. split_and!; [by constructor|cbn; congruence|].
      rewrite !value_cons, H3, Hcons.
      replace (base - 1 + base * arith_value a + 1) with (base + base * arith_value a) by lia.
      rewrite <- (carry_step base (arith_value a)) by done.
      rewrite Z_mod_same_full, Z_div_same_full by lia. f_equal. rewrite Z.add_comm. done.
  - assert (x + 1 < base).
    { destruct (Z.lt_ge_cases (x + 1) base); [done|]. replace (x + 1) with base in Enz by lia. by rewrite Z_mod_same_full in Enz. }
    rewrite Z.mod_small by lia. split_and!; [|done|].
    + constructor; [unfold digit; lia|done].
    + rewrite !value_cons, Hcons. rewrite Z.mod_small; [lia|]. nia.
Qed.

Lemma dec_spec a : Forall (digit base) a -> a <> [] ->
  Forall (digit base) (arith_dec a) /\ length (arith_dec a) = length a
  /\ arith_value (arith_dec a) = (arith_value a - 1) mod base ^ vsize a.
Proof.
  induction 1 as [|w a Hw Ha IH]; intros Hne; [done|]. cbn [arith_dec]. unfold digit in Hw.
  pose proof (digits_value_bound base a ltac:(lia) Ha) as Hv. fold (arith_value a) in Hv.
  unfold vsize in *. cbn [length]. rewrite Nat2Z.inj_succ, Z.pow_succ_r by lia. unfold to_u32.
  destruct (Z.eq_dec w 0) as [->|Hn].
  - change ((0 - 1) mod base) with (base - 1). rewrite Z.eqb_refl. destruct a as [|y a]; cbn [andb negb].
    + rewrite bool_decide_true by done. cbn [negb]. split_and!; [|done|done]. constructor; [unfold digit; lia|done].
    + rewrite bool_decide_false by done. cbn [negb]. destruct IH as (H1 & H2 & H3); [done|].
      split_and!; [constructor; [unfold digit; lia|done]|cbn [length] in *; congruence|].
      rewrite !(value_cons 0), (value_cons (base - 1)), H3. set (m := base ^ Z.of_nat _) in *.
      assert (0 < m) by (apply Z.pow_pos_nonneg; lia). rewrite Z.rem_mul_r by lia.
      replace (0 + base * arith_value (y :: a) - 1) with (base - 1 + (arith_value (y :: a) - 1) * base) by ring.
      rewrite Z.mod_add, Z.div_add, (Z.div_small (base - 1)), (Z.mod_small (base - 1)) by lia. done.
  - rewrite (Z.mod_small (w - 1)) by lia. rewrite (proj2 (Z.eqb_neq (w - 1) (base - 1))) by lia. cbn [andb].
    split_and!; [constructor; [unfold digit; lia|done]|done|]. rewrite !value_cons.
    assert (0 < base ^ Z.of_nat (length a)) by (apply Z.pow_pos_nonneg; lia). rewrite Z.mod_small by nia. lia.
Qed.

Lemma not_spec a : Forall (digit base) a ->
  Forall (digit base) (arith_not a) /\ length (arith_not a) = length a
  /\ arith_value (arith_not a) = base ^ vsize a - 1 - arith_value a.
Proof.
  induction 1 as [|x a Hx Ha (H1 & H2 & H3)]; [done|]. unfold digit in Hx. cbn [arith_not map].
  assert (E : to_u32 (Z.lnot x) = base - 1 - x).
  { unfold to_u32, Z.lnot. replace (Z.pred (- x)) with (base - 1 - x + (-1) * base) by lia.
    rewrite Z.mod_add, Z.mod_small by lia. done. }
  split_and!; [|cbn; f_equal; apply H2|].
  - constructor; [rewrite E; unfold digit; lia|apply H1].
  - rewrite !value_cons. unfold arith_not in H3. rewrite H3, E. unfold vsize. cbn [length].
    rewrite Nat2Z.inj_succ, Z.pow_succ_r by lia. lia.
Qed.

Lemma neg_spec a : arith_wf a -> arith_wf (arith_neg a) /\ arith_value (arith_neg a) = (- arith_value a) mod 2 ^ 256.
Proof.
  intros [Hlen Ha]. destruct (not_spec a Ha) as (H1 & H2 & H3).
  destruct (inc_spec (arith_not a) H1) as (H4 & H5 & H6); [intros E; rewrite E in H2; cbn in H2; rewrite Hlen in H2; done|].
  split; [split; [unfold arith_neg; congruence|done]|]. unfold arith_neg. rewrite H6, H3. unfold vsize. rewrite H2, Hlen.
  change (base ^ Z.of_nat WIDTH) with (2 ^ 256).
  replace (2 ^ 256 - 1 - arith_value a + 1) with (- arith_value a + 1 * 2 ^ 256) by lia. apply Z.mod_add. lia.
Qed.

Lemma sub_spec a b : arith_wf a -> arith_wf b ->
  arith_wf (arith_sub a b) /\ arith_value (arith_sub a b) = (arith_value a - arith_value b) mod 2 ^ 256.
Proof.
  intros Ha Hb. destruct (neg_spec b Hb) as [Hn Hv]. destruct (add_spec a _ Ha Hn) as [H1 H2].
  split; [done|]. unfold arith_sub. rewrite H2, Hv, Zplus_mod_idemp_r. done.
Qed.

(** ** Multiplication *)
Lemma mul_row_spec aj carry pn b :
  digit base aj -> Forall (digit base) pn -> Forall (digit base) b -> (length pn <= length b)%nat -> digit base carry ->
  Forall (digit base) (mul_row aj carry pn b) /\ length (mul_row aj carry pn b) = length pn
  /\ arith_value (mul_row aj carry pn b) = (carry + arith_value pn + aj * arith_value b) mod base ^ vsize pn.
Proof.
  intros Haj Hpn. revert carry b. induction Hpn as [|p pn Hp Hpn IH]; intros carry b Hb Hlen Hc.
  { split_and!; [constructor|done|]. change (base ^ vsize (@nil Z)) with 1. by rewrite Z.mod_1_r. }
  destruct Hb as [|y b Hy Hb]; [simpl in Hlen; lia|]. cbn [mul_row]. unfold digit in *.
  destruct (split_word (carry + p + aj * y)) as (Hw & -> & ->); [nia|].
  destruct (IH ((carry + p + aj * y) / base) b Hb) as (H1 & H2 & H3); [simpl in Hlen; lia| |].
  { split; [apply Z.div_pos; nia|]. apply Z.div_lt_upper_bound; nia. }
  split_and!; [|cbn; congruence|].
  { constructor; [|done]. apply Z.mod_pos_bound. lia. }
  rewrite !value_cons, H3. unfold vsize. cbn [length]. rewrite Nat2Z.inj_succ, Z.pow_succ_r by lia.
  rewrite <- (Z.add_assoc ((carry + p + aj * y) / base)), carry_step by (apply Z.pow_pos_nonneg; lia).
  f_equal. lia.
Qed.

Lemma mul32_loop_spec b32 carry a :
  digit base b32 -> Forall (digit base) a -> digit base carry ->
  Forall (digit base) (mul32_loop b32 carry a) /\ length (mul32_loop b32 carry a) = length a
  /\ arith_value (mul32_loop b32 carry a) = (carry + b32 * arith_value a) mod base ^ vsize a.
Proof.
  intros Hb Ha. revert carry. induction Ha as [|x a Hx Ha IH]; intros carry Hc.
  { split_and!; [constructor|done|]. change (base ^ vsize (@nil Z)) with 1. by rewrite Z.mod_1_r. }
  cbn [mul32_loop]. unfold digit in *. destruct (split_word (carry + b32 * x)) as (Hw & -> & ->); [nia|].
  destruct (IH ((carry + b32 * x) / base)) as (H1 & H2 & H3).
  { split; [apply Z.div_pos; nia|]. apply Z.div_lt_upper_bound; nia. }
  split_and!; [|cbn; congruence|].
  { constructor; [|done]. apply Z.mod_pos_bound. lia. }
  rewrite !value_cons, H3. unfold vsize. cbn [length]. rewrite Nat2Z.inj_succ, Z.pow_succ_r by lia.
  rewrite carry_step by (apply Z.pow_pos_nonneg; lia). f_equal. lia.
Qed.

Lemma mul32_spec a b32 : arith_wf a -> digit base b32 ->
  arith_wf (arith_mul32 a b32) /\ arith_value (arith_mul32 a b32) = (arith_value a * b32) mod 2 ^ 256.
Proof.
  intros [Hlen Ha] Hb. destruct (mul32_loop_spec b32 0 a Hb Ha) as (H1 & H2 & H3); [unfold digit; lia|].
  split; [split; [unfold arith_mul32; congruence|done]|]. unfold arith_mul32. rewrite H3. unfold vsize. rewrite Hlen.
  change (base ^ Z.of_nat WIDTH) with (2 ^ 256). f_equal. lia.
Qed.

Lemma value_app a b : arith_value (a ++ b) = arith_value a + base ^ vsize a * arith_value b.
Proof.
  induction a as [|x a IH]; [change (base ^ vsize (@nil Z)) with 1; change (arith_value []) with 0; cbn [app]; lia|].
  cbn [app]. rewrite !value_cons, IH. unfold vsize. cbn [length].
  rewrite Nat2Z.inj_succ, Z.pow_succ_r by lia. lia.
Qed.

Lemma value_take_drop j a : (j <= length a)%nat ->
  arith_value a = arith_value (take j a) + base ^ Z.of_nat j * arith_value (drop j a).
Proof.
  intros Hj. rewrite <- (take_drop j a) at 1. rewrite value_app. unfold vsize. by rewrite length_take_le.
Qed.

Lemma take_S_value j a w : a !! j = Some w -> arith_value (take (S j) a) = arith_value (take j a) + base ^ Z.of_nat j * w.
Proof.
  intros Hw. rewrite (take_S_r _ _ _ Hw), value_app. unfold vsize.
  rewrite length_take_le by (apply lookup_lt_Some in Hw; lia). cbn. lia.
Qed.

(** after [j] rows *)
Lemma mul_rows_S a b j :
  mul_rows a b (S j) = take j (mul_rows a b j) ++ mul_row (nth j a 0) 0 (drop j (mul_rows a b j)) b.
Proof. unfold mul_rows. by rewrite seq_S, foldl_app. Qed.

Lemma mul_rows_spec a b j :
  arith_wf a -> arith_wf b -> (j <= WIDTH)%nat ->
  arith_wf (mul_rows a b j) /\ arith_value (mul_rows a b j) = (arith_value (take j a) * arith_value b) mod 2 ^ 256.
Proof.
  intros [Ha1 Ha2] [Hb1 Hb2] Hj. induction j as [|j IH]; [split; [apply wf_zero|done]|].
  rewrite mul_rows_S. destruct IH as [[Hl Hd] Hv]; [lia|]. set (pn := mul_rows a b j) in *. clearbody pn.
  destruct (lookup_lt_is_Some_2 a j) as [w Hw]; [lia|]. rewrite (nth_lookup_Some a j 0 w Hw).
  assert (digit base w) by exact (Forall_lookup_1 _ _ _ _ Ha2 Hw).
  destruct (mul_row_spec w 0 (drop j pn) b) as (H1 & H2 & H3);
    [done|by apply Forall_drop|done|rewrite length_drop; lia|unfold digit; lia|].
  rewrite length_drop in H2. split.
  - split; [rewrite length_app, H2, length_take_le by lia; unfold WIDTH in *; lia|].
    apply Forall_app. split; [by apply Forall_take|done].
  - rewrite value_app, H3. unfold vsize. rewrite length_take_le by lia. rewrite length_drop, Hl.
    rewrite Z.add_0_l, (take_S_value j a w Hw).
    assert (Hsplit : 2 ^ 256 = base ^ Z.of_nat j * base ^ Z.of_nat (WIDTH - j)).
    { rewrite <- Z.pow_add_r by lia. replace (Z.of_nat j + Z.of_nat (WIDTH - j)) with 8 by (unfold WIDTH in *; lia). done. }
    pose proof (digits_value_bound base (take j pn) ltac:(lia) ltac:(by apply Forall_take)) as Hb.
    fold (arith_value (take j pn)) in Hb. unfold vsize in Hb. rewrite length_take_le in Hb by lia.
    assert (Hm : 0 < base ^ Z.of_nat (WIDTH - j)) by (apply Z.pow_pos_nonneg; lia).
    transitivity ((arith_value pn + base ^ Z.of_nat j * (w * arith_value b)) mod 2 ^ 256).
    + rewrite (value_take_drop j pn) by lia. set (lo := arith_value (take j pn)) in *. set (hi := arith_value (drop j pn)).
      replace (lo + base ^ Z.of_nat j * hi + base ^ Z.of_nat j * (w * arith_value b))
        with (lo + base ^ Z.of_nat j * (hi + w * arith_value b)) by lia.
      rewrite Hsplit, Z.rem_mul_r by lia.
      replace ((lo + base ^ Z.of_nat j * (hi + w * arith_value b)) mod base ^ Z.of_nat j) with lo
        by (rewrite (Z.mul_comm (base ^ Z.of_nat j)), Z.mod_add, Z.mod_small; lia).
      replace ((lo + base ^ Z.of_nat j * (hi + w * arith_value b)) / base ^ Z.of_nat j) with (hi + w * arith_value b)
        by (rewrite (Z.mul_comm (base ^ Z.of_nat j)), Z.div_add, Z.div_small; lia).
      done.
    + rewrite Hv, Zplus_mod_idemp_l. f_equal. lia.
Qed.

Lemma mul_spec a b : arith_wf a -> arith_wf b ->
  arith_wf (arith_mul a b) /\ arith_value (arith_mul a b) = (arith_value a * arith_value b) mod 2 ^ 256.
Proof.
  intros Ha Hb. destruct (mul_rows_spec a b WIDTH Ha Hb) as [H1 H2]; [lia|]. split; [done|].
  unfold arith_mul. rewrite H2. destruct Ha as [Hl _]. by rewrite take_ge by lia.
Qed.

(** ** Shifts *)
Lemma lor_add k hi lo : 0 <= k -> 0 <= hi < 2 ^ k -> Z.lor hi (lo * 2 ^ k) = hi + lo * 2 ^ k.
Proof. intros. rewrite Z.lor_comm, lor_low by done. lia. Qed.

(** the words after a shift to the left *)
Definition shl_at (a : arith_uint256) (k : nat) (s : Z) (m : nat) : Z :=
  if (k <=? m)%nat then
    Z.lor (if (k + 1 <=? m)%nat && negb (s =? 0) then Z.lor 0 (Z.shiftr (nth (m - k - 1) a 0) (32 - s)) else 0)
      (to_u32 (Z.shiftl (nth (m - k) a 0) s))
  else 0.

Lemma shl_words a k s : length a = WIDTH ->
  foldl (shl_word a k s) arith_zero (seq 0 WIDTH) = map (shl_at a k s) (seq 0 WIDTH).
Proof.
  intros Hl. destruct a as [|a0 [|a1 [|a2 [|a3 [|a4 [|a5 [|a6 [|a7 [|]]]]]]]]]; try discriminate Hl.
  unfold shl_word, shl_at. destruct (s =? 0);
  do 8 (destruct k as [|k]; [reflexivity|]); reflexivity.
Qed.

Definition shr_at (a : arith_uint256) (k : nat) (s : Z) (m : nat) : Z :=
  if (m + k <? WIDTH)%nat then
    let lo := Z.lor 0 (Z.shiftr (nth (m + k) a 0) s) in
    if (m + k + 1 <? WIDTH)%nat && negb (s =? 0)
    then Z.lor lo (to_u32 (Z.shiftl (nth (m + k + 1) a 0) (32 - s))) else lo
  else 0.

Lemma shr_words a k s : length a = WIDTH ->
  foldl (shr_word a k s) arith_zero (seq 0 WIDTH) = map (shr_at a k s) (seq 0 WIDTH).
Proof.
  intros Hl. destruct a as [|a0 [|a1 [|a2 [|a3 [|a4 [|a5 [|a6 [|a7 [|]]]]]]]]]; try discriminate Hl.
  unfold shr_word, shr_at. destruct (s =? 0);
  do 8 (destruct k as [|k]; [reflexivity|]); reflexivity.
Qed.

(** a shift by less than a word, word by word *)
Fixpoint shl_small (s prev : Z) (a : list Z) : list Z :=
  match a with [] => [] | w :: a' => (prev / 2 ^ (32 - s) + (w * 2 ^ s) mod base) :: shl_small s w a' end.

Fixpoint shr_small (s : Z) (a : list Z) : list Z :=
  match a with [] => [] | w :: a' => (w / 2 ^ s + (nth 0 a' 0 * 2 ^ (32 - s)) mod base) :: shr_small s a' end.

Lemma pow_split s : 0 <= s <= 32 -> base = 2 ^ s * 2 ^ (32 - s) /\ 0 < 2 ^ s /\ 0 < 2 ^ (32 - s).
Proof. intros. split_and!; [rewrite <- Z.pow_add_r by lia; f_equal; lia|apply Z.pow_pos_nonneg; lia..]. Qed.

Lemma mod_shifted s w : 0 <= s <= 32 -> (w * 2 ^ s) mod base = (w mod 2 ^ (32 - s)) * 2 ^ s.
Proof.
  intros Hs. destruct (pow_split s Hs) as (-> & ? & ?).
  rewrite (Z.mul_comm w), Z.mul_mod_distr_l by lia. apply Z.mul_comm.
Qed.

Lemma shl_piece s x y : 0 <= s < 32 -> digit base x -> digit base y ->
  Z.lor (if negb (s =? 0) then Z.lor 0 (Z.shiftr x (32 - s)) else 0) (to_u32 (Z.shiftl y s))
  = x / 2 ^ (32 - s) + (y * 2 ^ s) mod base.
Proof.
  unfold digit. intros Hs Hx Hy. destruct (pow_split s ltac:(lia)) as (Hb & ? & ?).
  unfold to_u32. rewrite Z.shiftl_mul_pow2, mod_shifted by lia.
  destruct (Z.eqb_spec s 0) as [->|Hs0]; cbn [negb].
  - change (2 ^ (32 - 0)) with base. rewrite (Z.div_small x) by lia. apply Z.lor_0_l.
  - rewrite Z.lor_0_l, Z.shiftr_div_pow2 by lia. apply lor_add; [lia|].
    split; [apply Z.div_pos; lia|apply Z.div_lt_upper_bound; lia].
Qed.

Lemma shr_piece s x y : 0 <= s < 32 -> digit base x -> digit base y ->
  (let lo := Z.lor 0 (Z.shiftr x s) in if negb (s =? 0) then Z.lor lo (to_u32 (Z.shiftl y (32 - s))) else lo)
  = x / 2 ^ s + (y * 2 ^ (32 - s)) mod base.
Proof.
  unfold digit. intros Hs Hx Hy. destruct (pow_split s ltac:(lia)) as (Hb & ? & ?). cbn zeta.
  unfold to_u32. rewrite Z.lor_0_l, Z.shiftr_div_pow2, Z.shiftl_mul_pow2, mod_shifted by lia.
  destruct (Z.eqb_spec s 0) as [->|Hs0]; cbn [negb].
  - change (2 ^ (32 - (32 - 0))) with 1. rewrite Z.mod_1_r. lia.
  - apply lor_add; [lia|]. split; [apply Z.div_pos; lia|apply Z.div_lt_upper_bound; lia].
Qed.

Lemma shr_piece_last s x : 0 <= s < 32 -> Z.lor 0 (Z.shiftr x s) = x / 2 ^ s + (0 * 2 ^ (32 - s)) mod base.
Proof. intros. rewrite Z.lor_0_l, Z.shiftr_div_pow2 by lia. rewrite Z.mul_0_l, Z.mod_0_l by lia. lia. Qed.

Lemma shl_words_spec a k s : arith_wf a -> (k <= WIDTH)%nat -> 0 <= s < 32 ->
  map (shl_at a k s) (seq 0 WIDTH) = replicate k 0 ++ take (WIDTH - k) (shl_small s 0 a).
Proof.
  intros [Hl Ha] Hk Hs. destruct a as [|a0 [|a1 [|a2 [|a3 [|a4 [|a5 [|a6 [|a7 [|]]]]]]]]]; try discriminate Hl.
  decompose_Forall_hyps.
  assert (Hfst : forall y, digit base y -> Z.lor 0 (to_u32 (Z.shiftl y s)) = 0 / 2 ^ (32 - s) + (y * 2 ^ s) mod base).
  { intros y Hy. destruct (pow_split s ltac:(lia)) as (_ & _ & ?). rewrite <- (shl_piece s 0 y Hs) by (done || unfold digit; lia).
    rewrite Z.shiftr_0_l, Z.lor_0_l. by destruct (negb (s =? 0)). }
  unfold WIDTH in *. do 9 (destruct k as [|k]; [cbn [map seq shl_at Nat.leb Nat.add Nat.sub nth andb replicate app take shl_small];
    repeat (apply (f_equal2 cons); [solve [done|by apply Hfst|by apply shl_piece]|]); done|]). lia.
Qed.

Lemma shr_words_spec a k s : arith_wf a -> (k <= WIDTH)%nat -> 0 <= s < 32 ->
  map (shr_at a k s) (seq 0 WIDTH) = shr_small s (drop k a) ++ replicate k 0.
Proof.
  intros [Hl Ha] Hk Hs. destruct a as [|a0 [|a1 [|a2 [|a3 [|a4 [|a5 [|a6 [|a7 [|]]]]]]]]]; try discriminate Hl.
  decompose_Forall_hyps. unfold WIDTH in *.
  do 9 (destruct k as [|k]; [cbn [map seq shr_at Nat.ltb Nat.leb Nat.add WIDTH nth andb replicate app drop shr_small];
    repeat (apply (f_equal2 cons); [solve [done|by apply shr_piece_last|by apply shr_piece]|]); done|]). lia.
Qed.

Lemma shl_small_spec s prev a : 0 <= s < 32 -> digit base prev -> Forall (digit base) a ->
  Forall (digit base) (shl_small s prev a) /\ length (shl_small s prev a) = length a
  /\ arith_value (shl_small s prev a) = (prev / 2 ^ (32 - s) + arith_value a * 2 ^ s) mod base ^ vsize a.
Proof.
  intros Hs Hprev Ha. destruct (pow_split s ltac:(lia)) as (Hb & ? & ?).
  revert prev Hprev. induction Ha as [|x a Hx Ha IH]; intros prev Hp.
  { split_and!; [constructor|done|]. change (base ^ vsize (@nil Z)) with 1. by rewrite Z.mod_1_r. }
  destruct (IH x Hx) as (H1 & H2 & H3). unfold digit in *. cbn [shl_small].
  assert (0 <= prev / 2 ^ (32 - s) < 2 ^ s) by (split; [apply Z.div_pos; lia|apply Z.div_lt_upper_bound; lia]).
  set (p := prev / 2 ^ (32 - s)) in *. rewrite mod_shifted by lia.
  pose proof (Z.div_mod x (2 ^ (32 - s)) ltac:(lia)) as Hdm. pose proof (Z.mod_pos_bound x (2 ^ (32 - s)) ltac:(lia)).
  assert (Hlow : 0 <= p + x mod 2 ^ (32 - s) * 2 ^ s < base) by nia.
  split_and!; [constructor; done|cbn; congruence|].
  rewrite !value_cons, H3. unfold vsize. cbn [length]. rewrite Nat2Z.inj_succ, Z.pow_succ_r by lia.
  set (q := x / 2 ^ (32 - s)) in *. set (r := x mod 2 ^ (32 - s)) in *.
  assert (Hn : p + x * 2 ^ s = base * q + (p + r * 2 ^ s)) by (rewrite Hdm, Hb; ring).
  replace q with ((p + x * 2 ^ s) / base) at 1 by (symmetry; eapply Z.div_unique_pos; eauto).
  replace (p + r * 2 ^ s) with ((p + x * 2 ^ s) mod base) by (symmetry; eapply Z.mod_unique_pos; eauto).
  rewrite carry_step by (apply Z.pow_pos_nonneg; lia). f_equal. ring.
Qed.

Lemma shr_small_spec s a : 0 <= s < 32 -> Forall (digit base) a ->
  Forall (digit base) (shr_small s a) /\ length (shr_small s a) = length a
  /\ arith_value (shr_small s a) = arith_value a / 2 ^ s.
Proof.
  intros Hs Ha. destruct (pow_split s ltac:(lia)) as (Hb & ? & ?).
  induction Ha as [|x a Hx Ha (H1 & H2 & H3)]; [by split_and!; [constructor|..]|].
  cbn [shr_small]. rewrite !value_cons, H3. unfold digit in *. rewrite mod_shifted by lia.
  replace (32 - (32 - s)) with s by lia.
  assert (Hh : nth 0 a 0 mod 2 ^ s = arith_value a mod 2 ^ s).
  { destruct a as [|h a]; [done|]. rewrite value_cons. cbn [nth]. rewrite Hb at 1.
    rewrite <- Z.mul_assoc, (Z.mul_comm (2 ^ s)), Z.mod_add by lia. done. }
  rewrite Hh. pose proof (Z.div_mod (arith_value a) (2 ^ s) ltac:(lia)) as Hdm.
  pose proof (Z.mod_pos_bound (arith_value a) (2 ^ s) ltac:(lia)).
  assert (0 <= x / 2 ^ s < 2 ^ (32 - s)) by (split; [apply Z.div_pos; lia|apply Z.div_lt_upper_bound; lia]).
  split_and!; [constructor; [nia|done]|cbn; congruence|].
  replace (x + base * arith_value a) with (x + 2 ^ (32 - s) * arith_value a * 2 ^ s) by (rewrite Hb; ring).
  rewrite Z.div_add by lia. rewrite Hdm at 3. rewrite Hb. ring.
Qed.

Lemma value_take j a : Forall (digit base) a -> arith_value (take j a) = arith_value a mod base ^ Z.of_nat (j `min` length a).
Proof.
  intros Ha. destruct (decide (j <= length a)%nat).
  - rewrite Nat.min_l by done. rewrite (value_take_drop j a), Z.mul_comm, Z.mod_add by (done || lia). symmetry.
    apply Z.mod_small. pose proof (digits_value_bound base (take j a) ltac:(lia) ltac:(by apply Forall_take)) as Hb.
    unfold vsize in Hb. by rewrite length_take_le in Hb.
  - rewrite take_ge, Nat.min_r by lia. symmetry. apply Z.mod_small.
    apply (digits_value_bound base a); [lia|done].
Qed.

Lemma value_zeros k : arith_value (replicate k 0) = 0.
Proof. apply digits_value_zeros. Qed.

Lemma shift_parts shift : 0 <= shift ->
  shift = 32 * (shift / 32) + shift mod 32 /\ 0 <= shift mod 32 < 32 /\ 0 <= shift / 32.
Proof.
  intros. pose proof (Z.div_mod shift 32 ltac:(lia)). pose proof (Z.mod_pos_bound shift 32 ltac:(lia)).
  split_and!; [lia..|apply Z.div_pos; lia].
Qed.

Lemma mod_mod_mul x m n : 0 < m -> 0 < n -> (x mod (m * n)) mod m = x mod m.
Proof. intros. rewrite Z.rem_mul_r, Z.mul_comm, Z.mod_add, Z.mod_mod by lia. done. Qed.

Lemma shl_spec a shift : arith_wf a -> 0 <= shift ->
  arith_wf (arith_shl a shift) /\ arith_value (arith_shl a shift) = (arith_value a * 2 ^ shift) mod 2 ^ 256.
Proof.
  intros Ha Hsh. unfold arith_shl. rewrite Z.quot_div_nonneg, Z.rem_mod_nonneg by lia.
  destruct (shift_parts shift Hsh) as (Heq & Hs & Hk). rewrite shl_words by apply Ha.
  set (s := shift mod 32) in *. set (k := shift / 32) in *.
  destruct (decide (Z.to_nat k <= WIDTH)%nat) as [Hle|Hgt].
  - rewrite shl_words_spec by done. destruct Ha as [Hl Ha].
    destruct (shl_small_spec s 0 a Hs ltac:(unfold digit; lia) Ha) as (H1 & H2 & H3). split.
    + split; [rewrite length_app, length_replicate, length_take_le by lia; lia|].
      apply Forall_app. split; [apply digits_zeros; lia|by apply Forall_take].
    + rewrite value_app, value_zeros, value_take, H3, Z.div_0_l, Z.add_0_l, Z.add_0_l by (done || apply Z.pow_nonzero; lia).
      unfold vsize. rewrite length_replicate, H2, Hl, Nat.min_l, Z2Nat.id by lia. change (base ^ Z.of_nat WIDTH) with (2 ^ 256).
      rewrite Nat2Z.inj_sub, Z2Nat.id by lia. change (Z.of_nat WIDTH) with 8 in *.
      assert (Hsplit : 2 ^ 256 = base ^ k * base ^ (8 - k)) 
        by (rewrite <- Z.pow_add_r by (unfold WIDTH in *; lia); by replace (k + (8 - k)) with 8 by lia).
      assert (0 < base ^ k /\ 0 < base ^ (8 - k)) as [? ?] by (split; apply Z.pow_pos_nonneg; unfold WIDTH in *; lia).
      rewrite Hsplit at 1. rewrite (Z.mul_comm (base ^ k) (base ^ (8 - k))), mod_mod_mul by lia.
      rewrite <- Z.mul_mod_distr_l, <- Hsplit by lia. f_equal. rewrite Heq at 1. rewrite Z.pow_add_r, Z.pow_mul_r by lia. ring.
  - replace (map (shl_at a (Z.to_nat k) s) (seq 0 WIDTH)) with arith_zero.
    + destruct wf_zero as [Hw ->]. split; [done|]. symmetry. apply Z.mod_divide; [lia|].
      exists (arith_value a * 2 ^ (shift - 256)). rewrite <- Z.mul_assoc, <- Z.pow_add_r by (unfold WIDTH in *; lia). f_equal. f_equal. lia.
    + unfold WIDTH in *. symmetry. change arith_zero with (map (fun _ : nat => 0) (seq 0 8)). apply map_ext_in.
      intros m Hm%in_seq. unfold shl_at. destruct (Nat.leb_spec (Z.to_nat k) m); [lia|done].
Qed.

Lemma shr_spec a shift : arith_wf a -> 0 <= shift ->
  arith_wf (arith_shr a shift) /\ arith_value (arith_shr a shift) = arith_value a / 2 ^ shift.
Proof.
  intros Ha Hsh. unfold arith_shr. rewrite Z.quot_div_nonneg, Z.rem_mod_nonneg by lia.
  destruct (shift_parts shift Hsh) as (Heq & Hs & Hk). rewrite shr_words by apply Ha.
  set (s := shift mod 32) in *. set (k := shift / 32) in *.
  destruct (decide (Z.to_nat k <= WIDTH)%nat) as [Hle|Hgt].
  - rewrite shr_words_spec by done. pose proof (value_take_drop (Z.to_nat k) a) as Hv. destruct Ha as [Hl Ha].
    destruct (shr_small_spec s (drop (Z.to_nat k) a) Hs ltac:(by apply Forall_drop)) as (H1 & H2 & H3). split.
    + split; [rewrite length_app, length_replicate, H2, length_drop by lia; lia|].
      apply Forall_app. split; [done|apply digits_zeros; lia].
    + rewrite value_app, value_zeros, H3, Z.mul_0_r, Z.add_0_r. rewrite Hv by lia.
      pose proof (digits_value_bound base (take (Z.to_nat k) a) ltac:(lia) ltac:(by apply Forall_take)) as Hb.
      unfold vsize in Hb. rewrite length_take_le in Hb by lia. fold (arith_value (take (Z.to_nat k) a)) in Hb.
      rewrite Z2Nat.id in * by lia. rewrite Heq at 1. rewrite Z.pow_add_r, Z.pow_mul_r by lia.
      assert (0 < base ^ k /\ 0 < 2 ^ s) as [? ?] by (split; apply Z.pow_pos_nonneg; lia).
      change (2 ^ 32) with base. rewrite <- Z.div_div by lia. rewrite (Z.mul_comm (base ^ k)), Z.div_add, (Z.div_small _ (base ^ k)) by lia. done.
  - pose proof (value_bound a Ha) as Hb. replace (map (shr_at a (Z.to_nat k) s) (seq 0 WIDTH)) with arith_zero.
    + destruct wf_zero as [Hw ->]. split; [done|]. symmetry. apply Z.div_small. split; [lia|].
      eapply Z.lt_le_trans; [apply Hb|]. apply Z.pow_le_mono_r; unfold WIDTH in *; lia.
    + unfold WIDTH in *. symmetry. change arith_zero with (map (fun _ : nat => 0) (seq 0 8)). apply map_ext_in.
      intros m Hm%in_seq. unfold shr_at, WIDTH. destruct (Nat.ltb_spec (m + Z.to_nat k) 8); [lia|done].
Qed.

(** ** Bits *)
Lemma word_testbit w x n : digit base w -> 0 <= n ->
  Z.testbit (w + base * x) n = if n <? 32 then Z.testbit w n else Z.testbit x (n - 32).
Proof.
  intros Hw Hn. unfold digit in Hw. rewrite Z.add_comm, Z.mul_comm, <- lor_low by (done || lia).
  rewrite Z.lor_spec, Z.mul_pow2_bits by lia. destruct (Z.ltb_spec n 32).
  - by rewrite Z.testbit_neg_r by lia.
  - rewrite <- (Z.mod_small w base) by done. rewrite Z.mod_pow2_bits_high by lia. apply orb_false_r.
Qed.

Lemma bitwise_spec (f : Z -> Z -> Z) (g : bool -> bool -> bool) a b :
  (forall x y n, Z.testbit (f x y) n = g (Z.testbit x n) (Z.testbit y n)) ->
  (forall x y, digit base x -> digit base y -> digit base (f x y)) -> f 0 0 = 0 ->
  arith_wf a -> arith_wf b ->
  arith_wf (zip_with f a b) /\ arith_value (zip_with f a b) = f (arith_value a) (arith_value b).
Proof.
  intros Hbit Hdig H0 [Hla Ha] [Hlb Hb]. split.
  - split; [rewrite length_zip_with; lia|]. eapply Forall_zip_with_fst; [exact Ha|].
    eapply Forall_impl; [exact Hb|]. intros y Hy x Hx. by apply Hdig.
  - assert (Hlen : length a = length b) by congruence. clear Hla Hlb.
    revert b Hb Hlen. induction Ha as [|x a Hx Ha IH]; intros [|y b] Hb Hlen; try discriminate; [by symmetry|].
    apply Forall_cons_1 in Hb as [Hy Hb]. cbn [zip_with]. rewrite !value_cons, IH by (done || by injection Hlen).
    apply Z.bits_inj'. intros n Hn. rewrite Hbit, !word_testbit by auto. destruct (n <? 32); by rewrite Hbit.
Qed.

Lemma bits_digit x : 0 <= x -> (forall n, 32 <= n -> Z.testbit x n = false) -> digit base x.
Proof.
  intros Hx Hn. unfold digit. replace x with (x mod base); [apply Z.mod_pos_bound; lia|].
  apply Z.bits_inj'. intros n Hn0. destruct (decide (n < 32)); [by rewrite Z.mod_pow2_bits_low|].
  rewrite Z.mod_pow2_bits_high by lia. by rewrite Hn by lia.
Qed.

Lemma digit_bits x n : digit base x -> 32 <= n -> Z.testbit x n = false.
Proof. intros Hx Hn. rewrite <- (Z.mod_small x base) by exact Hx. by apply Z.mod_pow2_bits_high. Qed.

Lemma xor_spec a b : arith_wf a -> arith_wf b ->
  arith_wf (arith_xor a b) /\ arith_value (arith_xor a b) = Z.lxor (arith_value a) (arith_value b).
Proof.
  apply (bitwise_spec Z.lxor xorb); [intros; apply Z.lxor_spec| |done].
  intros x y Hx Hy. apply bits_digit; [apply Z.lxor_nonneg; unfold digit in *; lia|].
  intros n Hn. by rewrite Z.lxor_spec, !digit_bits.
Qed.

Lemma and_spec a b : arith_wf a -> arith_wf b ->
  arith_wf (arith_and a b) /\ arith_value (arith_and a b) = Z.land (arith_value a) (arith_value b).
Proof.
  apply (bitwise_spec Z.land andb); [intros; apply Z.land_spec| |done].
  intros x y Hx Hy. apply bits_digit; [apply Z.land_nonneg; unfold digit in *; lia|].
  intros n Hn. by rewrite Z.land_spec, !digit_bits.
Qed.

Lemma or_spec a b : arith_wf a -> arith_wf b ->
  arith_wf (arith_or a b) /\ arith_value (arith_or a b) = Z.lor (arith_value a) (arith_value b).
Proof.
  apply (bitwise_spec Z.lor orb); [intros; apply Z.lor_spec| |done].
  intros x y Hx Hy. apply bits_digit; [apply Z.lor_nonneg; unfold digit in *; lia|].
  intros n Hn. by rewrite Z.lor_spec, !digit_bits.
Qed.

(** ** Comparisons *)
Lemma value_snoc a x : arith_value (a ++ [x]) = arith_value a + base ^ vsize a * x.
Proof. rewrite value_app, value_cons. change (arith_value []) with 0. lia. Qed.

Definition sign (c : comparison) : Z := match c with Lt => -1 | Eq => 0 | Gt => 1 end.

Lemma compare_down_spec a b : length a = length b -> Forall (digit base) a -> Forall (digit base) b ->
  compare_down (rev a) (rev b) = sign (arith_value a ?= arith_value b).
Proof.
  revert b. induction a as [|x a IH] using rev_ind; intros b Hlen Ha Hb.
  { by destruct b. }
  destruct b as [|y b _] using rev_ind; [rewrite length_app in Hlen; simpl in Hlen; lia|].
  rewrite !length_app in Hlen. simpl in Hlen. apply Forall_app in Ha as [Ha Hx]. apply Forall_app in Hb as [Hb Hy].
  rewrite !rev_unit, !value_snoc. cbn [compare_down].
  pose proof (digits_value_bound base a ltac:(lia) Ha) as Hva. pose proof (digits_value_bound base b ltac:(lia) Hb) as Hvb.
  fold (arith_value a) in Hva. fold (arith_value b) in Hvb. replace (vsize b) with (vsize a) in * by (unfold vsize; lia).
  set (m := base ^ vsize a) in *. destruct (Z.ltb_spec x y).
  { replace (arith_value a + m * x ?= arith_value b + m * y) with Lt; [done|]. symmetry. apply Z.compare_lt_iff. nia. }
  destruct (Z.ltb_spec y x).
  { replace (arith_value a + m * x ?= arith_value b + m * y) with Gt; [done|]. symmetry. apply Z.compare_gt_iff. nia. }
  assert (x = y) as -> by lia. rewrite !(Z.add_comm _ (m * y)), Z.add_compare_mono_l. apply IH; [lia|done..].
Qed.

Lemma CompareTo_spec a b : arith_wf a -> arith_wf b -> arith_CompareTo a b = sign (arith_value a ?= arith_value b).
Proof. intros [Hla Ha] [Hlb Hb]. apply compare_down_spec; [congruence|done..]. Qed.

Lemma word_bits_spec n w : 0 < w < 2 ^ (Z.of_nat n + 1) -> word_bits n w = Z.log2 w + 1.
Proof.
  induction n as [|n IH]; intros Hw.
  { change (2 ^ (Z.of_nat 0 + 1)) with 2 in Hw. by replace w with 1 by lia. }
  cbn [word_bits]. destruct (Z.testbit w (Z.of_nat (S n))) eqn:Eb.
  - f_equal. symmetry. apply Z.log2_unique; [lia|]. split; [|exact (proj2 Hw)].
    destruct (Z.lt_ge_cases w (2 ^ Z.of_nat (S n))) as [Hlt|]; [|done]. exfalso.
    rewrite <- (Z.mod_small w (2 ^ Z.of_nat (S n))) in Eb by lia. rewrite Z.mod_pow2_bits_high in Eb by lia. done.
  - apply IH. split; [lia|]. apply Z.testbit_false in Eb; [|lia].
    replace (Z.of_nat n + 1) with (Z.of_nat (S n)) by lia.
    assert (w / 2 ^ Z.of_nat (S n) < 2).
    { apply Z.div_lt_upper_bound; [apply Z.pow_pos_nonneg; lia|].
      rewrite Z.mul_comm, <- Z.pow_succ_r by lia. lia. }
    apply Z.lt_nge. intros Hge. assert (1 <= w / 2 ^ Z.of_nat (S n)).
    { apply Z.div_le_lower_bound; [apply Z.pow_pos_nonneg|]; lia. }
    rewrite Z.mod_small in Eb by lia. lia.
Qed.

Lemma bits_down_spec a : Forall (digit base) a ->
  bits_down (rev a) = if arith_value a =? 0 then 0 else Z.log2 (arith_value a) + 1.
Proof.
  induction a as [|x a IH] using rev_ind; intros Ha; [done|]. apply Forall_app in Ha as [Ha Hx].
  apply Forall_cons_1 in Hx as [Hx _]. rewrite rev_unit, value_snoc. cbn [bits_down].
  pose proof (digits_value_bound base a ltac:(lia) Ha) as Hva. fold (arith_value a) in Hva.
  assert (Hv : vsize (rev a) = vsize a) by (unfold vsize; by rewrite length_rev). rewrite Hv.
  assert (0 < base ^ vsize a) by (unfold vsize; apply Z.pow_pos_nonneg; lia). unfold digit in Hx.
  destruct (Z.eqb_spec x 0) as [->|Hx0]; cbn [negb]; [by rewrite Z.mul_0_r, Z.add_0_r, IH|].
  rewrite (proj2 (Z.eqb_neq _ _)) by nia. rewrite word_bits_spec by lia.
  replace (Z.log2 (arith_value a + base ^ vsize a * x)) with (32 * vsize a + Z.log2 x); [lia|].
  symmetry. pose proof (Z.log2_spec x ltac:(lia)) as Hlog. pose proof (Z.log2_nonneg x).
  apply Z.log2_unique; [unfold vsize; lia|]. rewrite Z.pow_succ_r in Hlog by lia.
  rewrite Z.pow_succ_r, Z.pow_add_r, Z.pow_mul_r by (unfold vsize; lia). split; [|rewrite Z.mul_assoc, (Z.mul_comm 2)]; nia.
Qed.

Lemma bits_spec a : arith_wf a -> arith_bits a = if arith_value a =? 0 then 0 else Z.log2 (arith_value a) + 1.
Proof. intros [_ Ha]. by apply bits_down_spec. Qed.

Lemma bits_bounds a : arith_wf a -> arith_value a <> 0 ->
  0 < arith_bits a <= 256 /\ 2 ^ (arith_bits a - 1) <= arith_value a < 2 ^ arith_bits a.
Proof.
  intros Ha Hn. pose proof (value_bound a Ha) as Hv. rewrite bits_spec, (proj2 (Z.eqb_neq _ _) Hn) by done.
  pose proof (Z.log2_spec (arith_value a) ltac:(lia)) as Hlog. pose proof (Z.log2_nonneg (arith_value a)).
  assert (Z.log2 (arith_value a) < 256) by (apply Z.log2_lt_pow2; lia).
  split; [lia|]. replace (Z.log2 (arith_value a) + 1 - 1) with (Z.log2 (arith_value a)) by lia. exact Hlog.
Qed.

(** ** Division *)
Lemma value_alter f i (a : list Z) w : a !! i = Some w -> arith_value (alter f i a) = arith_value a + base ^ Z.of_nat i * (f w - w).
Proof.
  revert i. induction a as [|x a IH]; intros [|i] Hi; try discriminate Hi.
  - injection Hi as ->. cbn [alter list_alter]. rewrite !value_cons. change (base ^ Z.of_nat 0) with 1. lia.
  - change (arith_value (x :: alter f i a) = arith_value (x :: a) + base ^ Z.of_nat (S i) * (f w - w)).
    rewrite !value_cons, Nat2Z.inj_succ, Z.pow_succ_r by lia. specialize (IH i Hi). 
    transitivity (x + base * (arith_value a + base ^ Z.of_nat i * (f w - w))); [by rewrite <- IH|ring].
Qed.

Lemma word_value a i w : Forall (digit base) a -> a !! i = Some w -> w = (arith_value a / base ^ Z.of_nat i) mod base.
Proof.
  revert i. induction a as [|x a IH]; intros [|i] Ha Hi; try discriminate Hi; apply Forall_cons_1 in Ha as [Hx Ha];
    rewrite value_cons.
  - injection Hi as ->. change (base ^ Z.of_nat 0) with 1. rewrite Z.div_1_r, (Z.mul_comm base), Z.mod_add by lia.
    symmetry. by apply Z.mod_small.
  - rewrite Nat2Z.inj_succ, Z.pow_succ_r, <- Z.div_div by (lia || apply Z.pow_pos_nonneg; lia).
    rewrite (Z.mul_comm base), Z.div_add, (Z.div_small x) by (done || lia). by apply IH.
Qed.

(** setting bit [shift] of a number whose lower bits are zero *)
Lemma set_bit_spec pn shift : arith_wf pn -> (shift < 256)%nat -> (2 ^ (Z.of_nat shift + 1) | arith_value pn) ->
  let pn' := or_at (Nat.div shift 32) (Z.shiftl 1 (Z.land (Z.of_nat shift) 31)) pn in
  arith_wf pn' /\ arith_value pn' = arith_value pn + 2 ^ Z.of_nat shift.
Proof.
  intros [Hl Hd] Hs [q Hq]. cbn zeta. unfold or_at. set (i := Nat.div shift 32).
  assert (Hi : (i < 8)%nat) by (apply Nat.Div0.div_lt_upper_bound; lia).
  change 31 with (Z.ones 5). rewrite Z.land_ones by lia. change (2 ^ 5) with 32.
  set (r := Z.of_nat shift mod 32).
  assert (Hr : 0 <= r < 32) by (apply Z.mod_pos_bound; lia).
  assert (Hsh : Z.of_nat shift = 32 * Z.of_nat i + r).
  { unfold i, r. rewrite Nat2Z.inj_div. apply Z.div_mod. lia. }
  rewrite Z.shiftl_1_l. destruct (lookup_lt_is_Some_2 pn i) as [w Hw]; [rewrite Hl; exact Hi|].
  assert (0 < base ^ Z.of_nat i) by (apply Z.pow_pos_nonneg; lia).
  assert (Hwq : w = (q mod 2 ^ (31 - r)) * 2 ^ (r + 1)).
  { rewrite (word_value pn i w Hd Hw), Hq, Hsh. rewrite <- Z.add_assoc, Z.pow_add_r, Z.pow_mul_r by lia.
    rewrite (Z.mul_comm (base ^ _)), Z.mul_assoc, Z.div_mul by lia.
    rewrite mod_shifted by lia. do 3 f_equal. lia. }
  assert (Hdw : digit base w) by exact (Forall_lookup_1 _ _ _ _ Hd Hw).
  assert (Hlor : Z.lor w (2 ^ r) = w + 2 ^ r).
  { rewrite Hwq. apply lor_low; [lia|]. split; [apply Z.pow_nonneg; lia|apply Z.pow_lt_mono_r; lia]. }
  split.
  - split; [by rewrite length_alter|]. apply Forall_alter; [done|]. intros x Hx _.
    replace x with w by congruence. apply bits_digit; [rewrite Hlor; unfold digit in Hdw; pose proof (Z.pow_nonneg 2 r); lia|].
    intros n Hn. rewrite Z.lor_spec, (digit_bits w n Hdw Hn). apply digit_bits; [|done].
    split; [apply Z.pow_nonneg; lia|apply Z.pow_lt_mono_r; lia].
  - rewrite (value_alter _ _ _ _ Hw), Hlor. rewrite Hsh, Z.pow_add_r, Z.pow_mul_r by lia. change (2 ^ 32) with base. ring.
Qed.

Lemma CompareTo_nonneg a b : arith_wf a -> arith_wf b -> (0 <=? arith_CompareTo a b) = (arith_value b <=? arith_value a).
Proof.
  intros Ha Hb. rewrite CompareTo_spec by done. destruct (Z.compare_spec (arith_value a) (arith_value b)); cbn [sign];
    symmetry; [apply Z.leb_le; lia|apply Z.leb_gt; lia|apply Z.leb_le; lia].
Qed.

Lemma div_loop_spec fuel D num div pn :
  (fuel <= 256)%nat -> 0 < D -> arith_wf num -> arith_wf div -> arith_wf pn ->
  (forall sh, fuel = S sh -> arith_value div = D * 2 ^ Z.of_nat sh) ->
  arith_value num < D * 2 ^ Z.of_nat fuel -> (2 ^ Z.of_nat fuel | arith_value pn) ->
  arith_wf (div_loop fuel num div pn) /\ arith_value (div_loop fuel num div pn) = arith_value pn + arith_value num / D.
Proof.
  intros Hf HD. revert num div pn. induction fuel as [|sh IH]; intros num div pn Hnum Hdiv Hpn Hv Hlt Hmul.
  { split; [done|]. cbn [div_loop]. change (2 ^ Z.of_nat 0) with 1 in Hlt.
    rewrite Z.div_small; [lia|]. pose proof (value_bound num Hnum). lia. }
  specialize (Hv sh eq_refl). cbn [div_loop]. rewrite CompareTo_nonneg by done.
  pose proof (value_bound num Hnum). pose proof (value_bound div Hdiv).
  assert (0 < 2 ^ Z.of_nat sh) by (apply Z.pow_pos_nonneg; lia).
  destruct (shr_spec div 1 Hdiv ltac:(lia)) as [Hs1 Hs2].
  assert (Hnext : forall sh', sh = S sh' -> arith_value (arith_shr div 1) = D * 2 ^ Z.of_nat sh').
  { intros sh' ->. rewrite Hs2, Hv, Nat2Z.inj_succ, Z.pow_succ_r by lia. change (2 ^ 1) with 2.
    replace (D * (2 * 2 ^ Z.of_nat sh')) with (D * 2 ^ Z.of_nat sh' * 2) by ring. by rewrite Z.div_mul. }
  rewrite Nat2Z.inj_succ, Z.pow_succ_r in Hlt by lia. rewrite Nat2Z.inj_succ in Hmul.
  assert (Hmul' : (2 ^ Z.of_nat sh | arith_value pn)).
  { destruct Hmul as [q ->]. exists (q * 2). rewrite Z.pow_succ_r by lia. ring. }
  destruct (Z.leb_spec (arith_value div) (arith_value num)) as [Hle|Hgt].
  - destruct (set_bit_spec pn sh Hpn) as [Hp1 Hp2]; [lia|done|].
    destruct (sub_spec num div Hnum Hdiv) as [Hn1 Hn2]. rewrite Z.mod_small in Hn2 by lia.
    destruct (IH ltac:(lia) (arith_sub num div) (arith_shr div 1) _ Hn1 Hs1 Hp1 Hnext) as [Hr1 Hr2]; [lia| |].
    { rewrite Hp2. apply Z.divide_add_r; [done|apply Z.divide_refl]. }
    split; [done|]. rewrite Hr2, Hp2, Hn2, Hv.
    replace (arith_value num - D * 2 ^ Z.of_nat sh) with (arith_value num + - 2 ^ Z.of_nat sh * D) by ring.
    rewrite Z.div_add by lia. lia.
  - apply IH; [lia|done..|lia|done].
Qed.

Lemma div_spec a b : arith_wf a -> arith_wf b ->
  if arith_value b =? 0 then arith_div a b = Err (Exception "Division by zero")
  else exists q, arith_div a b = Ok q /\ arith_wf q /\ arith_value q = arith_value a / arith_value b.
Proof.
  intros Ha Hb. unfold arith_div. pose proof (value_bound a Ha). pose proof (value_bound b Hb).
  destruct (Z.eqb_spec (arith_value b) 0) as [E|Hb0].
  { rewrite (bits_spec b Hb), E. done. }
  destruct (bits_bounds b Hb Hb0) as [Hbb [Hb1 Hb2]]. rewrite (proj2 (Z.eqb_neq (arith_bits b) 0)) by lia.
  destruct (Z.eqb_spec (arith_value a) 0) as [Ea|Ha0].
  { rewrite (bits_spec a Ha), Ea. cbn [Z.eqb]. rewrite (proj2 (Z.ltb_lt 0 (arith_bits b))) by lia.
    exists arith_zero. destruct wf_zero as [? ->]. by rewrite Z.div_0_l. }
  destruct (bits_bounds a Ha Ha0) as [Hab [Ha1 Ha2]].
  destruct (Z.ltb_spec (arith_bits a) (arith_bits b)) as [Hlt|Hge].
  { exists arith_zero. destruct wf_zero as [? ->]. split_and!; [done..|]. rewrite Z.div_small; [done|]. split; [lia|].
    eapply Z.lt_le_trans; [exact Ha2|]. eapply Z.le_trans; [|exact Hb1]. apply Z.pow_le_mono_r; lia. }
  eexists. split; [reflexivity|]. set (shift := arith_bits a - arith_bits b).
  assert (Hfit : arith_value b * 2 ^ shift < 2 ^ 256).
  { eapply (Z.lt_le_trans _ (2 ^ arith_bits b * 2 ^ shift)); [apply Z.mul_lt_mono_pos_r; [apply Z.pow_pos_nonneg; lia|done]|].
    rewrite <- Z.pow_add_r by lia. apply Z.pow_le_mono_r; lia. }
  destruct (shl_spec b shift Hb ltac:(lia)) as [Hs1 Hs2]. rewrite Z.mod_small in Hs2 by
    (split; [apply Z.mul_nonneg_nonneg; [lia|apply Z.pow_nonneg; lia]|done]).
  destruct wf_zero as [Hz1 Hz2].
  destruct (div_loop_spec (Z.to_nat (shift + 1)) (arith_value b) a (arith_shl b shift) arith_zero) as [Hr1 Hr2];
    [lia|lia|done..| | | |].
  - intros sh Hsh. rewrite Hs2. do 2 f_equal. lia.
  - rewrite Z2Nat.id by lia. eapply Z.lt_le_trans; [exact Ha2|].
    replace (arith_bits a) with (arith_bits b - 1 + (shift + 1)) by lia. rewrite Z.pow_add_r by lia.
    apply Z.mul_le_mono_nonneg_r; [apply Z.pow_nonneg; lia|done].
  - rewrite Hz2. apply Z.divide_0_r.
  - split; [done|]. rewrite Hr2, Hz2. lia.
Qed.

(** ** Numbers of 64 bits *)
Lemma of_u64_spec b : 0 <= b < 2 ^ 64 -> arith_wf (arith_of_u64 b) /\ arith_value (arith_of_u64 b) = b.
Proof.
  intros Hb. unfold arith_of_u64, to_u32. rewrite Z.shiftr_div_pow2 by lia.
  rewrite (Z.mod_small (b / base)) by (split; [apply Z.div_pos; lia|apply Z.div_lt_upper_bound; lia]).
  split.
  - split; [done|]. apply Forall_cons_2; [apply Z.mod_pos_bound; lia|]. apply Forall_cons_2; [|apply digits_zeros; lia].
    split; [apply Z.div_pos; lia|apply Z.div_lt_upper_bound; lia].
  - rewrite !value_cons, value_zeros. pose proof (Z.div_mod b base ltac:(lia)). lia.
Qed.

Lemma GetLow64_spec a : arith_wf a -> GetLow64 a = arith_value a mod 2 ^ 64.
Proof.
  intros [Hl Ha]. destruct a as [|x [|y a]]; try discriminate Hl. decompose_Forall_hyps. unfold GetLow64. cbn [nth].
  rewrite Z.shiftl_mul_pow2, lor_add, !value_cons by (done || lia). unfold digit in *.
  replace (x + base * (y + base * arith_value a)) with (x + y * base + arith_value a * 2 ^ 64) by (change (2 ^ 64) with (base * base); ring).
  rewrite Z.mod_add by lia. symmetry. apply Z.mod_small. nia.
Qed.

Lemma EqualTo_spec a b : arith_wf a -> 0 <= b < 2 ^ 64 -> arith_EqualTo a b = (arith_value a =? b).
Proof.
  intros [Hl Ha] Hb. destruct a as [|x [|y a]]; try discriminate Hl. decompose_Forall_hyps.
  unfold arith_EqualTo. change (drop 2 (x :: y :: a)) with a. cbn [nth]. rewrite !value_cons, Z.shiftr_div_pow2 by lia.
  change 0xffffffff with (Z.ones 32). rewrite Z.land_ones by lia. unfold digit in *.
  pose proof (Z.div_mod b base ltac:(lia)) as Hdm. pose proof (Z.mod_pos_bound b base ltac:(lia)) as Hm.
  assert (Hdb : 0 <= b / base < base) by (split; [apply Z.div_pos; lia|apply Z.div_lt_upper_bound; lia]).
  assert (Hz : if forallb (Z.eqb 0) a then arith_value a = 0 else 0 < arith_value a).
  { match goal with H : Forall _ a |- _ => clear -H; induction H as [|w a Hw Ha IH]; [done|] end.
    cbn [forallb]. rewrite value_cons. unfold digit in Hw. pose proof (digits_value_bound base a ltac:(lia) Ha) as Hv.
    fold (arith_value a) in Hv. destruct (Z.eqb_spec 0 w) as [<-|]; cbn [andb]; [destruct (forallb (Z.eqb 0) a)|]; lia. }
  destruct (forallb (Z.eqb 0) a); cbn [negb]; [|symmetry; apply Z.eqb_neq; lia].
  rewrite Hz. destruct (Z.eqb_spec y (b / base)) as [->|]; cbn [negb].
  - destruct (Z.eqb_spec x (b mod base)); symmetry; [apply Z.eqb_eq; lia|apply Z.eqb_neq; lia].
  - symmetry. apply Z.eqb_neq. nia.
Qed.

(** ** The compact form of a number *)
Lemma land_pow2 x k : 0 <= k -> Z.land x (2 ^ k) = if Z.testbit x k then 2 ^ k else 0.
Proof.
  intros Hk. apply Z.bits_inj'. intros n Hn. rewrite Z.land_spec, Z.pow2_bits_eqb by done.
  destruct (Z.eqb_spec k n) as [->|Hne].
  - destruct (Z.testbit x n) eqn:E; [by rewrite Z.pow2_bits_true|by rewrite Z.bits_0].
  - rewrite andb_false_r. destruct (Z.testbit x k); [|by rewrite Z.bits_0]. by rewrite Z.pow2_bits_false.
Qed.

Lemma testbit_top x k : 0 <= k -> 0 <= x < 2 ^ (k + 1) -> Z.testbit x k = (2 ^ k <=? x).
Proof.
  intros Hk Hx. rewrite Z.pow_add_r in Hx by lia. change (2 ^ 1) with 2 in Hx.
  assert (0 < 2 ^ k) by (apply Z.pow_pos_nonneg; lia). destruct (Z.leb_spec (2 ^ k) x) as [Hle|Hlt].
  - apply Z.testbit_true; [done|]. replace (x / 2 ^ k) with 1; [done|].
    apply (Z.div_unique_pos _ _ _ (x - 2 ^ k)); lia.
  - apply Z.testbit_false; [done|]. by rewrite Z.div_small by lia.
Qed.

Lemma sign_bit x : 0 <= x < 2 ^ 24 -> (Z.land x 0x00800000 =? 0) = (x <? 2 ^ 23).
Proof.
  intros Hx. change 0x00800000 with (2 ^ 23). rewrite land_pow2, testbit_top by lia.
  destruct (Z.leb_spec (2 ^ 23) x), (Z.ltb_spec x (2 ^ 23)); (done || lia).
Qed.

(** the number of bytes, the mantissa and the compact form, of a value *)
Definition byte_size (v : Z) : Z := if v =? 0 then 0 else Z.log2 v / 8 + 1.

Definition mantissa (v : Z) : Z :=
  if byte_size v <=? 3 then v * 256 ^ (3 - byte_size v) else v / 256 ^ (byte_size v - 3).

Definition compact_of (v : Z) : Z :=
  if mantissa v <? 2 ^ 23 then mantissa v + 2 ^ 24 * byte_size v else mantissa v / 256 + 2 ^ 24 * (byte_size v + 1).

Lemma pow256 e : 0 <= e -> 256 ^ e = 2 ^ (8 * e).
Proof. intros. by rewrite Z.pow_mul_r by lia. Qed.

Lemma byte_size_spec v : 0 < v < 2 ^ 256 -> 1 <= byte_size v <= 32 /\ 256 ^ (byte_size v - 1) <= v < 256 ^ byte_size v.
Proof.
  intros Hv. unfold byte_size. rewrite (proj2 (Z.eqb_neq v 0)) by lia.
  pose proof (Z.log2_spec v ltac:(lia)) as Hlog. pose proof (Z.log2_nonneg v).
  assert (Z.log2 v < 256) by (apply Z.log2_lt_pow2; lia).
  pose proof (Z.div_mod (Z.log2 v) 8 ltac:(lia)). pose proof (Z.mod_pos_bound (Z.log2 v) 8 ltac:(lia)).
  split; [lia|]. rewrite !pow256 by lia. split.
  - eapply Z.le_trans; [|apply Hlog]. apply Z.pow_le_mono_r; lia.
  - eapply Z.lt_le_trans; [apply Hlog|]. apply Z.pow_le_mono_r; lia.
Qed.

Lemma byte_size_unique v n : 1 <= n -> 256 ^ (n - 1) <= v < 256 ^ n -> byte_size v = n.
Proof.
  intros Hn Hv. assert (0 < v) by (pose proof (Z.pow_pos_nonneg 256 (n - 1)); lia).
  unfold byte_size. rewrite (proj2 (Z.eqb_neq v 0)) by lia. rewrite !pow256 in Hv by lia.
  assert (8 * (n - 1) <= Z.log2 v) by (apply Z.log2_le_pow2; lia).
  assert (Z.log2 v < 8 * n) by (apply Z.log2_lt_pow2; lia).
  pose proof (Z.div_mod (Z.log2 v) 8 ltac:(lia)). pose proof (Z.mod_pos_bound (Z.log2 v) 8 ltac:(lia)). lia.
Qed.

Lemma mantissa_spec v : 0 < v < 2 ^ 256 -> 2 ^ 16 <= mantissa v < 2 ^ 24.
Proof.
  intros Hv. destruct (byte_size_spec v Hv) as [Hn [H1 H2]]. unfold mantissa. set (n := byte_size v) in *.
  destruct (Z.leb_spec n 3).
  - assert (0 < 256 ^ (3 - n)) by (apply Z.pow_pos_nonneg; lia).
    assert (256 ^ (n - 1) * 256 ^ (3 - n) = 2 ^ 16) by (rewrite <- Z.pow_add_r by lia; by replace (n - 1 + (3 - n)) with 2 by lia).
    assert (256 ^ n * 256 ^ (3 - n) = 2 ^ 24) by (rewrite <- Z.pow_add_r by lia; by replace (n + (3 - n)) with 3 by lia). nia.
  - assert (0 < 256 ^ (n - 3)) by (apply Z.pow_pos_nonneg; lia). split.
    + apply Z.div_le_lower_bound; [done|]. change (2 ^ 16) with (256 ^ 2). rewrite <- Z.pow_add_r by lia.
      by replace (n - 3 + 2) with (n - 1) by lia.
    + apply Z.div_lt_upper_bound; [done|]. change (2 ^ 24) with (256 ^ 3). rewrite <- Z.pow_add_r by lia.
      by replace (n - 3 + 3) with n by lia.
Qed.

Lemma GetCompact_value a : arith_wf a -> GetCompact a false = Ok (compact_of (arith_value a)).
Proof.
  intros Ha. pose proof (value_bound a Ha) as Hv. unfold GetCompact.
  assert (Hsize : Z.quot (arith_bits a + 7) 8 = byte_size (arith_value a)).
  { rewrite bits_spec by done. unfold byte_size. destruct (arith_value a =? 0); [done|].
    pose proof (Z.log2_nonneg (arith_value a)). rewrite Z.quot_div_nonneg by lia.
    replace (Z.log2 (arith_value a) + 1 + 7) with (Z.log2 (arith_value a) + 1 * 8) by lia. by rewrite Z.div_add. }
  rewrite Hsize. destruct (Z.eq_dec (arith_value a) 0) as [E|Hn0].
  { rewrite GetLow64_spec, E by done. done. }
  destruct (byte_size_spec (arith_value a) ltac:(lia)) as [Hn [H1 H2]].
  pose proof (mantissa_spec (arith_value a) ltac:(lia)) as Hm.
  replace (if byte_size (arith_value a) <=? 3 then _ else _) with (mantissa (arith_value a)).
  2:{ unfold mantissa in *. set (n := byte_size (arith_value a)) in *. destruct (Z.leb_spec n 3).
    - assert (arith_value a < 2 ^ 24).
      { eapply Z.lt_le_trans; [exact H2|]. change (2 ^ 24) with (256 ^ 3). apply Z.pow_le_mono_r; lia. }
      rewrite GetLow64_spec, (Z.mod_small _ (2 ^ 64)), Z.shiftl_mul_pow2, <- pow256 by (done || lia).
      unfold to_u32, to_u64. rewrite (Z.mod_small _ (2 ^ 64)) by lia. symmetry. apply Z.mod_small. lia.
    - destruct (shr_spec a (8 * (n - 3)) Ha ltac:(lia)) as [Hs1 Hs2].
      rewrite GetLow64_spec, Hs2, <- pow256 by (done || lia). unfold to_u32.
      rewrite (Z.mod_small _ (2 ^ 64)) by lia. symmetry. apply Z.mod_small. lia. }
  unfold compact_of. set (m := mantissa (arith_value a)) in *. set (n := byte_size (arith_value a)) in *.
  rewrite sign_bit by lia. change (2 ^ 32 - 1 - 0x007fffff) with ((2 ^ 9 - 1) * 2 ^ 23).
  assert (Hhigh : forall x, 0 <= x < 2 ^ 23 -> Z.land x ((2 ^ 9 - 1) * 2 ^ 23) = 0).
  { intros x Hx. apply Z.bits_inj'. intros k Hk. rewrite Z.land_spec, Z.bits_0.
    destruct (decide (k < 23)); [rewrite Z.mul_pow2_bits_low by lia; apply andb_false_r|].
    rewrite <- (Z.mod_small x (2 ^ 23)), Z.mod_pow2_bits_high by lia. done. }
  assert (Hlor : forall x y, 0 <= x < 2 ^ 23 -> 0 <= y < 256 -> Z.lor x (to_u32 (Z.shiftl y 24)) = x + 2 ^ 24 * y).
  { intros x y Hx Hy. rewrite Z.shiftl_mul_pow2 by lia. unfold to_u32. rewrite Z.mod_small by lia.
    rewrite lor_add by lia. lia. }
  destruct (Z.ltb_spec m (2 ^ 23)); cbn [negb].
  - rewrite Hhigh, (proj2 (Z.ltb_lt n 256)) by lia. cbn [negb Z.eqb andb]. by rewrite Z.lor_0_r, Hlor by lia.
  - rewrite Z.shiftr_div_pow2 by lia. change (2 ^ 8) with 256.
    assert (0 <= m / 256 < 2 ^ 23) by (split; [apply Z.div_pos; lia|apply Z.div_lt_upper_bound; lia]).
    rewrite Hhigh, (proj2 (Z.ltb_lt (n + 1) 256)) by lia. cbn [negb Z.eqb andb]. by rewrite Z.lor_0_r, Hlor by lia.
Qed.

(** the number a compact form stands for, before it is cut to 256 bits *)
Definition compact_value (c : Z) : Z :=
  let size := c / 2 ^ 24 in
  let word := c mod 2 ^ 23 in
  if size <=? 3 then word / 256 ^ (3 - size) else word * 256 ^ (size - 3).

Definition compact_word (c : Z) : Z :=
  let size := c / 2 ^ 24 in
  if size <=? 3 then (c mod 2 ^ 23) / 256 ^ (3 - size) else c mod 2 ^ 23.

Lemma overflow_flag size word : 3 < size -> 0 <= word < 2 ^ 23 ->
  negb (word =? 0) && ((34 <? size) || ((0xff <? word) && (33 <? size)) || ((0xffff <? word) && (32 <? size)))
  = (2 ^ 256 <=? word * 256 ^ (size - 3)).
Proof.
  intros Hsize Hw. destruct (Z.eqb_spec word 0) as [->|Hw0]; [done|]. cbn [negb andb].
  destruct (Z.ltb_spec 34 size); cbn [orb].
  { symmetry. apply Z.leb_le. replace (size - 3) with (32 + (size - 35)) by lia. rewrite Z.pow_add_r by lia.
    pose proof (Z.pow_pos_nonneg 256 (size - 35)). change (256 ^ 32) with (2 ^ 256). nia. }
  destruct (Z.eq_dec size 34) as [->|]; [|destruct (Z.eq_dec size 33) as [->|]].
  - change (256 ^ (34 - 3)) with (2 ^ 248). change (2 ^ 256) with (256 * 2 ^ 248). cbn [Z.ltb Z.compare Pos.compare Pos.compare_cont].
    destruct (Z.ltb_spec 0xff word); cbn [orb andb]; symmetry; [apply Z.leb_le; nia|].
    rewrite (proj2 (Z.ltb_ge 0xffff word)) by lia. apply Z.leb_gt. nia.
  - change (256 ^ (33 - 3)) with (2 ^ 240). change (2 ^ 256) with (2 ^ 16 * 2 ^ 240). rewrite (proj2 (Z.ltb_ge 33 33)) by lia.
    rewrite andb_false_r. destruct (Z.ltb_spec 0xffff word); cbn [orb andb]; symmetry; [apply Z.leb_le|apply Z.leb_gt]; nia.
  - rewrite (proj2 (Z.ltb_ge 33 size)), (proj2 (Z.ltb_ge 32 size)), !andb_false_r by lia. symmetry. apply Z.leb_gt.
    apply (Z.lt_le_trans _ (2 ^ 23 * 256 ^ (size - 3))); [apply Z.mul_lt_mono_pos_r; [apply Z.pow_pos_nonneg|]; lia|].
    apply (Z.le_trans _ (2 ^ 23 * 256 ^ 29)); [apply Z.mul_le_mono_nonneg_l; [lia|apply Z.pow_le_mono_r; lia]|].
    by apply Z.leb_le.
Qed.

Lemma SetCompact_value c : 0 <= c < 2 ^ 32 ->
  exists bn, SetCompact c = (bn, negb (compact_word c =? 0) && Z.testbit c 23, 2 ^ 256 <=? compact_value c)
    /\ arith_wf bn /\ arith_value bn = compact_value c mod 2 ^ 256.
Proof.
  intros Hc. unfold SetCompact, compact_value, compact_word. rewrite Z.shiftr_div_pow2 by lia.
  change 0x007fffff with (Z.ones 23). rewrite Z.land_ones by lia. change 0x00800000 with (2 ^ 23). rewrite land_pow2 by lia.
  assert (Hsz : 0 <= c / 2 ^ 24 < 256) by (split; [apply Z.div_pos; lia|apply Z.div_lt_upper_bound; lia]).
  pose proof (Z.mod_pos_bound c (2 ^ 23) ltac:(lia)) as Hw. set (size := c / 2 ^ 24) in *. set (word := c mod 2 ^ 23) in *.
  replace (negb ((if Z.testbit c 23 then 2 ^ 23 else 0) =? 0)) with (Z.testbit c 23) by by destruct (Z.testbit c 23).
  destruct (Z.leb_spec size 3) as [Hle|Hgt].
  - rewrite Z.shiftr_div_pow2, <- pow256 by lia. set (w := word / 256 ^ (3 - size)).
    assert (0 <= w < 2 ^ 23).
    { pose proof (Z.pow_pos_nonneg 256 (3 - size)). split; [apply Z.div_pos; lia|]. apply Z.div_lt_upper_bound; [lia|nia]. }
    destruct (of_u64_spec w ltac:(lia)) as [H1 H2]. eexists. split_and!; [|exact H1|rewrite H2; symmetry; apply Z.mod_small; lia].
    do 2 f_equal. rewrite (proj2 (Z.ltb_ge 34 size)), (proj2 (Z.ltb_ge 33 size)), (proj2 (Z.ltb_ge 32 size)) by lia.
    rewrite (proj2 (Z.leb_gt _ _)) by lia. by rewrite !andb_false_r.
  - destruct (of_u64_spec word ltac:(lia)) as [H1 H2]. destruct (shl_spec _ (8 * (size - 3)) H1 ltac:(lia)) as [H3 H4].
    rewrite H2, <- pow256 in H4 by lia. eexists. split_and!; [|exact H3|exact H4]. do 2 f_equal.
    by apply overflow_flag.
Qed.

Lemma compact_parts w n : 0 <= w < 2 ^ 23 -> 0 <= n ->
  (w + 2 ^ 24 * n) / 2 ^ 24 = n /\ (w + 2 ^ 24 * n) mod 2 ^ 23 = w /\ Z.testbit (w + 2 ^ 24 * n) 23 = false.
Proof.
  intros Hw Hn. split_and!.
  - rewrite (Z.mul_comm (2 ^ 24)), Z.div_add, Z.div_small by lia. done.
  - replace (w + 2 ^ 24 * n) with (w + 2 * n * 2 ^ 23) by lia. rewrite Z.mod_add, Z.mod_small by lia. done.
  - apply Z.testbit_false; [lia|]. replace (w + 2 ^ 24 * n) with (w + 2 * n * 2 ^ 23) by lia.
    rewrite Z.div_add, Z.div_small, Z.add_0_l, Z.mul_comm, Z.mod_mul by lia. done.
Qed.

(** the value a compact form keeps: the three (or two) highest bytes *)
Definition truncated (v : Z) : Z :=
  if mantissa v <? 2 ^ 23 then
    if byte_size v <=? 3 then v else mantissa v * 256 ^ (byte_size v - 3)
  else if byte_size v <=? 2 then v else mantissa v / 256 * 256 ^ (byte_size v - 2).

Lemma compact_of_value v : 0 <= v < 2 ^ 256 ->
  0 <= compact_of v < 2 ^ 32 /\ Z.testbit (compact_of v) 23 = false /\ compact_value (compact_of v) = truncated v.
Proof.
  intros Hv. destruct (Z.eq_dec v 0) as [->|Hn0]; [done|].
  destruct (byte_size_spec v ltac:(lia)) as [Hn _]. pose proof (mantissa_spec v ltac:(lia)) as Hm.
  unfold compact_of, truncated, compact_value. set (n := byte_size v) in *. set (m := mantissa v) in *.
  assert (Hback : n <= 3 -> m / 256 ^ (3 - n) = v).
  { intros Hle. unfold m, mantissa. fold n. rewrite (proj2 (Z.leb_le n 3)) by lia.
    apply Z.div_mul. apply Z.pow_nonzero; lia. }
  destruct (Z.ltb_spec m (2 ^ 23)) as [Hlt|Hge].
  - destruct (compact_parts m n) as (-> & -> & ->); [lia..|]. split_and!; [lia..|].
    destruct (Z.leb_spec n 3); [by apply Hback|done].
  - assert (0 <= m / 256 < 2 ^ 23) by (split; [apply Z.div_pos; lia|apply Z.div_lt_upper_bound; lia]).
    destruct (compact_parts (m / 256) (n + 1)) as (-> & -> & ->); [lia..|]. split_and!; [lia..|].
    replace (n + 1 <=? 3) with (n <=? 2) by (destruct (Z.leb_spec n 2), (Z.leb_spec (n + 1) 3); lia || done).
    destruct (Z.leb_spec n 2).
    + transitivity (m / 256 ^ (3 - n)); [|apply Hback; lia]. rewrite Z.div_div by (lia || apply Z.pow_pos_nonneg; lia). f_equal.
      rewrite <- Z.pow_succ_r by lia. f_equal. lia.
    + do 2 f_equal. lia.
Qed.

Lemma div_mul_bounds x d : 0 < d -> 0 <= x -> x / d * d <= x /\ x - x / d * d < d.
Proof. intros Hd Hx. pose proof (Z.div_mod x d ltac:(lia)). pose proof (Z.mod_pos_bound x d ltac:(lia)). lia. Qed.

(** the bytes kept, as one quotient *)
Lemma truncated_div v : 0 < v < 2 ^ 256 ->
  exists e, 0 <= e /\ truncated v = v / 256 ^ e * 256 ^ e /\ 2 ^ 15 * 256 ^ e <= v \/ truncated v = v.
Proof.
  intros Hv. destruct (byte_size_spec v ltac:(lia)) as [Hn [H1 H2]]. pose proof (mantissa_spec v ltac:(lia)) as Hm.
  unfold truncated. destruct (Z.ltb_spec (mantissa v) (2 ^ 23)) as [Hlt|Hge].
  - unfold mantissa in *. destruct (Z.leb_spec (byte_size v) 3); [exists 0; by right|]. set (n := byte_size v) in *.
    exists (n - 3). left. split_and!; [lia|done|]. eapply Z.le_trans; [|exact H1].
    replace (n - 1) with (2 + (n - 3)) by lia. rewrite (Z.pow_add_r _ 2) by lia.
    apply Z.mul_le_mono_nonneg_r; [apply Z.pow_nonneg; lia|done].
  - destruct (Z.leb_spec (byte_size v) 2); [exists 0; by right|]. set (n := byte_size v) in *. exists (n - 2). left.
    assert (Hq : mantissa v / 256 = v / 256 ^ (n - 2)).
    { unfold mantissa. fold n. destruct (Z.leb_spec n 3).
      - replace n with 3 by lia. change (256 ^ (3 - 3)) with 1. change (256 ^ (3 - 2)) with 256. by rewrite Z.mul_1_r.
      - rewrite Z.div_div by (lia || apply Z.pow_pos_nonneg; lia). f_equal. rewrite Z.mul_comm, <- Z.pow_succ_r by lia. f_equal. lia. }
    split_and!; [lia|by rewrite Hq|].
    assert (0 < 256 ^ (n - 2)) by (apply Z.pow_pos_nonneg; lia).
    assert (2 ^ 15 <= v / 256 ^ (n - 2)) by (rewrite <- Hq; apply Z.div_le_lower_bound; lia).
    pose proof (div_mul_bounds v (256 ^ (n - 2)) ltac:(lia) ltac:(lia)). nia.
Qed.

Lemma truncated_close v : 0 <= v < 2 ^ 256 -> 0 <= truncated v <= v /\ (v - truncated v) * 2 ^ 15 <= v.
Proof.
  intros Hv. destruct (Z.eq_dec v 0) as [->|Hn0]; [done|]. destruct (truncated_div v ltac:(lia)) as [e [(He & -> & Hle)| ->]]; [|lia].
  assert (0 < 256 ^ e) by (apply Z.pow_pos_nonneg; lia).
  pose proof (div_mul_bounds v (256 ^ e) ltac:(lia) ltac:(lia)). pose proof (Z.div_pos v (256 ^ e) ltac:(lia) ltac:(lia)). nia.
Qed.

(** a mantissa of three bytes determines the number of bytes *)
Lemma compact_of_scaled m n : 2 ^ 16 <= m < 2 ^ 24 -> 3 <= n <= 32 ->
  byte_size (m * 256 ^ (n - 3)) = n /\ mantissa (m * 256 ^ (n - 3)) = m.
Proof.
  intros Hm Hn. assert (0 < 256 ^ (n - 3)) by (apply Z.pow_pos_nonneg; lia).
  assert (Hs : byte_size (m * 256 ^ (n - 3)) = n).
  { apply byte_size_unique; [lia|]. replace (n - 1) with (2 + (n - 3)) by lia.
    replace (256 ^ n) with (256 ^ (3 + (n - 3))) by (f_equal; lia). rewrite !Z.pow_add_r by lia.
    change (256 ^ 2) with (2 ^ 16). change (256 ^ 3) with (2 ^ 24). nia. }
  split; [done|]. unfold mantissa. rewrite Hs. destruct (Z.leb_spec n 3).
  - replace n with 3 by lia. change (256 ^ (3 - 3)) with 1. lia.
  - apply Z.div_mul. lia.
Qed.

Lemma compact_of_truncated v : 0 <= v < 2 ^ 256 -> compact_of (truncated v) = compact_of v.
Proof.
  intros Hv. destruct (Z.eq_dec v 0) as [->|Hn0]; [done|].
  destruct (byte_size_spec v ltac:(lia)) as [Hn _]. pose proof (mantissa_spec v ltac:(lia)) as Hm.
  unfold truncated. destruct (Z.ltb_spec (mantissa v) (2 ^ 23)) as [Hlt|Hge].
  - destruct (Z.leb_spec (byte_size v) 3); [done|].
    destruct (compact_of_scaled (mantissa v) (byte_size v) Hm ltac:(lia)) as [E1 E2].
    unfold compact_of at 1. rewrite E1, E2. unfold compact_of. done.
  - destruct (Z.leb_spec (byte_size v) 2); [done|].
    pose proof (div_mul_bounds (mantissa v) 256 ltac:(lia) ltac:(lia)) as Hb.
    destruct (compact_of_scaled (mantissa v / 256 * 256) (byte_size v)) as [E1 E2]; [|lia|].
    { assert (2 ^ 15 <= mantissa v / 256) by (apply Z.div_le_lower_bound; lia). lia. }
    assert (2 ^ 15 <= mantissa v / 256) by (apply Z.div_le_lower_bound; lia).
    replace (mantissa v / 256 * 256 ^ (byte_size v - 2)) with (mantissa v / 256 * 256 * 256 ^ (byte_size v - 3))
      by (rewrite <- Z.mul_assoc, <- Z.pow_succ_r by lia; do 2 f_equal; lia).
    unfold compact_of. rewrite E1, E2. rewrite (proj2 (Z.ltb_ge (mantissa v) _)), (proj2 (Z.ltb_ge (_ * 256) _)) by lia.
    by rewrite Z.div_mul.
Qed.

(** ** Conversions *)
Lemma le_split_combine l : Forall is_byte l -> le_split (length l) (le_combine l) = l.
Proof.
  induction 1 as [|b l Hb _ IH]; [done|]. unfold is_byte in Hb. cbn [length le_split le_combine].
  rewrite (Z.mul_comm 256), Z.mod_add, Z.div_add, Z.mod_small, Z.div_small, Z.add_0_l, IH by lia. done.
Qed.

Lemma uint_bytes_of b : length b = 32%nat -> Forall is_byte b -> uint_bytes (uint_of_bytes b) = b.
Proof.
  intros Hl Hb. unfold uint_bytes, uint_of_bytes. rewrite <- Hl, <- length_rev, le_split_combine by by apply Forall_rev.
  apply rev_involutive.
Qed.

Lemma uint_of_bytes_of x : 0 <= x < 2 ^ 256 -> uint_of_bytes (uint_bytes x) = x.
Proof.
  intros Hx. unfold uint_bytes, uint_of_bytes. rewrite rev_involutive, le_combine_split. by apply Z.mod_small.
Qed.

Lemma read_words_spec n (b : bytes) : length b = (4 * n)%nat -> Forall is_byte b ->
  Forall (digit base) (read_words n b) /\ length (read_words n b) = n
  /\ arith_value (read_words n b) = le_combine b /\ concat (map WriteLE32 (read_words n b)) = b.
Proof.
  revert b. induction n as [|n IH]; intros b Hl Hb; [by destruct b|]. cbn [read_words].
  assert (Hl4 : length (take 4 b) = 4%nat) by (rewrite length_take; lia).
  destruct (IH (drop 4 b)) as (H1 & H2 & H3 & H4); [rewrite length_drop; lia|by apply Forall_drop|].
  pose proof (le_combine_bound (take 4 b) ltac:(by apply Forall_take)) as Hbound. unfold vsize in Hbound. rewrite Hl4 in Hbound.
  split_and!; [by constructor|cbn; congruence| |].
  - transitivity (le_combine (take 4 b ++ drop 4 b)); [|by rewrite take_drop].
    rewrite value_cons, H3, le_combine_app. unfold vsize. by rewrite Hl4.
  - cbn [map concat]. rewrite H4. unfold WriteLE32. 
    pose proof (le_split_combine (take 4 b) ltac:(by apply Forall_take)) as E. rewrite Hl4 in E. rewrite E. apply take_drop.
Qed.

Lemma WriteLE32_words a : Forall (digit base) a -> Forall is_byte (concat (map WriteLE32 a))
  /\ length (concat (map WriteLE32 a)) = (4 * length a)%nat /\ read_words (length a) (concat (map WriteLE32 a)) = a.
Proof.
  induction 1 as [|w a Hw Ha (H1 & H2 & H3)]; [done|]. cbn [map concat length read_words].
  pose proof (length_WriteLE32 w) as Hl. split_and!.
  - apply Forall_app. split; [apply le_split_bytes|done].
  - rewrite length_app. lia.
  - rewrite take_app_length', drop_app_length', H3 by done. f_equal. unfold WriteLE32. rewrite le_combine_split.
    by apply Z.mod_small.
Qed.

Lemma UintToArith256_spec x : 0 <= x < 2 ^ 256 ->
  arith_wf (UintToArith256 x) /\ arith_value (UintToArith256 x) = le_combine (uint_bytes x)
  /\ ArithToUint256 (UintToArith256 x) = x.
Proof.
  intros Hx. unfold UintToArith256, ArithToUint256.
  destruct (read_words_spec WIDTH (uint_bytes x)) as (H1 & H2 & H3 & ->).
  - unfold uint_bytes. by rewrite length_rev, length_le_split.
  - apply Forall_rev, le_split_bytes.
  - split_and!; [done..|by apply uint_of_bytes_of].
Qed.

Lemma ArithToUint256_spec a : arith_wf a -> UintToArith256 (ArithToUint256 a) = a.
Proof.
  intros [Hl Ha]. destruct (WriteLE32_words a Ha) as (H1 & H2 & H3). unfold UintToArith256, ArithToUint256.
  rewrite uint_bytes_of by (done || by rewrite H2, Hl). rewrite <- H3 at 2. by rewrite Hl.
Qed.

(** ** The contract of the class *)

(** eight words that hold a number of 256 bits *)
Definition holds (a : arith_uint256) (v : Z) : Prop := arith_wf a /\ arith_value a = v mod 2 ^ 256.

Lemma holds_small a v : arith_wf a -> arith_value a = v -> holds a v.
Proof. intros Ha <-. split; [done|]. symmetry. apply Z.mod_small. by apply value_bound. Qed.

Lemma holds_full a v : Forall (digit base) a -> length a = WIDTH -> arith_value a = v mod base ^ Z.of_nat WIDTH -> holds a v.
Proof. done. Qed.

(** C19: the 32-bit word loops of [arith_uint256] compute the arithmetic of 256-bit
    numbers: addition, subtraction, negation, increments, multiplication and both
    shifts modulo [2^256], the bitwise operations on the numbers, exact comparison
    and bit length, and the long division is the quotient, failing exactly for a zero
    divisor. *)
Theorem arith_refinement a b shift :
  arith_wf a -> arith_wf b -> 0 <= shift ->
  let A := arith_value a in
  let B := arith_value b in
  holds (arith_add a b) (A + B) /\ holds (arith_sub a b) (A - B) /\ holds (arith_mul a b) (A * B)
  /\ holds (arith_neg a) (- A) /\ holds (arith_inc a) (A + 1) /\ holds (arith_dec a) (A - 1)
  /\ holds (arith_not a) (2 ^ 256 - 1 - A)
  /\ holds (arith_xor a b) (Z.lxor A B) /\ holds (arith_and a b) (Z.land A B) /\ holds (arith_or a b) (Z.lor A B)
  /\ holds (arith_shl a shift) (A * 2 ^ shift) /\ holds (arith_shr a shift) (A / 2 ^ shift)
  /\ arith_CompareTo a b = sign (A ?= B) /\ arith_bits a = (if A =? 0 then 0 else Z.log2 A + 1)
  /\ GetLow64 a = A mod 2 ^ 64
  /\ match arith_div a b with Ok q => B <> 0 /\ holds q (A / B) | Err e => B = 0 /\ e = Exception "Division by zero" end.
Proof.
  intros Ha Hb Hs A B. pose proof Ha as [Hla Hda]. assert (Hne : a <> []) by (intros ->; done).
  destruct (inc_spec a Hda Hne) as (I1 & I2 & I3). destruct (dec_spec a Hda Hne) as (D1 & D2 & D3).
  destruct (not_spec a Hda) as (N1 & N2 & N3).
  unfold vsize in *. rewrite Hla in *. pose proof (value_bound a Ha) as Hv.
  split_and!; [by apply add_spec|by apply sub_spec|by apply mul_spec|by apply neg_spec|by apply holds_full..| | | | | | | | | |].
  - apply holds_small; [done|exact N3].
  - apply holds_small; by apply xor_spec.
  - apply holds_small; by apply and_spec.
  - apply holds_small; by apply or_spec.
  - by apply shl_spec.
  - apply holds_small; by apply shr_spec.
  - by apply CompareTo_spec.
  - by apply bits_spec.
  - by apply GetLow64_spec.
  - pose proof (div_spec a b Ha Hb) as Hdiv. fold B in Hdiv. destruct (Z.eqb_spec B 0) as [HB|HB].
    + by rewrite Hdiv.
    + destruct Hdiv as (q & -> & Hq & Hqv). split; [done|]. by apply holds_small.
Qed.

Lemma arith_refinement_witness :
  match arith_div (arith_of_u64 (2 ^ 40 + 3)) (arith_of_u64 7) with
  | Ok q => holds q ((2 ^ 40 + 3) / 7)
  | Err _ => False
  end.
Proof.
  destruct (of_u64_spec (2 ^ 40 + 3)) as [H1 V1]; [lia|]. destruct (of_u64_spec 7) as [H2 V2]; [lia|].
  pose proof (arith_refinement _ _ 0 H1 H2 ltac:(lia)) as H. cbn zeta in H. rewrite V1, V2 in H.
  destruct H as (_ & _ & _ & _ & _ & _ & _ & _ & _ & _ & _ & _ & _ & _ & _ & H).
  destruct (arith_div _ _) as [q|e]; [exact (proj2 H)|]. destruct H as [H _]. discriminate H.
Defined.

(** The compact form keeps the leading bytes of a number: [GetCompact] never hits
    its assertions, decoding what it gives raises neither flag and yields a number not
    above the original one, within a factor [2^-15], and encoding that number again
    gives the same compact form. *)
Theorem compact_roundtrip a :
  arith_wf a ->
  exists c t, GetCompact a false = Ok c /\ 0 <= c < 2 ^ 32 /\ SetCompact c = (t, false, false) /\ arith_wf t
    /\ arith_value t <= arith_value a /\ (arith_value a - arith_value t) * 2 ^ 15 <= arith_value a
    /\ GetCompact t false = Ok c.
Proof.
  intros Ha. pose proof (value_bound a Ha) as Hv. destruct (compact_of_value _ Hv) as (Hc & Hbit & Hval).
  destruct (truncated_close _ Hv) as [Ht Hclose]. destruct (SetCompact_value _ Hc) as (t & Hset & Hwf & Htv).
  rewrite Hval, Z.mod_small in Htv by lia. rewrite Hval, Hbit, andb_false_r in Hset.
  rewrite (proj2 (Z.leb_gt _ _)) in Hset by lia. exists (compact_of (arith_value a)), t.
  split_and!; [by apply GetCompact_value|lia..|done|done|lia|lia|].
  by rewrite GetCompact_value, Htv, compact_of_truncated.
Qed.

Lemma compact_roundtrip_witness : exists c t, GetCompact (arith_of_u64 0x123456789a) false = Ok c
  /\ SetCompact c = (t, false, false) /\ c = 0x05123456.
Proof.
  destruct (of_u64_spec 0x123456789a) as [H1 _]; [lia|].
  destruct (compact_roundtrip _ H1) as (c & t & Hc & _ & Hs & _). exists c, t. split_and!; [exact Hc|exact Hs|].
  vm_compute in Hc. by injection Hc as <-.
Defined.

(** Decoding a compact form is exact: the overflow flag is raised exactly when the
    number it stands for does not fit 256 bits, the sign flag exactly for a set sign
    bit on a mantissa that is not zero, and without overflow the words hold the
    number. *)
Theorem SetCompact_exact c :
  0 <= c < 2 ^ 32 ->
  let '(bn, neg, over) := SetCompact c in
  arith_wf bn /\ over = (2 ^ 256 <=? compact_value c) /\ neg = (negb (compact_word c =? 0) && Z.testbit c 23)
  /\ (over = false -> arith_value bn = compact_value c).
Proof.
  intros Hc. destruct (SetCompact_value c Hc) as (bn & -> & Hwf & Hv). split_and!; [done..|]. intros Ho%Z.leb_gt.
  rewrite Hv. apply Z.mod_small. split; [|done]. unfold compact_value.
  pose proof (Z.mod_pos_bound c (2 ^ 23) ltac:(lia)). destruct (Z.leb_spec (c / 2 ^ 24) 3).
  - apply Z.div_pos; [lia|apply Z.pow_pos_nonneg; lia].
  - apply Z.mul_nonneg_nonneg; [lia|apply Z.pow_nonneg; lia].
Qed.

Lemma SetCompact_exact_witness : arith_value (SetCompact 0x1f07ffff).1.1 = 0x07ffff * 256 ^ 28.
Proof.
  pose proof (SetCompact_exact 0x1f07ffff ltac:(lia)) as H. destruct (SetCompact 0x1f07ffff) as [[bn neg] over] eqn:E.
  destruct H as (_ & Ho & _ & H). apply H. rewrite Ho. vm_compute. reflexivity.
Defined.
