(* ===== verification/BlockIndex.v ===== *)
(** * Entries of the block index

    The class [CBlockIndex] of [chain.h] with all its fields, its status bits, the
    median of past times, and [CDiskBlockIndex], the form an entry has in the block
    database. *)

From stdpp Require Import base numbers list gmap option strings sorting.
From Stdlib Require Import ZArith Lia.
From S2P Require Import Prelude.
From S2P Require Import Serialize.
From S2P Require Import ScTypes.
From S2P Require Import Forks.
From S2P Require Import Undo.
From S2P Require Import Chain.
From S2P Require Import BlockData.
From S2P Require Import Arith256.
Open Scope Z_scope.
Open Scope zen_scope.

Definition SPROUT_VALUE_VERSION : Z := 2001400.

(** ** Status bits *)
Definition BLOCK_VALID_HEADER : Z := 1.

Definition BLOCK_VALID_TREE : Z := 2.

Definition BLOCK_VALID_TRANSACTIONS : Z := 3.

Definition BLOCK_VALID_CHAIN : Z := 4.

Definition BLOCK_VALID_SCRIPTS : Z := 5.

Definition BLOCK_VALID_MASK : Z :=
  Z.lor (Z.lor (Z.lor (Z.lor BLOCK_VALID_HEADER BLOCK_VALID_TREE) BLOCK_VALID_TRANSACTIONS) BLOCK_VALID_CHAIN)
    BLOCK_VALID_SCRIPTS.

Definition BLOCK_HAVE_DATA : Z := 8.

Definition BLOCK_HAVE_UNDO : Z := 16.

Definition BLOCK_FAILED_VALID : Z := 32.

Definition BLOCK_FAILED_CHILD : Z := 64.

Definition BLOCK_FAILED_MASK : Z := Z.lor BLOCK_FAILED_VALID BLOCK_FAILED_CHILD.

(** ** Entries: [CBlockIndex]; pointers are keys of the store of entries, the hash
    [phashBlock] points to is part of the entry *)
Record BlockNode := mkNode {
  px_phashBlock : uint256;
  px_pprev : option ptr;
  px_pskip : option ptr;
  px_nHeight : Z;
  px_nFile : Z;
  px_nDataPos : Z;
  px_nUndoPos : Z;
  px_nChainWork : arith_uint256;
  px_nChainDelay : Z;
  px_scCumTreeHash : CFieldElement;
  px_nTx : Z;
  px_nChainTx : Z;
  px_nStatus : Z;
  px_hashAnchor : uint256;
  px_hashAnchorEnd : uint256;
  px_nSproutValue : option Z;
  px_nChainSproutValue : option Z;
  px_nVersion : Z;
  px_hashMerkleRoot : uint256;
  px_hashScTxsCommitment : uint256;
  px_nTime : Z;
  px_nBits : Z;
  px_nNonce : uint256;
  px_nSolution : bytes;
  px_nSequenceId : Z }.

Notation NodeStore := (gmap Z BlockNode).

(** assignments to a field *)
Definition set_phashBlock (x : uint256) (e : BlockNode) : BlockNode :=
  mkNode x (px_pprev e) (px_pskip e) (px_nHeight e) (px_nFile e) (px_nDataPos e) (px_nUndoPos e)
    (px_nChainWork e) (px_nChainDelay e) (px_scCumTreeHash e) (px_nTx e) (px_nChainTx e) (px_nStatus e)
    (px_hashAnchor e) (px_hashAnchorEnd e) (px_nSproutValue e) (px_nChainSproutValue e) (px_nVersion e)
    (px_hashMerkleRoot e) (px_hashScTxsCommitment e) (px_nTime e) (px_nBits e) (px_nNonce e) (px_nSolution e)
    (px_nSequenceId e).

Definition set_pprev (x : option ptr) (e : BlockNode) : BlockNode :=
  mkNode (px_phashBlock e) x (px_pskip e) (px_nHeight e) (px_nFile e) (px_nDataPos e) (px_nUndoPos e)
    (px_nChainWork e) (px_nChainDelay e) (px_scCumTreeHash e) (px_nTx e) (px_nChainTx e) (px_nStatus e)
    (px_hashAnchor e) (px_hashAnchorEnd e) (px_nSproutValue e) (px_nChainSproutValue e) (px_nVersion e)
    (px_hashMerkleRoot e) (px_hashScTxsCommitment e) (px_nTime e) (px_nBits e) (px_nNonce e) (px_nSolution e)
    (px_nSequenceId e).

Definition set_pskip (x : option ptr) (e : BlockNode) : BlockNode :=
  mkNode (px_phashBlock e) (px_pprev e) x (px_nHeight e) (px_nFile e) (px_nDataPos e) (px_nUndoPos e)
    (px_nChainWork e) (px_nChainDelay e) (px_scCumTreeHash e) (px_nTx e) (px_nChainTx e) (px_nStatus e)
    (px_hashAnchor e) (px_hashAnchorEnd e) (px_nSproutValue e) (px_nChainSproutValue e) (px_nVersion e)
    (px_hashMerkleRoot e) (px_hashScTxsCommitment e) (px_nTime e) (px_nBits e) (px_nNonce e) (px_nSolution e)
    (px_nSequenceId e).

Definition set_nHeight (x : Z) (e : BlockNode) : BlockNode :=
  mkNode (px_phashBlock e) (px_pprev e) (px_pskip e) x (px_nFile e) (px_nDataPos e) (px_nUndoPos e)
    (px_nChainWork e) (px_nChainDelay e) (px_scCumTreeHash e) (px_nTx e) (px_nChainTx e) (px_nStatus e)
    (px_hashAnchor e) (px_hashAnchorEnd e) (px_nSproutValue e) (px_nChainSproutValue e) (px_nVersion e)
    (px_hashMerkleRoot e) (px_hashScTxsCommitment e) (px_nTime e) (px_nBits e) (px_nNonce e) (px_nSolution e)
    (px_nSequenceId e).

Definition set_nFile (x : Z) (e : BlockNode) : BlockNode :=
  mkNode (px_phashBlock e) (px_pprev e) (px_pskip e) (px_nHeight e) x (px_nDataPos e) (px_nUndoPos e)
    (px_nChainWork e) (px_nChainDelay e) (px_scCumTreeHash e) (px_nTx e) (px_nChainTx e) (px_nStatus e)
    (px_hashAnchor e) (px_hashAnchorEnd e) (px_nSproutValue e) (px_nChainSproutValue e) (px_nVersion e)
    (px_hashMerkleRoot e) (px_hashScTxsCommitment e) (px_nTime e) (px_nBits e) (px_nNonce e) (px_nSolution e)
    (px_nSequenceId e).

Definition set_nDataPos (x : Z) (e : BlockNode) : BlockNode :=
  mkNode (px_phashBlock e) (px_pprev e) (px_pskip e) (px_nHeight e) (px_nFile e) x (px_nUndoPos e)
    (px_nChainWork e) (px_nChainDelay e) (px_scCumTreeHash e) (px_nTx e) (px_nChainTx e) (px_nStatus e)
    (px_hashAnchor e) (px_hashAnchorEnd e) (px_nSproutValue e) (px_nChainSproutValue e) (px_nVersion e)
    (px_hashMerkleRoot e) (px_hashScTxsCommitment e) (px_nTime e) (px_nBits e) (px_nNonce e) (px_nSolution e)
    (px_nSequenceId e).

Definition set_nUndoPos (x : Z) (e : BlockNode) : BlockNode :=
  mkNode (px_phashBlock e) (px_pprev e) (px_pskip e) (px_nHeight e) (px_nFile e) (px_nDataPos e) x
    (px_nChainWork e) (px_nChainDelay e) (px_scCumTreeHash e) (px_nTx e) (px_nChainTx e) (px_nStatus e)
    (px_hashAnchor e) (px_hashAnchorEnd e) (px_nSproutValue e) (px_nChainSproutValue e) (px_nVersion e)
    (px_hashMerkleRoot e) (px_hashScTxsCommitment e) (px_nTime e) (px_nBits e) (px_nNonce e) (px_nSolution e)
    (px_nSequenceId e).

Definition set_nChainWork (x : arith_uint256) (e : BlockNode) : BlockNode :=
  mkNode (px_phashBlock e) (px_pprev e) (px_pskip e) (px_nHeight e) (px_nFile e) (px_nDataPos e)
    (px_nUndoPos e) x (px_nChainDelay e) (px_scCumTreeHash e) (px_nTx e) (px_nChainTx e) (px_nStatus e)
    (px_hashAnchor e) (px_hashAnchorEnd e) (px_nSproutValue e) (px_nChainSproutValue e) (px_nVersion e)
    (px_hashMerkleRoot e) (px_hashScTxsCommitment e) (px_nTime e) (px_nBits e) (px_nNonce e) (px_nSolution e)
    (px_nSequenceId e).

Definition set_nChainDelay (x : Z) (e : BlockNode) : BlockNode :=
  mkNode (px_phashBlock e) (px_pprev e) (px_pskip e) (px_nHeight e) (px_nFile e) (px_nDataPos e)
    (px_nUndoPos e) (px_nChainWork e) x (px_scCumTreeHash e) (px_nTx e) (px_nChainTx e) (px_nStatus e)
    (px_hashAnchor e) (px_hashAnchorEnd e) (px_nSproutValue e) (px_nChainSproutValue e) (px_nVersion e)
    (px_hashMerkleRoot e) (px_hashScTxsCommitment e) (px_nTime e) (px_nBits e) (px_nNonce e) (px_nSolution e)
    (px_nSequenceId e).

Definition set_scCumTreeHash (x : CFieldElement) (e : BlockNode) : BlockNode :=
  mkNode (px_phashBlock e) (px_pprev e) (px_pskip e) (px_nHeight e) (px_nFile e) (px_nDataPos e)
    (px_nUndoPos e) (px_nChainWork e) (px_nChainDelay e) x (px_nTx e) (px_nChainTx e) (px_nStatus e)
    (px_hashAnchor e) (px_hashAnchorEnd e) (px_nSproutValue e) (px_nChainSproutValue e) (px_nVersion e)
    (px_hashMerkleRoot e) (px_hashScTxsCommitment e) (px_nTime e) (px_nBits e) (px_nNonce e) (px_nSolution e)
    (px_nSequenceId e).

Definition set_nTx (x : Z) (e : BlockNode) : BlockNode :=
  mkNode (px_phashBlock e) (px_pprev e) (px_pskip e) (px_nHeight e) (px_nFile e) (px_nDataPos e)
    (px_nUndoPos e) (px_nChainWork e) (px_nChainDelay e) (px_scCumTreeHash e) x (px_nChainTx e) (px_nStatus
    e) (px_hashAnchor e) (px_hashAnchorEnd e) (px_nSproutValue e) (px_nChainSproutValue e) (px_nVersion e)
    (px_hashMerkleRoot e) (px_hashScTxsCommitment e) (px_nTime e) (px_nBits e) (px_nNonce e) (px_nSolution e)
    (px_nSequenceId e).

Definition set_nChainTx (x : Z) (e : BlockNode) : BlockNode :=
  mkNode (px_phashBlock e) (px_pprev e) (px_pskip e) (px_nHeight e) (px_nFile e) (px_nDataPos e)
    (px_nUndoPos e) (px_nChainWork e) (px_nChainDelay e) (px_scCumTreeHash e) (px_nTx e) x (px_nStatus e)
    (px_hashAnchor e) (px_hashAnchorEnd e) (px_nSproutValue e) (px_nChainSproutValue e) (px_nVersion e)
    (px_hashMerkleRoot e) (px_hashScTxsCommitment e) (px_nTime e) (px_nBits e) (px_nNonce e) (px_nSolution e)
    (px_nSequenceId e).

Definition set_nStatus (x : Z) (e : BlockNode) : BlockNode :=
  mkNode (px_phashBlock e) (px_pprev e) (px_pskip e) (px_nHeight e) (px_nFile e) (px_nDataPos e)
    (px_nUndoPos e) (px_nChainWork e) (px_nChainDelay e) (px_scCumTreeHash e) (px_nTx e) (px_nChainTx e) x
    (px_hashAnchor e) (px_hashAnchorEnd e) (px_nSproutValue e) (px_nChainSproutValue e) (px_nVersion e)
    (px_hashMerkleRoot e) (px_hashScTxsCommitment e) (px_nTime e) (px_nBits e) (px_nNonce e) (px_nSolution e)
    (px_nSequenceId e).

Definition set_hashAnchor (x : uint256) (e : BlockNode) : BlockNode :=
  mkNode (px_phashBlock e) (px_pprev e) (px_pskip e) (px_nHeight e) (px_nFile e) (px_nDataPos e)
    (px_nUndoPos e) (px_nChainWork e) (px_nChainDelay e) (px_scCumTreeHash e) (px_nTx e) (px_nChainTx e)
    (px_nStatus e) x (px_hashAnchorEnd e) (px_nSproutValue e) (px_nChainSproutValue e) (px_nVersion e)
    (px_hashMerkleRoot e) (px_hashScTxsCommitment e) (px_nTime e) (px_nBits e) (px_nNonce e) (px_nSolution e)
    (px_nSequenceId e).

Definition set_hashAnchorEnd (x : uint256) (e : BlockNode) : BlockNode :=
  mkNode (px_phashBlock e) (px_pprev e) (px_pskip e) (px_nHeight e) (px_nFile e) (px_nDataPos e)
    (px_nUndoPos e) (px_nChainWork e) (px_nChainDelay e) (px_scCumTreeHash e) (px_nTx e) (px_nChainTx e)
    (px_nStatus e) (px_hashAnchor e) x (px_nSproutValue e) (px_nChainSproutValue e) (px_nVersion e)
    (px_hashMerkleRoot e) (px_hashScTxsCommitment e) (px_nTime e) (px_nBits e) (px_nNonce e) (px_nSolution e)
    (px_nSequenceId e).

Definition set_nSproutValue (x : option Z) (e : BlockNode) : BlockNode :=
  mkNode (px_phashBlock e) (px_pprev e) (px_pskip e) (px_nHeight e) (px_nFile e) (px_nDataPos e)
    (px_nUndoPos e) (px_nChainWork e) (px_nChainDelay e) (px_scCumTreeHash e) (px_nTx e) (px_nChainTx e)
    (px_nStatus e) (px_hashAnchor e) (px_hashAnchorEnd e) x (px_nChainSproutValue e) (px_nVersion e)
    (px_hashMerkleRoot e) (px_hashScTxsCommitment e) (px_nTime e) (px_nBits e) (px_nNonce e) (px_nSolution e)
    (px_nSequenceId e).

Definition set_nChainSproutValue (x : option Z) (e : BlockNode) : BlockNode :=
  mkNode (px_phashBlock e) (px_pprev e) (px_pskip e) (px_nHeight e) (px_nFile e) (px_nDataPos e)
    (px_nUndoPos e) (px_nChainWork e) (px_nChainDelay e) (px_scCumTreeHash e) (px_nTx e) (px_nChainTx e)
    (px_nStatus e) (px_hashAnchor e) (px_hashAnchorEnd e) (px_nSproutValue e) x (px_nVersion e)
    (px_hashMerkleRoot e) (px_hashScTxsCommitment e) (px_nTime e) (px_nBits e) (px_nNonce e) (px_nSolution e)
    (px_nSequenceId e).

Definition set_nSequenceId (x : Z) (e : BlockNode) : BlockNode :=
  mkNode (px_phashBlock e) (px_pprev e) (px_pskip e) (px_nHeight e) (px_nFile e) (px_nDataPos e)
    (px_nUndoPos e) (px_nChainWork e) (px_nChainDelay e) (px_scCumTreeHash e) (px_nTx e) (px_nChainTx e)
    (px_nStatus e) (px_hashAnchor e) (px_hashAnchorEnd e) (px_nSproutValue e) (px_nChainSproutValue e)
    (px_nVersion e) (px_hashMerkleRoot e) (px_hashScTxsCommitment e) (px_nTime e) (px_nBits e) (px_nNonce e)
    (px_nSolution e) x.

(** [SetNull]; a null pointer to the hash has no counterpart, the hash is 0 *)
Definition node_SetNull : BlockNode :=
  mkNode 0 None None 0 0 0 0 arith_zero 0 [] 0 0 0 0 0 None None 0 0 0 0 0 0 [] 0.

(** [CBlockIndex(const CBlockHeader&)] *)
Definition node_of_header (h : CBlockHeader) : BlockNode :=
  mkNode 0 None None 0 0 0 0 arith_zero 0 [] 0 0 0 0 0 None None
    (hd_nVersion h) (hashMerkleRoot h) (hashScTxsCommitment h) (hd_nTime h) (hd_nBits h) (nNonce h) (nSolution h) 0.

(** [CDiskBlockPos]: the file and the position in it *)
Record CDiskBlockPos := mkPos { pos_nFile : Z; pos_nPos : Z }.

Definition pos_SetNull : CDiskBlockPos := mkPos (-1) 0.

Definition pos_IsNull (p : CDiskBlockPos) : bool := pos_nFile p =? -1.

Definition s_diskpos : Serializer CDiskBlockPos :=
  s_iso (fun p => (pos_nFile p, pos_nPos p)) (fun p => mkPos p.1 p.2) (s_pair (s_varint to_i32) (s_varint to_u32)).

Definition flag (e : BlockNode) (bit : Z) : bool := negb (Z.land (px_nStatus e) bit =? 0).

Definition GetBlockPos (e : BlockNode) : CDiskBlockPos :=
  if flag e BLOCK_HAVE_DATA then mkPos (px_nFile e) (px_nDataPos e) else pos_SetNull.

Definition GetUndoPos (e : BlockNode) : CDiskBlockPos :=
  if flag e BLOCK_HAVE_UNDO then mkPos (px_nFile e) (px_nUndoPos e) else pos_SetNull.

Definition node_deref (st : NodeStore) (p : option ptr) : res BlockNode :=
  match p with
  | None => Err null_pointer
  | Some q => match st !! q with Some e => Ok e | None => Err null_pointer end
  end.

(** [GetBlockHeader]: without a parent the hash of the parent stays null *)
Definition GetBlockHeader (st : NodeStore) (e : BlockNode) : res CBlockHeader :=
  let header prev :=
    mkHeader (px_nVersion e) prev (px_hashMerkleRoot e) (px_hashScTxsCommitment e) (px_nTime e) (px_nBits e)
      (px_nNonce e) (px_nSolution e) in
  match px_pprev e with
  | None => Ok (header 0)
  | Some q => match node_deref st (Some q) with Ok e' => Ok (header (px_phashBlock e')) | Err x => Err x end
  end.

Definition nMedianTimeSpan : nat := 11.

(** the times collected by [GetMedianTimePast], the newest first *)
Fixpoint past_times (n : nat) (st : NodeStore) (pindex : option ptr) : res (list Z) :=
  match n, pindex with
  | O, _ | _, None => Ok []
  | S n', Some p =>
      match st !! p with
      | None => Err null_pointer
      | Some e =>
          match past_times n' st (px_pprev e) with
          | Ok l => Ok (px_nTime e :: l)
          | Err x => Err x
          end
      end
  end.

(** [std::sort], then the element in the middle *)
Definition GetMedianTimePast (st : NodeStore) (p : ptr) : res Z :=
  match past_times nMedianTimeSpan st (Some p) with
  | Err x => Err x
  | Ok times =>
      match merge_sort Z.le times !! (length times / 2)%nat with
      | Some t => Ok t
      | None => Err (Exception "out of bounds")
      end
  end.

(** the level a status has reached *)
Definition validity (e : BlockNode) : Z := Z.land (px_nStatus e) BLOCK_VALID_MASK.

(** [IsValid] and [RaiseValidity] assert that the level asked for is made of validity
    bits, which holds for the constants they are called with *)
Definition node_IsValid (e : BlockNode) (nUpTo : Z) : bool :=
  if flag e BLOCK_FAILED_MASK then false else nUpTo <=? validity e.

Definition RaiseValidity (nUpTo : Z) (e : BlockNode) : BlockNode :=
  if flag e BLOCK_FAILED_MASK then e
  else if validity e <? nUpTo
  then set_nStatus (Z.lor (Z.land (px_nStatus e) (2 ^ 32 - 1 - BLOCK_VALID_MASK)) nUpTo) e
  else e.

Definition or_status (bits : Z) (e : BlockNode) : BlockNode := set_nStatus (Z.lor (px_nStatus e) bits) e.

(** the part of an entry [chain.cpp] works on *)
Definition entry_of (e : BlockNode) : IndexEntry := mkEntry (px_phashBlock e) (px_nHeight e) (px_pprev e) (px_pskip e).

Definition entries (st : NodeStore) : Store := entry_of <$> st.

(** ** [CDiskBlockIndex]: what the block database holds of an entry; the parent is
    given by its hash, in the header *)
Record CDiskBlockIndex := mkDiskIndex {
  d_nHeight : Z;
  d_nStatus : Z;
  d_nTx : Z;
  d_nFile : Z;
  d_nDataPos : Z;
  d_nUndoPos : Z;
  d_hashAnchor : uint256;
  d_header : CBlockHeader;
  d_nSproutValue : option Z;
  d_scCumTreeHash : CFieldElement }.

Definition DiskBlockIndex_of (st : NodeStore) (e : BlockNode) : res CDiskBlockIndex :=
  match GetBlockHeader st e with
  | Err x => Err x
  | Ok h =>
      Ok (mkDiskIndex (px_nHeight e) (px_nStatus e) (px_nTx e) (px_nFile e) (px_nDataPos e) (px_nUndoPos e)
            (px_hashAnchor e) h (px_nSproutValue e) (px_scCumTreeHash e))
  end.

Definition d_flag (status bit : Z) : bool := negb (Z.land status bit =? 0).

Definition s_dfile (status : Z) : Serializer Z :=
  s_when (d_flag status (Z.lor BLOCK_HAVE_DATA BLOCK_HAVE_UNDO)) (s_varint to_i32) 0.

Definition s_ddata (status : Z) : Serializer Z := s_when (d_flag status BLOCK_HAVE_DATA) (s_varint to_u32) 0.

Definition s_dundo (status : Z) : Serializer Z := s_when (d_flag status BLOCK_HAVE_UNDO) (s_varint to_u32) 0.

Definition s_dsprout (version : Z) : Serializer (option Z) :=
  s_when (SPROUT_VALUE_VERSION <=? version) (s_opt s_i64) None.

Definition s_dcum (blockVersion : Z) : Serializer CFieldElement :=
  s_when (blockVersion =? BLOCK_VERSION_SC_SUPPORT) s_bytes [].

(** the version of the client comes first and decides, on reading, about the value
    of the shielded pool *)
Definition DiskIndex_ser (nVersion : Z) (d : CDiskBlockIndex) : bytes :=
  ser (s_varint to_i32) nVersion ++ ser (s_varint to_i32) (d_nHeight d) ++ ser (s_varint to_u32) (d_nStatus d)
  ++ ser (s_varint to_u32) (d_nTx d) ++ ser (s_dfile (d_nStatus d)) (d_nFile d)
  ++ ser (s_ddata (d_nStatus d)) (d_nDataPos d) ++ ser (s_dundo (d_nStatus d)) (d_nUndoPos d)
  ++ ser s_uint256 (d_hashAnchor d) ++ ser s_header (d_header d)
  ++ ser (s_dsprout nVersion) (d_nSproutValue d) ++ ser (s_dcum (hd_nVersion (d_header d))) (d_scCumTreeHash d).

(** into a new [CDiskBlockIndex] *)
Definition DiskIndex_unser : Reader CDiskBlockIndex :=
  let* version := unser (s_varint to_i32) in
  let* h := unser (s_varint to_i32) in
  let* status := unser (s_varint to_u32) in
  let* tx := unser (s_varint to_u32) in
  let* file := unser (s_dfile status) in
  let* data := unser (s_ddata status) in
  let* undo := unser (s_dundo status) in
  let* anchor := unser s_uint256 in
  let* header := unser s_header in
  let* sprout := unser (s_dsprout version) in
  let* cum := unser (s_dcum (hd_nVersion header)) in
  ret (mkDiskIndex h status tx file data undo anchor header sprout cum).

Definition DiskIndex_GetBlockHash (d : CDiskBlockIndex) : uint256 := header_GetHash (d_header d).

(** ** Lemmas: the format of entries *)
Definition header_ok (h : CBlockHeader) : Prop :=
  is_i32 (hd_nVersion h) /\ 0 <= hashPrevBlock h < 2 ^ 256 /\ 0 <= hashMerkleRoot h < 2 ^ 256
  /\ 0 <= hashScTxsCommitment h < 2 ^ 256 /\ 0 <= hd_nTime h < 2 ^ 32 /\ 0 <= hd_nBits h < 2 ^ 32
  /\ 0 <= nNonce h < 2 ^ 256 /\ Z.of_nat (length (nSolution h)) <= MAX_SERIALIZED_COMPACT_SIZE.

#[export] Instance header_lawful : Lawful s_header header_ok.
Proof. eapply iso_lawful; [exact _|by intros []|]. intros h (?&?&?&?&?&?&?&?). cbn. tauto. Qed.

Definition diskindex_ok (d : CDiskBlockIndex) : Prop :=
  0 <= d_nHeight d < 2 ^ 31 /\ 0 <= d_nStatus d < 2 ^ 32 /\ 0 <= d_nTx d < 2 ^ 32 /\ 0 <= d_nFile d < 2 ^ 31
  /\ 0 <= d_nDataPos d < 2 ^ 32 /\ 0 <= d_nUndoPos d < 2 ^ 32 /\ 0 <= d_hashAnchor d < 2 ^ 256
  /\ header_ok (d_header d) /\ match d_nSproutValue d with Some v => is_i64 v | None => True end
  /\ Z.of_nat (length (d_scCumTreeHash d)) <= MAX_SERIALIZED_COMPACT_SIZE.

(** what the format keeps of an entry *)
Definition diskindex_norm (version : Z) (d : CDiskBlockIndex) : CDiskBlockIndex :=
  mkDiskIndex (d_nHeight d) (d_nStatus d) (d_nTx d)
    (if d_flag (d_nStatus d) (Z.lor BLOCK_HAVE_DATA BLOCK_HAVE_UNDO) then d_nFile d else 0)
    (if d_flag (d_nStatus d) BLOCK_HAVE_DATA then d_nDataPos d else 0)
    (if d_flag (d_nStatus d) BLOCK_HAVE_UNDO then d_nUndoPos d else 0)
    (d_hashAnchor d) (d_header d)
    (if SPROUT_VALUE_VERSION <=? version then d_nSproutValue d else None)
    (if hd_nVersion (d_header d) =? BLOCK_VERSION_SC_SUPPORT then d_scCumTreeHash d else []).

Lemma when_then {A B} (b : bool) (s : Serializer A) dflt ok `{!Lawful s ok} (k : A -> Reader B) x rest :
  ok x -> bind (unser (s_when b s dflt)) k (ser (s_when b s dflt) x ++ rest) = k (if b then x else dflt) rest.
Proof.
  intros Hx. destruct b; [exact (unser_then s ok k x rest Hx)|done].
Qed.

(** C24: an entry of the block index survives the database: reading back what was
    written, by whichever version of the client, gives the entry up to the fields the
    format leaves out, which then read as in a new entry. *)
Theorem diskindex_roundtrip (version : Z) (d : CDiskBlockIndex) (rest : bytes) :
  0 <= version < 2 ^ 31 -> diskindex_ok d ->
  DiskIndex_unser (DiskIndex_ser version d ++ rest) = Ok (diskindex_norm version d, rest).
Proof.
  intros Hv (H1 & H2 & H3 & H4 & H5 & H6 & H7 & H8 & H9 & H10). unfold DiskIndex_unser, DiskIndex_ser.
  rewrite <- !app_assoc. rewrite (unser_then (s_varint to_i32) _), (unser_then (s_varint to_i32) _),
    (unser_then (s_varint to_u32) _), (unser_then (s_varint to_u32) _) by done.
  unfold s_dfile, s_ddata, s_dundo, s_dsprout, s_dcum.
  rewrite (when_then _ (s_varint to_i32) _ _ _ _ _ H4), (when_then _ (s_varint to_u32) _ _ _ _ _ H5),
    (when_then _ (s_varint to_u32) _ _ _ _ _ H6).
  rewrite (unser_then s_uint256 _), (unser_then s_header _) by done.
  rewrite (when_then _ (s_opt s_i64) _ _ _ _ _ H9).
  exact (when_then (A := bytes) _ s_bytes [] (fun v => Z.of_nat (length v) <= MAX_SERIALIZED_COMPACT_SIZE) _ _ _ H10).
Qed.

Definition sample_diskindex : CDiskBlockIndex :=
  mkDiskIndex 420 (BLOCK_VALID_SCRIPTS + BLOCK_HAVE_DATA) 3 1 812 77 5 (mkHeader 3 11 12 13 1600000000 0x1f07ffff 9 [1; 2; 3])
    (Some 50) [4; 5; 6].

Lemma diskindex_roundtrip_witness :
  diskindex_ok sample_diskindex
  /\ DiskIndex_unser (DiskIndex_ser SPROUT_VALUE_VERSION sample_diskindex ++ []) =
     Ok (mkDiskIndex 420 (BLOCK_VALID_SCRIPTS + BLOCK_HAVE_DATA) 3 1 812 0 5
           (mkHeader 3 11 12 13 1600000000 0x1f07ffff 9 [1; 2; 3]) (Some 50) [4; 5; 6], []).
Proof.
  assert (Hok : diskindex_ok sample_diskindex) by by vm_compute.
  split; [exact Hok|]. exact (diskindex_roundtrip SPROUT_VALUE_VERSION sample_diskindex [] ltac:(by vm_compute) Hok).
Defined.
