(* ===== verification/TxSer.v ===== *)
(** * Wire format of transactions, certificates and blocks

    The serialization of [primitives/transaction.h], [primitives/certificate.h] and
    [primitives/block.h]: joinsplits with their proofs, cross-chain inputs and outputs,
    the versions that decide which parts are present, the hashes and sidechain ids that
    are filled in after reading. *)

From stdpp Require Import base numbers list option sets countable strings.
From Stdlib Require Import ZArith Lia.
From S2P Require Import Prelude.
From S2P Require Import Serialize.
From S2P Require Import ScTypes.
From S2P Require Import Primitives.
From S2P Require Import Crypto.
From S2P Require Import Forks.
From S2P Require Import Undo.
From S2P Require Import BlockData.
From S2P Require Import BlockIndex.
Open Scope Z_scope.
Open Scope zen_scope.

(** ** Writing that may throw *)
Definition join_bytes (a b : res bytes) : res bytes :=
  res_bind a (fun x => res_bind b (fun y => Ok (x ++ y))).

Local Notation "a +++ b" := (join_bytes a b) (at level 60, right associativity).

(** a vector of objects whose serialization may throw *)
Definition vec_write {A} (w : A -> res bytes) (l : list A) : res bytes :=
  Ok (WriteCompactSize (vsize l)) +++ res_bind (res_map w l) (fun bs => Ok (concat bs)).

Definition vec_read {A} (r : Reader A) : Reader (list A) :=
  let* n := ReadCompactSize in read_n (Z.to_nat n) r.

(** arrays of a fixed size; [base_blob] and arrays of bytes *)
Definition s_array {A} (n : nat) (s : Serializer A) : Serializer (list A) :=
  mkSerializer (fun l : list A => concat (map (ser s) l)) (read_n n (unser s)) (fun l => foldr Z.add 0 (map (ser_size s) l)).

Definition s_fixed (n : nat) : Serializer bytes :=
  mkSerializer (fun b : bytes => b) (read_bytes n) (fun _ => Z.of_nat n).

(** ** Inputs and outputs *)
Definition s_outpoint : Serializer COutPoint :=
  s_iso (fun o => (op_hash o, op_n o)) (fun p => mkOutPoint p.1 p.2) (s_pair s_uint256 s_u32).

Definition s_txin : Serializer CTxIn :=
  s_iso (fun i => (prevout i, (scriptSig i, nSequence i))) (fun p => mkTxIn p.1 p.2.1 p.2.2)
    (s_pair s_outpoint (s_pair s_bytes s_u32)).

Definition s_CTxOut : Serializer CTxOut :=
  s_iso (fun o => (out_nValue o, scriptPubKey o)) (fun p => mkTxOut p.1 p.2) (s_pair s_i64 s_bytes).

Definition s_csw : Serializer CTxCeasedSidechainWithdrawalInput :=
  s_iso (fun c => (csw_nValue c, (csw_scId c, (csw_nullifier c, (csw_pubKeyHash c, (csw_scProof c,
                    (csw_actCertDataHash c, (csw_ceasingCumScTxCommTree c, csw_redeemScript c))))))))
    (fun p => let '(v, (id, (nf, (pkh, (pr, (act, (cum, rs))))))) := p in mkCsw v id nf pkh pr act cum rs)
    (s_pair s_i64 (s_pair s_uint256 (s_pair s_bytes (s_pair (s_fixed 20) (s_pair s_bytes
      (s_pair s_bytes (s_pair s_bytes s_bytes))))))).

Definition s_ft : Serializer CTxForwardTransferOut :=
  s_iso (fun o => (ft_nValue o, (ft_address o, (ft_scId o, ft_mcReturnAddress o))))
    (fun p => let '(v, (a, (id, r))) := p in mkFt v a id r)
    (s_pair s_i64 (s_pair s_uint256 (s_pair s_uint256 (s_fixed 20)))).

Definition s_mbtr : Serializer CBwtRequestOut :=
  s_iso (fun o => (mbtr_scId o, (vScRequestData o, (mcDestinationAddress o, scFee o))))
    (fun p => let '(id, (d, (a, f))) := p in mkMbtr id d a f)
    (s_pair s_uint256 (s_pair (s_vec s_bytes) (s_pair (s_fixed 20) s_i64))).

Definition s_fecfg : Serializer FieldElementCertificateFieldConfig := s_iso nBits mkFECfg s_u8.

Definition s_bvcfg : Serializer BitVectorCertificateFieldConfig :=
  s_iso (fun c => (bitVectorSizeBits c, maxCompressedSizeBytes c)) (fun p => mkBVCfg p.1 p.2) (s_pair s_i32 s_i32).

(** what follows the epoch length and version of a creation *)
Definition s_creation_tail : Serializer CTxScCreationOut :=
  s_iso
    (fun o => (sc_nValue o, (sc_address o, (sc_customData o, (sc_constant o, (sc_wCertVk o, (sc_wCeasedVk o,
       (sc_vFieldElementCertificateFieldConfig o, (sc_vBitVectorCertificateFieldConfig o, (sc_forwardTransferScFee o,
       (sc_mainchainBackwardTransferRequestScFee o, sc_mainchainBackwardTransferRequestDataLength o)))))))))))
    (fun p => let '(v, (a, (cd, (k, (vk, (cvk, (fe, (bv, (ff, (mf, n)))))))))) := p in mkScCreation 0 v a 0 0 cd k vk cvk fe bv ff mf n)
    (s_pair s_i64 (s_pair s_uint256 (s_pair s_bytes (s_pair (s_opt s_bytes) (s_pair s_bytes (s_pair (s_opt s_bytes)
      (s_pair (s_vec s_fecfg) (s_pair (s_vec s_bvcfg) (s_pair s_i64 (s_pair s_i64 s_u8)))))))))).

Definition set_version_length (version len : Z) (o : CTxScCreationOut) : CTxScCreationOut :=
  mkScCreation (generatedScId o) (sc_nValue o) (sc_address o) version len (sc_customData o) (sc_constant o) (sc_wCertVk o)
    (sc_wCeasedVk o) (sc_vFieldElementCertificateFieldConfig o) (sc_vBitVectorCertificateFieldConfig o)
    (sc_forwardTransferScFee o) (sc_mainchainBackwardTransferRequestScFee o) (sc_mainchainBackwardTransferRequestDataLength o).

Definition set_scId (id : uint256) (o : CTxScCreationOut) : CTxScCreationOut :=
  mkScCreation id (sc_nValue o) (sc_address o) (sc_version o) (sc_withdrawalEpochLength o) (sc_customData o) (sc_constant o)
    (sc_wCertVk o) (sc_wCeasedVk o) (sc_vFieldElementCertificateFieldConfig o) (sc_vBitVectorCertificateFieldConfig o)
    (sc_forwardTransferScFee o) (sc_mainchainBackwardTransferRequestScFee o) (sc_mainchainBackwardTransferRequestDataLength o).

Definition creation_ser (o : CTxScCreationOut) : res bytes :=
  res_bind (packEpochLengthAndVersion (sc_version o) (sc_withdrawalEpochLength o)) (fun v =>
  Ok (ser s_i32 v ++ ser s_creation_tail o)).

Definition creation_unser : Reader CTxScCreationOut :=
  let* v := unser s_i32 in
  let '(version, len) := unpackEpochLengthAndVersion v in
  let* o := unser s_creation_tail in
  ret (set_version_length version len o).

(** ** Joinsplits *)
Definition G1_PREFIX_MASK : Z := 0x02.

Definition G2_PREFIX_MASK : Z := 0x0a.

(** the leading byte holds the flag in its lowest bit *)
Definition s_point {A} (mask : Z) (what : string) (width : nat) (flag : A -> bool) (x : A -> bytes) (mk : bool -> bytes -> A)
    : Serializer A :=
  mkSerializer (fun p : A => ser s_u8 (if flag p then Z.lor mask 1 else mask) ++ ser (s_fixed width) (x p))
    (let* leadingByte := unser s_u8 in
     if negb (Z.land leadingByte 0xfe =? mask) then fail (Exception what)
     else let* d := unser (s_fixed width) in ret (mk (negb (Z.land leadingByte 1 =? 0)) d))
    (fun _ => 1 + Z.of_nat width).

Definition s_G1 : Serializer CompressedG1 :=
  s_point G1_PREFIX_MASK "lead byte of G1 point not recognized" 32 y_lsb g1_x mkG1.

Definition s_G2 : Serializer CompressedG2 :=
  s_point G2_PREFIX_MASK "lead byte of G2 point not recognized" 64 y_gt g2_x mkG2.

Definition s_PHGRProof : Serializer PHGRProof :=
  s_iso (fun p => (g_A p, (g_A_prime p, (g_B p, (g_B_prime p, (g_C p, (g_C_prime p, (g_K p, g_H p))))))))
    (fun p => let '(a, (a', (b, (b', (c, (c', (k, h))))))) := p in mkPHGR a a' b b' c c' k h)
    (s_pair s_G1 (s_pair s_G1 (s_pair s_G2 (s_pair s_G1 (s_pair s_G1 (s_pair s_G1 (s_pair s_G1 s_G1))))))).

Definition GROTH_PROOF_SIZE : nat := 48 + 96 + 48.

Definition proof_ser (useGroth : bool) (p : SproutProof) : res bytes :=
  match p with
  | PHGR q =>
      if useGroth then Err (Exception "Invalid Sprout proof for transaction format (expected GrothProof, found PHGRProof)")
      else Ok (ser s_PHGRProof q)
  | Groth q =>
      if negb useGroth then Err (Exception "Invalid Sprout proof for transaction format (expected PHGRProof, found GrothProof)")
      else Ok (ser (s_fixed GROTH_PROOF_SIZE) q)
  end.

Definition proof_unser (useGroth : bool) : Reader SproutProof :=
  if useGroth then let* q := unser (s_fixed GROTH_PROOF_SIZE) in ret (Groth q)
  else let* q := unser s_PHGRProof in ret (PHGR q).

Definition ZC_CIPHERTEXT_SIZE : nat := 1 + 8 + 32 + 32 + 512 + 16.

(** the fields before the proof *)
Definition s_js_head : Serializer (Z * (Z * (Z * (list Z * (list Z * (Z * (Z * list Z))))))) :=
  s_pair s_i64 (s_pair s_i64 (s_pair s_uint256 (s_pair (s_array 2 s_uint256) (s_pair (s_array 2 s_uint256)
    (s_pair s_uint256 (s_pair s_uint256 (s_array 2 s_uint256))))))).

Definition js_head (j : JSDescription) : Z * (Z * (Z * (list Z * (list Z * (Z * (Z * list Z)))))) :=
  (vpub_old j, (vpub_new j, (anchor j, (nullifiers j, (commitments j, (ephemeralKey j, (randomSeed j, macs j))))))).

Definition bad_shielded_version (txVersion : Z) : bool :=
  negb (TRANSPARENT_TX_VERSION <=? txVersion) && negb (txVersion =? GROTH_TX_VERSION).

Definition shielded_version_error : err :=
  Exception "Invalid shielded tx version (expected >=1 for PHGRProof or -3 for GrothProof)".

Definition js_ser (txVersion : Z) (j : JSDescription) : res bytes :=
  if bad_shielded_version txVersion then Err shielded_version_error
  else
    Ok (ser s_js_head (js_head j)) +++ proof_ser (txVersion =? GROTH_TX_VERSION) (proof j)
    +++ Ok (ser (s_array 2 (s_fixed ZC_CIPHERTEXT_SIZE)) (ciphertexts j)).

Definition js_unser (txVersion : Z) : Reader JSDescription :=
  if bad_shielded_version txVersion then fail shielded_version_error
  else
    let* h := unser s_js_head in
    let* p := proof_unser (txVersion =? GROTH_TX_VERSION) in
    let* cs := unser (s_array 2 (s_fixed ZC_CIPHERTEXT_SIZE)) in
    let '(old, (new, (a, (nfs, (cms, (ek, (rs, ms))))))) := h in
    ret (mkJS old new a nfs cms ek cs rs ms p).

(** ** Transactions *)
Definition has_joinsplits (nVersion : Z) : bool := (PHGR_TX_VERSION <=? nVersion) || (nVersion =? GROTH_TX_VERSION).

(** the cross-chain part *)
Definition cc_ser (tx : CTransaction) : res bytes :=
  if IsScVersion tx then
    Ok (ser (s_vec s_csw) (vcsw_ccin tx)) +++ vec_write creation_ser (vsc_ccout tx)
    +++ Ok (ser (s_vec s_ft) (vft_ccout tx) ++ ser (s_vec s_mbtr) (vmbtr_out tx))
  else Ok [].

Definition cc_unser (nVersion : Z)
    : Reader (list CTxCeasedSidechainWithdrawalInput * list CTxScCreationOut * list CTxForwardTransferOut * list CBwtRequestOut) :=
  if nVersion =? SC_TX_VERSION then
    let* csw := unser (s_vec s_csw) in
    let* sc := vec_read creation_unser in
    let* ft := unser (s_vec s_ft) in
    let* mbtr := unser (s_vec s_mbtr) in
    ret (csw, sc, ft, mbtr)
  else ret ([], [], [], []).

(** the shielded part *)
Definition js_part_ser (tx : CTransaction) : res bytes :=
  if has_joinsplits (tx_nVersion tx) then
    vec_write (js_ser (tx_nVersion tx)) (vjoinsplit tx)
    +++ (if negb (is_empty (vjoinsplit tx)) then Ok (ser s_uint256 (joinSplitPubKey tx) ++ ser (s_fixed 64) (joinSplitSig tx)) else Ok [])
  else Ok [].

Definition js_part_unser (nVersion : Z) : Reader (list JSDescription * Z * bytes) :=
  if has_joinsplits nVersion then
    let* l := vec_read (js_unser nVersion) in
    if negb (is_empty l) then
      let* pk := unser s_uint256 in
      let* sig := unser (s_fixed 64) in
      ret (l, pk, sig)
    else ret (l, 0, null_sig)
  else ret ([], 0, null_sig).

(** [SerializationOpInternal] for a given version *)
Definition tx_ser_internal (tx : CTransaction) : res bytes :=
  Ok (ser (s_vec s_txin) (tx_vin tx) ++ ser (s_vec s_CTxOut) (tx_vout tx)) +++ cc_ser tx
  +++ Ok (ser s_u32 (nLockTime tx)) +++ js_part_ser tx.

Definition tx_ser (tx : CTransaction) : res bytes := Ok (ser s_i32 (tx_nVersion tx)) +++ tx_ser_internal tx.

Definition tx_GetSerializeSize (tx : CTransaction) : res Z := res_bind (tx_ser tx) (fun b => Ok (vsize b)).

(** reading into a new object, before [UpdateHash] *)
Definition tx_fields_unser : Reader CTransaction :=
  let* nVersion := unser s_i32 in
  let* vin := unser (s_vec s_txin) in
  let* vout := unser (s_vec s_CTxOut) in
  let* cc := cc_unser nVersion in
  let* lock := unser s_u32 in
  let* js := js_part_unser nVersion in
  let '(csw, sc, ft, mbtr) := cc in
  let '(l, pk, sig) := js in
  ret (mkTx nVersion vin vout 0 l lock csw sc ft mbtr pk sig).

Definition set_hash_outs (h : uint256) (outs : list CTxScCreationOut) (tx : CTransaction) : CTransaction :=
  mkTx (tx_nVersion tx) (tx_vin tx) (tx_vout tx) h (vjoinsplit tx) (nLockTime tx) (vcsw_ccin tx) outs (vft_ccout tx)
    (vmbtr_out tx) (joinSplitPubKey tx) (joinSplitSig tx).

Definition hash_of (b : bytes) : uint256 := uint_of_bytes (Hash [b]).

Section Ids.
  (** [zendoo_compute_sc_id] with the serialization of its result; [None]: an error code *)
  Context (compute_sc_id : uint256 -> Z -> option uint256).

Definition GenerateScId (txHash : uint256) (pos : Z) (o : CTxScCreationOut) : res CTxScCreationOut :=
  match compute_sc_id txHash pos with
  | None => Err AssertFailed
  | Some scid => Ok (set_scId scid o)
  end.

Fixpoint generate_ids (txHash : uint256) (pos : Z) (l : list CTxScCreationOut) : res (list CTxScCreationOut) :=
  match l with
  | [] => Ok []
  | o :: l' => res_bind (GenerateScId txHash pos o) (fun o' => res_bind (generate_ids txHash (pos + 1) l') (fun l'' => Ok (o' :: l'')))
  end.

Definition tx_UpdateHash (tx : CTransaction) : res CTransaction :=
  res_bind (tx_ser tx) (fun b =>
  res_bind (generate_ids (hash_of b) 0 (vsc_ccout tx)) (fun outs => Ok (set_hash_outs (hash_of b) outs tx))).

Definition tx_unser : Reader CTransaction := let* tx := tx_fields_unser in lift (tx_UpdateHash tx).

(** ** Certificates *)
Definition s_field {Cfg} : Serializer (CustomCertificateField Cfg) := s_iso vRawData field_of_raw s_bytes.

Definition s_bwt : Serializer CBackwardTransferOut :=
  s_iso (fun b => (bt_nValue b, bt_pubKeyHash b)) (fun p => mkBwtOut p.1 p.2) (s_pair s_i64 (s_fixed 20)).

(** the fields before the outputs *)
Definition cert_head (c : CScCertificate) :=
  (cert_nVersion c, (cert_scId c, (epochNumber c, (quality c, (endEpochCumScTxCommTreeRoot c, (cert_scProof c,
    (vFieldElementCertificateField c, (vBitVectorCertificateField c, (forwardTransferScFee c,
    (mainchainBackwardTransferRequestScFee c, cert_vin c)))))))))).

Definition s_cert_head :=
  s_pair s_i32 (s_pair s_uint256 (s_pair s_i32 (s_pair s_i64 (s_pair s_bytes (s_pair s_bytes
    (s_pair (s_vec (@s_field FieldElementCertificateFieldConfig)) (s_pair (s_vec (@s_field BitVectorCertificateFieldConfig))
    (s_pair s_i64 (s_pair s_i64 (s_vec s_txin)))))))))).

Definition cert_ser (c : CScCertificate) : res bytes :=
  Ok (ser s_cert_head (cert_head c))
  +++ res_bind (cert_vout_ser (cert_vout c) (nFirstBwtPos c)) (fun p =>
      Ok (ser (s_vec s_CTxOut) p.1 ++ ser (s_vec s_bwt) p.2)).

Definition cert_GetSerializeSize (c : CScCertificate) : res Z := res_bind (cert_ser c) (fun b => Ok (vsize b)).

Definition cert_fields_unser : Reader CScCertificate :=
  let* h := unser s_cert_head in
  let* vout_ser := unser (s_vec s_CTxOut) in
  let* vbt_ccout_ser := unser (s_vec s_bwt) in
  let '(vout, first) := cert_vout_unser vout_ser vbt_ccout_ser in
  let '(v, (id, (ep, (q, (root, (pr, (fe, (bv, (ff, (mf, vin)))))))))) := h in
  ret (mkCert v vin vout 0 id ep q root pr fe bv ff mf first).

Definition set_cert_hash (h : uint256) (c : CScCertificate) : CScCertificate :=
  mkCert (cert_nVersion c) (cert_vin c) (cert_vout c) h (cert_scId c) (epochNumber c) (quality c) (endEpochCumScTxCommTreeRoot c)
    (cert_scProof c) (vFieldElementCertificateField c) (vBitVectorCertificateField c) (forwardTransferScFee c)
    (mainchainBackwardTransferRequestScFee c) (nFirstBwtPos c).

Definition cert_UpdateHash (c : CScCertificate) : res CScCertificate :=
  res_bind (cert_ser c) (fun b => Ok (set_cert_hash (hash_of b) c)).

Definition cert_unser : Reader CScCertificate := let* c := cert_fields_unser in lift (cert_UpdateHash c).

(** ** Blocks *)
Definition block_ser (b : CBlock) : res bytes :=
  Ok (ser s_header (header b)) +++ vec_write tx_ser (vtx b)
  +++ (if hd_nVersion (header b) =? BLOCK_VERSION_SC_SUPPORT then vec_write cert_ser (vcert b) else Ok []).

Definition block_unser : Reader CBlock :=
  let* h := unser s_header in
  let* txs := vec_read tx_unser in
  let* certs := (if hd_nVersion h =? BLOCK_VERSION_SC_SUPPORT then vec_read cert_unser else ret []) in
  ret (mkBlock h txs certs []).
End Ids.

(** the sum of the sizes of the elements *)
Fixpoint sum_sizes {A} (size : A -> res Z) (l : list A) : res Z :=
  match l with
  | [] => Ok 0
  | x :: l' => res_bind (size x) (fun n => res_bind (sum_sizes size l') (fun m => Ok (n + m)))
  end.

(** the size of the block, of the header, of the transactions and of the certificates *)
Definition GetSerializeComponentsSize (b : CBlock) : res (Z * Z * Z * Z) :=
  let headerSize := ser_size s_header (header b) in
  res_bind (sum_sizes tx_GetSerializeSize (vtx b)) (fun totalTxSize =>
  let total := headerSize + GetSizeOfCompactSize (vsize (vtx b)) + totalTxSize in
  if hd_nVersion (header b) =? BLOCK_VERSION_SC_SUPPORT then
    res_bind (sum_sizes cert_GetSerializeSize (vcert b)) (fun totalCertSize =>
    Ok (total + GetSizeOfCompactSize (vsize (vcert b)) + totalCertSize, headerSize, totalTxSize, totalCertSize))
  else Ok (total, headerSize, totalTxSize, 0)).

(** * Laws of the format *)
#[export] Instance array_lawful {A} n (s : Serializer A) ok `{!Lawful s ok} :
  Lawful (s_array n s) (fun l => length l = n /\ Forall ok l).
Proof.
  split.
  - intros l rest [Hl Hok]. cbn [unser ser s_array]. rewrite <- Hl. by apply (read_n_app s ok).
  - intros l [_ Hok]. cbn [ser_size ser s_array]. induction Hok as [|x l Hx Hok IH]; [done|]. cbn.
    rewrite length_app, Nat2Z.inj_add, (ser_size_ser x Hx). lia.
Qed.

#[export] Instance fixed_lawful n : Lawful (s_fixed n) (fun b => length b = n).
Proof. split; [intros b rest Hb; by apply read_bytes_app|intros b Hb; cbn; by rewrite Hb]. Qed.

Definition outpoint_ok (o : COutPoint) : Prop := 0 <= op_hash o < 2 ^ 256 /\ 0 <= op_n o < 2 ^ 32.

#[export] Instance outpoint_lawful : Lawful s_outpoint outpoint_ok.
Proof. eapply iso_lawful; [exact _|by intros []|done]. Qed.

Definition txin_ok (i : CTxIn) : Prop := outpoint_ok (prevout i) /\ short (scriptSig i) /\ 0 <= nSequence i < 2 ^ 32.

#[export] Instance txin_lawful : Lawful s_txin txin_ok.
Proof. eapply iso_lawful; [exact _|by intros []|done]. Qed.

Definition out_ok (o : CTxOut) : Prop := is_i64 (out_nValue o) /\ short (scriptPubKey o).

#[export] Instance CTxOut_lawful : Lawful s_CTxOut out_ok.
Proof. eapply iso_lawful; [exact _|by intros []|done]. Qed.

Definition csw_ok (c : CTxCeasedSidechainWithdrawalInput) : Prop :=
  is_i64 (csw_nValue c) /\ 0 <= csw_scId c < 2 ^ 256 /\ short (csw_nullifier c) /\ length (csw_pubKeyHash c) = 20%nat
  /\ short (csw_scProof c) /\ short (csw_actCertDataHash c) /\ short (csw_ceasingCumScTxCommTree c) /\ short (csw_redeemScript c).

#[export] Instance csw_lawful : Lawful s_csw csw_ok.
Proof. eapply iso_lawful; [exact _|by intros []|done]. Qed.

Definition ft_ok (o : CTxForwardTransferOut) : Prop :=
  is_i64 (ft_nValue o) /\ 0 <= ft_address o < 2 ^ 256 /\ 0 <= ft_scId o < 2 ^ 256 /\ length (ft_mcReturnAddress o) = 20%nat.

#[export] Instance ft_lawful : Lawful s_ft ft_ok.
Proof. eapply iso_lawful; [exact _|by intros []|done]. Qed.

Definition mbtr_ok (o : CBwtRequestOut) : Prop :=
  0 <= mbtr_scId o < 2 ^ 256 /\ (vsize (vScRequestData o) <= MAX_SERIALIZED_COMPACT_SIZE /\ Forall short (vScRequestData o))
  /\ length (mcDestinationAddress o) = 20%nat /\ is_i64 (scFee o).

#[export] Instance mbtr_lawful : Lawful s_mbtr mbtr_ok.
Proof. eapply iso_lawful; [exact _|by intros []|done]. Qed.

Definition fecfg_ok (c : FieldElementCertificateFieldConfig) : Prop := 0 <= nBits c < 2 ^ 8.

#[export] Instance fecfg_lawful : Lawful s_fecfg fecfg_ok.
Proof. eapply iso_lawful; [exact _|by intros []|done]. Qed.

Definition bvcfg_ok (c : BitVectorCertificateFieldConfig) : Prop := is_i32 (bitVectorSizeBits c) /\ is_i32 (maxCompressedSizeBytes c).

#[export] Instance bvcfg_lawful : Lawful s_bvcfg bvcfg_ok.
Proof. eapply iso_lawful; [exact _|by intros []|done]. Qed.

Definition short_opt (o : option bytes) : Prop := match o with Some b => short b | None => True end.

Definition creation_tail_ok (o : CTxScCreationOut) : Prop :=
  is_i64 (sc_nValue o) /\ 0 <= sc_address o < 2 ^ 256 /\ short (sc_customData o) /\ short_opt (sc_constant o)
  /\ short (sc_wCertVk o) /\ short_opt (sc_wCeasedVk o)
  /\ (vsize (sc_vFieldElementCertificateFieldConfig o) <= MAX_SERIALIZED_COMPACT_SIZE /\ Forall fecfg_ok (sc_vFieldElementCertificateFieldConfig o))
  /\ (vsize (sc_vBitVectorCertificateFieldConfig o) <= MAX_SERIALIZED_COMPACT_SIZE /\ Forall bvcfg_ok (sc_vBitVectorCertificateFieldConfig o))
  /\ is_i64 (sc_forwardTransferScFee o) /\ is_i64 (sc_mainchainBackwardTransferRequestScFee o)
  /\ 0 <= sc_mainchainBackwardTransferRequestDataLength o < 2 ^ 8.

#[export] Instance creation_tail_lawful :
  Lawful s_creation_tail (fun o => creation_tail_ok o /\ generatedScId o = 0 /\ sc_version o = 0 /\ sc_withdrawalEpochLength o = 0).
Proof.
  eapply iso_lawful; [exact _| |].
  - intros [] (_ & ? & ? & ?). cbn in *. by subst.
  - intros o [Ho _]. exact Ho.
Qed.

(** ** Writers that may throw *)
Definition Writes {A} (w : A -> res bytes) (r : Reader A) (ok : A -> Prop) : Prop :=
  forall a, ok a -> exists b, w a = Ok b /\ forall rest, r (b ++ rest) = Ok (a, rest).

Lemma join_ok a b : Ok a +++ Ok b = Ok (a ++ b).
Proof. done. Qed.

(** what is written for the parts of a vector *)
Lemma res_map_writes {A} (w : A -> res bytes) (r : Reader A) ok l :
  Writes w r ok -> Forall ok l ->
  exists bs, res_map w l = Ok bs /\ forall rest, read_n (length l) r (concat bs ++ rest) = Ok (l, rest).
Proof.
  intros Hw. induction 1 as [|x l Hx Hl (bs & Hbs & Hr)]; [by exists []|].
  destruct (Hw x Hx) as (b & Hb & Hrb). exists (b :: bs). cbn [res_map res_bind]. rewrite Hb. cbn. rewrite Hbs. split; [done|].
  intros rest. cbn [read_n length concat]. rewrite <- app_assoc. rewrite (bind_ok _ _ _ _ _ (Hrb _)). by rewrite (bind_ok _ _ _ _ _ (Hr _)).
Qed.

Lemma vec_writes {A} (w : A -> res bytes) (r : Reader A) ok :
  Writes w r ok -> Writes (vec_write w) (vec_read r) (fun l => short l /\ Forall ok l).
Proof.
  intros Hw l [Hs Hl]. destruct (res_map_writes w r ok l Hw Hl) as (bs & Hbs & Hr).
  exists (WriteCompactSize (vsize l) ++ concat bs). unfold vec_write. rewrite Hbs. split; [done|]. intros rest.
  unfold vec_read. rewrite <- app_assoc. unfold short, vsize in *. rewrite (bind_ok _ _ _ _ _ (read_compact_app _ _ (conj (Zle_0_nat _) Hs))).
  by rewrite Nat2Z.id.
Qed.

Definition creation_ok (o : CTxScCreationOut) : Prop :=
  creation_tail_ok o /\ 0 <= sc_version o < 256 /\ 0 <= sc_withdrawalEpochLength o <= 0x00FFFFFF.

Lemma creation_writes : Writes creation_ser creation_unser (fun o => creation_ok o /\ generatedScId o = 0).
Proof.
  intros o [(Ht & Hv & Hl) Hid]. unfold creation_ser. rewrite pack_value by done. cbn [res_bind]. eexists. split; [done|].
  intros rest. rewrite <- app_assoc. unfold creation_unser.
  set (v := (if sc_version o <? 128 then _ else _) * 2 ^ 24 + _).
  assert (Hi : is_i32 v) by (unfold v, is_i32; destruct (Z.ltb_spec (sc_version o) 128); lia).
  rewrite (unser_then s_i32 is_i32) by done.
  assert (Hu : unpackEpochLengthAndVersion v = (sc_version o, sc_withdrawalEpochLength o)).
  { destruct (unpack_of_pack (sc_version o) (sc_withdrawalEpochLength o) Hv Hl) as (v' & Hp & Hu). rewrite pack_value in Hp by done.
    injection Hp as <-. exact Hu. }
  rewrite Hu. change (ser s_creation_tail o) with (ser s_creation_tail (set_version_length 0 0 o)).
  rewrite (unser_then s_creation_tail _) by (split; [exact Ht|done]). by destruct o.
Qed.

(** ** Points, proofs and joinsplits *)
Lemma point_lawful {A} mask what width (flag : A -> bool) (x : A -> bytes) (mk : bool -> bytes -> A) :
  (mask = G1_PREFIX_MASK \/ mask = G2_PREFIX_MASK) -> (forall p, mk (flag p) (x p) = p) ->
  Lawful (s_point mask what width flag x mk) (fun p => length (x p) = width).
Proof.
  intros Hm Hmk. split.
  - intros p rest Hp. cbn [unser ser s_point]. rewrite <- app_assoc. set (lead := if flag p then _ else _).
    assert (Hlead : 0 <= lead < 2 ^ 8) by (unfold lead; destruct Hm as [-> | ->], (flag p); vm_compute; intuition congruence).
    rewrite (unser_then s_u8 (fun x => 0 <= x < 2 ^ 8)) by done.
    assert (Hok : (Z.land lead 0xfe =? mask) = true) by (unfold lead; destruct Hm as [-> | ->], (flag p); reflexivity).
    rewrite Hok. cbn [negb]. rewrite (unser_then (s_fixed width) (fun b => length b = width)) by done.
    assert (Hf : negb (Z.land lead 1 =? 0) = flag p) by (unfold lead; destruct Hm as [-> | ->], (flag p); reflexivity).
    rewrite Hf. unfold ret. by rewrite Hmk.
  - intros p Hp. cbn [ser_size ser s_point s_u8 s_fixed]. rewrite length_app, Hp. unfold ser_writedata8. rewrite length_le_split. lia.
Qed.

Definition G1_ok (p : CompressedG1) : Prop := length (g1_x p) = 32%nat.

Definition G2_ok (p : CompressedG2) : Prop := length (g2_x p) = 64%nat.

#[export] Instance G1_lawful : Lawful s_G1 G1_ok.
Proof. apply point_lawful; [by left|by intros []]. Qed.

#[export] Instance G2_lawful : Lawful s_G2 G2_ok.
Proof. apply point_lawful; [by right|by intros []]. Qed.

Definition PHGRProof_ok (p : PHGRProof) : Prop :=
  G1_ok (g_A p) /\ G1_ok (g_A_prime p) /\ G2_ok (g_B p) /\ G1_ok (g_B_prime p) /\ G1_ok (g_C p) /\ G1_ok (g_C_prime p)
  /\ G1_ok (g_K p) /\ G1_ok (g_H p).

#[export] Instance PHGRProof_lawful : Lawful s_PHGRProof PHGRProof_ok.
Proof. eapply iso_lawful; [exact _|by intros []|done]. Qed.

Definition proof_ok (useGroth : bool) (p : SproutProof) : Prop :=
  match p with
  | PHGR q => useGroth = false /\ PHGRProof_ok q
  | Groth q => useGroth = true /\ length q = GROTH_PROOF_SIZE
  end.

Lemma proof_writes useGroth : Writes (proof_ser useGroth) (proof_unser useGroth) (proof_ok useGroth).
Proof.
  intros [q|q] [-> Hq]; eexists; (split; [reflexivity|]); intros rest; unfold proof_unser.
  - by rewrite (unser_then s_PHGRProof PHGRProof_ok).
  - by rewrite (unser_then (s_fixed GROTH_PROOF_SIZE) (fun b => length b = GROTH_PROOF_SIZE)).
Qed.

Local Notation word x := (0 <= x < 2 ^ 256) (only parsing).
Local Notation two_words l := (length l = 2%nat /\ Forall (fun x => 0 <= x < 2 ^ 256) l) (only parsing).

Definition js_ok (nVersion : Z) (j : JSDescription) : Prop :=
  (is_i64 (vpub_old j) /\ is_i64 (vpub_new j) /\ word (anchor j) /\ two_words (nullifiers j) /\ two_words (commitments j)
   /\ word (ephemeralKey j) /\ word (randomSeed j) /\ two_words (macs j))
  /\ proof_ok (nVersion =? GROTH_TX_VERSION) (proof j)
  /\ (length (ciphertexts j) = 2%nat /\ Forall (fun c => length c = ZC_CIPHERTEXT_SIZE) (ciphertexts j)).

Lemma js_writes nVersion : has_joinsplits nVersion = true -> Writes (js_ser nVersion) (js_unser nVersion) (js_ok nVersion).
Proof.
  intros Hv j (Hh & Hp & Hc). assert (Hb : bad_shielded_version nVersion = false).
  { unfold has_joinsplits, bad_shielded_version, PHGR_TX_VERSION, TRANSPARENT_TX_VERSION in *.
    destruct (nVersion =? GROTH_TX_VERSION); [by rewrite andb_false_r|]. rewrite orb_false_r in Hv. apply Z.leb_le in Hv.
    by rewrite (proj2 (Z.leb_le 1 nVersion)) by lia. }
  unfold js_ser, js_unser. rewrite Hb. destruct (proof_writes _ (proof j) Hp) as (bp & Hbp & Hrp). rewrite Hbp, !join_ok.
  eexists. split; [reflexivity|]. intros rest. rewrite <- !app_assoc.
  rewrite (unser_then s_js_head _) by exact Hh. rewrite (bind_ok _ _ _ _ _ (Hrp _)).
  rewrite (unser_then (s_array 2 (s_fixed ZC_CIPHERTEXT_SIZE)) _) by exact Hc. by destruct j.
Qed.

(** ** Transactions *)
Local Notation vec_ok ok l := (short l /\ Forall ok l) (only parsing).

Definition tx_ok (tx : CTransaction) : Prop :=
  is_i32 (tx_nVersion tx) /\ vec_ok txin_ok (tx_vin tx) /\ vec_ok out_ok (tx_vout tx) /\ 0 <= nLockTime tx < 2 ^ 32
  /\ (if tx_nVersion tx =? SC_TX_VERSION
      then vec_ok csw_ok (vcsw_ccin tx) /\ vec_ok creation_ok (vsc_ccout tx) /\ vec_ok ft_ok (vft_ccout tx) /\ vec_ok mbtr_ok (vmbtr_out tx)
      else vcsw_ccin tx = [] /\ vsc_ccout tx = [] /\ vft_ccout tx = [] /\ vmbtr_out tx = [])
  /\ (if has_joinsplits (tx_nVersion tx)
      then vec_ok (js_ok (tx_nVersion tx)) (vjoinsplit tx) /\ word (joinSplitPubKey tx) /\ length (joinSplitSig tx) = 64%nat
      else vjoinsplit tx = [])
  /\ (vjoinsplit tx = [] -> joinSplitPubKey tx = 0 /\ joinSplitSig tx = null_sig).

(** without the fields that only memory has *)
Definition tx_forget (tx : CTransaction) : CTransaction := set_hash_outs 0 (map (set_scId 0) (vsc_ccout tx)) tx.

Lemma creations_forget l : vec_write creation_ser (map (set_scId 0) l) = vec_write creation_ser l.
Proof.
  unfold vec_write, vsize. rewrite length_map. f_equal. f_equal. induction l as [|o l IH]; [done|]. cbn [map res_map]. by rewrite IH.
Qed.

Lemma tx_ser_forget tx : tx_ser (tx_forget tx) = tx_ser tx.
Proof.
  unfold tx_ser, tx_ser_internal, cc_ser, js_part_ser, tx_forget, set_hash_outs, IsScVersion.
  cbn [tx_nVersion tx_vin tx_vout vcsw_ccin vsc_ccout vft_ccout vmbtr_out nLockTime vjoinsplit joinSplitPubKey joinSplitSig].
  by rewrite creations_forget.
Qed.

Lemma creations_write l : vec_ok creation_ok l ->
  exists b, vec_write creation_ser l = Ok b /\ forall rest, vec_read creation_unser (b ++ rest) = Ok (map (set_scId 0) l, rest).
Proof.
  intros [Hs Hl]. rewrite <- creations_forget. apply (vec_writes _ _ _ creation_writes). split.
  - unfold short in *. by rewrite length_map.
  - rewrite Forall_map. eapply Forall_impl; [exact Hl|]. by intros o Ho.
Qed.

Lemma cc_writes tx : tx_ok tx ->
  exists b, cc_ser tx = Ok b /\ forall rest,
    cc_unser (tx_nVersion tx) (b ++ rest) = Ok (vcsw_ccin tx, map (set_scId 0) (vsc_ccout tx), vft_ccout tx, vmbtr_out tx, rest).
Proof.
  intros (_ & _ & _ & _ & Hcc & _). unfold cc_ser, cc_unser, IsScVersion. destruct (tx_nVersion tx =? SC_TX_VERSION).
  - destruct Hcc as (H1 & H2 & H3 & H4). destruct (creations_write _ H2) as (b & Hb & Hr). rewrite Hb, !join_ok. eexists. split; [done|].
    intros rest. rewrite <- !app_assoc. rewrite (unser_then (s_vec s_csw) _) by exact H1. rewrite (bind_ok _ _ _ _ _ (Hr _)).
    rewrite (unser_then (s_vec s_ft) _) by exact H3. by rewrite (unser_then (s_vec s_mbtr) _) by exact H4.
  - destruct Hcc as (-> & -> & -> & ->). by exists [].
Qed.

Lemma js_part_writes tx : tx_ok tx ->
  exists b, js_part_ser tx = Ok b
    /\ forall rest, js_part_unser (tx_nVersion tx) (b ++ rest) = Ok (vjoinsplit tx, joinSplitPubKey tx, joinSplitSig tx, rest).
Proof.
  intros (_ & _ & _ & _ & _ & Hjs & Hempty). unfold js_part_ser, js_part_unser. destruct (has_joinsplits (tx_nVersion tx)) eqn:Ej.
  - destruct Hjs as (Hv & Hpk & Hsig). destruct (vec_writes _ _ _ (js_writes _ Ej) _ Hv) as (b & Hb & Hr). rewrite Hb.
    destruct (vjoinsplit tx) as [|j l] eqn:El; cbn [is_empty negb]; rewrite join_ok; (eexists; split; [done|]); intros rest; rewrite <- !app_assoc;
      rewrite (bind_ok _ _ _ _ _ (Hr _)); cbn [is_empty negb].
    + destruct (Hempty eq_refl) as [-> ->]. done.
    + rewrite (unser_then s_uint256 (fun x => 0 <= x < 2 ^ 256)) by exact Hpk.
      by rewrite (unser_then (s_fixed 64) (fun b => length b = 64%nat)) by exact Hsig.
  - destruct (Hempty Hjs) as [-> ->]. rewrite Hjs. by exists [].
Qed.

Lemma tx_fields_write tx : tx_ok tx ->
  exists b, tx_ser tx = Ok b /\ forall rest, tx_fields_unser (b ++ rest) = Ok (tx_forget tx, rest).
Proof.
  intros Hok. destruct (cc_writes tx Hok) as (bc & Hbc & Hrc). destruct (js_part_writes tx Hok) as (bj & Hbj & Hrj).
  destruct Hok as (Hv & Hin & Hout & Hlock & _). unfold tx_ser, tx_ser_internal. rewrite Hbc, Hbj, !join_ok. eexists. split; [done|].
  intros rest. rewrite <- !app_assoc. unfold tx_fields_unser. rewrite (unser_then s_i32 is_i32) by exact Hv.
  rewrite (unser_then (s_vec s_txin) _) by exact Hin. rewrite (unser_then (s_vec s_CTxOut) _) by exact Hout.
  rewrite (bind_ok _ _ _ _ _ (Hrc _)). rewrite (unser_then s_u32 (fun x => 0 <= x < 2 ^ 32)) by exact Hlock.
  by rewrite (bind_ok _ _ _ _ _ (Hrj _)).
Qed.

Section Ids.
  Context (compute_sc_id : uint256 -> Z -> option uint256).

Lemma generate_ids_forget h pos l : generate_ids compute_sc_id h pos (map (set_scId 0) l) = generate_ids compute_sc_id h pos l.
Proof.
  revert pos. induction l as [|o l IH]; intros pos; [done|]. cbn [map generate_ids]. unfold GenerateScId.
  destruct (compute_sc_id h pos); [|done]. cbn [res_bind]. by rewrite IH.
Qed.

Lemma tx_UpdateHash_forget tx : tx_UpdateHash compute_sc_id (tx_forget tx) = tx_UpdateHash compute_sc_id tx.
Proof.
  unfold tx_UpdateHash. rewrite tx_ser_forget. destruct (tx_ser tx); [|done]. cbn [res_bind].
  cbn [tx_forget set_hash_outs vsc_ccout]. by rewrite generate_ids_forget.
Qed.

(** read from the wire or constructed: the hash and the ids are those of the content *)
Definition tx_current (tx : CTransaction) : Prop := tx_UpdateHash compute_sc_id tx = Ok tx.

Lemma tx_writes : Writes tx_ser (tx_unser compute_sc_id) (fun tx => tx_ok tx /\ tx_current tx).
Proof.
  intros tx [Hok Hcur]. destruct (tx_fields_write tx Hok) as (b & Hb & Hr). exists b. split; [done|]. intros rest.
  unfold tx_unser. rewrite (bind_ok _ _ _ _ _ (Hr rest)). rewrite tx_UpdateHash_forget. unfold tx_current in Hcur. by rewrite Hcur.
Qed.

(** ** Certificates *)
#[export] Instance field_lawful {Cfg} : Lawful (@s_field Cfg) (fun f => short (vRawData f) /\ f = field_of_raw (vRawData f)).
Proof. eapply iso_lawful; [exact _| |]; by intros f []. Qed.

#[export] Instance bwt_lawful : Lawful s_bwt (fun b => is_i64 (bt_nValue b) /\ length (bt_pubKeyHash b) = 20%nat).
Proof. eapply iso_lawful; [exact _|by intros []|done]. Qed.

Definition fresh_field {Cfg} (f : CustomCertificateField Cfg) : Prop := short (vRawData f) /\ f = field_of_raw (vRawData f).

(** the outputs are ordinary ones and then the outputs of backward transfers *)
Definition cert_ok (c : CScCertificate) : Prop :=
  (is_i32 (cert_nVersion c) /\ word (cert_scId c) /\ is_i32 (epochNumber c) /\ is_i64 (quality c) /\ short (endEpochCumScTxCommTreeRoot c)
   /\ short (cert_scProof c) /\ vec_ok fresh_field (vFieldElementCertificateField c) /\ vec_ok fresh_field (vBitVectorCertificateField c)
   /\ is_i64 (forwardTransferScFee c) /\ is_i64 (mainchainBackwardTransferRequestScFee c) /\ vec_ok txin_ok (cert_vin c))
  /\ exists outs bwts, cert_vout c = outs ++ map TxOut_of_bwt bwts /\ nFirstBwtPos c = vsize outs /\ vec_ok out_ok outs
     /\ short bwts /\ Forall (fun b => bwt_ok b /\ is_i64 (bt_nValue b)) bwts.

Definition cert_current (c : CScCertificate) : Prop := cert_UpdateHash c = Ok c.

Lemma cert_fields_write c : cert_ok c ->
  exists b, cert_ser c = Ok b /\ forall rest, cert_fields_unser (b ++ rest) = Ok (set_cert_hash 0 c, rest).
Proof.
  intros (Hh & outs & bwts & Hvout & Hfirst & Houts & Hs & Hb). unfold cert_ser.
  assert (Hser : cert_vout_ser (cert_vout c) (nFirstBwtPos c) = Ok (outs, bwts)).
  { rewrite Hvout, Hfirst. apply (cert_vout_spec outs bwts). eapply Forall_impl; [exact Hb|]. by intros ? []. }
  rewrite Hser. cbn [res_bind fst snd]. rewrite join_ok. eexists. split; [done|]. intros rest. rewrite <- !app_assoc. unfold cert_fields_unser.
  rewrite (unser_then s_cert_head _) by exact Hh. rewrite (unser_then (s_vec s_CTxOut) _) by exact Houts.
  rewrite (unser_then (s_vec s_bwt) _).
  2:{ split; [exact Hs|]. eapply Forall_impl; [exact Hb|]. by intros ? [[? ?] ?]. }
  unfold cert_vout_unser. rewrite <- Hvout, <- Hfirst. by destruct c.
Qed.

Lemma cert_writes : Writes cert_ser cert_unser (fun c => cert_ok c /\ cert_current c).
Proof.
  intros c [Hok Hcur]. destruct (cert_fields_write c Hok) as (b & Hb & Hr). exists b. split; [done|]. intros rest.
  unfold cert_unser. rewrite (bind_ok _ _ _ _ _ (Hr rest)). unfold cert_current, cert_UpdateHash in *.
  change (cert_ser (set_cert_hash 0 c)) with (cert_ser c). rewrite Hb in *. cbn [res_bind] in *. injection Hcur as Hcur.
  unfold lift. f_equal. f_equal. rewrite <- Hcur at 2. by destruct c.
Qed.

(** ** Blocks *)
Definition block_ok (b : CBlock) : Prop :=
  header_ok (header b) /\ vec_ok (fun tx => tx_ok tx /\ tx_current tx) (vtx b)
  /\ (if hd_nVersion (header b) =? BLOCK_VERSION_SC_SUPPORT then vec_ok (fun c => cert_ok c /\ cert_current c) (vcert b) else vcert b = [])
  /\ vMerkleTree b = [].

Lemma block_writes : Writes block_ser (block_unser compute_sc_id) block_ok.
Proof.
  intros b (Hh & Htx & Hc & Hm). unfold block_ser, block_unser. destruct (vec_writes _ _ _ tx_writes _ Htx) as (bt & Hbt & Hrt). rewrite Hbt.
  destruct (hd_nVersion (header b) =? BLOCK_VERSION_SC_SUPPORT) eqn:Ev.
  - destruct (vec_writes _ _ _ cert_writes _ Hc) as (bc & Hbc & Hrc). rewrite Hbc, !join_ok. eexists. split; [done|]. intros rest.
    rewrite <- !app_assoc. rewrite (unser_then s_header header_ok) by done. rewrite (bind_ok _ _ _ _ _ (Hrt _)), Ev.
    rewrite (bind_ok _ _ _ _ _ (Hrc _)). unfold ret. rewrite <- Hm. by destruct b.
  - rewrite !join_ok. eexists. split; [done|]. intros rest.
    rewrite <- !app_assoc. rewrite (unser_then s_header header_ok) by done. rewrite (bind_ok _ _ _ _ _ (Hrt _)), Ev.
    unfold bind, ret. cbn [app]. rewrite <- Hm, <- Hc. by destruct b.
Qed.
End Ids.

(** ** Sizes *)
Lemma sum_sizes_spec {A} (w : A -> res bytes) l bs :
  res_map w l = Ok bs -> sum_sizes (fun x => res_bind (w x) (fun b => Ok (vsize b))) l = Ok (vsize (concat bs)).
Proof.
  revert bs. induction l as [|x l IH]; intros bs; cbn [res_map sum_sizes]; [by intros [= <-]|].
  destruct (w x) as [b|]; [|done]. cbn [res_bind]. destruct (res_map w l) as [bs'|]; [|done]. cbn [res_bind]. intros [= <-].
  rewrite (IH bs' eq_refl). cbn [res_bind concat]. unfold vsize. by rewrite length_app, Nat2Z.inj_add.
Qed.

Lemma vec_write_inv {A} (w : A -> res bytes) l b :
  vec_write w l = Ok b -> exists bs, res_map w l = Ok bs /\ b = WriteCompactSize (vsize l) ++ concat bs.
Proof. unfold vec_write. destruct (res_map w l) as [bs|]; [|done]. cbn. intros [= <-]. by exists bs. Qed.

Lemma Ok_inj {A} (a b : A) : Ok a = Ok b -> a = b.
Proof. congruence. Qed.

Lemma sized (x y h t c : Z) : x = y -> exists h' t' c', Ok (x, h, t, c) = Ok (y, h', t', c').
Proof. intros ->. by eexists _, _, _. Qed.

Lemma components_size b bytes : header_ok (header b) -> block_ser b = Ok bytes ->
  exists h t c, GetSerializeComponentsSize b = Ok (vsize bytes, h, t, c).
Proof.
  intros Hh. unfold block_ser, GetSerializeComponentsSize. destruct (vec_write tx_ser (vtx b)) as [bt|] eqn:Et; [|done].
  destruct (vec_write_inv _ _ _ Et) as (ts & Hts & ->). unfold tx_GetSerializeSize. rewrite (sum_sizes_spec _ _ _ Hts). cbn [res_bind].
  pose proof (ser_size_ser (header b) Hh) as Hsz. destruct (hd_nVersion (header b) =? BLOCK_VERSION_SC_SUPPORT).
  - destruct (vec_write cert_ser (vcert b)) as [bc|] eqn:Ec; [|done]. destruct (vec_write_inv _ _ _ Ec) as (cs & Hcs & ->).
    unfold cert_GetSerializeSize. rewrite (sum_sizes_spec _ _ _ Hcs). rewrite !join_ok. intros <-%Ok_inj. cbn [res_bind]. apply sized.
    rewrite Hsz. unfold vsize. rewrite !length_app, !Nat2Z.inj_add, !compact_size_length. lia.
  - rewrite !join_ok. intros <-%Ok_inj. apply sized.
    rewrite Hsz. unfold vsize. rewrite !length_app, !Nat2Z.inj_add, !compact_size_length. cbn. lia.
Qed.

(** C12: the wire format of blocks loses nothing. A block whose fields have the widths of
    the source is written without an exception, whatever its transactions (transparent,
    shielded with either kind of proof, or with sidechain data) and certificates; reading
    the bytes gives the block back, with the hashes and sidechain ids that are not sent
    recomputed, and consumes exactly them; and the size that [GetSerializeComponentsSize]
    adds up from the parts is the number of bytes. *)
Theorem block_roundtrip (compute_sc_id : uint256 -> Z -> option uint256) (b : CBlock) :
  block_ok compute_sc_id b ->
  exists bytes, block_ser b = Ok bytes
    /\ (forall rest, block_unser compute_sc_id (bytes ++ rest) = Ok (b, rest))
    /\ exists h t c, GetSerializeComponentsSize b = Ok (vsize bytes, h, t, c).
Proof.
  intros Hok. destruct (block_writes compute_sc_id b Hok) as (bytes & Hb & Hr). exists bytes. split; [done|]. split; [done|].
  eapply components_size; [apply Hok|done].
Qed.

(** ** Transactions and certificates under construction *)
Lemma generate_ids_total c h pos l : (forall h p, is_Some (c h p)) ->
  exists outs, generate_ids c h pos l = Ok outs /\ map (set_scId 0) outs = map (set_scId 0) l /\ generate_ids c h pos outs = Ok outs.
Proof.
  intros Hc. revert pos. induction l as [|o l IH]; intros pos; [by exists []|]. destruct (IH (pos + 1)) as (outs & H1 & H2 & H3).
  destruct (Hc h pos) as [id Hid]. exists (set_scId id o :: outs). cbn [generate_ids map]. unfold GenerateScId. rewrite Hid. cbn [res_bind].
  rewrite H1, H3, H2. done.
Qed.

Lemma tx_ok_forget tx : tx_ok (tx_forget tx) <-> tx_ok tx.
Proof.
  unfold tx_ok, tx_forget. cbn [set_hash_outs tx_nVersion tx_vin tx_vout vcsw_ccin vsc_ccout vft_ccout vmbtr_out nLockTime vjoinsplit joinSplitPubKey joinSplitSig].
  assert (H1 : short (map (set_scId 0) (vsc_ccout tx)) <-> short (vsc_ccout tx)) by (unfold short; by rewrite length_map).
  assert (H2 : Forall creation_ok (map (set_scId 0) (vsc_ccout tx)) <-> Forall creation_ok (vsc_ccout tx)) by (by rewrite Forall_map).
  assert (H3 : map (set_scId 0) (vsc_ccout tx) = [] <-> vsc_ccout tx = []) by (destruct (vsc_ccout tx); done).
  destruct (tx_nVersion tx =? SC_TX_VERSION); rewrite ?H1, ?H2, ?H3; done.
Qed.

(** the transaction with the hash and the ids of its content *)
Definition finish_tx (c : uint256 -> Z -> option uint256) (tx : CTransaction) : CTransaction :=
  match tx_UpdateHash c tx with Ok tx' => tx' | Err _ => tx end.

Lemma finish_tx_ok c tx : (forall h p, is_Some (c h p)) -> tx_ok tx -> tx_ok (finish_tx c tx) /\ tx_current c (finish_tx c tx).
Proof.
  intros Hc Hok. destruct (tx_fields_write tx Hok) as (b & Hb & _). unfold finish_tx, tx_UpdateHash. rewrite Hb. cbn [res_bind].
  destruct (generate_ids_total c (hash_of b) 0 (vsc_ccout tx) Hc) as (outs & H1 & H2 & H3). rewrite H1. cbn [res_bind].
  assert (Hf : tx_forget (set_hash_outs (hash_of b) outs tx) = tx_forget tx).
  { unfold tx_forget. cbn [set_hash_outs vsc_ccout]. by rewrite H2. }
  split; [by rewrite <- tx_ok_forget, Hf, tx_ok_forget|]. unfold tx_current, tx_UpdateHash.
  rewrite <- tx_ser_forget, Hf, tx_ser_forget, Hb. cbn [res_bind]. cbn [set_hash_outs vsc_ccout]. by rewrite H3.
Qed.

Definition finish_cert (cert : CScCertificate) : CScCertificate :=
  match cert_UpdateHash cert with Ok c => c | Err _ => cert end.

Lemma finish_cert_ok cert : cert_ok cert -> cert_ok (finish_cert cert) /\ cert_current (finish_cert cert).
Proof.
  intros Hok. destruct (cert_fields_write cert Hok) as (b & Hb & _). unfold finish_cert, cert_current, cert_UpdateHash. rewrite Hb. cbn [res_bind].
  split; [exact Hok|]. change (cert_ser (set_cert_hash (hash_of b) cert)) with (cert_ser cert). by rewrite Hb.
Qed.

(** a transaction that creates a sidechain, one with a joinsplit, and a certificate *)
Definition wire_sc_tx : CTransaction :=
  mkTx SC_TX_VERSION [mkTxIn (mkOutPoint 7 0) [0x51] 0xffffffff] [mkTxOut 1000 [0x51]] 0 [] 0
    [mkCsw 5 9 [1] (repeat 2 20) [3] [] [4] [0x52]]
    [mkScCreation 0 50 3 1 100 [8] (Some [6]) [7] None [mkFECfg 8] [mkBVCfg 8 16] 0 0 0]
    [mkFt 500 3 42 (repeat 1 20)] [mkMbtr 42 [[5]] (repeat 2 20) 0] 0 null_sig.

Definition wire_js : JSDescription :=
  mkJS 5 0 11 [1; 2] [3; 4] 12 [repeat 0 ZC_CIPHERTEXT_SIZE; repeat 1 ZC_CIPHERTEXT_SIZE] 13 [5; 6] (Groth (repeat 9 GROTH_PROOF_SIZE)).

Definition wire_js_tx : CTransaction := mkTx GROTH_TX_VERSION [] [] 0 [wire_js] 0 [] [] [] [] 14 (repeat 3 64).

Definition wire_cert : CScCertificate :=
  mkCert SC_CERT_VERSION [mkTxIn (mkOutPoint 8 1) [] 0] [mkTxOut 3 [0x51]; TxOut_of_bwt (mkBwtOut 4 (repeat 7 20))] 0 42 6 (-1) [1] [2]
    [field_of_raw [3]] [field_of_raw [4; 5]] 0 0 1.

Definition toy_sc_id (h : uint256) (pos : Z) : option uint256 := Some (Z.lxor h pos).

Definition wire_block : CBlock :=
  mkBlock (mkHeader 3 1 2 3 4 5 6 [7]) [finish_tx toy_sc_id wire_sc_tx; finish_tx toy_sc_id wire_js_tx] [finish_cert wire_cert] [].

Ltac solve_wire := repeat first [split | apply List.Forall_nil | apply List.Forall_cons]; by vm_compute.

Lemma wire_block_ok : block_ok toy_sc_id wire_block.
Proof.
  assert (H1 : tx_ok wire_sc_tx) by solve_wire. assert (H2 : tx_ok wire_js_tx) by solve_wire.
  assert (H3 : cert_ok wire_cert).
  { split; [solve_wire|]. exists [mkTxOut 3 [0x51]], [mkBwtOut 4 (repeat 7 20)]. solve_wire. }
  assert (Hc : forall h p, is_Some (toy_sc_id h p)) by (intros; by eexists).
  split; [solve_wire|]. split; [split; [done|]|split; [|done]].
  - apply List.Forall_cons; [by apply finish_tx_ok|]. apply List.Forall_cons; [by apply finish_tx_ok|apply List.Forall_nil].
  - cbn [hd_nVersion header wire_block vcert]. change (3 =? BLOCK_VERSION_SC_SUPPORT) with true. cbn iota. split; [done|].
    apply List.Forall_cons; [by apply finish_cert_ok|apply List.Forall_nil].
Qed.

Lemma block_roundtrip_witness :
  block_ok toy_sc_id wire_block
  /\ exists bytes, block_ser wire_block = Ok bytes
    /\ (forall rest, block_unser toy_sc_id (bytes ++ rest) = Ok (wire_block, rest))
    /\ exists h t c, GetSerializeComponentsSize wire_block = Ok (vsize bytes, h, t, c).
Proof. split; [exact wire_block_ok|]. exact (block_roundtrip toy_sc_id wire_block wire_block_ok). Defined.
