(* ===== verification/SigHash.v ===== *)
(** * What a signature commits to

    [SignatureHash] and [CTransactionSignatureSerializer] of [script/interpreter.cpp]: the
    bytes that a signature of an input covers, written directly from the transaction or
    certificate. The reference is the text-book definition: a copy in which the parts that
    the hash type leaves open are blanked, written in the ordinary wire format. *)

From stdpp Require Import base numbers list option sets countable strings.
From Stdlib Require Import ZArith Lia.
From S2P Require Import Prelude.
From S2P Require Import Serialize.
From S2P Require Import ScTypes.
From S2P Require Import Primitives.
From S2P Require Import Crypto.
From S2P Require Import Undo.
From S2P Require Import Script.
From S2P Require Import Interpreter.
From S2P Require Import Standard.
From S2P Require Import BlockData.
From S2P Require Import TxSer.
Open Scope Z_scope.
Open Scope zen_scope.

Local Notation "a +++ b" := (join_bytes a b) (at level 60, right associativity).

Definition NOT_AN_INPUT : Z := 2 ^ 32 - 1.

Definition bad_index : err := Exception "vector index out of range".

(** ** The serializer *)
Section Serializer.
  (** the input, the output script being consumed and the hash type *)
  Context (nIn : Z) (scriptCode : CScript) (nHashType : Z).

Definition fAnyoneCanPay : bool := negb (Z.land nHashType SIGHASH_ANYONECANPAY =? 0).

Definition fHashSingle : bool := Z.land nHashType 0x1f =? SIGHASH_SINGLE.

Definition fHashNone : bool := Z.land nHashType 0x1f =? SIGHASH_NONE.

Definition SerializeScriptCode : bytes := WriteCompactSize (vsize scriptCode) ++ scriptCode.

Definition SerializeInput (vin : list CTxIn) (nInput : Z) : res bytes :=
  let nInput := if fAnyoneCanPay then nIn else nInput in
  match vin !! Z.to_nat nInput with
  | None => Err bad_index
  | Some i =>
      if nInput =? NOT_AN_INPUT then Err AssertFailed
      else
        Ok (ser s_outpoint (prevout i)
            ++ (if negb (nInput =? nIn) then ser s_bytes [] else SerializeScriptCode)
            ++ (if negb (nInput =? nIn) && (fHashSingle || fHashNone) then ser s_i32 0 else ser s_u32 (nSequence i)))
  end.

Definition SerializeOutput (vout : list CTxOut) (nOutput : Z) : res bytes :=
  if fHashSingle && negb (nOutput =? nIn) then Ok (ser s_CTxOut TxOut_SetNull)
  else match vout !! Z.to_nat nOutput with
       | None => Err bad_index
       | Some o => Ok (ser s_CTxOut o)
       end.

Definition SerializeCswInput (tx : CTransaction) (nCswInput : Z) : res bytes :=
  let nCswInput := if fAnyoneCanPay then to_u32 (nIn - vsize (tx_vin tx)) else nCswInput in
  match vcsw_ccin tx !! Z.to_nat nCswInput with
  | None => Err bad_index
  | Some c =>
      let nTotalInIdx := to_u32 (nCswInput + vsize (tx_vin tx)) in
      if nTotalInIdx =? NOT_AN_INPUT then Err AssertFailed
      else
        Ok (ser s_i64 (csw_nValue c) ++ ser s_uint256 (csw_scId c) ++ ser s_bytes (csw_nullifier c) ++ ser (s_fixed 20) (csw_pubKeyHash c)
            ++ ser s_bytes (csw_scProof c) ++ ser s_bytes (csw_actCertDataHash c) ++ ser s_bytes (csw_ceasingCumScTxCommTree c)
            ++ (if negb (nTotalInIdx =? nIn) then ser s_bytes [] else SerializeScriptCode))
  end.

(** a count and then each element by its index *)
Definition write_each (n : Z) (f : Z -> res bytes) : res bytes :=
  Ok (WriteCompactSize n) +++ res_bind (res_map (fun i => f (Z.of_nat i)) (seq 0 (Z.to_nat n))) (fun bs => Ok (concat bs)).

Definition nOutputs (vout : list CTxOut) : Z := if fHashNone then 0 else if fHashSingle then to_u32 (nIn + 1) else vsize vout.

Definition Serialize_tx (tx : CTransaction) : res bytes :=
  Ok (ser s_i32 (tx_nVersion tx))
  +++ write_each (if fAnyoneCanPay then if IsScVersion tx && (vsize (tx_vin tx) <=? nIn) then 0 else 1 else vsize (tx_vin tx))
        (SerializeInput (tx_vin tx))
  +++ write_each (nOutputs (tx_vout tx)) (SerializeOutput (tx_vout tx))
  +++ (if IsScVersion tx then
         write_each (if fAnyoneCanPay then if nIn <? vsize (tx_vin tx) then 0 else 1 else vsize (vcsw_ccin tx)) (SerializeCswInput tx)
         +++ vec_write creation_ser (if fHashNone then [] else vsc_ccout tx)
         +++ Ok (ser (s_vec s_ft) (if fHashNone then [] else vft_ccout tx))
         +++ Ok (ser (s_vec s_mbtr) (if fHashNone then [] else vmbtr_out tx))
       else Ok [])
  +++ Ok (ser s_u32 (nLockTime tx))
  +++ (if has_joinsplits (tx_nVersion tx) then
         vec_write (js_ser (tx_nVersion tx)) (vjoinsplit tx)
         +++ (if negb (is_empty (vjoinsplit tx)) then Ok (ser s_uint256 (joinSplitPubKey tx) ++ ser (s_fixed 64) null_sig) else Ok [])
       else Ok []).

Definition Serialize_cert (c : CScCertificate) : res bytes :=
  Ok (ser s_i32 (cert_nVersion c) ++ ser s_uint256 (cert_scId c) ++ ser s_i32 (epochNumber c) ++ ser s_i64 (quality c)
      ++ ser s_bytes (endEpochCumScTxCommTreeRoot c) ++ ser s_bytes (cert_scProof c)
      ++ ser (s_vec s_field) (vFieldElementCertificateField c) ++ ser (s_vec s_field) (vBitVectorCertificateField c)
      ++ ser s_i64 (forwardTransferScFee c) ++ ser s_i64 (mainchainBackwardTransferRequestScFee c))
  +++ write_each (if fAnyoneCanPay then 1 else vsize (cert_vin c)) (SerializeInput (cert_vin c))
  +++ res_bind (cert_vout_ser (cert_vout c) (nFirstBwtPos c)) (fun p =>
      write_each (nOutputs p.1) (SerializeOutput (cert_vout c)) +++ Ok (ser (s_vec s_bwt) p.2)).
End Serializer.

(** the bytes that are hashed *)
Definition preimage_tx (scriptCode : CScript) (tx : CTransaction) (nIn nHashType : Z) : res bytes :=
  let nTotalInputs := if IsScVersion tx then vsize (tx_vin tx) + vsize (vcsw_ccin tx) else vsize (tx_vin tx) in
  if (nTotalInputs <=? nIn) && negb (nIn =? NOT_AN_INPUT) then Err (Exception "input index is out of range")
  else if (Z.land nHashType 0x1f =? SIGHASH_SINGLE) && (vsize (tx_vout tx) <=? nIn)
       then Err (Exception "no matching output for SIGHASH_SINGLE")
  else Serialize_tx nIn scriptCode nHashType tx +++ Ok (ser s_i32 nHashType).

Definition preimage_cert (scriptCode : CScript) (c : CScCertificate) (nIn nHashType : Z) : res bytes :=
  if (vsize (cert_vin c) <=? nIn) && negb (nIn =? NOT_AN_INPUT) then Err (Exception "input index is out of range")
  else if (Z.land nHashType 0x1f =? SIGHASH_SINGLE) && (nFirstBwtPos c <=? nIn)
       then Err (Exception "no matching output for SIGHASH_SINGLE")
  else Serialize_cert nIn scriptCode nHashType c +++ Ok (ser s_i32 nHashType).

Definition SignatureHash (scriptCode : CScript) (tx : CTransaction) (nIn nHashType : Z) : res uint256 :=
  res_bind (preimage_tx scriptCode tx nIn nHashType) (fun b => Ok (hash_of b)).

Definition SignatureHash_cert (scriptCode : CScript) (c : CScCertificate) (nIn nHashType : Z) : res uint256 :=
  res_bind (preimage_cert scriptCode c nIn nHashType) (fun b => Ok (hash_of b)).

(** ** The checkers of an input *)
(** A transaction that was read has the proofs of its version, so that the errors that are left are the two of [SignatureHash], both a [logic_error], which [CheckSig] catches. *)
Definition caught {A} (r : res A) : option A := match r with Ok a => Some a | Err _ => None end.

Definition tx_checker (Verify : bytes -> uint256 -> bytes -> bool) (tx : CTransaction) (nIn : nat) (safeDepth : Z)
    (chain : option (list uint256)) : BaseSignatureChecker :=
  TransactionSignatureChecker (fun code t => caught (SignatureHash code tx (Z.of_nat nIn) t)) Verify
    (nLockTime tx) (tx_vin tx) nIn safeDepth chain.

Definition cert_checker (Verify : bytes -> uint256 -> bytes -> bool) (c : CScCertificate) (nIn : nat) (safeDepth : Z)
    (chain : option (list uint256)) : BaseSignatureChecker :=
  CertificateSignatureChecker (fun code t => caught (SignatureHash_cert code c (Z.of_nat nIn) t)) Verify safeDepth chain.

(** ** The reference: a copy with the open parts blanked *)
Section Masked.
  Context (nIn : Z) (scriptCode : CScript) (nHashType : Z).
  Local Notation any := (fAnyoneCanPay nHashType).
  Local Notation open := (fHashSingle nHashType || fHashNone nHashType).

(** the scripts and, when outputs are open, the sequence numbers of the others are blanked *)
Definition masked_input (i : nat) (x : CTxIn) : CTxIn :=
  if Z.of_nat i =? nIn then mkTxIn (prevout x) scriptCode (nSequence x)
  else mkTxIn (prevout x) [] (if open then 0 else nSequence x).

Definition own {A} (n : Z) (l : list A) : list A := match l !! Z.to_nat n with Some x => [x] | None => [] end.

Definition masked_vin (vin : list CTxIn) : list CTxIn :=
  if any then own nIn (imap masked_input vin) else imap masked_input vin.

Definition masked_csw (first i : nat) (c : CTxCeasedSidechainWithdrawalInput) : CTxCeasedSidechainWithdrawalInput :=
  mkCsw (csw_nValue c) (csw_scId c) (csw_nullifier c) (csw_pubKeyHash c) (csw_scProof c) (csw_actCertDataHash c)
    (csw_ceasingCumScTxCommTree c) (if Z.of_nat (first + i) =? nIn then scriptCode else []).

Definition masked_vcsw (vin : list CTxIn) (l : list CTxCeasedSidechainWithdrawalInput) : list CTxCeasedSidechainWithdrawalInput :=
  if any then if nIn <? vsize vin then [] else own (nIn - vsize vin) (imap (masked_csw (length vin)) l)
  else imap (masked_csw (length vin)) l.

(** no output, one output after null ones, or all *)
Definition masked_vout (vout : list CTxOut) : list CTxOut :=
  if fHashNone nHashType then []
  else if fHashSingle nHashType then replicate (Z.to_nat nIn) TxOut_SetNull ++ own nIn vout
  else vout.

Definition masked_tx (tx : CTransaction) : CTransaction :=
  mkTx (tx_nVersion tx) (masked_vin (tx_vin tx)) (masked_vout (tx_vout tx)) (tx_hash tx) (vjoinsplit tx) (nLockTime tx)
    (masked_vcsw (tx_vin tx) (vcsw_ccin tx))
    (if fHashNone nHashType then [] else vsc_ccout tx)
    (if fHashNone nHashType then [] else vft_ccout tx)
    (if fHashNone nHashType then [] else vmbtr_out tx)
    (joinSplitPubKey tx) null_sig.

(** backward transfers are never open *)
Definition masked_cert (c : CScCertificate) : CScCertificate :=
  let outs := masked_vout (change_outs c) in
  mkCert (cert_nVersion c) (masked_vin (cert_vin c)) (outs ++ bwt_outs c) (cert_hash c) (cert_scId c) (epochNumber c) (quality c)
    (endEpochCumScTxCommTreeRoot c) (cert_scProof c) (vFieldElementCertificateField c) (vBitVectorCertificateField c)
    (forwardTransferScFee c) (mainchainBackwardTransferRequestScFee c) (vsize outs).
End Masked.

(** * The serializer writes the masked copy *)
Lemma res_map_seq {A} (s : Serializer A) (f : Z -> res bytes) (l : list A) k :
  (forall i x, l !! i = Some x -> f (Z.of_nat (k + i)) = Ok (ser s x)) ->
  res_map (fun i => f (Z.of_nat i)) (seq k (length l)) = Ok (map (ser s) l).
Proof.
  revert k. induction l as [|x l IH]; intros k Hf; [done|]. cbn [length seq res_map map].
  pose proof (Hf 0%nat x eq_refl) as H0. rewrite Nat.add_0_r in H0. rewrite H0. cbn [res_bind].
  rewrite IH; [done|]. intros i y Hy. replace (S k + i)%nat with (k + S i)%nat by lia. by apply Hf.
Qed.

Lemma write_each_vec {A} (s : Serializer A) (l : list A) f n :
  n = vsize l -> (forall i x, l !! i = Some x -> f (Z.of_nat i) = Ok (ser s x)) -> write_each n f = Ok (ser (s_vec s) l).
Proof.
  intros -> Hf. unfold write_each, vsize. rewrite Nat2Z.id, (res_map_seq s f l 0) by (intros; by apply Hf). done.
Qed.

Lemma join_ok_l a b c : Ok a +++ Ok b +++ c = Ok (a ++ b) +++ c.
Proof. destruct c as [c|]; [|done]. unfold join_bytes, res_bind. by rewrite app_assoc. Qed.

Section Masked.
  Context (nIn : Z) (scriptCode : CScript) (nHashType : Z).
  Local Notation any := (fAnyoneCanPay nHashType).
  Local Notation single := (fHashSingle nHashType).
  Local Notation none := (fHashNone nHashType).
  Context (Hn : 0 <= nIn).

Lemma input_written vin i x : vin !! i = Some x -> Z.of_nat i <> NOT_AN_INPUT -> (any = true -> Z.of_nat i = nIn) ->
  forall j, (any = false -> j = Z.of_nat i) ->
  SerializeInput nIn scriptCode nHashType vin j = Ok (ser s_txin (masked_input nIn scriptCode nHashType i x)).
Proof.
  intros Hx Hi Hany j Hj. unfold SerializeInput.
  assert (Hidx : (if any then nIn else j) = Z.of_nat i) by (destruct any; [symmetry; by apply Hany|by apply Hj]).
  rewrite Hidx, Nat2Z.id, Hx, (proj2 (Z.eqb_neq _ _) Hi). unfold masked_input. destruct (Z.eqb_spec (Z.of_nat i) nIn); cbn [negb andb].
  - done.
  - destruct (single || none); done.
Qed.

Lemma inputs_written sc (vin : list CTxIn) : vsize vin < NOT_AN_INPUT -> (any = true -> sc = false -> nIn < vsize vin) ->
  write_each (if any then if sc && (vsize vin <=? nIn) then 0 else 1 else vsize vin) (SerializeInput nIn scriptCode nHashType vin)
  = Ok (ser (s_vec s_txin) (masked_vin nIn scriptCode nHashType vin)).
Proof.
  intros Hsz Hin. unfold vsize in *.
  assert (Hlt : forall i x, vin !! i = Some x -> (i < length vin)%nat) by (intros i x Hx; by apply lookup_lt_Some in Hx).
  destruct any eqn:Ea.
  - unfold masked_vin, own. rewrite Ea, list_lookup_imap. destruct (Z.leb_spec (Z.of_nat (length vin)) nIn) as [Hge|Hlt'].
    + destruct sc; [|specialize (Hin eq_refl eq_refl); lia]. rewrite lookup_ge_None_2 by lia. cbn [fmap option_fmap option_map]. by apply write_each_vec.
    + rewrite andb_false_r. destruct (vin !! Z.to_nat nIn) as [x|] eqn:Ex; [|apply lookup_ge_None_1 in Ex; lia].
      cbn [fmap option_fmap option_map]. apply write_each_vec; [done|].
      intros [|i] y Hy; [|by rewrite lookup_nil in Hy || done]. injection Hy as <-. apply input_written; [done|lia|intros _; lia|by rewrite Ea].
  - unfold masked_vin. rewrite Ea. apply write_each_vec; [unfold vsize; by rewrite length_imap|].
    intros i y. rewrite list_lookup_imap. destruct (vin !! i) as [x|] eqn:Ex; [|done]. intros [= <-]. specialize (Hlt i x Ex).
    apply input_written; [done|lia|by rewrite Ea|done].
Qed.

Lemma outputs_written (vout : list CTxOut) (l : list CTxOut) :
  (exists tl, l = vout ++ tl) -> (single = true -> nIn < vsize vout) -> vsize vout < 2 ^ 32 ->
  write_each (nOutputs nIn nHashType vout) (SerializeOutput nIn nHashType l) = Ok (ser (s_vec s_CTxOut) (masked_vout nIn nHashType vout)).
Proof.
  intros [tl ->] Hs Hsz. unfold nOutputs, masked_vout, SerializeOutput, vsize in *. destruct none eqn:En; [by apply write_each_vec|].
  destruct single eqn:Es.
  - specialize (Hs eq_refl). unfold own. destruct (vout !! Z.to_nat nIn) as [o|] eqn:Eo; [|apply lookup_ge_None_1 in Eo; lia].
    apply write_each_vec.
    { unfold vsize. rewrite length_app, length_replicate. cbn [length]. unfold to_u32. rewrite Z.mod_small by lia. lia. }
    intros i x Hx. apply lookup_app_Some in Hx as [Hx|[Hge Hx]].
    + pose proof (lookup_lt_Some _ _ _ Hx) as Hlt. rewrite length_replicate in Hlt. apply lookup_replicate in Hx as [-> _].
      destruct (Z.eqb_spec (Z.of_nat i) nIn); [lia|]. done.
    + rewrite length_replicate in *. destruct (i - Z.to_nat nIn)%nat as [|k] eqn:Ek; [|done]. injection Hx as <-.
      assert (Hi : Z.of_nat i = nIn) by lia. rewrite Hi, Z.eqb_refl. cbn [negb andb]. by rewrite lookup_app_l_Some with (x := o).
  - apply write_each_vec; [done|]. intros i x Hx. cbn [andb]. rewrite Nat2Z.id. by rewrite lookup_app_l_Some with (x := x).
Qed.

Lemma csw_written tx i c : vcsw_ccin tx !! i = Some c -> vsize (tx_vin tx) + Z.of_nat i < NOT_AN_INPUT ->
  (any = true -> Z.of_nat i = nIn - vsize (tx_vin tx)) -> forall j, (any = false -> j = Z.of_nat i) ->
  SerializeCswInput nIn scriptCode nHashType tx j = Ok (ser s_csw (masked_csw nIn scriptCode (length (tx_vin tx)) i c)).
Proof.
  intros Hc Hi Hany j Hj. unfold SerializeCswInput, vsize in *. unfold NOT_AN_INPUT in *.
  assert (Hidx : (if any then to_u32 (nIn - Z.of_nat (length (tx_vin tx))) else j) = Z.of_nat i).
  { destruct any; [|by apply Hj]. rewrite <- (Hany eq_refl). unfold to_u32. rewrite Z.mod_small by lia. lia. }
  rewrite Hidx, Nat2Z.id, Hc. unfold to_u32. rewrite Z.mod_small by lia. rewrite (proj2 (Z.eqb_neq _ _)) by lia. unfold masked_csw.
  replace (Z.of_nat (length (tx_vin tx) + i)) with (Z.of_nat i + Z.of_nat (length (tx_vin tx))) by lia.
  destruct (Z.of_nat i + Z.of_nat (length (tx_vin tx)) =? nIn); done.
Qed.

Lemma csws_written tx : vsize (tx_vin tx) + vsize (vcsw_ccin tx) < NOT_AN_INPUT -> (any = true -> nIn < vsize (tx_vin tx) + vsize (vcsw_ccin tx)) ->
  write_each (if any then if nIn <? vsize (tx_vin tx) then 0 else 1 else vsize (vcsw_ccin tx)) (SerializeCswInput nIn scriptCode nHashType tx)
  = Ok (ser (s_vec s_csw) (masked_vcsw nIn scriptCode nHashType (tx_vin tx) (vcsw_ccin tx))).
Proof.
  intros Hsz Hin. unfold masked_vcsw. destruct any eqn:Ea.
  - specialize (Hin eq_refl). unfold vsize in *. destruct (Z.ltb_spec nIn (Z.of_nat (length (tx_vin tx)))) as [Hlt|Hge]; [by apply write_each_vec|].
    unfold own. rewrite list_lookup_imap. destruct (vcsw_ccin tx !! Z.to_nat (nIn - Z.of_nat (length (tx_vin tx)))) as [c|] eqn:Ec; [|apply lookup_ge_None_1 in Ec; lia].
    cbn [fmap option_fmap option_map]. apply write_each_vec; [done|]. intros [|i] y Hy; [|done]. injection Hy as <-.
    apply csw_written; [done|unfold vsize; lia|unfold vsize; lia|by rewrite Ea].
  - apply write_each_vec; [unfold vsize; by rewrite length_imap|]. intros i y. rewrite list_lookup_imap.
    destruct (vcsw_ccin tx !! i) as [c|] eqn:Ec; [|done]. intros [= <-]. pose proof (lookup_lt_Some _ _ _ Ec) as Hlt. unfold vsize in *.
    apply csw_written; [done|unfold vsize; lia|by rewrite Ea|done].
Qed.
End Masked.

(** an input of the transaction, or none; and an output for [SIGHASH_SINGLE] *)
Definition total_inputs (tx : CTransaction) : Z :=
  if IsScVersion tx then vsize (tx_vin tx) + vsize (vcsw_ccin tx) else vsize (tx_vin tx).

Definition signable (tx : CTransaction) (nIn nHashType : Z) : Prop :=
  (0 <= nIn < total_inputs tx \/ nIn = NOT_AN_INPUT /\ fAnyoneCanPay nHashType = false)
  /\ (fHashSingle nHashType = true -> nIn < vsize (tx_vout tx)).

Lemma preimage_masked code tx nIn t : tx_ok tx -> signable tx nIn t ->
  preimage_tx code tx nIn t = tx_ser (masked_tx nIn code t tx) +++ Ok (ser s_i32 t).
Proof.
  intros (_ & [Hvin _] & [Hvout _] & _ & Hcc & _) [Hin Hs]. unfold preimage_tx. fold (total_inputs tx).
  assert (Hcsw : vsize (vcsw_ccin tx) <= MAX_SERIALIZED_COMPACT_SIZE).
  { destruct (tx_nVersion tx =? SC_TX_VERSION); [apply Hcc|]. destruct Hcc as [-> _]. done. }
  unfold short, NOT_AN_INPUT, MAX_SERIALIZED_COMPACT_SIZE in *. fold (vsize (tx_vin tx)) in Hvin. fold (vsize (tx_vout tx)) in Hvout.
  assert (H1 : (total_inputs tx <=? nIn) && negb (nIn =? 2 ^ 32 - 1) = false).
  { destruct Hin as [Hin|[-> _]]; [|by rewrite andb_false_r]. by rewrite (proj2 (Z.leb_gt _ _)) by lia. }
  rewrite H1. fold (fHashSingle t).
  assert (H2 : fHashSingle t && (vsize (tx_vout tx) <=? nIn) = false).
  { destruct (fHashSingle t); [|done]. rewrite (proj2 (Z.leb_gt _ _)) by auto. done. }
  rewrite H2. f_equal. assert (Hn0 : 0 <= nIn) by lia. unfold Serialize_tx, tx_ser, tx_ser_internal.
  assert (Htot : fAnyoneCanPay t = true -> nIn < total_inputs tx) by (destruct Hin as [Hin|[_ ->]]; [lia|done]).
  rewrite inputs_written; [|done|unfold NOT_AN_INPUT; lia|intros Ha Hsc; specialize (Htot Ha); unfold total_inputs in Htot; by rewrite Hsc in Htot].
  rewrite outputs_written; [|done|exists []; by rewrite app_nil_r|done|lia].
  unfold cc_ser, js_part_ser, IsScVersion.
  cbn [masked_tx tx_nVersion tx_vin tx_vout vcsw_ccin vsc_ccout vft_ccout vmbtr_out nLockTime vjoinsplit joinSplitPubKey joinSplitSig].
  unfold total_inputs, IsScVersion in Htot. destruct (tx_nVersion tx =? SC_TX_VERSION); [|by rewrite !join_ok_l, <- !app_assoc].
  rewrite csws_written by (unfold NOT_AN_INPUT; lia || done).
  destruct (vec_write creation_ser _); [|done]. by rewrite !join_ok, !join_ok_l, <- !app_assoc.
Qed.

(** ** The masked copy determines the bytes and the bytes the masked copy *)
Lemma Forall_imap {A B} (P : A -> Prop) (Q : B -> Prop) (f : nat -> A -> B) l :
  (forall i x, P x -> Q (f i x)) -> Forall P l -> Forall Q (imap f l).
Proof.
  intros Hf Hl. apply Forall_lookup. intros i y. rewrite list_lookup_imap. destruct (l !! i) as [x|] eqn:Ex; [|done]. intros [= <-].
  apply Hf. by eapply Forall_lookup_1.
Qed.

Lemma own_ok {A} (P : A -> Prop) n (l : list A) : Forall P l -> short (own n l) /\ Forall P (own n l).
Proof.
  intros Hl. unfold own. destruct (l !! Z.to_nat n) as [x|] eqn:Ex; [|by repeat constructor]. split; [done|].
  apply List.Forall_cons; [by eapply Forall_lookup_1|apply List.Forall_nil].
Qed.

Lemma masked_vin_ok nIn code t vin : short code -> short vin /\ Forall txin_ok vin ->
  short (masked_vin nIn code t vin) /\ Forall txin_ok (masked_vin nIn code t vin).
Proof.
  intros Hc [Hs Hv]. assert (Hm : Forall txin_ok (imap (masked_input nIn code t) vin)).
  { eapply Forall_imap; [|exact Hv]. intros i x (H1 & H2 & H3). unfold masked_input. destruct (_ =? _); (split; [exact H1|split; [done|]]); [exact H3|].
    cbn [nSequence]. destruct (_ || _); [lia|done]. }
  unfold masked_vin. destruct (fAnyoneCanPay t); [by apply own_ok|]. split; [|done]. unfold short in *. by rewrite length_imap.
Qed.

Lemma masked_vout_ok nIn t vout : 0 <= nIn -> (fHashSingle t = true -> nIn < vsize vout) -> short vout /\ Forall out_ok vout ->
  short (masked_vout nIn t vout) /\ Forall out_ok (masked_vout nIn t vout).
Proof.
  intros Hn Hlt [Hs Hv]. unfold masked_vout. destruct (fHashNone t); [by repeat constructor|]. destruct (fHashSingle t); [|done].
  specialize (Hlt eq_refl). destruct (own_ok out_ok nIn vout Hv) as [Ho1 Ho2]. split.
  - unfold short, vsize in *. rewrite length_app, length_replicate. unfold own. destruct (vout !! Z.to_nat nIn); cbn; lia.
  - apply Forall_app. split; [|done]. apply Forall_replicate. by split.
Qed.

Lemma masked_ok code tx nIn t : tx_ok tx -> short code -> signable tx nIn t -> tx_ok (masked_tx nIn code t tx).
Proof.
  intros (Hv & Hin & Hout & Hlock & Hcc & Hjs & He) Hc [Hi Hs]. unfold tx_ok.
  cbn [masked_tx tx_nVersion tx_vin tx_vout vcsw_ccin vsc_ccout vft_ccout vmbtr_out nLockTime vjoinsplit joinSplitPubKey joinSplitSig].
  assert (Hn : 0 <= nIn) by (unfold NOT_AN_INPUT in *; lia).
  split; [done|]. split; [by apply masked_vin_ok|]. split; [by apply masked_vout_ok|]. split; [done|]. split; [|split].
  - destruct (tx_nVersion tx =? SC_TX_VERSION).
    + destruct Hcc as ([Hs1 H1] & H2 & H3 & H4). split; [|destruct (fHashNone t); [by repeat constructor|done]].
      assert (Hm : Forall csw_ok (imap (masked_csw nIn code (length (tx_vin tx))) (vcsw_ccin tx))).
      { eapply Forall_imap; [|exact H1]. intros i x (?&?&?&?&?&?&?&?). unfold masked_csw, csw_ok. cbn -[short]. destruct (_ =? _); tauto || by (split_and!; try done; lia). }
      unfold masked_vcsw. destruct (fAnyoneCanPay t).
      * destruct (nIn <? _); [by repeat constructor|by apply own_ok].
      * split; [|done]. unfold short in *. by rewrite length_imap.
    + destruct Hcc as (-> & -> & -> & ->). split; [|by destruct (fHashNone t)]. unfold masked_vcsw, own. cbn [imap]. rewrite lookup_nil. by repeat case_match.
  - destruct (has_joinsplits (tx_nVersion tx)); [|done]. destruct Hjs as (? & ? & ?). split; [done|]. by split.
  - intros Hempty. destruct (He Hempty) as [-> _]. done.
Qed.

Lemma tx_ser_inj tx tx' b b' rest rest' :
  tx_ok tx -> tx_ok tx' -> tx_ser tx = Ok b -> tx_ser tx' = Ok b' -> b ++ rest = b' ++ rest' -> tx_forget tx = tx_forget tx' /\ rest = rest'.
Proof.
  intros H H' Hb Hb' Heq. destruct (tx_fields_write tx H) as (c & Hc & Hr). destruct (tx_fields_write tx' H') as (c' & Hc' & Hr').
  rewrite Hb in Hc. apply Ok_inj in Hc as <-. rewrite Hb' in Hc'. apply Ok_inj in Hc' as <-.
  specialize (Hr rest). specialize (Hr' rest'). rewrite Heq, Hr' in Hr. apply Ok_inj in Hr. split; congruence.
Qed.

Lemma i32_inj x y : is_i32 x -> is_i32 y -> ser s_i32 x = ser s_i32 y -> x = y.
Proof.
  intros Hx Hy Heq. pose proof (unser_ser x [] Hx) as H1. pose proof (unser_ser y [] Hy) as H2. rewrite Heq, H2 in H1. by apply Ok_inj in H1 as [= ->].
Qed.

(** C13: what a signature covers is the transaction itself. The bytes that
    [CTransactionSignatureSerializer] writes piece by piece are the ordinary serialization
    of a copy in which exactly what the hash type leaves open is blanked, followed by the
    hash type. Nothing else is open: two transactions, inputs or hash types that give the
    same bytes have the same hash type and the same copy, so that a signature of one
    never covers another set of inputs, outputs, sidechain outputs or joinsplits. *)
Theorem signature_commits (code : CScript) (tx : CTransaction) (nIn t : Z) :
  tx_ok tx -> short code -> is_i32 t -> signable tx nIn t ->
  exists copy, tx_ser (masked_tx nIn code t tx) = Ok copy /\ preimage_tx code tx nIn t = Ok (copy ++ ser s_i32 t)
  /\ forall code' tx' nIn' t', tx_ok tx' -> short code' -> is_i32 t' -> signable tx' nIn' t' ->
     preimage_tx code' tx' nIn' t' = Ok (copy ++ ser s_i32 t) ->
     t' = t /\ tx_forget (masked_tx nIn' code' t' tx') = tx_forget (masked_tx nIn code t tx).
Proof.
  intros Htx Hc Ht Hs. pose proof (masked_ok code tx nIn t Htx Hc Hs) as Hm. destruct (tx_fields_write _ Hm) as (b & Hb & _).
  exists b. split; [done|]. split; [by rewrite preimage_masked, Hb|]. intros code' tx' nIn' t' Htx' Hc' Ht' Hs' Heq.
  pose proof (masked_ok code' tx' nIn' t' Htx' Hc' Hs') as Hm'. destruct (tx_fields_write _ Hm') as (b' & Hb' & _).
  rewrite preimage_masked, Hb' in Heq by done. rewrite join_ok in Heq. apply Ok_inj in Heq.
  destruct (tx_ser_inj _ _ _ _ _ _ Hm' Hm Hb' Hb Heq) as [H1 H2]. split; [by apply i32_inj|done].
Qed.

Lemma signature_commits_witness :
  (tx_ok wire_sc_tx /\ signable wire_sc_tx 1 (Z.lor SIGHASH_ALL SIGHASH_ANYONECANPAY))
  /\ exists copy, tx_ser (masked_tx 1 [0x51] 0x81 wire_sc_tx) = Ok copy /\ preimage_tx [0x51] wire_sc_tx 1 0x81 = Ok (copy ++ ser s_i32 0x81)
  /\ forall code' tx' nIn' t', tx_ok tx' -> short code' -> is_i32 t' -> signable tx' nIn' t' ->
     preimage_tx code' tx' nIn' t' = Ok (copy ++ ser s_i32 0x81) ->
     t' = 0x81 /\ tx_forget (masked_tx nIn' code' t' tx') = tx_forget (masked_tx 1 [0x51] 0x81 wire_sc_tx).
Proof.
  assert (Htx : tx_ok wire_sc_tx) by solve_wire.
  assert (Hs : signable wire_sc_tx 1 0x81) by (split; [left; by vm_compute|by vm_compute]).
  split; [split; [exact Htx|exact Hs]|]. apply (signature_commits [0x51] wire_sc_tx 1 0x81 Htx); [by vm_compute|by vm_compute|exact Hs].
Defined.

(** ** Certificates *)
Definition signable_cert (c : CScCertificate) (nIn nHashType : Z) : Prop :=
  (0 <= nIn < vsize (cert_vin c) \/ nIn = NOT_AN_INPUT /\ fAnyoneCanPay nHashType = false)
  /\ (fHashSingle nHashType = true -> nIn < nFirstBwtPos c).

Lemma masked_cert_vout nIn t c :
  cert_vout_ser (cert_vout (masked_cert nIn [] t c)) (nFirstBwtPos (masked_cert nIn [] t c))
  = res_bind (cert_vout_ser (cert_vout c) (nFirstBwtPos c)) (fun p => Ok (masked_vout nIn t p.1, p.2)).
Proof.
  unfold cert_vout_ser, masked_cert. cbn [cert_vout nFirstBwtPos]. unfold vsize. rewrite Nat2Z.id, drop_app_length, take_app_length.
  fold (bwt_outs c). by destruct (res_map BwtOut_of_txout (bwt_outs c)).
Qed.

(** The same for certificates: the serializer writes the ordinary serialization of the
    masked copy; their backward transfers are never open. *)
Theorem preimage_cert_masked code c nIn t : cert_ok c -> signable_cert c nIn t ->
  preimage_cert code c nIn t = cert_ser (masked_cert nIn code t c) +++ Ok (ser s_i32 t).
Proof.
  intros (Hh & outs & bwts & Hvout & Hfirst & [Hso _] & _) [Hin Hs]. unfold preimage_cert.
  assert (Hvin : vsize (cert_vin c) <= MAX_SERIALIZED_COMPACT_SIZE) by apply Hh.
  unfold short, NOT_AN_INPUT, MAX_SERIALIZED_COMPACT_SIZE in *. fold (vsize outs) in Hso. rewrite <- Hfirst in Hso.
  assert (H1 : (vsize (cert_vin c) <=? nIn) && negb (nIn =? 2 ^ 32 - 1) = false).
  { destruct Hin as [Hin|[-> _]]; [|by rewrite andb_false_r]. by rewrite (proj2 (Z.leb_gt _ _)) by lia. }
  rewrite H1. fold (fHashSingle t).
  assert (H2 : fHashSingle t && (nFirstBwtPos c <=? nIn) = false).
  { destruct (fHashSingle t); [|done]. rewrite (proj2 (Z.leb_gt _ _)) by auto. done. }
  rewrite H2. f_equal. assert (Hn0 : 0 <= nIn) by lia. unfold Serialize_cert, cert_ser.
  change (write_each _ _) with (write_each (if fAnyoneCanPay t then if false && (vsize (cert_vin c) <=? nIn) then 0 else 1 else vsize (cert_vin c))
    (SerializeInput nIn code t (cert_vin c))) at 1.
  rewrite inputs_written; [|done|unfold NOT_AN_INPUT; lia|intros Ha _; destruct Hin as [Hin|[_ Ha']]; [lia|congruence]].
  change (cert_vout_ser (cert_vout (masked_cert nIn code t c)) (nFirstBwtPos (masked_cert nIn code t c)))
    with (cert_vout_ser (cert_vout (masked_cert nIn [] t c)) (nFirstBwtPos (masked_cert nIn [] t c))).
  rewrite masked_cert_vout. rewrite join_ok_l. apply (f_equal2 join_bytes).
  { unfold cert_head, s_cert_head. cbn [masked_cert cert_nVersion cert_scId epochNumber quality endEpochCumScTxCommTreeRoot cert_scProof
      vFieldElementCertificateField vBitVectorCertificateField forwardTransferScFee mainchainBackwardTransferRequestScFee cert_vin].
    cbn [ser s_pair fst snd]. by rewrite <- !app_assoc. }
  destruct (cert_vout_ser (cert_vout c) (nFirstBwtPos c)) as [p|] eqn:Ep; [|done]. cbn [res_bind fst snd].
  assert (Hp : p.1 = outs).
  { revert Ep. unfold cert_vout_ser. destruct (res_map _ _); [|done]. cbn [res_bind]. intros Ep%Ok_inj. rewrite <- Ep, Hvout, Hfirst.
    unfold vsize. cbn [fst]. by rewrite Nat2Z.id, take_app_length. }
  rewrite Hp, outputs_written; [done|done|by exists (map TxOut_of_bwt bwts)|by rewrite <- Hfirst|unfold vsize in *; lia].
Qed.
