(* ===== verification/Pow.v ===== *)
(** * Proof of work

    [pow.cpp] and the proof-of-work parameters of [consensus/params.h] and
    [chainparams.cpp]: the difficulty adjustment over the averaging window, the check
    of a block's hash against its target, and the work a block stands for. *)

From stdpp Require Import base numbers list gmap option strings sorting.
From Stdlib Require Import ZArith Lia.
From S2P Require Import Prelude.
From S2P Require Import Serialize.
From S2P Require Import ScTypes.
From S2P Require Import Digits.
From S2P Require Import Chain.
From S2P Require Import BlockData.
From S2P Require Import Arith256.
From S2P Require Import BlockIndex.
Open Scope Z_scope.
Open Scope zen_scope.

(** ** Parameters *)
Record PowParams := mkPow {
  powLimit : uint256;
  nPowAveragingWindow : Z;
  nPowMaxAdjustDown : Z;
  nPowMaxAdjustUp : Z;
  nPowTargetSpacing : Z }.

Definition AveragingWindowTimespan (p : PowParams) : Z := nPowAveragingWindow p * nPowTargetSpacing p.

Definition MinActualTimespan (p : PowParams) : Z :=
  Z.quot (AveragingWindowTimespan p * (100 - nPowMaxAdjustUp p)) 100.

Definition MaxActualTimespan (p : PowParams) : Z :=
  Z.quot (AveragingWindowTimespan p * (100 + nPowMaxAdjustDown p)) 100.

(** [uint256S] of the hexadecimal digits of a number: its least byte comes first *)
Definition uint256S (n : Z) : uint256 := uint_of_bytes (le_split 32 n).

Definition main_pow : PowParams :=
  mkPow (uint256S 0x0007ffffffffffffffffffffffffffffffffffffffffffffffffffffffffffff) 17 32 16 150.

(** the test network changes the limit only *)
Definition test_pow : PowParams :=
  mkPow (uint256S 0x07ffffffffffffffffffffffffffffffffffffffffffffffffffffffffffffff) (nPowAveragingWindow main_pow)
    (nPowMaxAdjustDown main_pow) (nPowMaxAdjustUp main_pow) (nPowTargetSpacing main_pow).

(** the regression-test network also turns the adjustment off *)
Definition regtest_pow : PowParams :=
  mkPow (uint256S 0x0f0f0f0f0f0f0f0f0f0f0f0f0f0f0f0f0f0f0f0f0f0f0f0f0f0f0f0f0f0f0f0f) (nPowAveragingWindow test_pow)
    0 0 (nPowTargetSpacing test_pow).

(** ** Difficulty adjustment *)
(** the time the last window took, dampened and bounded *)
Definition bounded_timespan (p : PowParams) (nActualTimespan : Z) : Z :=
  let dampened :=
    AveragingWindowTimespan p + Z.quot (nActualTimespan - AveragingWindowTimespan p) 4 in
  let low := if dampened <? MinActualTimespan p then MinActualTimespan p else dampened in
  if MaxActualTimespan p <? low then MaxActualTimespan p else low.

(** [bnNew *= nActualTimespan] takes the factor as a [uint32_t] *)
Definition CalculateNextWorkRequired (bnAvg : arith_uint256) (nLastBlockTime nFirstBlockTime : Z) (p : PowParams) : res Z :=
  let nActualTimespan := bounded_timespan p (nLastBlockTime - nFirstBlockTime) in
  let bnPowLimit := UintToArith256 (powLimit p) in
  match arith_div bnAvg (arith_of_u64 (to_u64 (AveragingWindowTimespan p))) with
  | Err e => Err e
  | Ok q =>
      let bnNew := arith_mul32 q (to_u32 nActualTimespan) in
      let bnNew := if 0 <? arith_CompareTo bnNew bnPowLimit then bnPowLimit else bnNew in
      GetCompact bnNew false
  end.

(** the loop over the averaging window: the sum of the targets and the entry it stops at *)
Fixpoint sum_targets (n : nat) (st : NodeStore) (pindexFirst : option ptr) (bnTot : arith_uint256)
    : res (arith_uint256 * option ptr) :=
  match n, pindexFirst with
  | O, _ | _, None => Ok (bnTot, pindexFirst)
  | S n', Some q =>
      match st !! q with
      | None => Err null_pointer
      | Some e => sum_targets n' st (px_pprev e) (arith_add bnTot (SetCompact (px_nBits e)).1.1)
      end
  end.

Definition GetNextWorkRequired (st : NodeStore) (pindexLast : option ptr) (p : PowParams) : res Z :=
  match GetCompact (UintToArith256 (powLimit p)) false with
  | Err e => Err e
  | Ok nProofOfWorkLimit =>
      match pindexLast with
      | None => Ok nProofOfWorkLimit
      | Some last =>
          match sum_targets (Z.to_nat (nPowAveragingWindow p)) st (Some last) arith_zero with
          | Err e => Err e
          | Ok (_, None) => Ok nProofOfWorkLimit
          | Ok (bnTot, Some first) =>
              match arith_div bnTot (arith_of_u64 (to_u64 (nPowAveragingWindow p))),
                    GetMedianTimePast st last, GetMedianTimePast st first with
              | Ok bnAvg, Ok tLast, Ok tFirst => CalculateNextWorkRequired bnAvg tLast tFirst p
              | Err e, _, _ | _, Err e, _ | _, _, Err e => Err e
              end
          end
      end
  end.

(** ** The check of a hash *)
Definition CheckProofOfWork (hash : uint256) (nBits : Z) (p : PowParams) : bool :=
  let '(bnTarget, fNegative, fOverflow) := SetCompact nBits in
  if fNegative || arith_EqualTo bnTarget 0 || fOverflow
     || (0 <? arith_CompareTo bnTarget (UintToArith256 (powLimit p)))
  then false
  else negb (0 <? arith_CompareTo (UintToArith256 hash) bnTarget).

(** ** Work *)
Definition GetBlockProof (nBits : Z) : res arith_uint256 :=
  let '(bnTarget, fNegative, fOverflow) := SetCompact nBits in
  if fNegative || fOverflow || arith_EqualTo bnTarget 0 then Ok (arith_of_u64 0)
  else
    match arith_div (arith_not bnTarget) (arith_add bnTarget (arith_of_u64 1)) with
    | Err e => Err e
    | Ok q => Ok (arith_add q (arith_of_u64 1))
    end.

Definition GetBlockProofEquivalentTime (to from tip : BlockNode) (p : PowParams) : res Z :=
  let '(r, sign) :=
    if 0 <? arith_CompareTo (px_nChainWork to) (px_nChainWork from)
    then (arith_sub (px_nChainWork to) (px_nChainWork from), 1)
    else (arith_sub (px_nChainWork from) (px_nChainWork to), -1) in
  match GetBlockProof (px_nBits tip) with
  | Err e => Err e
  | Ok proof =>
      match arith_div (arith_mul r (arith_of_u64 (to_u64 (nPowTargetSpacing p)))) proof with
      | Err e => Err e
      | Ok r =>
          if 63 <? arith_bits r then Ok (sign * (2 ^ 63 - 1))
          else Ok (to_i64 (to_u64 (sign * GetLow64 r)))
      end
  end.

(** ** Lemmas: words as numbers *)
Lemma CompareTo_pos a b : arith_wf a -> arith_wf b -> (0 <? arith_CompareTo a b) = (arith_value b <? arith_value a).
Proof.
  intros Ha Hb. rewrite CompareTo_spec by done. destruct (Z.compare_spec (arith_value a) (arith_value b)); cbn [sign];
    symmetry; [apply Z.ltb_ge; lia|apply Z.ltb_ge; lia|apply Z.ltb_lt; lia].
Qed.

(** the number a hash is compared as *)
Definition uint_value (x : uint256) : Z := le_combine (uint_bytes x).

Lemma uint_words x : 0 <= x < 2 ^ 256 -> arith_wf (UintToArith256 x) /\ arith_value (UintToArith256 x) = uint_value x.
Proof. intros Hx. destruct (UintToArith256_spec x Hx) as (H1 & H2 & _). done. Qed.

(** compact forms that stand for a target *)
Definition valid_target (c : Z) : bool :=
  negb (negb (compact_word c =? 0) && Z.testbit c 23) && (0 <? compact_value c) && (compact_value c <? 2 ^ 256).

Lemma compact_value_nonneg c : 0 <= c < 2 ^ 32 -> 0 <= compact_value c.
Proof.
  intros Hc. unfold compact_value. pose proof (Z.mod_pos_bound c (2 ^ 23) ltac:(lia)).
  destruct (Z.leb_spec (c / 2 ^ 24) 3).
  - apply Z.div_pos; [lia|apply Z.pow_pos_nonneg; lia].
  - apply Z.mul_nonneg_nonneg; [lia|apply Z.pow_nonneg; lia].
Qed.

(** a target is not the greatest number *)
Lemma compact_value_top c : 0 <= c < 2 ^ 32 -> compact_value c <> 2 ^ 256 - 1.
Proof.
  intros Hc. unfold compact_value. pose proof (Z.mod_pos_bound c (2 ^ 23) ltac:(lia)) as Hm.
  destruct (Z.leb_spec (c / 2 ^ 24) 3).
  - assert ((c mod 2 ^ 23) / 256 ^ (3 - c / 2 ^ 24) < 2 ^ 23); [|lia].
    assert (0 < 256 ^ (3 - c / 2 ^ 24)).
    { apply Z.pow_pos_nonneg; lia. }
    apply Z.div_lt_upper_bound; nia.
  - replace (c / 2 ^ 24 - 3) with (1 + (c / 2 ^ 24 - 4)) by lia. rewrite Z.pow_add_r by lia. change (256 ^ 1) with 256.
    intros E. assert (E' : (2 ^ 256 - 1) mod 256 = 0); [|by vm_compute in E'].
    rewrite <- E. replace (c mod 2 ^ 23 * (256 * 256 ^ (c / 2 ^ 24 - 4))) with (c mod 2 ^ 23 * 256 ^ (c / 2 ^ 24 - 4) * 256) by ring.
    apply Z.mod_mul. lia.
Qed.

(** the words and flags of a compact form *)
Lemma SetCompact_target c : 0 <= c < 2 ^ 32 ->
  exists bn neg over, SetCompact c = (bn, neg, over) /\ arith_wf bn
    /\ (neg || over || arith_EqualTo bn 0) = negb (valid_target c)
    /\ (valid_target c = true -> arith_value bn = compact_value c).
Proof.
  intros Hc. destruct (SetCompact_value c Hc) as (bn & E & Hwf & Hv). do 3 eexists. split; [exact E|]. split; [done|].
  pose proof (compact_value_nonneg c Hc) as Hnn. rewrite EqualTo_spec, Hv by (done || lia). unfold valid_target. split.
  - destruct (negb (compact_word c =? 0) && Z.testbit c 23); [done|]. cbn [orb negb andb].
    destruct (Z.leb_spec (2 ^ 256) (compact_value c)), (Z.ltb_spec (compact_value c) (2 ^ 256)); try lia; cbn [orb negb].
    rewrite Z.mod_small by lia. destruct (Z.eqb_spec (compact_value c) 0), (Z.ltb_spec 0 (compact_value c)); (lia || done).
  - intros Ht. apply andb_true_iff in Ht as [_ Ht%Z.ltb_lt]. apply Z.mod_small. lia.
Qed.

Lemma one_spec : arith_wf (arith_of_u64 1) /\ arith_value (arith_of_u64 1) = 1.
Proof. apply of_u64_spec. lia. Qed.

Lemma GetBlockProof_value c : 0 <= c < 2 ^ 32 ->
  exists w, GetBlockProof c = Ok w /\ arith_wf w
    /\ arith_value w = if valid_target c then 2 ^ 256 / (compact_value c + 1) else 0.
Proof.
  intros Hc. unfold GetBlockProof. destruct (SetCompact_target c Hc) as (bn & neg & over & -> & Hwf & -> & Hval).
  destruct (valid_target c) eqn:Et; cbn [negb].
  2:{ eexists. split; [reflexivity|]. apply of_u64_spec. lia. }
  specialize (Hval eq_refl). set (T := compact_value c) in *.
  assert (HT : 0 < T < 2 ^ 256).
  { unfold valid_target in Et. fold T in Et. apply andb_true_iff in Et as [Et ?%Z.ltb_lt].
    apply andb_true_iff in Et as [_ ?%Z.ltb_lt]. lia. }
  pose proof (compact_value_top c Hc) as Htop. fold T in Htop.
  pose proof Hwf as [Hl Hd]. destruct (not_spec bn Hd) as (N1 & N2 & N3). unfold vsize in N3. rewrite Hl, Hval in N3.
  change (base ^ Z.of_nat WIDTH) with (2 ^ 256) in N3.
  assert (Hnot : arith_wf (arith_not bn)) by (split; [congruence|done]).
  destruct one_spec as [O1 O2]. destruct (add_spec bn _ Hwf O1) as [A1 A2]. rewrite Hval, O2, Z.mod_small in A2 by lia.
  pose proof (div_spec _ _ Hnot A1) as Hdiv. rewrite A2, N3 in Hdiv. rewrite (proj2 (Z.eqb_neq (T + 1) 0)) in Hdiv by lia.
  destruct Hdiv as (q & -> & Q1 & Q2). destruct (add_spec q _ Q1 O1) as [R1 R2].
  eexists. split; [reflexivity|]. split; [done|]. rewrite R2, Q2, O2.
  replace (2 ^ 256 - 1 - T) with (2 ^ 256 + -1 * (T + 1)) by ring. rewrite Z.div_add by lia.
  replace (2 ^ 256 / (T + 1) + -1 + 1) with (2 ^ 256 / (T + 1)) by ring. apply Z.mod_small.
  split; [apply Z.div_pos; lia|]. apply Z.div_lt; lia.
Qed.

(** ** Lemmas: the adjustment *)
Definition limit (p : PowParams) : Z := uint_value (powLimit p).

(** what the parameters of the networks satisfy *)
Record pow_ok (p : PowParams) : Prop := {
  ok_limit : 0 <= powLimit p < 2 ^ 256;
  ok_window : 0 < nPowAveragingWindow p < 2 ^ 32;
  ok_spacing : 0 < AveragingWindowTimespan p < 2 ^ 32;
  ok_up : 0 <= nPowMaxAdjustUp p <= 100;
  ok_down : 0 <= nPowMaxAdjustDown p;
  ok_max : MaxActualTimespan p < 2 ^ 32;
  ok_sum : nPowAveragingWindow p * limit p < 2 ^ 256;
  ok_product : limit p / AveragingWindowTimespan p * MaxActualTimespan p < 2 ^ 256 }.

Lemma networks_pow_ok : pow_ok main_pow /\ pow_ok test_pow /\ pow_ok regtest_pow.
Proof. split_and!; constructor; vm_compute; (discriminate || (split; (reflexivity || discriminate)) || reflexivity). Qed.

Lemma bounded_timespan_spec p n : pow_ok p ->
  bounded_timespan p n
  = Z.min (MaxActualTimespan p) (Z.max (MinActualTimespan p)
      (AveragingWindowTimespan p + Z.quot (n - AveragingWindowTimespan p) 4)).
Proof.
  intros Hp. unfold bounded_timespan. cbn zeta.
  set (d := AveragingWindowTimespan p + _). destruct (Z.ltb_spec d (MinActualTimespan p));
    match goal with |- context [?a <? ?b] => destruct (Z.ltb_spec a b) end; lia.
Qed.

Lemma timespan_bounds p n : pow_ok p ->
  0 <= MinActualTimespan p <= bounded_timespan p n /\ bounded_timespan p n <= MaxActualTimespan p < 2 ^ 32.
Proof.
  intros Hp. pose proof Hp as [_ _ Hsp Hup Hdown Hmax _ _]. rewrite bounded_timespan_spec by done.
  assert (0 <= MinActualTimespan p <= MaxActualTimespan p); [|lia].
  unfold MinActualTimespan, MaxActualTimespan. rewrite !Z.quot_div_nonneg by nia.
  split; [apply Z.div_pos; nia|apply Z.div_le_mono; nia].
Qed.

(** the next target, as a number *)
Definition next_target (p : PowParams) (avg timespan : Z) : Z :=
  Z.min (limit p) (avg / AveragingWindowTimespan p * bounded_timespan p timespan).

Lemma CalculateNextWorkRequired_value p avg tl tf : pow_ok p -> arith_wf avg -> arith_value avg <= limit p ->
  CalculateNextWorkRequired avg tl tf p = Ok (compact_of (next_target p (arith_value avg) (tl - tf))).
Proof.
  intros Hp Ha Hle. unfold CalculateNextWorkRequired. destruct (timespan_bounds p (tl - tf) Hp) as [Hmin Hmax].
  pose proof Hp as [Hlim _ Hsp _ _ _ _ Hprod]. unfold to_u64, to_u32. rewrite !Z.mod_small by lia.
  destruct (of_u64_spec (AveragingWindowTimespan p) ltac:(lia)) as [W1 W2].
  pose proof (div_spec avg _ Ha W1) as Hdiv. rewrite W2 in Hdiv. rewrite (proj2 (Z.eqb_neq _ _)) in Hdiv by lia.
  destruct Hdiv as (q & -> & Q1 & Q2). pose proof (value_bound avg Ha) as Hb.
  destruct (mul32_spec q (bounded_timespan p (tl - tf)) Q1 ltac:(unfold digit; lia)) as [M1 M2]. rewrite Q2 in M2.
  assert (Hq : 0 <= arith_value avg / AveragingWindowTimespan p <= limit p / AveragingWindowTimespan p).
  { split; [apply Z.div_pos; lia|apply Z.div_le_mono; lia]. }
  rewrite Z.mod_small in M2 by nia. destruct (uint_words _ Hlim) as [L1 L2]. fold (limit p) in L2.
  rewrite CompareTo_pos, L2, M2 by done. unfold next_target.
  destruct (Z.ltb_spec (limit p) (arith_value avg / AveragingWindowTimespan p * bounded_timespan p (tl - tf))).
  - rewrite GetCompact_value, L2 by done. by rewrite Z.min_l by lia.
  - rewrite GetCompact_value, M2 by done. by rewrite Z.min_r by lia.
Qed.

(** ** Lemmas: the averaging window *)
(** the entry [p] and its ancestors, at most [n] of them *)
Fixpoint lineage (n : nat) (st : NodeStore) (p : option ptr) : list BlockNode :=
  match n, p with
  | O, _ | _, None => []
  | S n', Some q => match st !! q with None => [] | Some e => e :: lineage n' st (px_pprev e) end
  end.

Definition closed_store (st : NodeStore) : Prop :=
  forall p e q, st !! p = Some e -> px_pprev e = Some q -> is_Some (st !! q).

Lemma closed_prev st p e : closed_store st -> st !! p = Some e ->
  match px_pprev e with Some q => is_Some (st !! q) | None => True end.
Proof. intros Hc Hp. destruct (px_pprev e) as [q|] eqn:E; [by eapply Hc|done]. Qed.

Lemma past_times_spec n st p : closed_store st -> match p with Some q => is_Some (st !! q) | None => True end ->
  past_times n st p = Ok (map px_nTime (lineage n st p)).
Proof.
  intros Hc. revert p. induction n as [|n IH]; intros [q|] Hq; try done. cbn [past_times lineage].
  destruct Hq as [e He]. rewrite He. by rewrite (IH _ (closed_prev st q e Hc He)).
Qed.

Lemma merge_sort_middle (l : list Z) : l <> [] -> exists t, merge_sort Z.le l !! (length l / 2)%nat = Some t /\ t ∈ l.
Proof.
  intros Hl. pose proof (merge_sort_Permutation Z.le l) as Hp.
  destruct (lookup_lt_is_Some_2 (merge_sort Z.le l) (length l / 2)) as [t Ht].
  { rewrite (Permutation_length Hp). apply Nat.div_lt; [destruct l; [done|simpl; lia]|lia]. }
  exists t. split; [done|]. rewrite <- Hp. by apply list_elem_of_lookup_2 in Ht.
Qed.

Lemma GetMedianTimePast_total st p : closed_store st -> is_Some (st !! p) ->
  exists t, GetMedianTimePast st p = Ok t /\ t ∈ map px_nTime (lineage nMedianTimeSpan st (Some p)).
Proof.
  intros Hc Hp. unfold GetMedianTimePast. rewrite past_times_spec by done.
  destruct (merge_sort_middle (map px_nTime (lineage nMedianTimeSpan st (Some p)))) as (t & -> & Ht); [|by exists t].
  destruct Hp as [e He]. cbn [lineage nMedianTimeSpan]. by rewrite He.
Qed.

Definition targets (l : list BlockNode) : list Z := map (fun e => compact_value (px_nBits e)) l.

Definition good_bits (p : PowParams) (e : BlockNode) : Prop :=
  0 <= px_nBits e < 2 ^ 32 /\ valid_target (px_nBits e) = true /\ compact_value (px_nBits e) <= limit p.

Lemma target_words c : 0 <= c < 2 ^ 32 -> valid_target c = true ->
  arith_wf (SetCompact c).1.1 /\ arith_value (SetCompact c).1.1 = compact_value c.
Proof. intros Hc Ht. destruct (SetCompact_target c Hc) as (bn & neg & over & -> & Hwf & _ & Hv). auto. Qed.

Lemma sum_bound p l : Forall (good_bits p) l -> 0 <= foldr Z.add 0 (targets l) <= vsize l * limit p.
Proof.
  unfold vsize. induction 1 as [|e l (He & _ & Hle) _ IH]; [cbn; lia|]. cbn [targets map foldr length] in *.
  pose proof (compact_value_nonneg _ He). unfold targets in IH. lia.
Qed.

Lemma sum_targets_spec n st p q tot : closed_store st -> match p with Some q => is_Some (st !! q) | None => True end ->
  Forall (good_bits q) (lineage n st p) -> arith_wf tot ->
  arith_value tot + foldr Z.add 0 (targets (lineage n st p)) < 2 ^ 256 ->
  exists tot' p', sum_targets n st p tot = Ok (tot', p') /\ arith_wf tot'
    /\ arith_value tot' = arith_value tot + foldr Z.add 0 (targets (lineage n st p))
    /\ match p' with
       | Some r => is_Some (st !! r) /\ length (lineage (S n) st p) = S n /\ p ≫= parent_n (entries st) n = Some r
       | None => (length (lineage (S n) st p) <= n)%nat
       end.
Proof.
  intros Hc. revert p tot. induction n as [|n IH]; intros [r|] tot Hr Hg Hw Hb.
  1: { destruct Hr as [e He]. exists tot, (Some r). split; [done|]. split; [done|]. split; [cbn; lia|].
       split; [by exists e|]. cbn. by rewrite He. }
  1, 3: exists tot, None; split; [done|]; split; [done|]; split; cbn; lia.
  destruct Hr as [e He].
  assert (Hlen : length (lineage (S (S n)) st (Some r)) = S (length (lineage (S n) st (px_pprev e)))).
  { cbn [lineage]. by rewrite He. }
  rewrite Hlen. cbn [sum_targets lineage] in Hg, Hb |- *. rewrite He in *. cbn [targets map foldr] in *.
  apply Forall_cons_1 in Hg as [(Hc1 & Ht1 & Hl1) Hg]. destruct (target_words _ Hc1 Ht1) as [B1 B2].
  destruct (add_spec tot _ Hw B1) as [A1 A2]. pose proof (compact_value_nonneg _ Hc1). pose proof (value_bound tot Hw).
  pose proof (sum_bound q _ Hg) as Hsum. unfold targets in *. rewrite B2, Z.mod_small in A2 by lia.
  destruct (IH (px_pprev e) _ (closed_prev st r e Hc He) Hg A1) as (tot' & p' & -> & W & V & L); [rewrite A2; lia|].
  exists tot', p'. split; [done|]. split; [done|]. split; [rewrite V, A2; lia|].
  destruct p'; [|exact (le_n_S _ _ L)]. destruct L as (? & L & P). split; [done|]. split; [exact (f_equal S L)|].
  cbn [mbind option_bind parent_n]. change (entries st !! r) with ((entry_of <$> st) !! r). rewrite lookup_fmap, He. exact P.
Qed.

Lemma lineage_length n st p : (length (lineage n st p) <= n)%nat.
Proof.
  revert p. induction n as [|n IH]; intros [q|]; try (cbn; lia). cbn [lineage].
  destruct (st !! q) as [e|]; cbn [length]; [|lia]. specialize (IH (px_pprev e)). lia.
Qed.

Lemma compact_decodes v : 0 <= v < 2 ^ 256 ->
  exists t, SetCompact (compact_of v) = (t, false, false) /\ arith_value t = truncated v.
Proof.
  intros Hv. destruct (compact_of_value v Hv) as (Hcv & Hbit & Hval). destruct (truncated_close v Hv) as [Ht _].
  destruct (SetCompact_value _ Hcv) as (t & -> & _ & Hv'). rewrite Hval, Hbit, andb_false_r.
  rewrite (proj2 (Z.leb_gt _ _)) by lia. exists t. split; [done|]. rewrite Hv', Hval. apply Z.mod_small. lia.
Qed.

(** C20: the target of the next block.  When the chain is shorter than the averaging
    window it is the easiest one; otherwise it is the mean target of the window, scaled
    by the dampened and bounded time the window took between medians, and never easier
    than the limit.  The sums and products of the code do not overflow 256 bits, no
    division fails, and the compact form returned decodes without flags. *)
Theorem next_work_exact (p : PowParams) (st : NodeStore) (last : ptr) :
  pow_ok p -> closed_store st -> is_Some (st !! last) ->
  let n := Z.to_nat (nPowAveragingWindow p) in
  let window := lineage n st (Some last) in
  Forall (good_bits p) window ->
  exists v t, GetNextWorkRequired st (Some last) p = Ok (compact_of v) /\ SetCompact (compact_of v) = (t, false, false)
    /\ arith_value t = truncated v /\ 0 <= v <= limit p
    /\ (if (length (lineage (S n) st (Some last)) <=? n)%nat then v = limit p
        else exists first tl tf, parent_n (entries st) n last = Some first /\ GetMedianTimePast st last = Ok tl /\ GetMedianTimePast st first = Ok tf
          /\ v = next_target p (foldr Z.add 0 (targets window) / nPowAveragingWindow p) (tl - tf)).
Proof.
  intros Hp Hc Hlast n window Hg. pose proof Hp as [Hlim Hwin Hsp _ _ _ Hsum _].
  destruct (uint_words _ Hlim) as [L1 L2]. fold (limit p) in L2. pose proof (value_bound _ L1) as HL. rewrite L2 in HL.
  unfold GetNextWorkRequired. rewrite GetCompact_value, L2 by done.
  pose proof (sum_bound p window Hg) as Hb. pose proof (lineage_length n st (Some last)) as Hlen. fold window in Hlen.
  assert (Hb2 : vsize window * limit p <= nPowAveragingWindow p * limit p).
  { apply Z.mul_le_mono_nonneg_r; [lia|]. unfold vsize. lia. }
  destruct wf_zero as [Z1 Z2].
  destruct (sum_targets_spec n st (Some last) p arith_zero Hc Hlast Hg Z1) as (tot & r & Etot & T1 & T2 & T3).
  { rewrite Z2. fold window. lia. }
  fold n. rewrite Etot. fold window in T2. rewrite Z2, Z.add_0_l in T2. destruct r as [first|].
  2:{ destruct (compact_decodes (limit p) HL) as (t & Ht1 & Ht2). exists (limit p), t. split_and!; [done..|lia|lia|].
      by rewrite (proj2 (Nat.leb_le _ _) T3). }
  destruct T3 as (Hfirst & T3 & Hpar). rewrite T3, (proj2 (Nat.leb_gt _ _)) by lia.
  destruct (of_u64_spec (nPowAveragingWindow p) ltac:(lia)) as [W1 W2]. unfold to_u64. rewrite Z.mod_small by lia.
  pose proof (div_spec tot _ T1 W1) as Hdiv. rewrite W2 in Hdiv. rewrite (proj2 (Z.eqb_neq _ _)) in Hdiv by lia.
  destruct Hdiv as (avg & -> & Q1 & Q2). rewrite T2 in Q2.
  destruct (GetMedianTimePast_total st last Hc Hlast) as (tl & Etl & _).
  destruct (GetMedianTimePast_total st first Hc Hfirst) as (tf & Etf & _). rewrite Etl, Etf.
  assert (Havg : 0 <= arith_value avg <= limit p).
  { rewrite Q2. split; [apply Z.div_pos; lia|]. apply Z.div_le_upper_bound; lia. }
  rewrite CalculateNextWorkRequired_value by (done || lia). rewrite Q2.
  set (v := next_target p _ (tl - tf)). destruct (timespan_bounds p (tl - tf) Hp) as [Hmin Hmax].
  assert (Hv : 0 <= v <= limit p).
  { unfold v, next_target. rewrite <- Q2. pose proof (Z.div_pos (arith_value avg) (AveragingWindowTimespan p)). nia. }
  destruct (compact_decodes v ltac:(lia)) as (t & Ht1 & Ht2). exists v, t. split_and!; [done..|lia|lia|]. by exists first, tl, tf.
Qed.

(** a chain of 18 blocks, 150 seconds apart, at the limit of the main network *)
Definition sample_node (i : nat) : BlockNode :=
  mkNode (Z.of_nat i) (match i with O => None | S j => Some (Z.of_nat j) end) None (Z.of_nat i) 0 0 0 arith_zero 0 [] 0 0 0 0 0
    None None 4 0 0 (1000 + 150 * Z.of_nat i) 0x1f07ffff 0 [] 0.

Definition sample_chain : NodeStore := list_to_map (map (fun i => (Z.of_nat i, sample_node i)) (seq 0 18)).

Definition closedb (st : NodeStore) : bool :=
  forallb (fun ne => match px_pprev ne.2 with Some q => match st !! q with Some _ => true | None => false end | None => true end)
    (map_to_list st).

Lemma closedb_sound st : closedb st = true -> closed_store st.
Proof.
  intros H p e q Hp Hq. unfold closedb in H. rewrite forallb_forall in H.
  specialize (H (p, e) (proj1 (list_elem_of_In _ _) (proj2 (elem_of_map_to_list st p e) Hp))). cbn in H. rewrite Hq in H.
  destruct (st !! q); [by eexists|done].
Qed.

Lemma same_bits_good p c l : 0 <= c < 2 ^ 32 -> valid_target c = true -> compact_value c <= limit p ->
  forallb (fun e => px_nBits e =? c) l = true -> Forall (good_bits p) l.
Proof.
  intros H1 H2 H3 H. rewrite forallb_forall in H. apply list.Forall_forall. intros e He%list_elem_of_In.
  specialize (H e He). apply Z.eqb_eq in H. unfold good_bits. by rewrite H.
Qed.

Lemma next_work_exact_witness : exists v, GetNextWorkRequired sample_chain (Some 17) main_pow = Ok (compact_of v)
  /\ 0 <= v <= limit main_pow.
Proof.
  destruct (next_work_exact main_pow sample_chain 17 (proj1 networks_pow_ok)
    (closedb_sound sample_chain ltac:(vm_compute; reflexivity))) as (v & t & H & _ & _ & Hv & _).
  - eexists. vm_compute. reflexivity.
  - apply (same_bits_good _ 0x1f07ffff); vm_compute; (reflexivity || (split; (reflexivity || discriminate)) || discriminate).
  - exists v. split; [exact H|exact Hv].
Defined.

(** C23: the work of a block is the expected number of hashes for its target,
    [2^256 / (target + 1)], although [2^256] itself does not fit the type; a compact form
    that is negative, zero or too large stands for no work. *)
Theorem block_work_exact (nBits : Z) :
  0 <= nBits < 2 ^ 32 ->
  exists w, GetBlockProof nBits = Ok w /\ arith_wf w
    /\ arith_value w = if valid_target nBits then 2 ^ 256 / (compact_value nBits + 1) else 0.
Proof. apply GetBlockProof_value. Qed.

Lemma block_work_exact_witness : exists w, GetBlockProof 0x1f07ffff = Ok w /\ arith_value w = 8192.
Proof.
  destruct (block_work_exact 0x1f07ffff ltac:(lia)) as (w & H & _ & Hv). exists w. split; [exact H|].
  rewrite Hv. vm_compute. reflexivity.
Defined.

(** A hash satisfies the proof of work exactly when its compact target is a
    positive number of 256 bits not above the limit of the network and the hash, read
    as a number with its least byte first, does not exceed that target. *)
Theorem CheckProofOfWork_exact (hash : uint256) (nBits : Z) (p : PowParams) :
  0 <= hash < 2 ^ 256 -> 0 <= nBits < 2 ^ 32 -> 0 <= powLimit p < 2 ^ 256 ->
  CheckProofOfWork hash nBits p
  = valid_target nBits && (compact_value nBits <=? limit p) && (uint_value hash <=? compact_value nBits).
Proof.
  intros Hh Hb Hl. unfold CheckProofOfWork. destruct (SetCompact_target nBits Hb) as (bn & neg & over & -> & Hwf & Hf & Hv).
  destruct (uint_words _ Hl) as [L1 L2]. destruct (uint_words _ Hh) as [H1 H2]. rewrite !CompareTo_pos by done.
  rewrite L2, H2. fold (limit p). replace (neg || arith_EqualTo bn 0 || over) with (neg || over || arith_EqualTo bn 0)
    by by destruct neg, over, (arith_EqualTo bn 0).
  rewrite Hf. destruct (valid_target nBits); cbn [negb orb andb]; [|done]. rewrite (Hv eq_refl).
  destruct (Z.ltb_spec (limit p) (compact_value nBits)), (Z.leb_spec (compact_value nBits) (limit p)); lia.
Qed.

Lemma CheckProofOfWork_exact_witness :
  CheckProofOfWork (uint256S 0x00070000) 0x1f07ffff main_pow = true.
Proof.
  assert (H1 : 0 <= uint256S 0x00070000 < 2 ^ 256) by (vm_compute; split; [discriminate|reflexivity]).
  assert (H2 : 0 <= powLimit main_pow < 2 ^ 256) by (vm_compute; split; [discriminate|reflexivity]).
  rewrite (CheckProofOfWork_exact _ 0x1f07ffff main_pow H1 ltac:(lia) H2). vm_compute. reflexivity.
Defined.

(** The time another chain needs to catch up: the difference of the works of two
    entries, in blocks of the tip's work, times the spacing; it keeps its sign and is
    cut to the range of 64-bit numbers. *)
Theorem equivalent_time_exact (to from tip : BlockNode) (p : PowParams) :
  arith_wf (px_nChainWork to) -> arith_wf (px_nChainWork from) -> 0 <= px_nBits tip < 2 ^ 32 ->
  valid_target (px_nBits tip) = true -> 0 <= nPowTargetSpacing p < 2 ^ 64 ->
  let d := arith_value (px_nChainWork to) - arith_value (px_nChainWork from) in
  GetBlockProofEquivalentTime to from tip p
  = Ok (Z.sgn d * Z.min (2 ^ 63 - 1)
          ((Z.abs d * nPowTargetSpacing p) mod 2 ^ 256 / (2 ^ 256 / (compact_value (px_nBits tip) + 1)))).
Proof.
  intros Ht Hf Hb Hv Hs d. unfold GetBlockProofEquivalentTime. rewrite CompareTo_pos by done.
  pose proof (value_bound _ Ht). pose proof (value_bound _ Hf).
  destruct (GetBlockProof_value _ Hb) as (w & Ew & W1 & W2). rewrite Hv in W2. set (P := 2 ^ 256 / _) in *.
  assert (HP : 0 < P).
  { unfold valid_target in Hv. apply andb_true_iff in Hv as [Hv ?%Z.ltb_lt]. apply andb_true_iff in Hv as [_ ?%Z.ltb_lt].
    apply Z.div_str_pos. lia. }
  destruct (of_u64_spec _ Hs) as [S1 S2].
  assert (Hmain : forall r sgn, arith_wf r -> arith_value r = Z.abs d -> (sgn = 1 \/ sgn = -1) -> (d = 0 \/ sgn = Z.sgn d) ->
    match GetBlockProof (px_nBits tip) with
    | Err e => Err e
    | Ok proof =>
        match arith_div (arith_mul r (arith_of_u64 (to_u64 (nPowTargetSpacing p)))) proof with
        | Err e => Err e
        | Ok r => if 63 <? arith_bits r then Ok (sgn * (2 ^ 63 - 1)) else Ok (to_i64 (to_u64 (sgn * GetLow64 r)))
        end
    end = Ok (Z.sgn d * Z.min (2 ^ 63 - 1) ((Z.abs d * nPowTargetSpacing p) mod 2 ^ 256 / P))).
  { intros r sgn Hr Er Hsg Hd. rewrite Ew. unfold to_u64 at 1. rewrite (Z.mod_small (nPowTargetSpacing p)) by done.
    destruct (mul_spec r _ Hr S1) as [M1 M2]. rewrite Er, S2 in M2.
    pose proof (div_spec _ w M1 W1) as Hdiv. rewrite W2, M2 in Hdiv. rewrite (proj2 (Z.eqb_neq P 0)) in Hdiv by lia.
    destruct Hdiv as (q & -> & Q1 & Q2). rewrite <- Q2. pose proof (value_bound q Q1) as Hq.
    assert (Hbits : (63 <? arith_bits q) = (2 ^ 63 - 1 <? arith_value q)).
    { rewrite bits_spec by done. destruct (Z.eqb_spec (arith_value q) 0) as [->|Hn0]; [done|].
      destruct (Z.ltb_spec (2 ^ 63 - 1) (arith_value q)).
      - apply Z.ltb_lt. assert (63 <= Z.log2 (arith_value q)) by (apply Z.log2_le_pow2; lia). lia.
      - apply Z.ltb_ge. assert (Z.log2 (arith_value q) < 63) by (apply Z.log2_lt_pow2; lia). lia. }
    assert (Hz : d = 0 -> arith_value q = 0) by (intros Hd0; rewrite Q2, Hd0; cbn [Z.abs Z.mul]; rewrite Z.mod_0_l, Z.div_0_l; lia).
    rewrite Hbits. destruct (Z.ltb_spec (2 ^ 63 - 1) (arith_value q)).
    - destruct Hd as [Hd| <-]; [specialize (Hz Hd); lia|]. by rewrite Z.min_l by lia.
    - rewrite Z.min_r, GetLow64_spec, (Z.mod_small _ (2 ^ 64)) by (done || lia). unfold to_u64.
      destruct Hd as [Hd|Hd]; [rewrite (Hz Hd), !Z.mul_0_r; done|]. rewrite Hd. f_equal. apply to_i64_mod.
      unfold is_i64. rewrite <- Hd. lia. }
  destruct (Z.ltb_spec (arith_value (px_nChainWork from)) (arith_value (px_nChainWork to))).
  - destruct (sub_spec _ _ Ht Hf) as [R1 R2]. apply Hmain; [done| |lia|lia]. rewrite R2, Z.mod_small by lia. lia.
  - destruct (sub_spec _ _ Hf Ht) as [R1 R2]. apply Hmain; [done| |lia|lia]. rewrite R2, Z.mod_small by lia. lia.
Qed.

Lemma equivalent_time_exact_witness :
  GetBlockProofEquivalentTime (set_nChainWork (arith_of_u64 8192) node_SetNull) (set_nChainWork (arith_of_u64 24576) node_SetNull)
    (sample_node 3) main_pow = Ok (-300).
Proof.
  destruct (of_u64_spec 8192) as [W1 V1]; [lia|]. destruct (of_u64_spec 24576) as [W2 V2]; [lia|].
  rewrite (equivalent_time_exact (set_nChainWork (arith_of_u64 8192) node_SetNull)
             (set_nChainWork (arith_of_u64 24576) node_SetNull) (sample_node 3) main_pow W1 W2
             ltac:(cbn; lia) ltac:(vm_compute; reflexivity) ltac:(cbn; lia)).
  cbn [px_nChainWork set_nChainWork]. rewrite V1, V2. vm_compute. reflexivity.
Defined.
