(* ===== verification/Checks.v ===== *)
(** * Checks of transactions, certificates and blocks

    The checks of [main.cpp] that need no coins: [CheckTransaction], [CheckCertificate],
    the order of the certificates of a block and the certificates of highest quality,
    [CheckBlockHeader], [CheckBlock], [ContextualCheckBlockHeader] and
    [ContextualCheckBlock], with [ContextualCheck] of transactions and certificates. *)

From stdpp Require Import base numbers list gmap option sets countable strings.
From Stdlib Require Import ZArith Lia.
From S2P Require Import Prelude.
From S2P Require Import Amount.
From S2P Require Import Serialize.
From S2P Require Import ScTypes.
From S2P Require Import Primitives.
From S2P Require Import Forks.
From S2P Require Import Sidechain.
From S2P Require Import Undo.
From S2P Require Import Script.
From S2P Require Import Crypto.
From S2P Require Import Interpreter.
From S2P Require Import Standard.
From S2P Require Import Chain.
From S2P Require Import Base58.
From S2P Require Import BlockData.
From S2P Require Import BlockIndex.
From S2P Require Import TxSer.
From S2P Require Import SigHash.
From S2P Require Import Pow.
Open Scope Z_scope.
Open Scope zen_scope.

Local Notation VS := CValidationState.

Definition MAX_TX_SIZE : Z := 100000.

Definition MAX_CERT_SIZE : Z := 150000.

Definition MAX_BLOCK_SIZE : Z := 4000000.

Definition MAX_BLOCK_SIZE_BEFORE_SC : Z := 2000000.

Definition BLOCK_TX_PARTITION_SIZE : Z := MAX_BLOCK_SIZE_BEFORE_SC.

Definition MAX_BLOCK_SIGOPS : Z := 20000.

Definition MIN_BLOCK_VERSION : Z := BLOCK_VERSION_SC_SUPPORT.

Definition MAX_FUTURE_BLOCK_TIME_LOCAL : Z := 2 * 60 * 60.

Definition MAX_FUTURE_BLOCK_TIME_MTP : Z := 90 * 60.

(** [if (!check) return false;] *)
Definition andb_M {S} (m k : M S bool) : M S bool := let* ok := m in if ok : bool then k else ret false.

Local Notation "m ;&& k" := (andb_M m k) (at level 60, right associativity).

(** ** Final transactions *)
Definition IsFinalTx (lockTime : Z) (vin : list CTxIn) (nBlockHeight nBlockTime : Z) : bool :=
  if lockTime =? 0 then true
  else if lockTime <? (if lockTime <? LOCKTIME_THRESHOLD then nBlockHeight else nBlockTime) then true
  else forallb TxIn_IsFinal vin.

(** ** Signature operations *)
Fixpoint sum_sigops (scripts : list CScript) (nSigOps : Z) : res Z :=
  match scripts with
  | [] => Ok nSigOps
  | s :: scripts' => res_bind (GetSigOpCount false s) (fun n => sum_sigops scripts' (to_u32 (nSigOps + n)))
  end.

Definition csw_scriptPubKey (c : CTxCeasedSidechainWithdrawalInput) : CScript :=
  push_data [OP_DUP; OP_HASH160] (csw_pubKeyHash c) ++ [OP_EQUALVERIFY; OP_CHECKSIG].

(** the scripts of a transaction in the order of the loops *)
Definition tx_GetLegacySigOpCount (tx : CTransaction) : res Z :=
  sum_sigops (map scriptSig (tx_vin tx) ++ map scriptPubKey (tx_vout tx)
              ++ concat (map (fun c => [csw_scriptPubKey c; csw_redeemScript c]) (vcsw_ccin tx))) 0.

Definition cert_GetLegacySigOpCount (c : CScCertificate) : res Z :=
  sum_sigops (map scriptSig (cert_vin c) ++ map scriptPubKey (cert_vout c)) 0.

(** ** Certificates *)
Definition cert_CheckSerializedSize (c : CScCertificate) : M VS bool :=
  let* size := lift (cert_GetSerializeSize c) in
  if MAX_CERT_SIZE <? to_u32 size then reject 100 INVALID "bad-cert-oversize" else ret true.

Definition tx_CheckSerializedSize (tx : CTransaction) : M VS bool :=
  let* size := lift (tx_GetSerializeSize tx) in
  if MAX_TX_SIZE <? to_u32 size then reject 100 INVALID "bad-txns-oversize" else ret true.

Definition CheckCertificate `{ZendooLib} `{NodeConfig} (c : CScCertificate) : M VS bool :=
  cert_IsValidVersion c ;&& cert_CheckInputsOutputsNonEmpty c ;&& cert_CheckSerializedSize c ;&& cert_CheckAmounts c
  ;&& CheckInputsDuplication_base (cert_vin c) [] ;&& cert_CheckInputsInteraction c ;&& checkCertSemanticValidity c.

(** [mBestCertDataByScId]: the epoch and the quality of the last certificate *)
Definition check_order (best : gmap Z (Z * Z)) (c : CScCertificate) : M VS (option (gmap Z (Z * Z))) :=
  match best !! cert_scId c with
  | Some (epoch, q) =>
      if negb (epoch =? epochNumber c) then let* _ := reject 100 INVALID "bad-cert-epoch" in ret None
      else if quality c <=? q then let* _ := reject 100 INVALID "bad-cert-quality-in-block" in ret None
      else ret (Some (<[cert_scId c := (epochNumber c, quality c)]> best))
  | None => ret (Some (<[cert_scId c := (epochNumber c, quality c)]> best))
  end.

Definition CheckCertificatesOrdering (certList : list CScCertificate) : M VS bool :=
  let* r := for_acc certList ∅ check_order in
  ret (match r with Some _ => true | None => false end).

(** the certificates from the last to the first, with the sidechains already visited; [prev] gives
    the hash that is superseded *)
Fixpoint high_quality (prev : CScCertificate -> res (option uint256)) (certs : list CScCertificate) (visitedScIds : gset Z)
    (r : gmap uint256 uint256) : res (gmap uint256 uint256) :=
  match certs with
  | [] => Ok r
  | c :: certs' =>
      if decide (cert_scId c ∈ visitedScIds) then high_quality prev certs' visitedScIds r
      else
        res_bind (prev c) (fun o =>
        match o with
        | None => high_quality prev certs' visitedScIds r
        | Some h => high_quality prev certs' ({[cert_scId c]} ∪ visitedScIds) (<[cert_hash c := h]> r)
        end)
  end.

(** with the sidechains of the view, before the block is connected *)
Definition HighQualityCertData_connect (vcert : list CScCertificate) (sidechain : uint256 -> option CSidechain) : res (gmap uint256 uint256) :=
  high_quality (fun c =>
    match sidechain (cert_scId c) with
    | None => Ok None
    | Some s => Ok (Some (if epochNumber c =? lastTopQualityCertReferencedEpoch s then lastTopQualityCertHash s else 0))
    end) (rev vcert) ∅ ∅.

(** with the undo data of the block *)
Definition HighQualityCertData_disconnect (vcert : list CScCertificate) (undo : CBlockUndo) : res (gmap uint256 uint256) :=
  high_quality (fun c =>
    match scUndoDatabyScId undo !! cert_scId c with
    | None => Err out_of_bounds
    | Some u => Ok (Some (if epochNumber c =? prevTopCommittedCertReferencedEpoch u then prevTopCommittedCertHash u else 0))
    end) (rev vcert) ∅ ∅.

(** ** Transactions *)
Section Transactions.
  Context `{ZendooLib} `{NodeConfig}.
  (** the verification of a joinsplit and of its signature *)
  Context (js_Verify : JSDescription -> uint256 -> bool) (crypto_sign_verify_detached : bytes -> bytes -> uint256 -> bool).

(** the errors of [SignatureHash] that are a [std::logic_error] *)
Definition logic_error (e : err) : bool :=
  match e with
  | Exception what =>
      bool_decide (what = "input index is out of range"%string) || bool_decide (what = "no matching output for SIGHASH_SINGLE"%string)
  | _ => false
  end.

Definition check_joinsplit_sig (tx : CTransaction) : M VS bool :=
  match SignatureHash [] tx NOT_AN_INPUT SIGHASH_ALL with
  | Err e => if logic_error e then reject 100 INVALID "error-computing-signature-hash" else fail e
  | Ok dataToBeSigned =>
      if negb (crypto_sign_verify_detached (joinSplitSig tx) (uint_bytes dataToBeSigned) (joinSplitPubKey tx))
      then reject 100 INVALID "bad-txns-invalid-joinsplit-signature" else ret true
  end.

Definition CheckTransactionWithoutProofVerification (tx : CTransaction) : M VS bool :=
  IsValidVersion tx ;&& CheckInputsOutputsNonEmpty tx ;&& tx_CheckSerializedSize tx ;&& CheckAmounts tx
  ;&& CheckInputsDuplication tx ;&& CheckInputsInteraction tx
  ;&& (if negb (IsCoinBase tx) && negb (is_empty (vjoinsplit tx)) then check_joinsplit_sig tx else ret true).

(** the counter of validated transactions is left out *)
Definition CheckTransaction (tx : CTransaction) : M VS bool :=
  CheckTransactionWithoutProofVerification tx
  ;&& for_each (vjoinsplit tx) (fun js =>
        if negb (js_Verify js (joinSplitPubKey tx)) then reject 100 INVALID "bad-txns-joinsplit-verification-failed" else ret true)
  ;&& checkTxSemanticValidity tx.

(** ** Blocks *)
(** [CheckEquihashSolution] *)
Context (CheckEquihashSolution : CBlockHeader -> bool) (pow : PowParams).

Definition CheckBlockHeader (block : CBlockHeader) (fCheckPOW : bool) : M VS bool :=
  if hd_nVersion block <? MIN_BLOCK_VERSION then reject 100 INVALID "version-invalid"
  else if fCheckPOW && negb (CheckEquihashSolution block) then reject 100 INVALID "invalid-solution"
  else if fCheckPOW && negb (CheckProofOfWork (header_GetHash block) (hd_nBits block) pow) then reject 50 INVALID "high-hash"
  else ret true.

Definition check_merkle_root (block : CBlock) : M VS bool :=
  let '(hashMerkleRoot2, mutated, _) := BuildMerkleTree hash_nodes block in
  if negb (hashMerkleRoot (header block) =? hashMerkleRoot2) then DoS 100 false INVALID "bad-txnmrklroot" true
  else if mutated : bool then DoS 100 false INVALID "bad-txns-duplicate" true
  else ret true.

(** the tx partition: the rejection leaves the state as it is *)
Definition check_size (block : CBlock) : M VS bool :=
  let sc := hd_nVersion (header block) =? BLOCK_VERSION_SC_SUPPORT in
  let block_size_limit := if negb sc then MAX_BLOCK_SIZE_BEFORE_SC else MAX_BLOCK_SIZE in
  let* sizes := lift (GetSerializeComponentsSize block) in
  let '(blockSize, _, totTxSize, _) := sizes in
  if is_empty (vtx block) || (block_size_limit <? blockSize) then reject 100 INVALID "bad-blk-length"
  else if sc && (BLOCK_TX_PARTITION_SIZE <? totTxSize) then ret false
  else ret true.

Definition check_coinbase (block : CBlock) : M VS bool :=
  match vtx block with
  | cb :: txs =>
      if negb (IsCoinBase cb) then reject 100 INVALID "bad-cb-missing"
      else for_each txs (fun tx => if IsCoinBase tx then reject 100 INVALID "bad-cb-multiple" else ret true)
  | [] => reject 100 INVALID "bad-cb-missing"
  end.

Fixpoint sum_counts (counts : list (res Z)) (nSigOps : Z) : res Z :=
  match counts with
  | [] => Ok nSigOps
  | c :: counts' => res_bind c (fun n => sum_counts counts' (to_u32 (nSigOps + n)))
  end.

Definition block_sigops (block : CBlock) : res Z :=
  sum_counts (map tx_GetLegacySigOpCount (vtx block) ++ map cert_GetLegacySigOpCount (vcert block)) 0.

Definition check_sigops (block : CBlock) : M VS bool :=
  let* nSigOps := lift (block_sigops block) in
  if MAX_BLOCK_SIGOPS <? nSigOps then DoS 100 false INVALID "bad-blk-sigops" true else ret true.

Definition CheckBlock (block : CBlock) (fCheckPOW fCheckMerkleRoot : bool) : M VS bool :=
  CheckBlockHeader (header block) fCheckPOW
  ;&& (if fCheckMerkleRoot then check_merkle_root block else ret true)
  ;&& check_size block ;&& check_coinbase block
  ;&& for_each (vtx block) CheckTransaction
  ;&& CheckCertificatesOrdering (vcert block)
  ;&& for_each (vcert block) CheckCertificate
  ;&& check_sigops block.

(** ** In the context of the chain *)
Context (env : ScriptEnv).
Local Notation net := (env_net env).

(** the outputs that are not backward transfers *)
Definition CheckBlockAtHeight (outs : list CTxOut) (coinbase : bool) (nHeight dosLevel : Z) : M VS bool :=
  for_each outs (fun txout =>
    let whichType := (IsStandard env (scriptPubKey txout)).2 in
    if negb coinbase && negb (isTransactionTypeAllowedAtHeight net nHeight whichType)
    then reject dosLevel CHECKBLOCKATHEIGHT_NOT_FOUND "op-checkblockatheight-needed" else ret true).

Definition tx_ContextualCheck (tx : CTransaction) (nHeight dosLevel : Z) : M VS bool :=
  CheckBlockAtHeight (tx_vout tx) (IsCoinBase tx) nHeight dosLevel
  ;&& let sidechains := areSidechainsSupported net nHeight in
      let sidechainTxVersion := if sidechains then getSidechainTxVersion net nHeight else 0 in
      let maxSidechainVersionAllowed := getMaxSidechainVersion net nHeight in
      if getShieldedTxVersion net nHeight =? GROTH_TX_VERSION then
        if (tx_nVersion tx =? TRANSPARENT_TX_VERSION) || (sidechains && (tx_nVersion tx =? sidechainTxVersion)) then
          if negb (is_empty (vjoinsplit tx)) then reject dosLevel INVALID "bad-txns-transparent-jsnotempty"
          else for_each (vsc_ccout tx) (fun o =>
                 if maxSidechainVersionAllowed <? sc_version o then reject dosLevel INVALID "bad-tx-sc-creation-wrong-version" else ret true)
        else if negb (tx_nVersion tx =? GROTH_TX_VERSION) then reject dosLevel INVALID "bad-tx-version-unexpected"
        else ret true
      else
        massert (negb sidechains) ;;;
        if tx_nVersion tx <? TRANSPARENT_TX_VERSION then reject 0 INVALID "bad-tx-version-unexpected" else ret true.

Definition cert_ContextualCheck (c : CScCertificate) (nHeight dosLevel : Z) : M VS bool :=
  if negb (areSidechainsSupported net nHeight) then reject dosLevel INVALID "bad-cert-version"
  else CheckBlockAtHeight (change_outs c) false nHeight dosLevel.

(** [mapCheckpoints] in the order of the heights *)
Definition GetLastCheckpoint (mapCheckpoints : list (Z * uint256)) (index : gmap uint256 ptr) : option ptr :=
  head (omap (fun i => index !! i.2) (rev mapCheckpoints)).

(** the genesis block, the checkpoints, whether they are enabled, the local time *)
Context (hashGenesisBlock : uint256) (mapCheckpoints : list (Z * uint256)) (fCheckpointsEnabled : bool) (GetTime : Z).

Definition header_times (block : CBlockHeader) (nHeight medianTimePast : Z) : M VS bool :=
  if GetBlockTime block <=? medianTimePast then Invalid false INVALID "time-too-old"
  else if isFutureTimeStampActive net nHeight && (medianTimePast + MAX_FUTURE_BLOCK_TIME_MTP <? GetBlockTime block)
  then Invalid false INVALID "time-too-far-ahead-of-mtp"
  else if GetTime + MAX_FUTURE_BLOCK_TIME_LOCAL <? GetBlockTime block then Invalid false INVALID "time-too-new"
  else ret true.

Definition header_checkpoint (st : NodeStore) (index : gmap uint256 ptr) (nHeight : Z) : M VS bool :=
  if fCheckpointsEnabled then
    match GetLastCheckpoint mapCheckpoints index with
    | None => ret true
    | Some p =>
        match st !! p with
        | None => fail null_pointer
        | Some e => if nHeight <? px_nHeight e then DoS 100 false OK EmptyString false else ret true
        end
    end
  else ret true.

Definition header_version (block : CBlockHeader) (nHeight : Z) : M VS bool :=
  if negb (isValidBlockVersion net nHeight (hd_nVersion block)) then Invalid false INVALID "bad-version"
  else if (hd_nVersion block =? BLOCK_VERSION_SC_SUPPORT) && negb (FE_IsValid (uint_bytes (hashScTxsCommitment block)))
  then reject 100 INVALID "invalid-sc-txs-commitment"
  else ret true.

Definition ContextualCheckBlockHeader (st : NodeStore) (index : gmap uint256 ptr) (block : CBlockHeader) (pindexPrev : option ptr) : M VS bool :=
  if header_GetHash block =? hashGenesisBlock then ret true
  else
    match pindexPrev with
    | None => fail AssertFailed
    | Some p =>
        match st !! p with
        | None => fail null_pointer
        | Some prev =>
            let nHeight := px_nHeight prev + 1 in
            let* bits := lift (GetNextWorkRequired st (Some p) pow) in
            if negb (hd_nBits block =? bits) then reject 100 INVALID "bad-diffbits"
            else
              let* medianTimePast := lift (GetMedianTimePast st p) in
              header_times block nHeight medianTimePast ;&& header_checkpoint st index nHeight ;&& header_version block nHeight
        end
    end.

(** *** The coinbase *)
Definition coinbase_height (block : CBlock) (nHeight : Z) : M VS bool :=
  if 0 <? nHeight then
    let expect := push_int64 [] nHeight in
    match vtx block with
    | cb :: _ =>
        match tx_vin cb with
        | i :: _ =>
            if (vsize (scriptSig i) <? vsize expect) || negb (bool_decide (take (length expect) (scriptSig i) = expect))
            then reject 100 INVALID "bad-cb-height" else ret true
        | [] => fail bad_index
        end
    | [] => fail bad_index
    end
  else ret true.

Definition community_funds : list CommunityFundType := [FOUNDATION; SECURENODE; SUPERNODE].

Definition coinbase_pays (block : CBlock) (nHeight : Z) (reward : CAmount) (cfType : CommunityFundType) : M VS bool :=
  let communityReward := getCommunityFundReward net nHeight reward cfType in
  if 0 <? communityReward then
    let* refScript := lift (GetCommunityFundScriptAtHeight net nHeight cfType) in
    match vtx block with
    | [] => fail bad_index
    | cb :: _ =>
        if existsb (fun o => bool_decide (scriptPubKey o = refScript) && (out_nValue o =? communityReward)) (tx_vout cb) then ret true
        else reject 100 INVALID "cb-no-community-fund"
    end
  else ret true.

Definition next_height (st : NodeStore) (pindexPrev : option ptr) : res Z :=
  match pindexPrev with
  | None => Ok 0
  | Some p => match st !! p with Some e => Ok (px_nHeight e + 1) | None => Err null_pointer end
  end.

Definition ContextualCheckBlock (st : NodeStore) (block : CBlock) (pindexPrev : option ptr) : M VS bool :=
  let* nHeight := lift (next_height st pindexPrev) in
  for_each (vtx block) (fun tx =>
    tx_ContextualCheck tx nHeight 100
    ;&& if negb (IsFinalTx (nLockTime tx) (tx_vin tx) nHeight (GetBlockTime (header block)))
        then reject 10 INVALID "bad-txns-nonfinal" else ret true)
  ;&& for_each (vcert block) (fun c => cert_ContextualCheck c nHeight 100)
  ;&& coinbase_height block nHeight
  ;&& if isAfterChainsplit net nHeight && negb (isAfterChainsplit net (nHeight - 1))
         && (GetBlockTime (header block) <? getMinimumTime net nHeight)
      then reject 10 INVALID "bad-cs-time"
      else
        let* reward := lift (GetBlockSubsidy nHeight (GetConsensus net)) in
        for_each community_funds (coinbase_pays block nHeight reward).
End Transactions.

(** * Laws *)
(** ** The order of certificates *)
(** certificates of one sidechain are of one epoch and of growing quality *)
Definition ordered (l : list CScCertificate) : Prop :=
  forall i j a b, (i < j)%nat -> l !! i = Some a -> l !! j = Some b -> cert_scId a = cert_scId b ->
  epochNumber a = epochNumber b /\ quality a < quality b.

(** they also follow the ones already seen *)
Definition follows (best : gmap Z (Z * Z)) (l : list CScCertificate) : Prop :=
  forall c e q, c ∈ l -> best !! cert_scId c = Some (e, q) -> epochNumber c = e /\ q < quality c.

Lemma ordered_cons c l : ordered (c :: l) <->
  ordered l /\ forall b, b ∈ l -> cert_scId c = cert_scId b -> epochNumber c = epochNumber b /\ quality c < quality b.
Proof.
  split.
  - intros Ho. split; [intros i j a b Hij Ha Hb; apply (Ho (S i) (S j)); [lia|done..]|].
    intros b [j Hj]%list_elem_of_lookup. apply (Ho 0%nat (S j)); [lia|done..].
  - intros [Ho Hc] [|i] [|j] a b Hij Ha Hb; [lia| |lia|].
    + injection Ha as ->. apply Hc. apply list_elem_of_lookup. by exists j.
    + apply (Ho i j); [lia|done..].
Qed.

Lemma follows_cons best c l : follows best (c :: l) /\ ordered (c :: l) <->
  (forall e q, best !! cert_scId c = Some (e, q) -> epochNumber c = e /\ q < quality c)
  /\ follows (<[cert_scId c := (epochNumber c, quality c)]> best) l /\ ordered l.
Proof.
  rewrite ordered_cons. split.
  - intros [Hf [Ho Hc]]. split; [intros e q; apply Hf; by constructor|]. split; [|done]. intros b e q Hb.
    destruct (decide (cert_scId b = cert_scId c)) as [E|E].
    + rewrite E, lookup_insert_eq. intros [= <- <-]. destruct (Hc b Hb (eq_sym E)). lia.
    + rewrite lookup_insert_ne by done. apply Hf. by constructor.
  - intros (Hhead & Hf & Ho). assert (Hc : forall b, b ∈ l -> cert_scId c = cert_scId b -> epochNumber c = epochNumber b /\ quality c < quality b).
    { intros b Hb E. destruct (Hf b (epochNumber c) (quality c) Hb); [by rewrite <- E, lookup_insert_eq|]. lia. }
    split; [|done]. intros b e q [->|Hb]%elem_of_cons He; [by apply Hhead|].
    destruct (decide (cert_scId b = cert_scId c)) as [E|E].
    + rewrite E in He. destruct (Hhead e q He). destruct (Hc b Hb (eq_sym E)). lia.
    + apply (Hf b e q Hb). by rewrite lookup_insert_ne.
Qed.

Lemma check_order_spec l best st :
  exists r st', for_acc l best check_order st = Ok (r, st')
    /\ (is_Some r <-> follows best l /\ ordered l) /\ (is_Some r -> st' = st) /\ (r = None -> mode st' <> VALID).
Proof.
  revert best. induction l as [|c l IH]; intros best.
  { exists (Some best), st. split_and!; [done| |done..]. split; [|by eexists]. intros _.
    split; [by intros ? ? ? ?%not_elem_of_nil|by intros [|?] [|?] ? ? ?]. }
  cbn [for_acc]. setoid_rewrite (follows_cons best c l). unfold check_order at 1.
  assert (Hno : forall reason, exists st', bind (bind (reject 100 INVALID reason) (fun _ => ret None))
      (fun r => match r with Some acc' => for_acc l acc' check_order | None => ret None end) st = Ok (None, st') /\ mode st' <> VALID).
  { intros reason. destruct (reject_false 100 INVALID reason st) as (st' & E & Hm). exists st'. unfold bind. by rewrite E. }
  destruct (best !! cert_scId c) as [[e q]|] eqn:Eb.
  - destruct (Z.eqb_spec e (epochNumber c)) as [->|He]; cbn [negb].
    + destruct (Z.leb_spec (quality c) q) as [Hq|Hq].
      * destruct (Hno "bad-cert-quality-in-block"%string) as (st' & E & Hm). rewrite E. exists None, st'. split_and!; [done| |by intros []|done].
        split; [by intros []|]. intros [Hh _]. destruct (Hh _ _ eq_refl). lia.
      * destruct (IH (<[cert_scId c := (epochNumber c, quality c)]> best)) as (r & st' & E & H1 & H2). exists r, st'. split; [exact E|].
        split; [|done]. rewrite H1. split; [|tauto]. intros Hf. split; [|done]. intros e' q' [= <- <-]. lia.
    + destruct (Hno "bad-cert-epoch"%string) as (st' & E & Hm). rewrite E. exists None, st'. split_and!; [done| |by intros []|done].
      split; [by intros []|]. intros [Hh _]. destruct (Hh _ _ eq_refl). lia.
  - destruct (IH (<[cert_scId c := (epochNumber c, quality c)]> best)) as (r & st' & E & H1 & H2). exists r, st'. split; [exact E|].
    split; [|done]. rewrite H1. split; [|tauto]. intros Hf. split; [|done]. intros e' q' [=].
Qed.

Lemma ordering_spec (l : list CScCertificate) (st : CValidationState) :
  exists b st', CheckCertificatesOrdering l st = Ok (b, st')
    /\ (b = true <-> ordered l) /\ (b = true -> st' = st) /\ (b = false -> mode st' <> VALID).
Proof.
  destruct (check_order_spec l ∅ st) as (r & st' & E & H1 & H2 & H3). exists (bool_decide (is_Some r)), st'.
  unfold CheckCertificatesOrdering, bind. rewrite E. split; [by destruct r|]. rewrite bool_decide_eq_true, bool_decide_eq_false. split_and!.
  - rewrite H1. split; [tauto|]. intros Ho. split; [|done]. intros c e q _. by rewrite lookup_empty.
  - done.
  - intros Hn. apply H3. destruct r; [|done]. by destruct Hn.
Qed.

(** ** Certificates of highest quality *)
(** [c] is the last certificate of its sidechain *)
Fixpoint top_certs (l : list CScCertificate) (visited : gset Z) : list CScCertificate :=
  match l with
  | [] => []
  | c :: l' => if decide (cert_scId c ∈ visited) then top_certs l' visited else c :: top_certs l' ({[cert_scId c]} ∪ visited)
  end.

Lemma high_quality_known prev l visited r (h : CScCertificate -> uint256) :
  (forall c, c ∈ l -> prev c = Ok (Some (h c))) ->
  high_quality prev l visited r = Ok (foldl (fun r c => <[cert_hash c := h c]> r) r (top_certs l visited)).
Proof.
  revert visited r. induction l as [|c l IH]; intros visited r Hp; [done|]. cbn [high_quality top_certs].
  assert (Hl : forall c', c' ∈ l -> prev c' = Ok (Some (h c'))) by (intros c' Hc'; apply Hp; by constructor).
  destruct (decide (cert_scId c ∈ visited)); [by apply IH|]. rewrite Hp by constructor. cbn [res_bind foldl]. by apply IH.
Qed.

(** the sidechains of the certificates are known and the undo data records their last certificates *)
Definition undo_records (vcert : list CScCertificate) (sidechain : uint256 -> option CSidechain) (undo : CBlockUndo) : Prop :=
  forall c, c ∈ vcert -> exists s u, sidechain (cert_scId c) = Some s /\ scUndoDatabyScId undo !! cert_scId c = Some u
    /\ prevTopCommittedCertReferencedEpoch u = lastTopQualityCertReferencedEpoch s /\ prevTopCommittedCertHash u = lastTopQualityCertHash s.

Lemma high_quality_agree vcert sidechain undo : undo_records vcert sidechain undo ->
  exists r, HighQualityCertData_connect vcert sidechain = Ok r /\ HighQualityCertData_disconnect vcert undo = Ok r.
Proof.
  intros Hu. unfold HighQualityCertData_connect, HighQualityCertData_disconnect.
  set (h := fun c => match sidechain (cert_scId c) with
                     | Some s => if epochNumber c =? lastTopQualityCertReferencedEpoch s then lastTopQualityCertHash s else 0
                     | None => 0
                     end).
  assert (Hin : forall c, c ∈ rev vcert -> c ∈ vcert) by (intros c Hc; by apply list_elem_of_In, in_rev, list_elem_of_In in Hc).
  rewrite (high_quality_known _ _ _ _ h). 2:{ intros c Hc. destruct (Hu c (Hin c Hc)) as (s & u & Hs & _). unfold h. by rewrite Hs. }
  rewrite (high_quality_known _ _ _ _ h); [by eexists|]. intros c Hc. destruct (Hu c (Hin c Hc)) as (s & u & Hs & Hu' & H1 & H2).
  unfold h. by rewrite Hs, Hu', H1, H2.
Qed.

(** ** Checks that pass *)
Lemma andb_M_true {S} (m k : M S bool) st st' :
  (m ;&& k) st = Ok (true, st') -> exists st1, m st = Ok (true, st1) /\ k st1 = Ok (true, st').
Proof. unfold andb_M, bind. destruct (m st) as [[[] st1]|]; [|done..]. intros Hk. by exists st1. Qed.

Lemma bind_inv {S A B} (m : M S A) (k : A -> M S B) st b st' :
  bind m k st = Ok (b, st') -> exists a st1, m st = Ok (a, st1) /\ k a st1 = Ok (b, st').
Proof. unfold bind. destruct (m st) as [[a st1]|]; [|done]. intros Hk. by exists a, st1. Qed.

Lemma lift_inv {S A} (r : res A) (st st' : S) a : lift r st = Ok (a, st') -> r = Ok a /\ st' = st.
Proof. unfold lift. destruct r; [|done]. intros H. apply Ok_inj in H. by injection H as -> ->. Qed.

Lemma for_each_true {S A} (f : A -> M S bool) l st st' :
  for_each l f st = Ok (true, st') -> Forall (fun x => exists s s', f x s = Ok (true, s')) l.
Proof.
  revert st. induction l as [|x l IH]; intros st; [constructor|]. cbn [for_each]. intros (ok & st1 & H1 & H2)%bind_inv.
  destruct ok; [|done]. constructor; [eauto|]. by eapply IH.
Qed.

Lemma DoS_true level code reason c st st' : DoS level false code reason c st = Ok (true, st') -> False.
Proof. unfold DoS. by destruct (mode st). Qed.

(** a test that rejects *)
Lemma test_true (b : bool) level code reason c (k : M CValidationState bool) st st' :
  (if b then DoS level false code reason c else k) st = Ok (true, st') -> b = false /\ k st = Ok (true, st').
Proof. destruct b; [by intros ?%DoS_true|done]. Qed.

(** ** Heights in the coinbase *)
Lemma push_height n : 0 < n < 2 ^ 31 ->
  (n <= 16 /\ push_int64 [] n = [n + (OP_1 - 1)])
  \/ (16 < n /\ push_int64 [] n = vsize (num_serialize n) :: num_serialize n /\ 0 < vsize (num_serialize n) <= 4).
Proof.
  intros Hn. destruct (Z.leb_spec n 16) as [Hs|Hl]; [left; split; [done|apply push_int64_small; lia]|right].
  assert (Hsz : vsize (num_serialize n) <= 4) by (apply num_serialize_4; lia).
  assert (Hpos : 0 < vsize (num_serialize n)).
  { destruct (num_serialize n) as [|x l] eqn:E; [|unfold vsize; cbn; lia]. pose proof (set_vch_serialize n) as Hv. rewrite E in Hv.
    assert (Ok 0 = Ok n) as [= <-] by (apply Hv; unfold is_i64; lia). lia. }
  split; [done|]. split; [|lia]. rewrite push_int64_large by lia. unfold push_data. unfold OP_PUSHDATA1.
  rewrite (proj2 (Z.ltb_lt _ _)) by lia. done.
Qed.

Lemma push_height_inj n m s : 0 < n < 2 ^ 31 -> 0 < m < 2 ^ 31 ->
  take (length (push_int64 [] n)) s = push_int64 [] n -> take (length (push_int64 [] m)) s = push_int64 [] m -> n = m.
Proof.
  intros Hn Hm En Em. destruct (push_height n Hn) as [[Hn1 Pn]|(Hn1 & Pn & Sn)], (push_height m Hm) as [[Hm1 Pm]|(Hm1 & Pm & Sm)];
    rewrite Pn in En; rewrite Pm in Em; destruct s as [|x s]; try done; cbn [take length] in En, Em;
    pose proof (f_equal (fun l => nth 0 l 0) En) as Ex; pose proof (f_equal (fun l => nth 0 l 0) Em) as Ey; cbn [nth] in Ex, Ey.
  - lia.
  - lia.
  - lia.
  - assert (Hl : length (num_serialize n) = length (num_serialize m)) by (unfold vsize in *; lia).
    apply (f_equal (drop 1)) in En, Em. cbn [drop] in En, Em. rewrite !drop_0 in En, Em. rewrite Hl, Em in En.
    pose proof (set_vch_serialize n ltac:(unfold is_i64; lia)) as Vn. pose proof (set_vch_serialize m ltac:(unfold is_i64; lia)) as Vm.
    rewrite <- En, Vm in Vn. by injection Vn.
Qed.

(** C22: the certificates of a block are in order exactly when any two of one sidechain
    are of the same epoch and the later one has the higher quality. The loop of
    [CheckCertificatesOrdering], which remembers only the last certificate of each
    sidechain, decides it, leaves the state alone when it accepts and records the
    rejection otherwise. *)
Theorem certificates_ordering_exact (l : list CScCertificate) (st : CValidationState) :
  exists b st', CheckCertificatesOrdering l st = Ok (b, st')
    /\ (b = true <-> forall i j a c, (i < j)%nat -> l !! i = Some a -> l !! j = Some c -> cert_scId a = cert_scId c ->
                     epochNumber a = epochNumber c /\ quality a < quality c)
    /\ (b = true -> st' = st) /\ (b = false -> mode st' <> VALID).
Proof. apply ordering_spec. Qed.

Lemma coinbase_height_true block h st st' : 0 < h -> coinbase_height block h st = Ok (true, st') ->
  exists cb txs i ins, vtx block = cb :: txs /\ tx_vin cb = i :: ins /\ take (length (push_int64 [] h)) (scriptSig i) = push_int64 [] h.
Proof.
  intros Hh. unfold coinbase_height. rewrite (proj2 (Z.ltb_lt 0 h)) by done. destruct (vtx block) as [|cb txs]; [done|].
  destruct (tx_vin cb) as [|i ins] eqn:Ei; [done|]. intros [Ht _]%test_true. exists cb, txs, i, ins. split_and!; [done..|].
  apply orb_false_iff in Ht as [_ Ht]. by apply negb_false_iff, bool_decide_eq_true in Ht.
Qed.

Lemma coinbase_pays_true env block h reward cf st st' :
  0 < getCommunityFundReward (env_net env) h reward cf -> coinbase_pays env block h reward cf st = Ok (true, st') ->
  exists cb txs script o, vtx block = cb :: txs /\ GetCommunityFundScriptAtHeight (env_net env) h cf = Ok script /\ o ∈ tx_vout cb
    /\ scriptPubKey o = script /\ out_nValue o = getCommunityFundReward (env_net env) h reward cf.
Proof.
  intros Hr. unfold coinbase_pays. rewrite (proj2 (Z.ltb_lt 0 _)) by done. intros (script & st1 & [Hs ->]%lift_inv & Hp)%bind_inv.
  destruct (vtx block) as [|cb txs]; [done|]. destruct (existsb _ (tx_vout cb)) eqn:Ex; [|by apply DoS_true in Hp].
  apply existsb_exists in Ex as (o & Ho & [Ho1 Ho2]%andb_true_iff). exists cb, txs, script, o.
  split_and!; [done..|by apply list_elem_of_In|by apply bool_decide_eq_true in Ho1|by apply Z.eqb_eq].
Qed.

(** what acceptance says of the coinbase *)
Lemma contextual_coinbase env nodes block prev h st st' :
  next_height nodes prev = Ok h -> ContextualCheckBlock env nodes block prev st = Ok (true, st') ->
  (exists s s', coinbase_height block h s = Ok (true, s'))
  /\ exists reward, GetBlockSubsidy h (GetConsensus (env_net env)) = Ok reward
     /\ forall cf, exists s s', coinbase_pays env block h reward cf s = Ok (true, s').
Proof.
  intros Hh. unfold ContextualCheckBlock. intros (h' & st0 & [Hh' ->]%lift_inv & Hk)%bind_inv. assert (h' = h) as -> by congruence.
  apply andb_M_true in Hk as (s1 & _ & Hk). apply andb_M_true in Hk as (s2 & _ & Hk). apply andb_M_true in Hk as (s3 & Hc & Hk).
  split; [eauto|]. apply test_true in Hk as [_ Hk]. apply bind_inv in Hk as (reward & s4 & [Hr ->]%lift_inv & Hk). exists reward. split; [done|].
  apply for_each_true in Hk. intros cf. rewrite list.Forall_forall in Hk. apply Hk. destruct cf; set_solver.
Qed.

(** C21: what the rules of a block at its height say of its coinbase. The script of its first
    input starts with the push of the height, an encoding that no other height shares a
    beginning with, so that two accepted blocks at different heights never have the same
    coinbase transaction; and for each community fund with a share of the subsidy at that
    height one of its outputs pays exactly the share to the script of the fund. *)
Theorem coinbase_rules (env : ScriptEnv) (nodes nodes' : NodeStore) (b b' : CBlock) (prev prev' : option ptr) (h h' : Z)
    (st st1 st2 st3 : CValidationState) :
  next_height nodes prev = Ok h -> next_height nodes' prev' = Ok h' -> 0 < h < 2 ^ 31 -> 0 < h' < 2 ^ 31 ->
  ContextualCheckBlock env nodes b prev st = Ok (true, st1) -> ContextualCheckBlock env nodes' b' prev' st2 = Ok (true, st3) ->
  (exists cb txs i ins extra, vtx b = cb :: txs /\ tx_vin cb = i :: ins /\ scriptSig i = push_int64 [] h ++ extra)
  /\ (h <> h' -> head (vtx b) <> head (vtx b'))
  /\ exists reward, GetBlockSubsidy h (GetConsensus (env_net env)) = Ok reward
     /\ forall cf, 0 < getCommunityFundReward (env_net env) h reward cf ->
        exists cb txs script o, vtx b = cb :: txs /\ GetCommunityFundScriptAtHeight (env_net env) h cf = Ok script /\ o ∈ tx_vout cb
          /\ scriptPubKey o = script /\ out_nValue o = getCommunityFundReward (env_net env) h reward cf.
Proof.
  intros Hn Hn' Hh Hh' H1 H2. destruct (contextual_coinbase _ _ _ _ _ _ _ Hn H1) as [(s & s' & Hc) (reward & Hr & Hp)].
  destruct (contextual_coinbase _ _ _ _ _ _ _ Hn' H2) as [(s2 & s2' & Hc') _].
  destruct (coinbase_height_true _ _ _ _ (proj1 Hh) Hc) as (cb & txs & i & ins & Hv & Hi & Ht).
  destruct (coinbase_height_true _ _ _ _ (proj1 Hh') Hc') as (cb' & txs' & i' & ins' & Hv' & Hi' & Ht'). split_and!.
  - exists cb, txs, i, ins, (drop (length (push_int64 [] h)) (scriptSig i)). split_and!; [done..|]. rewrite <- Ht at 1. by rewrite take_drop.
  - rewrite Hv, Hv'. cbn [head]. intros Hne [= <-]. assert (i' = i) as -> by congruence. apply Hne. by eapply push_height_inj.
  - exists reward. split; [done|]. intros cf Hcf. destruct (Hp cf) as (s3 & s3' & Hpay). by eapply coinbase_pays_true.
Qed.

(** two blocks of the main network: one of its first days, and one whose coinbase pays every fund *)
Definition early_env : ScriptEnv := mkEnv MAIN [] 100 true 80.

Definition fund_output (h : Z) (cf : CommunityFundType) : list CTxOut :=
  match GetBlockSubsidy h (GetConsensus MAIN), GetCommunityFundScriptAtHeight MAIN h cf with
  | Ok reward, Ok script => [mkTxOut (getCommunityFundReward MAIN h reward cf) script]
  | _, _ => []
  end.

Definition fund_block (h : Z) : CBlock :=
  mkBlock header_SetNull [mkTx 1 [mkTxIn (mkOutPoint 0 (2 ^ 32 - 1)) (push_int64 [] h) 0xffffffff] (concat (map (fund_output h) community_funds)) 0 [] 0 [] [] [] [] 0 null_sig] [] [].

Definition early_block (h : Z) : CBlock :=
  mkBlock header_SetNull [mkTx 1 [mkTxIn (mkOutPoint 0 (2 ^ 32 - 1)) (push_int64 [] h) 0xffffffff] [mkTxOut 5 [0x51]] 0 [] 0 [] [] [] [] 0 null_sig] [] [].

Definition early_nodes : NodeStore := {[ 1 := set_nHeight 499999 node_SetNull; 2 := set_nHeight 299 node_SetNull ]}.

Lemma coinbase_rules_witness :
  (exists cb txs i ins extra, vtx (fund_block 500000) = cb :: txs /\ tx_vin cb = i :: ins /\ scriptSig i = push_int64 [] 500000 ++ extra)
  /\ (500000 <> 300 -> head (vtx (fund_block 500000)) <> head (vtx (early_block 300)))
  /\ (exists reward, GetBlockSubsidy 500000 (GetConsensus MAIN) = Ok reward
     /\ forall cf, 0 < getCommunityFundReward MAIN 500000 reward cf ->
        exists cb txs script o, vtx (fund_block 500000) = cb :: txs /\ GetCommunityFundScriptAtHeight MAIN 500000 cf = Ok script /\ o ∈ tx_vout cb
          /\ scriptPubKey o = script /\ out_nValue o = getCommunityFundReward MAIN 500000 reward cf)
  /\ map (getCommunityFundReward MAIN 500000 (25 * COIN / 2)) community_funds = [250000000; 125000000; 125000000].
Proof.
  destruct (coinbase_rules early_env early_nodes early_nodes (fund_block 500000) (early_block 300) (Some 1) (Some 2) 500000 300
           CValidationState_init CValidationState_init CValidationState_init CValidationState_init
           ltac:(vm_compute; reflexivity) ltac:(vm_compute; reflexivity) ltac:(lia) ltac:(lia)
           ltac:(vm_compute; reflexivity) ltac:(vm_compute; reflexivity)) as (H1 & H2 & H3).
  split; [exact H1|]. split; [exact H2|]. split; [exact H3|vm_compute; reflexivity].
Defined.

(** ** Accepted blocks *)
Section Accepted.
  Context `{ZendooLib} `{NodeConfig}.
  Context (js_Verify : JSDescription -> uint256 -> bool) (crypto_sign_verify_detached : bytes -> bytes -> uint256 -> bool).
  Context (CheckEquihashSolution : CBlockHeader -> bool) (pow : PowParams).
  Local Notation CheckBlock := (CheckBlock js_Verify crypto_sign_verify_detached CheckEquihashSolution pow).

Definition tx_sound (tx : CTransaction) : Prop :=
  (MIN_OLD_TX_VERSION <= tx_nVersion tx \/ tx_nVersion tx = GROTH_TX_VERSION \/ tx_nVersion tx = SC_TX_VERSION)
  /\ amounts_ok tx = true /\ NoDup (map prevout (tx_vin tx)) /\ NoDup (concat (map nullifiers (vjoinsplit tx)))
  /\ NoDup (map csw_nullifier (vcsw_ccin tx)).

Lemma CheckTransaction_true tx st st' : CheckTransaction js_Verify crypto_sign_verify_detached tx st = Ok (true, st') -> tx_sound tx.
Proof.
  intros (s1 & Hw & _)%andb_M_true. apply andb_M_true in Hw as (s2 & Hv & Hw). apply andb_M_true in Hw as (s3 & _ & Hw).
  apply andb_M_true in Hw as (s4 & _ & Hw). apply andb_M_true in Hw as (s5 & Ha & Hw). apply andb_M_true in Hw as (s6 & Hd & _). split; [|split].
  - unfold IsValidVersion in Hv. apply test_true in Hv as [Hv _]. unfold IsScVersion in Hv. zbool. lia.
  - pose proof (CheckAmounts_spec tx s4) as Hs. destruct (amounts_ok tx); [done|]. destruct Hs as (? & Hs & _). congruence.
  - destruct (CheckInputsDuplication_spec tx s5) as (b & s7 & E & Hb & _). rewrite E in Hd. injection Hd as -> _. by apply Hb.
Qed.

Lemma check_coinbase_true block st st' : check_coinbase block st = Ok (true, st') ->
  exists cb txs, vtx block = cb :: txs /\ IsCoinBase cb = true /\ Forall (fun tx => IsCoinBase tx = false) txs.
Proof.
  unfold check_coinbase. destruct (vtx block) as [|cb txs]; [by intros ?%DoS_true|]. intros [Hc Hk]%test_true.
  apply negb_false_iff in Hc. exists cb, txs. split_and!; [done..|]. apply for_each_true in Hk. eapply Forall_impl; [exact Hk|].
  cbn. intros tx (s & s' & Ht). by apply test_true in Ht as [? _].
Qed.

Lemma check_size_true block st st' : check_size block st = Ok (true, st') ->
  exists size hd txs certs, GetSerializeComponentsSize block = Ok (size, hd, txs, certs)
    /\ size <= MAX_BLOCK_SIZE /\ (hd_nVersion (header block) <> BLOCK_VERSION_SC_SUPPORT -> size <= MAX_BLOCK_SIZE_BEFORE_SC)
    /\ (hd_nVersion (header block) = BLOCK_VERSION_SC_SUPPORT -> txs <= BLOCK_TX_PARTITION_SIZE).
Proof.
  unfold check_size. intros ([[[size hd] txs] certs] & s1 & [Hs ->]%lift_inv & Hk)%bind_inv. exists size, hd, txs, certs. split; [done|].
  apply test_true in Hk as [Hl Hk]. apply orb_false_iff in Hl as [_ Hl]. apply Z.ltb_ge in Hl.
  unfold MAX_BLOCK_SIZE, MAX_BLOCK_SIZE_BEFORE_SC in *. destruct (Z.eqb_spec (hd_nVersion (header block)) BLOCK_VERSION_SC_SUPPORT); cbn [negb andb] in *.
  - destruct (Z.ltb_spec BLOCK_TX_PARTITION_SIZE txs); [done|]. split_and!; [lia|done|done].
  - split_and!; [lia|lia|done].
Qed.

Lemma check_merkle_true block st st' : check_merkle_root block st = Ok (true, st') ->
  (BuildMerkleTree hash_nodes block).1 = (hashMerkleRoot (header block), false).
Proof.
  unfold check_merkle_root. destruct (BuildMerkleTree hash_nodes block) as [[root mutated] b]. intros [Hr Hm]%test_true.
  apply test_true in Hm as [-> _]. apply negb_false_iff, Z.eqb_eq in Hr. by rewrite Hr.
Qed.

(** the facts the checks of a block establish *)
Record sound_block (fCheckPOW : bool) (block : CBlock) : Prop := {
  sb_pow : fCheckPOW = true -> CheckEquihashSolution (header block) = true
    /\ CheckProofOfWork (header_GetHash (header block)) (hd_nBits (header block)) pow = true;
  sb_root : (BuildMerkleTree hash_nodes block).1 = (hashMerkleRoot (header block), false);
  sb_size : exists size hd txs certs, GetSerializeComponentsSize block = Ok (size, hd, txs, certs)
    /\ size <= MAX_BLOCK_SIZE /\ (hd_nVersion (header block) <> BLOCK_VERSION_SC_SUPPORT -> size <= MAX_BLOCK_SIZE_BEFORE_SC)
    /\ (hd_nVersion (header block) = BLOCK_VERSION_SC_SUPPORT -> txs <= BLOCK_TX_PARTITION_SIZE);
  sb_coinbase : exists cb txs, vtx block = cb :: txs /\ IsCoinBase cb = true /\ Forall (fun tx => IsCoinBase tx = false) txs;
  sb_txs : Forall tx_sound (vtx block);
  sb_certs : ordered (vcert block);
  sb_cert_versions : Forall (fun c => cert_nVersion c = SC_CERT_VERSION) (vcert block);
  sb_sigops : exists n, block_sigops block = Ok n /\ n <= MAX_BLOCK_SIGOPS }.

Lemma CheckBlock_true fCheckPOW block st st' : CheckBlock block fCheckPOW true st = Ok (true, st') -> sound_block fCheckPOW block.
Proof.
  intros (s1 & Hh & Hk)%andb_M_true. apply andb_M_true in Hk as (s2 & Hm & Hk). apply andb_M_true in Hk as (s3 & Hs & Hk).
  apply andb_M_true in Hk as (s4 & Hc & Hk). apply andb_M_true in Hk as (s5 & Ht & Hk). apply andb_M_true in Hk as (s6 & Ho & Hk).
  apply andb_M_true in Hk as (s7 & Hct & Hk). split.
  - intros ->. unfold CheckBlockHeader in Hh. apply test_true in Hh as [_ Hh]. apply test_true in Hh as [He Hh].
    apply test_true in Hh as [Hp _]. cbn [andb] in *. by apply negb_false_iff in He, Hp.
  - by eapply check_merkle_true.
  - by eapply check_size_true.
  - by eapply check_coinbase_true.
  - apply for_each_true in Ht. eapply Forall_impl; [exact Ht|]. cbn. intros tx (s & s' & Htx). by eapply CheckTransaction_true.
  - destruct (ordering_spec (vcert block) s5) as (b & s & E & Hb & _). rewrite E in Ho. injection Ho as -> _. by apply Hb.
  - apply for_each_true in Hct. eapply Forall_impl; [exact Hct|]. cbn. intros c (s & s' & (s8 & Hcv & _)%andb_M_true).
    unfold cert_IsValidVersion in Hcv. apply test_true in Hcv as [Hcv _]. by apply negb_false_iff, Z.eqb_eq in Hcv.
  - unfold check_sigops in Hk. apply bind_inv in Hk as (n & s & [Hn ->]%lift_inv & Hk). exists n. split; [done|].
    apply test_true in Hk as [Hk _]. by apply Z.ltb_ge in Hk.
Qed.

(** the bytes whose hashes are the leaves of the tree *)
Definition wire_objects (b : CBlock) : list (res bytes) := map tx_ser (vtx b) ++ map cert_ser (vcert b).

Section Contents.
  Context (compute_sc_id : uint256 -> Z -> option uint256).

Lemma tx_leaf tx : tx_ok tx -> tx_current compute_sc_id tx ->
  exists b, tx_ser tx = Ok b /\ tx_hash tx = hash_of b /\ tx_unser compute_sc_id b = Ok (tx, [])
    /\ exists rest, unser s_i32 b = Ok (tx_nVersion tx, rest).
Proof.
  intros Hok Hcur. destruct (tx_writes compute_sc_id tx (conj Hok Hcur)) as (b & Hb & Hr). exists b. split; [done|]. split_and!.
  - unfold tx_current, tx_UpdateHash in Hcur. rewrite Hb in Hcur. cbn [res_bind] in Hcur.
    destruct (generate_ids _ _ _ _); [|done]. cbn [res_bind] in Hcur. injection Hcur as Hcur. by rewrite <- Hcur at 1.
  - specialize (Hr []). by rewrite app_nil_r in Hr.
  - unfold tx_ser in Hb. destruct (tx_ser_internal tx) as [c|]; [|done]. rewrite join_ok in Hb. apply Ok_inj in Hb as <-.
    exists c. apply (unser_ser (s := s_i32)). apply Hok.
Qed.

Lemma cert_leaf c : cert_ok c -> cert_current c ->
  exists b, cert_ser c = Ok b /\ cert_hash c = hash_of b /\ cert_unser b = Ok (c, [])
    /\ exists rest, unser s_i32 b = Ok (cert_nVersion c, rest).
Proof.
  intros Hok Hcur. destruct (cert_writes c (conj Hok Hcur)) as (b & Hb & Hr). exists b. split; [done|]. split_and!.
  - unfold cert_current, cert_UpdateHash in Hcur. rewrite Hb in Hcur. cbn [res_bind] in Hcur. injection Hcur as Hcur. by rewrite <- Hcur at 1.
  - specialize (Hr []). by rewrite app_nil_r in Hr.
  - unfold cert_ser in Hb. destruct (res_bind _ _) as [r|]; [|done]. rewrite join_ok in Hb. apply Ok_inj in Hb as <-.
    unfold s_cert_head at 1, cert_head at 1. cbn [ser s_pair fst snd]. rewrite <- app_assoc. eexists. apply (unser_ser (s := s_i32)). apply Hok.
Qed.

Lemma maps_inj {A B C} (f : A -> C) (g : B -> C) l1 r1 l2 r2 :
  (forall a a', a ∈ l1 -> a' ∈ l2 -> f a = f a' -> a = a') -> (forall b b', b ∈ r1 -> b' ∈ r2 -> g b = g b' -> b = b') ->
  (forall a b, a ∈ l1 -> b ∈ r2 -> f a <> g b) -> (forall a b, a ∈ l2 -> b ∈ r1 -> f a <> g b) ->
  map f l1 ++ map g r1 = map f l2 ++ map g r2 -> l1 = l2 /\ r1 = r2.
Proof.
  intros Hf Hg. revert l2 Hf. induction l1 as [|a l1 IH]; intros [|a' l2] Hf Hx Hy; cbn [map app].
  - intros E. split; [done|]. clear Hx Hy Hf. revert r2 Hg E. induction r1 as [|b r1 IH]; intros [|b' r2] Hg E; try done.
    injection E as E1 E2. f_equal; [apply Hg; [left..|done]|]. apply IH; [|done]. intros ? ? H1 H2. apply Hg; by right.
  - destruct r1 as [|b r1]; [done|]. intros [= E _]. by destruct (Hy a' b ltac:(left) ltac:(left)).
  - destruct r2 as [|b r2]; [done|]. intros [= E _]. by destruct (Hx a b ltac:(left) ltac:(left)).
  - intros [= E1 E2]. destruct (IH l2) as [-> ->]; [intros ? ? ? ?; apply Hf; by right|intros; apply Hx; [by right|done]..|intros; apply Hy; [by right|done]|done|].
    split; [|done]. f_equal. apply Hf; [left..|done].
Qed.

(** Blocks as they are read from the wire: the leaves of the tree fix the contents unless two objects collide. *)
Lemma leaves_fix_contents pow1 pow2 b1 b2 :
  sound_block pow1 b1 -> sound_block pow2 b2 -> block_ok compute_sc_id b1 -> block_ok compute_sc_id b2 ->
  (forall x y, Ok x ∈ wire_objects b1 -> Ok y ∈ wire_objects b2 -> hash_of x = hash_of y -> x = y) ->
  block_hashes b1 = block_hashes b2 -> vtx b1 = vtx b2 /\ vcert b1 = vcert b2.
Proof.
  intros S1 S2 Hb1 Hb2 Hcoll. unfold block_hashes.
  assert (Htx : forall pow b, sound_block pow b -> block_ok compute_sc_id b -> forall tx, tx ∈ vtx b ->
    exists x, Ok x ∈ wire_objects b /\ tx_hash tx = hash_of x /\ tx_unser compute_sc_id x = Ok (tx, [])
      /\ exists v rest, unser s_i32 x = Ok (v, rest) /\ v <> SC_CERT_VERSION).
  { intros pow0 b S (_ & [_ Hall] & _) tx Hin. rewrite list.Forall_forall in Hall. destruct (Hall tx Hin) as [Hok Hcur].
    destruct (tx_leaf tx Hok Hcur) as (x & Hx & Hh & Hu & rest & Hv). exists x. split_and!; [|done..|].
    - apply elem_of_app. left. rewrite <- Hx. by apply list_elem_of_fmap_2.
    - exists (tx_nVersion tx), rest. split; [done|]. pose proof (sb_txs _ _ S) as Hs. rewrite list.Forall_forall in Hs.
      destruct (Hs tx Hin) as [Hver _]. unfold MIN_OLD_TX_VERSION, GROTH_TX_VERSION, SC_TX_VERSION, SC_CERT_VERSION in *. lia. }
  assert (Hct : forall pow b, sound_block pow b -> block_ok compute_sc_id b -> forall c, c ∈ vcert b ->
    exists x, Ok x ∈ wire_objects b /\ cert_hash c = hash_of x /\ cert_unser x = Ok (c, [])
      /\ exists rest, unser s_i32 x = Ok (SC_CERT_VERSION, rest)).
  { intros pow0 b S (_ & _ & Hall & _) c Hin.
    assert (Hc : cert_ok c /\ cert_current c).
    { destruct (_ =? _); [|rewrite Hall in Hin; by apply not_elem_of_nil in Hin]. destruct Hall as [_ Hall]. rewrite list.Forall_forall in Hall. by apply Hall. }
    destruct (cert_leaf c (proj1 Hc) (proj2 Hc)) as (x & Hx & Hh & Hu & rest & Hv). exists x. split_and!; [|done..|].
    - apply elem_of_app. right. rewrite <- Hx. by apply list_elem_of_fmap_2.
    - exists rest. pose proof (sb_cert_versions _ _ S) as Hs. rewrite list.Forall_forall in Hs. by rewrite <- (Hs c Hin). }
  intros E. eapply maps_inj; [..|exact E].
  - intros t1 t2 H1 H2 Hh. destruct (Htx _ _ S1 Hb1 t1 H1) as (x & Hx & Ex & Ux & _), (Htx _ _ S2 Hb2 t2 H2) as (y & Hy & Ey & Uy & _).
    assert (x = y) as -> by (apply Hcoll; congruence). congruence.
  - intros c1 c2 H1 H2 Hh. destruct (Hct _ _ S1 Hb1 c1 H1) as (x & Hx & Ex & Ux & _), (Hct _ _ S2 Hb2 c2 H2) as (y & Hy & Ey & Uy & _).
    assert (x = y) as -> by (apply Hcoll; congruence). congruence.
  - intros t c H1 H2 Hh. destruct (Htx _ _ S1 Hb1 t H1) as (x & Hx & Ex & _ & v & r & Vx & Hv), (Hct _ _ S2 Hb2 c H2) as (y & Hy & Ey & _ & r' & Vy).
    assert (x = y) as -> by (apply Hcoll; congruence). congruence.
  - intros t c H1 H2 Hh. destruct (Htx _ _ S2 Hb2 t H1) as (x & Hx & Ex & _ & v & r & Vx & Hv), (Hct _ _ S1 Hb1 c H2) as (y & Hy & Ey & _ & r' & Vy).
    assert (y = x) as -> by (apply Hcoll; congruence). congruence.
Qed.
End Contents.

(** C11: what [CheckBlock] lets through. An accepted block has a valid proof of work (when
    it is checked), a Merkle root computed from its contents without repetition, bounded
    size with a bounded part for transactions, exactly one coinbase, which is first,
    transactions of a known version with amounts in range and no input spent or nullifier
    revealed twice, certificates of their version and in order and a bounded number of
    signature operations. And its header fixes its contents: of two accepted blocks read
    from the wire, with the same root and trees of the same depth, the transactions are
    the same and the certificates are the same, unless the hash has a collision among the
    nodes of the two trees or among the serialized transactions and certificates. *)
Theorem accepted_block (compute_sc_id : uint256 -> Z -> option uint256) (fCheckPOW : bool) (block : CBlock) (st st' : CValidationState) :
  CheckBlock block fCheckPOW true st = Ok (true, st') ->
  sound_block fCheckPOW block
  /\ forall fCheckPOW2 block2 st2 st2' d,
     CheckBlock block2 fCheckPOW2 true st2 = Ok (true, st2') -> hashMerkleRoot (header block2) = hashMerkleRoot (header block) ->
     block_ok compute_sc_id block -> block_ok compute_sc_id block2 ->
     depth (block_hashes block) = d -> depth (block_hashes block2) = d ->
     (forall x y z w, x ∈ all_levels hash_nodes d (block_hashes block) -> y ∈ all_levels hash_nodes d (block_hashes block) ->
        z ∈ all_levels hash_nodes d (block_hashes block2) -> w ∈ all_levels hash_nodes d (block_hashes block2) ->
        hash_nodes x y = hash_nodes z w -> x = z /\ y = w) ->
     (forall x y, Ok x ∈ wire_objects block -> Ok y ∈ wire_objects block2 -> hash_of x = hash_of y -> x = y) ->
     vtx block = vtx block2 /\ vcert block = vcert block2.
Proof.
  intros H1. pose proof (CheckBlock_true _ _ _ _ H1) as S1. split; [done|].
  intros pow2 block2 st2 st2' d H2 Hroot Hok1 Hok2 Hd Hd2 Hinj Hcoll.
  pose proof (CheckBlock_true _ _ _ _ H2) as S2. destruct (sb_coinbase _ _ S1) as (cb & txs & Hv & _).
  destruct (sb_coinbase _ _ S2) as (cb2 & txs2 & Hv2 & _). eapply leaves_fix_contents; [exact S1|exact S2|exact Hok1|exact Hok2|exact Hcoll|].
  apply (merkle_binding_spec hash_nodes block block2 (hashMerkleRoot (header block)) d); try done.
  - unfold block_hashes. by rewrite Hv.
  - unfold block_hashes. by rewrite Hv2.
  - apply S1.
  - rewrite <- Hroot. apply S2.
Qed.

(** An oversized part for transactions is rejected without a word: the state still says
    that the block is valid, so that [AcceptBlock] does not mark it as failed and its
    sender is not punished. *)
Theorem partition_rejected_silently (block : CBlock) (st : CValidationState) size hd txs certs :
  GetSerializeComponentsSize block = Ok (size, hd, txs, certs) -> hd_nVersion (header block) = BLOCK_VERSION_SC_SUPPORT ->
  vtx block <> [] -> size <= MAX_BLOCK_SIZE -> BLOCK_TX_PARTITION_SIZE < txs -> check_size block st = Ok (false, st).
Proof.
  intros Hs Hv Hne Hsz Htx. unfold check_size, bind, lift. rewrite Hs, Hv, Z.eqb_refl. cbn [negb].
  destruct (vtx block); [done|]. cbn [is_empty orb andb]. rewrite (proj2 (Z.ltb_ge _ _)) by done. by rewrite (proj2 (Z.ltb_lt _ _)) by done.
Qed.
End Accepted.

(** a library that accepts every object whose first byte is one *)
Definition sample_zendoo : ZendooLib := {|
  zendoo_deserialize_field l := bool_decide (head l = Some 1);
  zendoo_deserialize_sc_proof l := bool_decide (head l = Some 1);
  zendoo_deserialize_sc_vk l := bool_decide (head l = Some 1);
  zendoo_get_sc_vk_proving_system_type _ := Some 1;
  zendoo_get_sc_proof_proving_system_type _ := Some 1;
  zendoo_merkle_root_from_compressed_bytes l _ := Some (take 32 l);
  zendoo_get_cert_data_hash _ _ _ _ _ root _ _ := Some root |}.

(** ** Two blocks with the same contents

    A coinbase and a certificate, with the hashes of what they contain, in two blocks of
    different times and nonces. Their proof of work is for the limit of regtest. *)
Definition checked_coinbase : CTransaction :=
  mkTx 1 [mkTxIn (mkOutPoint 0 (2 ^ 32 - 1)) [1; 5] 0xffffffff] [mkTxOut 5 [0x51]]
    0x373b0f02001d8bebdc1bae42ad348246c24efd05fc6f9199ca0e02e7eaf79396 [] 0 [] [] [] [] 0 null_sig.

Definition checked_cert : CScCertificate :=
  mkCert SC_CERT_VERSION [mkTxIn (mkOutPoint 501 0) [] 0xffffffff] [mkTxOut 40 [0x51]; TxOut_of_bwt (mkBwtOut 20 (repeat 4 20))]
    0xd926a828c73cf042c2773492424e6842bbbd23c205dfc26e0baaf4d6d00e0caf 7 0 1 (1 :: repeat 0 31) (repeat 1 40) [] [] 0 0 1.

Definition checked_root : uint256 := 0xc45429bb16d9e9d482c4c627d2de407e0012b180bea5b4e42a36d2018e1b5984.

Definition checked_block (nTime nNonce : Z) : CBlock :=
  mkBlock (mkHeader BLOCK_VERSION_SC_SUPPORT 1 checked_root 0 nTime 0x200f0f0f nNonce [])
    [checked_coinbase] [checked_cert] [].

Definition regtest_node : NodeConfig := Build_NodeConfig CRegTestParams None None.

Local Notation check_at_regtest :=
  (@Checks.CheckBlock sample_zendoo regtest_node (fun _ _ => true) (fun _ _ _ => true) (fun _ => true) regtest_pow) (only parsing).

Lemma checked_block_ok n : 0 <= n < 100 -> block_ok toy_sc_id (checked_block 1000 n).
Proof.
  intros Hn. split; [|split; [split; [done|]|split; [|done]]].
  - unfold header_ok, checked_block. cbn [header hd_nVersion hashPrevBlock hashMerkleRoot hashScTxsCommitment hd_nTime hd_nBits nNonce nSolution].
    split_and!; lia || (vm_compute; done).
  - apply List.Forall_cons; [|apply List.Forall_nil]. split; [solve_wire|]. unfold tx_current. vm_compute. reflexivity.
  - cbn [header checked_block hd_nVersion vcert]. rewrite Z.eqb_refl. split; [done|]. apply List.Forall_cons; [|apply List.Forall_nil].
    split; [split; [solve_wire|]|unfold cert_current; vm_compute; reflexivity]. exists [mkTxOut 40 [0x51]], [mkBwtOut 20 (repeat 4 20)]. solve_wire.
Qed.

(** no two pairs of these nodes have the same hash *)
Definition no_collision (f : Z -> Z -> Z) (l : list uint256) : bool :=
  let t := map (fun p => (p, f p.1 p.2)) (list_prod l l) in
  forallb (fun a => forallb (fun b => negb (a.2 =? b.2) || bool_decide (a.1 = b.1)) t) t.

Lemma no_collision_spec f l x y z w : no_collision f l = true -> x ∈ l -> y ∈ l -> z ∈ l -> w ∈ l ->
  f x y = f z w -> x = z /\ y = w.
Proof.
  intros Hl Hx Hy Hz Hw E. apply list_elem_of_In in Hx, Hy, Hz, Hw. unfold no_collision in Hl. rewrite forallb_forall in Hl.
  specialize (Hl ((x, y), f x y)). rewrite forallb_forall in Hl.
  assert (Hin : forall a b, In a l -> In b l -> In (a, b, f a b) (map (fun p => (p, f p.1 p.2)) (list_prod l l))).
  { intros a b Ha Hb. apply in_map_iff. exists (a, b). split; [done|by apply in_prod]. }
  specialize (Hl (Hin _ _ Hx Hy) _ (Hin _ _ Hz Hw)). cbn [fst snd] in Hl. rewrite E, Z.eqb_refl in Hl. cbn [negb orb] in Hl.
  apply bool_decide_eq_true in Hl. clear E. by injection Hl.
Qed.

Lemma checked_objects n m x y :
  Ok x ∈ wire_objects (checked_block 1000 n) -> Ok y ∈ wire_objects (checked_block 1000 m) -> hash_of x = hash_of y -> x = y.
Proof.
  assert (Hw : forall n, wire_objects (checked_block 1000 n) = [tx_ser checked_coinbase; cert_ser checked_cert]) by done.
  assert (Hlen : forall a b, Ok a = tx_ser checked_coinbase -> Ok b = cert_ser checked_cert -> hash_of a <> hash_of b).
  { intros a b Ha Hb E. assert (H1 : tx_hash checked_coinbase = hash_of a).
    { destruct (checked_block_ok 0 ltac:(lia)) as (_ & [_ Ht] & _). inversion_clear Ht as [|? ? [Hok Hcur] _].
      destruct (tx_leaf _ _ Hok Hcur) as (b' & Hb' & -> & _). congruence. }
    assert (H2 : cert_hash checked_cert = hash_of b).
    { destruct (checked_block_ok 0 ltac:(lia)) as (_ & _ & [_ Hc] & _). inversion_clear Hc as [|? ? [Hok Hcur] _].
      destruct (cert_leaf _ Hok Hcur) as (b' & Hb' & -> & _). congruence. }
    rewrite <- H1, <- H2 in E. discriminate E. }
  rewrite !Hw, !elem_of_cons, !elem_of_nil. intros [Hx|[Hx|[]]] [Hy|[Hy|[]]] E; try congruence; exfalso; [by eapply Hlen|by eapply (Hlen y x)].
Qed.

Lemma checked_hashes n : block_hashes (checked_block 1000 n) = [tx_hash checked_coinbase; cert_hash checked_cert].
Proof. reflexivity. Qed.

Lemma checked_depth n : depth (block_hashes (checked_block 1000 n)) = 1%nat.
Proof. by rewrite checked_hashes. Qed.

Lemma checked_roots n m : hashMerkleRoot (header (checked_block 1000 n)) = hashMerkleRoot (header (checked_block 1000 m)).
Proof. unfold checked_block. cbn [header hashMerkleRoot]. reflexivity. Qed.

Lemma checked_nodes n m x y z w :
  x ∈ all_levels hash_nodes 1 (block_hashes (checked_block 1000 n)) -> y ∈ all_levels hash_nodes 1 (block_hashes (checked_block 1000 n)) ->
  z ∈ all_levels hash_nodes 1 (block_hashes (checked_block 1000 m)) -> w ∈ all_levels hash_nodes 1 (block_hashes (checked_block 1000 m)) ->
  hash_nodes x y = hash_nodes z w -> x = z /\ y = w.
Proof.
  rewrite !checked_hashes.
  assert (all_levels hash_nodes 1 [tx_hash checked_coinbase; cert_hash checked_cert] = [tx_hash checked_coinbase; cert_hash checked_cert; checked_root])
    as -> by (vm_compute; reflexivity).
  assert (Hl : no_collision hash_nodes [tx_hash checked_coinbase; cert_hash checked_cert; checked_root] = true) by (vm_compute; reflexivity).
  intros Hx Hy Hz Hw. exact (no_collision_spec _ _ _ _ _ _ Hl Hx Hy Hz Hw).
Qed.

Lemma accepted_block_witness :
  (check_at_regtest (checked_block 1000 2) true true CValidationState_init = Ok (true, CValidationState_init)
   /\ check_at_regtest (checked_block 1000 30) true true CValidationState_init = Ok (true, CValidationState_init))
  /\ @sound_block (fun _ => true) regtest_pow true (checked_block 1000 2)
  /\ (vtx (checked_block 1000 2) = vtx (checked_block 1000 30) /\ vcert (checked_block 1000 2) = vcert (checked_block 1000 30)).
Proof.
  assert (H1 : check_at_regtest (checked_block 1000 2) true true CValidationState_init = Ok (true, CValidationState_init)) by (vm_compute; reflexivity).
  assert (H2 : check_at_regtest (checked_block 1000 30) true true CValidationState_init = Ok (true, CValidationState_init)) by (vm_compute; reflexivity).
  split; [split; [exact H1|exact H2]|].
  destruct (@accepted_block sample_zendoo regtest_node (fun _ _ => true) (fun _ _ _ => true) (fun _ => true) regtest_pow toy_sc_id true (checked_block 1000 2)
           CValidationState_init CValidationState_init H1) as [Hs Hc].
  split; [exact Hs|].
  apply (Hc true (checked_block 1000 30) CValidationState_init CValidationState_init 1%nat H2 (checked_roots 30 2)
           (checked_block_ok 2 ltac:(lia)) (checked_block_ok 30 ltac:(lia)) (checked_depth 2) (checked_depth 30)).
  - apply checked_nodes.
  - apply checked_objects.
Defined.
