(* ===== verification/Inputs.v ===== *)
(** * Checking the inputs

    [CheckTxInputs], [InputScriptCheck], [ContextualCheckTxInputs] and
    [ContextualCheckCertInputs] of [main.cpp], with the functions they call: the unspent
    outputs of the view, their maturity, the protection of coinbases, the values, and
    the scripts. The state is the view together with the validation state. *)

From stdpp Require Import base numbers list strings gmap fin_maps sets option.
From Stdlib Require Import ZArith Lia.
From S2P Require Import Prelude.
From S2P Require Import Amount.
From S2P Require Import Serialize.
From S2P Require Import ScTypes.
From S2P Require Import Forks.
From S2P Require Import Sidechain.
From S2P Require Import Coins.
From S2P Require Import CoinsSer.
From S2P Require Import Undo.
From S2P Require Import Merkle.
From S2P Require Import View.
From S2P Require Import ViewLaws.
From S2P Require Import SampleLedger.
From S2P Require Import TopLaws.
From S2P Require Import ViewOps.
From S2P Require Import ScApply.
From S2P Require Import BlockCoins.
From S2P Require Import Script.
From S2P Require Import Interpreter.
From S2P Require Import Standard.
From S2P Require Import Primitives.
From S2P Require Import Base58.
From S2P Require Import SigHash.
From S2P Require Import Checks.
Open Scope Z_scope.
Open Scope zen_scope.

Abbreviation VS := CValidationState (only parsing).

(** ** The view and the validation state *)
Section Pair.
  Context {C : Type}.

Definition on_coins {A} (m : M C A) : M (C * VS) A :=
  fun w => match m w.1 with Ok (a, c) => Ok (a, (c, w.2)) | Err e => Err e end.

Definition on_state {A} (m : M VS A) : M (C * VS) A :=
  fun w => match m w.2 with Ok (a, st) => Ok (a, (w.1, st)) | Err e => Err e end.
End Pair.

Definition reject_none {C B} (m : M VS bool) : M (C * VS) (option B) := let* _ := on_state m in ret None.

(** ** Script checks *)
Definition ScriptErrorString (e : ScriptError) : string :=
  match e with
  | SCRIPT_ERR_OK => "No error"
  | SCRIPT_ERR_EVAL_FALSE => "Script evaluated without error but finished with a false/empty top stack element"
  | SCRIPT_ERR_VERIFY => "Script failed an OP_VERIFY operation"
  | SCRIPT_ERR_EQUALVERIFY => "Script failed an OP_EQUALVERIFY operation"
  | SCRIPT_ERR_CHECKMULTISIGVERIFY => "Script failed an OP_CHECKMULTISIGVERIFY operation"
  | SCRIPT_ERR_CHECKSIGVERIFY => "Script failed an OP_CHECKSIGVERIFY operation"
  | SCRIPT_ERR_NUMEQUALVERIFY => "Script failed an OP_NUMEQUALVERIFY operation"
  | SCRIPT_ERR_SCRIPT_SIZE => "Script is too big"
  | SCRIPT_ERR_PUSH_SIZE => "Push value size limit exceeded"
  | SCRIPT_ERR_OP_COUNT => "Operation limit exceeded"
  | SCRIPT_ERR_STACK_SIZE => "Stack size limit exceeded"
  | SCRIPT_ERR_SIG_COUNT => "Signature count negative or greater than pubkey count"
  | SCRIPT_ERR_PUBKEY_COUNT => "Pubkey count negative or limit exceeded"
  | SCRIPT_ERR_BAD_OPCODE => "Opcode missing or not understood"
  | SCRIPT_ERR_DISABLED_OPCODE => "Attempted to use a disabled opcode"
  | SCRIPT_ERR_INVALID_STACK_OPERATION => "Operation not valid with the current stack size"
  | SCRIPT_ERR_INVALID_ALTSTACK_OPERATION => "Operation not valid with the current altstack size"
  | SCRIPT_ERR_OP_RETURN => "OP_RETURN was encountered"
  | SCRIPT_ERR_UNBALANCED_CONDITIONAL => "Invalid OP_IF construction"
  | SCRIPT_ERR_NEGATIVE_LOCKTIME => "Negative locktime"
  | SCRIPT_ERR_UNSATISFIED_LOCKTIME => "Locktime requirement not satisfied"
  | SCRIPT_ERR_SIG_HASHTYPE => "Signature hash type missing or not understood"
  | SCRIPT_ERR_SIG_DER => "Non-canonical DER signature"
  | SCRIPT_ERR_MINIMALDATA => "Data push larger than necessary"
  | SCRIPT_ERR_SIG_PUSHONLY => "Only non-push operators allowed in signatures"
  | SCRIPT_ERR_SIG_HIGH_S => "Non-canonical signature: S value is unnecessarily high"
  | SCRIPT_ERR_SIG_NULLDUMMY => "Dummy CHECKMULTISIG argument must be zero"
  | SCRIPT_ERR_DISCOURAGE_UPGRADABLE_NOPS => "NOPx reserved for soft-fork upgrades"
  | SCRIPT_ERR_PUBKEYTYPE => "Public key is neither compressed or uncompressed"
  | SCRIPT_ERR_CHECKBLOCKATHEIGHT => "Transaction failed to pass replay prevention checks"
  | SCRIPT_ERR_CHECKBLOCKATHEIGHT_UNVERIFIED => "OP_CHECKBLOCKATHEIGHT cannot be verified with zen-tx"
  | SCRIPT_ERR_NOT_FINAL => "OP_CHECKBLOCKATHEIGHT height is not valid or blockhash did not match"
  | SCRIPT_ERR_CLEANSTACK | SCRIPT_ERR_UNKNOWN_ERROR | SCRIPT_ERR_ERROR_COUNT => "unknown error"
  end.

Definition SCRIPT_VERIFY_DERSIG : Z := 4.

Definition MANDATORY_SCRIPT_VERIFY_FLAGS : Z := SCRIPT_VERIFY_P2SH.

Definition STANDARD_CONTEXTUAL_SCRIPT_VERIFY_FLAGS : Z :=
  Z.lor MANDATORY_SCRIPT_VERIFY_FLAGS (Z.lor SCRIPT_VERIFY_DERSIG (Z.lor SCRIPT_VERIFY_STRICTENC (Z.lor SCRIPT_VERIFY_MINIMALDATA
  (Z.lor SCRIPT_VERIFY_NULLDUMMY (Z.lor SCRIPT_VERIFY_DISCOURAGE_UPGRADABLE_NOPS (Z.lor SCRIPT_VERIFY_CLEANSTACK
  (Z.lor SCRIPT_VERIFY_CHECKLOCKTIMEVERIFY (Z.lor SCRIPT_VERIFY_LOW_S SCRIPT_VERIFY_CHECKBLOCKATHEIGHT)))))))).

Definition STANDARD_CONTEXTUAL_NOT_MANDATORY_VERIFY_FLAGS : Z :=
  Z.ldiff STANDARD_CONTEXTUAL_SCRIPT_VERIFY_FLAGS MANDATORY_SCRIPT_VERIFY_FLAGS.

Section Scripts.
  (** the check of a low S and the verification of a signature, of secp256k1; the chain
      and the depth that replay protection looks at *)
  Context (CheckLowS : bytes -> bool) (Verify : bytes -> uint256 -> bytes -> bool) (safeDepth : Z) (chain : list uint256).

(** [VerifyScript] of a transaction and of a certificate *)
Definition tx_VerifyScript (tx : CTransaction) (scriptPubKey : CScript) (nFlags nIn : Z) : outcome unit :=
  let nTotalInputs := if IsScVersion tx then vsize (tx_vin tx) + vsize (vcsw_ccin tx) else vsize (tx_vin tx) in
  if nTotalInputs <=? nIn then set_error SCRIPT_ERR_UNKNOWN_ERROR
  else
    let scriptSig := if nIn <? vsize (tx_vin tx) then scriptSig <$> tx_vin tx !! Z.to_nat nIn
                     else csw_redeemScript <$> vcsw_ccin tx !! Z.to_nat (nIn - vsize (tx_vin tx)) in
    match scriptSig with
    | None => Err bad_index
    | Some scriptSig =>
        VerifyScript CheckLowS (checker := tx_checker Verify tx (Z.to_nat nIn) safeDepth (Some chain)) nFlags scriptSig scriptPubKey
    end.

Definition cert_VerifyScript (c : CScCertificate) (scriptPubKey : CScript) (nFlags nIn : Z) : outcome unit :=
  if vsize (cert_vin c) <=? nIn then set_error SCRIPT_ERR_UNKNOWN_ERROR
  else
    match cert_vin c !! Z.to_nat nIn with
    | None => Err bad_index
    | Some i =>
        VerifyScript CheckLowS (checker := cert_checker Verify c (Z.to_nat nIn) safeDepth (Some chain)) nFlags (scriptSig i) scriptPubKey
    end.
End Scripts.

(** A [CScriptCheck]: what running it gives. With [pvChecks] it is put in the vector, to
    be run by the threads of the queue; the vector is [checks]. *)
Abbreviation CScriptCheck := (outcome unit) (only parsing).

Definition InputScriptCheck (verify : Z -> outcome unit) (flags : Z) (pvChecks : bool) (checks : list CScriptCheck)
  : M VS (option (list CScriptCheck)) :=
  if pvChecks then ret (Some (checks ++ [verify flags]))
  else
    match verify flags with
    | Err e => fail e
    | Ok (inr _) => ret (Some checks)
    | Ok (inl error) =>
        if bool_decide (error = SCRIPT_ERR_NOT_FINAL) then let* _ := reject 0 NONSTANDARD "non-final" in ret None
        else
          let failed := let* _ := reject 100 INVALID ("mandatory-script-verify-flag-failed (" ++ ScriptErrorString error ++ ")") in ret None in
          if negb (Z.land flags STANDARD_CONTEXTUAL_NOT_MANDATORY_VERIFY_FLAGS =? 0) then
            match verify (Z.ldiff flags STANDARD_CONTEXTUAL_NOT_MANDATORY_VERIFY_FLAGS) with
            | Err e => fail e
            | Ok (inr _) =>
                let* _ := Invalid false NONSTANDARD ("non-mandatory-script-verify-flag (" ++ ScriptErrorString SCRIPT_ERR_OK ++ ")") in ret None
            | Ok (inl _) => failed
            end
          else failed
    end.

(** ** The inputs *)
Section Inputs.
  Context {V : Type} `{CCoinsView V} `{MerkleHash Z} `{ChainIndex} (env : ScriptEnv).
Local Notation C := (CCoinsViewCache V).
Local Notation W := (C * VS)%type.
Local Notation net := (env_net env).

Fixpoint pays_fund (reward : CAmount) (coins : CCoins) (o : CTxOut) (types : list CommunityFundType) : res bool :=
  match types with
  | [] => Ok false
  | cfType :: types' =>
      if 0 <? getCommunityFundReward net (nHeight coins) reward cfType then
        res_bind (GetCommunityFundScriptAtHeight net (nHeight coins) cfType) (fun script =>
        if bool_decide (scriptPubKey o = script) then Ok true else pays_fund reward coins o types')
      else pays_fund reward coins o types'
  end.

Definition IsCommunityFund (coins : CCoins) (nIn : Z) : res bool :=
  if fCoinBase coins && isAfterChainsplit net (nHeight coins) && (nIn <? vsize (vout coins)) then
    res_bind (GetBlockSubsidy (nHeight coins) (GetConsensus net)) (fun reward =>
    match vout coins !! Z.to_nat nIn with
    | None => Err bad_index
    | Some o => pays_fund reward coins o community_funds
    end)
  else Ok false.

(** the global of [main.cpp], which only a test clears *)
Definition fCoinbaseEnforcedProtectionEnabled : bool := true.

(** one input; [None] is a rejection *)
Definition check_input (nSpendHeight : Z) (transparent : bool) (nValueIn : CAmount) (i : CTxIn) : M W (option CAmount) :=
  let n := op_n (prevout i) in
  let* coins := on_coins (AccessCoins (op_hash (prevout i))) in
  match coins with
  | None => fail AssertFailed
  | Some coins =>
      if (fCoinBase coins || IsFromCert coins) && negb (isOutputMature coins n nSpendHeight) then
        if fCoinBase coins then reject_none (Invalid false INVALID "bad-txns-premature-spend-of-coinbase")
        else reject_none (Invalid false INVALID "bad-txns-premature-spend-of-certificate")
      else
        match vout coins !! Z.to_nat n with
        | None => fail bad_index
        | Some o =>
            let* bad := (if fCoinBase coins then
                           if fCoinbaseEnforcedProtectionEnabled && fCoinbaseMustBeProtected (GetConsensus net) && transparent then
                             let* allowed := (if canSendCommunityFundsToTransparentAddress net nSpendHeight
                                              then lift (IsCommunityFund coins (to_i32 n)) else ret false) in
                             if negb allowed then ret (Some "bad-txns-coinbase-spend-has-transparent-outputs"%string) else ret None
                           else ret None
                         else if (level RPLEVEL_FIXED_2 <=? level (getReplayProtectionLevel net nSpendHeight))
                                 && negb (CheckReplayProtectionAttributes env (scriptPubKey o))
                         then ret (Some "bad-txns-output-scriptpubkey"%string) else ret None) in
            match bad with
            | Some reason => reject_none (Invalid false INVALID reason)
            | None =>
                let nValueIn := nValueIn + out_nValue o in
                if negb (MoneyRange (out_nValue o)) || negb (MoneyRange nValueIn)
                then reject_none (reject 100 INVALID "bad-txns-inputvalues-outofrange")
                else ret (Some nValueIn)
            end
        end
  end.

Definition CheckTxInputs {T} `{TxBase T} (tx : T) (nSpendHeight : Z) : M W bool :=
  let* have := on_coins (HaveInputs tx) in
  if negb have then on_state (Invalid false OK EmptyString)
  else
    let* js := on_coins (HaveJoinSplitRequirements tx) in
    if negb js then on_state (Invalid false OK EmptyString)
    else
      let* r := for_acc (tb_vin tx) 0 (check_input nSpendHeight (negb (is_empty (tb_vout tx)))) in
      match r with
      | None => ret false
      | Some nValueIn =>
          let outofrange := on_state (reject 100 INVALID "bad-txns-inputvalues-outofrange") in
          match tb_GetCSWValueIn tx with
          | Err (Exception _) => outofrange
          | Err e => fail e
          | Ok csw =>
              let nValueIn := nValueIn + csw in
              if negb (MoneyRange nValueIn) then outofrange
              else
                let* jsIn := lift (tb_GetJoinSplitValueIn tx) in
                let nValueIn := nValueIn + jsIn in
                if negb (MoneyRange nValueIn) then outofrange
                else on_state (tb_CheckFeeAmount tx nValueIn)
          end
      end.

(** the output an input refers to, for its script *)
Definition input_script (i : CTxIn) : M W CScript :=
  let* coins := on_coins (AccessCoins (op_hash (prevout i))) in
  match coins with
  | None => fail AssertFailed
  | Some coins =>
      match vout coins !! Z.to_nat (op_n (prevout i)) with
      | None => fail bad_index
      | Some o => ret (scriptPubKey o)
      end
  end.

Definition script_input (verify : CScript -> Z -> Z -> outcome unit) (flags : Z) (pvChecks : bool) (checks : list CScriptCheck)
    (x : nat * CTxIn) : M W (option (list CScriptCheck)) :=
  let* script := input_script x.2 in
  on_state (InputScriptCheck (fun f => verify script f (Z.of_nat x.1)) flags pvChecks checks).

Definition indexed {A} (l : list A) : list (nat * A) := zip (seq 0 (length l)) l.

(** [None] is a rejection; the vector of checks otherwise *)
Definition ContextualCheckTxInputs (verify : CScript -> Z -> Z -> outcome unit) (tx : CTransaction) (fScriptChecks : bool) (flags : Z)
    (pvChecks : bool) : M W (option (list CScriptCheck)) :=
  if negb (IsCoinBase tx) then
    let* h := on_coins GetHeight in
    let* ok := CheckTxInputs tx (h + 1) in
    if negb ok then ret None
    else if fScriptChecks then
      let* r := for_acc (indexed (tx_vin tx)) [] (script_input verify flags pvChecks) in
      match r with
      | None => ret None
      | Some checks =>
          for_acc (indexed (vcsw_ccin tx)) checks (fun checks x =>
            on_state (InputScriptCheck (fun f => verify (csw_scriptPubKey x.2) f (to_u32 (Z.of_nat x.1 + vsize (tx_vin tx)))) flags pvChecks checks))
      end
    else ret (Some [])
  else ret (Some []).

Definition ContextualCheckCertInputs (verify : CScript -> Z -> Z -> outcome unit) (c : CScCertificate) (fScriptChecks : bool) (flags : Z)
    (pvChecks : bool) : M W (option (list CScriptCheck)) :=
  let* h := on_coins GetHeight in
  let* ok := CheckTxInputs c (h + 1) in
  if negb ok then ret None
  else if fScriptChecks then for_acc (indexed (cert_vin c)) [] (script_input verify flags pvChecks)
  else ret (Some []).

(** signature operations of the scripts that the inputs redeem *)
Fixpoint p2sh_sigops (vin : list CTxIn) (nSigOps : Z) : M C Z :=
  match vin with
  | [] => ret nSigOps
  | i :: vin' =>
      let* o := GetOutputFor i in
      if IsPayToScriptHash (scriptPubKey o) then
        let* n := lift (GetSigOpCount_sig (scriptPubKey o) (scriptSig i)) in
        p2sh_sigops vin' (to_u32 (nSigOps + n))
      else p2sh_sigops vin' nSigOps
  end.

Definition GetP2SHSigOpCount {T} `{TxBase T} (tx : T) : M C Z :=
  if tb_IsCoinBase tx then ret 0 else p2sh_sigops (tb_vin tx) 0.
End Inputs.

(** ** Rules *)
Section Rules.
  Context `{NodeConfig} {V : Type} `{CCoinsView V} `{ViewSpec V} `{!ViewLaws V} `{!FreshOk V}.
Local Notation C := (CCoinsViewCache V).
Local Notation W := (C * VS)%type.

Lemma keeps_GetNullifier k : keeps (V := V) (GetNullifier k).
Proof.
  intros c r c' E. unfold GetNullifier, bind, get_maps, on_base, put_nullifier, set_maps, modify, ret in E.
  repeat (case_match; simplify_eq/=); split_and!; first [by apply fills_map_refl | done].
Qed.

Lemma awp_GetNullifier k P t : P (bool_decide (is_Some (a_null (t_view t) !! k))) t -> awp (GetNullifier (V := V) k) P t.
Proof.
  intros HP. apply awp_reads with (Q := fun r => r = bool_decide (is_Some (a_null (t_view t) !! k))); [apply keeps_GetNullifier| |by intros r ->].
  intros c Hwf Ht. eapply wp_mono; [by apply GetNullifier_law|]. intros r c' [Hr ->]. split; [done|]. by rewrite <- Ht.
Qed.

(** A computation that leaves the view as it is. *)
Definition quiet {A} (m : M C A) : Prop := forall t, awlp m (fun _ t' => t' = t) t.

Lemma quiet_awp {A} (m : M C A) : (forall t, awp m (fun _ t' => t' = t) t) -> quiet m.
Proof. intros Hm t. by apply awp_awlp. Qed.

Lemma quiet_ret {A} (a : A) : quiet (ret a).
Proof. intros t. by apply awlp_ret. Qed.

Lemma quiet_fail {A} e : quiet (A := A) (fail e).
Proof. by intros t c _ _. Qed.

Lemma quiet_lift {A} (r : res A) : quiet (lift r).
Proof. intros t c Hwf Ht. unfold wlp, lift. by destruct r. Qed.

Lemma quiet_massert b : quiet (massert b).
Proof. intros t c Hwf Ht. unfold wlp, massert. by destruct b. Qed.

Lemma quiet_bind {A B} (m : M C A) (k : A -> M C B) : quiet m -> (forall a, quiet (k a)) -> quiet (bind m k).
Proof. intros Hm Hk t. apply awlp_bind. eapply awlp_mono; [apply Hm|]. intros a t' ->. apply Hk. Qed.

Lemma quiet_for_each {A} (l : list A) (f : A -> M C bool) : (forall x, quiet (f x)) -> quiet (for_each l f).
Proof.
  intros Hf. induction l as [|x l IH]; cbn [for_each]; [apply quiet_ret|]. apply quiet_bind; [done|]. intros []; [done|apply quiet_ret].
Qed.

Lemma quiet_for_acc {A B} (l : list A) (f : B -> A -> M C (option B)) acc : (forall b x, quiet (f b x)) -> quiet (for_acc l acc f).
Proof.
  intros Hf. revert acc. induction l as [|x l IH]; intros acc; cbn [for_acc]; [apply quiet_ret|]. apply quiet_bind; [done|].
  intros [b|]; [apply IH|apply quiet_ret].
Qed.

Lemma quiet_for_ret {A B R} (l : list A) (f : B -> A -> M C (R + B)) acc : (forall b x, quiet (f b x)) -> quiet (for_ret l acc f).
Proof.
  intros Hf. revert acc. induction l as [|x l IH]; intros acc; cbn [for_ret]; [apply quiet_ret|]. apply quiet_bind; [done|].
  intros [b|b]; [apply quiet_ret|apply IH].
Qed.

Lemma quiet_AccessCoins k : quiet (AccessCoins k).
Proof. apply quiet_awp. intros t. by apply awp_AccessCoins. Qed.

Lemma quiet_GetSidechain k : quiet (GetSidechain k).
Proof. apply quiet_awp. intros t. by apply awp_GetSidechain. Qed.

Lemma quiet_AccessSidechain k : quiet (AccessSidechain k).
Proof. apply quiet_awp. intros t. by apply awp_AccessSidechain. Qed.

Lemma quiet_HaveSidechain k : quiet (HaveSidechain k).
Proof. apply quiet_awp. intros t. by apply awp_HaveSidechain. Qed.

Lemma quiet_GetBestBlock : quiet GetBestBlock.
Proof. apply quiet_awp. intros t. by apply awp_GetBestBlock. Qed.

Lemma quiet_HaveCsw i n : quiet (HaveCswNullifier i n).
Proof. apply quiet_awp. intros t. by apply awp_HaveCsw. Qed.

Lemma quiet_GetNullifier k : quiet (GetNullifier k).
Proof. apply quiet_awp. intros t. by apply awp_GetNullifier. Qed.

Lemma quiet_GetAnchorAt k : quiet (GetAnchorAt k).
Proof. apply quiet_awp. intros t. by apply awp_GetAnchorAt. Qed.

Lemma quiet_GetBestAnchor : quiet GetBestAnchor.
Proof. apply quiet_awp. intros t. by apply awp_GetBestAnchor. Qed.

(** Runs on the view and the validation state that return. *)
Definition plp {A} (m : M W A) (P : A -> Top -> Prop) (t : Top) : Prop :=
  forall c st, v_wf c -> top c = t -> wlp m (fun r w => v_wf w.1 /\ P r (top w.1)) (c, st).

Lemma plp_ret {A} (a : A) P t : P a t -> plp (ret a) P t.
Proof. by intros HP c st Hwf <-. Qed.

Lemma plp_fail {A} e (P : A -> Top -> Prop) t : plp (fail e) P t.
Proof. by intros c st _ _. Qed.

Lemma plp_lift {A} (r : res A) P t : (forall a, r = Ok a -> P a t) -> plp (lift r) P t.
Proof. intros HP c st Hwf <-. unfold wlp, lift. destruct r; [|done]. by split; [|apply HP]. Qed.

Lemma plp_bind {A B} (m : M W A) (k : A -> M W B) P t : plp m (fun a t' => plp (k a) P t') t -> plp (bind m k) P t.
Proof.
  intros Hm c st Hwf Ht. specialize (Hm c st Hwf Ht). unfold wlp, bind in *. destruct (m (c, st)) as [[a [c' st']]|]; [|done].
  cbn in Hm. destruct Hm as [Hwf' Hk]. by apply Hk.
Qed.

Lemma plp_mono {A} (m : M W A) (P Q : A -> Top -> Prop) t : plp m P t -> (forall a t', P a t' -> Q a t') -> plp m Q t.
Proof.
  intros Hm HPQ c st Hwf Ht. specialize (Hm c st Hwf Ht). unfold wlp in *. destruct (m (c, st)) as [[a w]|]; [|done]. naive_solver.
Qed.

Lemma plp_on_coins {A} (m : M C A) P t : awlp m P t -> plp (on_coins m) P t.
Proof.
  intros Hm c st Hwf Ht. specialize (Hm c Hwf Ht). unfold wlp, on_coins in *. cbn. by destruct (m c) as [[a c']|].
Qed.

Lemma plp_on_state {A} (m : M VS A) P t : (forall st a st', m st = Ok (a, st') -> P a t) -> plp (on_state m) P t.
Proof.
  intros Hm c st Hwf <-. unfold wlp, on_state. cbn. destruct (m st) as [[a st']|] eqn:E; [|done]. split; [done|]. by eapply Hm.
Qed.

Lemma plp_quiet {A} (m : M C A) P t : quiet m -> (forall a, P a t) -> plp (on_coins m) P t.
Proof. intros Hm HP. apply plp_on_coins. eapply awlp_mono; [apply Hm|]. intros a t' ->. apply HP. Qed.

Lemma plp_reject_none {B} (m : M VS bool) (P : option B -> Top -> Prop) t : P None t -> plp (reject_none m) P t.
Proof. intros HP. apply plp_bind, plp_on_state. intros. by apply plp_ret. Qed.

(** a loop with an invariant that may speak of what is left *)
Lemma plp_for_acc {A B} (l : list A) (f : B -> A -> M W (option B)) (I : list A -> B -> Top -> Prop) acc t :
  (forall x l' b t', I (x :: l') b t' -> plp (f b x) (fun r t'' => forall b', r = Some b' -> I l' b' t'') t') ->
  I l acc t -> plp (for_acc l acc f) (fun r t' => forall b', r = Some b' -> I [] b' t') t.
Proof.
  intros Hf. revert acc t. induction l as [|x l IH]; intros acc t HI; cbn [for_acc].
  { apply plp_ret. by intros b' [= <-]. }
  apply plp_bind. eapply plp_mono; [by apply Hf|]. intros [b|] t' Hb; [apply IH; by apply Hb|by apply plp_ret].
Qed.

Lemma plp_run {A} (m : M W A) P c st r w : plp m P (top c) -> v_wf c -> m (c, st) = Ok (r, w) -> v_wf w.1 /\ P r (top w.1).
Proof. intros Hm Hwf E. specialize (Hm c st Hwf eq_refl). unfold wlp in Hm. by rewrite E in Hm. Qed.
End Rules.

Create HintDb quiet.
#[export] Hint Resolve quiet_ret quiet_fail quiet_lift quiet_massert quiet_for_each quiet_for_acc quiet_for_ret quiet_AccessCoins
  quiet_GetSidechain quiet_AccessSidechain quiet_HaveSidechain quiet_GetBestBlock quiet_HaveCsw quiet_GetNullifier quiet_GetAnchorAt
  quiet_GetBestAnchor : quiet.

(** Settles [quiet] of a function whose body is unfolded. *)
Ltac quiet_step :=
  lazymatch goal with
  | |- quiet (ret _) => apply quiet_ret
  | |- quiet (fail _) => apply quiet_fail
  | |- quiet (lift _) => apply quiet_lift
  | |- quiet (massert _) => apply quiet_massert
  | |- quiet (bind _ _) => apply quiet_bind; [|intros ?]
  | |- quiet (for_each _ _) => apply quiet_for_each; intros ?
  | |- quiet (for_acc _ _ _) => apply quiet_for_acc; intros ? ?
  | |- quiet (for_ret _ _ _) => apply quiet_for_ret; intros ? ?
  | |- quiet (if ?b then _ else _) => destruct b
  | |- quiet (match ?x with _ => _ end) => destruct x
  | |- quiet _ => solve [auto with quiet]
  end.
Ltac solve_quiet := repeat quiet_step.

(** ** What the checks of the inputs establish *)
Lemma isOutputMature_stored co n h : isOutputMature (coins_stored co) n h = isOutputMature co n h.
Proof.
  unfold isOutputMature. assert (IsFromCert (coins_stored co) = IsFromCert co) as -> by (unfold IsFromCert; cbn [nVersion coins_stored]; by rewrite IsFromCert_stored). done.
Qed.

Lemma is_mature co n h : (fCoinBase co || IsFromCert co) && negb (isOutputMature co n h) = false -> isOutputMature co n h = true.
Proof. unfold isOutputMature at 1 2. destruct (fCoinBase co), (IsFromCert co); cbn; try by intros ?%negb_false_iff. done. Qed.

Lemma DoS_ret level b code reason corruption st a st' : DoS level b code reason corruption st = Ok (a, st') -> a = b.
Proof. unfold DoS. destruct (mode st); by intros [= <- _]. Qed.

Section Facts.
  Context `{NodeConfig} {V : Type} `{CCoinsView V} `{ViewSpec V} `{!ViewLaws V} `{!FreshOk V} `{MerkleHash Z} `{ChainIndex} (env : ScriptEnv).
Local Notation C := (CCoinsViewCache V).

Lemma awlp_HaveInputs {T} `{TxBase T} (tx : T) t :
  tb_IsCoinBase tx = false ->
  awlp (HaveInputs (V := V) tx) (fun ok t' => t' = t /\ (ok = true -> Forall (fun i => is_Some (utxo (t_coins t) (prevout i))) (tb_vin tx))) t.
Proof.
  intros Hcb. unfold HaveInputs. rewrite Hcb. cbn [negb]. apply awp_awlp. eapply awp_mono; [apply awp_inputs_available|].
  intros ok t' [-> Hok]. split; [done|]. by apply Hok.
Qed.

Lemma awlp_fresh_nullifiers nfs t :
  awlp (V := V) (for_each nfs (fun nf => let* spent := GetNullifier nf in ret (negb spent)))
    (fun ok t' => t' = t /\ (ok = true -> Forall (fun nf => a_null (t_view t) !! nf = None) nfs)) t.
Proof.
  induction nfs as [|nf nfs IH]; cbn [for_each]; [by apply awlp_ret|]. apply awlp_bind, awlp_bind, awp_awlp, awp_GetNullifier, awp_ret.
  case_bool_decide as Hn; cbn [negb]; [by apply awlp_ret|]. eapply awlp_mono; [exact IH|]. intros ok t' [-> Hok]. split; [done|].
  intros ->. apply List.Forall_cons; [|by apply Hok]. by apply eq_None_not_Some.
Qed.

Lemma awlp_joinsplit_requirements inter js t :
  awlp (V := V) (joinsplit_requirements inter js)
    (fun r t' => t' = t /\ (is_Some r -> Forall (fun nf => a_null (t_view t) !! nf = None) (nullifiers js))) t.
Proof.
  unfold joinsplit_requirements. apply awlp_bind. eapply awlp_mono; [apply awlp_fresh_nullifiers|]. intros ok t' [-> Hok].
  destruct ok; cbn [negb]; [|apply awlp_ret; split; [done|by intros []]]. specialize (Hok eq_refl).
  assert (Hq : quiet (V := V) (let* tree := match inter !! anchor js with Some tree => ret (Some tree) | None => GetAnchorAt (anchor js) end in
    match tree with
    | Some tree0 =>
        let* tree' := lift (append_commitments (commitments js) tree0) in
        ret (Some (match inter !! tree_root INCREMENTAL_MERKLE_TREE_DEPTH tree' with Some _ => inter
                   | None => <[tree_root INCREMENTAL_MERKLE_TREE_DEPTH tree' := tree']> inter end))
    | None => ret None
    end)) by solve_quiet.
  eapply awlp_mono; [apply Hq|]. by intros r t' ->.
Qed.

Lemma awlp_HaveJoinSplitRequirements {T} `{TxBase T} (tx : T) t :
  awlp (HaveJoinSplitRequirements (V := V) tx)
    (fun ok t' => t' = t /\ (ok = true -> Forall (fun nf => a_null (t_view t) !! nf = None) (concat (map nullifiers (tb_vjoinsplit tx))))) t.
Proof.
  unfold HaveJoinSplitRequirements. apply awlp_bind. generalize (∅ : gmap Z View.Tree). generalize (tb_vjoinsplit tx).
  induction l as [|js l IH]; intros inter; cbn [for_acc]; [by apply awlp_ret, awlp_ret|].
  apply awlp_bind. eapply awlp_mono; [apply awlp_joinsplit_requirements|]. intros [inter'|] t' [-> Hr].
  - eapply awlp_mono; [apply IH|]. intros r t' Hret. cbn beta in Hret |- *. eapply awlp_mono; [exact Hret|]. cbn beta.
    intros ok t'' [-> Hok]. split; [done|]. intros Hk. cbn [map concat]. apply Forall_app. split; [by apply Hr|by apply Hok].
  - apply awlp_ret, awlp_ret. done.
Qed.

Lemma quiet_GetHeight : quiet (V := V) GetHeight.
Proof. unfold GetHeight. solve_quiet. Qed.

(** one input: it is mature, its value is in range and is added *)
Lemma plp_check_input h transparent v i o t :
  utxo (t_coins t) (prevout i) = Some o ->
  plp (V := V) (check_input env h transparent v i) (fun r t' => t' = t /\ forall v', r = Some v' ->
    v' = v + out_nValue o /\ 0 <= out_nValue o /\ 0 <= v' <= MAX_MONEY
    /\ exists a, t_coins t !! op_hash (prevout i) = Some a /\ isOutputMature a (op_n (prevout i)) h = true) t.
Proof.
  intros Hu. unfold check_input. apply plp_bind, plp_on_coins, awp_awlp, awp_AccessCoins. intros oc Habs Hok.
  destruct oc as [co|]; [|apply plp_fail]. cbn in Habs.
  assert (Hst : t_coins t !! op_hash (prevout i) = Some (coins_stored co)).
  { unfold utxo in Hu. rewrite <- Habs in Hu |- *. unfold coins_abs in *. by destruct (IsPruned co). }
  pose proof (avail_utxo (Some co) co _ _ (prevout i) Habs eq_refl eq_refl) as Hav. rewrite Hu in Hav. symmetry in Hav.
  destruct (avail_lookup _ _ _ Hav) as [Hlk _].
  destruct ((fCoinBase co || IsFromCert co) && negb (isOutputMature co (op_n (prevout i)) h)) eqn:Hm.
  { destruct (fCoinBase co); apply plp_reject_none; by split. }
  apply is_mature in Hm. rewrite Hlk. apply plp_bind.
  match goal with |- plp ?m _ _ => assert (Hq : plp m (fun _ t' => t' = t) t) end.
  { destruct (fCoinBase co).
    - destruct (_ && _); [|by apply plp_ret]. apply plp_bind. destruct (canSendCommunityFundsToTransparentAddress _ _).
      + apply plp_lift. intros fund _. destruct fund; by apply plp_ret.
      + apply plp_ret. by apply plp_ret.
    - destruct (_ && _); by apply plp_ret. }
  eapply plp_mono; [exact Hq|]. intros [reason|] t' ->; [by apply plp_reject_none|].
  destruct (MoneyRange (out_nValue o)) eqn:R1, (MoneyRange (v + out_nValue o)) eqn:R2; cbn [negb orb]; try by apply plp_reject_none.
  apply plp_ret. split; [done|]. intros v' [= <-]. apply MoneyRange_spec in R1, R2. split; [done|]. split; [lia|]. split; [done|].
  exists (coins_stored co). split; [done|]. by rewrite isOutputMature_stored.
Qed.

(** the outputs that the inputs refer to *)
Definition spends (D : gmap Z CCoins) (h : Z) (vin : list CTxIn) (outs : list CTxOut) : Prop :=
  Forall2 (fun i o => utxo D (prevout i) = Some o
    /\ exists a, D !! op_hash (prevout i) = Some a /\ isOutputMature a (op_n (prevout i)) h = true) vin outs.

Lemma plp_check_inputs h transparent vin v t :
  0 <= v -> Forall (fun i => is_Some (utxo (t_coins t) (prevout i))) vin ->
  plp (V := V) (for_acc vin v (check_input env h transparent)) (fun r t' => t' = t /\ forall v', r = Some v' ->
    exists outs, spends (t_coins t) h vin outs /\ v' = v + zsum out_nValue outs /\ 0 <= v') t.
Proof.
  revert v. induction vin as [|i vin IH]; intros v Hv Ha; cbn [for_acc].
  { apply plp_ret. split; [done|]. intros v' [= <-]. exists []. split; [constructor|]. cbn. lia. }
  apply list.Forall_cons in Ha as [[o Ho] Ha]. apply plp_bind. eapply plp_mono; [by apply plp_check_input|].
  intros [v1|] t' [-> Hr]; [|by apply plp_ret]. destruct (Hr v1 eq_refl) as (-> & Hpos & Hrange & Hmat).
  eapply plp_mono; [apply IH; [lia|done]|]. intros r t' [-> Hr']. split; [done|]. intros v' ->.
  destruct (Hr' v' eq_refl) as (outs & Hs & -> & Hnn). exists (o :: outs). split; [by constructor|]. change (zsum out_nValue (o :: outs)) with (out_nValue o + zsum out_nValue outs). lia.
Qed.

Lemma plp_CheckTxInputs {T} `{TxBase T} (tx : T) h t :
  tb_IsCoinBase tx = false ->
  plp (V := V) (CheckTxInputs env tx h) (fun ok t' => t' = t /\ (ok = true -> exists outs csw js st st',
    spends (t_coins t) h (tb_vin tx) outs
    /\ Forall (fun nf => a_null (t_view t) !! nf = None) (concat (map nullifiers (tb_vjoinsplit tx)))
    /\ tb_GetCSWValueIn tx = Ok csw /\ tb_GetJoinSplitValueIn tx = Ok js
    /\ tb_CheckFeeAmount tx (zsum out_nValue outs + csw + js) st = Ok (true, st'))) t.
Proof.
  intros Hcb. unfold CheckTxInputs. apply plp_bind, plp_on_coins. eapply awlp_mono; [by apply awlp_HaveInputs|].
  intros have t' [-> Hhave]. destruct have; cbn [negb]; [|by apply plp_on_state; intros st a st' ->%DoS_ret].
  specialize (Hhave eq_refl). apply plp_bind, plp_on_coins. eapply awlp_mono; [apply awlp_HaveJoinSplitRequirements|].
  intros js t' [-> Hjs]. destruct js; cbn [negb]; [|by apply plp_on_state; intros st a st' ->%DoS_ret]. specialize (Hjs eq_refl).
  apply plp_bind. eapply plp_mono; [apply plp_check_inputs; [done|exact Hhave]|]. intros [v|] t' [-> Hr]; [|by apply plp_ret].
  destruct (Hr v eq_refl) as (outs & Hs & -> & Hnn).
  assert (Hrej : forall (P : bool -> Top -> Prop), P false t -> plp (V := V) (on_state (reject 100 INVALID "bad-txns-inputvalues-outofrange")) P t).
  { intros P HP. apply plp_on_state. by intros st a st' ->%DoS_ret. }
  destruct (tb_GetCSWValueIn tx) as [csw|[|]] eqn:Ecsw; [|by apply plp_fail|by apply Hrej].
  destruct (MoneyRange (0 + zsum out_nValue outs + csw)); cbn [negb]; [|by apply Hrej]. apply plp_bind, plp_lift. intros jsIn Ejs.
  destruct (MoneyRange (0 + zsum out_nValue outs + csw + jsIn)); cbn [negb]; [|by apply Hrej]. apply plp_on_state.
  intros st ok st' E. split; [done|]. intros ->. exists outs, csw, jsIn, st, st'. by rewrite Z.add_0_l in E.
Qed.
End Facts.
#[export] Hint Resolve quiet_GetHeight : quiet.

(** C5: no transaction creates value. If the checks of the inputs of a transaction
    succeed, its inputs are unspent outputs of the view, mature at the height of the
    spending, none of its nullifiers was revealed before, and the value it takes from
    them, from ceased sidechains and from the shielded pool is what its outputs give,
    to the ledger, to sidechains and to the shielded pool, and a fee that is not negative.
    The view is as before. *)
Theorem inputs_cover_outputs `{NodeConfig} {V : Type} `{CCoinsView V} `{ViewSpec V} `{!ViewLaws V} `{!FreshOk V} `{MerkleHash Z} `{ChainIndex}
    (env : ScriptEnv) (tx : CTransaction) (h : Z) (c c' : CCoinsViewCache V) (st st' : CValidationState) :
  v_wf c -> IsCoinBase tx = false -> CheckTxInputs env tx h (c, st) = Ok (true, (c', st')) ->
  v_wf c' /\ denote c' = denote c
  /\ exists outs csw js out fee, spends (a_coins (denote c)) h (tx_vin tx) outs
     /\ Forall (fun nf => a_null (denote c) !! nf = None) (tx_nullifiers tx)
     /\ GetCSWValueIn tx = Ok csw /\ GetJoinSplitValueIn tx = Ok js /\ GetValueOut tx = Ok out
     /\ zsum out_nValue outs + csw + js = out + fee /\ 0 <= fee <= MAX_MONEY.
Proof.
  intros Hwf Hcb Hrun. pose proof (plp_CheckTxInputs (V := V) env tx h (top c)) as Hp. specialize (Hp Hcb).
  destruct (plp_run _ _ _ _ _ _ Hp Hwf Hrun) as (Hwf' & Ht & Hok).
  cbn [fst] in Hwf', Ht. split; [done|]. split; [by apply (f_equal t_view) in Ht|].
  destruct (Hok eq_refl) as (outs & csw & js & s & s' & Hs & Hn & Hcsw & Hjs & Hfee). cbn in Hcsw, Hjs, Hfee.
  destruct (CheckFeeAmount_exact tx (zsum out_nValue outs + csw + js) s) as (b & s2 & E & Hb & _). rewrite E in Hfee. injection Hfee as -> _.
  destruct (proj1 Hb eq_refl) as (Hr & Ha & Hle). apply MoneyRange_spec in Hr. pose proof (amounts_ok_nonneg _ Ha).
  exists outs, csw, js, (total_out tx), (zsum out_nValue outs + csw + js - total_out tx). do 4 (split; [done|]).
  split; [by apply GetValueOut_total|]. unfold total_out in *. lia.
Qed.

#[local] Existing Instance regtest.
#[local] Existing Instance toy_hash.

(** the block before is at height 199 *)
#[local] Instance sample_index : ChainIndex := {| mapBlockIndex h := if h =? 1 then Some (mkBlockIndex 199 []) else None; vChain := [] |}.

Definition regtest_env : ScriptEnv := mkEnv REGTEST [] 100 true 80.

(** spends 7 units, of which 6 go to an output *)
Definition tx_pays : CTransaction :=
  mkTx TRANSPARENT_TX_VERSION [mkTxIn (mkOutPoint 500 1) [] 0] [mkTxOut 6 [0x51]] 604 [] 0 [] [] [] [] 0 null_sig.

Definition inputs_checked : CCoinsViewCache CCoinsViewDB * CValidationState :=
  match CheckTxInputs regtest_env tx_pays height (Cache_new ledger, CValidationState_init) with
  | Ok (_, w) => w
  | Err _ => (Cache_new ledger, CValidationState_init)
  end.

Lemma inputs_cover_outputs_witness :
  v_wf inputs_checked.1 /\ denote inputs_checked.1 = denote (Cache_new ledger)
  /\ exists outs csw js out fee, spends (a_coins (denote (Cache_new ledger))) height (tx_vin tx_pays) outs
     /\ Forall (fun nf => a_null (denote (Cache_new ledger)) !! nf = None) (tx_nullifiers tx_pays)
     /\ GetCSWValueIn tx_pays = Ok csw /\ GetJoinSplitValueIn tx_pays = Ok js /\ GetValueOut tx_pays = Ok out
     /\ zsum out_nValue outs + csw + js = out + fee /\ 0 <= fee <= MAX_MONEY.
Proof.
  apply (inputs_cover_outputs regtest_env tx_pays height (Cache_new ledger) inputs_checked.1 CValidationState_init inputs_checked.2).
  - apply Cache_new_wf, ledger_wf.
  - reflexivity.
  - vm_compute. reflexivity.
Defined.
