(* ===== verification/Connect.v ===== *)
(** * Connecting and disconnecting a block

    [ConnectBlock] and [DisconnectBlock] of [main.cpp] with what they call to load the
    proofs of sidechains ([sc/proofverifier.cpp]) and to write and read the undo data of
    a block. The state is the view, the validation state, the entry of the block in the
    index and the undo files.

    Both are modelled with [explorerIndexesWrite] off and without the list
    [pCertsStateInfo]: the optional indexes for block explorers and the notifications of
    the wallet take no part in the result. *)

From stdpp Require Import base numbers list strings gmap fin_maps sets option.
From Stdlib Require Import ZArith Lia.
From S2P Require Import Prelude.
From S2P Require Import Amount.
From S2P Require Import Serialize.
From S2P Require Import ScTypes.
From S2P Require Import Forks.
From S2P Require Import Compress.
From S2P Require Import Sidechain.
From S2P Require Import Coins.
From S2P Require Import CoinsSer.
From S2P Require Import Undo.
From S2P Require Import Merkle.
From S2P Require Import View.
From S2P Require Import ScOps.
From S2P Require Import ScApply.
From S2P Require Import BlockCoins.
From S2P Require Import Script.
From S2P Require Import Interpreter.
From S2P Require Import Standard.
From S2P Require Import Primitives.
From S2P Require Import Chain.
From S2P Require Import BlockData.
From S2P Require Import BlockIndex.
From S2P Require Import TxSer.
From S2P Require Import SigHash.
From S2P Require Import Pow.
From S2P Require Import Checks.
From S2P Require Import Inputs.
Open Scope Z_scope.
Open Scope zen_scope.

(** ** Proofs to verify *)
Record CCertProofVerifierInput := mkCertInput {
  ci_certHash : uint256;
  ci_constant : CFieldElement;
  ci_scId : uint256;
  ci_epochNumber : Z;
  ci_quality : Z;
  ci_bt_list : list (bytes * Z);
  ci_vCustomFields : list CFieldElement;
  ci_endEpochCumScTxCommTreeRoot : CFieldElement;
  ci_mainchainBackwardTransferRequestScFee : CAmount;
  ci_forwardTransferScFee : CAmount;
  ci_proof : bytes;
  ci_verificationKey : bytes }.

Record CCswProofVerifierInput := mkCswInput {
  wi_nValue : CAmount;
  wi_scId : uint256;
  wi_pubKeyHash : bytes;
  wi_certDataHash : CFieldElement;
  wi_ceasingCumScTxCommTree : CFieldElement;
  wi_nullifier : CFieldElement;
  wi_proof : bytes;
  wi_constant : CFieldElement;
  wi_verificationKey : bytes }.

Inductive CProofInput := CertProof (i : CCertProofVerifierInput) | CswProofs (l : list CCswProofVerifierInput).

(** [proofQueue], by the hash of the transaction or certificate *)
Abbreviation ProofQueue := (gmap Z CProofInput) (only parsing).

(** [std::map::insert] keeps an element that is there *)
Definition queue_insert (h : uint256) (i : CProofInput) (q : ProofQueue) : ProofQueue :=
  match q !! h with Some _ => q | None => <[h := i]> q end.

Section Verifier.
  Context `{ZendooLib}.

Definition CertificateToVerifierItem (c : CScCertificate) (p : ScFixedParameters) : res CCertProofVerifierInput :=
  res_bind (CertificateToVerifierItem_bts c) (fun bts =>
  res_bind (CertificateToVerifierItem_fields c p) (fun fields =>
  Ok (mkCertInput (cert_hash c) (default [] (constant p)) (cert_scId c) (epochNumber c) (quality c) bts fields
        (endEpochCumScTxCommTreeRoot c) (mainchainBackwardTransferRequestScFee c) (forwardTransferScFee c) (cert_scProof c)
        (wCertVk p)))).

Definition CswInputToVerifierItem (w : CTxCeasedSidechainWithdrawalInput) (p : ScFixedParameters) : res CCswProofVerifierInput :=
  match wCeasedVk p with
  | None => Err AssertFailed
  | Some vk =>
      Ok (mkCswInput (csw_nValue w) (csw_scId w) (csw_pubKeyHash w) (csw_actCertDataHash w) (csw_ceasingCumScTxCommTree w)
            (csw_nullifier w) (csw_scProof w) (default [] (constant p)) vk)
  end.

Context {V : Type} `{CCoinsView V}.
Local Notation C := (CCoinsViewCache V).

Definition LoadDataForCertVerification (strict : bool) (c : CScCertificate) (q : ProofQueue) : M C ProofQueue :=
  if negb strict then ret q
  else
    let* o := GetSidechain (cert_scId c) in
    match o with
    | None => fail AssertFailed
    | Some sidechain =>
        let* i := lift (CertificateToVerifierItem c (fixedParams sidechain)) in
        ret (queue_insert (cert_hash c) (CertProof i) q)
    end.

Fixpoint csw_items (l : list CTxCeasedSidechainWithdrawalInput) : M C (list CCswProofVerifierInput) :=
  match l with
  | [] => ret []
  | w :: l' =>
      let* o := GetSidechain (csw_scId w) in
      match o with
      | None => fail AssertFailed
      | Some sidechain =>
          let* i := lift (CswInputToVerifierItem w (fixedParams sidechain)) in
          let* items := csw_items l' in
          ret (i :: items)
      end
  end.

Definition LoadDataForCswVerification (strict : bool) (tx : CTransaction) (q : ProofQueue) : M C ProofQueue :=
  if negb strict then ret q
  else
    let* items := csw_items (vcsw_ccin tx) in
    ret (if is_empty items then q else queue_insert (tx_hash tx) (CswProofs items) q).
End Verifier.

(** ** Undo files

    [vinfoBlockFile[n].nUndoSize] and the contents of the files; [io_space] is
    [CheckDiskSpace], [io_open] whether a file can be opened. *)
Record UndoFiles := mkUndoFiles {
  uf_sizes : list Z;
  uf_files : gmap Z bytes;
  uf_dirty : gset Z }.

Record UndoIO := mkIO { io_space : Z -> bool; io_open : Z -> bool }.

Definition UNDOFILE_CHUNK_SIZE : Z := 0x100000.

Definition MessageStart (net : Network) : bytes :=
  match net with
  | MAIN => [0x63; 0x61; 0x73; 0x68]
  | TESTNET => [0xbf; 0xf2; 0xcd; 0xe6]
  | REGTEST => [0x2f; 0x54; 0xcc; 0x9d]
  end.

(** the file made long enough, with zeros *)
Definition extend (n : nat) (f : bytes) : bytes := f ++ repeat 0 (n - length f).

Definition AllocateFileRange (offset len : Z) (f : bytes) : bytes := extend (Z.to_nat (offset + len)) f.

(** [fwrite] at a position *)
Definition write_at (pos : Z) (data f : bytes) : bytes :=
  let p := Z.to_nat pos in take p (extend p f) ++ data ++ drop (p + length data) f.

Definition in_file (n : Z) (g : bytes -> bytes) (u : UndoFiles) : UndoFiles :=
  mkUndoFiles (uf_sizes u) (<[n := g (default [] (uf_files u !! n))]> (uf_files u)) (uf_dirty u).

Section Files.
  Context `{Secp256k1} (io : UndoIO) (net : Network).

(** the position, [None] when there is no space *)
Definition FindUndoPos (nFile nAddSize : Z) : M UndoFiles (option CDiskBlockPos) :=
  let* u := get in
  match uf_sizes u !! Z.to_nat nFile with
  | None => fail bad_index
  | Some size =>
      let nNewSize := to_u32 (size + nAddSize) in
      modify (fun u => mkUndoFiles (<[Z.to_nat nFile := nNewSize]> (uf_sizes u)) (uf_files u) ({[nFile]} ∪ uf_dirty u)) ;;;
      let chunks x := Z.quot (to_u32 (x + UNDOFILE_CHUNK_SIZE - 1)) UNDOFILE_CHUNK_SIZE in
      if chunks size <? chunks nNewSize then
        let room := to_u32 (chunks nNewSize * UNDOFILE_CHUNK_SIZE - size) in
        if io_space io room then
          (if io_open io nFile then modify (in_file nFile (AllocateFileRange size room)) else ret tt) ;;;
          ret (Some (mkPos nFile size))
        else ret None
      else ret (Some (mkPos nFile size))
  end.

Definition undo_checksum (hashBlock : uint256) (u : CBlockUndo) : uint256 := hash_of (ser s_uint256 hashBlock ++ BlockUndo_ser u).

(** the position of the data, [None] when the file cannot be opened *)
Definition UndoWriteToDisk (u : CBlockUndo) (pos : CDiskBlockPos) (hashBlock : uint256) : M UndoFiles (option CDiskBlockPos) :=
  if negb (io_open io (pos_nFile pos)) then ret None
  else
    let head := MessageStart net ++ ser s_u32 (to_u32 (BlockUndo_GetSerializeSize u)) in
    modify (in_file (pos_nFile pos) (write_at (pos_nPos pos)
      (head ++ BlockUndo_ser u ++ ser s_uint256 (undo_checksum hashBlock u)))) ;;;
    ret (Some (mkPos (pos_nFile pos) (to_u32 (pos_nPos pos + vsize head)))).

(** [None] is an error *)
Definition UndoReadFromDisk (f : UndoFiles) (before : CBlockUndo) (pos : CDiskBlockPos) (hashBlock : uint256) : option CBlockUndo :=
  match uf_files f !! pos_nFile pos with
  | None => None
  | Some file =>
      match (let* u := BlockUndo_unser before in let* h := unser s_uint256 in ret (u, h)) (drop (Z.to_nat (pos_nPos pos)) file) with
      | Err _ => None
      | Ok ((u, hashChecksum), _) => if hashChecksum =? undo_checksum hashBlock u then Some u else None
      end
  end.
End Files.

(** ** The state *)
Record Conn (V : Type) := mkConn {
  cn_view : CCoinsViewCache V;
  cn_state : CValidationState;
  cn_index : BlockNode;
  cn_dirty : bool;
  cn_disk : UndoFiles }.
Arguments mkConn {V}.
Arguments cn_view {V}.
Arguments cn_state {V}.
Arguments cn_index {V}.
Arguments cn_dirty {V}.
Arguments cn_disk {V}.

Section Lifts.
  Context {V : Type}.
Local Notation C := (CCoinsViewCache V).

Definition on_pair {A} (m : M (C * VS) A) : M (Conn V) A :=
  fun s => match m (cn_view s, cn_state s) with
           | Ok (a, (c, st)) => Ok (a, mkConn c st (cn_index s) (cn_dirty s) (cn_disk s))
           | Err e => Err e
           end.

Definition on_disk {A} (m : M UndoFiles A) : M (Conn V) A :=
  fun s => match m (cn_disk s) with
           | Ok (a, d) => Ok (a, mkConn (cn_view s) (cn_state s) (cn_index s) (cn_dirty s) d)
           | Err e => Err e
           end.

Definition on_index (f : BlockNode -> BlockNode) : M (Conn V) unit :=
  modify (fun s => mkConn (cn_view s) (cn_state s) (f (cn_index s)) (cn_dirty s) (cn_disk s)).

Definition mark_index_dirty : M (Conn V) unit :=
  modify (fun s => mkConn (cn_view s) (cn_state s) (cn_index s) true (cn_disk s)).
End Lifts.

(** ** What is gathered while the block is processed *)
Record ConnAcc := mkAcc {
  ca_nFees : CAmount;
  ca_nSigOps : Z;
  ca_undo : CBlockUndo;
  ca_tree : Tree;
  ca_checks : list CScriptCheck;
  ca_proofs : ProofQueue;
  ca_sctxs : list CTransaction;
  ca_sccerts : list (CScCertificate * CSidechain) }.

Definition with_undo (u : CBlockUndo) (a : ConnAcc) : ConnAcc :=
  mkAcc (ca_nFees a) (ca_nSigOps a) u (ca_tree a) (ca_checks a) (ca_proofs a) (ca_sctxs a) (ca_sccerts a).

Definition push_undo (u : CTxUndo) (b : CBlockUndo) : CBlockUndo :=
  mkBlockUndo (includesSidechainAttributes b) (vtxundo b ++ [u]) (old_tree_root b) (scUndoDatabyScId b).

Definition set_old_root (h : uint256) (b : CBlockUndo) : CBlockUndo :=
  mkBlockUndo (includesSidechainAttributes b) (vtxundo b) h (scUndoDatabyScId b).

(** the outputs of a superseded certificate *)
Definition undo_superseded (bwts : list CTxInUndo) (u : CSidechainUndoData) : CSidechainUndoData :=
  mkScUndo (sidechainUndoDataVersion u) (Z.lor (contentBitMask u) SUPERSEDED_CERT_DATA) (appliedMaturedAmount u)
    (su_pastEpochTopQualityCertView u) (su_scFees u) (prevTopCommittedCertHash u)
    (prevTopCommittedCertReferencedEpoch u) (prevTopCommittedCertQuality u)
    (prevTopCommittedCertBwtAmount u) (su_lastTopQualityCertView u) bwts (ceasedBwts u).

(** the flags of the script checks in blocks *)
Definition block_script_flags : Z :=
  Z.lor SCRIPT_VERIFY_P2SH (Z.lor SCRIPT_VERIFY_CHECKLOCKTIMEVERIFY SCRIPT_VERIFY_CHECKBLOCKATHEIGHT).

(** [control.Wait()] *)
Fixpoint run_checks (l : list CScriptCheck) : res bool :=
  match l with
  | [] => Ok true
  | Ok (inr _) :: l' => run_checks l'
  | Ok (inl _) :: l' => res_bind (run_checks l') (fun _ => Ok false)
  | Err e :: _ => Err e
  end.

Section Connect.
  Context {V : Type} `{CCoinsView V} `{MerkleHash Z} `{ChainIndex} `{ZendooLib} `{NodeConfig} (env : ScriptEnv).
  (** low S and signatures of secp256k1, with the depth of replay protection *)
  Context (CheckLowS : bytes -> bool) (Verify : bytes -> uint256 -> bytes -> bool).
  (** shielded proofs and their signatures, Equihash, the parameters of the difficulty *)
  Context (js_Verify : JSDescription -> uint256 -> bool) (crypto_sign_verify_detached : bytes -> bytes -> uint256 -> bool)
          (CheckEquihashSolution : CBlockHeader -> bool) (pow : PowParams).
  (** the verification of the proofs of sidechains and the commitment to the sidechain
      transactions, of the zendoo library *)
  Context (BatchVerify : ProofQueue -> bool)
          (getCommitment : list CTransaction -> list (CScCertificate * CSidechain) -> uint256).
  (** [nScriptCheckThreads] is not zero *)
  Context (threads : bool).
Local Notation C := (CCoinsViewCache V).
Local Notation W := (C * VS)%type.
Local Notation net := (env_net env).

(** [block.vtx] and [block.vcert] must not overwrite outputs that are there *)
Definition not_overwriting (hash : uint256) : M W bool :=
  let* coins := on_coins (AccessCoins hash) in
  match coins with
  | Some c => if negb (IsPruned c) then on_state (reject 100 INVALID "bad-txns-BIP30") else ret true
  | None => ret true
  end.

Section Flags.
  (** [fExpensiveChecks], [fScRelatedChecks] and [fScProofVerification]; the height of
      the block *)
  Context (fExpensiveChecks fScRelatedChecks fScProofVerification : bool) (nHeight : Z).

(** the checks of a transaction other than the coinbase *)
Definition check_tx (a : ConnAcc) (tx : CTransaction) : M W (option ConnAcc) :=
  let* have := on_coins (HaveInputs tx) in
  if negb have then reject_none (reject 100 INVALID "bad-txns-inputs-missingorspent")
  else
    let* ret_code := on_coins (IsScTxApplicableToState tx MINIMUM_IN_A_RANGE) in
    if negb (bool_decide (ret_code.1 = OK)) then reject_none (reject 100 ret_code.1 "bad-sc-tx-not-applicable")
    else
      let* proofs := (if fScProofVerification then on_coins (LoadDataForCswVerification fExpensiveChecks tx (ca_proofs a))
                      else ret (ca_proofs a)) in
      let* js := on_coins (HaveJoinSplitRequirements tx) in
      if negb js then reject_none (reject 100 INVALID "bad-txns-joinsplit-requirements-not-met")
      else
        let* n := on_coins (GetP2SHSigOpCount tx) in
        let nSigOps := to_u32 (ca_nSigOps a + n) in
        if MAX_BLOCK_SIGOPS <? nSigOps then reject_none (reject 100 INVALID "bad-blk-sigops")
        else
          let* valueIn := on_coins (GetValueIn tx) in
          let* valueOut := lift (GetValueOut tx) in
          let* vChecks := ContextualCheckTxInputs env (tx_VerifyScript CheckLowS Verify (env_safeDepth env) (env_chain env) tx) tx
                            fExpensiveChecks block_script_flags threads in
          match vChecks with
          | None => ret None
          | Some vChecks =>
              ret (Some (mkAcc (ca_nFees a + (valueIn - valueOut)) nSigOps (ca_undo a) (ca_tree a) (ca_checks a ++ vChecks) proofs
                           (ca_sctxs a) (ca_sccerts a)))
          end.

Definition add_csw_nullifiers (l : list CTxCeasedSidechainWithdrawalInput) : M C bool :=
  for_each l (fun w => AddCswNullifier (csw_scId w) (csw_nullifier w)).

(** the effects of a transaction on the view *)
Definition apply_tx (a : ConnAcc) (first : bool) (tx : CTransaction) : M W (option ConnAcc) :=
  let* undo := on_coins (UpdateCoins tx [] nHeight) in
  let bu := if first then ca_undo a else push_undo undo (ca_undo a) in
  let* ok := (if first then ret true
              else
                let* ok := on_coins (UpdateSidechain tx nHeight) in
                if negb ok then on_state (reject 100 INVALID "bad-sc-tx")
                else
                  let* ok := on_coins (add_csw_nullifiers (vcsw_ccin tx)) in
                  if negb ok then on_state (reject 100 INVALID "bad-txns-csw-input-nullifier") else ret true) in
  if negb ok then ret None
  else
    let* tree := lift (append_commitments (concat (map commitments (vjoinsplit tx))) (ca_tree a)) in
    ret (Some (mkAcc (ca_nFees a) (ca_nSigOps a) bu tree (ca_checks a) (ca_proofs a)
                 (if fScRelatedChecks then ca_sctxs a ++ [tx] else ca_sctxs a) (ca_sccerts a))).

Definition connect_tx (a : ConnAcc) (x : nat * CTransaction) : M W (option ConnAcc) :=
  let tx := x.2 in
  let* n := lift (tx_GetLegacySigOpCount tx) in
  let nSigOps := to_u32 (ca_nSigOps a + n) in
  if MAX_BLOCK_SIGOPS <? nSigOps then reject_none (reject 100 INVALID "bad-blk-sigops")
  else
    let a := mkAcc (ca_nFees a) nSigOps (ca_undo a) (ca_tree a) (ca_checks a) (ca_proofs a) (ca_sctxs a) (ca_sccerts a) in
    let* r := (if negb (IsCoinBase tx) then check_tx a tx else ret (Some a)) in
    match r with
    | None => ret None
    | Some a => apply_tx a (Nat.eqb x.1 0) tx
    end.

(** the sidechains of certificates, for [HighQualityCertData] *)
Fixpoint read_sidechains (certs : list CScCertificate) : M C (gmap Z CSidechain) :=
  match certs with
  | [] => ret ∅
  | c :: certs' =>
      let* o := GetSidechain (cert_scId c) in
      let* m := read_sidechains certs' in
      ret (match o with Some s => <[cert_scId c := s]> m | None => m end)
  end.

Definition check_cert (a : ConnAcc) (cert : CScCertificate) : M W (option ConnAcc) :=
  let* have := on_coins (HaveInputs cert) in
  if negb have then reject_none (reject 100 INVALID "bad-cert-inputs-missingorspent")
  else
    let* n := on_coins (GetP2SHSigOpCount cert) in
    let nSigOps := to_u32 (ca_nSigOps a + n) in
    if MAX_BLOCK_SIGOPS <? nSigOps then reject_none (reject 100 INVALID "bad-blk-sigops")
    else
      let* valueIn := on_coins (GetValueIn cert) in
      let* vChecks := ContextualCheckCertInputs env (cert_VerifyScript CheckLowS Verify (env_safeDepth env) (env_chain env) cert) cert
                        fExpensiveChecks block_script_flags threads in
      match vChecks with
      | None => ret None
      | Some vChecks =>
          let* ret_code := on_coins (IsCertApplicableToState cert) in
          if negb (bool_decide (ret_code.1 = OK)) then reject_none (reject 100 ret_code.1 "bad-sc-cert-not-applicable")
          else
            let* proofs := (if fScProofVerification then on_coins (LoadDataForCertVerification fExpensiveChecks cert (ca_proofs a))
                            else ret (ca_proofs a)) in
            ret (Some (mkAcc (ca_nFees a + cert_GetFeeAmount cert valueIn) nSigOps (ca_undo a) (ca_tree a) (ca_checks a ++ vChecks)
                         proofs (ca_sctxs a) (ca_sccerts a)))
      end.

(** the backward transfers of the certificate that is superseded *)
Definition supersede (cert : CScCertificate) (prevHash : uint256) (bu : CBlockUndo) : M C CBlockUndo :=
  if negb (prevHash =? 0) then
    match scUndoDatabyScId bu !! cert_scId cert with
    | None => fail out_of_bounds
    | Some u =>
        let* bwts := NullifyBackwardTransfers prevHash (lowQualityBwts u) in
        ret (set_undo (cert_scId cert) (undo_superseded bwts u) bu)
    end
  else ret bu.

Definition apply_cert (hq : gmap uint256 uint256) (a : ConnAcc) (cert : CScCertificate) : M W (option ConnAcc) :=
  let top := hq !! cert_hash cert in
  let* undo := on_coins (UpdateCoins_cert cert [] nHeight (bool_decide (is_Some top))) in
  let bu := push_undo undo (ca_undo a) in
  let* o := on_coins (GetSidechain (cert_scId cert)) in
  match o with
  | None => fail AssertFailed
  | Some _ =>
      let* r := (match top with
                 | None => ret (Some bu)
                 | Some prevHash =>
                     let* '(ok, bu) := on_coins (UpdateSidechain_cert cert bu) in
                     if negb ok then reject_none (reject 100 INVALID "bad-sc-cert-not-updated")
                     else let* bu := on_coins (supersede cert prevHash bu) in ret (Some bu)
                 end) in
      match r with
      | None => ret None
      | Some bu =>
          if fScRelatedChecks then
            let* o := on_coins (GetSidechain (cert_scId cert)) in
            ret (Some (mkAcc (ca_nFees a) (ca_nSigOps a) bu (ca_tree a) (ca_checks a) (ca_proofs a) (ca_sctxs a)
                         (ca_sccerts a ++ [(cert, default CSidechain_null o)])))
          else ret (Some (with_undo bu a))
      end
  end.

Definition connect_cert (hq : gmap uint256 uint256) (a : ConnAcc) (cert : CScCertificate) : M W (option ConnAcc) :=
  let* n := lift (cert_GetLegacySigOpCount cert) in
  let nSigOps := to_u32 (ca_nSigOps a + n) in
  if MAX_BLOCK_SIGOPS <? nSigOps then reject_none (reject 100 INVALID "bad-blk-sigops")
  else
    let a := mkAcc (ca_nFees a) nSigOps (ca_undo a) (ca_tree a) (ca_checks a) (ca_proofs a) (ca_sctxs a) (ca_sccerts a) in
    let* r := check_cert a cert in
    match r with
    | None => ret None
    | Some a => apply_cert hq a cert
    end.

(** from the loop over the transactions to the scheduled events *)
Definition connect_contents (block : CBlock) (bu : CBlockUndo) (tree : Tree) : M W (option ConnAcc) :=
  let* r := for_acc (indexed (vtx block)) (mkAcc 0 0 bu tree [] ∅ [] []) connect_tx in
  match r with
  | None => ret None
  | Some a =>
      let* scs := on_coins (read_sidechains (vcert block)) in
      let* hq := lift (HighQualityCertData_connect (vcert block) (fun id => scs !! id)) in
      let* r := for_acc (vcert block) a (connect_cert hq) in
      match r with
      | None => ret None
      | Some a =>
          let* '(ok, bu) := on_coins (HandleSidechainEvents nHeight (ca_undo a)) in
          if negb ok then reject_none (reject 100 INVALID "bad-sc-events-handling")
          else ret (Some (with_undo bu a))
      end
  end.

(** the checks that are left when the contents are processed *)
Definition final_checks (block : CBlock) (a : ConnAcc) : M W bool :=
  let* subsidy := lift (GetBlockSubsidy nHeight (GetConsensus net)) in
  match vtx block with
  | [] => fail bad_index
  | cb :: _ =>
      let* out := lift (GetValueOut cb) in
      if ca_nFees a + subsidy <? out then on_state (reject 100 INVALID "bad-cb-amount")
      else
        let* ok := lift (run_checks (ca_checks a)) in
        if negb ok then on_state (reject 100 OK EmptyString)
        else if fScRelatedChecks && negb (hashScTxsCommitment (header block) =? getCommitment (ca_sctxs a) (ca_sccerts a))
        then on_state (reject 100 INVALID "bad-sc-txs-commitment")
        else if fScProofVerification && negb (is_empty (map_to_list (ca_proofs a))) && fExpensiveChecks && negb (BatchVerify (ca_proofs a))
        then on_state (reject 100 INVALID_PROOF "bad-sc-proof")
        else ret true
  end.
End Flags.

(** the entries of the index, the map from hashes to them, the checkpoints; the entry of the block is [pindex] *)
Section Block.
  Context `{Secp256k1} (io : UndoIO) (st : NodeStore) (index : gmap uint256 ptr) (mapCheckpoints : list (Z * uint256)) (fCheckpointsEnabled : bool)
          (hashGenesisBlock : uint256).
Local Notation S := (Conn V).

Definition pprev_hash (e : BlockNode) : res (option uint256) :=
  match px_pprev e with
  | None => Ok None
  | Some q => match st !! q with Some e' => Ok (Some (px_phashBlock e')) | None => Err null_pointer end
  end.

Definition expensive_checks (pindex : ptr) (e : BlockNode) : res bool :=
  if fCheckpointsEnabled then
    match GetLastCheckpoint mapCheckpoints index with
    | None => Ok true
    | Some p => res_bind (GetAncestor (entries st) p (px_nHeight e)) (fun a => Ok (negb (bool_decide (a = Some pindex))))
    end
  else Ok true.

(** the undo data written, when it is not there, and the entry updated *)
Definition write_undo (undo : CBlockUndo) : M S bool :=
  let* s := get in
  let e := cn_index s in
  if pos_IsNull (GetUndoPos e) || negb (node_IsValid e BLOCK_VALID_SCRIPTS) then
    let* ok :=
      (if pos_IsNull (GetUndoPos e) then
         let* pos := on_disk (FindUndoPos io (px_nFile e) (to_u32 (BlockUndo_GetSerializeSize undo + 40))) in
         match pos with
         | None => on_pair (on_state (Error "out of disk space"))
         | Some pos =>
             let* prev := lift (pprev_hash e) in
             match prev with
             | None => fail null_pointer
             | Some prev =>
                 let* pos := on_disk (UndoWriteToDisk io net undo pos prev) in
                 match pos with
                 | None => on_pair (on_state (Error "Failed to write undo data"))
                 | Some pos => on_index (fun e => or_status BLOCK_HAVE_UNDO (set_nUndoPos (pos_nPos pos) e)) ;;; ret true
                 end
             end
         end
       else ret true) in
    if negb ok then ret false
    else on_index (RaiseValidity BLOCK_VALID_SCRIPTS) ;;; mark_index_dirty ;;; ret true
  else ret true.

(** all but the writing of the undo data; [None] is a rejection, and the genesis block
    has no undo data. [complete] is [processingType == COMPLETE]. *)
Definition connect_view (pindex : ptr) (block : CBlock) (complete fScRelatedChecks fScProofVerification : bool) : M S (option (option CBlockUndo)) :=
  let fScRelatedChecks := fScRelatedChecks && (hd_nVersion (header block) =? BLOCK_VERSION_SC_SUPPORT) in
  let* s := get in
  let e := cn_index s in
  let* fExpensiveChecks := lift (expensive_checks pindex e) in
  let* ok := on_pair (on_state (CheckBlock (if fExpensiveChecks then js_Verify else fun _ _ => true) crypto_sign_verify_detached
               CheckEquihashSolution pow block complete complete)) in
  if negb ok then ret None
  else
    let* prev := lift (pprev_hash e) in
    let* best := on_pair (on_coins GetBestBlock) in
    massert (default 0 prev =? best) ;;;
    if header_GetHash (header block) =? hashGenesisBlock then
      (if complete then
         on_pair (on_coins (SetBestBlock (px_phashBlock e))) ;;;
         let root := tree_root INCREMENTAL_MERKLE_TREE_DEPTH empty_tree in
         on_index (fun e => set_hashAnchorEnd root (set_hashAnchor root e))
       else ret tt) ;;;
      ret (Some None)
    else
      let* ok := on_pair (for_each (map tx_hash (vtx block) ++ map cert_hash (vcert block)) not_overwriting) in
      if negb ok then ret None
      else
        let* old_tree_root := on_pair (on_coins GetBestAnchor) in
        (if complete then on_index (set_hashAnchor old_tree_root) else ret tt) ;;;
        let* tree := on_pair (on_coins (GetAnchorAt old_tree_root)) in
        match tree with
        | None => fail AssertFailed
        | Some tree =>
            massert (tree_root INCREMENTAL_MERKLE_TREE_DEPTH tree =? old_tree_root) ;;;
            let* r := on_pair (connect_contents fExpensiveChecks fScRelatedChecks fScProofVerification (px_nHeight e) block
                        (BlockUndo_init (hd_nVersion (header block) =? BLOCK_VERSION_SC_SUPPORT)) tree) in
            match r with
            | None => ret None
            | Some a =>
                on_pair (on_coins (PushAnchor (ca_tree a))) ;;;
                (if complete then on_index (set_hashAnchorEnd (tree_root INCREMENTAL_MERKLE_TREE_DEPTH (ca_tree a))) else ret tt) ;;;
                let* ok := on_pair (final_checks fExpensiveChecks fScRelatedChecks fScProofVerification (px_nHeight e) block a) in
                ret (if ok then Some (Some (set_old_root old_tree_root (ca_undo a))) else None)
            end
        end.

Definition ConnectBlock (pindex : ptr) (block : CBlock) (complete fScRelatedChecks fScProofVerification : bool) : M S bool :=
  let* r := connect_view pindex block complete fScRelatedChecks fScProofVerification in
  match r with
  | None => ret false
  | Some None => ret true
  | Some (Some undo) =>
      if negb complete then ret true
      else
        let* ok := write_undo undo in
        if negb ok then ret false
        else
          let* s := get in
          on_pair (on_coins (SetBestBlock (px_phashBlock (cn_index s)))) ;;; ret true
  end.
End Block.
End Connect.

(** ** Disconnecting *)
Section Disconnect.
  Context {V : Type} `{CCoinsView V} `{MerkleHash Z} `{NodeConfig}.
Local Notation C := (CCoinsViewCache V).

(** [None] is an early [return error(...)]; otherwise [fClean] *)
Definition disconnect_cert (nHeight : Z) (hq : gmap uint256 uint256) (undo : CBlockUndo) (fClean : bool) (x : CScCertificate * CTxUndo)
  : M C (option bool) :=
  let '(cert, certUndo) := x in
  let top := hq !! cert_hash cert in
  let* o := GetSidechain (cert_scId cert) in
  match o with
  | None => fail AssertFailed
  | Some sidechain =>
      let outsBlock := Coins_From_cert cert nHeight (GetCertMaturityHeight sidechain (epochNumber cert)) (bool_decide (is_Some top)) in
      let* same := remove_outputs (cert_hash cert) outsBlock in
      let fClean := fClean && same in
      let* ok := (match top with
                  | None => ret true
                  | Some prevHash =>
                      match scUndoDatabyScId undo !! cert_scId cert with
                      | None => fail out_of_bounds
                      | Some u =>
                          (if negb (prevHash =? 0) then
                             massert (has (contentBitMask u) SUPERSEDED_CERT_DATA) ;;;
                             let* _ := RestoreBackwardTransfers prevHash (lowQualityBwts u) in ret tt
                           else ret tt) ;;;
                          RestoreSidechain cert u
                      end
                  end) in
      if negb ok then ret None
      else if negb (vsize certUndo =? vsize (cert_vin cert)) then ret None
      else let* fClean := undo_inputs (rev (zip (cert_vin cert) certUndo)) fClean in ret (Some fClean)
  end.

(** [undo] is absent for the coinbase *)
Definition disconnect_tx (nHeight : Z) (fClean : bool) (x : CTransaction * option CTxUndo) : M C (option bool) :=
  let '(tx, txundo) := x in
  let* same := remove_outputs (tx_hash tx) (Coins_From_tx tx nHeight) in
  let fClean := fClean && same in
  set_nullifiers (tx_nullifiers tx) false ;;;
  let* ok := for_each (vcsw_ccin tx) (fun w => RemoveCswNullifier (csw_scId w) (csw_nullifier w)) in
  if negb ok then ret None
  else
    let* ok := RevertTxOutputs tx nHeight in
    if negb ok then ret None
    else
      match txundo with
      | None => ret (Some fClean)
      | Some txundo =>
          if negb (vsize txundo =? vsize (tx_vin tx)) then ret None
          else let* fClean := undo_inputs (rev (zip (tx_vin tx) txundo)) fClean in ret (Some fClean)
      end.

(** the undo data of the transactions but the first and of the certificates *)
Definition tx_undos (block : CBlock) (undo : CBlockUndo) : list (option CTxUndo) :=
  None :: map Some (take (pred (length (vtx block))) (vtxundo undo)).

Definition cert_undos (block : CBlock) (undo : CBlockUndo) : list CTxUndo := drop (pred (length (vtx block))) (vtxundo undo).

(** the contents of the block taken from the view; [None] is an early return *)
Definition disconnect_contents (block : CBlock) (nHeight : Z) (undo : CBlockUndo) : M C (option bool) :=
  if negb (vsize (vtxundo undo) =? to_u64 (vsize (vtx block) - 1 + vsize (vcert block))) then ret None
  else
    let* ok := RevertSidechainEvents undo nHeight in
    if negb ok then ret None
    else
      let* hq := lift (HighQualityCertData_disconnect (vcert block) undo) in
      let* r := for_acc (rev (zip (vcert block) (cert_undos block undo))) true (disconnect_cert nHeight hq undo) in
      match r with
      | None => ret None
      | Some fClean =>
          let* r := for_acc (rev (zip (vtx block) (tx_undos block undo))) fClean (disconnect_tx nHeight) in
          match r with
          | None => ret None
          | Some fClean => PopAnchor (old_tree_root undo) ;;; ret (Some fClean)
          end
      end.

(** the value returned and [*pfClean], which the callers that pass it read; [withClean]
    is whether it is passed *)
Definition DisconnectBlock `{Secp256k1} (st : NodeStore) (files : UndoFiles) (e : BlockNode) (block : CBlock) (withClean : bool) : M C (bool * bool) :=
  let* best := GetBestBlock in
  massert (px_phashBlock e =? best) ;;;
  let pos := GetUndoPos e in
  if pos_IsNull pos then ret (false, false)
  else
    let* prev := lift (pprev_hash st e) in
    match prev with
    | None => fail null_pointer
    | Some prev =>
        match UndoReadFromDisk files (BlockUndo_init (hd_nVersion (header block) =? BLOCK_VERSION_SC_SUPPORT)) pos prev with
        | None => ret (false, false)
        | Some undo =>
            let* r := disconnect_contents block (px_nHeight e) undo in
            match r with
            | None => ret (false, false)
            | Some fClean =>
                SetBestBlock prev ;;;
                ret (if withClean then true else fClean, fClean)
            end
        end
    end.
End Disconnect.
