(* ===== verification/LedgerSteps.v ===== *)
(** * What a block does to the ledger

    The relations [tx_conn] and [cert_conn] say what an accepted transaction or
    certificate does to the ledger and what it records to be undone, [contents_conn] what
    a block does; [good_led] is an invariant that they keep. *)

From stdpp Require Import base numbers list strings gmap fin_maps sets option.
From Stdlib Require Import ZArith Lia.
From S2P Require Import Prelude.
From S2P Require Import Amount.
From S2P Require Import Serialize.
From S2P Require Import ScTypes.
From S2P Require Import Forks.
From S2P Require Import Compress.
From S2P Require Import Sidechain.
From S2P Require Import Coins.
From S2P Require Import CoinsSer.
From S2P Require Import Undo.
From S2P Require Import Merkle.
From S2P Require Import View.
From S2P Require Import ViewLaws.
From S2P Require Import TopLaws.
From S2P Require Import ViewOps.
From S2P Require Import ScOps.
From S2P Require Import ScApply.
From S2P Require Import ScRound.
From S2P Require Import BlockCoins.
From S2P Require Import ScCert.
From S2P Require Import BwtOps.
From S2P Require Import ScEvents.
From S2P Require Import ScInv.
From S2P Require Import UndoNorm.
From S2P Require Import Script.
From S2P Require Import Interpreter.
From S2P Require Import Standard.
From S2P Require Import Primitives.
From S2P Require Import Chain.
From S2P Require Import BlockData.
From S2P Require Import BlockIndex.
From S2P Require Import TxSer.
From S2P Require Import SigHash.
From S2P Require Import Pow.
From S2P Require Import Checks.
From S2P Require Import Inputs.
From S2P Require Import Connect.
Open Scope Z_scope.
Open Scope zen_scope.

(** ** The ledger: what blocks change but for the anchors and the best block *)
Record Led := mkLed {
  l_coins : gmap Z CCoins;
  l_se : SE;
  l_csw : gmap (Z * bytes) unit;
  l_null : gmap Z unit }.

Definition led (a : AbsView) : Led := mkLed (a_coins a) (a_sc a, a_ev a) (a_csw a) (a_null a).

Definition join (l : Led) (a : AbsView) : AbsView :=
  mkAbs (l_coins l) (l_se l).1 (l_se l).2 (l_csw l) (l_null l) (a_roots a) (a_block a) (a_anchor a).

Lemma join_led a : join (led a) a = a.
Proof. by destruct a. Qed.

(** ** Nullifiers of withdrawals *)
Definition csw_keys (tx : CTransaction) : list (Z * bytes) := map (fun w => (csw_scId w, csw_nullifier w)) (vcsw_ccin tx).

Definition csw_add (ks : list (Z * bytes)) (m : gmap (Z * bytes) unit) : gmap (Z * bytes) unit := foldl (fun m k => <[k := tt]> m) m ks.

Definition csw_rem (ks : list (Z * bytes)) (m : gmap (Z * bytes) unit) : gmap (Z * bytes) unit := foldl (fun m k => delete k m) m ks.

Lemma lookup_csw_add ks m k : csw_add ks m !! k = if decide (k ∈ ks) then Some tt else m !! k.
Proof.
  revert m. induction ks as [|k' ks IH]; intros m; cbn; [done|]. change (csw_add ks (<[k' := tt]> m) !! k = if decide (k ∈ k' :: ks) then Some tt else m !! k).
  rewrite IH. destruct (decide (k ∈ ks)); [by rewrite decide_True by set_solver|]. destruct (decide (k = k')) as [->|].
  - by rewrite lookup_insert_eq, decide_True by set_solver.
  - by rewrite lookup_insert_ne, decide_False by set_solver.
Qed.

Lemma lookup_csw_rem ks m k : csw_rem ks m !! k = if decide (k ∈ ks) then None else m !! k.
Proof.
  revert m. induction ks as [|k' ks IH]; intros m; cbn; [done|]. change (csw_rem ks (delete k' m) !! k = if decide (k ∈ k' :: ks) then None else m !! k).
  rewrite IH. destruct (decide (k ∈ ks)); [by rewrite decide_True by set_solver|]. destruct (decide (k = k')) as [->|].
  - by rewrite lookup_delete_eq, decide_True by set_solver.
  - by rewrite lookup_delete_ne, decide_False by set_solver.
Qed.

Lemma csw_back ks m : Forall (fun k => m !! k = None) ks -> csw_rem ks (csw_add ks m) = m.
Proof.
  intros Hn. apply map_eq. intros k. rewrite lookup_csw_rem, lookup_csw_add. case_decide as Hk; [|done].
  symmetry. rewrite list.Forall_forall in Hn. by apply Hn.
Qed.

(** ** Transactions *)
Definition inputs (tx : CTransaction) : list CTxIn := if IsCoinBase tx then [] else tx_vin tx.

(** the transaction connected at height [h], with the outputs it spends *)
Definition tx_conn `{NodeConfig} (h : Z) (tx : CTransaction) (us : CTxUndo) (l l' : Led) : Prop :=
  exists D, spent (l_coins l) (inputs tx) us D
    /\ l_coins l !! tx_hash tx = None
    /\ Forall (fun nf => l_null l !! nf = None) (tx_nullifiers tx)
    /\ enabled_all h (concat (groups tx)) (l_se l) /\ funded_all h (concat (groups tx)) (l_se l)
    /\ NoDup (csw_keys tx) /\ Forall (fun k => l_csw l !! k = None) (csw_keys tx)
    /\ l' = mkLed (partial_alter (fun _ => coins_abs (Coins_From_tx tx h)) (tx_hash tx) D)
              (conn_all h (concat (groups tx)) (l_se l)) (csw_add (csw_keys tx) (l_csw l))
              (mark_null (tx_nullifiers tx) true (l_null l)).

(** the fields of the transaction in the ranges of their types, its outputs with amounts *)
Definition tx_fits (tx : CTransaction) : Prop :=
  Forall (fun i => 0 <= op_n (prevout i)) (tx_vin tx) /\ outputs_ok (tx_nVersion tx) tx
  /\ exact_version (tx_nVersion tx) = true /\ vsize (tx_vout tx) < 2 ^ 32.

(** nothing but inputs and outputs in the coinbase *)
Definition plain (tx : CTransaction) : Prop := concat (groups tx) = [] /\ tx_nullifiers tx = [].

Section Steps.
  Context `{NodeConfig} `{ZendooLib} (h : Z).

(** ** The transactions of a block *)
Inductive txs_conn : list CTransaction -> list CTxUndo -> Led -> Led -> Prop :=
| txs_nil l : txs_conn [] [] l l
| txs_cons tx us txs uss l l1 l2 : tx_conn h tx us l l1 -> txs_conn txs uss l1 l2 -> txs_conn (tx :: txs) (us :: uss) l l2.

Definition absent (ks : list Z) (l : Led) : Prop := Forall (fun k => l_coins l !! k = None) ks.

Lemma ClearUnspendable_size c n : vsize (vout c) < n -> vsize (vout (ClearUnspendable c)) < n.
Proof.
  intros Hc. unfold ClearUnspendable, Cleanup. cbn [vout set_vout]. destruct (pop_null_back_prefix (map (fun o => if IsUnspendable (scriptPubKey o) then TxOut_SetNull else o) (vout c))) as [k ->].
  unfold vsize in *. rewrite length_take, length_map. lia.
Qed.

Lemma Coins_From_tx_bound tx : 0 < h < 2 ^ 31 -> vsize (tx_vout tx) < 2 ^ 32 -> coins_bound (Coins_From_tx tx h).
Proof.
  intros Hh Hv. split; [done|]. split; [by apply ClearUnspendable_size|cbn; unfold BWT_POS_UNSET; lia].
Qed.

Lemma bounded_add k co D : coins_bound co -> bounded D -> bounded (partial_alter (fun _ => coins_abs co) k D).
Proof.
  intros Hc Hd i c. destruct (decide (i = k)) as [->|].
  - rewrite lookup_partial_alter_eq. unfold coins_abs. destruct (IsPruned co); [done|]. intros [= <-]. exact Hc.
  - rewrite lookup_partial_alter_ne by done. apply Hd.
Qed.

Lemma tx_conn_keeps tx us l l' ks :
  0 < h < 2 ^ 31 -> tx_fits tx -> tx_conn h tx us l l' -> tx_hash tx ∉ ks -> bounded (l_coins l) -> absent ks l ->
  bounded (l_coins l') /\ absent ks l'.
Proof.
  intros Hh (_ & _ & _ & Hv) (D & Hs & _ & _ & _ & _ & _ & _ & ->) Hk Hb Ha. cbn. split.
  - apply bounded_add; [by apply Coins_From_tx_bound|]. by eapply spent_bounded.
  - unfold absent in *. rewrite list.Forall_forall in Ha |- *. intros k Hin. cbn. rewrite lookup_partial_alter_ne by congruence.
    eapply spent_absent; [done|]. by apply Ha.
Qed.

Definition extends_undo (uss : list CTxUndo) (b b' : CBlockUndo) : Prop :=
  b' = mkBlockUndo (includesSidechainAttributes b) (vtxundo b ++ uss) (old_tree_root b) (scUndoDatabyScId b).

Lemma extends_undo_trans u1 u2 b1 b2 b3 : extends_undo u1 b1 b2 -> extends_undo u2 b2 b3 -> extends_undo (u1 ++ u2) b1 b3.
Proof. unfold extends_undo. intros -> ->. cbn. by rewrite app_assoc. Qed.

(** ** Certificates *)
Lemma Spend_canon n c : canon (vout c) -> canon (vout (Spend n c).2).
Proof.
  intros Hc. unfold Spend. destruct (vout c !! _); [|done]. destruct (TxOut_IsNull _); [done|]. apply canon_pop. cbn. by apply canon_insert.
Qed.

(** the vector shrinks, the rest stays *)
Definition part_of (c c' : CCoins) : Prop :=
  (canon (vout c) -> canon (vout c')) /\ set_vout (vout c) c' = c /\ vsize (vout c') <= vsize (vout c).

Lemma Spend_part n c : part_of c (Spend n c).2.
Proof.
  split; [apply Spend_canon|]. split; [apply Spend_header|]. unfold Spend. destruct (vout c !! _); [|done]. destruct (TxOut_IsNull _); [done|]. cbn.
  destruct (pop_null_back_prefix (<[Z.to_nat n:=TxOut_SetNull]> (vout c))) as [k ->]. unfold vsize. rewrite length_take, length_insert. lia.
Qed.

Lemma part_of_trans c1 c2 c3 : part_of c1 c2 -> part_of c2 c3 -> part_of c1 c3.
Proof.
  intros (Ha & Hb & Hc) (Hd & He & Hf). split; [auto|]. split; [|lia]. rewrite <- Hb at 2. rewrite <- He. by rewrite set_vout_twice.
Qed.

Lemma spend_bwts_part fuel pos c : part_of c (spend_bwts fuel pos c).
Proof.
  revert pos c. induction fuel as [|fuel IH]; intros pos c; cbn [spend_bwts].
  { split; [done|]. split; [by destruct c|lia]. }
  destruct (pos <? vsize (vout c)); [|split; [done|]; split; [by destruct c|lia]]. eapply part_of_trans; [apply Spend_part|apply IH].
Qed.

(** the fields of the certificate in the ranges of their types, its outputs with amounts *)
Definition cert_fits (c : CScCertificate) : Prop :=
  Forall (fun i => 0 <= op_n (prevout i)) (cert_vin c) /\ outputs_ok (cert_nVersion c) c
  /\ cert_nVersion c = SC_CERT_VERSION /\ vsize (cert_vout c) < 2 ^ 32 /\ - 2 ^ 31 <= nFirstBwtPos c < 2 ^ 31.

Lemma Coins_From_cert_part cert n m top :
  exists c1, Coins_From_cert cert n m top = ClearUnspendable c1
    /\ part_of (mkCoins false (cert_vout cert) n (cert_nVersion cert) (nFirstBwtPos cert) m) c1.
Proof.
  unfold Coins_From_cert. destruct top; cbn [negb]; eexists; (split; [done|]); [|apply spend_bwts_part].
  split; [done|]. split; [done|lia].
Qed.

Lemma Coins_From_cert_fit cert n m top : cert_fits cert ->
  coins_fit (Coins_From_cert cert n m top) /\ clean (vout (Coins_From_cert cert n m top)).
Proof.
  intros (_ & [Ho Hv] & _). destruct (Coins_From_cert_part cert n m top) as (c1 & -> & Hc & Hh & _).
  split; [split; [apply ClearUnspendable_canon, Hc, canon_outputs, Ho|]|apply pop_null_back_idem].
  cbn. apply (f_equal nVersion) in Hh. cbn in Hh. by rewrite Hh.
Qed.

Lemma Coins_From_cert_bound cert n m top : 0 < n < 2 ^ 31 -> cert_fits cert -> coins_bound (Coins_From_cert cert n m top).
Proof.
  intros Hn (_ & _ & _ & Hv & Hp). destruct (Coins_From_cert_part cert n m top) as (c1 & -> & _ & Hh & Hs).
  pose proof (f_equal nHeight Hh) as E1. pose proof (f_equal coins_nFirstBwtPos Hh) as E2. cbn in E1, E2, Hs.
  split; [cbn; by rewrite E1|]. split; [apply ClearUnspendable_size; lia|cbn; by rewrite E2].
Qed.

(** the certificate [cert] with the hash it supersedes: the coins and the undo data of the sidechain *)
Definition superseded (p : Z) (D : gmap Z CCoins) (u : CSidechainUndoData) (D' : gmap Z CCoins) (u' : CSidechainUndoData) : Prop :=
  if p =? 0 then D' = D /\ u' = u
  else exists low, bwts_nullified D p low D' /\ u' = undo_superseded (lowQualityBwts u ++ low) u.

Definition cert_outs (cert : CScCertificate) (s : CSidechain) (top : option Z) : option CCoins :=
  coins_abs (Coins_From_cert cert h (GetCertMaturityHeight s (epochNumber cert)) (bool_decide (is_Some top))).

(** [cert] connected; [top] is what [HighQualityCertData] has for it *)
Definition cert_conn (top : option Z) (cert : CScCertificate) (us : CTxUndo) (bu : CBlockUndo) (l : Led) (bu' : CBlockUndo) (l' : Led) : Prop :=
  let sid := cert_scId cert in
  exists D s, spent (l_coins l) (cert_vin cert) us D /\ l_coins l !! cert_hash cert = None
    /\ (l_se l).1 !! sid = Some s /\ isCreationConfirmed s = true /\ h <= GetScheduledCeasingHeight s
    /\ let D1 := partial_alter (fun _ => cert_outs cert s top) (cert_hash cert) D in
       match top with
       | None => bu' = push_undo us bu /\ l' = mkLed D1 (l_se l) (l_csw l) (l_null l)
       | Some p => exists u1 u2 s' D2, cert_step cert (undo_at sid bu) s u1 s' /\ sc_mem_ok s /\ superseded p D1 u1 D2 u2
           /\ bu' = set_undo sid u2 (push_undo us bu) /\ l' = mkLed D2 (conn_cert cert s s' (l_se l)) (l_csw l) (l_null l)
       end.

Lemma nullified_keeps D p low D' : bwts_nullified D p low D' -> bounded D -> bounded D' /\ forall k, D !! k = None -> D' !! k = None.
Proof.
  intros Hn Hb. apply bwts_voided in Hn as (o' & Hv & ->). split; [by eapply voided_bounded|]. intros k Hk.
  destruct (decide (k = p)) as [->|]; [|by rewrite lookup_partial_alter_ne]. rewrite lookup_partial_alter_eq. rewrite Hk in Hv.
  destruct Hv as [(_ & _ & ->)|(a & [=] & _)]. done.
Qed.

Lemma conn_cert_version cert s s' se : ev_version se.2 -> ev_version (conn_cert cert s s' se).2.
Proof. intros Hv. unfold conn_cert. cbn. destruct (cert_moves cert s); [|done]. by apply upd_event_version, rem_event_version. Qed.

Lemma cert_conn_keeps top cert us bu l bu' l' ks :
  0 < h < 2 ^ 31 -> cert_fits cert -> cert_conn top cert us bu l bu' l' -> cert_hash cert ∉ ks ->
  bounded (l_coins l) -> absent ks l -> ev_version (l_se l).2 ->
  bounded (l_coins l') /\ absent ks l' /\ ev_version (l_se l').2.
Proof.
  intros Hh Hfit (D & s & Hs & _ & _ & _ & _ & Hm) Hk Hb Ha Hv. set (D1 := partial_alter _ _ _) in Hm.
  assert (Hb1 : bounded D1). { apply bounded_add; [by apply Coins_From_cert_bound|]. by eapply spent_bounded. }
  assert (Ha1 : Forall (fun k => D1 !! k = None) ks).
  { unfold absent in Ha. rewrite list.Forall_forall in Ha |- *. intros k Hin. unfold D1. rewrite lookup_partial_alter_ne by congruence.
    eapply spent_absent; [done|]. by apply Ha. }
  destruct top as [p|].
  - destruct Hm as (u1 & u2 & s' & D2 & _ & _ & Hsup & _ & ->). unfold absent. cbn. split_and!; [| |by apply conn_cert_version].
    + unfold superseded in Hsup. destruct (p =? 0); [by destruct Hsup as [-> _]|]. destruct Hsup as (low & Hn & _). by apply (nullified_keeps D1 p low).
    + unfold superseded in Hsup. destruct (p =? 0); [by destruct Hsup as [-> _]|]. destruct Hsup as (low & Hn & _).
      rewrite list.Forall_forall in Ha1 |- *. intros k Hin. eapply nullified_keeps; [done..|]. by apply Ha1.
  - by destruct Hm as [_ ->].
Qed.

(** the certificates of a block *)
Inductive certs_conn (hq : gmap Z Z) : list CScCertificate -> list CTxUndo -> CBlockUndo -> Led -> CBlockUndo -> Led -> Prop :=
| certs_nil bu l : certs_conn hq [] [] bu l bu l
| certs_cons cert us certs uss bu bu1 bu2 l l1 l2 :
    cert_conn (hq !! cert_hash cert) cert us bu l bu1 l1 -> certs_conn hq certs uss bu1 l1 bu2 l2 ->
    certs_conn hq (cert :: certs) (us :: uss) bu l bu2 l2.

(** ** The invariant of the ledger *)
Record good_led (l : Led) : Prop := {
  gl_bounded : bounded (l_coins l);
  gl_tidy : tidy_coins (l_coins l);
  gl_se : good_se h (l_se l) }.

(** amounts to sidechains are positive, new sidechains have epochs *)
Definition tx_sc_ok (tx : CTransaction) : Prop :=
  Forall (fun x => pos_item x = true) (concat (groups tx)) /\ Forall lasting (concat (groups tx)).

Lemma Coins_From_tx_tidy tx : tidy (Coins_From_tx tx h).
Proof. by right. Qed.

Lemma tx_conn_good tx us l l' : 0 < h < 2 ^ 31 -> tx_fits tx -> tx_sc_ok tx -> tx_conn h tx us l l' -> good_led l -> good_led l'.
Proof.
  intros Hh Hfit [Hp Hl] Hc [G1 G2 G3]. assert (Hb : bounded (l_coins l')).
  { apply (tx_conn_keeps tx us l l' [] Hh Hfit Hc); [set_solver|done|constructor]. }
  destruct Hc as (D & Hs & _ & _ & He & Hf & _ & _ & ->). split; cbn in *; [done| |].
  - apply tidy_alter; [apply Coins_From_tx_tidy|]. by eapply spent_tidy.
  - by apply conn_all_good.
Qed.

Lemma Coins_From_cert_tidy cert m top : cert_fits cert -> tidy (Coins_From_cert cert h m top).
Proof.
  intros (_ & _ & Hv & _). destruct (Coins_From_cert_part cert h m top) as (c1 & -> & _ & Hh & _). left. cbn.
  apply (f_equal nVersion) in Hh. cbn in Hh. by rewrite Hh, Hv.
Qed.

(** the last certificates of sidechains are not among those with the hashes [hs] *)
Definition old_certs (hs : list Z) (S : gmap Z CSidechain) : Prop :=
  map_Forall (fun _ s => lastTopQualityCertHash s ∉ hs \/ lastTopQualityCertReferencedEpoch s = EPOCH_NULL /\ lastTopQualityCertHash s = 0) S.

Lemma old_certs_key hs S i k : old_certs hs S -> cert_key S i = Some k -> k ∉ hs.
Proof.
  intros Ho. unfold cert_key. destruct (S !! i) as [s|] eqn:Es; [|done]. destruct (Z.eqb_spec (lastTopQualityCertReferencedEpoch s) EPOCH_NULL); [done|].
  intros [= <-]. destruct (Ho _ _ Es) as [|[? _]]; done.
Qed.

Lemma old_certs_conn x hs se : enabled h x se.1 -> old_certs hs se.1 -> old_certs hs (conn h x se).1.
Proof.
  destruct se as [S E]. intros He Ho. destruct x as [w|th cr|p]; cbn [conn fst snd enabled] in *.
  - intros sid s Hs. apply lookup_alter_Some in Hs as [(_ & s0 & Hs & ->)|[_ Hs]]; by apply (Ho _ _ Hs).
  - destruct He as [_ Hc]. destruct (rec_of_fields h _ _ Hc) as (_ & _ & _ & R4 & R5). apply map_Forall_insert_2; [by right|done].
  - intros sid s Hs. apply lookup_alter_Some in Hs as [(_ & s0 & Hs & ->)|[_ Hs]]; by apply (Ho _ _ Hs).
Qed.

Lemma old_certs_conn_all xs hs se : enabled_all h xs se -> old_certs hs se.1 -> old_certs hs (conn_all h xs se).1.
Proof. revert se. induction xs as [|x xs IH]; intros se He Ho; [done|]. destruct He as [E1 He]. cbn. apply IH; [done|]. by apply old_certs_conn. Qed.

Lemma txs_conn_good txs uss l l' hs :
  0 < h < 2 ^ 31 -> Forall tx_fits txs -> Forall tx_sc_ok txs -> txs_conn txs uss l l' -> good_led l -> old_certs hs (l_se l).1 ->
  good_led l' /\ old_certs hs (l_se l').1.
Proof.
  intros Hh Hfit Hok Htx. induction Htx as [|tx us txs uss l l1 l2 Ht Hts IH]; intros Hg Ho; [done|].
  apply list.Forall_cons in Hfit as [F1 Hfit], Hok as [O1 Hok]. apply IH; [done..|by eapply tx_conn_good|].
  destruct Ht as (D & _ & _ & _ & He & _ & _ & _ & ->). by apply old_certs_conn_all.
Qed.

Lemma cert_conn_good top cert us bu l bu' l' hs :
  0 < h < 2 ^ 31 -> cert_fits cert -> cert_hash cert ∉ hs -> cert_conn top cert us bu l bu' l' -> good_led l ->
  old_certs (cert_hash cert :: hs) (l_se l).1 -> good_led l' /\ old_certs hs (l_se l').1.
Proof.
  intros Hh Hfit Hn Hc [G1 G2 G3] Ho.
  assert (Ho' : old_certs hs (l_se l).1) by (eapply map_Forall_impl; [exact Ho|]; cbn; set_solver).
  assert (Hb : bounded (l_coins l')).
  { apply (cert_conn_keeps _ _ _ _ _ _ _ [] Hh Hfit Hc); [set_solver|done|constructor|apply G3]. }
  destruct Hc as (D & s & Hs & _ & Es & Hconf & Hlive & Hm). set (D1 := partial_alter _ _ _) in Hm.
  assert (Ht : tidy_coins D1). { apply tidy_alter; [by apply Coins_From_cert_tidy|]. by eapply spent_tidy. }
  destruct top as [p|]; [|destruct Hm as [_ ->]; split; [by split|done]].
  destruct Hm as (u1 & u2 & s' & D2 & Hstep & _ & Hsup & _ & ->). split; [split; cbn in *; [done| |]|].
  - unfold superseded in Hsup. destruct (p =? 0); [by destruct Hsup as [-> _]|]. destruct Hsup as (low & Hnul & _). by eapply bwts_nullified_tidy.
  - destruct (l_se l) as [S E]. eapply conn_cert_good; [done..|]. intros i Hk. apply (old_certs_key _ _ _ _ Ho) in Hk. set_solver.
  - cbn. apply map_Forall_insert_2; [|done]. destruct (cert_step_fields _ _ _ _ _ Hstep) as [_ _ _ _ F5 _ _ _ _ _ _ _]. left. by rewrite F5.
Qed.

Lemma certs_conn_good hq certs uss bu l bu' l' :
  0 < h < 2 ^ 31 -> Forall cert_fits certs -> NoDup (map cert_hash certs) -> certs_conn hq certs uss bu l bu' l' -> good_led l ->
  old_certs (map cert_hash certs) (l_se l).1 -> good_led l'.
Proof.
  intros Hh Hfit Hd Hc. induction Hc as [|cert us certs uss bu bu1 bu2 l l1 l2 Hc Hcs IH]; intros Hg Ho; [done|].
  apply list.Forall_cons in Hfit as [F1 Hfit]. cbn [map] in Hd, Ho. apply list.NoDup_cons in Hd as [D1 Hd].
  destruct (cert_conn_good _ _ _ _ _ _ _ _ Hh F1 D1 Hc Hg Ho) as [Hg1 Ho1]. by apply IH.
Qed.

(** ** The contents of a block *)
(** the events scheduled for the height *)
Definition events_conn (bu : CBlockUndo) (l : Led) (bu' : CBlockUndo) (l' : Led) : Prop :=
  let S := (l_se l).1 in
  let ev := events_at h (l_se l).2 in
  let M := set_iter (maturingScs ev) in
  let L := set_iter (ceasingScs ev) in
  exists W, Forall (fun sid => exists s, S !! sid = Some s /\ is_Some (mImmatureAmounts s !! h)) M
    /\ Forall (fun sid => is_Some (S !! sid)) L /\ voids_ok S (l_coins l) W L
    /\ map_Forall (fun _ => sc_mem_ok) S
    /\ bu' = record_events h S W ev bu
    /\ l' = mkLed (void_coins S W L (l_coins l)) (mature_all h M S, delete h (l_se l).2) (l_csw l) (l_null l).

Definition contents_conn (block : CBlock) (bu : CBlockUndo) (l : Led) (bu' : CBlockUndo) (l' : Led) : Prop :=
  exists (uss : list CTxUndo) l1 bu1 (scs : gmap Z CSidechain) hq cuss bu2 l2,
    txs_conn (vtx block) ([] :: uss) l l1 /\ extends_undo uss bu bu1
    /\ (forall c, c ∈ vcert block -> scs !! cert_scId c = (l_se l1).1 !! cert_scId c)
    /\ HighQualityCertData_connect (vcert block) (fun id => scs !! id) = Ok hq
    /\ certs_conn hq (vcert block) cuss bu1 l1 bu2 l2
    /\ events_conn bu2 l2 bu' l'.

Record block_fits (block : CBlock) : Prop := {
  bf_coinbase : exists cb txs, vtx block = cb :: txs /\ IsCoinBase cb = true /\ plain cb /\ Forall (fun tx => IsCoinBase tx = false) txs;
  bf_txs : Forall tx_fits (vtx block);
  bf_sc : Forall tx_sc_ok (vtx block);
  bf_certs : Forall cert_fits (vcert block);
  bf_hashes : NoDup (map tx_hash (vtx block) ++ map cert_hash (vcert block)) }.
End Steps.

(** ** The next height

    The block leaves a state of the same kind for the block after it. *)
Lemma void_coins_all (P : CCoins -> Prop) S W ids D :
  (forall a c, P a -> coins_abs (cut a) = Some c -> P c) -> voids_ok S D W ids ->
  map_Forall (fun _ => P) D -> map_Forall (fun _ => P) (void_coins S W ids D).
Proof.
  intros HP Hv HD. induction ids as [|sid ids IH]; [by rewrite void_coins_nil|].
  assert (IH' : map_Forall (fun _ => P) (void_coins S W ids D)) by (apply IH; intros sid' k Hin; apply Hv; by right).
  destruct (cert_key S sid) as [k|] eqn:Ek; [|by rewrite void_coins_skip]. rewrite (void_coins_cons _ _ _ k) by done.
  destruct (Hv sid k ltac:(left) Ek) as (us & o' & -> & Ho). cbn [mbind option_bind snd].
  intros i c. destruct (decide (i = k)) as [->|]; [|rewrite lookup_partial_alter_ne by done; apply IH'].
  rewrite lookup_partial_alter_eq. destruct Ho as [(_ & _ & ->)|(a & Ha & _ & _ & ->)]; [apply HD|].
  intros Hc. by apply (HP a c (HD _ _ Ha)).
Qed.

Section Next.
  Context `{NodeConfig} `{ZendooLib} (h : Z).
Local Notation MH := (h + getScCoinsMaturity).

Lemma mature_frame s : same_frame s (mature h s).
Proof. done. Qed.

Lemma events_good_se M S E : good_se h (S, E) -> good_se (h + 1) (mature_all h M S, delete h E).
Proof.
  intros [G1 G2 G3 G4 G5 G6 G7 G8].
  assert (Hin : forall sid s', mature_all h M S !! sid = Some s' -> exists s, S !! sid = Some s /\ (s' = mature h s \/ s' = s)).
  { intros sid s'. rewrite lookup_mature_all. destruct (S !! sid) as [s|]; [|done]. cbn. intros [= <-]. exists s. split; [done|]. case_decide; auto. }
  assert (Hout : forall sid s, S !! sid = Some s -> exists s', mature_all h M S !! sid = Some s' /\ same_frame s s').
  { intros sid s Hs. eexists. rewrite lookup_mature_all, Hs. split; [reflexivity|]. by case_decide. }
  assert (Hce : forall k, k <> h -> ceasing_at (delete h E) k = ceasing_at E k) by (intros k Hk; unfold ceasing_at; by rewrite lookup_delete_ne).
  split; cbn [fst snd] in *.
  - intros sid s' (s & Hs & [->| ->])%Hin; [|by apply (G1 sid)]. intros k a Ha. cbn in Ha. apply lookup_delete_Some in Ha as [_ Ha]. by apply (G1 _ _ Hs k).
  - intros sid s' (s & Hs & [->| ->])%Hin; [|by apply (G2 sid)]. pose proof (G2 _ _ Hs) as Hb. cbn in *. unfold amount_at.
    destruct (mImmatureAmounts s !! h) as [a|] eqn:Ea; cbn; [|lia]. pose proof (G1 _ _ Hs _ _ Ea). cbn in *. lia.
  - intros sid s' (s & Hs & [->| ->])%Hin; by apply (G3 _ _ Hs).
  - by apply map_Forall_delete.
  - by apply map_Forall_delete.
  - intros k sid Hk. destruct (decide (k = h)) as [->|Hne]; [unfold ceasing_at in Hk; rewrite lookup_delete_eq in Hk; set_solver|].
    rewrite Hce in Hk by done. destruct (G6 _ _ Hk) as (s & Hs & <-). destruct (Hout _ _ Hs) as (s' & Hs' & Hf). exists s'.
    split; [done|]. by apply same_frame_schedule.
  - intros sid s' (s & Hs & Hor)%Hin Hle. assert (GetScheduledCeasingHeight s' = GetScheduledCeasingHeight s) as Eq
      by (destruct Hor as [->| ->]; [by apply same_frame_schedule|done]). rewrite Eq in *. rewrite Hce by lia. apply G7; [done|lia].
  - intros i j k. rewrite !cert_key_mature. apply G8.
Qed.

Lemma events_conn_good bu l bu' l' : events_conn h bu l bu' l' -> good_led h l -> good_led (h + 1) l'.
Proof.
  intros (W & _ & _ & Hv & _ & _ & ->) [G1 G2 G3]. split; cbn.
  - apply void_coins_all; [|done..]. intros a c Ha. unfold coins_abs. destruct (IsPruned _); [done|]. intros [= <-]. by apply cut_bound in Ha.
  - apply void_coins_all; [|done..]. intros a c Ha. unfold coins_abs. destruct (IsPruned _); [done|]. intros [= <-]. by apply tidy_stored, tidy_cut.
  - destruct (l_se l) as [S E]. by apply events_good_se.
Qed.

Lemma contents_conn_good block bu l bu' l' :
  0 < h < 2 ^ 31 -> block_fits block -> old_certs (map cert_hash (vcert block)) (l_se l).1 ->
  contents_conn h block bu l bu' l' -> good_led h l -> good_led (h + 1) l'.
Proof.
  intros Hh Hfit Ho (uss & l1 & bu1 & scs & hq & cuss & bu2 & l2 & Htx & _ & _ & _ & Hcs & Hev) Hg.
  destruct (txs_conn_good h _ _ _ _ _ Hh (bf_txs _ Hfit) (bf_sc _ Hfit) Htx Hg Ho) as [Hg1 Ho1].
  pose proof (bf_hashes _ Hfit) as (_ & _ & Hd)%list.NoDup_app.
  eapply events_conn_good; [exact Hev|]. by eapply (certs_conn_good h _ _ _ _ _ _ _ Hh (bf_certs _ Hfit) Hd Hcs Hg1 Ho1).
Qed.

(** *** Amounts are only scheduled to mature at the maturity height *)
Definition none_maturing (E : gmap Z CSidechainEvents) (k0 : Z) : Prop := forall k, k0 <= k -> maturing_at E k = ∅.

Lemma conn_maturing x se k : k <> MH -> maturing_at (conn h x se).2 k = maturing_at se.2 k.
Proof. intros Hk. destruct x; cbn [conn snd]; [done| |by apply maturing_add]. rewrite maturing_add_ceasing. by apply maturing_add. Qed.

Lemma conn_all_maturing xs se k : k <> MH -> maturing_at (conn_all h xs se).2 k = maturing_at se.2 k.
Proof.
  intros Hk. revert se. induction xs as [|x xs IH]; intros se; [done|].
  change (conn_all h (x :: xs) se) with (conn_all h xs (conn h x se)). rewrite IH. by apply conn_maturing.
Qed.

Lemma txs_conn_maturing txs uss l l' k : txs_conn h txs uss l l' -> k <> MH -> maturing_at (l_se l').2 k = maturing_at (l_se l).2 k.
Proof.
  intros Htx Hk. induction Htx as [|tx us txs uss l l1 l2 (D & _ & _ & _ & _ & _ & _ & _ & ->) _ IH]; [done|]. rewrite IH. by apply conn_all_maturing.
Qed.

Lemma certs_conn_maturing hq certs uss bu l bu' l' k :
  certs_conn h hq certs uss bu l bu' l' -> maturing_at (l_se l').2 k = maturing_at (l_se l).2 k.
Proof.
  induction 1 as [|cert us certs uss bu bu1 bu2 l l1 l2 (D & s & _ & _ & _ & _ & _ & Hm) _ IH]; [done|]. rewrite IH. cbv zeta in Hm.
  destruct (hq !! cert_hash cert) as [p|]; [|by destruct Hm as [_ ->]]. destruct Hm as (u1 & u2 & s' & D2 & _ & _ & _ & _ & ->).
  cbn. destruct (cert_moves cert s); [|done]. by rewrite maturing_add_ceasing, maturing_erase_ceasing.
Qed.

Lemma contents_conn_maturing block bu l bu' l' :
  contents_conn h block bu l bu' l' -> none_maturing (l_se l).2 MH -> none_maturing (l_se l').2 (MH + 1).
Proof.
  intros (uss & l1 & bu1 & scs & hq & cuss & bu2 & l2 & Htx & _ & _ & _ & Hcs & (W & _ & _ & _ & _ & _ & ->)) Hn k Hk. cbn.
  unfold maturing_at. destruct (decide (k = h)) as [->|Hne]; [by rewrite lookup_delete_eq|]. rewrite lookup_delete_ne by done.
  change (maturing_at (l_se l2).2 k = ∅). rewrite (certs_conn_maturing _ _ _ _ _ _ _ _ Hcs), (txs_conn_maturing _ _ _ _ _ Htx) by lia. apply Hn. lia.
Qed.
End Next.
