(* ===== verification/ConnectLaws.v ===== *)
(** * Connecting a block

    [connect_contents] establishes [contents_conn]: the checks leave the view as it is,
    and what is accepted does to the ledger what the relations say. *)

From stdpp Require Import base numbers list strings gmap fin_maps sets option.
From Stdlib Require Import ZArith Lia.
From S2P Require Import Prelude.
From S2P Require Import Amount.
From S2P Require Import Serialize.
From S2P Require Import ScTypes.
From S2P Require Import Forks.
From S2P Require Import Compress.
From S2P Require Import Sidechain.
From S2P Require Import Coins.
From S2P Require Import CoinsSer.
From S2P Require Import Undo.
From S2P Require Import Merkle.
From S2P Require Import View.
From S2P Require Import ViewLaws.
From S2P Require Import TopLaws.
From S2P Require Import ViewOps.
From S2P Require Import ScOps.
From S2P Require Import ScApply.
From S2P Require Import ScRound.
From S2P Require Import BlockCoins.
From S2P Require Import ScCert.
From S2P Require Import BwtOps.
From S2P Require Import ScEvents.
From S2P Require Import ScInv.
From S2P Require Import UndoNorm.
From S2P Require Import Script.
From S2P Require Import Interpreter.
From S2P Require Import Standard.
From S2P Require Import Primitives.
From S2P Require Import Chain.
From S2P Require Import BlockData.
From S2P Require Import BlockIndex.
From S2P Require Import TxSer.
From S2P Require Import SigHash.
From S2P Require Import Pow.
From S2P Require Import Checks.
From S2P Require Import Inputs.
From S2P Require Import Connect.
From S2P Require Import LedgerSteps.
Open Scope Z_scope.
Open Scope zen_scope.

Section Forward.
  Context `{NodeConfig} {V : Type} `{CCoinsView V} `{ViewSpec V} `{!ViewLaws V} `{!FreshOk V}.
Local Notation C := (CCoinsViewCache V).

Lemma awlp_UpdateCoins tx h l F s1 s2 s3 :
  tx_fits tx -> bounded (l_coins l) ->
  awlp (UpdateCoins (V := V) tx [] h) (fun us t' => exists D, spent (l_coins l) (inputs tx) us D
    /\ t' = mkTop (join (mkLed (partial_alter (fun _ => coins_abs (Coins_From_tx tx h)) (tx_hash tx) D) (l_se l) (l_csw l)
                    (mark_null (tx_nullifiers tx) true (l_null l))) F) s1 s2 s3) (mkTop (join l F) s1 s2 s3).
Proof.
  intros (Hn & Ho & _) Hb. unfold UpdateCoins. apply awlp_bind.
  apply awlp_mono with (P := fun us t' => exists D, spent (l_coins l) (inputs tx) us D /\ t' = put_tcoins D (mkTop (join l F) s1 s2 s3)).
  - unfold inputs. destruct (IsCoinBase tx); cbn [negb].
    + apply awlp_ret. exists (l_coins l). split; [constructor|done].
    + eapply awlp_mono; [by apply awlp_spend_inputs|]. intros us t' (us' & D & -> & Hs & ->). by exists D.
  - intros us t' (D & Hs & ->). destruct (Coins_From_tx_fit tx h Ho) as [Hf Hc].
    apply awlp_bind, awp_awlp, awp_set_nullifiers, awlp_bind, awp_awlp, awp_add_outputs; [done..|].
    apply awlp_ret. by exists D.
Qed.

Lemma awlp_add_csw_nullifiers ws l F s1 s2 :
  awlp (add_csw_nullifiers (V := V) ws) (fun ok t' => ok = true ->
    let ks := map (fun w => (csw_scId w, csw_nullifier w)) ws in
    NoDup ks /\ Forall (fun k => l_csw l !! k = None) ks
    /\ t' = mkTop (join (mkLed (l_coins l) (l_se l) (csw_add ks (l_csw l)) (l_null l)) F) s1 s2 ∅) (mkTop (join l F) s1 s2 ∅).
Proof.
  unfold add_csw_nullifiers. revert l. induction ws as [|w ws IH]; intros l; cbn [for_each].
  { apply awlp_ret. intros _. split; [constructor|]. split; [constructor|]. by destruct l. }
  apply awlp_bind, awp_awlp, awp_AddCsw; [done|]. unfold t_csw. cbn [t_view a_csw join].
  destruct (l_csw l !! (csw_scId w, csw_nullifier w)) as [[]|] eqn:E.
  - rewrite bool_decide_eq_true_2 by eauto. cbn [negb]. by apply awlp_ret.
  - rewrite bool_decide_eq_false_2 by (by intros []). cbn [negb]. rewrite decide_False by (by intros []).
    set (l1 := mkLed (l_coins l) (l_se l) (<[(csw_scId w, csw_nullifier w) := tt]> (l_csw l)) (l_null l)).
    change (add_csw _ _) with (mkTop (join l1 F) s1 s2 ∅). eapply awlp_mono; [apply IH|]. intros ok t' Ht Hok.
    destruct (Ht Hok) as (Hd & Hf & ->). cbn [map l_csw l1] in *.
    assert (Hn : (csw_scId w, csw_nullifier w) ∉ map (fun w => (csw_scId w, csw_nullifier w)) ws).
    { intros Hin. rewrite list.Forall_forall in Hf. specialize (Hf _ Hin). by rewrite lookup_insert_eq in Hf. }
    split; [by constructor|]. split; [|done]. apply list.Forall_cons. split; [done|]. rewrite list.Forall_forall in Hf |- *. intros k Hk.
    specialize (Hf k Hk). rewrite lookup_insert_ne in Hf; [done|]. by intros <-.
Qed.

Lemma awlp_ext {A} (m m' : M C A) P t : (forall c, m c = m' c) -> awlp m' P t -> awlp m P t.
Proof. intros He Hm c Hw Ht. unfold wlp. rewrite He. by apply Hm. Qed.

Lemma plp_reject level code reason (P : bool -> Top -> Prop) t : P false t -> plp (V := V) (on_state (reject level code reason)) P t.
Proof. intros HP. apply plp_on_state. by intros st a st' ->%DoS_ret. Qed.

Context `{MerkleHash Z}.

Lemma plp_apply_tx fSc h a first tx l F :
  tx_fits tx -> bounded (l_coins l) -> l_coins l !! tx_hash tx = None ->
  Forall (fun nf => l_null l !! nf = None) (tx_nullifiers tx) -> (first = true -> plain tx) ->
  plp (V := V) (apply_tx fSc h a first tx) (fun r t' => forall a', r = Some a' -> exists us l', tx_conn h tx us l l'
    /\ t' = mkTop (join l' F) ∅ ∅ ∅ /\ ca_undo a' = (if first then ca_undo a else push_undo us (ca_undo a))) (mkTop (join l F) ∅ ∅ ∅).
Proof.
  intros Hfit Hb Hk Hnf Hfirst. unfold apply_tx. apply plp_bind, plp_on_coins. eapply awlp_mono; [by apply awlp_UpdateCoins|].
  intros us t' (D & Hs & ->). set (D' := partial_alter _ _ D). set (N := mark_null _ _ _). apply plp_bind.
  apply plp_mono with (P := fun ok t' => ok = true -> tx_conn h tx us l (mkLed D' (conn_all h (concat (groups tx)) (l_se l)) (csw_add (csw_keys tx) (l_csw l)) N)
      /\ t' = mkTop (join (mkLed D' (conn_all h (concat (groups tx)) (l_se l)) (csw_add (csw_keys tx) (l_csw l)) N) F) ∅ ∅ ∅).
  - destruct first.
    + apply plp_ret. intros _. destruct (Hfirst eq_refl) as [Hg _].
      assert (Hw : vcsw_ccin tx = []). { unfold groups in Hg. cbn [concat] in Hg. by destruct (vcsw_ccin tx). }
      unfold tx_conn, csw_keys. rewrite Hg, Hw. cbn [map conn_all csw_add foldl enabled_all funded_all]. split; [|done]. exists D. by split_and!; try constructor.
    + apply plp_bind, plp_on_coins. eapply awlp_mono.
      { eapply awlp_ext; [intros c; apply UpdateSidechain_items|]. by apply conn_items_funded. }
      intros ok t' Hok. destruct ok; cbn [negb]; [|by apply plp_reject].
      destruct (Hok eq_refl) as (Hen & Hfd & ->). change (t_sc _, t_ev _) with ((l_se l).1, (l_se l).2) in Hen, Hfd |- *.
      rewrite <- surjective_pairing in Hen, Hfd |- *. set (se' := conn_all h (concat (groups tx)) (l_se l)). set (l1 := mkLed D' se' (l_csw l) N).
      match goal with |- plp _ _ ?t => change t with (mkTop (join l1 F) ∅ ∅ ∅) end.
      apply plp_bind, plp_on_coins. eapply awlp_mono; [apply awlp_add_csw_nullifiers|]. intros ok t' Hc.
      destruct ok; cbn [negb]; [|by apply plp_reject].
      destruct (Hc eq_refl) as (Hd & Hf & ->). apply plp_ret. intros _. split; [|done]. exists D. by split_and!.
  - intros ok t' Hok. destruct ok; cbn [negb]; [|by apply plp_ret]. destruct (Hok eq_refl) as [Htx ->].
    apply plp_bind, plp_lift. intros tree _. apply plp_ret. intros a' [= <-]. exists us. eexists. split; [exact Htx|]. split; [done|].
    by destruct first.
Qed.
End Forward.

(** ** The checks leave the view as it is *)
Section Quiet.
  Context `{NodeConfig} {V : Type} `{CCoinsView V} `{ViewSpec V} `{!ViewLaws V} `{!FreshOk V} `{MerkleHash Z} `{ChainIndex} `{ZendooLib}.
Local Notation C := (CCoinsViewCache V).
Local Notation W := (C * VS)%type.

Lemma quiet_GetSidechainState k : quiet (V := V) (GetSidechainState k).
Proof. unfold GetSidechainState. solve_quiet. Qed.

Lemma quiet_GetOutputFor i : quiet (V := V) (GetOutputFor i).
Proof. unfold GetOutputFor. solve_quiet. Qed.

Lemma quiet_sum_outputs vin acc : quiet (V := V) (sum_outputs vin acc).
Proof. revert acc. induction vin; intros acc; cbn [sum_outputs]; [apply quiet_ret|]. apply quiet_bind; [apply quiet_GetOutputFor|done]. Qed.

Lemma quiet_GetValueIn {T} `{TxBase T} (tx : T) : quiet (V := V) (GetValueIn tx).
Proof. unfold GetValueIn. destruct (tb_IsCoinBase tx); [apply quiet_ret|]. apply quiet_bind; [apply quiet_sum_outputs|]. intros ?. solve_quiet. Qed.

Lemma quiet_p2sh_sigops vin n : quiet (V := V) (p2sh_sigops vin n).
Proof.
  revert n. induction vin as [|i vin IH]; intros n; cbn [p2sh_sigops]; [apply quiet_ret|]. apply quiet_bind; [apply quiet_GetOutputFor|]. intros o.
  destruct (IsPayToScriptHash _); [|done]. apply quiet_bind; [apply quiet_lift|done].
Qed.

Lemma quiet_GetP2SHSigOpCount {T} `{TxBase T} (tx : T) : quiet (V := V) (GetP2SHSigOpCount tx).
Proof. unfold GetP2SHSigOpCount. destruct (tb_IsCoinBase tx); [apply quiet_ret|apply quiet_p2sh_sigops]. Qed.

Lemma quiet_input_available i : quiet (V := V) (input_available i).
Proof. unfold input_available. solve_quiet. Qed.

Lemma quiet_HaveInputs {T} `{TxBase T} (tx : T) : quiet (V := V) (HaveInputs tx).
Proof. unfold HaveInputs. destruct (tb_IsCoinBase tx); cbn [negb]; [apply quiet_ret|]. apply quiet_for_each, quiet_input_available. Qed.
Hint Resolve quiet_GetSidechainState quiet_GetValueIn quiet_GetP2SHSigOpCount quiet_HaveInputs : quiet.

Lemma quiet_GetActiveCertView k : quiet (V := V) (GetActiveCertView k).
Proof. unfold GetActiveCertView. solve_quiet. Qed.

Lemma quiet_CheckScTxTiming k : quiet (V := V) (CheckScTxTiming k).
Proof. unfold CheckScTxTiming. solve_quiet. Qed.

Lemma quiet_CheckCertTiming k e : quiet (V := V) (CheckCertTiming k e).
Proof. unfold CheckCertTiming. solve_quiet. Qed.

Lemma quiet_CheckQuality c : quiet (V := V) (CheckQuality c).
Proof. unfold CheckQuality. solve_quiet. Qed.

Lemma quiet_CheckMinimumFtScFee o : quiet (V := V) (CheckMinimumFtScFee o).
Proof. unfold CheckMinimumFtScFee. solve_quiet. Qed.

Lemma quiet_CheckMinimumMbtrScFee o : quiet (V := V) (CheckMinimumMbtrScFee o).
Proof. unfold CheckMinimumMbtrScFee. solve_quiet. Qed.

Lemma quiet_GetCeasingCumTreeHash k : quiet (V := V) (GetCeasingCumTreeHash k).
Proof. unfold GetCeasingCumTreeHash. solve_quiet. Qed.
Hint Resolve quiet_GetActiveCertView quiet_CheckScTxTiming quiet_CheckCertTiming quiet_CheckQuality quiet_CheckMinimumFtScFee
  quiet_CheckMinimumMbtrScFee quiet_GetCeasingCumTreeHash : quiet.

Lemma quiet_applicable_creation u o : quiet (V := V) (applicable_creation u o).
Proof. unfold applicable_creation. solve_quiet. Qed.

Lemma quiet_applicable_ft f u o : quiet (V := V) (applicable_ft f u o).
Proof. unfold applicable_ft, IsFtScFeeApplicable. solve_quiet. Qed.

Lemma quiet_applicable_mbtr f u o : quiet (V := V) (applicable_mbtr f u o).
Proof. unfold applicable_mbtr, IsMbtrScFeeApplicable. cbv zeta. solve_quiet. Qed.

Lemma quiet_applicable_csw b w : quiet (V := V) (applicable_csw b w).
Proof. unfold applicable_csw. cbv zeta. solve_quiet. Qed.
Hint Resolve quiet_applicable_creation quiet_applicable_ft quiet_applicable_mbtr quiet_applicable_csw : quiet.

Lemma quiet_IsScTxApplicableToState tx f : quiet (V := V) (IsScTxApplicableToState tx f).
Proof. unfold IsScTxApplicableToState. solve_quiet. Qed.

Lemma quiet_csw_items l : quiet (V := V) (csw_items l).
Proof. induction l; cbn [csw_items]; [apply quiet_ret|]. solve_quiet. Qed.

Lemma quiet_LoadDataForCswVerification b tx q : quiet (V := V) (LoadDataForCswVerification b tx q).
Proof. unfold LoadDataForCswVerification. destruct b; [|apply quiet_ret]. apply quiet_bind; [apply quiet_csw_items|]. intros ?. apply quiet_ret. Qed.

Lemma quiet_LoadDataForCertVerification b c q : quiet (V := V) (LoadDataForCertVerification b c q).
Proof. unfold LoadDataForCertVerification. solve_quiet. Qed.

(** ** on views with a validation state *)
Definition still {A} (m : M W A) : Prop := forall t, plp m (fun _ t' => t' = t) t.

Lemma still_ret {A} (a : A) : still (ret a).
Proof. intros t. by apply plp_ret. Qed.

Lemma still_fail {A} e : still (A := A) (fail e).
Proof. intros t. apply plp_fail. Qed.

Lemma still_lift {A} (r : res A) : still (lift r).
Proof. intros t. by apply plp_lift. Qed.

Lemma still_bind {A B} (m : M W A) (k : A -> M W B) : still m -> (forall a, still (k a)) -> still (bind m k).
Proof. intros Hm Hk t. apply plp_bind. eapply plp_mono; [apply Hm|]. intros a t' ->. apply Hk. Qed.

Lemma still_on_coins {A} (m : M C A) : quiet m -> still (on_coins m).
Proof. intros Hm t. by apply plp_quiet. Qed.

Lemma still_on_state {A} (m : M VS A) : still (on_state m).
Proof. intros t. by apply plp_on_state. Qed.

Lemma still_reject_none {B} (m : M VS bool) : still (A := option B) (reject_none m).
Proof. intros t. by apply plp_reject_none. Qed.

Lemma still_for_acc {A B} (l : list A) (f : B -> A -> M W (option B)) acc : (forall b x, still (f b x)) -> still (for_acc l acc f).
Proof.
  intros Hf. revert acc. induction l as [|x l IH]; intros acc; cbn [for_acc]; [apply still_ret|]. apply still_bind; [done|]. intros [b|]; [apply IH|apply still_ret].
Qed.

(** Settles [still] of a function whose body is unfolded. *)
Ltac still_step :=
  lazymatch goal with
  | |- still (ret _) => apply still_ret
  | |- still (fail _) => apply still_fail
  | |- still (lift _) => apply still_lift
  | |- still (bind _ _) => apply still_bind; [|intros ?]
  | |- still (on_coins _) => apply still_on_coins
  | |- still (on_state _) => apply still_on_state
  | |- still (reject_none _) => apply still_reject_none
  | |- still (for_acc _ _ _) => apply still_for_acc; intros ? ?
  | |- still (if ?b then _ else _) => destruct b
  | |- still (match ?x with _ => _ end) => destruct x
  | |- quiet _ => solve_quiet
  end.
Ltac solve_still := repeat still_step.

Context (env : ScriptEnv).

Lemma still_check_input h b v i : still (check_input env h b v i).
Proof. unfold check_input. cbv zeta. solve_still. Qed.

Lemma quiet_HaveJoinSplitRequirements {T} `{TxBase T} (tx : T) : quiet (V := V) (HaveJoinSplitRequirements tx).
Proof. intros t. eapply awlp_mono; [apply awlp_HaveJoinSplitRequirements|]. by intros ? ? [-> _]. Qed.
Hint Resolve quiet_HaveJoinSplitRequirements quiet_IsScTxApplicableToState quiet_LoadDataForCswVerification quiet_LoadDataForCertVerification : quiet.

Lemma still_CheckTxInputs {T} `{TxBase T} (tx : T) h : still (CheckTxInputs env tx h).
Proof.
  unfold CheckTxInputs. cbv zeta. solve_still. apply still_check_input.
Qed.

Lemma still_script_input verify flags pv cs x : still (script_input verify flags pv cs x).
Proof. unfold script_input, input_script. solve_still. Qed.

Lemma still_ContextualCheckTxInputs verify tx fScript flags pv : still (ContextualCheckTxInputs env verify tx fScript flags pv).
Proof. unfold ContextualCheckTxInputs. solve_still; [apply still_CheckTxInputs|apply still_script_input]. Qed.

Lemma still_ContextualCheckCertInputs verify c fScript flags pv : still (ContextualCheckCertInputs env verify c fScript flags pv).
Proof. unfold ContextualCheckCertInputs. solve_still; [apply still_CheckTxInputs|apply still_script_input]. Qed.

(** ** What the checks establish *)
Context (CheckLowS : bytes -> bool) (Verify : bytes -> uint256 -> bytes -> bool) (threads fExpensiveChecks fScProofVerification : bool).

Lemma plp_still {A B} (m : M W A) (k : A -> M W B) P t : still m -> (forall a, plp (k a) P t) -> plp (bind m k) P t.
Proof. intros Hm Hk. apply plp_bind. eapply plp_mono; [apply Hm|]. intros a t' ->. apply Hk. Qed.

Lemma plp_check_tx a tx t :
  plp (check_tx env CheckLowS Verify threads fExpensiveChecks fScProofVerification a tx) (fun r t' => t' = t /\ forall a', r = Some a' ->
    Forall (fun nf => a_null (t_view t) !! nf = None) (tx_nullifiers tx) /\ ca_undo a' = ca_undo a) t.
Proof.
  unfold check_tx. apply plp_still; [solve_still|]. intros have. destruct have; cbn [negb]; [|by apply plp_reject_none].
  apply plp_still; [solve_still|]. intros code. case_bool_decide; cbn [negb]; [|by apply plp_reject_none].
  apply plp_still; [solve_still|]. intros proofs. apply plp_bind, plp_on_coins. eapply awlp_mono; [apply awlp_HaveJoinSplitRequirements|].
  intros js t' [-> Hjs]. destruct js; cbn [negb]; [|by apply plp_reject_none]. specialize (Hjs eq_refl).
  apply plp_still; [solve_still|]. intros n. cbv zeta. destruct (_ <? _); [by apply plp_reject_none|].
  apply plp_still; [solve_still|]. intros vin. apply plp_still; [solve_still|]. intros vo.
  apply plp_still; [apply still_ContextualCheckTxInputs|]. intros [vChecks|]; [|by apply plp_ret]. apply plp_ret. split; [done|]. by intros a' [= <-].
Qed.

(** the sidechain that a certificate refers to has not ceased *)
Definition alive (t : Top) (sid : Z) : Prop :=
  exists s b, t_sc t !! sid = Some s /\ mapBlockIndex (a_block (t_view t)) = Some b
    /\ isCreationConfirmed s = true /\ bi_nHeight b < GetScheduledCeasingHeight s.

Lemma awlp_GetSidechainState k t :
  awlp (V := V) (GetSidechainState k) (fun r t' => t' = t /\ (r = ALIVE -> alive t k)) t.
Proof.
  unfold GetSidechainState. apply awlp_bind, awp_awlp, awp_GetSidechain. destruct (t_sc t !! k) as [s|] eqn:Es; [|by apply awlp_ret].
  destruct (isCreationConfirmed s) eqn:Ec; cbn [negb]; [|by apply awlp_ret]. unfold GetHeight. apply awlp_bind, awlp_bind, awp_awlp, awp_GetBestBlock.
  destruct (mapBlockIndex _) as [b|] eqn:Eb; [|by intros c _ _]. apply awlp_ret. destruct (Z.leb_spec (GetScheduledCeasingHeight s) (bi_nHeight b)).
  - apply awlp_ret. by split.
  - apply awlp_ret. split; [done|]. intros _. by exists s, b.
Qed.

Lemma awlp_quiet {A B} (m : M C A) (k : A -> M C B) P t : quiet m -> (forall a, awlp (k a) P t) -> awlp (bind m k) P t.
Proof. intros Hm Hk. apply awlp_bind. eapply awlp_mono; [apply Hm|]. intros a t' ->. apply Hk. Qed.

Lemma awlp_CheckCertTiming k e t :
  awlp (V := V) (CheckCertTiming k e) (fun r t' => t' = t /\ (r = true -> alive t k)) t.
Proof.
  unfold CheckCertTiming. apply awlp_quiet; [solve_quiet|]. intros [s|]; [|by apply awlp_ret]. apply awlp_bind.
  eapply awlp_mono; [apply awlp_GetSidechainState|]. intros st t' [-> Hst]. case_bool_decide as Ha; cbn [negb]; [|by apply awlp_ret].
  specialize (Hst Ha). assert (Hq : forall m : M C bool, quiet m -> awlp m (fun r t' => t' = t /\ (r = true -> alive t k)) t).
  { intros m Hm. eapply awlp_mono; [apply Hm|]. by intros r t' ->. }
  apply Hq. cbv zeta. solve_quiet.
Qed.

Lemma awlp_IsCertApplicableToState cert t :
  awlp (V := V) (IsCertApplicableToState cert) (fun r t' => t' = t /\ (r.1 = OK -> alive t (cert_scId cert))) t.
Proof.
  unfold IsCertApplicableToState. apply awlp_quiet; [solve_quiet|]. intros [s|]; [|by apply awlp_ret]. apply awlp_bind.
  eapply awlp_mono; [apply awlp_CheckCertTiming|]. intros ok t' [-> Hok]. destruct ok; cbn [negb]; [|by apply awlp_ret]. specialize (Hok eq_refl).
  assert (Hq : forall m : M C verdict, quiet m -> awlp m (fun r t' => t' = t /\ (r.1 = OK -> alive t (cert_scId cert))) t).
  { intros m Hm. eapply awlp_mono; [apply Hm|]. by intros r t' ->. }
  apply Hq. cbv zeta. solve_quiet.
Qed.

Lemma plp_check_cert a cert t :
  plp (check_cert env CheckLowS Verify threads fExpensiveChecks fScProofVerification a cert) (fun r t' => t' = t /\ forall a', r = Some a' ->
    alive t (cert_scId cert) /\ ca_undo a' = ca_undo a) t.
Proof.
  unfold check_cert. apply plp_still; [solve_still|]. intros have. destruct have; cbn [negb]; [|by apply plp_reject_none].
  apply plp_still; [solve_still|]. intros n. cbv zeta. destruct (_ <? _); [by apply plp_reject_none|]. apply plp_still; [solve_still|]. intros vin.
  apply plp_still; [apply still_ContextualCheckCertInputs|]. intros [vChecks|]; [|by apply plp_ret].
  apply plp_bind, plp_on_coins. eapply awlp_mono; [apply awlp_IsCertApplicableToState|]. intros code t' [-> Hc].
  case_bool_decide as Hok; cbn [negb]; [|by apply plp_reject_none]. specialize (Hc Hok). apply plp_still; [solve_still|]. intros proofs.
  apply plp_ret. split; [done|]. by intros a' [= <-].
Qed.

Context (fScRelatedChecks : bool) (h : Z).
Local Notation cert_outs := (cert_outs h).
Local Notation cert_conn := (cert_conn h).
Local Notation certs_conn := (certs_conn h).
Local Notation events_conn := (events_conn h).
Local Notation contents_conn := (contents_conn h).
Local Notation good_led := (good_led h).
Local Notation connect_tx := (connect_tx env CheckLowS Verify threads fExpensiveChecks fScRelatedChecks fScProofVerification h).

Lemma plp_connect_tx a n tx l F :
  tx_fits tx -> bounded (l_coins l) -> l_coins l !! tx_hash tx = None ->
  (n = 0%nat -> plain tx) -> (IsCoinBase tx = true -> tx_nullifiers tx = []) ->
  plp (V := V) (connect_tx a (n, tx)) (fun r t' => forall a', r = Some a' -> exists us l', tx_conn h tx us l l'
    /\ t' = mkTop (join l' F) ∅ ∅ ∅ /\ extends_undo (if Nat.eqb n 0 then [] else [us]) (ca_undo a) (ca_undo a')) (mkTop (join l F) ∅ ∅ ∅).
Proof.
  intros Hfit Hb Hk Hn Hcb. unfold Connect.connect_tx. cbn [fst snd]. apply plp_still; [solve_still|]. intros k. cbv zeta. destruct (_ <? _); [by apply plp_reject_none|].
  apply plp_bind. set (a1 := mkAcc _ _ _ _ _ _ _ _).
  apply plp_mono with (P := fun r t' => t' = mkTop (join l F) ∅ ∅ ∅ /\ forall a', r = Some a' ->
    Forall (fun nf => l_null l !! nf = None) (tx_nullifiers tx) /\ ca_undo a' = ca_undo a).
  - destruct (IsCoinBase tx) eqn:Ec; cbn [negb].
    + apply plp_ret. split; [done|]. intros a' [= <-]. by rewrite Hcb.
    + exact (plp_check_tx a1 tx (mkTop (join l F) ∅ ∅ ∅)).
  - intros [a'|] t' [-> Ha']; [|by apply plp_ret]. destruct (Ha' a' eq_refl) as [Hnf Hu].
    eapply plp_mono; [apply plp_apply_tx; [done..|]|].
    + intros ->%Nat.eqb_eq. by apply Hn.
    + intros r t' Hr a2 ->. destruct (Hr a2 eq_refl) as (us & l' & Ha & Hb' & Hc). exists us, l'. split; [done|]. split; [done|].
      unfold extends_undo. rewrite Hc, Hu. destruct (Nat.eqb n 0); [|done]. rewrite app_nil_r. by destruct (ca_undo a).
Qed.

Lemma plp_connect_txs_from n txs a l F ks :
  (0 < n)%nat -> 0 < h < 2 ^ 31 -> Forall tx_fits txs -> Forall (fun tx => IsCoinBase tx = false) txs -> NoDup (map tx_hash txs ++ ks) ->
  bounded (l_coins l) -> absent (map tx_hash txs ++ ks) l ->
  plp (V := V) (for_acc (zip (seq n (length txs)) txs) a connect_tx) (fun r t' => forall a', r = Some a' -> exists uss l', txs_conn h txs uss l l'
    /\ t' = mkTop (join l' F) ∅ ∅ ∅ /\ extends_undo uss (ca_undo a) (ca_undo a') /\ bounded (l_coins l') /\ absent ks l') (mkTop (join l F) ∅ ∅ ∅).
Proof.
  revert n a l. induction txs as [|tx txs IH]; intros n a l Hn Hh Hfit Hcb Hd Hb Ha; cbn [length seq zip zip_with for_acc].
  { apply plp_ret. intros a' [= <-]. exists [], l. split; [constructor|]. split; [done|]. split; [|done]. unfold extends_undo.
    rewrite app_nil_r. by destruct (ca_undo a). }
  apply list.Forall_cons in Hfit as [Hf1 Hfit], Hcb as [Hc1 Hcb]. cbn [map app] in Hd, Ha. apply list.NoDup_cons in Hd as [Hd1 Hd].
  apply list.Forall_cons in Ha as [Ha1 Ha]. apply plp_bind. eapply plp_mono.
  { apply plp_connect_tx; [done..| |]; [lia|by rewrite Hc1]. }
  intros [a1|] t1 Ha1'; [|by apply plp_ret]. destruct (Ha1' a1 eq_refl) as (us & l1 & Htx & -> & Hu).
  assert (Nat.eqb n 0 = false) as E by (apply Nat.eqb_neq; lia). rewrite E in Hu.
  destruct (tx_conn_keeps h tx us l l1 _ Hh Hf1 Htx Hd1 Hb Ha) as [Hb1 Ha'].
  eapply plp_mono; [apply (IH (S n)); [lia|done..]|]. intros r t' Hr a' ->. destruct (Hr a' eq_refl) as (uss & l' & Htxs & -> & Hu' & Hb' & Hk).
  exists (us :: uss), l'. split; [by econstructor|]. split; [done|]. split; [|done]. by apply (extends_undo_trans [us] uss _ _ _ Hu).
Qed.

Lemma plp_connect_txs cb txs a l F ks :
  0 < h < 2 ^ 31 -> Forall tx_fits (cb :: txs) -> plain cb -> IsCoinBase cb = true -> Forall (fun tx => IsCoinBase tx = false) txs ->
  NoDup (map tx_hash (cb :: txs) ++ ks) -> bounded (l_coins l) -> absent (map tx_hash (cb :: txs) ++ ks) l ->
  plp (V := V) (for_acc (indexed (cb :: txs)) a connect_tx) (fun r t' => forall a', r = Some a' -> exists uss l', txs_conn h (cb :: txs) ([] :: uss) l l'
    /\ t' = mkTop (join l' F) ∅ ∅ ∅ /\ extends_undo uss (ca_undo a) (ca_undo a') /\ bounded (l_coins l') /\ absent ks l') (mkTop (join l F) ∅ ∅ ∅).
Proof.
  intros Hh Hfit Hp Hcb Htx Hd Hb Ha. unfold indexed. cbn [length seq zip zip_with for_acc].
  apply list.Forall_cons in Hfit as [Hf1 Hfit]. cbn [map app] in Hd, Ha. apply list.NoDup_cons in Hd as [Hd1 Hd].
  apply list.Forall_cons in Ha as [Ha1 Ha]. apply plp_bind. eapply plp_mono.
  { apply plp_connect_tx; [done..|]. intros _. apply Hp. }
  intros [a1|] t1 Ha1'; [|by apply plp_ret]. destruct (Ha1' a1 eq_refl) as (us & l1 & Hc & -> & Hu). cbn [Nat.eqb] in Hu.
  assert (us = []) as ->. { destruct Hc as (D & Hs & _). unfold inputs in Hs. rewrite Hcb in Hs. by inversion Hs. }
  destruct (tx_conn_keeps h cb [] l l1 _ Hh Hf1 Hc Hd1 Hb Ha) as [Hb1 Ha'].
  eapply plp_mono; [apply plp_connect_txs_from; [lia|done..]|]. intros r t' Hr a' ->. destruct (Hr a' eq_refl) as (uss & l' & Htxs & -> & Hu' & Hb' & Hk).
  exists uss, l'. split; [by econstructor|]. split; [done|]. split; [|done]. by apply (extends_undo_trans [] uss _ _ _ Hu).
Qed.

(** ** Runs that are accepted *)
Definition pap {A} (m : M W (option A)) (P : A -> Top -> Prop) (t : Top) : Prop :=
  forall c st, v_wf c -> top c = t -> forall a w, m (c, st) = Ok (Some a, w) -> v_wf w.1 /\ P a (top w.1).

Lemma pap_plp {A} (m : M W (option A)) P t : plp m (fun r t' => forall a, r = Some a -> P a t') t -> pap m P t.
Proof. intros Hm c st Hw Ht a w Hr. specialize (Hm c st Hw Ht). unfold wlp in Hm. rewrite Hr in Hm. destruct Hm as [Hm HP]. split; [done|]. by apply HP. Qed.

Lemma pap_ret {A} (a : A) P t : P a t -> pap (ret (Some a)) P t.
Proof. intros HP. apply pap_plp, plp_ret. by intros ? [= <-]. Qed.

Lemma pap_none {A} (P : A -> Top -> Prop) t : pap (ret None) P t.
Proof. by apply pap_plp, plp_ret. Qed.

Lemma pap_reject_none {A} m (P : A -> Top -> Prop) t : pap (reject_none m) P t.
Proof. by apply pap_plp, plp_reject_none. Qed.

Lemma pap_mono {A} (m : M W (option A)) (P Q : A -> Top -> Prop) t : pap m P t -> (forall a t', P a t' -> Q a t') -> pap m Q t.
Proof. intros Hm HPQ c st Hw Ht a w Hr. destruct (Hm c st Hw Ht a w Hr). auto. Qed.

Lemma pap_bind {A B} (m : M W A) (k : A -> M W (option B)) P t : plp m (fun a t' => pap (k a) P t') t -> pap (bind m k) P t.
Proof.
  intros Hm c st Hw Ht b w Hr. specialize (Hm c st Hw Ht). unfold wlp, bind in *. destruct (m (c, st)) as [[a [c1 st1]]|]; [|done].
  destruct Hm as [Hw1 Hk]. by apply (Hk c1 st1 Hw1 eq_refl).
Qed.

Lemma pap_then {A B} (m : M W (option A)) (k : option A -> M W (option B)) P t :
  pap m (fun a t' => pap (k (Some a)) P t') t -> (forall w b w', k None w <> Ok (Some b, w')) -> pap (bind m k) P t.
Proof.
  intros Hm Hn c st Hw Ht b w Hr. unfold bind in Hr. destruct (m (c, st)) as [[[a|] [c1 st1]]|] eqn:Em; [| |done].
  - destruct (Hm c st Hw Ht a (c1, st1) Em) as [Hw1 Hk]. by apply (Hk c1 st1 Hw1 eq_refl).
  - by apply Hn in Hr.
Qed.

Lemma pap_alp {A B} (good : A -> bool) (m : M C A) (k : A -> M W (option B)) P t :
  alp good m (fun a t' => pap (k a) P t') t -> (forall a w b w', good a = false -> k a w <> Ok (Some b, w')) -> pap (bind (on_coins m) k) P t.
Proof.
  intros Hm Hn c st Hw Ht b w Hr. unfold bind, on_coins in Hr. cbn [fst snd] in Hr. destruct (m c) as [[a c1]|] eqn:Em; [|done].
  destruct (good a) eqn:Eg; [|by apply Hn in Hr]. destruct (Hm c Hw Ht a c1 Em Eg) as [Hw1 Hk]. by apply (Hk c1 st Hw1 eq_refl).
Qed.

Lemma pap_for_acc {A B} (l : list A) (f : B -> A -> M W (option B)) (I : list A -> B -> Top -> Prop) acc t :
  (forall x l' b t', I (x :: l') b t' -> pap (f b x) (fun b' t'' => I l' b' t'') t') -> I l acc t -> pap (for_acc l acc f) (fun b t' => I [] b t') t.
Proof.
  intros Hf. revert acc t. induction l as [|x l IH]; intros acc t HI; cbn [for_acc]; [by apply pap_ret|].
  apply pap_then; [|done]. eapply pap_mono; [by apply Hf|]. intros b t' Hb. by apply IH.
Qed.

Lemma reject_none_not {A} (m : M VS bool) (w : W) (b : A) w' : reject_none m w <> Ok (Some b, w').
Proof. unfold reject_none, bind, on_state. by destruct (m w.2) as [[? ?]|]. Qed.

Lemma awlp_supersede cert p bu u l F s1 s2 s3 :
  bounded (l_coins l) -> scUndoDatabyScId bu !! cert_scId cert = Some u ->
  awlp (V := V) (supersede cert p bu) (fun bu' t' => exists u' D', superseded p (l_coins l) u D' u' /\ bu' = set_undo (cert_scId cert) u' bu
    /\ t' = mkTop (join (mkLed D' (l_se l) (l_csw l) (l_null l)) F) s1 s2 s3) (mkTop (join l F) s1 s2 s3).
Proof.
  intros Hb Hu. unfold supersede, superseded. destruct (p =? 0); cbn [negb].
  - apply awlp_ret. exists u, (l_coins l). split; [done|]. split; [|by destruct l]. unfold set_undo. rewrite insert_id by done. by destruct bu.
  - rewrite Hu. apply awlp_bind. eapply awlp_mono; [by apply awlp_Nullify|]. intros r t' (low & D' & -> & Hn & ->). apply awlp_ret.
    exists (undo_superseded (lowQualityBwts u ++ low) u), D'. split; [by exists low|]. done.
Qed.

Lemma awlp_UpdateCoins_cert cert top l F s1 s2 s3 :
  cert_fits cert -> bounded (l_coins l) ->
  awlp (UpdateCoins_cert (V := V) cert [] h (bool_decide (is_Some top))) (fun us t' => exists D s, spent (l_coins l) (cert_vin cert) us D
    /\ (l_se l).1 !! cert_scId cert = Some s
    /\ t' = mkTop (join (mkLed (partial_alter (fun _ => cert_outs cert s top) (cert_hash cert) D) (l_se l) (l_csw l) (l_null l)) F) s1 s2 s3)
    (mkTop (join l F) s1 s2 s3).
Proof.
  intros Hfit Hb. unfold UpdateCoins_cert. apply awlp_bind. eapply awlp_mono; [apply awlp_spend_inputs; [apply Hfit|exact Hb]|].
  intros us t' (us' & D & -> & Hs & ->). cbn [app]. apply awlp_bind, awp_awlp, awp_GetSidechain.
  change (t_sc (put_tcoins D _)) with (l_se l).1. destruct ((l_se l).1 !! cert_scId cert) as [s|] eqn:Es; [|by intros c _ _].
  destruct (Coins_From_cert_fit cert h (GetCertMaturityHeight s (epochNumber cert)) (bool_decide (is_Some top)) Hfit) as [Hf Hc].
  apply awlp_bind, awp_awlp, awp_add_outputs; [done..|]. apply awlp_ret. by exists D, s.
Qed.

Lemma delete_nothing {A} (k : Z) : delete k (∅ : gmap Z A) = ∅.
Proof. apply delete_empty. Qed.

Local Notation apply_cert := (apply_cert fScRelatedChecks h).

Definition certs_ready (F : AbsView) : Prop := exists b, mapBlockIndex (a_block F) = Some b /\ bi_nHeight b = h - 1.

Lemma pap_finish a (cert : CScCertificate) bu (P : ConnAcc -> Top -> Prop) t :
  (forall a', ca_undo a' = bu -> P a' t) ->
  pap (if fScRelatedChecks then
         let* o := on_coins (GetSidechain (cert_scId cert)) in
         ret (Some (mkAcc (ca_nFees a) (ca_nSigOps a) bu (ca_tree a) (ca_checks a) (ca_proofs a) (ca_sctxs a)
                      (ca_sccerts a ++ [(cert, default CSidechain_null o)])))
       else ret (Some (with_undo bu a))) P t.
Proof.
  intros HP. destruct fScRelatedChecks; [|apply pap_ret; by apply HP]. apply pap_bind, plp_quiet; [solve_quiet|]. intros o. apply pap_ret. by apply HP.
Qed.

Lemma pap_apply_cert hq a cert l F st :
  cert_fits cert -> 0 < h < 2 ^ 31 -> bounded (l_coins l) -> l_coins l !! cert_hash cert = None -> stale_empty st -> ev_version (l_se l).2 ->
  certs_ready F -> alive (mkTop (join l F) ∅ st ∅) (cert_scId cert) ->
  pap (apply_cert hq a cert) (fun a' t' => exists us l' st', cert_conn (hq !! cert_hash cert) cert us (ca_undo a) l (ca_undo a') l'
    /\ stale_empty st' /\ t' = mkTop (join l' F) ∅ st' ∅) (mkTop (join l F) ∅ st ∅).
Proof.
  intros Hfit Hh Hb Hk Hst Hver (b & Hbi & Hbh) Halive. unfold Connect.apply_cert. apply pap_bind, plp_on_coins.
  eapply awlp_mono; [by apply awlp_UpdateCoins_cert|]. intros us t' (D & s & Hs & Es & ->).
  destruct Halive as (s0 & b0 & Es0 & Hbi0 & Hconf & Hlt). change (t_sc (mkTop (join l F) ∅ st ∅)) with (l_se l).1 in Es0. rewrite Es in Es0. injection Es0 as <-.
  change (a_block (t_view (mkTop (join l F) ∅ st ∅))) with (a_block F) in Hbi0. rewrite Hbi in Hbi0. injection Hbi0 as <-.
  set (l1 := mkLed _ (l_se l) (l_csw l) (l_null l)). apply pap_bind, plp_quiet; [solve_quiet|]. intros [s0|]; [|by apply pap_plp, plp_fail].
  set (top := hq !! cert_hash cert) in *.
  assert (Hbase : forall l' bu', match top with
     | None => bu' = push_undo us (ca_undo a) /\ l' = l1
     | Some p => exists u1 u2 s' D2, cert_step cert (undo_at (cert_scId cert) (ca_undo a)) s u1 s' /\ sc_mem_ok s /\ superseded p (l_coins l1) u1 D2 u2
           /\ bu' = set_undo (cert_scId cert) u2 (push_undo us (ca_undo a)) /\ l' = mkLed D2 (conn_cert cert s s' (l_se l)) (l_csw l) (l_null l)
     end -> cert_conn top cert us (ca_undo a) l bu' l').
  { intros l' bu' Hm. exists D, s. split_and!; try done. lia. }
  clearbody top. destruct top as [p|].
  - apply pap_then; [|intros w b' w'; done]. apply pap_alp with (good := fst).
    2:{ intros [ok bu] w b' w' Hbad. cbn in Hbad. subst ok. cbn [negb]. apply reject_none_not. }
    eapply alp_mono; [apply alp_UpdateSidechain_cert; [done|exact Hver]|].
    intros [ok bu] t' Hgood (s1 & u1 & s' & st1 & E1 & Hmem & Hstep & _ & _ & Hbu & Hst1 & ->). cbn in Hgood. subst ok. cbn [negb snd] in Hbu |- *. subst bu.
    change (t_sc (mkTop (join l1 F) ∅ st ∅)) with (l_se l).1 in E1. rewrite Es in E1. injection E1 as <-.
    change (undo_at (cert_scId cert) (push_undo us (ca_undo a))) with (undo_at (cert_scId cert) (ca_undo a)) in Hstep.
    set (l2 := mkLed (l_coins l1) (conn_cert cert s s' (l_se l)) (l_csw l) (l_null l)).
    match goal with |- pap _ _ ?t => assert (t = mkTop (join l2 F) ∅ st1 ∅) as -> end.
    { cbn [t_sc_stale t_csw_stale]. rewrite delete_nothing. change (t_sc _, t_ev _) with ((l_se l).1, (l_se l).2). by rewrite <- surjective_pairing. }
    apply pap_bind, plp_on_coins. eapply awlp_mono; [apply awlp_supersede with (u := u1)|].
    { cbn. apply bounded_add; [by apply Coins_From_cert_bound|]. by eapply spent_bounded. }
    { cbn. by rewrite lookup_insert_eq. }
    intros bu' t' (u2 & D2 & Hsup & -> & ->). apply pap_ret, pap_finish. intros a' Hu. eexists us, _, st1. split; [|done]. rewrite Hu. apply Hbase.
    exists u1, u2, s', D2. split_and!; try done. by rewrite set_undo_twice.
  - apply pap_then; [|done]. apply pap_ret, pap_finish. intros a' Hu. exists us, l1, st. split; [|done]. rewrite Hu. by apply Hbase.
Qed.

Local Notation connect_cert := (connect_cert env CheckLowS Verify threads fExpensiveChecks fScRelatedChecks fScProofVerification h).

Lemma pap_connect_certs hq certs a l F st :
  0 < h < 2 ^ 31 -> Forall cert_fits certs -> NoDup (map cert_hash certs) -> certs_ready F ->
  bounded (l_coins l) -> absent (map cert_hash certs) l -> ev_version (l_se l).2 -> stale_empty st ->
  pap (for_acc certs a (connect_cert hq)) (fun a' t' => exists uss l' st', certs_conn hq certs uss (ca_undo a) l (ca_undo a') l'
    /\ bounded (l_coins l') /\ ev_version (l_se l').2 /\ stale_empty st' /\ t' = mkTop (join l' F) ∅ st' ∅) (mkTop (join l F) ∅ st ∅).
Proof.
  intros Hh Hfit Hd Hr. revert a l st. induction certs as [|cert certs IH]; intros a l st Hb Ha Hv Hst; cbn [for_acc].
  { apply pap_ret. exists [], l, st. split; [constructor|]. done. }
  apply list.Forall_cons in Hfit as [Hf1 Hfit]. cbn [map] in Hd, Ha. apply list.NoDup_cons in Hd as [Hd1 Hd].
  apply list.Forall_cons in Ha as [Ha1 Ha]. apply pap_then; [|done]. unfold Connect.connect_cert at 1. apply pap_bind, plp_lift. intros n _. cbv zeta.
  destruct (_ <? _); [by apply pap_reject_none|]. set (a1 := mkAcc _ _ _ _ _ _ _ _). apply pap_bind.
  eapply plp_mono; [exact (plp_check_cert a1 cert (mkTop (join l F) ∅ st ∅))|]. intros [a2|] t' [-> Hchk]; [|apply pap_none].
  destruct (Hchk a2 eq_refl) as [Halive Hu]. eapply pap_mono; [by apply pap_apply_cert|]. intros a3 t' (us & l1 & st1 & Hc & Hst1 & ->).
  rewrite Hu in Hc. change (ca_undo a1) with (ca_undo a) in Hc.
  destruct (cert_conn_keeps h _ _ _ _ _ _ _ _ Hh Hf1 Hc Hd1 Hb Ha Hv) as (Hb1 & Ha' & Hv1).
  eapply pap_mono; [by apply IH|]. intros a' t' (uss & l' & st' & Hcs & Hrest). exists (us :: uss), l', st'. split; [by econstructor|done].
Qed.

Lemma awlp_read_sidechains certs t :
  awlp (V := V) (read_sidechains certs) (fun m t' => t' = t /\ forall c, c ∈ certs -> m !! cert_scId c = t_sc t !! cert_scId c) t.
Proof.
  apply awlp_mono with (P := fun m t' => t' = t /\ m ⊆ t_sc t /\ forall c s, c ∈ certs -> t_sc t !! cert_scId c = Some s -> m !! cert_scId c = Some s).
  - induction certs as [|c certs IH]; cbn [read_sidechains].
    { apply awlp_ret. split; [done|]. split; [apply map_empty_subseteq|]. by intros c s ?%not_elem_of_nil. }
    apply awlp_bind, awp_awlp, awp_GetSidechain, awlp_bind. eapply awlp_mono; [exact IH|]. intros m t' (-> & Hsub & Hm). apply awlp_ret. split; [done|].
    destruct (t_sc t !! cert_scId c) as [s|] eqn:Es; split.
    + by apply insert_subseteq_l.
    + intros c' s' [->|Hin]%elem_of_cons Hs'; [by rewrite lookup_insert_eq, <- Es|]. destruct (decide (cert_scId c' = cert_scId c)) as [E|E].
      * rewrite E in *. by rewrite lookup_insert_eq, <- Es.
      * rewrite lookup_insert_ne by done. by apply Hm.
    + done.
    + intros c' s' [->|Hin]%elem_of_cons Hs'; [by rewrite Es in Hs'|]. by apply Hm.
  - intros m t' (-> & Hsub & Hm). split; [done|]. intros c Hc. destruct (t_sc t !! cert_scId c) as [s|] eqn:Es; [by apply Hm|].
    destruct (m !! cert_scId c) eqn:E; [|done]. by rewrite (lookup_weaken _ _ _ _ E Hsub) in Es.
Qed.

Lemma awlp_events bu l F st :
  certs_distinct (l_se l).1 -> bounded (l_coins l) ->
  awlp (V := V) (HandleSidechainEvents h bu) (fun r t' => exists l' st', r.1 = true /\ events_conn bu l r.2 l' /\ t' = mkTop (join l' F) ∅ st' ∅)
    (mkTop (join l F) ∅ st ∅).
Proof.
  intros Hd Hb. apply awlp_mem. intros Hmem. eapply awlp_mono; [by apply awlp_HandleSidechainEvents|].
  intros r t' (W & st' & HM & HL & HW & -> & ->). 
  exists (mkLed (void_coins (l_se l).1 W (set_iter (ceasingScs (events_at h (l_se l).2))) (l_coins l))
    (mature_all h (set_iter (maturingScs (events_at h (l_se l).2))) (l_se l).1, delete h (l_se l).2) (l_csw l) (l_null l)), st'.
  split; [done|]. split; [|done]. exists W. by split_and!.
Qed.

Lemma pap_connect_contents block bu tree l F :
  0 < h < 2 ^ 31 -> block_fits block -> certs_ready F -> good_led l -> old_certs (map cert_hash (vcert block)) (l_se l).1 ->
  absent (map tx_hash (vtx block) ++ map cert_hash (vcert block)) l ->
  pap (connect_contents env CheckLowS Verify threads fExpensiveChecks fScRelatedChecks fScProofVerification h block bu tree)
    (fun a t' => exists l' st, contents_conn block bu l (ca_undo a) l' /\ t' = mkTop (join l' F) ∅ st ∅) (mkTop (join l F) ∅ ∅ ∅).
Proof.
  intros Hh [(cb & txs & Evtx & Hcb & Hplain & Hntx) Hft Hsc Hfc Hd] Hr Hg Ho Ha. pose proof Hg as [Hb _ _]. rewrite Evtx in *.
  pose proof Hd as (_ & _ & Hdc)%list.NoDup_app. unfold connect_contents. rewrite Evtx. apply pap_bind. eapply plp_mono; [by apply plp_connect_txs|].
  intros [a1|] t' Hrun; [|apply pap_none]. destruct (Hrun a1 eq_refl) as (uss & l1 & Htxs & -> & Hu & Hb1 & Ha1). cbn [ca_undo] in Hu.
  destruct (txs_conn_good h _ _ _ _ _ Hh Hft Hsc Htxs Hg Ho) as [Hg1 Ho1].
  apply pap_bind, plp_on_coins. eapply awlp_mono; [apply awlp_read_sidechains|]. intros scs t' [-> Hscs]. apply pap_bind, plp_lift. intros hq Hhq.
  apply pap_then; [|done]. eapply pap_mono; [apply pap_connect_certs; try done; apply Hg1|].
  intros a2 t' (cuss & l2 & st & Hcs & Hb2 & _ & _ & ->). pose proof (certs_conn_good h _ _ _ _ _ _ _ Hh Hfc Hdc Hcs Hg1 Ho1) as Hg2.
  apply pap_bind, plp_on_coins. eapply awlp_mono; [apply awlp_events; [apply Hg2|done]|]. intros [ok bu'] t' (l' & st' & Hok & Hev & ->).
  cbn in Hok, Hev. subst ok. cbn [negb]. apply pap_ret. exists l', st'. split; [|done]. unfold contents_conn. rewrite Evtx. by exists uss, l1, (ca_undo a1), scs, hq, cuss, (ca_undo a2), l2.
Qed.
End Quiet.
