(* ===== verification/DisconnectLaws.v ===== *)
(** * Taking back a block

    [disconnect_contents] with the undo data as it is read from disk, on a ledger that
    [connect_contents] left ([contents_conn]): it succeeds and the ledger is the one
    before. *)

From stdpp Require Import base numbers list strings gmap fin_maps sets option.
From Stdlib Require Import ZArith Lia.
From S2P Require Import Prelude.
From S2P Require Import Amount.
From S2P Require Import Serialize.
From S2P Require Import ScTypes.
From S2P Require Import Forks.
From S2P Require Import Compress.
From S2P Require Import Sidechain.
From S2P Require Import Coins.
From S2P Require Import CoinsSer.
From S2P Require Import Undo.
From S2P Require Import Merkle.
From S2P Require Import View.
From S2P Require Import ViewLaws.
From S2P Require Import TopLaws.
From S2P Require Import ViewOps.
From S2P Require Import ScOps.
From S2P Require Import ScApply.
From S2P Require Import ScRound.
From S2P Require Import BlockCoins.
From S2P Require Import ScCert.
From S2P Require Import BwtOps.
From S2P Require Import ScEvents.
From S2P Require Import ScInv.
From S2P Require Import UndoNorm.
From S2P Require Import Script.
From S2P Require Import Interpreter.
From S2P Require Import Standard.
From S2P Require Import Primitives.
From S2P Require Import Chain.
From S2P Require Import BlockData.
From S2P Require Import BlockIndex.
From S2P Require Import TxSer.
From S2P Require Import SigHash.
From S2P Require Import Pow.
From S2P Require Import Checks.
From S2P Require Import Inputs.
From S2P Require Import Connect.
From S2P Require Import LedgerSteps.
From S2P Require Import ConnectLaws.
Open Scope Z_scope.
Open Scope zen_scope.

(** ** Transactions *)
Section Txs.
  Context `{NodeConfig} {V : Type} `{CCoinsView V} `{ViewSpec V} `{!ViewLaws V} `{!FreshOk V} `{MerkleHash Z} (h : Z) (F : AbsView).
Local Notation C := (CCoinsViewCache V).

(** the ledger [l], but that fewer amounts are scheduled to mature *)
Definition near (l : Led) (t : Top) : Prop :=
  null_events (t_ev_stale t) /\ exists E, t_view t = join (mkLed (l_coins l) ((l_se l).1, E) (l_csw l) (l_null l)) F /\ fewer h E (l_se l).2.

Lemma alter_back {A} (k : Z) (o : option A) (D : gmap Z A) : D !! k = None -> partial_alter (fun _ => None) k (partial_alter (fun _ => o) k D) = D.
Proof.
  intros Hk. apply map_eq. intros i. destruct (decide (i = k)) as [->|Hne]; [by rewrite lookup_partial_alter_eq|by rewrite !lookup_partial_alter_ne].
Qed.

Lemma remove_csw_nullifiers ws l E t :
  NoDup (map (fun w => (csw_scId w, csw_nullifier w)) ws) -> t_view t = join (mkLed (l_coins l) ((l_se l).1, E) (l_csw l) (l_null l)) F ->
  Forall (fun k => is_Some (l_csw l !! k)) (map (fun w => (csw_scId w, csw_nullifier w)) ws) ->
  awp (V := V) (for_each ws (fun w => RemoveCswNullifier (csw_scId w) (csw_nullifier w))) (fun ok t' => ok = true
    /\ t_view t' = join (mkLed (l_coins l) ((l_se l).1, E) (csw_rem (map (fun w => (csw_scId w, csw_nullifier w)) ws) (l_csw l)) (l_null l)) F
    /\ t_ev_stale t' = t_ev_stale t) t.
Proof.
  revert l t. induction ws as [|w ws IH]; intros l t Hd Ht Hs; cbn [for_each map]; [by apply awp_ret|]. cbn [map] in Hd, Hs.
  apply list.NoDup_cons in Hd as [Hn Hd]. apply list.Forall_cons in Hs as [H1' Hs]. apply awp_bind, awp_RemoveCsw; [unfold t_csw; by rewrite Ht|].
  set (l1 := mkLed (l_coins l) (l_se l) (delete (csw_scId w, csw_nullifier w) (l_csw l)) (l_null l)).
  eapply awp_mono; [apply (IH l1); [done| |]|].
  - cbn. rewrite Ht. done.
  - rewrite list.Forall_forall in Hs |- *. intros k Hk. cbn. rewrite lookup_delete_ne by (intros <-; done). by apply Hs.
  - done.
Qed.

Lemma disconnect_tx_law tx us l l' fc t :
  tx_fits tx -> tx_sc_ok tx -> good_led h l -> tx_conn h tx us l l' -> near l' t ->
  awp (V := V) (disconnect_tx h fc (tx, if IsCoinBase tx then None else Some us)) (fun r t' => r = Some fc /\ near l t') t.
Proof.
  intros (Hn & Ho & Hev & Hsz) [Hp Hl] Hg (D & Hs & Hk & Hnf & Hen & Hfd & Hdc & Hfc & ->) (Hst & E & Ht & Hfew). cbn [l_coins l_se l_csw l_null] in Ht, Hfew.
  destruct (Coins_From_tx_fit tx h Ho) as [Hfit _]. unfold disconnect_tx. apply awp_bind, awp_remove_outputs; [done|apply ClearUnspendable_idem|done| |].
  { unfold t_coins. rewrite Ht. cbn. by rewrite lookup_partial_alter_eq. }
  assert (Hrem : partial_alter (fun _ => None) (tx_hash tx) (partial_alter (fun _ => coins_abs (Coins_From_tx tx h)) (tx_hash tx) D) = D).
  { apply alter_back. by apply (spent_absent _ _ _ _ _ Hs). }
  rewrite andb_true_r. apply awp_bind, awp_set_nullifiers. apply awp_bind.
  set (l1 := mkLed D (conn_all h (concat (groups tx)) (l_se l)) (csw_add (csw_keys tx) (l_csw l)) (l_null l)).
  eapply awp_mono; [apply (remove_csw_nullifiers _ l1 E); [done| |]|].
  { match goal with |- t_view ?t' = _ => change (t_view t') with (with_null (mark_null (tx_nullifiers tx) false) (with_acoins (partial_alter (fun _ => None) (tx_hash tx)) (t_view t))) end.
    rewrite Ht. unfold with_null, with_acoins, join. cbn -[mark_null csw_add conn_all partial_alter]. by rewrite Hrem, mark_null_undo. }
  { apply list.Forall_forall. intros k Hin. cbn. rewrite lookup_csw_add, decide_True by done. by eexists. }
  intros ok t1 (-> & Ht1 & Hst1). cbn [negb]. cbn [l1 l_coins l_se l_csw l_null] in Ht1. fold (csw_keys tx) in Ht1. rewrite csw_back in Ht1 by done.
  apply awp_bind. eapply awp_mono.
  { eapply awp_ext; [intros c; apply RevertTxOutputs_items|]. apply (disc_groups h (groups tx) (l_se l)); [| |by apply good_Inv, Hg|done| | |].
    - apply list.Forall_forall. intros g Hgin. apply list.Forall_forall. intros x Hx. rewrite list.Forall_forall in Hp. apply Hp.
      apply list_elem_of_In, in_concat. exists g. by split; apply list_elem_of_In.
    - apply groups_cls.
    - unfold t_sc. rewrite Ht1. done.
    - unfold t_ev. rewrite Ht1. done.
    - by rewrite Hst1. }
  intros ok t2 (-> & Hst2 & E2 & Ht2 & Hfew2). cbn [negb]. rewrite Ht1 in Ht2. unfold inputs in Hs. destruct (IsCoinBase tx).
  - apply awp_ret. split; [done|]. split; [done|]. exists E2. split; [|done]. rewrite Ht2. inversion Hs; subst. done.
  - assert (Hlen : vsize us = vsize (tx_vin tx)). { clear -Hs. unfold vsize. f_equal. induction Hs; cbn; congruence. }
    rewrite Hlen, Z.eqb_refl. cbn [negb]. apply awp_bind. eapply awp_undo_inputs; [exact Hs|unfold t_coins; by rewrite Ht2|]. apply awp_ret.
    split; [done|]. split; [done|]. exists E2. split; [|done]. cbn. rewrite Ht2. done.
Qed.

Lemma for_acc_app {S A B} (l k : list A) acc (f : B -> A -> M S (option B)) s :
  for_acc (l ++ k) acc f s = (let* r := for_acc l acc f in match r with Some a => for_acc k a f | None => ret None end) s.
Proof.
  revert acc s. induction l as [|x l IH]; intros acc s; [done|]. cbn [app for_acc]. unfold bind. destruct (f acc x s) as [[[a|] s1]|]; [|done|done].
  rewrite IH. done.
Qed.

Lemma awp_for_acc_snoc {A B} (l : list A) x acc (f : B -> A -> M C (option B)) P t :
  awp (for_acc l acc f) (fun r t' => exists a, r = Some a /\ awp (f a x) (fun r' t'' => exists a', r' = Some a' /\ P (Some a') t'') t') t ->
  awp (for_acc (l ++ [x]) acc f) P t.
Proof.
  intros Hl. eapply awp_ext; [intros c; apply for_acc_app|]. apply awp_bind. eapply awp_mono; [exact Hl|]. intros r t' (a & -> & Hx). cbn [for_acc].
  apply awp_bind. eapply awp_mono; [exact Hx|]. intros r' t'' (a' & -> & HP). by apply awp_ret.
Qed.

Definition tx_undo_of (tx : CTransaction) (us : CTxUndo) : option CTxUndo := if IsCoinBase tx then None else Some us.

Lemma disconnect_txs_law txs uss l l' fc t :
  0 < h < 2 ^ 31 -> Forall tx_fits txs -> Forall tx_sc_ok txs -> good_led h l -> txs_conn h txs uss l l' -> near l' t ->
  awp (V := V) (for_acc (rev (zip txs (zip_with tx_undo_of txs uss))) fc (disconnect_tx h)) (fun r t' => r = Some fc /\ near l t') t.
Proof.
  intros Hh Hfit Hok Hg Htx. revert t. induction Htx as [|tx us txs uss l l1 l2 Ht Hts IH]; intros t Hn; [by apply awp_ret|].
  apply list.Forall_cons in Hfit as [F1 Hfit], Hok as [O1 Hok]. cbn [zip_with rev]. apply awp_for_acc_snoc.
  eapply awp_mono; [apply IH; [done..|by eapply tx_conn_good|done]|]. intros r t1 [-> Hn1]. exists fc. split; [done|].
  eapply awp_mono; [by eapply disconnect_tx_law|]. intros r t2 [-> Hn2]. by exists fc.
Qed.

Lemma tx_conn_norm tx us l l' : tidy_coins (l_coins l) -> tx_conn h tx us l l' -> tx_conn h tx (map TxInUndo_norm us) l l'.
Proof. intros Ht (D & Hs & Hrest). exists D. split; [by apply spent_norm|done]. Qed.

Lemma txs_conn_norm txs uss l l' :
  0 < h < 2 ^ 31 -> Forall tx_fits txs -> Forall tx_sc_ok txs -> good_led h l -> txs_conn h txs uss l l' -> txs_conn h txs (map (map TxInUndo_norm) uss) l l'.
Proof.
  intros Hh Hfit Hok Hg Htx. induction Htx as [|tx us txs uss l l1 l2 Ht Hts IH]; [constructor|].
  apply list.Forall_cons in Hfit as [F1 Hfit], Hok as [O1 Hok]. cbn [map]. econstructor; [apply tx_conn_norm; [apply Hg|exact Ht]|].
  apply IH; [done..|by eapply tx_conn_good].
Qed.

Lemma txs_conn_length txs uss l l' : txs_conn h txs uss l l' -> length uss = length txs.
Proof. induction 1; cbn; congruence. Qed.
End Txs.

(** ** Certificates of highest quality *)
Lemma top_certs_sub l visited c : c ∈ top_certs l visited -> c ∈ l /\ cert_scId c ∉ visited.
Proof.
  revert visited. induction l as [|x l IH]; intros visited; cbn [top_certs]; [by intros ?%not_elem_of_nil|]. case_decide as Hx.
  - intros Hin. destruct (IH _ Hin). split; [by constructor|done].
  - intros [->|Hin]%elem_of_cons; [split; [constructor|done]|]. destruct (IH _ Hin). split; [by constructor|set_solver].
Qed.

Lemma top_certs_once l visited c c' : c ∈ top_certs l visited -> c' ∈ top_certs l visited -> cert_scId c = cert_scId c' -> c = c'.
Proof.
  revert visited. induction l as [|x l IH]; intros visited; cbn [top_certs]; [by intros ?%not_elem_of_nil|]. case_decide as Hx; [apply IH|].
  intros [->|Hin]%elem_of_cons [->|Hin']%elem_of_cons E; [done|..|by eapply IH].
  - apply top_certs_sub in Hin' as [_ Hn]. rewrite <- E in Hn. set_solver.
  - apply top_certs_sub in Hin as [_ Hn]. rewrite E in Hn. set_solver.
Qed.

Lemma top_certs_all l visited c : c ∈ l -> cert_scId c ∉ visited -> exists c', c' ∈ top_certs l visited /\ cert_scId c' = cert_scId c.
Proof.
  revert visited. induction l as [|x l IH]; intros visited; [by intros ?%not_elem_of_nil|]. intros Hin Hn. cbn [top_certs]. case_decide as Hx.
  - apply elem_of_cons in Hin as [->|Hin]; [done|]. by apply IH.
  - destruct (decide (cert_scId x = cert_scId c)) as [E|E]; [exists x; split; [constructor|done]|].
    apply elem_of_cons in Hin as [->|Hin]; [done|]. destruct (IH ({[cert_scId x]} ∪ visited) Hin) as (c' & Hc & Hs); [set_solver|]. exists c'. split; [by constructor|done].
Qed.

Lemma fold_hashes (f : CScCertificate -> uint256) l (r : gmap Z Z) k p :
  foldl (fun r c => <[cert_hash c := f c]> r) r l !! k = Some p -> r !! k = Some p \/ exists c, c ∈ l /\ cert_hash c = k /\ f c = p.
Proof.
  revert r. induction l as [|c l IH]; intros r Hk; [by left|]. cbn in Hk. destruct (IH _ Hk) as [Hr|(c' & Hin & Hc)].
  - destruct (decide (k = cert_hash c)) as [->|Hne].
    + rewrite lookup_insert_eq in Hr. injection Hr as <-. right. exists c. split; [constructor|done].
    + rewrite lookup_insert_ne in Hr by done. by left.
  - right. exists c'. split; [by constructor|done].
Qed.

Lemma fold_hashes_in (f : CScCertificate -> uint256) l (r : gmap Z Z) c : c ∈ l -> is_Some (foldl (fun r c => <[cert_hash c := f c]> r) r l !! cert_hash c).
Proof.
  assert (Hkeep : forall l (r : gmap Z Z) k, is_Some (r !! k) -> is_Some (foldl (fun r c => <[cert_hash c := f c]> r) r l !! k)).
  { clear. induction l as [|c l IH]; intros r k Hk; [done|]. cbn. apply IH. destruct (decide (cert_hash c = k)) as [->|]; [rewrite lookup_insert_eq; by eexists|by rewrite lookup_insert_ne]. }
  revert r. induction l as [|x l IH]; intros r; [by intros ?%not_elem_of_nil|]. intros [->|Hin]%elem_of_cons; [|by apply IH].
  cbn. apply Hkeep. rewrite lookup_insert_eq. by eexists.
Qed.

Lemma hash_inj (l : list CScCertificate) c c' : NoDup (map cert_hash l) -> c ∈ l -> c' ∈ l -> cert_hash c = cert_hash c' -> c = c'.
Proof.
  induction l as [|x l IH]; cbn [map]; [by intros _ ?%not_elem_of_nil|]. intros [Hn Hd]%list.NoDup_cons [->|Hin]%elem_of_cons [->|Hin']%elem_of_cons E; [done|..|by apply IH].
  - destruct Hn. rewrite E. by apply (list_elem_of_fmap_2 cert_hash).
  - destruct Hn. rewrite <- E. by apply (list_elem_of_fmap_2 cert_hash).
Qed.

(** ** One certificate *)
Section Certs.
  Context `{NodeConfig} `{ZendooLib} {V : Type} `{CCoinsView V} `{ViewSpec V} `{!ViewLaws V} `{!FreshOk V} (h : Z) (F : AbsView).
Local Notation C := (CCoinsViewCache V).

Definition exact (l : Led) (t : Top) : Prop := stale_empty (t_ev_stale t) /\ t_view t = join l F.

(** the certificate connected, with the undo data of its sidechain *)
Definition cert_done (U : gmap Z CSidechainUndoData) (top : option Z) (cert : CScCertificate) (us : CTxUndo) (l l' : Led) : Prop :=
  let sid := cert_scId cert in
  exists D s, spent (l_coins l) (cert_vin cert) us D /\ l_coins l !! cert_hash cert = None /\ (l_se l).1 !! sid = Some s
    /\ let D1 := partial_alter (fun _ => cert_outs h cert s top) (cert_hash cert) D in
       match top with
       | None => l' = mkLed D1 (l_se l) (l_csw l) (l_null l)
       | Some p => exists u u1 u3 s' D2, cert_step cert u s u1 s' /\ sc_mem_ok s /\ U !! sid = Some u3 /\ extends u1 u3
           /\ (cert_moves cert s = true -> sid ∈ ceasing_at (l_se l).2 (GetScheduledCeasingHeight s)
                 /\ sid ∉ ceasing_at (l_se l).2 (GetScheduledCeasingHeight s'))
           /\ (if p =? 0 then D2 = D1
               else p <> cert_hash cert /\ has (contentBitMask u3) SUPERSEDED_CERT_DATA = true /\ bwts_nullified D1 p (lowQualityBwts u3) D2)
           /\ l' = mkLed D2 (conn_cert cert s s' (l_se l)) (l_csw l) (l_null l)
       end.

Lemma nullified_other D k o p low D2 :
  p <> k -> D !! k = None -> bwts_nullified (partial_alter (fun _ => o) k D) p low D2 ->
  D2 !! k = o /\ bwts_nullified D p low (partial_alter (fun _ => None) k D2).
Proof.
  intros Hne Hk Hn. apply bwts_voided in Hn as (o' & Hv & ->). rewrite lookup_partial_alter_ne in Hv by done. split.
  - rewrite lookup_partial_alter_ne by done. by rewrite lookup_partial_alter_eq.
  - apply bwts_voided. exists o'. split; [done|]. apply map_eq. intros i. destruct (decide (i = k)) as [->|Hik].
    + rewrite lookup_partial_alter_eq, lookup_partial_alter_ne by done. done.
    + rewrite lookup_partial_alter_ne by done. destruct (decide (i = p)) as [->|Hip]; [by rewrite !lookup_partial_alter_eq|].
      by rewrite !lookup_partial_alter_ne.
Qed.

Lemma step_maturity cert u s u' s' e : cert_step cert u s u' s' -> GetCertMaturityHeight s' e = GetCertMaturityHeight s e.
Proof.
  intros Hst. destruct (cert_step_fields _ _ _ _ _ Hst) as [F1 F2 _ _ _ _ _ _ _ _ _ _].
  unfold GetCertMaturityHeight, GetCertSubmissionWindowEnd, GetCertSubmissionWindowStart, GetCertSubmissionWindowLength, GetStartHeightForEpoch, isCreationConfirmed, epochLength.
  by rewrite F1, F2.
Qed.

Lemma cert_done_sidechain U top cert us l l' : cert_done U top cert us l l' ->
  exists D s s', spent (l_coins l) (cert_vin cert) us D /\ l_coins l !! cert_hash cert = None /\ (l_se l).1 !! cert_scId cert = Some s
    /\ (l_se l').1 !! cert_scId cert = Some s' /\ GetCertMaturityHeight s' (epochNumber cert) = GetCertMaturityHeight s (epochNumber cert)
    /\ l_coins l' !! cert_hash cert = cert_outs h cert s top.
Proof.
  intros (D & s & Hs & Hk & Es & Hm). cbv zeta in Hm. destruct top as [p|].
  - destruct Hm as (u & u1 & u3 & s' & D2 & Hst & _ & _ & _ & _ & Hp & ->). exists D, s, s'. cbn. rewrite lookup_insert_eq.
    split_and!; try done; [by eapply step_maturity|]. destruct (p =? 0); [subst; by rewrite lookup_partial_alter_eq|]. destruct Hp as (Hne & _ & Hn).
    eapply nullified_other; [exact Hne| |exact Hn]. by apply (spent_absent _ _ _ _ _ Hs).
  - subst l'. exists D, s, s. cbn. by rewrite lookup_partial_alter_eq.
Qed.

(** the backward transfers of the certificate superseded *)
Lemma awp_restore_superseded p u3 D D2 k o (P : unit -> Top -> Prop) t :
  D !! k = None -> (if p =? 0 then D2 = partial_alter (fun _ => o) k D
    else p <> k /\ has (contentBitMask u3) SUPERSEDED_CERT_DATA = true /\ bwts_nullified (partial_alter (fun _ => o) k D) p (lowQualityBwts u3) D2) ->
  t_coins t = partial_alter (fun _ => None) k D2 -> P tt (put_tcoins D t) ->
  awp (V := V) (if negb (p =? 0) then massert (has (contentBitMask u3) SUPERSEDED_CERT_DATA) ;;;
         let* _ := RestoreBackwardTransfers p (lowQualityBwts u3) in ret tt else ret tt) P t.
Proof.
  intros Hk Hp Ht HP. destruct (p =? 0); cbn [negb].
  - apply awp_ret. subst D2. rewrite alter_back in Ht by done. by rewrite <- Ht, put_tcoins_id in HP.
  - destruct Hp as (Hne & Hbit & Hn). apply awp_bind, awp_massert; [done|]. destruct (nullified_other _ _ _ _ _ _ Hne Hk Hn) as [_ Hn'].
    apply awp_bind. eapply awp_Restore; [exact Hn'|done|]. by apply awp_ret.
Qed.

Lemma spent_length D vin us D' : spent D vin us D' -> vsize us = vsize vin.
Proof. intros Hs. unfold vsize. f_equal. induction Hs; cbn; congruence. Qed.

Lemma disconnect_cert_law hq undo cert us l l' fc t :
  cert_fits cert -> ev_nonnull (l_se l).2 -> ev_version (l_se l).2 -> cert_done (scUndoDatabyScId undo) (hq !! cert_hash cert) cert us l l' -> exact l' t ->
  awp (V := V) (disconnect_cert h hq undo fc (cert, us)) (fun r t' => r = Some fc /\ exact l t') t.
Proof.
  intros Hfit Hnn Hv Hdone [Hst Ht]. destruct (cert_done_sidechain _ _ _ _ _ _ Hdone) as (D & s & s' & Hs & Hk & Es & Es' & Hmat & Hout).
  unfold disconnect_cert. set (top := hq !! cert_hash cert) in *. apply awp_bind, awp_GetSidechain. unfold t_sc at 1. rewrite Ht. cbn [join a_sc]. rewrite Es', Hmat.
  pose proof (Coins_From_cert_fit cert h (GetCertMaturityHeight s (epochNumber cert)) (bool_decide (is_Some top)) Hfit) as [Hcf _].
  destruct (Coins_From_cert_part cert h (GetCertMaturityHeight s (epochNumber cert)) (bool_decide (is_Some top))) as (c1 & Ec1 & _ & Hhd & _).
  apply awp_bind, awp_remove_outputs; [done|by rewrite Ec1; apply ClearUnspendable_idem| |unfold t_coins; rewrite Ht; exact Hout|].
  { rewrite Ec1. cbn. apply (f_equal nVersion) in Hhd. cbn in Hhd. rewrite Hhd. by destruct Hfit as (_ & _ & -> & _). }
  rewrite andb_true_r. clear Hout Es'. destruct Hdone as (D0 & s0 & Hs0 & _ & Es0 & Hm). cbv zeta in Hm. rewrite Es in Es0. injection Es0 as <-. clear D Hs.
  pose proof (spent_absent _ _ _ _ _ Hs0 Hk) as HD0.
  assert (Hfin : forall st t', stale_empty st -> t_view t' = join (mkLed D0 (l_se l) (l_csw l) (l_null l)) F -> t_ev_stale t' = st ->
    awp (V := V) (if negb (vsize us =? vsize (cert_vin cert)) then ret None
         else let* fClean := undo_inputs (rev (zip (cert_vin cert) us)) fc in ret (Some fClean)) (fun r t'' => r = Some fc /\ exact l t'') t').
  { intros st t' Hst' Ht' <-. rewrite (spent_length _ _ _ _ Hs0), Z.eqb_refl. cbn [negb]. apply awp_bind. eapply awp_undo_inputs; [exact Hs0|unfold t_coins; by rewrite Ht'|].
    apply awp_ret. split; [done|]. split; [done|]. cbn. rewrite Ht'. by destruct l. }
  destruct top as [p|].
  - destruct Hm as (u & u1 & u3 & s1 & D2 & Hstep & Hmem & HU & Hext & Hmove & Hp & ->). rewrite HU. apply awp_bind, awp_bind.
    eapply awp_restore_superseded; [exact HD0|exact Hp|unfold t_coins; cbn; by rewrite Ht|].
    eapply (awp_RestoreSidechain cert u u1 u3 s s1 (l_se l).1 (l_se l).2); [done..| | |].
    + unfold t_sc, t_ev. cbn. rewrite Ht. by destruct (l_se l).
    + done.
    + intros st Hst'. cbn [negb]. apply (Hfin st); [done| |done]. cbn. rewrite Ht. unfold put, with_ev, with_sc. cbn. by destruct (l_se l).
  - subst l'. apply awp_bind, awp_ret. cbn [negb]. apply (Hfin (t_ev_stale t)); [done| |done]. cbn. rewrite Ht. unfold with_acoins, join. cbn.
    by rewrite alter_back.
Qed.

(** ** The certificates of a block *)
Inductive certs_done (U : gmap Z CSidechainUndoData) (hq : gmap Z Z) : list CScCertificate -> list CTxUndo -> Led -> Led -> Prop :=
| done_nil l : certs_done U hq [] [] l l
| done_cons cert us certs uss l l1 l2 :
    ev_nonnull (l_se l).2 -> ev_version (l_se l).2 -> cert_done U (hq !! cert_hash cert) cert us l l1 -> certs_done U hq certs uss l1 l2 ->
    certs_done U hq (cert :: certs) (us :: uss) l l2.

Lemma disconnect_certs_law hq undo certs uss l l' fc t :
  Forall cert_fits certs -> certs_done (scUndoDatabyScId undo) hq certs uss l l' -> exact l' t ->
  awp (V := V) (for_acc (rev (zip certs uss)) fc (disconnect_cert h hq undo)) (fun r t' => r = Some fc /\ exact l t') t.
Proof.
  intros Hfit Hc. revert t. induction Hc as [|cert us certs uss l l1 l2 Hnn Hv Hc Hcs IH]; intros t Ht; [by apply awp_ret|].
  apply list.Forall_cons in Hfit as [F1 Hfit]. cbn [zip_with rev]. apply awp_for_acc_snoc. eapply awp_mono; [by apply IH|]. intros r t1 [-> Ht1].
  exists fc. split; [done|]. eapply awp_mono; [by eapply disconnect_cert_law|]. intros r t2 [-> Ht2]. by exists fc.
Qed.

(** a certificate changes its sidechain only, and only the best one of the block *)
Lemma cert_conn_other top cert us bu l bu' l' sid : cert_conn h top cert us bu l bu' l' -> (is_Some top -> sid <> cert_scId cert) ->
  (l_se l').1 !! sid = (l_se l).1 !! sid /\ scUndoDatabyScId bu' !! sid = scUndoDatabyScId bu !! sid.
Proof.
  intros (D & s & _ & _ & _ & _ & _ & Hm) Hne. cbv zeta in Hm. destruct top as [p|]; [|by destruct Hm as [-> ->]].
  destruct Hm as (u1 & u2 & s' & D2 & _ & _ & _ & -> & ->). cbn. specialize (Hne ltac:(done)). by rewrite !lookup_insert_ne.
Qed.

Lemma cert_conn_known top cert us bu l bu' l' sid : cert_conn h top cert us bu l bu' l' -> is_Some ((l_se l').1 !! sid) -> is_Some ((l_se l).1 !! sid).
Proof.
  intros Hc Hs. destruct (decide (sid = cert_scId cert)) as [->|Hne].
  - destruct Hc as (D & s & _ & _ & Es & _). by exists s.
  - by destruct (cert_conn_other _ _ _ _ _ _ _ sid Hc ltac:(done)) as [<- _].
Qed.

Lemma certs_conn_known hq certs uss bu l bu' l' c : certs_conn h hq certs uss bu l bu' l' -> c ∈ certs -> is_Some ((l_se l).1 !! cert_scId c).
Proof.
  induction 1 as [|cert us certs uss bu bu1 bu2 l l1 l2 Hc Hcs IH]; [by intros ?%not_elem_of_nil|]. intros [->|Hin]%elem_of_cons.
  - destruct Hc as (D & s & _ & _ & Es & _). by exists s.
  - eapply cert_conn_known; [exact Hc|]. by apply IH.
Qed.

Lemma certs_conn_undo hq certs uss bu l bu' l' sid :
  certs_conn h hq certs uss bu l bu' l' -> (forall c, c ∈ certs -> is_Some (hq !! cert_hash c) -> cert_scId c <> sid) ->
  scUndoDatabyScId bu' !! sid = scUndoDatabyScId bu !! sid.
Proof.
  induction 1 as [|cert us certs uss bu bu1 bu2 l l1 l2 Hc Hcs IH]; intros Hn; [done|]. rewrite IH.
  - eapply cert_conn_other; [exact Hc|]. intros Ht E. apply (Hn cert); [constructor|done|done].
  - intros c Hin. apply Hn. by constructor.
Qed.

Lemma certs_conn_length hq certs uss bu l bu' l' : certs_conn h hq certs uss bu l bu' l' -> length uss = length certs.
Proof. induction 1; cbn; congruence. Qed.

Lemma certs_conn_vtxundo hq certs uss bu l bu' l' : certs_conn h hq certs uss bu l bu' l' ->
  vtxundo bu' = vtxundo bu ++ uss /\ includesSidechainAttributes bu' = includesSidechainAttributes bu /\ old_tree_root bu' = old_tree_root bu.
Proof.
  induction 1 as [|cert us certs uss bu bu1 bu2 l l1 l2 Hc Hcs (IH1 & IH2 & IH3)]; [by rewrite app_nil_r|].
  assert (Hb : vtxundo bu1 = vtxundo bu ++ [us] /\ includesSidechainAttributes bu1 = includesSidechainAttributes bu /\ old_tree_root bu1 = old_tree_root bu).
  { destruct Hc as (D & s & _ & _ & _ & _ & _ & Hm). cbv zeta in Hm. destruct (hq !! cert_hash cert); [|by destruct Hm as [-> _]].
    destruct Hm as (u1 & u2 & s' & D2 & _ & _ & _ & -> & _). done. }
  destruct Hb as (E1 & E2 & E3). rewrite IH1, IH2, IH3, E1, E2, E3. by rewrite <- app_assoc.
Qed.

Section Records.
  Context (all : list CScCertificate) (hq : gmap Z Z) (S0 : gmap Z CSidechain) (U : gmap Z CSidechainUndoData).
  Hypothesis Hdup : NoDup (map cert_hash all).
  Hypothesis Hold : old_certs (map cert_hash all) S0.
  Hypothesis Hknown : forall c, c ∈ all -> is_Some (S0 !! cert_scId c).

Definition superseded_by (c : CScCertificate) : Z :=
  match S0 !! cert_scId c with
  | Some s => if epochNumber c =? lastTopQualityCertReferencedEpoch s then lastTopQualityCertHash s else 0
  | None => 0
  end.
  Hypothesis Hhq : hq = foldl (fun r c => <[cert_hash c := superseded_by c]> r) ∅ (top_certs (rev all) ∅).

Lemma in_rev_certs c : c ∈ rev all <-> c ∈ all.
Proof. by rewrite !list_elem_of_In, <- in_rev. Qed.

Lemma hq_top c p : c ∈ all -> hq !! cert_hash c = Some p -> c ∈ top_certs (rev all) ∅ /\ p = superseded_by c.
Proof.
  intros Hc Hp. rewrite Hhq in Hp. apply fold_hashes in Hp as [Hp|(c' & Hin & Hh & <-)]; [by rewrite lookup_empty in Hp|].
  assert (c' = c) as ->; [|done]. apply (hash_inj all); try done. by apply in_rev_certs, (top_certs_sub _ ∅).
Qed.

Lemma hq_once c c' : c ∈ all -> c' ∈ all -> is_Some (hq !! cert_hash c) -> is_Some (hq !! cert_hash c') -> cert_scId c = cert_scId c' -> c = c'.
Proof.
  intros Hc Hc' [p Hp] [p' Hp']. apply hq_top in Hp as [Hp _]; [|done]. apply hq_top in Hp' as [Hp' _]; [|done]. by eapply top_certs_once.
Qed.

Lemma hq_all c : c ∈ all -> exists c', c' ∈ all /\ is_Some (hq !! cert_hash c') /\ cert_scId c' = cert_scId c.
Proof.
  intros Hc. destruct (top_certs_all (rev all) ∅ c) as (c' & Hin & Hs); [by apply in_rev_certs|set_solver|]. exists c'. split_and!; [| |done].
  - by apply in_rev_certs, (top_certs_sub _ ∅).
  - rewrite Hhq. by apply fold_hashes_in.
Qed.

Lemma superseded_old c p : c ∈ all -> hq !! cert_hash c = Some p -> p <> 0 -> p <> cert_hash c.
Proof.
  intros Hc Hp Hz. apply hq_top in Hp as [_ ->]; [|done]. unfold superseded_by in *. destruct (Hknown c Hc) as [s Es]. rewrite Es in *.
  destruct (_ =? _); [|done]. destruct (Hold _ _ Es) as [Hn|[_ Hn]]; [|done]. intros E. apply Hn. rewrite E. by apply (list_elem_of_fmap_2 cert_hash).
Qed.

(** what the undo data on disk keeps of the undo data in memory *)
Definition covers (u u' : CSidechainUndoData) : Prop :=
  exists u3, extends u u3 /\ lowQualityBwts u3 = lowQualityBwts u /\ u' = ScUndo_norm u3.

(** the sidechains of the best certificates that are left are as they were *)
Definition untouched (certs : list CScCertificate) (bu : CBlockUndo) (l : Led) : Prop :=
  forall c, c ∈ certs -> is_Some (hq !! cert_hash c) -> scUndoDatabyScId bu !! cert_scId c = None /\ (l_se l).1 !! cert_scId c = S0 !! cert_scId c.

Lemma untouched_step cert certs us bu l bu1 l1 :
  cert ∈ all -> (forall c, c ∈ certs -> c ∈ all) -> cert_hash cert ∉ map cert_hash certs ->
  cert_conn h (hq !! cert_hash cert) cert us bu l bu1 l1 -> untouched (cert :: certs) bu l -> untouched certs bu1 l1.
Proof.
  intros Hin Hsub Hn Hc Hu c Hc' Ht. destruct (Hu c ltac:(by constructor) Ht) as [E1 E2].
  assert (Hne : is_Some (hq !! cert_hash cert) -> cert_scId c <> cert_scId cert).
  { intros Ht' E. apply Hn. rewrite <- (hq_once c cert (Hsub c Hc') Hin Ht Ht' E). by apply (list_elem_of_fmap_2 cert_hash). }
  destruct (cert_conn_other _ _ _ _ _ _ _ _ Hc Hne) as [-> ->]. done.
Qed.

Lemma extends_trans u1 u2 u3 : extends u1 u2 -> extends u2 u3 -> extends u1 u3.
Proof. intros [E1 B1] [E2 B2]. split; [by rewrite E2|auto]. Qed.

Lemma superseded_extends p D u D' u' : superseded p D u D' u' -> extends u u'.
Proof.
  unfold superseded. destruct (p =? 0); [by intros [_ ->]|]. intros (low & _ & ->). split; [done|]. intros b Hb. cbn. by rewrite has_lor, Hb.
Qed.

Lemma covers_step cert s u1 s' p D D2 u2 u4 :
  cert_step cert ScUndo_empty s u1 s' -> tidy_coins D -> superseded p D u1 D2 u2 -> covers u2 u4 ->
  extends u1 u4 /\ (p <> 0 -> has (contentBitMask u4) SUPERSEDED_CERT_DATA = true /\ bwts_nullified D p (lowQualityBwts u4) D2).
Proof.
  intros Hstep Ht Hsup (u3 & He & Hlow & ->). destruct (cert_step_fields _ _ _ _ _ Hstep) as [_ _ _ _ _ _ _ F8 _ _ F11 F12].
  pose proof (extends_trans _ _ _ (superseded_extends _ _ _ _ _ Hsup) He) as He'. split; [by apply norm_extends|].
  intros Hp. unfold superseded in Hsup. rewrite (proj2 (Z.eqb_neq p 0) Hp) in Hsup. destruct Hsup as (low & Hn & ->).
  assert (Hbit : has (contentBitMask u3) SUPERSEDED_CERT_DATA = true). { apply He. cbn. by rewrite has_lor, orb_true_r. }
  split; [done|]. cbn. rewrite Hbit, Hlow. cbn. rewrite F8. by apply bwts_nullified_norm.
Qed.

Lemma cert_conn_done cert us bu l bu1 l1 :
  cert ∈ all -> cert_fits cert -> good_led h l -> cert_conn h (hq !! cert_hash cert) cert us bu l bu1 l1 -> untouched [cert] bu l ->
  (forall u2, is_Some (hq !! cert_hash cert) -> scUndoDatabyScId bu1 !! cert_scId cert = Some u2 -> exists u4, U !! cert_scId cert = Some u4 /\ covers u2 u4) ->
  cert_done U (hq !! cert_hash cert) cert (map TxInUndo_norm us) l l1.
Proof.
  intros Hin Hfit Hg (D & s & Hs & Hk & Es & Hconf & Hlive & Hm) Hunt HU. exists D, s. split; [apply spent_norm; [done|apply Hg]|]. split; [done|]. split; [done|].
  cbv zeta in *. set (D1 := partial_alter _ _ D) in *. pose proof (superseded_old cert) as Hso. specialize (Hunt cert ltac:(constructor)).
  destruct (hq !! cert_hash cert) as [p|] eqn:Ep; [|by destruct Hm as [_ ->]].
  destruct Hm as (u1 & u2 & s' & D2 & Hstep & Hmem & Hsup & -> & ->). destruct (Hunt ltac:(done)) as [Hnone _].
  assert (Hemp : undo_at (cert_scId cert) bu = ScUndo_empty) by (unfold undo_at; by rewrite Hnone). rewrite Hemp in Hstep.
  destruct (HU u2 ltac:(done)) as (u4 & HU4 & Hcov); [cbn; by rewrite lookup_insert_eq|].
  assert (Ht : tidy_coins D1). { apply tidy_alter; [by apply Coins_From_cert_tidy|]. eapply spent_tidy; [exact Hs|apply Hg]. }
  destruct (covers_step _ _ _ _ _ _ _ _ _ Hstep Ht Hsup Hcov) as [He Hn]. exists ScUndo_empty, u1, u4, s', D2. split_and!; try done.
  - destruct Hg as [_ _ Hgse]. destruct (l_se l) as [S E]. by eapply step_moves.
  - destruct (Z.eqb_spec p 0) as [->|Hz]; [by destruct Hsup as [-> _]|]. destruct (Hn Hz). split_and!; try done. by eapply Hso.
Qed.

(** what the undo data says of the certificate before *)
Definition recorded_prev (c : CScCertificate) : Prop :=
  exists s u, S0 !! cert_scId c = Some s /\ U !! cert_scId c = Some u
    /\ prevTopCommittedCertReferencedEpoch u = lastTopQualityCertReferencedEpoch s /\ prevTopCommittedCertHash u = lastTopQualityCertHash s.

Lemma cert_done_prev cert us l l1 : is_Some (hq !! cert_hash cert) -> (l_se l).1 !! cert_scId cert = S0 !! cert_scId cert ->
  cert_done U (hq !! cert_hash cert) cert us l l1 -> recorded_prev cert.
Proof.
  intros [p Ep] E0 (D & s & _ & _ & Es & Hm). cbv zeta in Hm. rewrite Ep in Hm. destruct Hm as (u & u1 & u3 & s' & D2 & Hst & _ & HU & [Hx _] & _).
  destruct (cert_step_prev _ _ _ _ _ Hst) as [P1 P2]. injection Hx as X1 X2 X3 X4 X5 X6 X7. exists s, u3. rewrite <- E0. split_and!; try done; congruence.
Qed.

Lemma certs_conn_done certs uss bu l bu' l' :
  0 < h < 2 ^ 31 -> (forall c, c ∈ certs -> c ∈ all) -> NoDup (map cert_hash certs) -> Forall cert_fits certs -> good_led h l ->
  old_certs (map cert_hash certs) (l_se l).1 -> certs_conn h hq certs uss bu l bu' l' -> untouched certs bu l ->
  (forall sid u2, scUndoDatabyScId bu' !! sid = Some u2 -> exists u4, U !! sid = Some u4 /\ covers u2 u4) ->
  certs_done U hq certs (map (map TxInUndo_norm) uss) l l' /\ forall c, c ∈ certs -> is_Some (hq !! cert_hash c) -> recorded_prev c.
Proof.
  intros Hh Hsub Hd Hfit Hg Ho Hc. induction Hc as [|cert us certs uss bu bu1 bu2 l l1 l2 Hc Hcs IH]; intros Hunt HU; cbn [map].
  { split; [constructor|]. by intros c ?%not_elem_of_nil. }
  assert (Hin : cert ∈ all) by (apply Hsub; constructor). assert (Hsub' : forall c, c ∈ certs -> c ∈ all) by (intros c Hc'; apply Hsub; by constructor).
  apply list.Forall_cons in Hfit as [F1 Hfit]. cbn [map] in Hd, Ho. apply list.NoDup_cons in Hd as [D1 Hd].
  destruct (cert_conn_good h _ _ _ _ _ _ _ _ Hh F1 D1 Hc Hg Ho) as [Hg1 Ho1].
  assert (Hdone : cert_done U (hq !! cert_hash cert) cert (map TxInUndo_norm us) l l1).
  { eapply cert_conn_done; [done..| |].
    - intros c ->%list_elem_of_singleton. apply Hunt. constructor.
    - intros u2 Htop Hu2. apply HU. rewrite <- Hu2. eapply certs_conn_undo; [exact Hcs|]. intros c Hc' Htop' E.
      apply D1. rewrite <- (hq_once c cert (Hsub' c Hc') Hin Htop' Htop E). by apply (list_elem_of_fmap_2 cert_hash). }
  destruct IH as [IH1 IH2]; [done..|by eapply untouched_step|done|]. split; [econstructor; [apply Hg|apply Hg|done|done]|].
  intros c [->|Hc']%elem_of_cons Htop; [|by apply IH2]. eapply cert_done_prev; [done| |exact Hdone]. by apply (Hunt cert ltac:(constructor)).
Qed.

Lemma all_recorded undo :
  scUndoDatabyScId undo = U -> (forall c, c ∈ all -> is_Some (hq !! cert_hash c) -> recorded_prev c) -> undo_records all (fun id => S0 !! id) undo.
Proof.
  intros HU Hr c Hc. destruct (hq_all c Hc) as (c' & Hc' & Ht & E). destruct (Hr c' Hc' Ht) as (s & u & H1' & H2' & H3' & H4'). rewrite E in *. rewrite HU.
  by exists s, u.
Qed.
End Records.

(** ** Certificates record no events *)
Definition quiet_undo (u : CSidechainUndoData) : Prop :=
  has (contentBitMask u) MATURED_AMOUNTS = false /\ has (contentBitMask u) CEASED_CERT_DATA = false /\ ceasedBwts u = [].

Definition quiet_undos (bu : CBlockUndo) : Prop := map_Forall (fun _ => quiet_undo) (scUndoDatabyScId bu).

Lemma quiet_undos_at bu sid : quiet_undos bu -> quiet_undo (undo_at sid bu).
Proof. intros Hq. unfold undo_at. destruct (scUndoDatabyScId bu !! sid) as [u|] eqn:E; [by apply (Hq sid)|done]. Qed.

Lemma certs_conn_quiet hq certs uss bu l bu' l' : certs_conn h hq certs uss bu l bu' l' -> quiet_undos bu -> quiet_undos bu'.
Proof.
  induction 1 as [|cert us certs uss bu bu1 bu2 l l1 l2 Hc Hcs IH]; intros Hq; [done|]. apply IH. destruct Hc as (D & s & _ & _ & _ & _ & _ & Hm). cbv zeta in Hm.
  destruct (hq !! cert_hash cert) as [p|]; [|by destruct Hm as [-> _]]. destruct Hm as (u1 & u2 & s' & D2 & Hst & _ & Hsup & -> & _).
  apply map_Forall_insert_2; [|done]. destruct (quiet_undos_at bu (cert_scId cert) Hq) as (Q1 & Q2 & Q3).
  destruct (cert_step_fields _ _ _ _ _ Hst) as [_ _ _ _ _ _ _ _ F9 F10 _ _].
  assert (Hu1 : quiet_undo u1). { split_and!; [rewrite F10 by tauto; done|rewrite F10 by tauto; done|by rewrite F9]. }
  unfold superseded in Hsup. destruct (p =? 0); [by destruct Hsup as [_ ->]|]. destruct Hsup as (low & _ & ->). destruct Hu1 as (U1 & U2 & U3).
  split_and!; cbn; [by rewrite has_lor, U1|by rewrite has_lor, U2|done].
Qed.
End Certs.

(** ** The contents of a block *)
Section Contents.
  Context `{NodeConfig} `{ZendooLib} {V : Type} `{CCoinsView V} `{ViewSpec V} `{!ViewLaws V} `{!FreshOk V} `{MerkleHash Z} (h : Z) (F : AbsView).
Local Notation C := (CCoinsViewCache V).

(** the anchor [rt] again *)
Definition popped (rt : Z) (a : AbsView) : AbsView := if decide (a_anchor a = rt) then a else with_anchor (delete (a_anchor a)) rt a.

Lemma join_popped l rt a : popped rt (join l a) = join l (popped rt a).
Proof. unfold popped. cbn. by case_decide. Qed.

Lemma high_quality_fold certs (sidechain : uint256 -> option CSidechain) (S0 : gmap Z CSidechain) :
  (forall c, c ∈ certs -> is_Some (S0 !! cert_scId c) /\ sidechain (cert_scId c) = S0 !! cert_scId c) ->
  HighQualityCertData_connect certs sidechain = Ok (foldl (fun r c => <[cert_hash c := superseded_by S0 c]> r) ∅ (top_certs (rev certs) ∅)).
Proof.
  intros Hs. unfold HighQualityCertData_connect. apply high_quality_known. intros c Hc. apply list_elem_of_In, in_rev, list_elem_of_In in Hc.
  destruct (Hs c Hc) as [[s Es] ->]. unfold superseded_by. by rewrite Es.
Qed.

Lemma norm_scundo bu : includesSidechainAttributes bu = true \/ scUndoDatabyScId bu = ∅ -> scUndoDatabyScId (BlockUndo_norm bu) = ScUndo_norm <$> scUndoDatabyScId bu.
Proof. intros [Hi|Hi]; cbn; rewrite Hi; [done|]. rewrite fmap_empty. by destruct (includesSidechainAttributes bu). Qed.

(** the scheduled events *)
Lemma revert_events_law bu l bu' l' undo (P : bool -> Top -> Prop) :
  good_led h l -> quiet_undos bu -> events_conn h bu l bu' l' -> scUndoDatabyScId undo = ScUndo_norm <$> scUndoDatabyScId bu' ->
  P true (mkTop (join l F) ∅ ∅ ∅) -> awp (V := V) (RevertSidechainEvents undo h) P (mkTop (join l' F) ∅ ∅ ∅).
Proof.
  intros [Hb Ht [G1 G2 G3 G4 G5 G6 G7 G8]] Hq (W & HM & HL & HW & Hmem & -> & ->) HU HP.
  apply (awp_RevertSidechainEvents h (l_se l).1 (l_coins l) (norm_voids W) (l_se l).2); try done.
  - rewrite HU. apply events_undo_norm, record_events_ok. intros sid. by apply quiet_undos_at.
  - intros sid Hin. rewrite list.Forall_forall in HM. destruct (HM sid) as (s & Es & [a Ea]); [by apply elem_of_set_iter|]. exists s, a.
    split_and!; [done|by apply (G2 sid)|by apply (Hmem sid)|done|by apply (G1 sid s Es h)].
  - by apply voids_ok_norm.
  - unfold t_coins. cbn. unfold void_coins. by rewrite void_map_norm.
Qed.

Lemma record_events_other S W ev bu :
  vtxundo (record_events h S W ev bu) = vtxundo bu /\ includesSidechainAttributes (record_events h S W ev bu) = includesSidechainAttributes bu.
Proof.
  unfold record_events. destruct (undo_all_other (record_ceased W) (set_iter (ceasingScs ev)) (undo_all (record_matured h S) (set_iter (maturingScs ev)) bu)) as (-> & -> & _).
  destruct (undo_all_other (record_matured h S) (set_iter (maturingScs ev)) bu) as (-> & -> & _). done.
Qed.

Lemma events_covers bu l bu' l' sid u :
  events_conn h bu l bu' l' -> scUndoDatabyScId bu !! sid = Some u -> exists u', (ScUndo_norm <$> scUndoDatabyScId bu') !! sid = Some u' /\ covers u u'.
Proof.
  intros (W & _ & _ & _ & _ & -> & _) Hu. destruct (record_events_extends h (l_se l).1 W (events_at h (l_se l).2) bu sid u Hu) as (u3 & E3 & He & Hl).
  exists (ScUndo_norm u3). rewrite lookup_fmap, E3. split; [done|]. by exists u3.
Qed.

Lemma block_undos block uss cuss :
  (exists cb txs, vtx block = cb :: txs /\ IsCoinBase cb = true /\ plain cb /\ Forall (fun tx => IsCoinBase tx = false) txs) ->
  length uss = pred (length (vtx block)) -> forall undo, vtxundo undo = uss ++ cuss ->
  tx_undos block undo = zip_with tx_undo_of (vtx block) ([] :: uss) /\ cert_undos block undo = cuss.
Proof.
  intros (cb & txs & E & Hcb & _ & Htx) Hlen undo Hu. unfold tx_undos, cert_undos. rewrite Hu, <- Hlen, E, take_app_length, drop_app_length.
  split; [|done]. cbn [zip_with]. unfold tx_undo_of at 1. rewrite Hcb. f_equal. clear Hu undo. rewrite E in Hlen. cbn in Hlen. clear E Hcb cb. revert uss Hlen. induction Htx as [|tx txs Ht Htx IH]; intros [|us uss] Hlen; try done.
  cbn [map zip_with]. unfold tx_undo_of at 1. rewrite Ht. f_equal. apply IH. by injection Hlen.
Qed.

Theorem disconnect_contents_law block inc l bu' l' undo :
  0 < h < 2 ^ 31 -> block_fits block -> good_led h l -> old_certs (map cert_hash (vcert block)) (l_se l).1 ->
  maturingScs (default Events_empty ((l_se l).2 !! (h + getScCoinsMaturity))) = ∅ ->
  contents_conn h block (BlockUndo_init inc) l bu' l' -> includesSidechainAttributes bu' = true \/ scUndoDatabyScId bu' = ∅ ->
  vsize (vtxundo bu') < 2 ^ 64 -> vtxundo undo = vtxundo (BlockUndo_norm bu') -> scUndoDatabyScId undo = scUndoDatabyScId (BlockUndo_norm bu') ->
  old_tree_root undo <> 0 ->
  (a_anchor F <> old_tree_root undo -> is_Some (a_roots F !! a_anchor F) /\ ~ root_pinned V (a_anchor F)) ->
  awp (V := V) (disconnect_contents block h undo) (fun r t' => r = Some true /\ t_view t' = join l (popped (old_tree_root undo) F)) (mkTop (join l' F) ∅ ∅ ∅).
Proof.
  intros Hh [Hcb Hft Hsc Hfc Hd] Hg Ho Hq (uss & l1 & bu1 & scs & hq & cuss & bu2 & l2 & Htxs & Hbu & Hscs & Hhq & Hcs & Hev) Hinc Hsz Hvt HU Hroot Hanch.
  pose proof Hd as (_ & _ & Hdc)%list.NoDup_app. rewrite norm_scundo in HU by done.
  destruct (txs_conn_good h _ _ _ _ _ Hh Hft Hsc Htxs Hg Ho) as [Hg1 Ho1]. pose proof (certs_conn_good h _ _ _ _ _ _ _ Hh Hfc Hdc Hcs Hg1 Ho1) as Hg2.
  set (S0 := (l_se l1).1) in *. assert (Hkn : forall c, c ∈ vcert block -> is_Some (S0 !! cert_scId c)) by (intros c; by eapply certs_conn_known).
  assert (Ehq : hq = foldl (fun r c => <[cert_hash c := superseded_by S0 c]> r) ∅ (top_certs (rev (vcert block)) ∅)).
  { rewrite (high_quality_fold _ _ S0) in Hhq by auto. by injection Hhq. }
  destruct (certs_conn_done h (vcert block) hq S0 (scUndoDatabyScId undo) Hdc Ho1 Hkn Ehq (vcert block) cuss bu1 l1 bu2 l2) as [Hdone Hrec]; try done.
  { intros c _ _. by rewrite Hbu. }
  { intros sid u2 Hu2. rewrite HU. by eapply events_covers. }
  assert (Hqu : quiet_undos bu2) by (eapply (certs_conn_quiet h); [exact Hcs|by rewrite Hbu]).
  destruct (high_quality_agree (vcert block) (fun id => S0 !! id) undo) as (r & Hr1 & Hr2). { by apply (all_recorded (vcert block) hq S0 (scUndoDatabyScId undo)). }
  rewrite (high_quality_fold _ _ S0) in Hr1 by auto. injection Hr1 as <-. rewrite <- Ehq in Hr2.
  pose proof (txs_conn_length h _ _ _ _ Htxs) as Hlt. cbn [length] in Hlt. pose proof (certs_conn_length h _ _ _ _ _ _ _ Hcs) as Hlc.
  assert (Hv : vtxundo bu' = uss ++ cuss).
  { destruct Hev as (W & _ & _ & _ & _ & -> & _). destruct (record_events_other (l_se l2).1 W (events_at h (l_se l2).2) bu2) as [-> _]. destruct (certs_conn_vtxundo h _ _ _ _ _ _ _ Hcs) as [-> _]. by rewrite Hbu. }
  rewrite Hv in Hsz. cbn [vtxundo BlockUndo_norm] in Hvt. rewrite Hv, map_app in Hvt.
  destruct (block_undos block (map (map TxInUndo_norm) uss) (map (map TxInUndo_norm) cuss) Hcb) with (undo := undo) as [Etx Ecert]; [rewrite length_map; change (@length (list CTxInUndo) uss) with (@length CTxUndo uss); lia|done|].
  unfold disconnect_contents. rewrite Etx, Ecert.
  assert (vsize (vtxundo undo) = to_u64 (vsize (vtx block) - 1 + vsize (vcert block))) as ->.
  { rewrite Hvt. unfold vsize in *. rewrite length_app in Hsz. rewrite length_app, !length_map. change (@length (list CTxInUndo)) with (@length CTxUndo). unfold to_u64. rewrite Z.mod_small by lia. lia. }
  rewrite Z.eqb_refl. cbn [negb]. apply awp_bind. eapply revert_events_law; [exact Hg2|exact Hqu|exact Hev|exact HU|]. cbn [negb].
  apply awp_bind, (awp_lift _ hq); [done|]. apply awp_bind. eapply awp_mono; [eapply (disconnect_certs_law h F); [exact Hfc|exact Hdone|by split]|].
  intros r t1 [-> [Hst1 Ht1]]. apply awp_bind. eapply awp_mono.
  { apply (disconnect_txs_law h F _ _ l l1); [done..|exact (txs_conn_norm h _ _ _ _ Hh Hft Hsc Hg Htxs)|]. split; [by apply stale_empty_null|].
    exists (l_se l1).2. split; [by rewrite Ht1; destruct l1 as [? [] ? ?]|]. apply fewer_refl, Hg1. }
  intros r t2 [-> (Hst2 & E & Ht2 & Hfew)]. apply fewer_quiet in Hfew; [|apply Hg|done].
  apply awp_bind, awp_PopAnchor; [done|rewrite Ht2; exact Hanch|]. apply awp_ret. split; [done|]. cbn [t_view on_view]. rewrite Ht2, Hfew.
  assert (mkLed (l_coins l) ((l_se l).1, (l_se l).2) (l_csw l) (l_null l) = l) as -> by (by destruct l as [? [] ? ?]). apply join_popped.
Qed.
End Contents.
