(* ===== verification/UndoFile.v ===== *)
(** * The undo files

    What [ConnectBlock] writes to the undo file of a block is what [DisconnectBlock]
    reads from it, up to what the format does not store. *)

From stdpp Require Import base numbers list strings gmap fin_maps sets option.
From Stdlib Require Import ZArith Lia.
From S2P Require Import Prelude.
From S2P Require Import Amount.
From S2P Require Import Serialize.
From S2P Require Import ScTypes.
From S2P Require Import Forks.
From S2P Require Import Compress.
From S2P Require Import Sidechain.
From S2P Require Import Coins.
From S2P Require Import CoinsSer.
From S2P Require Import Undo.
From S2P Require Import View.
From S2P Require Import Script.
From S2P Require Import Crypto.
From S2P Require Import Base58.
From S2P Require Import BlockData.
From S2P Require Import BlockIndex.
From S2P Require Import TxSer.
From S2P Require Import Checks.
From S2P Require Import Inputs.
From S2P Require Import Connect.
Open Scope Z_scope.
Open Scope zen_scope.

(** ** What is read is written the same *)
Definition Rewrites {A} (s : Serializer A) (ok : A -> Prop) (norm : A -> A) : Prop :=
  forall x, ok x -> ser s (norm x) = ser s x.

Lemma vec_rewrites {A} (s : Serializer A) ok norm :
  Rewrites s ok norm -> Rewrites (s_vec s) (fun l => short l /\ Forall ok l) (map norm).
Proof.
  intros Hs l [_ Hl]. cbn [ser s_vec]. rewrite length_map, map_map. do 2 f_equal.
  apply map_ext_Forall. revert Hl. by apply Forall_impl.
Qed.

Lemma map_iter_fmap {V} (f : V -> V) (m : gmap Z V) : map_iter (f <$> m) = map (prod_map id f) (map_iter m).
Proof.
  unfold map_iter. rewrite dom_fmap_L. induction (set_iter (dom m)) as [|k l IH]; [done|]. cbn [omap list_omap]. rewrite lookup_fmap.
  destruct (m !! k); cbn [fmap option_fmap option_map map]; [by f_equal|done].
Qed.

Lemma map_rewrites {V} (t : Serializer V) ok norm :
  Rewrites t ok norm -> Rewrites (s_map s_uint256 t) (map_Forall (fun _ => ok)) (fmap norm).
Proof.
  intros Ht m Hm. cbn [ser s_map]. rewrite map_iter_fmap. cbn [ser s_vec]. rewrite length_map, map_map. do 2 f_equal.
  apply map_ext_in. intros [k v] Hkv%list_elem_of_In%elem_of_map_iter. cbn [ser s_pair prod_map fst snd]. by rewrite (Ht v (Hm _ _ Hkv)).
Qed.

Section Curve.
  Context `{Secp256k1} `{!Secp256k1Laws}.

Lemma txinundo_rewrites : Rewrites s_txinundo txinundo_ok TxInUndo_norm.
Proof.
  intros u (_ & _ & Hv & _). cbn [ser s_txinundo]. unfold TxInUndo_ser, TxInUndo_norm.
  assert (Hc : forall v, (v = if 0 <? u_nHeight u then stored_version (u_nVersion u) else 0) ->
    TxInUndo_cert (u_nHeight u) v = TxInUndo_cert (u_nHeight u) (u_nVersion u)).
  { intros v ->. destruct (0 <? u_nHeight u) eqn:E; [apply TxInUndo_cert_stored|]. unfold TxInUndo_cert. by rewrite E. }
  destruct (TxInUndo_cert (u_nHeight u) (u_nVersion u)) eqn:Eu; cbn [u_nHeight u_nVersion u_txout u_nFirstBwtPos u_nBwtMaturityHeight];
    unfold TxInUndo_code; cbn [u_nHeight u_fCoinBase]; rewrite (Hc _ eq_refl); (destruct (0 <? u_nHeight u); [by rewrite WriteVarInt_stored|done]).
Qed.

Lemma when_rewrites {A} b (s : Serializer A) d ok norm x :
  Rewrites s ok norm -> (b = true -> ok x) -> ser (s_when b s d) (if b then norm x else d) = ser (s_when b s d) x.
Proof. intros Hs Hx. destruct b; [by apply Hs, Hx|done]. Qed.

Lemma scundo_rewrites : Rewrites s_scundo scundo_ok ScUndo_norm.
Proof.
  intros u (_ & _ & _ & _ & _ & Hl & Hz). cbn [ser s_scundo]. unfold ScUndo_ser, ScUndo_norm, s_cross, s_any. set (m := contentBitMask u) in *.
  cbn [sidechainUndoDataVersion contentBitMask appliedMaturedAmount su_pastEpochTopQualityCertView su_scFees prevTopCommittedCertHash
    prevTopCommittedCertReferencedEpoch prevTopCommittedCertQuality prevTopCommittedCertBwtAmount su_lastTopQualityCertView lowQualityBwts ceasedBwts].
  rewrite !(when_rewrites _ _ _ _ _ _ (vec_rewrites _ _ _ txinundo_rewrites)) by done.
  by destruct (has m MATURED_AMOUNTS), (has m CROSS_EPOCH_CERT_DATA), (has m ANY_EPOCH_CERT_DATA).
Qed.

Lemma block_undo_rewrites u : blockundo_ok u -> BlockUndo_ser (BlockUndo_norm u) = BlockUndo_ser u.
Proof.
  intros (Hs & Ht & _ & _ & Hk). unfold BlockUndo_ser, BlockUndo_norm. cbn [includesSidechainAttributes vtxundo old_tree_root scUndoDatabyScId].
  assert (Ev : ser (s_vec s_txundo) (map (map TxInUndo_norm) (vtxundo u)) = ser (s_vec s_txundo) (vtxundo u)).
  { by apply (vec_rewrites s_txundo txundo_ok _ (vec_rewrites _ _ _ txinundo_rewrites)). }
  destruct (includesSidechainAttributes u); [|by apply (f_equal2 app)].
  apply f_equal, (f_equal2 app); [done|]. apply f_equal, (map_rewrites _ _ _ scundo_rewrites). intros k v Hv. by apply (Hk k).
Qed.

(** ** A position of a file *)
Lemma drop_write_at pos (head data f : bytes) : 0 <= pos ->
  exists rest, drop (Z.to_nat (pos + vsize head)) (write_at pos (head ++ data) f) = data ++ rest.
Proof.
  intros Hp. unfold write_at, vsize. rewrite Z2Nat.inj_add, Nat2Z.id by lia. rewrite <- app_assoc, <- drop_drop.
  set (p := Z.to_nat pos). assert (El : length (take p (extend p f)) = p).
  { rewrite length_take. unfold extend. rewrite length_app, repeat_length. lia. }
  rewrite drop_app_length' by done. rewrite drop_app_length. eauto.
Qed.

Lemma uint_of_bytes_range b : length b = 32%nat -> Forall is_byte b -> 0 <= uint_of_bytes b < 2 ^ 256.
Proof.
  intros Hl Hb. unfold uint_of_bytes. pose proof (le_combine_bound (rev b) (Forall_rev Hb)) as Hr. unfold vsize in Hr.
  rewrite length_rev, Hl in Hr. exact Hr.
Qed.

Lemma hash_of_range b : 0 <= hash_of b < 2 ^ 256.
Proof. unfold hash_of. apply uint_of_bytes_range; [apply length_Hash|apply Hash_bytes]. Qed.

Definition undo_readable (u : CBlockUndo) : Prop :=
  blockundo_ok u /\ (includesSidechainAttributes u = false -> Z.of_nat (length (vtxundo u)) < block_undo_marker).

Lemma undo_read files nFile pos (head f : bytes) u hashBlock inc :
  undo_readable u -> 0 <= pos ->
  uf_files files !! nFile = Some (write_at pos (head ++ BlockUndo_ser u ++ ser s_uint256 (undo_checksum hashBlock u)) f) ->
  UndoReadFromDisk files (BlockUndo_init inc) (mkPos nFile (pos + vsize head)) hashBlock = Some (BlockUndo_norm u).
Proof.
  intros [Hok Hm] Hp Ef. unfold UndoReadFromDisk. cbn [pos_nFile pos_nPos].
  match goal with |- match ?o with _ => _ end = _ => replace o with (Some (write_at pos (head ++ BlockUndo_ser u ++ ser s_uint256 (undo_checksum hashBlock u)) f)) by exact (eq_sym Ef) end.
  destruct (drop_write_at pos head (BlockUndo_ser u ++ ser s_uint256 (undo_checksum hashBlock u)) f Hp) as [rest ->]. rewrite <- app_assoc.
  rewrite (bind_ok _ _ _ _ _ (block_undo_read _ inc _ Hok Hm)).
  rewrite (unser_then s_uint256 (fun x => 0 <= x < 2 ^ 256)) by apply hash_of_range. unfold ret, undo_checksum.
  by rewrite (block_undo_rewrites _ Hok), Z.eqb_refl.
Qed.

(** ** The entry of the block *)
Lemma flag_have_undo e : flag (RaiseValidity BLOCK_VALID_SCRIPTS (or_status BLOCK_HAVE_UNDO e)) BLOCK_HAVE_UNDO = true.
Proof.
  assert (Hb : forall x, Z.testbit x 4 = true -> negb (Z.land x 16 =? 0) = true).
  { intros x Hx. destruct (Z.eqb_spec (Z.land x 16) 0) as [E|]; [|done]. apply (f_equal (fun y => Z.testbit y 4)) in E.
    rewrite Z.land_spec, Hx in E. done. }
  apply Hb. unfold RaiseValidity. destruct (flag _ _); [|destruct (_ <? _)]; cbn [px_nStatus or_status set_nStatus];
    rewrite ?Z.lor_spec, ?Z.land_spec, ?Z.lor_spec; cbn; by rewrite ?orb_true_r.
Qed.

Definition same_place (e e' : BlockNode) : Prop :=
  px_phashBlock e' = px_phashBlock e /\ px_pprev e' = px_pprev e /\ px_nHeight e' = px_nHeight e /\ px_nFile e' = px_nFile e.

Lemma RaiseValidity_place n e : same_place e (RaiseValidity n e) /\ px_nUndoPos (RaiseValidity n e) = px_nUndoPos e.
Proof. unfold RaiseValidity. destruct (flag _ _); [|destruct (_ <? _)]; done. Qed.

(** ** Writing and reading *)
Lemma FindUndoPos_pos io nFile add u pos u' :
  FindUndoPos io nFile add u = Ok (Some pos, u') -> exists size, uf_sizes u !! Z.to_nat nFile = Some size /\ pos = mkPos nFile size.
Proof.
  unfold FindUndoPos. intros (u0 & ? & [= <- <-] & Hr)%bind_inv. destruct (uf_sizes u !! Z.to_nat nFile) as [size|]; [|done]. exists size. split; [done|].
  apply bind_inv in Hr as ([] & u1 & _ & Hr). destruct (_ <? _); [|by injection Hr]. destruct (io_space io _); [|done].
  apply bind_inv in Hr as ([] & u2 & _ & Hr). by injection Hr.
Qed.

Lemma UndoWriteToDisk_read io net u nFile size hashBlock f pos f' :
  UndoWriteToDisk io net u (mkPos nFile size) hashBlock f = Ok (Some pos, f') -> undo_readable u -> 0 <= size < 2 ^ 32 - 8 ->
  pos = mkPos nFile (size + 8) /\ forall inc, UndoReadFromDisk f' (BlockUndo_init inc) pos hashBlock = Some (BlockUndo_norm u).
Proof.
  unfold UndoWriteToDisk. cbn [pos_nFile pos_nPos]. destruct (io_open io nFile); [|done]. cbn [negb].
  set (head := MessageStart net ++ ser s_u32 _). intros Hr Hu Hs. assert (Eh : vsize head = 8) by (by destruct net).
  apply bind_inv in Hr as ([] & f1 & Ef & Hr). injection Ef as <-. injection Hr as <- <-. rewrite Eh. unfold to_u32. rewrite Z.mod_small by lia.
  split; [done|]. intros inc. rewrite <- Eh. eapply undo_read; [done|lia|]. unfold in_file. cbn [uf_files]. by rewrite lookup_insert_eq.
Qed.

(** what is written for a block whose entry has no undo data is read from the new entry *)
(** writing the undo data leaves the view and what the entry of the block says of the chain *)
Lemma write_undo_frame {V} env io st (u : CBlockUndo) (s s' : Conn V) :
  write_undo env io st u s = Ok (true, s') ->
  cn_view s' = cn_view s /\ same_place (cn_index s) (cn_index s') /\ px_hashAnchorEnd (cn_index s') = px_hashAnchorEnd (cn_index s).
Proof.
  assert (Hraise : forall e, px_hashAnchorEnd (RaiseValidity BLOCK_VALID_SCRIPTS e) = px_hashAnchorEnd e).
  { intros e. unfold RaiseValidity. by repeat case_match. }
  unfold write_undo. intros (s0 & ? & [= <- <-] & Hr)%bind_inv. destruct (_ || _); [|by injection Hr as <-].
  apply bind_inv in Hr as (ok & s1 & Hr & Hend).
  assert (Hs1 : ok = true -> cn_view s1 = cn_view s /\ same_place (cn_index s) (cn_index s1) /\ px_hashAnchorEnd (cn_index s1) = px_hashAnchorEnd (cn_index s)).
  { destruct (pos_IsNull _); [|by injection Hr as <- <-]. intros ->. apply bind_inv in Hr as (opos & s2 & Hpos & Hr). unfold on_disk in Hpos.
    destruct (FindUndoPos _ _ _ _) as [[o d]|]; [|done]. injection Hpos as <- <-. destruct o as [pos|].
    2: { unfold on_pair, on_state, Amount.Error in Hr. by cbn in Hr. }
    apply bind_inv in Hr as ([prev|] & s3 & [_ ->]%lift_inv & Hr); [|done]. apply bind_inv in Hr as (opos & s4 & Hw & Hr). unfold on_disk in Hw.
    destruct (UndoWriteToDisk _ _ _ _ _ _) as [[o d']|]; [|done]. injection Hw as <- <-. destruct o as [pos2|].
    2: { unfold on_pair, on_state, Amount.Error in Hr. by cbn in Hr. }
    apply bind_inv in Hr as ([] & s5 & [= <-] & [= <-]). done. }
  destruct ok; [|done]. cbn [negb] in Hend. destruct (Hs1 eq_refl) as (H1 & (P1 & P2 & P3 & P4) & H3).
  apply bind_inv in Hend as ([] & s6 & [= <-] & Hend). apply bind_inv in Hend as ([] & s7 & [= <-] & [= <-]). cbn [cn_view cn_index].
  destruct (RaiseValidity_place BLOCK_VALID_SCRIPTS (cn_index s1)) as [(Q1 & Q2 & Q3 & Q4) _]. split; [done|]. rewrite Hraise. split; [|done].
  unfold same_place. by rewrite Q1, Q2, Q3, Q4.
Qed.

Lemma write_undo_read {V} env io st (u : CBlockUndo) (s s' : Conn V) prev :
  write_undo env io st u s = Ok (true, s') -> GetUndoPos (cn_index s) = pos_SetNull -> 0 <= px_nFile (cn_index s) ->
  (forall size, uf_sizes (cn_disk s) !! Z.to_nat (px_nFile (cn_index s)) = Some size -> 0 <= size < 2 ^ 32 - 8) ->
  pprev_hash st (cn_index s) = Ok (Some prev) -> undo_readable u ->
  cn_view s' = cn_view s /\ same_place (cn_index s) (cn_index s') /\ pos_IsNull (GetUndoPos (cn_index s')) = false
  /\ forall inc, UndoReadFromDisk (cn_disk s') (BlockUndo_init inc) (GetUndoPos (cn_index s')) prev = Some (BlockUndo_norm u).
Proof.
  intros Hr Hn Hf Hz Hp Hu. unfold write_undo in Hr. apply bind_inv in Hr as (s0 & ? & [= <- <-] & Hr). rewrite Hn in Hr. cbn [pos_IsNull pos_SetNull pos_nFile Z.eqb orb] in Hr.
  apply bind_inv in Hr as (ok & s1 & Hr & Hend). apply bind_inv in Hr as (opos & s2 & Hpos & Hr). unfold on_disk in Hpos.
  destruct (FindUndoPos _ _ _ _) as [[o d]|] eqn:Ed; [|done]. injection Hpos as <- <-. destruct o as [pos|].
  2: { unfold on_pair, on_state, Amount.Error in Hr. destruct ok; [|done]. by cbn in Hr. }
  apply FindUndoPos_pos in Ed as (size & Esz & ->). apply bind_inv in Hr as (op & s3 & Ep & Hr). unfold lift in Ep. rewrite Hp in Ep. injection Ep as <- <-.
  apply bind_inv in Hr as (opos & s4 & Hw & Hr). unfold on_disk in Hw. destruct (UndoWriteToDisk _ _ _ _ _ _) as [[o d']|] eqn:Ew; [|done].
  injection Hw as <- <-. destruct o as [pos|].
  2: { unfold on_pair, on_state, Amount.Error in Hr. destruct ok; [|done]. by cbn in Hr. }
  apply UndoWriteToDisk_read in Ew as [-> Hread]; [|done|by apply Hz]. apply bind_inv in Hr as ([] & s5 & [= <-] & [= <- <-]). cbn [negb] in Hend.
  apply bind_inv in Hend as ([] & s6 & [= <-] & Hend). apply bind_inv in Hend as ([] & s7 & [= <-] & [= <-]). cbn [cn_view cn_index cn_disk].
  destruct (RaiseValidity_place BLOCK_VALID_SCRIPTS (or_status BLOCK_HAVE_UNDO (set_nUndoPos (size + 8) (cn_index s)))) as [Hpl Hup].
  unfold GetUndoPos. rewrite flag_have_undo, Hup. destruct Hpl as (P1 & P2 & P3 & P4). rewrite P4. cbn. split_and!; [done|done| |exact Hread].
  apply Z.eqb_neq. cbn [pos_nFile]. lia.
Qed.
End Curve.
