(* ===== verification/Reorg.v ===== *)
(** * A block connected and disconnected

    [ConnectBlock] and [DisconnectBlock] put together, over the undo file: a block that
    was connected is disconnected without an inconsistency, and the view is the one there
    was before it. *)

From stdpp Require Import base numbers list strings gmap fin_maps sets option.
From Stdlib Require Import ZArith Lia.
From S2P Require Import Prelude.
From S2P Require Import Amount.
From S2P Require Import Serialize.
From S2P Require Import ScTypes.
From S2P Require Import Forks.
From S2P Require Import Compress.
From S2P Require Import Sidechain.
From S2P Require Import Coins.
From S2P Require Import CoinsSer.
From S2P Require Import Undo.
From S2P Require Import Merkle.
From S2P Require Import View.
From S2P Require Import ViewLaws.
From S2P Require Import TopLaws.
From S2P Require Import ViewOps.
From S2P Require Import ScOps.
From S2P Require Import ScApply.
From S2P Require Import ScRound.
From S2P Require Import BlockCoins.
From S2P Require Import ScCert.
From S2P Require Import BwtOps.
From S2P Require Import ScEvents.
From S2P Require Import ScInv.
From S2P Require Import UndoNorm.
From S2P Require Import Script.
From S2P Require Import Interpreter.
From S2P Require Import Standard.
From S2P Require Import Primitives.
From S2P Require Import Chain.
From S2P Require Import BlockData.
From S2P Require Import BlockIndex.
From S2P Require Import TxSer.
From S2P Require Import SigHash.
From S2P Require Import Pow.
From S2P Require Import Checks.
From S2P Require Import Inputs.
From S2P Require Import Connect.
From S2P Require Import LedgerSteps.
From S2P Require Import ConnectLaws.
From S2P Require Import DisconnectLaws.
From S2P Require Import UndoFile.
From S2P Require Import SampleLedger.
Open Scope Z_scope.
Open Scope zen_scope.

Section Runs.
  Context `{NodeConfig} {V : Type} `{CCoinsView V} `{ViewSpec V} `{!ViewLaws V} `{!FreshOk V}.

Lemma on_pair_frame {A} (m : M (CCoinsViewCache V * CValidationState) A) (s s' : Conn V) a :
  on_pair m s = Ok (a, s') -> cn_index s' = cn_index s /\ cn_disk s' = cn_disk s.
Proof. unfold on_pair. destruct (m _) as [[a' [c st]]|] eqn:E; [|done]. by intros [= -> <-]. Qed.

Lemma on_pair_run {A} (m : M (CCoinsViewCache V * CValidationState) A) P (s s' : Conn V) a :
  on_pair m s = Ok (a, s') -> v_wf (cn_view s) -> plp m P (top (cn_view s)) ->
  v_wf (cn_view s') /\ P a (top (cn_view s')) /\ cn_index s' = cn_index s /\ cn_disk s' = cn_disk s.
Proof.
  unfold on_pair. destruct (m _) as [[a' [c st]]|] eqn:E; [|done]. intros [= -> <-] Hw Hm. cbn.
  by destruct (plp_run _ _ _ _ _ _ Hm Hw E) as [? ?].
Qed.

Lemma on_pair_accepted {A} (m : M (CCoinsViewCache V * CValidationState) (option A)) P (s s' : Conn V) a :
  on_pair m s = Ok (Some a, s') -> v_wf (cn_view s) -> pap m P (top (cn_view s)) ->
  v_wf (cn_view s') /\ P a (top (cn_view s')) /\ cn_index s' = cn_index s /\ cn_disk s' = cn_disk s.
Proof.
  unfold on_pair. destruct (m _) as [[a' [c st]]|] eqn:E; [|done]. intros [= -> <-] Hw Hm. cbn.
  by destruct (Hm _ _ Hw eq_refl _ _ E) as [? ?].
Qed.

Lemma plp_not_overwriting ks l F :
  plp (V := V) (for_each ks not_overwriting) (fun ok t' => t' = mkTop (join l F) ∅ ∅ ∅ /\ (ok = true -> absent ks l)) (mkTop (join l F) ∅ ∅ ∅).
Proof.
  induction ks as [|k ks IH]; cbn [for_each]; [apply plp_ret; by split; [|constructor]|]. apply plp_bind.
  apply plp_mono with (P := fun ok t' => t' = mkTop (join l F) ∅ ∅ ∅ /\ (ok = true -> l_coins l !! k = None)).
  - unfold not_overwriting. apply plp_bind, plp_on_coins, awp_awlp, awp_AccessCoins. intros o Ho Hok. unfold t_coins in Ho. cbn in Ho.
    destruct o as [co|]; [|apply plp_ret; by split]. destruct (IsPruned co) eqn:Ep; cbn [negb].
    + apply plp_ret. split; [done|]. intros _. rewrite <- Ho. cbn. unfold coins_abs. by rewrite Ep.
    + by apply plp_reject.
  - intros [] t' [-> Hk]; cbn [negb]; [|apply plp_ret; by split]. eapply plp_mono; [apply IH|]. intros ok t' [-> Hks]. split; [done|].
    intros Hok. constructor; [by apply Hk|by apply Hks].
Qed.
End Runs.

(** ** The view *)
Section Round.
  Context `{NodeConfig} {V : Type} `{CCoinsView V} `{ViewSpec V} `{!ViewLaws V} `{!FreshOk V} `{MerkleHash Z} `{ChainIndex} `{ZendooLib}
          `{Secp256k1} `{!Secp256k1Laws}.
  Context (env : ScriptEnv) (CheckLowS : bytes -> bool) (Verify : bytes -> uint256 -> bytes -> bool) (js_Verify : JSDescription -> uint256 -> bool)
          (crypto_sign_verify_detached : bytes -> bytes -> uint256 -> bool) (CheckEquihashSolution : CBlockHeader -> bool) (pow : PowParams)
          (BatchVerify : ProofQueue -> bool) (getCommitment : list CTransaction -> list (CScCertificate * CSidechain) -> uint256) (threads : bool)
          (io : UndoIO) (st : NodeStore) (index : gmap uint256 ptr) (mapCheckpoints : list (Z * uint256)) (fCheckpointsEnabled : bool)
          (hashGenesisBlock : uint256).
Local Notation connect_view := (connect_view (V := V) env CheckLowS Verify js_Verify crypto_sign_verify_detached CheckEquihashSolution pow BatchVerify
  getCommitment threads st index mapCheckpoints fCheckpointsEnabled hashGenesisBlock).
Local Notation ConnectBlock := (ConnectBlock (V := V) env CheckLowS Verify js_Verify crypto_sign_verify_detached CheckEquihashSolution pow BatchVerify
  getCommitment threads io st index mapCheckpoints fCheckpointsEnabled hashGenesisBlock).

Lemma still_final_checks b1 b2 b3 h block a : still (V := V) (final_checks env BatchVerify getCommitment b1 b2 b3 h block a).
Proof.
  unfold final_checks. apply still_bind; [apply still_lift|]. intros subsidy. destruct (vtx block) as [|cb txs]; [apply still_fail|].
  apply still_bind; [apply still_lift|]. intros out. destruct (_ <? _); [apply still_on_state|].
  apply still_bind; [apply still_lift|]. intros ok. repeat (case_match; [apply still_on_state|]). apply still_ret.
Qed.

Definition view_connected (block : CBlock) (e : BlockNode) (l : Led) (F : AbsView) (rt : uint256) (u : CBlockUndo) (t : Top) : Prop :=
  exists inc bu' l', contents_conn (px_nHeight e) block (BlockUndo_init inc) l bu' l' /\ u = set_old_root (a_anchor F) bu'
    /\ t_view t = join l' (pushed rt F) /\ pprev_hash st e = Ok (Some (a_block F)).

Lemma connect_view_law pindex block b1 b2 (s s1 : Conn V) u l F :
  let e := cn_index s in let rt := px_hashAnchorEnd (cn_index s1) in
  connect_view pindex block true b1 b2 s = Ok (Some (Some u), s1) -> v_wf (cn_view s) -> top (cn_view s) = mkTop (join l F) ∅ ∅ ∅ ->
  0 < px_nHeight e < 2 ^ 31 -> block_fits block -> certs_ready (px_nHeight e) F -> good_led (px_nHeight e) l -> old_certs (map cert_hash (vcert block)) (l_se l).1 ->
  rt <> 0 -> a_block F <> 0 ->
  v_wf (cn_view s1) /\ view_connected block e l F rt u (top (cn_view s1))
  /\ same_place e (cn_index s1) /\ GetUndoPos (cn_index s1) = GetUndoPos e /\ cn_disk s1 = cn_disk s.
Proof.
  cbv zeta. intros Hr Hw Ht Hh Hfit Hready Hgood Hold Hrt Hprev. unfold Connect.connect_view in Hr. cbv zeta in Hr.
  apply bind_inv in Hr as (s0 & ? & [= <- <-] & Hr). apply bind_inv in Hr as (ex & ? & [_ ->]%lift_inv & Hr).
  apply bind_inv in Hr as (ok & s2 & Hc & Hr). destruct ok; [|done]. cbn [negb] in Hr.
  destruct (on_pair_run _ (fun _ t' => t' = top (cn_view s)) _ _ _ Hc Hw) as (W2 & T2 & I2 & D2); [apply (still_on_state _)|].
  apply bind_inv in Hr as (prev & ? & [Hp ->]%lift_inv & Hr). apply bind_inv in Hr as (best & s3 & Hb & Hr).
  destruct (on_pair_run _ (fun r t' => r = a_block F /\ t' = top (cn_view s2)) _ _ _ Hb W2) as (W3 & [-> T3] & I3 & D3).
  { apply plp_on_coins, awp_awlp, awp_GetBestBlock. rewrite T2, Ht. done. }
  apply bind_inv in Hr as ([] & ? & Ha & Hr). unfold massert in Ha. destruct (default 0 prev =? a_block F) eqn:Ebest; [|done]. injection Ha as <-.
  apply Z.eqb_eq in Ebest. destruct (header_GetHash (header block) =? hashGenesisBlock).
  { apply bind_inv in Hr as ([] & ? & _ & Hr). done. }
  assert (Hp' : pprev_hash st (cn_index s) = Ok (Some (a_block F))). { destruct prev; cbn in Ebest; [by subst|done]. }
  assert (T3' : top (cn_view s3) = mkTop (join l F) ∅ ∅ ∅) by congruence.
  apply bind_inv in Hr as (ok & s4 & Hov & Hr). destruct ok; [|done]. cbn [negb] in Hr.
  destruct (on_pair_run _ _ _ _ _ Hov W3 ltac:(rewrite T3'; apply plp_not_overwriting)) as (W4 & [T4 Habs] & I4 & D4). specialize (Habs eq_refl).
  apply bind_inv in Hr as (old & s5 & Hanc & Hr).
  destruct (on_pair_run _ (fun r t' => r = a_anchor F /\ t' = top (cn_view s4)) _ _ _ Hanc W4) as (W5 & [-> T5] & I5 & D5).
  { apply plp_on_coins, awp_awlp, awp_GetBestAnchor. by rewrite T4. }
  apply bind_inv in Hr as ([] & s6 & [= <-] & Hr). apply bind_inv in Hr as (tree & s7 & Htree & Hr).
  destruct (on_pair_run _ (fun _ t' => t' = top (cn_view s5)) _ _ _ Htree W5) as (W7 & T7 & I7 & D7).
  { apply plp_on_coins, awp_awlp, awp_GetAnchorAt. done. }
  destruct tree as [tree|]; [|done]. apply bind_inv in Hr as ([] & ? & Ha & Hr). unfold massert in Ha. destruct (_ =? _); [|done]. injection Ha as <-.
  apply bind_inv in Hr as ([a|] & s8 & Hcc & Hr); [|done]. assert (T7' : top (cn_view s7) = mkTop (join l F) ∅ ∅ ∅) by congruence.
  destruct (on_pair_accepted _ _ _ _ _ Hcc W7 ltac:(rewrite T7'; by apply pap_connect_contents)) as (W8 & (l' & stale & Hconn & T8) & I8 & D8).
  apply bind_inv in Hr as ([] & s9 & Hpush & Hr). apply bind_inv in Hr as ([] & s10 & [= <-] & Hr). apply bind_inv in Hr as (ok & s11 & Hfin & Hr).
  destruct ok; [|done]. injection Hr as <- <-.
  destruct (on_pair_frame _ _ _ _ Hfin) as [I11 D11]. destruct (on_pair_frame _ _ _ _ Hpush) as [I9 D9]. cbn [cn_index cn_disk] in *.
  set (rt := tree_root _ (ca_tree a)) in *. rewrite I11 in Hrt. cbn in Hrt. 
  destruct (on_pair_run _ (fun _ t' => t' = on_view (pushed rt) (top (cn_view s8))) _ _ _ Hpush W8) as (W9 & T9 & _).
  { by apply plp_on_coins, awp_awlp, awp_PushAnchor. }
  destruct (on_pair_run _ (fun _ t' => t' = top (cn_view s9)) _ _ _ Hfin W9) as (W11 & T11 & _); [apply still_final_checks|].
  split; [done|]. split; [exists (hd_nVersion (header block) =? BLOCK_VERSION_SC_SUPPORT), (ca_undo a), l'|].
  - split; [done|]. split; [done|]. split; [|done]. rewrite T11, T9, T8, I11. cbn [t_view on_view]. cbn. fold rt. unfold pushed. cbn. by case_decide.
  - rewrite I11, D11. cbn. rewrite I9, I8, I7. cbn. rewrite I5, I4, I3, I2, D9, D8, D7. cbn. rewrite D5, D4, D3, D2. done.
Qed.

(** the state of the ledger when the block at height [h] is to be connected *)
Record ledger_at (h : Z) (a : AbsView) : Prop := {
  la_good : good_led h (led a);
  la_maturing : maturingScs (default Events_empty (a_ev a !! (h + getScCoinsMaturity))) = ∅;
  la_best : certs_ready h a;
  la_block : a_block a <> 0;
  la_anchor : a_anchor a <> 0 }.

(** the undo data can be read back: the format without the sidechains is for a block that touches none *)
Definition storable (u : CBlockUndo) : Prop :=
  blockundo_ok u
  /\ (includesSidechainAttributes u = true \/ scUndoDatabyScId u = ∅ /\ Z.of_nat (length (vtxundo u)) < block_undo_marker).

(** the entry of a block that was never connected, in a file with room *)
Definition never_connected (e : BlockNode) (disk : UndoFiles) : Prop :=
  GetUndoPos e = pos_SetNull /\ 0 <= px_nFile e /\ px_phashBlock e <> 0
  /\ forall size, uf_sizes disk !! Z.to_nat (px_nFile e) = Some size -> 0 <= size < 2 ^ 32 - 8.

(** the root of the tree of commitments after the block is not one there was before *)
Definition new_root (rt : uint256) (a : AbsView) : Prop :=
  rt <> 0 /\ (a_anchor a <> rt -> a_roots a !! rt = None /\ ~ root_pinned V rt).

Lemma popped_pushed rt b (a : AbsView) : new_root rt a -> 
  with_best (a_block a) (popped (a_anchor a) (with_best b (pushed rt a))) = a.
Proof.
  intros [_ Hn]. unfold pushed, popped. destruct (decide (a_anchor a = rt)) as [E|E].
  - cbn. rewrite decide_True by done. by destruct a.
  - cbn. rewrite decide_False by done. destruct (Hn E) as [Hr _]. unfold with_best, with_anchor. cbn. rewrite delete_insert_id by done. by destruct a.
Qed.

Lemma ConnectBlock_run pindex block b1 b2 (s s1 s' : Conn V) u prev :
  connect_view pindex block true b1 b2 s = Ok (Some (Some u), s1) -> ConnectBlock pindex block true b1 b2 s = Ok (true, s') ->
  never_connected (cn_index s1) (cn_disk s1) -> storable u -> pprev_hash st (cn_index s1) = Ok (Some prev) -> v_wf (cn_view s1) ->
  v_wf (cn_view s') /\ top (cn_view s') = on_view (with_best (px_phashBlock (cn_index s1))) (top (cn_view s1)) /\ same_place (cn_index s1) (cn_index s')
  /\ pos_IsNull (GetUndoPos (cn_index s')) = false
  /\ forall inc, UndoReadFromDisk (cn_disk s') (BlockUndo_init inc) (GetUndoPos (cn_index s')) prev = Some (BlockUndo_norm u).
Proof.
  intros Hv Hr (Hn & Hf & Hb & Hz) [Hok Hinc] Hp Hw. unfold Connect.ConnectBlock in Hr. apply bind_inv in Hr as (r & s2 & Hv' & Hr).
  rewrite Hv in Hv'. injection Hv' as <- <-. cbn [negb] in Hr. apply bind_inv in Hr as ([] & s2 & Hwr & Hr); [|done]. cbn [negb] in Hr.
  apply (write_undo_read _ _ _ _ _ _ prev) in Hwr as (E & Hpl & Hnn & Hread); try done.
  2: { split; [done|]. intros Hi. destruct Hinc as [?|[_ ?]]; [congruence|done]. }
  apply bind_inv in Hr as (s3 & ? & [= <- <-] & Hr). apply bind_inv in Hr as ([] & s4 & Hbest & [= <-]).
  destruct (on_pair_frame _ _ _ _ Hbest) as [-> ->].
  destruct (on_pair_run _ (fun _ t' => t' = on_view (with_best (px_phashBlock (cn_index s2))) (top (cn_view s2))) _ _ _ Hbest) as (W & T & _).
  { by rewrite E. }
  { apply plp_on_coins, awp_awlp, awp_SetBestBlock; [|done]. by rewrite (proj1 Hpl). }
  split; [done|]. rewrite T, E, (proj1 Hpl). done.
Qed.

Lemma DisconnectBlock_law files e block withClean undo h l l' inc bu' F rt v' :
  storable (set_old_root (a_anchor F) bu') -> contents_conn h block (BlockUndo_init inc) l bu' l' -> undo = BlockUndo_norm (set_old_root (a_anchor F) bu') ->
  0 < h < 2 ^ 31 -> block_fits block -> good_led h l -> old_certs (map cert_hash (vcert block)) (l_se l).1 ->
  maturingScs (default Events_empty ((l_se l).2 !! (h + getScCoinsMaturity))) = ∅ ->
  px_nHeight e = h -> px_phashBlock e <> 0 -> pos_IsNull (GetUndoPos e) = false -> pprev_hash st e = Ok (Some (a_block F)) -> a_block F <> 0 -> a_anchor F <> 0 ->
  new_root rt F ->
  UndoReadFromDisk files (BlockUndo_init (hd_nVersion (header block) =? BLOCK_VERSION_SC_SUPPORT)) (GetUndoPos e) (a_block F) = Some undo ->
  v_wf v' -> denote v' = join l' (with_best (px_phashBlock e) (pushed rt F)) ->
  awp (V := V) (DisconnectBlock st files e block withClean) (fun r t' => r = (true, true) /\ t_view t' = join l F) (top (Cache_new v' : CCoinsViewCache V)).
Proof.
  intros [Hok Hinc] Hconn Eu Hh Hfit Hgood Hold Hmat <- Hb Hpos Hp Hab Haa Hnew Hread Hwf Hd. rewrite Cache_new_top, Hd.
  unfold DisconnectBlock. apply awp_bind, awp_GetBestBlock. cbn [t_view a_block join with_best]. rewrite Z.eqb_refl. apply awp_bind, awp_massert; [done|].
  rewrite Hpos. apply awp_bind, (awp_lift _ _ _ _ Hp). rewrite Hread. apply awp_bind. eapply awp_mono.
  { apply (disconnect_contents_law _ _ block inc l bu' l'); subst undo; try done.
    - destruct Hinc as [?|[? _]]; [by left|by right].
    - destruct Hok as [Hs _]. unfold vsize. unfold short in Hs. cbn in Hs |- *. unfold MAX_SERIALIZED_COMPACT_SIZE in Hs. lia.
    - intros Hne. unfold pushed in *. case_decide as E; [done|]. cbn in *. split; [by rewrite lookup_insert_eq|]. by apply Hnew. }
  intros r t' [-> Ht']. apply awp_bind, awp_SetBestBlock; [done|]. apply awp_ret. split; [by destruct withClean|].
  cbn [t_view on_view]. rewrite Ht', Eu. cbn [old_tree_root BlockUndo_norm set_old_root]. rewrite <- (popped_pushed rt (px_phashBlock e) F Hnew) at 4. done.
Qed.

(** C1: a block that [ConnectBlock] accepts is undone by [DisconnectBlock], over the undo
    file: the undo data written when the block was connected is read back, every coin,
    nullifier, sidechain, event and anchor is what it was, the best block is again the
    parent, and no inconsistency is reported. Between the two calls the view may have
    been flushed. The conditions are: the height is positive and fits an [int]; the ledger satisfies the invariant of its height,
    which [ledger_kept] shows to be kept ([ledger_at]); the block's first transaction is
    a coinbase without sidechain content, its fields fit their widths, the hashes of its
    transactions and certificates are distinct, the sidechains it creates have epochs
    and every amount it sends to a sidechain is positive, which leaves out requests with
    fee zero, for which [zero_fee_requests_stuck] shows the contrary ([block_fits]);
    none of its certificates is already the last one of a sidechain ([old_certs]); it
    was never connected and its undo file has room ([never_connected]); its undo data
    is within the bounds of the file format ([storable]); and the root of the tree of
    commitments after it is the old one or new ([new_root]). *)
Theorem block_undone pindex block fScRelatedChecks fScProofVerification withClean (v v' : V) (s s1 s' : Conn V) u :
  let e := cn_index s in
  v_wf v -> cn_view s = Cache_new v -> ledger_at (px_nHeight e) (denote v) -> 0 < px_nHeight e < 2 ^ 31 -> never_connected e (cn_disk s) ->
  block_fits block -> old_certs (map cert_hash (vcert block)) (a_sc (denote v)) ->
  connect_view pindex block true fScRelatedChecks fScProofVerification s = Ok (Some (Some u), s1) -> storable u ->
  new_root (px_hashAnchorEnd (cn_index s1)) (denote v) ->
  ConnectBlock pindex block true fScRelatedChecks fScProofVerification s = Ok (true, s') ->
  v_wf v' -> denote v' = denote (cn_view s') ->
  exists c, DisconnectBlock st (cn_disk s') (cn_index s') block withClean (Cache_new v') = Ok ((true, true), c) /\ v_wf c /\ denote c = denote v.
Proof.
  cbv zeta. intros Hwf Ev [Hgood Hmat Hbest Hab Haa] Hh Hnever Hfit Hold Hview Hst Hnew Hrun Hwf' Hd.
  assert (W : v_wf (cn_view s)) by (rewrite Ev; by apply Cache_new_wf).
  assert (T : top (cn_view s) = mkTop (join (led (denote v)) (denote v)) ∅ ∅ ∅) by (rewrite Ev, join_led; apply Cache_new_top).
  destruct (connect_view_law _ _ _ _ _ _ _ _ _ Hview W T Hh Hfit Hbest Hgood Hold (proj1 Hnew) Hab)
    as (W1 & (inc & bu' & l' & Hconn & -> & Hv1 & Hp) & Hpl & Hpos & Hdisk).
  assert (Hnever1 : never_connected (cn_index s1) (cn_disk s1)).
  { destruct Hnever as (? & ? & ? & ?), Hpl as (P1 & P2 & P3 & P4). unfold never_connected. by rewrite Hpos, Hdisk, P1, P4. }
  assert (Hp1 : pprev_hash st (cn_index s1) = Ok (Some (a_block (denote v)))) by (unfold pprev_hash in *; by rewrite (proj1 (proj2 Hpl))).
  destruct (ConnectBlock_run _ _ _ _ _ _ _ _ _ Hview Hrun Hnever1 Hst Hp1 W1) as (W' & Tv & Hpl' & Hnn & Hread).
  destruct Hpl as (P1 & P2 & P3 & _), Hpl' as (Q1 & Q2 & Q3 & _).
  destruct (awp_run (DisconnectBlock st (cn_disk s') (cn_index s') block withClean) (fun r t' => r = (true, true) /\ t_view t' = join (led (denote v)) (denote v))
    (Cache_new v')) as (r & c & Hc & Wc & -> & Hv); [|by apply Cache_new_wf|].
  { eapply DisconnectBlock_law; try done.
    - by rewrite Q3, P3.
    - rewrite Q1. apply Hnever1.
    - unfold pprev_hash in *. by rewrite Q2.
    - rewrite Hd, Q1. change (denote (cn_view s')) with (t_view (top (cn_view s'))). rewrite Tv. cbn [t_view on_view]. by rewrite Hv1. }
  exists c. split; [done|]. split; [done|]. rewrite <- (join_led (denote v)). exact Hv.
Qed.

(** ** The next block *)
Lemma connect_view_undo pindex block b1 b2 (s s1 : Conn V) :
  connect_view pindex block true b1 b2 s = Ok (Some None, s1) -> header_GetHash (header block) = hashGenesisBlock.
Proof.
  unfold Connect.connect_view. cbv zeta. intros (s0 & ? & [= <- <-] & Hr)%bind_inv. apply bind_inv in Hr as (ex & ? & [_ ->]%lift_inv & Hr).
  apply bind_inv in Hr as ([] & s2 & _ & Hr); [|done]. cbn [negb] in Hr. apply bind_inv in Hr as (prev & ? & [_ ->]%lift_inv & Hr).
  apply bind_inv in Hr as (best & s3 & _ & Hr). apply bind_inv in Hr as ([] & s4 & _ & Hr).
  destruct (Z.eqb_spec (header_GetHash (header block)) hashGenesisBlock) as [|_]; [done|]. exfalso.
  apply bind_inv in Hr as ([] & s5 & _ & Hr); [|done]. cbn [negb] in Hr. apply bind_inv in Hr as (old & s6 & _ & Hr).
  apply bind_inv in Hr as ([] & s7 & _ & Hr). apply bind_inv in Hr as ([tree|] & s8 & _ & Hr); [|done].
  apply bind_inv in Hr as ([] & s9 & _ & Hr). apply bind_inv in Hr as ([a|] & s10 & _ & Hr); [|done].
  apply bind_inv in Hr as ([] & s11 & _ & Hr). apply bind_inv in Hr as ([] & s12 & _ & Hr). by apply bind_inv in Hr as ([] & s13 & _ & Hr).
Qed.

(** an accepted block that is not the first one: the view of [connect_view], with the block as the best one *)
Lemma ConnectBlock_view pindex block b1 b2 (s s' : Conn V) :
  header_GetHash (header block) <> hashGenesisBlock ->
  ConnectBlock pindex block true b1 b2 s = Ok (true, s') ->
  exists u s1, connect_view pindex block true b1 b2 s = Ok (Some (Some u), s1)
    /\ px_hashAnchorEnd (cn_index s') = px_hashAnchorEnd (cn_index s1)
    /\ (v_wf (cn_view s1) -> px_phashBlock (cn_index s1) <> 0 -> v_wf (cn_view s') /\ top (cn_view s') = on_view (with_best (px_phashBlock (cn_index s1))) (top (cn_view s1))).
Proof.
  intros Hgen Hr. unfold Connect.ConnectBlock in Hr. apply bind_inv in Hr as ([[u|]|] & s1 & Hv & Hr); [| |done].
  2: { by apply connect_view_undo in Hv. }
  exists u, s1. split; [done|]. cbn [negb] in Hr. apply bind_inv in Hr as ([] & s2 & Hw & Hr); [|done]. cbn [negb] in Hr.
  apply write_undo_frame in Hw as (E & (P1 & _) & Ha). apply bind_inv in Hr as (s3 & ? & [= <- <-] & Hr).
  apply bind_inv in Hr as ([] & s4 & Hbest & [= <-]). destruct (on_pair_frame _ _ _ _ Hbest) as [Ei _]. rewrite Ei in *.
  split; [done|]. intros Hwf Hhash.
  destruct (on_pair_run _ (fun _ t' => t' = on_view (with_best (px_phashBlock (cn_index s2))) (top (cn_view s2))) _ _ _ Hbest) as (W & T & _).
  { by rewrite E. }
  { apply plp_on_coins, awp_awlp, awp_SetBestBlock; [|done]. by rewrite P1. }
  split; [done|]. by rewrite T, E, P1.
Qed.

(** C38: the ledger's invariant is kept from block to block. If before a block of height [h] the
    coins are bounded and tidy, immature amounts are positive and balances not negative, each
    sidechain that may still cease is scheduled at exactly the height its last certificate
    gives and at no other, no two sidechains share a last certificate, the best block is the
    parent and no amount is scheduled to mature at the maturity height of the block or later,
    then all of it holds for [h + 1] in the view that [ConnectBlock] leaves: after the coins
    spent and created, the sidechains created and funded, the certificates that put off the
    end of a sidechain and void the outputs of superseded ones, and the events of the height,
    which mature amounts and cease sidechains. It is the hypothesis on the ledger under which
    blocks are undone. The block is not the genesis block, is in the index at its height and
    satisfies [block_fits] (fields within their widths, distinct hashes, positive amounts to
    sidechains), none of its certificates is already the last one of a sidechain, and its hash
    and the root of the tree of commitments are not zero. *)
Theorem ledger_kept pindex block fScRelatedChecks fScProofVerification (v : V) (s s' : Conn V) :
  let e := cn_index s in
  let h := px_nHeight e in
  v_wf v -> cn_view s = Cache_new v -> ledger_at h (denote v) -> none_maturing (a_ev (denote v)) (h + getScCoinsMaturity) -> 0 < h < 2 ^ 31 ->
  header_GetHash (header block) <> hashGenesisBlock -> px_phashBlock e <> 0 ->
  (exists b, mapBlockIndex (px_phashBlock e) = Some b /\ bi_nHeight b = h) ->
  block_fits block -> old_certs (map cert_hash (vcert block)) (a_sc (denote v)) ->
  ConnectBlock pindex block true fScRelatedChecks fScProofVerification s = Ok (true, s') ->
  px_hashAnchorEnd (cn_index s') <> 0 ->
  v_wf (cn_view s') /\ ledger_at (h + 1) (denote (cn_view s'))
  /\ none_maturing (a_ev (denote (cn_view s'))) (h + 1 + getScCoinsMaturity).
Proof.
  cbv zeta. intros Hwf Ev [Hgood Hmat Hbest Hab Haa] Hn Hh Hgen Hhash Hix Hfit Hold Hrun Hrt.
  assert (W : v_wf (cn_view s)) by (rewrite Ev; by apply Cache_new_wf).
  assert (T : top (cn_view s) = mkTop (join (led (denote v)) (denote v)) ∅ ∅ ∅) by (rewrite Ev, join_led; apply Cache_new_top).
  destruct (ConnectBlock_view _ _ _ _ _ _ Hgen Hrun) as (u & s1 & Hview & Ert & Hend). rewrite Ert in Hrt.
  destruct (connect_view_law _ _ _ _ _ _ _ _ _ Hview W T Hh Hfit Hbest Hgood Hold Hrt Hab)
    as (W1 & (inc & bu' & l' & Hconn & _ & Hv1 & _) & (P1 & _) & _). destruct (Hend W1 ltac:(by rewrite P1)) as [W' Tv]. split; [done|].
  assert (Hd : denote (cn_view s') = with_best (px_phashBlock (cn_index s)) (join l' (pushed (px_hashAnchorEnd (cn_index s1)) (denote v)))).
  { change (denote (cn_view s')) with (t_view (top (cn_view s'))). rewrite Tv, P1. cbn [t_view on_view]. by rewrite Hv1. }
  assert (Hled : led (denote (cn_view s')) = l') by (rewrite Hd; destruct l' as [? [] ? ?]; done).
  pose proof (contents_conn_maturing _ _ _ _ _ _ Hconn Hn) as Hn'. rewrite <- Hled in Hn'.
  assert (Hn2 : none_maturing (a_ev (denote (cn_view s'))) (px_nHeight (cn_index s) + 1 + getScCoinsMaturity)).
  { intros k Hk. apply Hn'. lia. }
  split; [|exact Hn2]. split.
  - rewrite Hled. eapply contents_conn_good; [exact Hh|exact Hfit| |exact Hconn|exact Hgood]. exact Hold.
  - apply Hn2. lia.
  - rewrite Hd. destruct Hix as (b & Hb & Hbh). exists b. split; [done|]. lia.
  - by rewrite Hd.
  - rewrite Hd. cbn. unfold pushed. by case_decide; [|].
Qed.
End Round.

#[local] Existing Instance regtest.
#[local] Existing Instance SampleLedger.toy_hash.
#[local] Existing Instance toy_curve.
#[local] Existing Instance sample_zendoo.

(** ** A block connected to a regtest ledger and disconnected

    It has a coinbase, a transaction that funds a sidechain and a certificate for the
    epoch that has just ended. The chain has 200 blocks before it. *)
Definition epoch_root : CFieldElement := 1 :: repeat 0 31.
#[local] Instance reorg_index : ChainIndex := {|
  mapBlockIndex h := if h =? 1 then Some (mkBlockIndex 199 epoch_root) else if h =? 2 then Some (mkBlockIndex 200 epoch_root) else None;
  vChain := map (fun n => mkBlockIndex (Z.of_nat n) epoch_root) (seq 0 200) |}.

Definition paying_coins : CCoins := mkCoins false [mkTxOut 50 [0x51]] 90 1 BWT_POS_UNSET 0.

Definition reorg_ledger : CCoinsViewDB :=
  mkDB {[ 500 := paying_coins; 501 := paying_coins ]} {[ 7 := sc_alive; 8 := sc_ceased ]} {[ 219 := mkEvents 0 {[7]} ∅ ]} ∅ ∅ ∅ (Some 1) None.

Definition reorg_coinbase : CTransaction :=
  mkTx 1 [mkTxIn (mkOutPoint 0 (2 ^ 32 - 1)) [1; 5] 0xffffffff] [mkTxOut 5 [0x51]] 77 [] 0 [] [] [] [] 0 null_sig.

Definition reorg_transfer : CTransaction :=
  mkTx SC_TX_VERSION [mkTxIn (mkOutPoint 500 0) [] 0xffffffff] [mkTxOut 15 [0x51]] 605 [] 0 [] [] [mkFt 30 3 7 (repeat 1 20)] [] 0 null_sig.

Definition p2pkh (h : bytes) : bytes := [0x76; 0xa9; 20] ++ h ++ [0x88; 0xac].

Definition reorg_cert : CScCertificate :=
  mkCert SC_CERT_VERSION [mkTxIn (mkOutPoint 501 0) [] 0xffffffff] [mkTxOut 40 [0x51]; mkTxOut 20 (p2pkh (repeat 4 20))] 606 7 0 1 epoch_root (repeat 1 40) [] [] 0 0 1.

(** its proof of work is for the limit of regtest *)
Definition reorg_header : CBlockHeader :=
  mkHeader BLOCK_VERSION_SC_SUPPORT 1 (hash_nodes (hash_nodes 77 605) (hash_nodes 606 606)) 0 1000 0x200f0f0f 19 [].

Definition reorg_block : CBlock := mkBlock reorg_header [reorg_coinbase; reorg_transfer] [reorg_cert] [].

Definition reorg_node (hash : uint256) (pprev : option ptr) (h : Z) : BlockNode :=
  mkNode hash pprev None h 0 0 0 [] 0 [] 0 0 0 0 0 None None 3 0 0 0 0 0 [] 0.

Definition reorg_store : NodeStore := {[ 40 := reorg_node 1 None 199; 41 := reorg_node 2 (Some 40) 200 ]}.

Definition reorg_start : Conn CCoinsViewDB :=
  mkConn (Cache_new reorg_ledger) CValidationState_init (reorg_node 2 (Some 40) 200) false (mkUndoFiles [100] ∅ ∅).

Local Notation connect f := (f (mkEnv REGTEST [] 100 true 80) (fun _ => true) (fun _ _ _ => true) (fun _ _ => true) (fun _ _ _ => true) (fun _ => true) regtest_pow
  (fun _ => true) (fun _ _ => 0) false) (only parsing).

Definition reorg_undo : CBlockUndo :=
  let spent := mkTxInUndo (mkTxOut 50 [0x51]) false 90 1 BWT_POS_UNSET 0 in
  mkBlockUndo true [[spent]; [spent]] 320255973501901928
    {[ 7 := mkScUndo 0 (Z.lor CROSS_EPOCH_CERT_DATA ANY_EPOCH_CERT_DATA) 0 CertView_null [mkScFeeData 10 2] 0 EPOCH_NULL QUALITY_NULL 0 (mkCertView [] 10 2) [] [] ]}.

(** the state a run ends in *)
Definition end_state {A S} (r : res (A * S)) (s0 : S) : S := match r with Ok (_, s) => s | Err _ => s0 end.

Local Notation reorg_connecting := (connect (connect_view (V := CCoinsViewDB)) reorg_store ∅ [] false 9 41 reorg_block true true true reorg_start).

Local Notation reorg_connected := (connect (ConnectBlock (V := CCoinsViewDB)) (mkIO (fun _ => true) (fun _ => true)) reorg_store ∅ [] false 9 41 reorg_block true true true reorg_start).

Definition reorg_view : Conn CCoinsViewDB := end_state reorg_connecting reorg_start.

Definition reorg_end : Conn CCoinsViewDB := end_state reorg_connected reorg_start.

(** the database after the block: its outputs, the certificate recorded and the end of the
    sidechain put off by an epoch, the transfer to mature at height 203 *)
Definition sc_certified : CSidechain :=
  mkSidechain 100 71 (mkCertView [] 10 2) (mkCertView epoch_root 0 0) 606 0 1 20 30 (fixedParams sc_alive) {[ 203 := 30 ]} 1 [mkScFeeData 10 2].

Definition reorg_flushed : CCoinsViewDB :=
  mkDB {[ 77 := mkCoins true [mkTxOut 5 [0x51]] 200 1 BWT_POS_UNSET 0; 605 := mkCoins false [mkTxOut 15 [0x51]] 200 SC_TX_VERSION BWT_POS_UNSET 0;
          606 := mkCoins false (cert_vout reorg_cert) 200 SC_CERT_VERSION 1 319 ]}
    {[ 7 := sc_certified; 8 := sc_ceased ]} {[ 319 := mkEvents 0 {[7]} ∅; 203 := mkEvents 0 ∅ {[7]} ]} ∅ ∅ ∅ (Some 2) None.

Definition reorg_led : Led := mkLed {[ 500 := paying_coins; 501 := paying_coins ]} ({[ 7 := sc_alive; 8 := sc_ceased ]}, {[ 219 := mkEvents 0 {[7]} ∅ ]}) ∅ ∅.

Lemma reorg_led_eq : led (denote reorg_ledger) = reorg_led.
Proof. vm_compute. reflexivity. Qed.

Lemma scs_forall (P : CSidechain -> Prop) : P sc_alive -> P sc_ceased -> map_Forall (fun _ => P) (l_se reorg_led).1.
Proof. intros Pa Pc. apply map_Forall_insert_2; [done|]. by apply map_Forall_singleton. Qed.

Lemma reorg_scs sid s : (l_se reorg_led).1 !! sid = Some s -> sid = 7 /\ s = sc_alive \/ s = sc_ceased.
Proof. cbn [l_se reorg_led fst]. intros [[<- <-]|[_ [<- <-]%lookup_singleton_Some]]%lookup_insert_Some; [by left|by right]. Qed.

Lemma reorg_ceasing k sid : sid ∈ ceasing_at (l_se reorg_led).2 k -> k = 219 /\ sid = 7.
Proof.
  unfold ceasing_at. cbn [l_se reorg_led snd]. destruct (decide (k = 219)) as [->|Hk].
  - rewrite lookup_singleton_eq. cbn. set_solver.
  - rewrite lookup_singleton_ne by done. cbn. set_solver.
Qed.

Lemma reorg_good : good_led 200 reorg_led.
Proof.
  assert (Hi : mImmatureAmounts sc_alive = ∅ /\ mImmatureAmounts sc_ceased = ∅) by done. destruct Hi as [Ha Hc]. split.
  - apply map_Forall_insert_2; [|apply map_Forall_singleton]; vm_compute; split_and!; congruence.
  - apply map_Forall_insert_2; [|apply map_Forall_singleton]; by right.
  - split.
    + apply scs_forall; rewrite ?Ha, ?Hc; apply map_Forall_empty.
    + apply scs_forall; vm_compute; congruence.
    + apply scs_forall; vm_compute; congruence.
    + by apply map_Forall_singleton.
    + by apply map_Forall_singleton.
    + intros k sid [-> ->]%reorg_ceasing. by exists sc_alive.
    + intros sid s [[-> ->]| ->]%reorg_scs Hh; [vm_compute; reflexivity|]. vm_compute in Hh. congruence.
    + intros i j k Hi. unfold cert_key in Hi. destruct ((l_se reorg_led).1 !! i) as [s|] eqn:E; [|done]. by apply reorg_scs in E as [[-> ->]| ->].
Qed.

Lemma reorg_fits : block_fits reorg_block.
Proof.
  split.
  - exists reorg_coinbase, [reorg_transfer]. split_and!; try done. by constructor.
  - repeat constructor; cbn; lia.
  - repeat constructor; cbn; lia.
  - repeat constructor; cbn; lia.
  - refine (bool_decide_unpack _ _). vm_compute. exact I.
Qed.

Lemma reorg_storable : storable reorg_undo.
Proof.
  split; [|by left]. unfold blockundo_ok. cbn [vtxundo reorg_undo]. split; [stored_ok|]. split.
  { repeat (constructor; [unfold txundo_ok; stored_ok; unfold txinundo_ok; stored_ok|]). constructor. }
  split; [cbn; lia|]. split; [stored_ok|].
  intros k v Hk. cbn [scUndoDatabyScId reorg_undo] in Hk.
  apply lookup_singleton_Some in Hk as [<- <-]. split; [lia|]. unfold scundo_ok. stored_ok.
Qed.

Lemma reorg_ready : ledger_at 200 (denote reorg_ledger).
Proof.
  split; [rewrite reorg_led_eq; exact reorg_good|vm_compute; reflexivity|exists (mkBlockIndex 199 epoch_root); vm_compute; split; reflexivity|vm_compute; congruence..].
Qed.

(** the runs: what they return, by computation *)
Lemma some_pair {A B} (a a' : A) (b b' : B) : Some (a, b) = Some (a', b') -> a = a' /\ b = b'.
Proof. by intros [= -> ->]. Qed.

Lemma reorg_view_eq : reorg_connecting = Ok (Some (Some reorg_undo), reorg_view) /\ px_hashAnchorEnd (cn_index reorg_view) = 320255973501901928.
Proof.
  assert (E : match reorg_connecting with Ok (r, s) => Some (r, px_hashAnchorEnd (cn_index s)) | Err _ => None end
    = Some (Some (Some reorg_undo), 320255973501901928)) by (vm_compute; reflexivity).
  unfold reorg_view, end_state. destruct (reorg_connecting) as [[r s]|]; [|discriminate E]. apply some_pair in E as [-> E]. exact (conj eq_refl E).
Qed.

Lemma pair_inv {A B} (a a' : A) (b b' : B) : (a, b) = (a', b') -> a' = a /\ b = b'.
Proof. by intros [= -> ->]. Qed.

Lemma reorg_end_eq : reorg_connected = Ok (true, reorg_end) /\ denote reorg_flushed = denote (cn_view reorg_end)
  /\ px_hashAnchorEnd (cn_index reorg_end) = 320255973501901928.
Proof.
  assert (E : match reorg_connected with Ok (r, s) => Some (r, (denote (cn_view s), px_hashAnchorEnd (cn_index s))) | Err _ => None end
    = Some (true, (denote reorg_flushed, 320255973501901928))) by (vm_compute; reflexivity).
  unfold reorg_end, end_state. destruct (reorg_connected) as [[r s]|]; [|discriminate E]. apply some_pair in E as [-> E]. exact (conj eq_refl (pair_inv _ _ _ _ E)).
Qed.

Lemma block_undone_witness :
  exists c, DisconnectBlock reorg_store (cn_disk reorg_end) (cn_index reorg_end) reorg_block true (Cache_new reorg_flushed) = Ok ((true, true), c)
    /\ v_wf c /\ denote c = denote reorg_ledger.
Proof.
  apply (@block_undone regtest CCoinsViewDB _ _ _ _ SampleLedger.toy_hash reorg_index sample_zendoo toy_curve toy_curve_laws
    (mkEnv REGTEST [] 100 true 80) (fun _ => true) (fun _ _ _ => true) (fun _ _ => true) (fun _ _ _ => true) (fun _ => true) regtest_pow
    (fun _ => true) (fun _ _ => 0) false (mkIO (fun _ => true) (fun _ => true)) reorg_store ∅ [] false 9 41 reorg_block true true true
    reorg_ledger reorg_flushed reorg_start reorg_view reorg_end reorg_undo).
  - apply db_check_sound. vm_compute. reflexivity.
  - reflexivity.
  - exact reorg_ready.
  - split; reflexivity.
  - split; [reflexivity|]. split; [vm_compute; congruence|]. split; [vm_compute; congruence|]. intros size [= <-]. lia.
  - exact reorg_fits.
  - apply (scs_forall (fun s => lastTopQualityCertHash s ∉ _ \/ _)); right; split; reflexivity.
  - exact (proj1 reorg_view_eq).
  - exact reorg_storable.
  - rewrite (proj2 reorg_view_eq). vm_compute. split; [congruence|]. intros Hx. contradiction (Hx eq_refl).
  - exact (proj1 reorg_end_eq).
  - apply db_check_sound. vm_compute. reflexivity.
  - exact (proj1 (proj2 reorg_end_eq)).
Defined.

Lemma reorg_none_maturing : none_maturing (a_ev (denote reorg_ledger)) 203.
Proof.
  intros k Hk. change (a_ev (denote reorg_ledger)) with (l_se (led (denote reorg_ledger))).2. rewrite reorg_led_eq. cbn [l_se reorg_led snd].
  unfold maturing_at. destruct (decide (k = 219)) as [->|]; [by rewrite lookup_singleton_eq|by rewrite lookup_singleton_ne].
Qed.

Lemma ledger_kept_witness :
  v_wf (cn_view reorg_end) /\ ledger_at 201 (denote (cn_view reorg_end)) /\ none_maturing (a_ev (denote (cn_view reorg_end))) 204.
Proof.
  apply (@ledger_kept regtest CCoinsViewDB _ _ _ _ SampleLedger.toy_hash reorg_index sample_zendoo toy_curve
    (mkEnv REGTEST [] 100 true 80) (fun _ => true) (fun _ _ _ => true) (fun _ _ => true) (fun _ _ _ => true) (fun _ => true) regtest_pow
    (fun _ => true) (fun _ _ => 0) false (mkIO (fun _ => true) (fun _ => true)) reorg_store ∅ [] false 9 41 reorg_block true true
    reorg_ledger reorg_start reorg_end).
  - apply db_check_sound. vm_compute. reflexivity.
  - reflexivity.
  - exact reorg_ready.
  - exact reorg_none_maturing.
  - split; reflexivity.
  - vm_compute. congruence.
  - vm_compute. congruence.
  - exists (mkBlockIndex 200 epoch_root). split; reflexivity.
  - exact reorg_fits.
  - apply (scs_forall (fun s => lastTopQualityCertHash s ∉ _ \/ _)); right; split; reflexivity.
  - exact (proj1 reorg_end_eq).
  - rewrite (proj2 (proj2 reorg_end_eq)). congruence.
Defined.
