(* ===== verification/BlockTree.v ===== *)
(** * The block tree and the choice of the best chain

    The part of [main.cpp] that keeps the tree of known blocks and decides which of
    its branches is active: the order of candidates with its penalty for delayed
    chains ([zen/delay.cpp]), new headers, received blocks, failed blocks, the search
    for the best candidate and the steps that activate it.

    Connecting and disconnecting one block are parameters. The memory pool, the signals
    to the wallet and to other listeners, the flushing to disk and the warnings about
    forks are left out: the tree does not depend on them. *)

From stdpp Require Import base numbers list gmap option strings sets countable.
From Stdlib Require Import ZArith Lia.
From S2P Require Import Prelude.
From S2P Require Import Serialize.
From S2P Require Import ScTypes.
From S2P Require Import Primitives.
From S2P Require Import Forks.
From S2P Require Import Chain.
From S2P Require Import BlockData.
From S2P Require Import Arith256.
From S2P Require Import BlockIndex.
From S2P Require Import Pow.
Open Scope Z_scope.
Open Scope zen_scope.

(** ** The globals of [main.cpp]: [mapBlockIndex], the entries, [chainActive],
    [pindexBestHeader], [pindexBestInvalid], [setBlockIndexCandidates],
    [mapBlocksUnlinked] (equal keys in the order of insertion), [nBlockSequenceId],
    [setDirtyBlockIndex] and [mGlobalForkTips] *)
Record Tree := mkTree {
  t_map : gmap uint256 ptr;
  t_nodes : NodeStore;
  t_chain : list (option ptr);
  t_bestHeader : option ptr;
  t_bestInvalid : option ptr;
  t_candidates : gset Z;
  t_unlinked : list (ptr * ptr);
  t_nextSeq : Z;
  t_dirty : gset Z;
  t_forkTips : gmap Z Z }.

Definition with_map (x : gmap uint256 ptr) (t : Tree) : Tree :=
  mkTree x (t_nodes t) (t_chain t) (t_bestHeader t) (t_bestInvalid t) (t_candidates t) (t_unlinked t) (t_nextSeq t) (t_dirty t) (t_forkTips t).

Definition with_nodes (x : NodeStore) (t : Tree) : Tree :=
  mkTree (t_map t) x (t_chain t) (t_bestHeader t) (t_bestInvalid t) (t_candidates t) (t_unlinked t) (t_nextSeq t) (t_dirty t) (t_forkTips t).

Definition with_chain (x : list (option ptr)) (t : Tree) : Tree :=
  mkTree (t_map t) (t_nodes t) x (t_bestHeader t) (t_bestInvalid t) (t_candidates t) (t_unlinked t) (t_nextSeq t) (t_dirty t) (t_forkTips t).

Definition with_bestHeader (x : option ptr) (t : Tree) : Tree :=
  mkTree (t_map t) (t_nodes t) (t_chain t) x (t_bestInvalid t) (t_candidates t) (t_unlinked t) (t_nextSeq t) (t_dirty t) (t_forkTips t).

Definition with_bestInvalid (x : option ptr) (t : Tree) : Tree :=
  mkTree (t_map t) (t_nodes t) (t_chain t) (t_bestHeader t) x (t_candidates t) (t_unlinked t) (t_nextSeq t) (t_dirty t) (t_forkTips t).

Definition with_candidates (x : gset Z) (t : Tree) : Tree :=
  mkTree (t_map t) (t_nodes t) (t_chain t) (t_bestHeader t) (t_bestInvalid t) x (t_unlinked t) (t_nextSeq t) (t_dirty t) (t_forkTips t).

Definition with_unlinked (x : list (ptr * ptr)) (t : Tree) : Tree :=
  mkTree (t_map t) (t_nodes t) (t_chain t) (t_bestHeader t) (t_bestInvalid t) (t_candidates t) x (t_nextSeq t) (t_dirty t) (t_forkTips t).

Definition with_nextSeq (x : Z) (t : Tree) : Tree :=
  mkTree (t_map t) (t_nodes t) (t_chain t) (t_bestHeader t) (t_bestInvalid t) (t_candidates t) (t_unlinked t) x (t_dirty t) (t_forkTips t).

Definition with_dirty (x : gset Z) (t : Tree) : Tree :=
  mkTree (t_map t) (t_nodes t) (t_chain t) (t_bestHeader t) (t_bestInvalid t) (t_candidates t) (t_unlinked t) (t_nextSeq t) x (t_forkTips t).

Definition with_forkTips (x : gmap Z Z) (t : Tree) : Tree :=
  mkTree (t_map t) (t_nodes t) (t_chain t) (t_bestHeader t) (t_bestInvalid t) (t_candidates t) (t_unlinked t) (t_nextSeq t) (t_dirty t) x.

Definition tip (t : Tree) : option ptr := Tip (t_chain t).

(** ** Access to entries *)
Definition node (p : ptr) : M Tree BlockNode :=
  fun t => match t_nodes t !! p with Some e => Ok (e, t) | None => Err null_pointer end.

Definition set_node (p : ptr) (e : BlockNode) : M Tree unit := modify (fun t => with_nodes (<[p := e]> (t_nodes t)) t).

(** an assignment through the pointer [p] *)
Definition update (p : ptr) (f : BlockNode -> BlockNode) : M Tree unit :=
  let* e := node p in set_node p (f e).

Definition mark_dirty (p : ptr) : M Tree unit := modify (fun t => with_dirty ({[p]} ∪ t_dirty t) t).

Definition erase_candidate (p : ptr) : M Tree unit := modify (fun t => with_candidates (t_candidates t ∖ {[p]}) t).

Definition insert_candidate (p : ptr) : M Tree unit := modify (fun t => with_candidates ({[p]} ∪ t_candidates t) t).

(** ** The order of candidates *)
(** [CBlockIndexRealWorkComparator]: is [a], at [pa], worse than [b], at [pb]? *)
Definition RealWorkComparator (pa : ptr) (a : BlockNode) (pb : ptr) (b : BlockNode) : bool :=
  if 0 <? arith_CompareTo (px_nChainWork a) (px_nChainWork b) then false
  else if arith_CompareTo (px_nChainWork a) (px_nChainWork b) <? 0 then true
  else if px_nSequenceId a <? px_nSequenceId b then false
  else if px_nSequenceId b <? px_nSequenceId a then true
  else if pa <? pb then false
  else if pb <? pa then true
  else false.

(** [CBlockIndexWorkComparator]: the delay of the chain comes first *)
Definition WorkComparator (pa : ptr) (a : BlockNode) (pb : ptr) (b : BlockNode) : bool :=
  if px_nChainDelay a <? px_nChainDelay b then false
  else if px_nChainDelay b <? px_nChainDelay a then true
  else RealWorkComparator pa a pb b.

(** the comparison on pointers; the pointers compared are those of entries *)
Definition worse (st : NodeStore) (p q : ptr) : bool :=
  match st !! p, st !! q with
  | Some a, Some b => WorkComparator p a q b
  | _, _ => false
  end.

(** [rbegin()] and [begin()] of a set ordered by the comparison *)
Fixpoint greatest (st : NodeStore) (l : list ptr) : option ptr :=
  match l with
  | [] => None
  | p :: l' => match greatest st l' with
               | None => Some p
               | Some q => if worse st p q then Some q else Some p
               end
  end.

Fixpoint least (st : NodeStore) (l : list ptr) : option ptr :=
  match l with
  | [] => None
  | p :: l' => match least st l' with
               | None => Some p
               | Some q => if worse st q p then Some q else Some p
               end
  end.

(** ** Delayed chains: [zen/delay.cpp] *)
Definition PENALTY_THRESHOLD : Z := 5.

Definition GetBlockDelay (newHeight prevChainDelay activeChainHeight : Z) (isStartupSyncing : bool) : Z :=
  if isStartupSyncing then 0
  else if 0 <? prevChainDelay then
    if newHeight <=? activeChainHeight then activeChainHeight - newHeight else -1
  else if PENALTY_THRESHOLD <? activeChainHeight - newHeight then activeChainHeight - newHeight
  else 0.

(** ** Headers *)
Definition addToGlobalForkTips (p : ptr) (time : Z) : M Tree bool :=
  let* e := node p in
  let* _ := match px_pprev e with
            | Some q => modify (fun t => with_forkTips (delete q (t_forkTips t)) t)
            | None => ret tt
            end in
  let* t := get in
  match t_forkTips t !! p with
  | Some _ => ret false
  | None => modify (fun t => with_forkTips (<[p := time]> (t_forkTips t)) t) ;;; ret true
  end.

Definition defaultScCumTreeHash : CFieldElement := GetPhantomHash.

Section Headers.
  (** the Poseidon hash of two field elements, of the zendoo library; the hash of a
      header; an error of the library is an exception *)
  Context `{ZendooLib} (poseidon : bytes -> bytes -> option bytes) (GetHash : CBlockHeader -> uint256).

Definition ComputeHash (lhs rhs : CFieldElement) : res CFieldElement :=
  let failed := Exception "Could not compute poseidon hash on null field elements" in
  if negb (FE_IsValid lhs) || negb (FE_IsValid rhs) then Err failed
  else match poseidon lhs rhs with Some h => Ok h | None => Err failed end.

(** the new entry before it is linked to its parent *)
Definition new_entry (block : CBlockHeader) : BlockNode :=
  set_nSequenceId 0 (set_phashBlock (GetHash block) (node_of_header block)).

(** the fields that depend on the parent *)
Definition link_entry (st : NodeStore) (activeHeight : Z) (syncing : bool) (block : CBlockHeader) (prev : option ptr)
    (e : BlockNode) : res BlockNode :=
  match GetBlockProof (px_nBits e) with
  | Err x => Err x
  | Ok proof =>
      match prev with
      | None => Ok (set_nChainDelay 0 (set_nChainWork (arith_add (arith_of_u64 0) proof) e))
      | Some q =>
          match node_deref st (Some q) with
          | Err x => Err x
          | Ok e' =>
              let h := px_nHeight e' + 1 in
              match GetAncestor (entries st) q (GetSkipHeight h) with
              | Err x => Err x
              | Ok skip =>
                  let e := set_nHeight h (set_pprev (Some q) e) in
                  let e := set_pskip skip e in
                  let e := set_nChainWork (arith_add (px_nChainWork e') proof) e in
                  let e := set_nChainDelay (px_nChainDelay e' + GetBlockDelay h (px_nChainDelay e') activeHeight syncing) e in
                  if px_nVersion e =? BLOCK_VERSION_SC_SUPPORT then
                    let prevCum :=
                      if px_nVersion e' =? BLOCK_VERSION_SC_SUPPORT then px_scCumTreeHash e' else defaultScCumTreeHash in
                    match ComputeHash prevCum (uint_bytes (hashScTxsCommitment block)) with
                    | Err x => Err x
                    | Ok cum => Ok (set_scCumTreeHash cum e)
                    end
                  else Ok e
              end
          end
      end
  end.

(** the entry of a header: [alloc] is the address of the new object *)
Definition AddToBlockIndex (block : CBlockHeader) (alloc : ptr) (syncing : bool) (time : Z) : M Tree ptr :=
  let hash := GetHash block in
  let* t := get in
  match t_map t !! hash with
  | Some p => ret p
  | None =>
      let e0 := new_entry block in
      modify (fun t => with_nodes (<[alloc := e0]> (t_nodes t)) (with_map (<[hash := alloc]> (t_map t)) t)) ;;;
      let* t := get in
      let prev := t_map t !! hashPrevBlock block in
      let* e := lift (link_entry (t_nodes t) (Height (t_chain t)) syncing block prev e0) in
      let e := RaiseValidity BLOCK_VALID_TREE e in
      set_node alloc e ;;;
      let* better := match t_bestHeader t with
                     | None => ret true
                     | Some b => let* eb := node b in
                                 ret ((arith_CompareTo (px_nChainWork eb) (px_nChainWork e) <? 0) && (px_nChainDelay e =? 0))
                     end in
      (if better : bool then modify (with_bestHeader (Some alloc)) else ret tt) ;;;
      mark_dirty alloc ;;;
      addToGlobalForkTips alloc time ;;;
      ret alloc
  end.
End Headers.

(** ** Received blocks *)
Definition joinsplit_value (tx : CTransaction) : Z :=
  foldl (fun v js => v + vpub_old js - vpub_new js) 0 (vjoinsplit tx).

Definition block_sprout_value (b : CBlock) : Z := foldl (fun v tx => v + joinsplit_value tx) 0 (vtx b).

(** the children of [p] that wait for it *)
Definition waiting (p : ptr) (l : list (ptr * ptr)) : list ptr := (filter (fun x => x.1 = p) l).*2.

(** the value of the shielded pool up to an entry *)
Definition chain_sprout (prev : option BlockNode) (e : BlockNode) : option Z :=
  match prev with
  | Some e' => match px_nChainSproutValue e', px_nSproutValue e with
               | Some a, Some b => Some (a + b)
               | _, _ => None
               end
  | None => px_nSproutValue e
  end.

Definition prev_node (e : BlockNode) : M Tree (option BlockNode) :=
  match px_pprev e with
  | None => ret None
  | Some q => let* e' := node q in ret (Some e')
  end.

(** the entry becomes linked: all its ancestors have their transactions *)
Definition link_block (p : ptr) : M Tree unit :=
  let* e := node p in
  let* prev := prev_node e in
  let n := match prev with Some e' => px_nChainTx e' | None => 0 end in
  set_node p (set_nChainSproutValue (chain_sprout prev e) (set_nChainTx (to_u32 (n + px_nTx e)) e)) ;;;
  let* t := get in
  update p (set_nSequenceId (t_nextSeq t)) ;;;
  modify (with_nextSeq (to_u32 (t_nextSeq t + 1))).

(** [*sForkTips], when the caller wants it *)
Definition fork_tip (p : ptr) (prev : option ptr) (tips : option (gset Z)) : option (gset Z) :=
  match tips with
  | None => None
  | Some s => Some ({[p]} ∪ match prev with Some q => s ∖ {[q]} | None => s end)
  end.

(** one round of the loop over the queue *)
Definition process_linked (p : ptr) (tips : option (gset Z)) : M Tree (list ptr * option (gset Z)) :=
  link_block p ;;;
  let* e := node p in
  let* t := get in
  let* better := match tip t with
                 | None => ret (true, true)
                 | Some q => let* eq := node q in
                             ret (negb (WorkComparator p e q eq), negb (RealWorkComparator p e q eq))
                 end in
  (if better.1 : bool then insert_candidate p else ret tt) ;;;
  let tips := if better.2 : bool then fork_tip p (px_pprev e) tips else tips in
  let next := waiting p (t_unlinked t) in
  modify (fun t => with_unlinked (filter (fun x => x.1 <> p) (t_unlinked t)) t) ;;;
  ret (next, tips).

(** every entry that enters the queue leaves [mapBlocksUnlinked] *)
Fixpoint link_queue (fuel : nat) (queue : list ptr) (tips : option (gset Z)) : M Tree (option (gset Z)) :=
  match fuel, queue with
  | O, _ | _, [] => ret tips
  | S fuel', p :: queue' =>
      let* r := process_linked p tips in
      link_queue fuel' (queue' ++ r.1) r.2
  end.

Definition ReceivedBlockTransactions (block : CBlock) (p : ptr) (pos : CDiskBlockPos) (tips : option (gset Z))
    : M Tree (bool * option (gset Z)) :=
  update p (fun e =>
    RaiseValidity BLOCK_VALID_TRANSACTIONS (or_status BLOCK_HAVE_DATA
      (set_nUndoPos 0 (set_nDataPos (pos_nPos pos) (set_nFile (pos_nFile pos)
        (set_nChainSproutValue None (set_nSproutValue (Some (block_sprout_value block))
          (set_nChainTx 0 (set_nTx (vsize (vtx block) + vsize (vcert block)) e))))))))) ;;;
  mark_dirty p ;;;
  let* e := node p in
  let* prev := prev_node e in
  let linked := match prev with Some e' => negb (px_nChainTx e' =? 0) | None => true end in
  if linked then
    let* t := get in
    let* tips := link_queue (S (length (t_unlinked t))) [p] tips in
    ret (true, tips)
  else
    (match px_pprev e, prev with
     | Some q, Some e' =>
         if node_IsValid e' BLOCK_VALID_TREE then modify (fun t => with_unlinked (t_unlinked t ++ [(q, p)]) t) else ret tt
     | _, _ => ret tt
     end) ;;;
    ret (true, tips).

(** ** Failed blocks *)
(** is the work of [a] greater than that of [b]? *)
Definition more_work (a b : BlockNode) : bool := 0 <? arith_CompareTo (px_nChainWork a) (px_nChainWork b).

Definition note_invalid (p : ptr) : M Tree unit :=
  let* t := get in
  match t_bestInvalid t with
  | None => modify (with_bestInvalid (Some p))
  | Some b =>
      let* e := node p in
      let* eb := node b in
      if more_work e eb then modify (with_bestInvalid (Some p)) else ret tt
  end.

Definition InvalidChainFound (p : ptr) : M Tree unit :=
  note_invalid p ;;;
  let* t := get in
  massert (bool_decide (tip t <> None)).

Definition InvalidBlockFound (p : ptr) (corruptionPossible : bool) : M Tree unit :=
  if corruptionPossible then ret tt
  else
    update p (or_status BLOCK_FAILED_VALID) ;;;
    mark_dirty p ;;;
    erase_candidate p ;;;
    InvalidChainFound p.

(** ** The best candidate *)
Definition contains (p : ptr) : M Tree bool :=
  let* e := node p in
  let* t := get in
  ret (bool_decide (chain_at (t_chain t) (px_nHeight e) = Some p)).

(** the entries between the candidate and the unusable one leave the candidates *)
Fixpoint remove_chain (fuel : nat) (pindexFailed pindexTest : ptr) (fFailedChain : bool) : M Tree unit :=
  match fuel with
  | O => ret tt
  | S fuel' =>
      if pindexFailed =? pindexTest then ret tt
      else
        let* e := node pindexFailed in
        match px_pprev e with
        | None => fail null_pointer
        | Some q =>
            (if fFailedChain then update pindexFailed (or_status BLOCK_FAILED_CHILD)
             else modify (fun t => with_unlinked (t_unlinked t ++ [(q, pindexFailed)]) t)) ;;;
            erase_candidate pindexFailed ;;;
            remove_chain fuel' q pindexTest fFailedChain
        end
  end.

(** the walk from a candidate to the active chain: is there an unusable entry? *)
Fixpoint test_chain (fuel : nat) (pindexNew : ptr) (pindexTest : option ptr) : M Tree bool :=
  match fuel, pindexTest with
  | O, _ | _, None => ret false
  | S fuel', Some q =>
      let* inside := contains q in
      if inside : bool then ret false
      else
        let* e := node q in
        massert (negb (px_nChainTx e =? 0) || (px_nHeight e =? 0)) ;;;
        let fFailedChain := flag e BLOCK_FAILED_MASK in
        let fMissingData := negb (flag e BLOCK_HAVE_DATA) in
        if fFailedChain || fMissingData then
          (if fFailedChain then note_invalid pindexNew else ret tt) ;;;
          let* new := node pindexNew in
          remove_chain (S (Z.to_nat (px_nHeight new))) pindexNew q fFailedChain ;;;
          erase_candidate q ;;;
          ret true
        else test_chain fuel' pindexNew (px_pprev e)
  end.

(** each round that does not return removes the candidate it looked at *)
Fixpoint find_most_work (fuel : nat) : M Tree (option ptr) :=
  match fuel with
  | O => ret None
  | S fuel' =>
      let* t := get in
      match greatest (t_nodes t) (elements (t_candidates t)) with
      | None => ret None
      | Some pindexNew =>
          let* e := node pindexNew in
          let* bad := test_chain (Z.to_nat (px_nHeight e + 2)) pindexNew (Some pindexNew) in
          if bad : bool then find_most_work fuel' else ret (Some pindexNew)
      end
  end.

Definition FindMostWorkChain : M Tree (option ptr) :=
  let* t := get in find_most_work (S (size (t_candidates t))).

(** [while (it != end() && worse( *it, Tip()))], from the worst candidate *)
Fixpoint prune_loop (fuel : nat) : M Tree unit :=
  match fuel with
  | O => ret tt
  | S fuel' =>
      let* t := get in
      match least (t_nodes t) (elements (t_candidates t)), tip t with
      | Some p, Some q => if worse (t_nodes t) p q then erase_candidate p ;;; prune_loop fuel' else ret tt
      | _, _ => ret tt
      end
  end.

Definition PruneBlockIndexCandidates : M Tree unit :=
  let* t := get in
  prune_loop (size (t_candidates t)) ;;;
  let* t := get in
  massert (bool_decide (t_candidates t <> ∅)).

(** ** Activation *)
(** what connecting a block gives: it is valid, it violates a rule (the data may be
    corrupted), or the system failed *)
Inductive verdict := Connected | Violated (corruptionPossible : bool) | SystemError.

Section Activation.
  (** the checks of a block and the writes of its undo data, its disconnection *)
  Context (connect : ptr -> verdict) (undo_pos : ptr -> Z) (disconnect : ptr -> bool).

Definition UpdateTip (p : option ptr) : M Tree unit :=
  let* t := get in
  let* v := lift (SetTip (entries (t_nodes t)) (t_chain t) p) in
  modify (with_chain v).

(** [false]: the node stops *)
Definition DisconnectTip : M Tree bool :=
  let* t := get in
  match tip t with
  | None => fail AssertFailed
  | Some p =>
      if disconnect p then
        let* e := node p in
        UpdateTip (px_pprev e) ;;; ret true
      else ret false
  end.

(** the writes of [ConnectBlock] to the entry *)
Definition record_connected (p : ptr) : M Tree unit :=
  let* e := node p in
  if pos_IsNull (GetUndoPos e) || negb (node_IsValid e BLOCK_VALID_SCRIPTS) then
    set_node p (RaiseValidity BLOCK_VALID_SCRIPTS
      (if pos_IsNull (GetUndoPos e) then or_status BLOCK_HAVE_UNDO (set_nUndoPos (undo_pos p) e) else e)) ;;;
    mark_dirty p
  else ret tt.

Definition ConnectTip (p : ptr) : M Tree verdict :=
  let* e := node p in
  let* t := get in
  massert (bool_decide (px_pprev e = tip t)) ;;;
  match connect p with
  | Connected => record_connected p ;;; UpdateTip (Some p) ;;; ret Connected
  | Violated corruption => InvalidBlockFound p corruption ;;; ret (Violated corruption)
  | SystemError => ret SystemError
  end.

(** the active blocks that are not in the best chain *)
Fixpoint disconnect_to (fuel : nat) (fork : option ptr) : M Tree bool :=
  match fuel with
  | O => ret true
  | S fuel' =>
      let* t := get in
      match tip t with
      | None => ret true
      | Some p =>
          if bool_decide (Some p = fork) then ret true
          else
            let* ok := DisconnectTip in
            if ok : bool then disconnect_to fuel' fork else ret false
      end
  end.

(** [vpindexToConnect]: the entries above [nHeight], from [pindexIter] down *)
Fixpoint to_connect (fuel : nat) (pindexIter : option ptr) (nHeight : Z) : M Tree (list ptr) :=
  match fuel, pindexIter with
  | O, _ | _, None => ret []
  | S fuel', Some p =>
      let* e := node p in
      if px_nHeight e =? nHeight then ret []
      else let* l := to_connect fuel' (px_pprev e) nHeight in ret (p :: l)
  end.

(** how the connection of a list of blocks ended *)
Inductive progress := GoOn | Better | InvalidFound | Aborted.

(** the blocks in the order they are connected; [back] is the last of
    [vpindexToConnect], the first that is connected *)
Fixpoint connect_list (l : list ptr) (back : ptr) (oldTip : option ptr) : M Tree progress :=
  match l with
  | [] => ret GoOn
  | p :: l' =>
      let* r := ConnectTip p in
      match r with
      | SystemError => ret Aborted
      | Violated corruption =>
          (if corruption then ret tt else InvalidChainFound back) ;;; ret InvalidFound
      | Connected =>
          PruneBlockIndexCandidates ;;;
          let* t := get in
          match tip t, oldTip with
          | _, None => ret Better
          | None, Some _ => fail null_pointer
          | Some q, Some o =>
              let* eq := node q in
              let* eo := node o in
              if more_work eq eo then ret Better else connect_list l' back oldTip
          end
      end
  end.

(** rounds of at most 32 blocks *)
Fixpoint connect_rounds (fuel : nat) (mostWork : ptr) (mostHeight nHeight : Z) (oldTip : option ptr) : M Tree progress :=
  match fuel with
  | O => ret GoOn
  | S fuel' =>
      if nHeight =? mostHeight then ret GoOn
      else
        let nTargetHeight := Z.min (nHeight + 32) mostHeight in
        let* t := get in
        let* iter := lift (GetAncestor (entries (t_nodes t)) mostWork nTargetHeight) in
        let* l := to_connect (Z.to_nat (nTargetHeight - nHeight + 1)) iter nHeight in
        let* r := match rev l with [] => ret GoOn | back :: _ => connect_list (rev l) back oldTip end in
        match r with
        | GoOn => connect_rounds fuel' mostWork mostHeight nTargetHeight oldTip
        | _ => ret r
        end
  end.

(** [false]: a system error; the warnings about forks at its end are left out *)
Definition ActivateBestChainStep (mostWork : ptr) : M Tree bool :=
  let* t := get in
  let oldTip := tip t in
  let* fork := lift (FindFork (entries (t_nodes t)) (t_chain t) mostWork) in
  let* ok := disconnect_to (length (t_chain t)) fork in
  if ok : bool then
    let* nHeight := match fork with
                    | Some f => let* e := node f in ret (px_nHeight e)
                    | None => ret (-1)
                    end in
    let* e := node mostWork in
    let* r := connect_rounds (Z.to_nat (px_nHeight e - nHeight + 1)) mostWork (px_nHeight e) nHeight oldTip in
    ret (match r with Aborted => false | _ => true end)
  else ret false.

(** the loop of [ActivateBestChain]; [None]: it has not ended after [fuel] rounds *)
Fixpoint ActivateBestChain (fuel : nat) : M Tree (option bool) :=
  match fuel with
  | O => ret None
  | S fuel' =>
      let* best := FindMostWorkChain in
      let* t := get in
      match best with
      | None => ret (Some true)
      | Some p =>
          if bool_decide (Some p = tip t) then ret (Some true)
          else
            let* ok := ActivateBestChainStep p in
            if ok : bool then
              let* t := get in
              if bool_decide (Some p = tip t) then ret (Some true) else ActivateBestChain fuel'
            else ret (Some false)
      end
  end.

(** ** Manual invalidation *)
(** the entries of [mapBlockIndex], in some order *)
Definition all_entries (t : Tree) : list ptr := (map_to_list (t_map t)).*2.

Fixpoint disconnect_from (fuel : nat) (p : ptr) : M Tree bool :=
  match fuel with
  | O => ret true
  | S fuel' =>
      let* inside := contains p in
      if inside : bool then
        let* t := get in
        match tip t with
        | None => fail null_pointer
        | Some q =>
            update q (or_status BLOCK_FAILED_CHILD) ;;;
            mark_dirty q ;;;
            erase_candidate q ;;;
            let* ok := DisconnectTip in
            if ok : bool then disconnect_from fuel' p else ret false
        end
      else ret true
  end.

(** an entry that may be as good as the tip is a candidate again *)
Definition readd_candidate (p : ptr) : M Tree bool :=
  let* e := node p in
  if node_IsValid e BLOCK_VALID_TRANSACTIONS && negb (px_nChainTx e =? 0) then
    let* t := get in
    match tip t with
    | None => fail null_pointer
    | Some q =>
        let* eq := node q in
        (if negb (WorkComparator p e q eq) then insert_candidate p else ret tt) ;;; ret true
    end
  else ret true.

Definition InvalidateBlock (p : ptr) : M Tree bool :=
  update p (or_status BLOCK_FAILED_VALID) ;;;
  mark_dirty p ;;;
  erase_candidate p ;;;
  let* t := get in
  let* ok := disconnect_from (S (length (t_chain t))) p in
  if ok : bool then
    let* t := get in
    for_each (all_entries t) readd_candidate ;;;
    InvalidChainFound p ;;;
    ret true
  else ret false.

Definition clear_failed (e : BlockNode) : BlockNode :=
  set_nStatus (Z.land (px_nStatus e) (2 ^ 32 - 1 - BLOCK_FAILED_MASK)) e.

(** a descendant of [p], which is at [nHeight] *)
Definition reconsider_entry (p : ptr) (nHeight : Z) (it : ptr) : M Tree bool :=
  let* e := node it in
  let* t := get in
  let* inside := if node_IsValid e BLOCK_VALID_TRANSACTIONS then ret false
                 else let* anc := lift (GetAncestor (entries (t_nodes t)) it nHeight) in ret (bool_decide (anc = Some p)) in
  if inside : bool then
    set_node it (clear_failed e) ;;;
    mark_dirty it ;;;
    let e := clear_failed e in
    (if node_IsValid e BLOCK_VALID_TRANSACTIONS && negb (px_nChainTx e =? 0) then
       match tip t with
       | None => fail null_pointer
       | Some q => let* eq := node q in if WorkComparator q eq it e then insert_candidate it else ret tt
       end
     else ret tt) ;;;
    (if bool_decide (t_bestInvalid t = Some it) then modify (with_bestInvalid None) else ret tt) ;;;
    ret true
  else ret true.

Fixpoint clear_ancestors (fuel : nat) (p : option ptr) : M Tree unit :=
  match fuel, p with
  | O, _ | _, None => ret tt
  | S fuel', Some q =>
      let* e := node q in
      (if flag e BLOCK_FAILED_MASK then set_node q (clear_failed e) ;;; mark_dirty q else ret tt) ;;;
      clear_ancestors fuel' (px_pprev e)
  end.

Definition ReconsiderBlock (p : ptr) : M Tree bool :=
  let* e := node p in
  let* t := get in
  for_each (all_entries t) (reconsider_entry p (px_nHeight e)) ;;;
  clear_ancestors (S (Z.to_nat (px_nHeight e))) (Some p) ;;;
  ret true.
End Activation.
