(* ===== verification/BestChain.v ===== *)
(** * The best chain is found

    Laws of the block tree of [BlockTree.v]: the order of candidates, the penalty of
    delayed chains, the search for the best candidate and the activation of the best
    chain, which ends at the greatest block whose whole chain is valid. *)

From stdpp Require Import base numbers list gmap option strings sets countable.
From Stdlib Require Import ZArith Lia.
From S2P Require Import Prelude.
From S2P Require Import ScTypes.
From S2P Require Import Chain.
From S2P Require Import BlockData.
From S2P Require Import Arith256.
From S2P Require Import BlockIndex.
From S2P Require Import Pow.
From S2P Require Import BlockTree.
Open Scope Z_scope.
Open Scope zen_scope.

(** ** The order of candidates *)
(** [a] at [pa] is worse than [b] at [pb]: more delay, or less work, or a later
    arrival, or a higher address *)
Definition below (pa : ptr) (a : BlockNode) (pb : ptr) (b : BlockNode) : Prop :=
  px_nChainDelay b < px_nChainDelay a
  \/ px_nChainDelay a = px_nChainDelay b
     /\ (arith_value (px_nChainWork a) < arith_value (px_nChainWork b)
         \/ arith_value (px_nChainWork a) = arith_value (px_nChainWork b)
            /\ (px_nSequenceId b < px_nSequenceId a \/ px_nSequenceId a = px_nSequenceId b /\ pb < pa)).

Lemma CompareTo_neg a b : arith_wf a -> arith_wf b -> (arith_CompareTo a b <? 0) = (arith_value a <? arith_value b).
Proof.
  intros Ha Hb. rewrite CompareTo_spec by done. destruct (Z.compare_spec (arith_value a) (arith_value b)); cbn [sign];
    symmetry; [apply Z.ltb_ge; lia|apply Z.ltb_lt; lia|apply Z.ltb_ge; lia].
Qed.

Lemma WorkComparator_below pa a pb b : arith_wf (px_nChainWork a) -> arith_wf (px_nChainWork b) ->
  WorkComparator pa a pb b = true <-> below pa a pb b.
Proof.
  intros Ha Hb. unfold WorkComparator, RealWorkComparator, below. rewrite CompareTo_pos, CompareTo_neg by done.
  repeat match goal with |- context [?x <? ?y] => destruct (Z.ltb_spec x y) end; split; (done || lia || intros; lia).
Qed.

Definition works_ok (st : NodeStore) : Prop := forall p e, st !! p = Some e -> arith_wf (px_nChainWork e).

Section Order.
  Context (st : NodeStore) (Hw : works_ok st).

Lemma worse_below p q a b : st !! p = Some a -> st !! q = Some b -> worse st p q = true <-> below p a q b.
Proof. intros Hp Hq. unfold worse. rewrite Hp, Hq. apply WorkComparator_below; eauto. Qed.

Lemma worse_dom p q : worse st p q = true -> is_Some (st !! p) /\ is_Some (st !! q).
Proof. unfold worse. destruct (st !! p), (st !! q); done. Qed.

Lemma worse_irrefl p : worse st p p = false.
Proof.
  destruct (worse st p p) eqn:E; [|done]. destruct (worse_dom _ _ E) as [[e He] _].
  apply (worse_below p p e e) in E; [|done..]. unfold below in E. lia.
Qed.

Lemma worse_trans p q r : worse st p q = true -> worse st q r = true -> worse st p r = true.
Proof.
  intros H1 H2. destruct (worse_dom _ _ H1) as [[a Ha] [b Hb]]. destruct (worse_dom _ _ H2) as [_ [c Hc]].
  apply (worse_below p q a b) in H1; [|done..]. apply (worse_below q r b c) in H2; [|done..].
  apply (worse_below p r a c); [done..|]. unfold below in *. lia.
Qed.

Lemma worse_total p q : is_Some (st !! p) -> is_Some (st !! q) -> p <> q -> worse st p q = true \/ worse st q p = true.
Proof.
  intros [a Ha] [b Hb] Hne. rewrite (worse_below p q a b), (worse_below q p b a) by done. unfold below. lia.
Qed.

(** not better *)
Definition no_better (p q : ptr) : Prop := p = q \/ worse st p q = true.

Lemma no_better_trans p q r : no_better p q -> no_better q r -> no_better p r.
Proof. intros [->|H1] [->|H2]; unfold no_better; eauto using worse_trans. Qed.

Lemma no_better_not_worse p q : no_better p q -> worse st q p = false.
Proof.
  intros [->|H]; [apply worse_irrefl|]. destruct (worse st q p) eqn:E; [|done].
  pose proof (worse_trans _ _ _ H E) as Hp. by rewrite worse_irrefl in Hp.
Qed.

Lemma not_worse_no_better p q : is_Some (st !! p) -> is_Some (st !! q) -> worse st q p = false -> no_better p q.
Proof.
  intros Hp Hq E. destruct (decide (p = q)); [by left|]. right.
  destruct (worse_total p q Hp Hq) as [|E']; [done..|congruence].
Qed.

Lemma greatest_spec l : (forall p, p ∈ l -> is_Some (st !! p)) ->
  match greatest st l with
  | None => l = []
  | Some g => g ∈ l /\ forall p, p ∈ l -> no_better p g
  end.
Proof.
  induction l as [|p l IH]; intros Hd; [done|]. cbn [greatest].
  specialize (IH ltac:(intros q Hq; apply Hd; by constructor)). destruct (greatest st l) as [g|].
  - destruct IH as [Hg IH]. destruct (worse st p g) eqn:E.
    + split; [by constructor|]. intros q [->|Hq]%elem_of_cons; [by right|auto].
    + split; [by constructor|]. intros q [->|Hq]%elem_of_cons; [by left|]. eapply no_better_trans; [by apply IH|].
      apply not_worse_no_better; [apply Hd; by constructor..|done].
  - subst l. split; [by constructor|]. intros q Hq%list_elem_of_singleton. by left.
Qed.

Lemma least_spec l : (forall p, p ∈ l -> is_Some (st !! p)) ->
  match least st l with
  | None => l = []
  | Some g => g ∈ l /\ forall p, p ∈ l -> no_better g p
  end.
Proof.
  induction l as [|p l IH]; intros Hd; [done|]. cbn [least].
  specialize (IH ltac:(intros q Hq; apply Hd; by constructor)). destruct (least st l) as [g|].
  - destruct IH as [Hg IH]. destruct (worse st g p) eqn:E.
    + split; [by constructor|]. intros q [->|Hq]%elem_of_cons; [by right|auto].
    + split; [by constructor|]. intros q [->|Hq]%elem_of_cons; [by left|]. eapply no_better_trans; [|by apply IH].
      apply not_worse_no_better; [apply Hd; by constructor..|done].
  - subst l. split; [by constructor|]. intros q Hq%list_elem_of_singleton. by left.
Qed.
End Order.

(** The comparison that orders [setBlockIndexCandidates] is a strict order that
    distinguishes any two entries, so that the set behaves as one: it prefers the chain
    with less delay, then more work, then the earlier arrival, then the lower address. *)
Theorem comparator_order (st : NodeStore) :
  works_ok st ->
  (forall p, worse st p p = false)
  /\ (forall p q r, worse st p q = true -> worse st q r = true -> worse st p r = true)
  /\ (forall p q a b, st !! p = Some a -> st !! q = Some b -> p <> q ->
        worse st p q = negb (worse st q p) /\ (worse st p q = true <-> below p a q b)).
Proof.
  intros Hw. split_and!; [by apply worse_irrefl|by apply worse_trans|]. intros p q a b Hp Hq Hne. split; [|by apply worse_below].
  destruct (worse st q p) eqn:E; cbn [negb].
  - apply (no_better_not_worse st Hw). by right.
  - destruct (worse_total st Hw p q) as [|E']; [by exists a|by exists b|done..|congruence].
Qed.

(** ** Chains of entries *)
(** the property [G] holds of an entry and of all its ancestors *)
Inductive chain_all (G : ptr -> BlockNode -> Prop) (st : NodeStore) : ptr -> Prop :=
| chain_first p e : st !! p = Some e -> G p e -> px_pprev e = None -> chain_all G st p
| chain_next p e q : st !! p = Some e -> G p e -> px_pprev e = Some q -> chain_all G st q -> chain_all G st p.

(** linked, not failed, with its data *)
Definition good (e : BlockNode) : bool :=
  negb (px_nChainTx e =? 0) && negb (flag e BLOCK_FAILED_MASK) && flag e BLOCK_HAVE_DATA.

Definition usable (st : NodeStore) : ptr -> Prop := chain_all (fun _ e => good e = true) st.

(** usable, and every block of the chain passes its checks *)
Definition valid (connect : ptr -> verdict) (st : NodeStore) : ptr -> Prop :=
  chain_all (fun p e => good e = true /\ connect p = Connected) st.

Definition on_chain (st : NodeStore) (p q : ptr) : Prop := exists n, parent_n (entries st) n p = Some q.

Lemma lookup_entries st p : entries st !! p = entry_of <$> st !! p.
Proof. apply lookup_fmap. Qed.

Lemma chain_all_mono (G G' : ptr -> BlockNode -> Prop) st st' :
  (forall p e, st !! p = Some e -> chain_all G st p -> G p e -> exists e', st' !! p = Some e' /\ G' p e' /\ px_pprev e' = px_pprev e) ->
  forall p, chain_all G st p -> chain_all G' st' p.
Proof.
  intros Hstep p Hp. induction Hp as [p e He HG Hn|p e q He HG Hn Hq IH].
  - destruct (Hstep p e He) as (e' & He' & HG' & Hn'); [by eapply chain_first|done|]. eapply chain_first; eauto. congruence.
  - destruct (Hstep p e He) as (e' & He' & HG' & Hn'); [by eapply chain_next|done|]. eapply chain_next; eauto. congruence.
Qed.

Lemma chain_all_self G st p : chain_all G st p -> exists e, st !! p = Some e /\ G p e.
Proof. inversion 1; eauto. Qed.

Lemma chain_all_prev G st p e q : chain_all G st p -> st !! p = Some e -> px_pprev e = Some q -> chain_all G st q.
Proof. inversion 1; intros; simplify_eq; done. Qed.

Lemma on_chain_self st p : on_chain st p p.
Proof. by exists O. Qed.

Lemma on_chain_prev st p q r e : on_chain st p q -> st !! q = Some e -> px_pprev e = Some r -> on_chain st p r.
Proof.
  intros [n Hn] He Hr. exists (n + 1)%nat. rewrite parent_n_add, Hn. cbn [mbind option_bind parent_n].
  rewrite lookup_entries, He. cbn. by rewrite Hr.
Qed.

Lemma chain_all_on G st p q : chain_all G st p -> on_chain st p q -> chain_all G st q.
Proof.
  intros Hp [n Hn]. revert p Hp Hn. induction n as [|n IH]; intros p Hp Hn; [cbn in Hn; by injection Hn as <-|].
  cbn [parent_n] in Hn. rewrite lookup_entries in Hn. destruct (chain_all_self G st p Hp) as (e & He & _). rewrite He in Hn.
  cbn in Hn. destruct (px_pprev e) as [r|] eqn:Er; [|done]. cbn in Hn. eapply IH; [|exact Hn]. by eapply chain_all_prev.
Qed.

Lemma valid_usable connect st p : valid connect st p -> usable st p.
Proof. apply chain_all_mono. intros q e He _ [Hg _]. by exists e. Qed.

(** ** Entries that differ in their status only *)
Definition core (e : BlockNode) : BlockNode := set_nStatus 0 (set_nUndoPos 0 e).

Definition like (st st' : NodeStore) : Prop := forall p, core <$> st' !! p = core <$> st !! p.

Lemma like_lookup st st' p e : like st st' -> st !! p = Some e -> exists e', st' !! p = Some e' /\ core e' = core e.
Proof. intros Hl He. specialize (Hl p). rewrite He in Hl. destruct (st' !! p) as [e'|]; [|done]. apply Some_inj in Hl. by exists e'. Qed.

Lemma like_sym st st' : like st st' -> like st' st.
Proof. intros H p. by rewrite H. Qed.

Lemma like_trans st1 st2 st3 : like st1 st2 -> like st2 st3 -> like st1 st3.
Proof. intros H1 H2 p. by rewrite H2. Qed.

Lemma core_fields e e' : core e' = core e ->
  px_pprev e' = px_pprev e /\ px_pskip e' = px_pskip e /\ px_nHeight e' = px_nHeight e /\ px_nChainWork e' = px_nChainWork e
  /\ px_nChainDelay e' = px_nChainDelay e /\ px_nSequenceId e' = px_nSequenceId e /\ px_nChainTx e' = px_nChainTx e
  /\ px_phashBlock e' = px_phashBlock e.
Proof. destruct e, e'. cbn. intros [= -> -> -> -> -> -> -> -> -> -> -> -> -> -> -> -> -> -> -> -> -> -> ->]. done. Qed.

Lemma like_entries st st' : like st st' -> entries st' = entries st.
Proof.
  intros Hl. apply map_eq. intros p. rewrite !lookup_entries. specialize (Hl p).
  destruct (st !! p) as [e|], (st' !! p) as [e'|]; try done. apply Some_inj in Hl.
  cbn [fmap option_fmap option_map]. destruct (core_fields e e' Hl) as (H1 & H2 & H3 & _ & _ & _ & _ & H4). unfold entry_of. by rewrite H1, H2, H3, H4.
Qed.

Lemma on_chain_like st st' p q : like st st' -> on_chain st p q -> on_chain st' p q.
Proof. intros L [n Hn]. exists n. by rewrite (like_entries st st' L). Qed.

Lemma like_worse st st' p q : like st st' -> worse st' p q = worse st p q.
Proof.
  intros Hl. unfold worse. pose proof (Hl p) as Hp. pose proof (Hl q) as Hq.
  destruct (st !! p) as [a|], (st' !! p) as [a'|]; try done. destruct (st !! q) as [b|], (st' !! q) as [b'|]; try done.
  apply Some_inj in Hp as Ha. apply Some_inj in Hq as Hb. destruct (core_fields a a' Ha) as (_ & _ & _ & H1 & H2 & H3 & _).
  destruct (core_fields b b' Hb) as (_ & _ & _ & H4 & H5 & H6 & _). unfold WorkComparator, RealWorkComparator.
  by rewrite H1, H2, H3, H4, H5, H6.
Qed.

Lemma like_insert st p e e' : st !! p = Some e -> core e' = core e -> like st (<[p := e']> st).
Proof.
  intros He Hc q. destruct (decide (q = p)) as [->|Hne]; [|by rewrite lookup_insert_ne].
  rewrite lookup_insert_eq, He. exact (f_equal Some Hc).
Qed.

(** ** Status bits *)
Lemma flag_or_status e bits m : flag (or_status bits e) m = flag e m || negb (Z.land bits m =? 0).
Proof.
  unfold flag, or_status. cbn [px_nStatus set_nStatus]. rewrite Z.land_comm, Z.land_lor_distr_r, !(Z.land_comm m).
  set (x := Z.land (px_nStatus e) m). set (y := Z.land bits m).
  destruct (Z.eqb_spec (Z.lor x y) 0) as [E|E].
  - apply Z.lor_eq_0_iff in E as [-> ->]. done.
  - destruct (Z.eqb_spec x 0) as [E1|]; [|done]. destruct (Z.eqb_spec y 0) as [E2|]; [|done]. by rewrite E1, E2 in E.
Qed.

Lemma flag_RaiseValidity n e m : Z.land n m = 0 -> Z.land (2 ^ 32 - 1 - BLOCK_VALID_MASK) m = m ->
  flag (RaiseValidity n e) m = flag e m.
Proof.
  intros Hn Hm. unfold RaiseValidity. destruct (flag e BLOCK_FAILED_MASK); [done|]. destruct (validity e <? n); [|done].
  unfold flag. cbn [px_nStatus set_nStatus].
  rewrite Z.land_comm, Z.land_lor_distr_r, (Z.land_comm m n), Hn, Z.lor_0_r, Z.land_comm, <- Z.land_assoc, Hm. done.
Qed.

Lemma good_or_failed e bits : bits = BLOCK_FAILED_VALID \/ bits = BLOCK_FAILED_CHILD -> good (or_status bits e) = false
  /\ flag (or_status bits e) BLOCK_FAILED_MASK = true.
Proof.
  intros Hb. assert (Hf : flag (or_status bits e) BLOCK_FAILED_MASK = true).
  { rewrite flag_or_status. destruct Hb as [-> | ->]; apply orb_true_r. }
  split; [|done]. unfold good. rewrite Hf. by rewrite andb_false_r.
Qed.

Lemma core_or_status bits e : core (or_status bits e) = core e.
Proof. by destruct e. Qed.

Lemma core_RaiseValidity n e : core (RaiseValidity n e) = core e.
Proof. unfold RaiseValidity. repeat case_match; done || by destruct e. Qed.

(** ** The invariant of the tree *)
Section Tree.
  Context (connect : ptr -> verdict).

(** the last three conditions say that the candidates are linked entries and that the
    usable entries that no valid entry beats are among them; [CheckBlockIndex] of
    [main.cpp] asserts the stronger fact that every usable entry not worse than the
    tip is a candidate *)
Record Inv (t : Tree) : Prop := {
  inv_store : store_ok (entries (t_nodes t));
  inv_works : works_ok (t_nodes t);
  inv_mono : forall p e q e', t_nodes t !! p = Some e -> px_pprev e = Some q -> t_nodes t !! q = Some e' ->
    arith_value (px_nChainWork e') < arith_value (px_nChainWork e);
  inv_genesis : forall p e q e', t_nodes t !! p = Some e -> t_nodes t !! q = Some e' ->
    px_pprev e = None -> px_pprev e' = None -> p = q;
  inv_path : path_ok (entries (t_nodes t)) (t_chain t);
  inv_tip : exists p, tip t = Some p /\ valid connect (t_nodes t) p;
  inv_link : forall p e q e', t_nodes t !! p = Some e -> px_pprev e = Some q -> t_nodes t !! q = Some e' ->
    px_nChainTx e <> 0 -> px_nChainTx e' <> 0;
  inv_invalid : forall p, t_bestInvalid t = Some p -> is_Some (t_nodes t !! p);
  inv_cand : forall p, p ∈ t_candidates t -> exists e, t_nodes t !! p = Some e /\ px_nChainTx e <> 0;
  inv_best : forall p, usable (t_nodes t) p -> (forall b, valid connect (t_nodes t) b -> no_better (t_nodes t) b p) ->
    p ∈ t_candidates t }.

(** what the search and the activation do to the entries: status bits change, a failure
    is never taken back, and no valid chain is touched *)
Record evolves (st st' : NodeStore) : Prop := {
  ev_like : like st st';
  ev_usable : forall p, usable st' p -> usable st p;
  ev_valid : forall p, valid connect st' p <-> valid connect st p;
  ev_failed : forall p e e', st !! p = Some e -> st' !! p = Some e' ->
    flag e BLOCK_FAILED_MASK = true -> flag e' BLOCK_FAILED_MASK = true }.

(** and no usable chain is touched *)
Definition steady (st st' : NodeStore) : Prop := evolves st st' /\ forall p, usable st p -> usable st' p.

Lemma evolves_refl st : evolves st st.
Proof. split; try done. intros; simplify_eq; done. Qed.

Lemma evolves_trans st1 st2 st3 : evolves st1 st2 -> evolves st2 st3 -> evolves st1 st3.
Proof.
  intros [L1 U1 V1 F1] [L2 U2 V2 F2]. split; [by eapply like_trans|auto|intros p; by rewrite V2|].
  intros p e e3 H1 H3 Hf. destruct (like_lookup st1 st2 p e L1 H1) as (e2 & H2 & _). eauto.
Qed.

Lemma steady_refl st : steady st st.
Proof. split; [apply evolves_refl|done]. Qed.

Lemma steady_trans st1 st2 st3 : steady st1 st2 -> steady st2 st3 -> steady st1 st3.
Proof. intros [E1 U1] [E2 U2]. split; [by eapply evolves_trans|auto]. Qed.

(** a new status for one entry *)
Lemma evolves_insert st p e e' :
  st !! p = Some e -> core e' = core e -> (good e' = true -> good e = true) ->
  (flag e BLOCK_FAILED_MASK = true -> flag e' BLOCK_FAILED_MASK = true) ->
  (good e' = good e \/ ~ valid connect st p) -> evolves st (<[p := e']> st).
Proof.
  intros He Hc Hg Hf Hv. pose proof (core_fields e e' Hc) as (Hprev & _).
  assert (Hsplit : forall q x, <[p := e']> st !! q = Some x -> q = p /\ x = e' \/ q <> p /\ st !! q = Some x).
  { intros q x. destruct (decide (q = p)) as [->|Hne]; [rewrite lookup_insert_eq; intros [= <-]; auto|rewrite lookup_insert_ne by done; auto]. }
  split; [by eapply like_insert| | |].
  - apply chain_all_mono. intros q x Hx _ Hgx. destruct (Hsplit q x Hx) as [[-> ->]|[Hne Hx']]; [|eauto]. exists e. auto.
  - intros x. split.
    + apply chain_all_mono. intros q y Hy _ [Hgy Hcy]. destruct (Hsplit q y Hy) as [[-> ->]|[Hne Hy']]; [|eauto]. exists e. auto.
    + apply chain_all_mono. intros q y Hy Hall [Hgy Hcy]. destruct (decide (q = p)) as [->|Hne].
      * assert (y = e) as -> by congruence. exists e'. rewrite lookup_insert_eq. destruct Hv as [Hv|Hv]; [by rewrite Hv|by destruct (Hv Hall)].
      * exists y. by rewrite lookup_insert_ne.
  - intros q x x' Hx Hx' Hfx. destruct (Hsplit q x' Hx') as [[-> ->]|[Hne Hx2]]; simplify_eq; auto.
Qed.

Lemma steady_insert st p e e' :
  st !! p = Some e -> core e' = core e -> (good e' = true -> good e = true) ->
  (flag e BLOCK_FAILED_MASK = true -> flag e' BLOCK_FAILED_MASK = true) ->
  (good e' = good e \/ ~ usable st p) -> steady st (<[p := e']> st).
Proof.
  intros He Hc Hg Hf Hu. split.
  { eapply evolves_insert; try done. destruct Hu as [|Hu]; [by left|right]. intros Hv. by apply Hu, (valid_usable connect). }
  pose proof (core_fields e e' Hc) as (Hprev & _). apply chain_all_mono. intros q y Hy Hall Hgy. destruct (decide (q = p)) as [->|Hne].
  - assert (y = e) as -> by congruence. exists e'. rewrite lookup_insert_eq. destruct Hu as [Hu|Hu]; [by rewrite Hu|by destruct (Hu Hall)].
  - exists y. by rewrite lookup_insert_ne.
Qed.

Lemma like_chain_all_some st st' p : like st st' -> is_Some (st !! p) -> is_Some (st' !! p).
Proof. intros Hl [e He]. destruct (like_lookup st st' p e Hl He) as (e' & He' & _). by exists e'. Qed.

Lemma no_better_like st st' p q : like st st' -> no_better st' p q <-> no_better st p q.
Proof. intros Hl. unfold no_better. by rewrite (like_worse st st'). Qed.

(** the invariant after the entries evolved, with fewer candidates *)
Lemma Inv_evolves t t' :
  Inv t -> evolves (t_nodes t) (t_nodes t') -> t_chain t' = t_chain t ->
  (forall p, t_bestInvalid t' = Some p -> is_Some (t_nodes t !! p)) ->
  (forall p, p ∈ t_candidates t' -> p ∈ t_candidates t) ->
  (forall p, usable (t_nodes t') p -> (forall b, valid connect (t_nodes t) b -> no_better (t_nodes t) b p) ->
     p ∈ t_candidates t -> p ∈ t_candidates t') ->
  Inv t'.
Proof.
  intros [H1 H2 H3 H4 H5 H6 H7 H8 H9 H10] Ev Hch Hinv Hsub Hkeep. pose proof Ev as [L U V F].
  pose proof (like_entries _ _ L) as HE. pose proof (like_sym _ _ L) as L'.
  assert (Hback : forall p e', t_nodes t' !! p = Some e' -> exists e, t_nodes t !! p = Some e /\ core e' = core e).
  { intros p e' He'. destruct (like_lookup _ _ p e' L' He') as (e & He & Hc). by exists e. }
  split.
  - by rewrite HE.
  - intros p e' He'. destruct (Hback p e' He') as (e & He & Hc). destruct (core_fields e e' Hc) as (_ & _ & _ & -> & _). eauto.
  - intros p e' q f' He' Hq Hf'. destruct (Hback p e' He') as (e & He & Hc). destruct (Hback q f' Hf') as (f & Hf & Hcf).
    destruct (core_fields e e' Hc) as (Hp & _ & _ & -> & _). destruct (core_fields f f' Hcf) as (_ & _ & _ & -> & _).
    rewrite Hp in Hq. eauto.
  - intros p e' q f' He' Hf' Hp Hq. destruct (Hback p e' He') as (e & He & Hc). destruct (Hback q f' Hf') as (f & Hf & Hcf).
    destruct (core_fields e e' Hc) as (Hp' & _). destruct (core_fields f f' Hcf) as (Hq' & _).
    rewrite Hp' in Hp. rewrite Hq' in Hq. eauto.
  - by rewrite HE, Hch.
  - destruct H6 as (p & Hp & Hv). exists p. unfold tip in *. rewrite Hch, V. done.
  - intros p e' q f' He' Hq Hf'. destruct (Hback p e' He') as (e & He & Hc). destruct (Hback q f' Hf') as (f & Hf & Hcf).
    destruct (core_fields e e' Hc) as (Hp & _ & _ & _ & _ & _ & -> & _). destruct (core_fields f f' Hcf) as (_ & _ & _ & _ & _ & _ & -> & _).
    rewrite Hp in Hq. eauto.
  - intros p Hp. eapply like_chain_all_some; [exact L|]. auto.
  - intros p Hp. destruct (H9 p (Hsub p Hp)) as (e & He & Hn). destruct (like_lookup _ _ p e L He) as (e' & He' & Hc).
    exists e'. split; [done|]. by destruct (core_fields e e' Hc) as (_ & _ & _ & _ & _ & _ & -> & _).
  - intros p Hu Hb. assert (Hb' : forall b, valid connect (t_nodes t) b -> no_better (t_nodes t) b p).
    { intros b Hvb. apply (no_better_like _ _ b p L), Hb, V, Hvb. }
    apply Hkeep; [done..|]. apply H10; auto.
Qed.

(** the active chain is the path to its tip *)
Lemma path_tip es v p : path_ok es v -> Tip v = Some p -> exists e, es !! p = Some e /\ 0 <= ie_nHeight e /\ v = path_to es p e.
Proof.
  intros Hv Hp. unfold Tip, Height in Hp. destruct (Z.leb_spec 0 (vsize v - 1)) as [Hn|]; [|done].
  rewrite chain_at_lookup in Hp by done. unfold vsize in *. destruct (v !! Z.to_nat (Z.of_nat (length v) - 1)) as [x|] eqn:Ex; [|done].
  destruct (Hv _ _ Ex) as (q & e & -> & He & Hh & Hj). injection Hp as ->. exists e. split; [done|]. split; [lia|].
  apply list_eq. intros i. rewrite lookup_path_to. case_decide as Hi.
  - apply Hj. lia.
  - apply lookup_ge_None_2. lia.
Qed.

Lemma path_to_tip es p e : store_ok es -> es !! p = Some e -> Tip (path_to es p e) = Some p.
Proof.
  intros Hst Hp. pose proof (ok_height _ _ _ (Hst _ _ Hp)). unfold Tip, Height.
  assert (Hl : vsize (path_to es p e) = ie_nHeight e + 1) by (unfold vsize, path_to; rewrite length_map, length_seq; lia).
  rewrite Hl, (proj2 (Z.leb_le _ _)) by lia. rewrite chain_at_lookup by lia. rewrite lookup_path_to, decide_True by lia.
  rewrite Z2Nat.id by lia. replace (ie_nHeight e + 1 - 1) with (ie_nHeight e) by lia. by rewrite (ancestor_self es p e).
Qed.

(** ** Rules for the monad *)
Lemma wp_node p e Q t : t_nodes t !! p = Some e -> Q e t -> wp (node p) Q t.
Proof. intros He HQ. unfold wp, node. by rewrite He. Qed.

Lemma wp_update p f e Q t : t_nodes t !! p = Some e -> Q tt (with_nodes (<[p := f e]> (t_nodes t)) t) -> wp (update p f) Q t.
Proof. intros He HQ. unfold update. apply wp_bind. by apply (wp_node p e). Qed.

Lemma wp_lift {A} (r : res A) a Q (t : Tree) : r = Ok a -> Q a t -> wp (lift r) Q t.
Proof. intros ->. done. Qed.

(** ** The search *)
(** what the search leaves as it was *)
Record search_step (t t' : Tree) : Prop := {
  ss_steady : steady (t_nodes t) (t_nodes t');
  ss_chain : t_chain t' = t_chain t;
  ss_invalid : forall p, t_bestInvalid t' = Some p -> is_Some (t_nodes t !! p);
  ss_sub : t_candidates t' ⊆ t_candidates t;
  ss_keep : forall p, p ∈ t_candidates t -> usable (t_nodes t) p -> p ∈ t_candidates t' }.

Lemma search_Inv t t' : Inv t -> search_step t t' -> Inv t'.
Proof.
  intros HI [S C I B K]. eapply Inv_evolves; [exact HI|apply S|done|done|set_solver|].
  intros p Hu _ Hc. apply K; [done|]. apply S, Hu.
Qed.

Lemma search_refl t : Inv t -> search_step t t.
Proof. intros HI. split; [apply steady_refl|done|apply HI|done|done]. Qed.

Lemma search_trans t1 t2 t3 : search_step t1 t2 -> search_step t2 t3 -> search_step t1 t3.
Proof.
  intros [S1 C1 I1 B1 K1] [S2 C2 I2 B2 K2]. split; [by eapply steady_trans|congruence| |set_solver|].
  - intros p Hp. apply I2 in Hp. destruct S1 as [[L _ _ _] _]. apply like_sym in L. by eapply like_chain_all_some.
  - intros p Hc Hu. apply K2; [auto|]. by apply S1.
Qed.

Lemma wp_note_invalid p Q t :
  Inv t -> is_Some (t_nodes t !! p) ->
  (forall b, (forall y, b = Some y -> is_Some (t_nodes t !! y)) -> Q tt (with_bestInvalid b t)) -> wp (note_invalid p) Q t.
Proof.
  intros HI [e He] HQ. unfold note_invalid. apply wp_bind, wp_get. destruct (t_bestInvalid t) as [b|] eqn:Eb.
  - destruct (inv_invalid t HI b Eb) as [eb Heb]. apply wp_bind. eapply wp_node; [exact He|]. apply wp_bind. eapply wp_node; [exact Heb|].
    destruct (more_work e eb).
    + apply wp_modify, HQ. intros y [= <-]. by exists e.
    + apply wp_ret. specialize (HQ (Some b) ltac:(intros y [= <-]; by exists eb)). rewrite <- Eb in HQ. by destruct t.
  - apply wp_modify, HQ. intros y [= <-]. by exists e.
Qed.

(** heights and parents *)
Lemma node_height st p e : store_ok (entries st) -> st !! p = Some e ->
  0 <= px_nHeight e
  /\ match px_pprev e with
     | None => px_nHeight e = 0
     | Some r => exists f, st !! r = Some f /\ px_nHeight e = px_nHeight f + 1
     end.
Proof.
  intros Hst He. pose proof (Hst p (entry_of e)) as Hs. rewrite lookup_entries, He in Hs. destruct (Hs eq_refl) as [Hh Hprev _].
  split; [done|]. cbn in Hprev. destruct (px_pprev e) as [r|]; [|done]. destruct Hprev as (er & Her & Hh').
  rewrite lookup_entries in Her. destruct (st !! r) as [f|]; [|done]. injection Her as <-. by exists f.
Qed.

(** an unusable entry leaves the candidates, marked or not *)
Lemma search_mark t p e nodes' unl :
  Inv t -> t_nodes t !! p = Some e -> ~ usable (t_nodes t) p ->
  nodes' = t_nodes t \/ nodes' = <[p := or_status BLOCK_FAILED_CHILD e]> (t_nodes t) ->
  search_step t (with_candidates (t_candidates t ∖ {[p]}) (with_unlinked unl (with_nodes nodes' t))).
Proof.
  intros HI He Hu Hn. split; cbn [t_nodes t_chain t_bestInvalid t_candidates with_candidates with_unlinked with_nodes]; [|done|apply HI|set_solver|].
  - destruct Hn as [-> | ->]; [apply steady_refl|]. destruct (good_or_failed e BLOCK_FAILED_CHILD) as [Hg Hf]; [by right|].
    eapply steady_insert; [exact He|apply core_or_status|by rewrite Hg|done|by right].
  - intros q Hq Huq. apply elem_of_difference. split; [done|]. intros ->%elem_of_singleton. done.
Qed.

Lemma wp_remove_chain fuel t p q failed Q :
  Inv t -> on_chain (t_nodes t) p q -> ~ usable (t_nodes t) q ->
  (forall e, t_nodes t !! p = Some e -> px_nHeight e < Z.of_nat fuel) -> is_Some (t_nodes t !! p) ->
  (forall t', search_step t t' -> (p <> q -> p ∉ t_candidates t') -> Q tt t') ->
  wp (remove_chain fuel p q failed) Q t.
Proof.
  revert t p Q. induction fuel as [|fuel IH]; intros t p Q HI Hon Hq Hfuel [e He] HQ.
  { specialize (Hfuel e He). destruct (node_height _ p e (inv_store t HI) He). lia. }
  cbn [remove_chain]. destruct (Z.eqb_spec p q) as [->|Hne]; [apply wp_ret, HQ; [by apply search_refl|done]|].
  apply wp_bind. eapply wp_node; [exact He|].
  assert (Hup : ~ usable (t_nodes t) p) by (intros Hu; by eapply Hq, chain_all_on).
  destruct Hon as [[|n] Hn]; [cbn in Hn; congruence|]. cbn [parent_n] in Hn. rewrite lookup_entries, He in Hn. cbn in Hn.
  destruct (px_pprev e) as [r|] eqn:Er; [|done]. cbn in Hn.
  destruct (node_height _ p e (inv_store t HI) He) as [_ Hprev]. rewrite Er in Hprev. destruct Hprev as (f & Ef & Hh).
  assert (Hgo : forall nodes' unl, nodes' = t_nodes t \/ nodes' = <[p := or_status BLOCK_FAILED_CHILD e]> (t_nodes t) ->
    wp (remove_chain fuel r q failed) Q (with_candidates (t_candidates t ∖ {[p]}) (with_unlinked unl (with_nodes nodes' t)))).
  { intros nodes' unl Hnodes. pose proof (search_mark t p e nodes' unl HI He Hup Hnodes) as Hs1. set (t1 := with_candidates _ _) in *.
    pose proof (search_Inv _ _ HI Hs1) as HI1. destruct Hs1 as [St Ch Iv Sub Keep]. pose proof (ev_like _ _ (proj1 St)) as L.
    destruct (like_lookup _ _ r f L Ef) as (f' & Hf' & Hcf). pose proof (core_fields f f' Hcf) as (_ & _ & Hhf & _).
    apply IH; [done| | | | |].
    - exists n. by rewrite (like_entries _ _ L).
    - intros Hu. apply Hq. by apply (ev_usable _ _ (proj1 St)).
    - intros x Hx. assert (x = f') as -> by congruence. specialize (Hfuel e He). lia.
    - by exists f'.
    - intros t' Hs2 _. apply HQ; [by eapply search_trans; [split|]; eauto|]. intros _ Hin. apply (ss_sub _ _ Hs2) in Hin.
      unfold t1 in Hin. cbn in Hin. set_solver. }
  apply wp_bind. destruct failed.
  - eapply wp_update; [exact He|]. apply wp_bind, wp_modify.
    specialize (Hgo _ (t_unlinked t) (or_intror eq_refl)). by destruct t.
  - apply wp_modify. apply wp_bind, wp_modify.
    specialize (Hgo _ (t_unlinked t ++ [(r, p)]) (or_introl eq_refl)). by destruct t.
Qed.

(** an entry the active chain contains is an ancestor of the tip *)
Lemma wp_contains q e Q t :
  Inv t -> t_nodes t !! q = Some e -> (forall b : bool, (b = true -> usable (t_nodes t) q) -> Q b t) -> wp (contains q) Q t.
Proof.
  intros HI He HQ. unfold contains. apply wp_bind. eapply wp_node; [exact He|]. apply wp_bind, wp_get. apply wp_ret, HQ.
  intros Hb%bool_decide_eq_true. destruct (inv_tip t HI) as (T & HT & Hv). unfold tip in HT.
  destruct (path_tip _ _ T (inv_path t HI) HT) as (eT & HeT & _ & Hch). rewrite Hch in Hb.
  destruct (node_height _ q e (inv_store t HI) He) as [Hh _]. rewrite chain_at_lookup, lookup_path_to in Hb by done.
  case_decide; [|done]. rewrite Z2Nat.id in Hb by done. unfold ancestor in Hb. rewrite HeT in Hb. cbn in Hb.
  eapply chain_all_on; [by eapply valid_usable|]. by eexists.
Qed.

Lemma wp_test_chain fuel t M q Q :
  Inv t -> on_chain (t_nodes t) M q -> (usable (t_nodes t) q -> usable (t_nodes t) M) ->
  (exists e, t_nodes t !! q = Some e /\ px_nChainTx e <> 0 /\ px_nHeight e < Z.of_nat fuel) ->
  is_Some (t_nodes t !! M) ->
  (usable (t_nodes t) M -> Q false t) ->
  (forall t', search_step t t' -> M ∉ t_candidates t' -> Q true t') ->
  wp (test_chain fuel M (Some q)) Q t.
Proof.
  intros HI. revert q. induction fuel as [|fuel IH]; intros q Hon Hup (e & He & Htx & Hf) HM Hgood Hbad.
  { destruct (node_height _ q e (inv_store t HI) He). lia. }
  cbn [test_chain]. apply wp_bind. eapply wp_contains; [done|exact He|]. intros [] Hin; [by apply wp_ret, Hgood, Hup, Hin|].
  apply wp_bind. eapply wp_node; [exact He|]. apply wp_bind. apply wp_massert; [by rewrite (proj2 (Z.eqb_neq _ _) Htx)|].
  destruct (flag e BLOCK_FAILED_MASK || negb (flag e BLOCK_HAVE_DATA)) eqn:Eg.
  - assert (Hq : ~ usable (t_nodes t) q).
    { intros Hu. destruct (chain_all_self _ _ _ Hu) as (e' & He' & Hg). assert (e' = e) as -> by congruence. unfold good in Hg.
      destruct (flag e BLOCK_FAILED_MASK), (flag e BLOCK_HAVE_DATA); cbn in Eg, Hg; rewrite ?andb_false_r in Hg; done. }
    assert (Hrest : forall t1, search_step t t1 ->
      wp (bind (node M) (fun new => remove_chain (S (Z.to_nat (px_nHeight new))) M q (flag e BLOCK_FAILED_MASK) ;;;
            erase_candidate q ;;; ret true)) Q t1).
    { intros t1 Hs1. pose proof (search_Inv _ _ HI Hs1) as HI1. pose proof (ss_steady _ _ Hs1) as St.
      pose proof (ev_like _ _ (proj1 St)) as L. destruct HM as [eM HeM]. destruct (like_lookup _ _ M eM L HeM) as (eM' & HeM' & _).
      apply wp_bind. eapply wp_node; [exact HeM'|]. apply wp_bind. destruct (node_height _ M eM' (inv_store t1 HI1) HeM') as [HM0 _].
      apply wp_remove_chain; [done| | | |by exists eM'|].
      - destruct Hon as [n Hn]. exists n. by rewrite (like_entries _ _ L).
      - intros Hu. apply Hq. by apply (ev_usable _ _ (proj1 St)).
      - intros x Hx. assert (x = eM') as -> by congruence. lia.
      - intros t2 Hs2 HM2. apply wp_bind. apply wp_modify, wp_ret, Hbad.
        + eapply search_trans; [exact Hs1|]. eapply search_trans; [exact Hs2|]. pose proof (search_Inv _ _ HI1 Hs2) as HI2.
          destruct (like_lookup _ _ q e L He) as (e1 & He1 & _).
          destruct (like_lookup _ _ q e1 (ev_like _ _ (proj1 (ss_steady _ _ Hs2))) He1) as (e2 & He2 & _).
          pose proof (search_mark t2 q e2 (t_nodes t2) (t_unlinked t2) HI2 He2) as Hm. destruct t2. apply Hm; [|by left].
          intros Hu. apply Hq, (ev_usable _ _ (proj1 St)), (ev_usable _ _ (proj1 (ss_steady _ _ Hs2))), Hu.
        + cbn. destruct (decide (M = q)) as [->|Hne]; [set_solver|]. specialize (HM2 Hne). set_solver. }
    apply wp_bind. destruct (flag e BLOCK_FAILED_MASK).
    + apply wp_note_invalid; [done..|]. intros b Hb. apply Hrest. split; [apply steady_refl|done|exact Hb|done|done].
    + apply wp_ret, Hrest. by apply search_refl.
  - apply orb_false_iff in Eg as [Eg1 Eg2%negb_false_iff]. assert (Hg : good e = true).
    { unfold good. by rewrite Eg1, Eg2, (proj2 (Z.eqb_neq _ _) Htx). }
    destruct (node_height _ q e (inv_store t HI) He) as [Hh Hprev]. destruct (px_pprev e) as [r|] eqn:Er.
    + destruct Hprev as (f & Hr & Hhf). apply IH; [by eapply on_chain_prev| | |done..].
      * intros Hu. apply Hup. by eapply chain_next.
      * exists f. split_and!; [done| |lia]. by eapply (inv_link t HI q e r f).
    + destruct fuel; cbn [test_chain]; apply wp_ret, Hgood, Hup; by eapply chain_first.
Qed.

(** there is a best usable entry *)
Lemma usable_dec t p : Inv t -> usable (t_nodes t) p \/ ~ usable (t_nodes t) p.
Proof.
  intros HI. destruct (t_nodes t !! p) as [e0|] eqn:E0.
  2:{ right. intros Hu. destruct (chain_all_self _ _ _ Hu) as (e & He & _). congruence. }
  remember (Z.to_nat (px_nHeight e0)) as n eqn:En. revert p e0 E0 En. induction n as [|n IH]; intros p e He Hn;
    (destruct (node_height _ p e (inv_store t HI) He) as [Hh Hprev]; destruct (good e) eqn:Eg;
     [|right; intros Hu; destruct (chain_all_self _ _ _ Hu) as (e' & He' & Hg); congruence]);
    destruct (px_pprev e) as [r|] eqn:Er; try (left; by eapply chain_first); destruct Hprev as (f & Hf & Hhf).
  - destruct (node_height _ r f (inv_store t HI) Hf). lia.
  - destruct (IH r f Hf) as [Hr|Hr]; [lia|left; by eapply chain_next|right]. intros Hu. apply Hr. by eapply chain_all_prev.
Qed.

Lemma best_usable t : Inv t -> exists m, usable (t_nodes t) m /\ forall p, usable (t_nodes t) p -> no_better (t_nodes t) p m.
Proof.
  intros HI. destruct (inv_tip t HI) as (T & _ & HT%valid_usable).
  assert (Hl : forall l : list ptr, exists m, usable (t_nodes t) m /\ forall p, p ∈ l -> usable (t_nodes t) p -> no_better (t_nodes t) p m).
  { induction l as [|x l (m & Hm & Hmax)]; [exists T; split; [done|set_solver]|]. destruct (usable_dec t x HI) as [Hx|Hx].
    2:{ exists m. split; [done|]. intros p [->|Hp]%elem_of_cons; [done|auto]. }
    destruct (worse (t_nodes t) m x) eqn:Ew.
    - exists x. split; [done|]. intros p [->|Hp]%elem_of_cons Hu; [by left|].
      eapply no_better_trans; [apply HI|apply Hmax; done|by right].
    - exists m. split; [done|]. intros p [->|Hp]%elem_of_cons Hu; [|auto].
      destruct (chain_all_self _ _ _ Hx) as (ex & Hex & _). destruct (chain_all_self _ _ _ Hm) as (em & Hem & _).
      apply not_worse_no_better; [apply HI|by eexists..|done]. }
  destruct (Hl (map_to_list (t_nodes t)).*1) as (m & Hm & Hmax). exists m. split; [done|]. intros p Hu. apply Hmax; [|done].
  destruct (chain_all_self _ _ _ Hu) as (e & He & _). apply list_elem_of_fmap. exists (p, e). split; [done|]. by apply elem_of_map_to_list.
Qed.

Definition is_best (t : Tree) (M : ptr) : Prop :=
  usable (t_nodes t) M /\ forall p, usable (t_nodes t) p -> no_better (t_nodes t) p M.

Lemma best_candidate t M : Inv t -> is_best t M -> M ∈ t_candidates t.
Proof. intros HI [Hu Hmax]. apply (inv_best t HI); [done|]. intros b Hb. by apply Hmax, (valid_usable connect). Qed.

Lemma wp_find_most_work fuel t Q :
  Inv t -> (size (t_candidates t) < fuel)%nat ->
  (forall M t', search_step t t' -> is_best t' M -> Q (Some M) t') -> wp (find_most_work fuel) Q t.
Proof.
  revert t Q. induction fuel as [|fuel IH]; intros t Q HI Hf HQ; [lia|]. cbn [find_most_work]. apply wp_bind, wp_get.
  destruct (best_usable t HI) as (m & Hm & Hmax). pose proof (best_candidate t m HI (conj Hm Hmax)) as Hcm.
  pose proof (greatest_spec (t_nodes t) (inv_works t HI) (elements (t_candidates t))) as Hg.
  specialize (Hg ltac:(intros p Hp%elem_of_elements; destruct (inv_cand t HI p Hp) as (e & He & _); by exists e)).
  destruct (greatest _ _) as [g|].
  2:{ apply elem_of_elements in Hcm. rewrite Hg in Hcm. by apply not_elem_of_nil in Hcm. }
  destruct Hg as [Hin Hgmax]. apply elem_of_elements in Hin. destruct (inv_cand t HI g Hin) as (e & He & Htx).
  apply wp_bind. eapply wp_node; [exact He|]. apply wp_bind.
  apply wp_test_chain; [done|apply on_chain_self|done| |by exists e| |].
  - exists e. split_and!; [done..|]. destruct (node_height _ g e (inv_store t HI) He). lia.
  - intros Hu. apply wp_ret, HQ; [by apply search_refl|]. split; [done|]. intros p Hp.
    eapply no_better_trans; [apply HI|by apply Hmax|]. apply Hgmax. by apply elem_of_elements.
  - intros t' Hs Hnot. apply IH; [by eapply search_Inv| |].
    + assert (size (t_candidates t') < size (t_candidates t))%nat; [|lia]. apply subset_size.
      split; [apply (ss_sub _ _ Hs)|]. set_solver.
    + intros M t'' Hs'. apply HQ. by eapply search_trans.
Qed.

Lemma wp_FindMostWorkChain t Q :
  Inv t -> (forall M t', search_step t t' -> is_best t' M -> Q (Some M) t') -> wp FindMostWorkChain Q t.
Proof. intros HI HQ. unfold FindMostWorkChain. apply wp_bind, wp_get. by apply wp_find_most_work; [|lia|]. Qed.

(** ** The active chain *)
Lemma Inv_chain t q e : Inv t -> t_nodes t !! q = Some e -> valid connect (t_nodes t) q ->
  Inv (with_chain (path_to (entries (t_nodes t)) q (entry_of e)) t) /\ tip (with_chain (path_to (entries (t_nodes t)) q (entry_of e)) t) = Some q.
Proof.
  intros HI He Hv. assert (Hes : entries (t_nodes t) !! q = Some (entry_of e)) by by rewrite lookup_entries, He.
  assert (Htip : tip (with_chain (path_to (entries (t_nodes t)) q (entry_of e)) t) = Some q).
  { unfold tip. cbn [t_chain with_chain]. apply path_to_tip; [apply HI|done]. }
  split; [|done]. destruct HI as [H1 H2 H3 H4 H5 H6 H7 H8 H9 H10].
  split; cbn [t_nodes t_chain t_candidates t_bestInvalid with_chain]; try done; [by apply path_to_ok|by exists q].
Qed.

Lemma tip_path t T : Inv t -> tip t = Some T ->
  exists e, t_nodes t !! T = Some e /\ t_chain t = path_to (entries (t_nodes t)) T (entry_of e) /\ valid connect (t_nodes t) T.
Proof.
  intros HI HT. destruct (path_tip _ _ T (inv_path t HI) HT) as (e & He & _ & Hc). rewrite lookup_entries in He.
  destruct (t_nodes t !! T) as [e'|]; [|done]. injection He as <-. exists e'. split_and!; [done..|].
  destruct (inv_tip t HI) as (T' & HT' & Hv). congruence.
Qed.

Lemma wp_UpdateTip t q e Q : Inv t -> t_nodes t !! q = Some e ->
  Q tt (with_chain (path_to (entries (t_nodes t)) q (entry_of e)) t) -> wp (UpdateTip (Some q)) Q t.
Proof.
  intros HI He HQ. unfold UpdateTip. apply wp_bind, wp_get. apply wp_bind. eapply wp_lift; [|by apply wp_modify].
  apply SetTip_spec; [apply HI|apply HI|]. by rewrite lookup_entries, He.
Qed.

Section Activation.
  Context (undo_pos : ptr -> Z) (disconnect : ptr -> bool).
  Hypothesis connect_decides : forall p, connect p = Connected \/ connect p = Violated false.
  Hypothesis disconnect_works : forall p, disconnect p = true.

Lemma wp_disconnect_to fuel t T F eT eF Q :
  Inv t -> tip t = Some T -> t_nodes t !! T = Some eT -> t_nodes t !! F = Some eF -> on_chain (t_nodes t) T F ->
  px_nHeight eT < Z.of_nat fuel ->
  Q true (with_chain (path_to (entries (t_nodes t)) F (entry_of eF)) t) -> wp (disconnect_to disconnect fuel (Some F)) Q t.
Proof.
  revert t T eT. induction fuel as [|fuel IH]; intros t T eT HI HT HeT HeF Hon Hf HQ.
  { destruct (node_height _ T eT (inv_store t HI) HeT). lia. }
  cbn [disconnect_to]. apply wp_bind, wp_get. rewrite HT. destruct (tip_path t T HI HT) as (e & He & Hch & Hv).
  assert (e = eT) as -> by congruence. case_bool_decide as Heq.
  - injection Heq as ->. assert (eT = eF) as -> by congruence. apply wp_ret. rewrite <- Hch in HQ. by destruct t.
  - destruct Hon as [[|n] Hn]; [cbn in Hn; congruence|]. cbn [parent_n] in Hn. rewrite lookup_entries, HeT in Hn. cbn in Hn.
    destruct (px_pprev eT) as [r|] eqn:Er; [|done]. cbn in Hn.
    destruct (node_height _ T eT (inv_store t HI) HeT) as [Hh Hprev]. rewrite Er in Hprev. destruct Hprev as (f & Hf' & Hhf).
    apply wp_bind. unfold DisconnectTip. apply wp_bind, wp_get. rewrite HT, disconnect_works. apply wp_bind.
    eapply wp_node; [exact HeT|]. apply wp_bind. rewrite Er. eapply wp_UpdateTip; [done|exact Hf'|]. apply wp_ret.
    assert (Hvr : valid connect (t_nodes t) r) by (by eapply chain_all_prev).
    destruct (Inv_chain t r f HI Hf' Hvr) as [HI' Htip']. eapply (IH _ r f); [exact HI'|done|done|done|by exists n|lia|exact HQ].
Qed.

(** ** Blocks to connect *)
(** each entry is the child of the one before *)
Fixpoint ascending (st : NodeStore) (q : ptr) (l : list ptr) : Prop :=
  match l with
  | [] => True
  | p :: l' => (exists e, st !! p = Some e /\ px_pprev e = Some q) /\ ascending st p l'
  end.

Lemma last_default (p q : ptr) l : List.last (p :: l) q = List.last l p.
Proof.
  revert p q. induction l as [|x l IH]; intros p q; [done|].
  change (List.last (x :: l) q = List.last (x :: l) p). by rewrite !IH.
Qed.

Lemma ascending_snoc st q l x e : ascending st q l -> st !! x = Some e -> px_pprev e = Some (List.last l q) -> ascending st q (l ++ [x]).
Proof.
  revert q. induction l as [|p l IH]; intros q Ha Hx Hp; [cbn in *; eauto|].
  destruct Ha as [Hex Ha]. split; [done|]. apply IH; [done..|]. by rewrite Hp, last_default.
Qed.

Lemma ascending_like st st' q l : like st st' -> ascending st q l -> ascending st' q l.
Proof.
  intros Hl. revert q. induction l as [|p l IH]; intros q; [done|]. intros [(e & He & Hp) Ha]. split; [|auto].
  destruct (like_lookup _ _ p e Hl He) as (e' & He' & Hc). exists e'. split; [done|].
  by destruct (core_fields e e' Hc) as [-> _].
Qed.

Lemma ascending_heights st q l : store_ok (entries st) -> ascending st q l -> forall eq, st !! q = Some eq ->
  forall p, p ∈ l -> exists e, st !! p = Some e /\ px_nHeight eq < px_nHeight e.
Proof.
  intros Hst. revert q. induction l as [|x l IH]; intros q Ha eq Hq p Hp; [by apply not_elem_of_nil in Hp|].
  destruct Ha as [(e & He & Hpr) Ha]. destruct (node_height st x e Hst He) as [_ Hprev]. rewrite Hpr in Hprev.
  destruct Hprev as (f & Hf & Hh). assert (f = eq) as -> by congruence.
  apply elem_of_cons in Hp as [->|Hp]; [exists e; split; [done|lia]|].
  destruct (IH x Ha e He p Hp) as (ep & Hep & Hlt). exists ep. split; [done|lia].
Qed.

Lemma wp_to_connect fuel t x e n q eq Q :
  store_ok (entries (t_nodes t)) -> t_nodes t !! x = Some e -> t_nodes t !! q = Some eq ->
  parent_n (entries (t_nodes t)) n x = Some q -> px_nHeight e - px_nHeight eq = Z.of_nat n -> (n < fuel)%nat ->
  (forall l, ascending (t_nodes t) q (rev l) -> List.last (rev l) q = x -> (forall p, p ∈ l -> on_chain (t_nodes t) x p) -> Q l t) ->
  wp (to_connect fuel (Some x) (px_nHeight eq)) Q t.
Proof.
  intros Hst. revert x e n Q. induction fuel as [|fuel IH]; intros x e n Q He Hq Hn Hd Hf HQ; [lia|].
  cbn [to_connect]. apply wp_bind. eapply wp_node; [exact He|]. destruct (Z.eqb_spec (px_nHeight e) (px_nHeight eq)) as [Eh|Eh].
  - apply wp_ret, HQ; [done| |by intros p Hp%not_elem_of_nil]. assert (n = O) as -> by lia. cbn in Hn. by injection Hn.
  - destruct n as [|n]; [lia|]. cbn [parent_n] in Hn. rewrite lookup_entries, He in Hn. cbn in Hn.
    destruct (px_pprev e) as [r|] eqn:Er; [|done]. cbn in Hn. destruct (node_height _ x e Hst He) as [_ Hprev]. rewrite Er in Hprev.
    destruct Hprev as (f & Hf' & Hh). apply wp_bind. eapply (IH r f n); [done|done|done|lia|lia|]. intros l Ha Hl Hon.
    apply wp_ret, HQ; cbn [rev].
    + eapply ascending_snoc; [done|exact He|]. by rewrite Er, Hl.
    + apply last_last.
    + intros p [->|Hp]%elem_of_cons; [apply on_chain_self|]. destruct (Hon p Hp) as [k Hk]. exists (S k). cbn [parent_n].
      rewrite lookup_entries, He. cbn. by rewrite Er.
Qed.

(** ** Candidates worse than the tip *)
Lemma wp_prune_loop fuel t q Q :
  Inv t -> tip t = Some q -> (size (t_candidates t) <= fuel)%nat ->
  (forall c, (forall p, p ∈ c <-> p ∈ t_candidates t /\ worse (t_nodes t) p q = false) -> Q tt (with_candidates c t)) ->
  wp (prune_loop fuel) Q t.
Proof.
  revert t. induction fuel as [|fuel IH]; intros t HI Hq Hf HQ.
  { cbn [prune_loop]. apply wp_ret. specialize (HQ (t_candidates t)). destruct t. apply HQ. cbn in Hf |- *.
    assert (t_candidates = ∅) as -> by (apply size_empty_inv, leibniz_equiv in Hf || (apply leibniz_equiv, size_empty_inv; lia)). set_solver. }
  cbn [prune_loop]. apply wp_bind, wp_get.
  pose proof (least_spec (t_nodes t) (inv_works t HI) (elements (t_candidates t))) as Hl.
  specialize (Hl ltac:(intros p Hp%elem_of_elements; destruct (inv_cand t HI p Hp) as (e & He & _); by exists e)).
  assert (Hdone : (forall p, p ∈ t_candidates t -> worse (t_nodes t) p q = false) -> Q tt t).
  { intros Hall. specialize (HQ (t_candidates t)). destruct t. apply HQ. intros p. split; [auto|by intros [? _]]. }
  destruct (least _ _) as [g|].
  2:{ apply wp_ret, Hdone. intros p Hp%elem_of_elements. rewrite Hl in Hp. by apply not_elem_of_nil in Hp. }
  destruct Hl as [Hin%elem_of_elements Hmin]. rewrite Hq. destruct (worse (t_nodes t) g q) eqn:Ew.
  - apply wp_bind, wp_modify. apply IH; [|done| |].
    + eapply Inv_evolves; [exact HI|apply evolves_refl|done|apply HI|cbn; set_solver|]. cbn. intros p _ Hb Hp.
      apply elem_of_difference. split; [done|]. intros ->%elem_of_singleton. destruct (tip_path t q HI Hq) as (_ & _ & _ & Hv).
      pose proof (no_better_not_worse _ (inv_works t HI) _ _ (Hb q Hv)). congruence.
    + cbn. rewrite size_difference by set_solver. rewrite size_singleton. lia.
    + cbn. intros c Hc. apply HQ. intros p. rewrite Hc, elem_of_difference, elem_of_singleton. split; [tauto|].
      intros [H1 H2]. split_and!; [done| |done]. intros ->. congruence.
  - apply wp_ret, Hdone. intros p Hp. destruct (worse (t_nodes t) p q) eqn:Ep; [|done].
    destruct (Hmin p) as [->|Hgp]; [by apply elem_of_elements|congruence|].
    pose proof (worse_trans _ (inv_works t HI) _ _ _ Hgp Ep). congruence.
Qed.

Lemma wp_Prune t q M Q :
  Inv t -> tip t = Some q -> is_best t M ->
  (forall c, Inv (with_candidates c t) -> Q tt (with_candidates c t)) -> wp PruneBlockIndexCandidates Q t.
Proof.
  intros HI Hq HM HQ. unfold PruneBlockIndexCandidates. apply wp_bind, wp_get. apply wp_bind.
  eapply wp_prune_loop; [done|exact Hq|done|]. intros c Hc. apply wp_bind, wp_get.
  destruct (tip_path t q HI Hq) as (_ & _ & _ & Hv). assert (HMc : M ∈ c).
  { apply Hc. split; [by apply best_candidate|]. apply (no_better_not_worse _ (inv_works t HI)).
    by apply HM, (valid_usable connect). }
  apply wp_massert; [apply bool_decide_eq_true; cbn; set_solver|]. apply HQ.
  eapply Inv_evolves; [exact HI|apply evolves_refl|done|apply HI|cbn; intros p Hp; by apply Hc|]. cbn.
  intros p _ Hb Hp. apply Hc. split; [done|]. apply (no_better_not_worse _ (inv_works t HI)). by apply Hb.
Qed.

Lemma is_best_steady t t' M : steady (t_nodes t) (t_nodes t') -> is_best t M -> is_best t' M.
Proof.
  intros [Ev U] [HM Hmax]. split; [auto|]. intros p Hp. apply (no_better_like _ _ _ _ (ev_like _ _ Ev)), Hmax, (ev_usable _ _ Ev), Hp.
Qed.

(** ** Connecting blocks *)
Lemma wp_record_connected t p e Q :
  Inv t -> t_nodes t !! p = Some e ->
  (forall t', Inv t' -> steady (t_nodes t) (t_nodes t') -> t_chain t' = t_chain t -> Q tt t') ->
  wp (record_connected undo_pos p) Q t.
Proof.
  intros HI He HQ. unfold record_connected. apply wp_bind. eapply wp_node; [exact He|]. destruct (_ || _).
  2:{ apply wp_ret, HQ; [done|apply steady_refl|done]. }
  set (e' := RaiseValidity _ _). apply wp_bind. apply wp_modify. apply wp_modify.
  assert (Hc : core e' = core e).
  { unfold e'. rewrite core_RaiseValidity. destruct (pos_IsNull _); [|done]. rewrite core_or_status. by destruct e. }
  assert (Hfl : forall m, Z.land BLOCK_VALID_SCRIPTS m = 0 -> Z.land (2 ^ 32 - 1 - BLOCK_VALID_MASK) m = m -> Z.land BLOCK_HAVE_UNDO m = 0 ->
    flag e' m = flag e m).
  { intros m H1 H2 H3. unfold e'. rewrite flag_RaiseValidity by done. destruct (pos_IsNull _); [|done].
    rewrite flag_or_status, H3. apply orb_false_r. }
  assert (Hg : good e' = good e).
  { unfold good. rewrite !Hfl by done. destruct (core_fields e e' Hc) as (_ & _ & _ & _ & _ & _ & -> & _). done. }
  assert (St : steady (t_nodes t) (<[p := e']> (t_nodes t))).
  { eapply steady_insert; [exact He|done|by rewrite Hg| |by left]. by rewrite Hfl. }
  apply HQ; [|exact St|done]. eapply Inv_evolves; [exact HI|apply St|done|apply HI|done|done].
Qed.

(** one block fails its checks *)
Lemma wp_InvalidBlockFound t p e Q :
  Inv t -> t_nodes t !! p = Some e -> connect p <> Connected ->
  (forall t', Inv t' -> evolves (t_nodes t) (t_nodes t') -> t_nodes t' !! p = Some (or_status BLOCK_FAILED_VALID e) -> Q tt t') ->
  wp (InvalidBlockFound p false) Q t.
Proof.
  intros HI He Hc HQ. unfold InvalidBlockFound. apply wp_bind. eapply wp_update; [exact He|]. apply wp_bind, wp_modify.
  apply wp_bind, wp_modify. destruct (good_or_failed e BLOCK_FAILED_VALID) as [Hg Hf]; [by left|].
  set (nodes' := <[p := or_status BLOCK_FAILED_VALID e]> (t_nodes t)).
  assert (Ev : evolves (t_nodes t) nodes').
  { eapply evolves_insert; [exact He|apply core_or_status|by rewrite Hg|done|right].
    intros Hv. destruct (chain_all_self _ _ _ Hv) as (_ & _ & _ & Hcon). done. }
  assert (Hp : nodes' !! p = Some (or_status BLOCK_FAILED_VALID e)) by apply lookup_insert_eq.
  set (t1 := with_candidates _ _). assert (HI1 : Inv t1).
  { eapply Inv_evolves; [exact HI|exact Ev|done|apply HI|cbn; set_solver|]. cbn. intros q Hu _ Hq.
    apply elem_of_difference. split; [done|]. intros ->%elem_of_singleton. destruct (chain_all_self _ _ _ Hu) as (e' & He' & Hge).
    fold nodes' in He'. rewrite Hp in He'. congruence. }
  unfold InvalidChainFound. apply wp_bind. apply wp_note_invalid; [done|by eexists|]. intros b Hb. apply wp_bind, wp_get.
  destruct (inv_tip t1 HI1) as (T & HT & _).
  apply wp_massert; [apply bool_decide_eq_true; change (tip t1 <> None); congruence|].
  apply HQ; [|exact Ev|exact Hp]. eapply Inv_evolves; [exact HI1|apply evolves_refl|done|exact Hb|done|done].
Qed.

Lemma wp_InvalidChainFound t p Q : Inv t -> is_Some (t_nodes t !! p) ->
  (forall t', Inv t' -> t_nodes t' = t_nodes t -> Q tt t') -> wp (InvalidChainFound p) Q t.
Proof.
  intros HI Hp HQ. unfold InvalidChainFound. apply wp_bind. apply wp_note_invalid; [done..|]. intros b Hb. apply wp_bind, wp_get.
  destruct (inv_tip t HI) as (T & HT & _). apply wp_massert; [apply bool_decide_eq_true; change (tip t <> None); congruence|].
  apply HQ; [|done]. eapply Inv_evolves; [exact HI|apply evolves_refl|done|exact Hb|done|done].
Qed.

(** an entry that had no failure has one *)
Definition newly_failed (st st' : NodeStore) : Prop :=
  exists x e e', st !! x = Some e /\ flag e BLOCK_FAILED_MASK = false /\ st' !! x = Some e' /\ flag e' BLOCK_FAILED_MASK = true.

Lemma newly_failed_before st st1 st' : evolves st st1 -> newly_failed st1 st' -> newly_failed st st'.
Proof.
  intros Ev (x & e1 & e' & He1 & Hf1 & He' & Hf').
  destruct (like_lookup _ _ x e1 (like_sym _ _ (ev_like _ _ Ev)) He1) as (e & He & _). exists x, e, e'. split_and!; [done| |done..].
  destruct (flag e BLOCK_FAILED_MASK) eqn:Ef; [|done]. by rewrite (ev_failed _ _ Ev x e e1 He He1 Ef) in Hf1.
Qed.

(** how far a list of blocks, or the rounds over them, may get *)
Definition reached (t : Tree) (q : ptr) (l : list ptr) (r : progress) (t' : Tree) : Prop :=
  Inv t' /\ evolves (t_nodes t) (t_nodes t')
  /\ match r with
     | GoOn => steady (t_nodes t) (t_nodes t') /\ tip t' = Some (List.last l q)
     | Better => steady (t_nodes t) (t_nodes t') /\ exists p, p ∈ l /\ tip t' = Some p
     | InvalidFound => newly_failed (t_nodes t) (t_nodes t')
     | Aborted => False
     end.

Lemma reached_after t t1 q p l r t' : steady (t_nodes t) (t_nodes t1) -> reached t1 p l r t' -> reached t q (p :: l) r t'.
Proof.
  intros St (HI & Ev & Hr). split; [done|]. split; [eapply evolves_trans; [apply St|done]|]. destruct r.
  - destruct Hr as [St' Ht]. split; [by eapply steady_trans|]. by rewrite last_default.
  - destruct Hr as (St' & x & Hx & Ht). split; [by eapply steady_trans|]. exists x. split; [by constructor|done].
  - eapply newly_failed_before; [apply St|exact Hr].
  - done.
Qed.

Lemma wp_connect_list l t q back T M :
  Inv t -> tip t = Some q -> ascending (t_nodes t) q l -> (forall p, p ∈ l -> on_chain (t_nodes t) M p) -> is_best t M ->
  is_Some (t_nodes t !! back) -> is_Some (t_nodes t !! T) ->
  wp (connect_list connect undo_pos l back (Some T)) (reached t q l) t.
Proof.
  revert t q. induction l as [|p l IH]; intros t q HI Hq Ha Hon HM Hback HT.
  { apply wp_ret. split; [done|]. split; [apply evolves_refl|]. split; [apply steady_refl|done]. }
  destruct Ha as [(e & He & Hprev) Ha]. cbn [connect_list]. apply wp_bind. unfold ConnectTip. apply wp_bind.
  eapply wp_node; [exact He|]. apply wp_bind, wp_get. apply wp_bind, wp_massert; [apply bool_decide_eq_true; congruence|].
  assert (Hu : usable (t_nodes t) p) by (eapply chain_all_on; [apply HM|apply Hon; by constructor]).
  destruct (chain_all_self _ _ _ Hu) as (e1 & He1 & Hg). assert (e1 = e) as -> by congruence.
  destruct (connect_decides p) as [Hc|Hc]; rewrite Hc.
  2:{ apply wp_bind. eapply wp_InvalidBlockFound; [done|exact He|congruence|]. intros t1 HI1 Ev Hp1. apply wp_ret. apply wp_bind.
      apply wp_InvalidChainFound; [done|eapply like_chain_all_some; [apply Ev|done]|]. intros t2 HI2 Hn2. apply wp_ret.
      split; [done|]. rewrite Hn2. split; [done|]. exists p, e, (or_status BLOCK_FAILED_VALID e). split_and!; [done| |done|].
      - unfold good in Hg. apply andb_true_iff in Hg as [Hg _]. apply andb_true_iff in Hg as [_ Hg]. by apply negb_true_iff.
      - apply good_or_failed. by left. }
  apply wp_bind. eapply wp_record_connected; [done|exact He|]. intros t1 HI1 St1 Hch1. pose proof (ev_like _ _ (proj1 St1)) as L1.
  destruct (like_lookup _ _ p e L1 He) as (e' & He' & Hce). pose proof (core_fields e e' Hce) as (Hpr' & _).
  apply wp_bind. eapply wp_UpdateTip; [done|exact He'|].
  assert (Hv : valid connect (t_nodes t1) p).
  { apply (ev_valid _ _ (proj1 St1)). destruct (tip_path t q HI Hq) as (_ & _ & _ & Hvq). by eapply chain_next. }
  destruct (Inv_chain t1 p e' HI1 He' Hv) as [HI2 Htip2]. set (t2 := with_chain _ t1) in *. apply wp_ret. apply wp_bind.
  assert (HM2 : is_best t2 M) by by eapply (is_best_steady t).
  eapply wp_Prune; [done|exact Htip2|exact HM2|]. intros c HI3. set (t3 := with_candidates c t2) in *. apply wp_bind, wp_get.
  change (tip t3) with (tip t2). rewrite Htip2. apply wp_bind. eapply wp_node; [exact He'|]. apply wp_bind.
  destruct (like_chain_all_some _ _ T L1 HT) as [eT HeT]. eapply wp_node; [exact HeT|].
  destruct (more_work e' eT).
  - apply wp_ret. split; [done|]. split; [apply St1|]. split; [exact St1|]. exists p. split; [by constructor|done].
  - eapply wp_mono; [apply (IH t3 p)|intros r t4; apply (reached_after t t3); exact St1].
    + done.
    + done.
    + by eapply ascending_like.
    + intros x Hx. eapply on_chain_like; [exact L1|]. apply Hon. by constructor.
    + done.
    + by eapply like_chain_all_some.
    + by exists eT.
Qed.

Lemma on_chain_trans st p q r : on_chain st p q -> on_chain st q r -> on_chain st p r.
Proof. intros [n Hn] [m Hm]. exists (n + m)%nat. by rewrite parent_n_add, Hn. Qed.

Lemma ancestor_on st p q h : ancestor (entries st) p h = Some q -> on_chain st p q.
Proof. unfold ancestor. destruct (entries st !! p); [|done]. intros Hn. by eexists. Qed.

Lemma on_ancestor st p e q f : store_ok (entries st) -> st !! p = Some e -> st !! q = Some f -> on_chain st p q ->
  ancestor (entries st) p (px_nHeight f) = Some q /\ px_nHeight f <= px_nHeight e.
Proof.
  intros Hst He Hf [n Hn]. unfold ancestor. rewrite lookup_entries, He. cbn.
  cut (px_nHeight e - px_nHeight f = Z.of_nat n); [intros Hd; rewrite Hd, Nat2Z.id; split; [done|lia]|].
  revert p e He Hn. induction n as [|n IH]; intros p e He Hn.
  { cbn in Hn. injection Hn as ->. assert (e = f) as -> by congruence. lia. }
  cbn [parent_n] in Hn. rewrite lookup_entries, He in Hn. cbn in Hn. destruct (node_height st p e Hst He) as [_ Hp].
  destruct (px_pprev e) as [r|]; [|done]. destruct Hp as (g & Hg & Hh). specialize (IH r g Hg Hn). lia.
Qed.

(** how far the rounds got towards [M] from height [h] *)
Definition advanced (t : Tree) (M : ptr) (h : Z) (r : progress) (t' : Tree) : Prop :=
  Inv t' /\ evolves (t_nodes t) (t_nodes t')
  /\ match r with
     | GoOn => steady (t_nodes t) (t_nodes t') /\ tip t' = Some M
     | Better => steady (t_nodes t) (t_nodes t')
         /\ exists p e, tip t' = Some p /\ t_nodes t' !! p = Some e /\ on_chain (t_nodes t') M p /\ h < px_nHeight e
     | InvalidFound => newly_failed (t_nodes t) (t_nodes t')
     | Aborted => False
     end.

Lemma advanced_after t t1 M h h1 r t' : steady (t_nodes t) (t_nodes t1) -> h <= h1 -> advanced t1 M h1 r t' -> advanced t M h r t'.
Proof.
  intros St Hh (HI & Ev & Hr). split; [done|]. split; [eapply evolves_trans; [apply St|done]|]. destruct r.
  - destruct Hr as [St' Ht]. split; [by eapply steady_trans|done].
  - destruct Hr as (St' & p & e & Ht & He & Hon & Hlt). split; [by eapply steady_trans|]. exists p, e. split_and!; [done..|lia].
  - eapply newly_failed_before; [apply St|exact Hr].
  - done.
Qed.

Lemma wp_connect_rounds fuel t q eq M eM T :
  Inv t -> tip t = Some q -> t_nodes t !! q = Some eq -> t_nodes t !! M = Some eM -> on_chain (t_nodes t) M q -> is_best t M ->
  is_Some (t_nodes t !! T) -> px_nHeight eM - px_nHeight eq < Z.of_nat fuel ->
  wp (connect_rounds connect undo_pos fuel M (px_nHeight eM) (px_nHeight eq) (Some T)) (advanced t M (px_nHeight eq)) t.
Proof.
  revert t q eq eM. induction fuel as [|fuel IH]; intros t q eq eM HI Hq Heq HeM Hon HM HT Hf;
    destruct (on_ancestor _ M eM q eq (inv_store t HI) HeM Heq Hon) as [Han Hle]; [lia|].
  cbn [connect_rounds]. destruct (Z.eqb_spec (px_nHeight eq) (px_nHeight eM)) as [Eh|Eh].
  { apply wp_ret. split; [done|]. split; [apply evolves_refl|]. split; [apply steady_refl|]. rewrite Hq. f_equal.
    rewrite Eh in Han. unfold ancestor in Han. rewrite lookup_entries, HeM in Han. cbn in Han. rewrite Z.sub_diag in Han. by injection Han. }
  set (target := Z.min _ _). assert (Ht : px_nHeight eq < target <= px_nHeight eM) by lia. clearbody target.
  pose proof (proj1 (node_height _ q eq (inv_store t HI) Heq)) as Hq0.
  assert (HesM : entries (t_nodes t) !! M = Some (entry_of eM)) by by rewrite lookup_entries, HeM.
  destruct (ancestor_some _ (inv_store t HI) M _ target HesM) as (x & ex' & Hx & Hex & Hhx); [cbn; lia|].
  apply wp_bind, wp_get. apply wp_bind. eapply wp_lift; [by apply GetAncestor_spec; [apply HI|]|].
  cbn [ie_nHeight entry_of]. rewrite (proj2 (Z.leb_le 0 target)), (proj2 (Z.leb_le target _)) by lia. cbn [andb]. rewrite Hx.
  pose proof Hex as Hex0. rewrite lookup_entries in Hex. destruct (t_nodes t !! x) as [ex|] eqn:Hx'; [|done]. injection Hex as <-.
  rewrite (ancestor_trans _ M _ target x _ (px_nHeight eq) HesM Hex0 Hhx Hx) in Han by (cbn; lia).
  pose proof Han as Hpar. unfold ancestor in Hpar. rewrite Hex0 in Hpar. cbn in Hpar, Hhx.
  apply wp_bind. eapply wp_to_connect; [apply HI|exact Hx'|exact Heq|exact Hpar|lia|lia|]. intros l Ha Hl Honl. apply wp_bind.
  assert (Hxon : on_chain (t_nodes t) M x) by (by eapply ancestor_on).
  eapply wp_mono with (Q1 := reached t q (rev l)).
  { destruct (rev l) as [|back l'] eqn:Er; [cbn in Hl; subst x; assert (ex = eq) as -> by congruence; lia|]. rewrite <- Er in *.
    assert (Hin : forall p, p ∈ rev l -> p ∈ l) by (intros p Hp; by apply list_elem_of_In, in_rev, list_elem_of_In in Hp).
    apply wp_connect_list with (M := M); [done..| |done| |done].
    - intros p Hp. eapply on_chain_trans; [exact Hxon|auto].
    - rewrite Er in Ha. destruct Ha as [(e & He & _) _]. by exists e. }
  intros r t1 (HI1 & Ev1 & Hr). destruct r.
  - destruct Hr as [St1 Ht1]. rewrite Hl in Ht1. pose proof (ev_like _ _ Ev1) as L1.
    destruct (like_lookup _ _ x ex L1 Hx') as (ex1 & Hex1 & Hc1). destruct (like_lookup _ _ M eM L1 HeM) as (eM1 & HeM1 & HcM1).
    destruct (core_fields _ _ Hc1) as (_ & _ & Hh1 & _). destruct (core_fields _ _ HcM1) as (_ & _ & HhM1 & _).
    rewrite <- HhM1, <- Hhx, <- Hh1. eapply wp_mono; [eapply (IH t1 x ex1)|intros r t2; apply advanced_after; [done|lia]].
    + done. + done. + done. + done. + by eapply on_chain_like. + by eapply is_best_steady. + by eapply like_chain_all_some. + lia.
  - destruct Hr as (St1 & p & Hp & Ht1). apply wp_ret. split; [done|]. split; [done|]. split; [done|].
    destruct (ascending_heights _ q (rev l) (inv_store t HI) Ha eq Heq p Hp) as (ep & Hep & Hlt).
    destruct (like_lookup _ _ p ep (ev_like _ _ Ev1) Hep) as (ep1 & Hep1 & Hc1). destruct (core_fields _ _ Hc1) as (_ & _ & Hh1 & _).
    exists p, ep1. split_and!; [done..| |lia]. eapply on_chain_like; [apply Ev1|]. eapply on_chain_trans; [exact Hxon|]. apply Honl.
    by apply list_elem_of_In, in_rev, list_elem_of_In in Hp.
  - apply wp_ret. by split.
  - done.
Qed.

(** the fork of the best chain with the active one *)
Lemma fork_with t M eM T eT :
  Inv t -> tip t = Some T -> t_nodes t !! T = Some eT -> t_nodes t !! M = Some eM ->
  exists F eF, FindFork (entries (t_nodes t)) (t_chain t) M = Ok (Some F) /\ t_nodes t !! F = Some eF
    /\ on_chain (t_nodes t) M F /\ on_chain (t_nodes t) T F /\ (on_chain (t_nodes t) M T -> px_nHeight eT <= px_nHeight eF).
Proof.
  intros HI HT HeT HeM. assert (HesM : entries (t_nodes t) !! M = Some (entry_of eM)) by by rewrite lookup_entries, HeM.
  assert (HesT : entries (t_nodes t) !! T = Some (entry_of eT)) by by rewrite lookup_entries, HeT.
  destruct (tip_path t T HI HT) as (e & He & Hch & _). assert (e = eT) as -> by congruence.
  assert (Hat : forall h, 0 <= h <= px_nHeight eT -> chain_at (t_chain t) h = ancestor (entries (t_nodes t)) T h).
  { intros h Hh. rewrite Hch, chain_at_lookup by lia. rewrite lookup_path_to, decide_True by (cbn; lia). by rewrite Z2Nat.id by lia. }
  pose proof (proj1 (node_height _ T eT (inv_store t HI) HeT)) as HT0. pose proof (proj1 (node_height _ M eM (inv_store t HI) HeM)) as HM0.
  destruct (FindFork_spec _ (t_chain t) M _ (inv_store t HI) HesM) as (r & Hr & Hno & Hyes). cbn [ie_nHeight entry_of] in *.
  destruct r as [F|].
  - destruct (Hyes F eq_refl) as (eF' & HeF & HhF & HaF & HcF). rewrite lookup_entries in HeF.
    destruct (t_nodes t !! F) as [eF|] eqn:HeF1; [|done]. injection HeF as <-. cbn [ie_nHeight entry_of] in *. exists F, eF.
    split_and!; [done..|by eapply ancestor_on| |].
    + destruct (Z_le_gt_dec (px_nHeight eF) (px_nHeight eT)) as [Hle|Hgt].
      * rewrite Hat in HcF by lia. by eapply ancestor_on.
      * rewrite Hch, chain_at_lookup, lookup_path_to, decide_False in HcF by (cbn; lia). done.
    + intros HonT. destruct (on_ancestor _ M eM T eT (inv_store t HI) HeM HeT HonT) as [Han Hle].
      destruct (Z_le_gt_dec (px_nHeight eT) (px_nHeight eF)) as [|Hlt]; [done|]. exfalso. apply (Hno (px_nHeight eT)); [lia| |].
      * intros x [= <-] ex Hex. rewrite lookup_entries, HeF1 in Hex. injection Hex as <-. cbn. lia.
      * rewrite Hat, Han by lia. by apply (ancestor_self _ T (entry_of eT)).
  - exfalso. apply (Hno 0); [lia|done|]. rewrite Hat by lia.
    destruct (ancestor_some _ (inv_store t HI) T _ 0 HesT) as (g & eg & -> & Hg & Hhg); [cbn; lia|].
    destruct (ancestor_some _ (inv_store t HI) M _ 0 HesM) as (g' & eg' & -> & Hg' & Hhg'); [cbn; lia|]. f_equal.
    rewrite lookup_entries in Hg, Hg'. destruct (t_nodes t !! g) as [ng|] eqn:Eg; [|done]. destruct (t_nodes t !! g') as [ng'|] eqn:Eg'; [|done].
    injection Hg as <-. injection Hg' as <-. cbn in Hhg, Hhg'. destruct (node_height _ g ng (inv_store t HI) Eg) as [_ P].
    destruct (node_height _ g' ng' (inv_store t HI) Eg') as [_ P'].
    apply (inv_genesis t HI g ng g' ng'); [done..| |].
    + destruct (px_pprev ng); [|done]. destruct P as (f & Hf & Hh). pose proof (proj1 (node_height _ _ f (inv_store t HI) Hf)). lia.
    + destruct (px_pprev ng'); [|done]. destruct P' as (f & Hf & Hh). pose proof (proj1 (node_height _ _ f (inv_store t HI) Hf)). lia.
Qed.

(** one step: either [M] is the tip, or the tip is on its chain and, when it was before, higher, or an entry failed *)
Definition stepped (t : Tree) (M T : ptr) (eT : BlockNode) (t' : Tree) : Prop :=
  Inv t' /\ evolves (t_nodes t) (t_nodes t')
  /\ ((steady (t_nodes t) (t_nodes t') /\ tip t' = Some M)
      \/ (steady (t_nodes t) (t_nodes t')
          /\ exists p e, tip t' = Some p /\ t_nodes t' !! p = Some e /\ on_chain (t_nodes t') M p
             /\ (on_chain (t_nodes t) M T -> px_nHeight eT < px_nHeight e))
      \/ newly_failed (t_nodes t) (t_nodes t')).

Lemma wp_ActivateBestChainStep t M T eT :
  Inv t -> is_best t M -> tip t = Some T -> t_nodes t !! T = Some eT ->
  wp (ActivateBestChainStep connect undo_pos disconnect M) (fun b t' => b = true /\ stepped t M T eT t') t.
Proof.
  intros HI HM HT HeT. destruct (chain_all_self _ _ _ (proj1 HM)) as (eM & HeM & _).
  destruct (fork_with t M eM T eT HI HT HeT HeM) as (F & eF & HF & HeF & HonM & HonT & Hhigh).
  destruct (tip_path t T HI HT) as (e & He & Hch & Hv). assert (e = eT) as -> by congruence.
  unfold ActivateBestChainStep. apply wp_bind, wp_get. apply wp_bind. eapply wp_lift; [exact HF|]. apply wp_bind.
  eapply wp_disconnect_to; [done|exact HT|exact HeT|exact HeF|done| |].
  { rewrite Hch. unfold path_to. rewrite length_map, length_seq. pose proof (proj1 (node_height _ T eT (inv_store t HI) HeT)). cbn. lia. }
  destruct (Inv_chain t F eF HI HeF) as [HI1 Ht1]; [by eapply chain_all_on|]. set (t1 := with_chain _ t) in *.
  apply wp_bind. apply wp_bind. apply (wp_node F eF _ t1 HeF). apply wp_ret. apply wp_bind. apply (wp_node M eM _ t1 HeM). apply wp_bind.
  rewrite HT. eapply wp_mono; [apply (wp_connect_rounds _ t1 F eF M eM T); [done|done|exact HeF|exact HeM|exact HonM|exact HM|by exists eT|lia]|].
  intros r t2 (HI2 & Ev2 & Hr). apply wp_ret. change (t_nodes t1) with (t_nodes t) in *. split; [by destruct r|].
  split; [done|]. split; [done|]. destruct r; [by left| |by right; right|done]. right. left. destruct Hr as (St & p & e & Hp & Hep & Hon & Hlt).
  split; [done|]. exists p, e. split_and!; [done..|]. intros Hon'. specialize (Hhigh Hon'). lia.
Qed.

(** the loop ends with the best chain active *)
Definition ends (t : Tree) : Prop :=
  exists n t' M, (forall fuel, (n <= fuel)%nat -> ActivateBestChain connect undo_pos disconnect fuel t = Ok (Some true, t'))
    /\ Inv t' /\ evolves (t_nodes t) (t_nodes t') /\ tip t' = Some M /\ is_best t' M.

Lemma ends_after t t' :
  (forall fuel, ActivateBestChain connect undo_pos disconnect (S fuel) t = ActivateBestChain connect undo_pos disconnect fuel t') ->
  evolves (t_nodes t) (t_nodes t') -> ends t' -> ends t.
Proof.
  intros Hrun Ev (n & t2 & M & Hn & HI & Ev2 & Hrest). exists (S n), t2, M. split; [|split; [done|split; [by eapply evolves_trans|done]]].
  intros [|fuel] Hf; [lia|]. rewrite Hrun. apply Hn. lia.
Qed.

Lemma best_unique t M M' : Inv t -> is_best t M -> is_best t M' -> M = M'.
Proof.
  intros HI [H1 H2] [H1' H2']. destruct (H2 M' H1') as [|W]; [done|]. destruct (H2' M H1) as [|W']; [done|].
  pose proof (worse_trans _ (inv_works t HI) _ _ _ W W') as W2. by rewrite worse_irrefl in W2 by apply HI.
Qed.

Lemma one_round t T eT :
  Inv t -> tip t = Some T -> t_nodes t !! T = Some eT ->
  ends t \/ exists t', (forall fuel, ActivateBestChain connect undo_pos disconnect (S fuel) t = ActivateBestChain connect undo_pos disconnect fuel t')
    /\ Inv t' /\ evolves (t_nodes t) (t_nodes t')
    /\ (newly_failed (t_nodes t) (t_nodes t')
        \/ (steady (t_nodes t) (t_nodes t') /\ exists M p e, is_best t' M /\ tip t' = Some p /\ t_nodes t' !! p = Some e /\ on_chain (t_nodes t') M p
            /\ (on_chain (t_nodes t) M T -> px_nHeight eT < px_nHeight e))).
Proof.
  intros HI HT HeT.
  assert (Hfind : wp FindMostWorkChain (fun o t1 => exists M, o = Some M /\ search_step t t1 /\ is_best t1 M) t).
  { apply wp_FindMostWorkChain; [done|]. intros M t1 Hs Hb. by exists M. }
  unfold wp in Hfind. destruct (FindMostWorkChain t) as [[o t1]|err] eqn:Ef; [|done]. destruct Hfind as (M & -> & Hs & HM).
  pose proof (search_Inv t t1 HI Hs) as HI1. pose proof (ss_steady _ _ Hs) as St1.
  assert (HT1 : tip t1 = Some T) by (unfold tip; rewrite (ss_chain _ _ Hs); exact HT).
  destruct (like_lookup _ _ T eT (ev_like _ _ (proj1 St1)) HeT) as (eT1 & HeT1 & HcT). destruct (core_fields _ _ HcT) as (_ & _ & HhT & _).
  assert (Hrun : forall fuel, ActivateBestChain connect undo_pos disconnect (S fuel) t
    = if bool_decide (M = T) then Ok (Some true, t1) else
      (let* ok := ActivateBestChainStep connect undo_pos disconnect M in
       if ok : bool then let* t' := get in if bool_decide (Some M = tip t') then ret (Some true) else ActivateBestChain connect undo_pos disconnect fuel
       else ret (Some false)) t1).
  { intros fuel. cbn [ActivateBestChain]. unfold bind at 1. rewrite Ef. unfold bind at 1, get at 1. rewrite HT1.
    rewrite (bool_decide_ext (Some M = Some T) (M = T)) by (split; congruence). by case_bool_decide. }
  case_bool_decide as HMT.
  { left. exists 1%nat, t1, M. subst M. split_and!; [|done|apply St1|done|done]. intros [|fuel] Hf; [lia|]. apply Hrun. }
  pose proof (wp_ActivateBestChainStep t1 M T eT1 HI1 HM HT1 HeT1) as Hstep. unfold wp in Hstep.
  destruct (ActivateBestChainStep _ _ _ M t1) as [[b t2]|err] eqn:Es; [|done]. destruct Hstep as (-> & HI2 & Ev2 & Hcase).
  assert (Ev : evolves (t_nodes t) (t_nodes t2)) by (eapply evolves_trans; [apply St1|exact Ev2]).
  assert (Hrun2 : forall fuel, ActivateBestChain connect undo_pos disconnect (S fuel) t
    = if bool_decide (Some M = tip t2) then Ok (Some true, t2) else ActivateBestChain connect undo_pos disconnect fuel t2).
  { intros fuel. rewrite Hrun. unfold bind at 1. rewrite Es. unfold bind, get. by case_bool_decide. }
  case_bool_decide as HM2.
  - left. exists 1%nat, t2, M. split_and!; [|done|done|done|].
    { intros [|fuel] Hf; [lia|]. apply Hrun2. }
    destruct (tip_path t2 M HI2 (eq_sym HM2)) as (_ & _ & _ & Hv). split; [by apply (valid_usable connect)|].
    intros p Hp. apply (no_better_like _ _ _ _ (ev_like _ _ Ev2)), HM, (ev_usable _ _ Ev2), Hp.
  - right. exists t2. split_and!; [done..|]. destruct Hcase as [[_ Ht]|[(St2 & p & e & Hp & He & Hon & Hlt)|Hnew]]; [congruence| |].
    + right. split; [by eapply steady_trans|]. exists M, p, e. split_and!; [by eapply (is_best_steady t1)|done..|]. intros Hon'. rewrite <- HhT.
      apply Hlt. eapply on_chain_like; [apply St1|done].
    + left. eapply newly_failed_before; [apply St1|done].
Qed.

(** entries without a failure *)
Definition unfailed (st : NodeStore) : gset ptr := dom (filter (fun x => flag x.2 BLOCK_FAILED_MASK = false) st).

Lemma elem_unfailed st p : p ∈ unfailed st <-> exists e, st !! p = Some e /\ flag e BLOCK_FAILED_MASK = false.
Proof. unfold unfailed. rewrite elem_of_dom. unfold is_Some. by setoid_rewrite map_lookup_filter_Some. Qed.

Lemma unfailed_evolves st st' : evolves st st' -> unfailed st' ⊆ unfailed st.
Proof.
  intros Ev p (e' & He' & Hf')%elem_unfailed. apply elem_unfailed.
  destruct (like_lookup _ _ p e' (like_sym _ _ (ev_like _ _ Ev)) He') as (e & He & _). exists e. split; [done|].
  destruct (flag e BLOCK_FAILED_MASK) eqn:Ef; [|done]. by rewrite (ev_failed _ _ Ev p e e' He He' Ef) in Hf'.
Qed.

Lemma unfailed_less st st' : evolves st st' -> newly_failed st st' -> (size (unfailed st') < size (unfailed st))%nat.
Proof.
  intros Ev (x & e & e' & He & Hf & He' & Hf'). apply subset_size. split; [by apply unfailed_evolves|]. intros Hsub.
  assert (Hx : x ∈ unfailed st') by (apply Hsub, elem_unfailed; eauto). apply elem_unfailed in Hx as (e2 & He2 & Hf2). congruence.
Qed.

(** towards a best chain that the tip is on *)
Lemma ends_on_chain k : (forall t, Inv t -> (size (unfailed (t_nodes t)) < k)%nat -> ends t) ->
  forall d t M eM T eT, Inv t -> (size (unfailed (t_nodes t)) <= k)%nat -> is_best t M -> t_nodes t !! M = Some eM ->
  tip t = Some T -> t_nodes t !! T = Some eT -> on_chain (t_nodes t) M T -> px_nHeight eM - px_nHeight eT < Z.of_nat d -> ends t.
Proof.
  intros Hless. induction d as [|d IH]; intros t M eM T eT HI Hk HM HeM HT HeT Hon Hd.
  { destruct (on_ancestor _ M eM T eT (inv_store t HI) HeM HeT Hon). lia. }
  destruct (one_round t T eT HI HT HeT) as [|(t' & Hrun & HI' & Ev & Hcase)]; [done|]. apply (ends_after t t' Hrun Ev).
  destruct Hcase as [Hnew|(St & M' & p & e & HM' & Hp & He & Hon' & Hlt)].
  - apply Hless; [done|]. pose proof (unfailed_less _ _ Ev Hnew). lia.
  - assert (M' = M) as -> by (eapply best_unique; [exact HI'|done|by eapply is_best_steady]).
    destruct (like_lookup _ _ M eM (ev_like _ _ Ev) HeM) as (eM' & HeM' & Hc). destruct (core_fields _ _ Hc) as (_ & _ & Hh & _).
    pose proof (subseteq_size _ _ (unfailed_evolves _ _ Ev)). specialize (Hlt Hon).
    eapply (IH t' M eM' p e); [done|lia|done..|lia].
Qed.

Lemma ends_always t : Inv t -> ends t.
Proof.
  remember (size (unfailed (t_nodes t))) as k eqn:Hk. revert t Hk. induction k as [k IH] using lt_wf_ind. intros t -> HI.
  destruct (inv_tip t HI) as (T & HT & Hv). destruct (chain_all_self _ _ _ Hv) as (eT & HeT & _).
  destruct (one_round t T eT HI HT HeT) as [|(t' & Hrun & HI' & Ev & Hcase)]; [done|]. apply (ends_after t t' Hrun Ev).
  assert (Hless : forall t2, Inv t2 -> (size (unfailed (t_nodes t2)) < size (unfailed (t_nodes t)))%nat -> ends t2) by (intros t2 HI2 Hs; by eapply IH).
  destruct Hcase as [Hnew|(St & M & p & e & HM & Hp & He & Hon & _)].
  - apply Hless; [done|]. by apply unfailed_less.
  - destruct (chain_all_self _ _ _ (proj1 HM)) as (eM & HeM & _).
    eapply (ends_on_chain _ Hless (Z.to_nat (px_nHeight eM - px_nHeight e + 1)) t' M eM p e); [done| |done..|lia].
    apply subseteq_size, unfailed_evolves, Ev.
Qed.
End Activation.
End Tree.

(** C6: the activation of the best chain terminates and finds it. Each block has a fixed
    verdict: its checks pass, or they reject it as invalid without the possibility that
    only the copy is corrupted (such a rejection leaves no mark, and the block would be
    tried again); disconnecting a block always succeeds, and no system error occurs.
    Then, from a tree that satisfies the invariant and whatever blocks are rejected, the
    loop of [ActivateBestChain] ends, and the active chain is the path to the best of the
    blocks whose whole chain is linked, has its data, carries no failure and passes the
    checks: best in the order of [setBlockIndexCandidates], less penalty first and then
    more work. The invariant of the tree still holds. *)
Theorem best_chain_activated (connect : ptr -> verdict) (undo_pos : ptr -> Z) (disconnect : ptr -> bool) (t : Tree) :
  (forall p, connect p = Connected \/ connect p = Violated false) -> (forall p, disconnect p = true) -> Inv connect t ->
  exists n t' M eM,
    (forall fuel, (n <= fuel)%nat -> ActivateBestChain connect undo_pos disconnect fuel t = Ok (Some true, t'))
    /\ t_nodes t !! M = Some eM /\ t_chain t' = path_to (entries (t_nodes t)) M (entry_of eM)
    /\ valid connect (t_nodes t) M /\ (forall p, valid connect (t_nodes t) p -> no_better (t_nodes t) p M) /\ Inv connect t'.
Proof.
  intros Hc Hd HI. destruct (ends_always connect undo_pos disconnect Hc Hd t HI) as (n & t' & M & Hrun & HI' & Ev & HM & Hbest).
  destruct (tip_path connect t' M HI' HM) as (eM' & HeM' & Hch & Hv). pose proof (ev_like _ _ _ Ev) as L.
  destruct (like_lookup _ _ M eM' (like_sym _ _ L) HeM') as (eM & HeM & Hcore). exists n, t', M, eM.
  split_and!; [done|done| |by apply (ev_valid _ _ _ Ev)| |done].
  - rewrite Hch, (like_entries _ _ L). f_equal. destruct (core_fields _ _ Hcore) as (H1 & H2 & H3 & _ & _ & _ & _ & H4).
    unfold entry_of. by rewrite H1, H2, H3, H4.
  - intros p Hp. apply (no_better_like _ _ p M L), Hbest. apply (valid_usable connect). by apply (ev_valid _ _ _ Ev).
Qed.

(** a fork: 1 - 2 is active, 1 - 3 - 4 - 5 has more work and 5 fails its checks *)
Definition fork_node (p h : Z) (prev : option ptr) (work : Z) : BlockNode :=
  mkNode (1000 + p) prev None h 0 0 0 (arith_of_u64 work) 0 [] 1 (h + 1) 11 0 0 None None 4 0 0 (100 * h) 0 0 [] p.

Definition fork_nodes : NodeStore :=
  list_to_map [(1, fork_node 1 0 None 10); (2, fork_node 2 1 (Some 1) 20); (3, fork_node 3 1 (Some 1) 19);
    (4, fork_node 4 2 (Some 3) 29); (5, fork_node 5 3 (Some 4) 39)].

Definition fork_tree : Tree :=
  mkTree ∅ fork_nodes [Some 1; Some 2] (Some 5) None {[2; 3; 4; 5]} [] 6 ∅ ∅.

Definition fork_connect (p : ptr) : verdict := if p =? 5 then Violated false else Connected.

Lemma fork_lookup p e : fork_nodes !! p = Some e ->
  p = 1 /\ e = fork_node 1 0 None 10 \/ p = 2 /\ e = fork_node 2 1 (Some 1) 20 \/ p = 3 /\ e = fork_node 3 1 (Some 1) 19
  \/ p = 4 /\ e = fork_node 4 2 (Some 3) 29 \/ p = 5 /\ e = fork_node 5 3 (Some 4) 39.
Proof.
  intros H. apply elem_of_list_to_map_2 in H. rewrite !elem_of_cons in H.
  destruct H as [H|[H|[H|[H|[H|H]]]]]; [injection H as -> ->; tauto..|by apply not_elem_of_nil in H].
Qed.

Ltac fork_cases H :=
  apply fork_lookup in H; destruct H as [[? ?]|[[? ?]|[[? ?]|[[? ?]|[? ?]]]]]; simplify_eq.

Lemma fork_Inv : Inv fork_connect fork_tree.
Proof.
  split; cbn [t_nodes t_chain t_bestInvalid t_candidates fork_tree].
  - intros p e H. rewrite lookup_entries in H. destruct (fork_nodes !! p) as [n|] eqn:E; [|done]. injection H as <-.
    fork_cases E; (split; cbn; [lia| |done]); try done; (eexists; split; [vm_compute; reflexivity|reflexivity]).
  - intros p e H. fork_cases H; apply of_u64_spec; lia.
  - intros p e q e' H Hq H'. fork_cases H; cbn in Hq; simplify_eq; fork_cases H'; vm_compute; done.
  - intros p e q e' H H' Hp Hq. fork_cases H; try done; fork_cases H'; done.
  - intros i x H. destruct i as [|[|i]]; cbn in H; simplify_eq; [exists 1|exists 2]; eexists;
      (split; [done|]); (split; [vm_compute; reflexivity|]); (split; [done|]); intros j Hj;
      (destruct j as [|[|j]]; [by vm_compute..|lia]) || (destruct j as [|j]; [by vm_compute|lia]).
  - exists 2. split; [by vm_compute|]. eapply chain_next with (q := 1); [by vm_compute|by vm_compute|done|].
    eapply chain_first; [by vm_compute|by vm_compute|done].
  - intros p e q e' H Hq H'. fork_cases H; cbn in Hq; simplify_eq; fork_cases H'; done.
  - done.
  - intros p Hp. assert (p = 2 \/ p = 3 \/ p = 4 \/ p = 5) as [->|[->|[->| ->]]] by set_solver; (eexists; split; [by vm_compute|done]).
  - intros p Hu Hb. destruct (chain_all_self _ _ _ Hu) as (e & He & _). fork_cases He; [|set_solver..].
    destruct (Hb 2); [|done..]. eapply chain_next with (q := 1); [by vm_compute|by vm_compute|done|].
    eapply chain_first; [by vm_compute|by vm_compute|done].
Qed.

Lemma best_chain_activated_witness :
  Inv fork_connect fork_tree
  /\ (if ActivateBestChain fork_connect (fun _ => 0) (fun _ => true) 3 fork_tree is Ok (_, t') then tip t' else None) = Some 4
  /\ exists n t' M eM,
    (forall fuel, (n <= fuel)%nat -> ActivateBestChain fork_connect (fun _ => 0) (fun _ => true) fuel fork_tree = Ok (Some true, t'))
    /\ t_nodes fork_tree !! M = Some eM /\ t_chain t' = path_to (entries (t_nodes fork_tree)) M (entry_of eM)
    /\ valid fork_connect (t_nodes fork_tree) M
    /\ (forall p, valid fork_connect (t_nodes fork_tree) p -> no_better (t_nodes fork_tree) p M) /\ Inv fork_connect t'.
Proof.
  split; [exact fork_Inv|]. split; [by vm_compute|].
  apply best_chain_activated; [|done|exact fork_Inv]. intros p. unfold fork_connect. destruct (p =? 5); auto.
Defined.
